(* ===== verification/_CoqProject ===== *)
-Q . S2P
Prelude.v
Velocity.v
Policy.v
Order.v
Extern.v
Crypto.v
ChaCha20.v
Setup.v
Tx.v
Keys.v
Lss.v
Allowlist.v
Script.v
Secrets.v
Enforcement.v
Validator.v
SimpleValidator.v
OnchainValidator.v
NodeState.v
ChannelOps.v
ChannelSafety.v
PersistFailure.v
Monitor.v
Tracker.v
Persist.v
PersistSpec.v
Node.v
NodeInv.v
NodeRestart.v
NodeChannels.v
Approver.v
Msgs.v
Handler.v
HandlerSafety.v
NodeSpending.v
Client.v
ClientExample.v
ClientHandler.v
External.v
Frontend.v
NodeFront.v
PortFront.v
Proxy.v
Recovery.v
MultiSigner.v
NullValidator.v
Loopback.v
SdCard.v
FatPersist.v
FatCrash.v
FatExample.v
Serial.v
