(* ===== verification/Prelude.v ===== *)
(** * A verification development for the Validating Lightning Signer (VLS)

    The signer keeps the keys of a lightning node apart from the node.  The
    node asks it, message by message, to sign commitments, to release the
    secrets that revoke them, to pay invoices and to spend on-chain funds; the
    signer refuses what would let the holder lose money.  This development
    models the signer, the store it keeps its state in, the link to the node
    and the programs around it, and proves what their users rely on.

    ** The parts of the program and the files that model them

    In the order of the project file; every name of a definition is the name of
    the source unless the definition's comment says otherwise.

    Foundations.  [Prelude]: outcomes of a Rust function ([Ok], [Err],
    [Panic]), machine integers at their width, loops, and the tactics and
    generic lemmas.  [Order]: the trait Ord as a class with laws, sorting, the
    iterator of util/mod.rs.  [Extern]: data and functions of the bitcoin,
    secp256k1 and lightning crates.  [Crypto]: util/byte_utils.rs and
    util/crypto_utils.rs.

    Policy (vls-core/src/policy).  [Velocity]: util/velocity.rs.  [Policy]:
    error.rs, filter.rs, mod.rs, util/status.rs.  [Validator]: the trait of
    validator.rs as a record of operations with its default methods, and the
    class [SafeValidator] of what a channel needs of a validator.  [Secrets]
    and [Enforcement]: the revocation secrets and the enforcement state of
    validator.rs.  [SimpleValidator], [OnchainValidator], [NullValidator]: the
    implementations.

    Channels.  [Setup], [Tx], [Script]: the parameters of a channel, the
    contents of a commitment (tx/tx.rs, util/transaction_utils.rs) and the
    parsing of its scripts (tx/script.rs).  [ChannelOps]: every request of
    channel.rs, as a function of a state and error monad over the channel, the
    payments of its node and the stored copy of the channel.
    [ChannelSafety]: histories of requests, failures and restarts.
    [PersistFailure]: requests whose result cannot be stored.

    Chain.  [Monitor]: monitor.rs, one listener per channel.  [Tracker]:
    chain/tracker.rs, which checks headers and feeds the listeners.

    Node.  [Keys]: signer/derive.rs and signer/my_keys_manager.rs.
    [Allowlist], [NodeState], [Node]: node.rs, with payments and invoices in
    [NodeState] and the rest, and invoice.rs, in [Node].  [NodeInv],
    [NodeRestart], [NodeSpending], [NodeChannels]: theorems on the node.
    [MultiSigner]: signer/multi_signer.rs and the seed persisters.

    Storage.  [Persist]: the trait of persist/mod.rs as a class, and the three
    implementations of vls-persist.  [PersistSpec]: its contract, one record
    per node, and the proofs that implementations fulfil it.  [ChaCha20] and
    [Lss]: the lightning storage server with its client.  [External]: a signer
    that keeps its state there.

    Protocol.  [Msgs]: vls-protocol and bolt-derive, all messages and their
    framing.  [Approver] and [Handler]: vls-protocol-signer.  [HandlerSafety]:
    runs of messages.  [Client], [ClientExample] and [ClientHandler]:
    vls-protocol-client, alone and connected to the handler through bytes.
    [Loopback]: util/loopback.rs, the same services without a protocol.

    Programs.  [Frontend]: vls-frontend, the chain follower and the heartbeat
    monitor.  [NodeFront] and [PortFront]: vls-proxy/src/nodefront.rs and
    portfront.rs, the two trackers that the follower feeds.  [Proxy]: the gRPC
    proxy (vls-proxy/src/grpc) as a transition system of its concurrent tasks.
    [Recovery]: vls-proxy/src/recovery, which closes channels and sweeps funds
    when the node is lost.

    The embedded signer (vls-signer-stm32).  [SdCard]: sdcard.rs, the cached
    block device between the file system and the card.  [FatPersist]:
    fat_json_persist.rs, the persister in files; [FatCrash]: what an update
    that is interrupted between two operations of the file system leaves of it;
    [FatExample]: a file system
    in memory and a serialization that both are applied to.  [Serial]: the
    driver usbserial.rs, the request loop of demo_signer_main.rs and, at the
    other end of the line, vls-proxy/src/serial.rs.

    ** How code is modelled

    A function that can fail or panic gives an [outcome].  A function that
    changes state also gives the state it leaves, when it fails too: as in the
    source, an error leaves the changes made before it in place.  Arithmetic
    that panics in a build with overflow checks and wraps in one without is
    written with the operations of this file, which take the [Profile] of the
    build as a parameter; theorems hold for both profiles unless they name one.
    A [usize] has 64 bits, except in [SdCard], which is code for a device of 32
    bits.

    Shared objects are shared: the map of channels holds pointers to slots, so
    that the two ids of a channel lead to one slot, and the monitor of a channel
    is the listener that the tracker has under its funding outpoint.  Locks are
    not modelled within a request, which runs alone; the interleaving of tasks
    is modelled where the program has it, in [Proxy].  Readings of clocks and
    random bytes are arguments.  A policy error carries the format string of its
    message.

    ** What is a parameter

    Code outside the repository is a class of functions, with what is relied on
    in a class of laws next to it, and with an instance for which the laws are
    proved, on which the examples run: [Lib], [KeyLib] and [KeyLaws] (bitcoin,
    secp256k1, lightning), [ChainLib] (headers and txoo proofs), [CryptoLib] and
    [HexLib], [AddressLib], [InvoiceLib], [SerLib] and [JsonLib] (serde),
    [SerdeBolt] and [SerdeBoltLaws] (the wire encoding of primitive types),
    [WireLib] (decoding of transactions and PSBTs), [FollowLib] and
    [SourceLaws] (bitcoind), [Explorer] (esplora), [Sdio] and [SdioLaws] (the
    driver of the card), [FatFs] and [FatLaws] (the file system), [JsonLaws]
    and [HexNames], [Cable] and [CableLaws] (the USB stack and the serial port
    of the host).  Interfaces inside the
    repository are classes too, and their laws are proved of the
    implementations: [SafeValidator] of the simple and the on-chain validator,
    [ListenerLaws] of the monitor, [PersistLaws] and [ListLaws] of the key-value
    store, [TrackLaws] of both trackers of the front end, [SeedLaws] of the file
    seed persister.

    ** What the theorems show

    Channels.  Over every sequence of requests, with failures and restarts, the
    signer never releases the secret of a holder commitment that it signed or
    will sign, never signs two different counterparty commitments with one
    number, and can punish every revoked counterparty commitment; what a
    successful request changed is in the store.  The same is proved again of
    the messages and replies of the whole signer, with any number of channels.
    These theorems are about filters that enforce every tag, and about signers
    that stop when the persister fails: a request that could not be stored has
    still changed the state in memory ([PersistFailure]), and an example shows
    that the first guarantee is lost when the signer goes on.

    Policy.  Under a filter that enforces every tag a commitment is accepted
    exactly under the conditions listed in
    the theorem; a mutual close pays the holder, sweeps pay the wallet or the
    allowlist, an on-chain transaction keeps the funds up to a fee; every
    output of a decoded commitment is accounted for; payments are balanced, and
    what a node approves in any time window, over any run of requests served or
    refused, is bounded.  The store of
    counterparty secrets gives back every secret that was put into it.

    Chain.  After any sequence of added and removed blocks the tracker reports,
    for every channel, the depths that its chain of blocks has, if it is a
    chain that the monitors can follow; the chain
    follower ends, with the tracker on the chain of its source.

    Node and storage.  A restart of a signer gives back all its nodes, with
    channels, allowlists, approved payments and trackers; the composite
    persister does the same writes to its two stores; an external store holds the state of
    the signer after every request and gives it back; the storage server stores
    all or none of the values of a request, and a client reads what it wrote;
    the cipher is the one of RFC 8439.

    Protocol and programs.  Messages survive the stream, decoding is typed,
    the protocol client and the loopback adapter ask the channel for the same
    thing, the proxy is a sequence of calls of the signer whose replies go to
    their senders, and the recovery tool sweeps only delayed outputs that are
    mature, to the destination only.

    The embedded signer.  As long as its blocks can be read the block device is
    a flat array of bytes, its persister keeps the record of its node over
    restarts, and a call through the serial line is a call of the signer.  An
    update of the files that is interrupted keeps the channel on the card but
    leaves a file that the persister cannot cope with.

    The conditions of each theorem are its hypotheses, and its comment names
    them; where one excludes something that the code does wrong, a lemma or a
    comment next to it says what happens then.

    ** Bounds and fuel

    Loops over data are structural.  The others take fuel: the processing loop
    of the cipher and the chunks of a list use the length of their input, each
    turn consuming some of it; the iterator of [Order] the length of its second
    list; the loops that read from a file, from the card and from the serial
    line the number of bytes asked for or left, and for the line the number of
    polls that can be in vain; the loop of the chain follower an argument, which
    the theorem bounds by the number of blocks between the two chains.  Each has a lemma that this
    much is enough.  Numbers in requests are bounded: a commitment number below
    2^63, 2^48 in a revocation, 2^64 - 2 in the request for a secret (far above
    what a channel reaches, and below what would overflow the source's
    counters); versions of a stored value are below 2^63 and a proxy sends
    fewer than 2^64 requests.

    ** Not modelled

    The devices of the embedded builds (vls-signer-stm32, embedded): screen,
    touch panel, set-up dialogue and start-up code, and that the host can read
    a reply while the device still writes it; the browser bindings (wasm);
    command lines, configuration, process start-up and sockets of vls-proxy;
    the tasks that frontend.rs spawns and the waiting for a port to become
    ready; the Postgres driver of the storage server; the encoding of foreign
    types by serde; formatting, logging and metrics; tests and test utilities.
    The signer's methods that only return a field or forward to another
    method, and the setters that only tests use, are left out where nothing
    depends on them. *)

From stdpp Require Export base gmap list strings.
From Stdlib Require Export ZArith Lia.

Global Open Scope Z_scope.

(** ** Outcomes of a Rust computation

    A Rust function of type [Result<A, E>] either returns [Ok], returns [Err],
    or panics (an [assert!], [unwrap], [expect], index out of bounds, or an
    arithmetic overflow when overflow checks are compiled in). *)

Inductive outcome (E A : Type) : Type :=
| Ok (a : A)
| Err (e : E)
| Panic.
Arguments Ok {E A} a.
Arguments Err {E A} e.
Arguments Panic {E A}.

#[global] Instance outcome_ret E : MRet (outcome E) := fun A a => Ok a.
#[global] Instance outcome_bind E : MBind (outcome E) := fun A B f m =>
  match m with
  | Ok a => f a
  | Err e => Err e
  | Panic => Panic
  end.

(** The [?] operator with [map_err]. *)
Definition map_err {E E' A} (f : E -> E') (m : outcome E A) : outcome E' A :=
  match m with
  | Ok a => Ok a
  | Err e => Err (f e)
  | Panic => Panic
  end.

(** [Option::ok_or] and [Option::unwrap] / [expect]. *)
Definition ok_or {E A} (o : option A) (e : E) : outcome E A :=
  match o with Some a => Ok a | None => Err e end.

Definition unwrap {E A} (o : option A) : outcome E A :=
  match o with Some a => Ok a | None => Panic end.

(** [Result::unwrap] / [expect] on an outcome: an error becomes a panic. *)
Definition unwrap_ok {E E' A} (m : outcome E A) : outcome E' A :=
  match m with Ok a => Ok a | _ => Panic end.

(** [assert!(b)]. *)
Definition assert_ {E} (b : bool) : outcome E unit :=
  if b then Ok tt else Panic.

(** A statement guarded by a condition: [if b { m }]. *)
Definition whenb {E} (b : bool) (m : outcome E unit) : outcome E unit :=
  if b then m else Ok tt.

Definition is_ok {E A} (m : outcome E A) : bool :=
  match m with Ok _ => true | _ => false end.

(** A [for] loop over a list with an accumulator. *)
Fixpoint foldM {E A B} (f : A -> B -> outcome E A) (acc : A) (l : list B)
  : outcome E A :=
  match l with
  | [] => Ok acc
  | b :: l' => acc' ← f acc b; foldM f acc' l'
  end.

(** ** Machine integers

    An unsigned integer of width [w] is a [Z] in [[0, 2^w)].  Plain [+], [-]
    and [*] panic on overflow when the crate is compiled with overflow checks
    (the dev and test profiles) and wrap around otherwise (the release
    profiles of the repository, none of which sets [overflow-checks]).  The
    profile is a parameter of every definition that uses plain arithmetic. *)

Class Profile := overflow_checks : bool.

Definition umax (w : Z) : Z := 2 ^ w - 1.
Definition in_u (w x : Z) : Prop := 0 <= x < 2 ^ w.
Notation u64 := (in_u 64).
Notation u32 := (in_u 32).
Notation u16 := (in_u 16).

Definition U64_MAX : Z := 2 ^ 64 - 1.
Definition U32_MAX : Z := 2 ^ 32 - 1.

Definition wrapping {P : Profile} {E} (w r : Z) : outcome E Z :=
  if (0 <=? r) && (r <? 2 ^ w) then Ok r
  else if overflow_checks then Panic else Ok (r mod 2 ^ w).

Definition add64 {P : Profile} {E} (a b : Z) : outcome E Z := wrapping 64 (a + b).
Definition sub64 {P : Profile} {E} (a b : Z) : outcome E Z := wrapping 64 (a - b).
Definition mul64 {P : Profile} {E} (a b : Z) : outcome E Z := wrapping 64 (a * b).
Definition add32 {P : Profile} {E} (a b : Z) : outcome E Z := wrapping 32 (a + b).
Definition sub32 {P : Profile} {E} (a b : Z) : outcome E Z := wrapping 32 (a - b).

(** [as u32] and the like truncate. *)
Definition as_u (w x : Z) : Z := x mod 2 ^ w.

Definition checked_add64 (a b : Z) : option Z :=
  if a + b <? 2 ^ 64 then Some (a + b) else None.
Definition checked_sub64 (a b : Z) : option Z :=
  if 0 <=? a - b then Some (a - b) else None.
Definition saturating_add64 (a b : Z) : Z := Z.min (a + b) U64_MAX.
Definition saturating_sub32 (a b : Z) : Z := Z.max (a - b) 0.

(** Sums of lists of integers. *)
Definition sum_list_Z (l : list Z) : Z := foldr Z.add 0 l.

(** [iter().sum::<u64>()]: plain additions from zero. *)
Definition sum64 {P : Profile} {E} (l : list Z) : outcome E Z := foldM add64 0 l.

#[global] Arguments wrapping : simpl never.
#[global] Arguments add64 : simpl never.
#[global] Arguments sub64 : simpl never.
#[global] Arguments mul64 : simpl never.
#[global] Arguments add32 : simpl never.
#[global] Arguments sub32 : simpl never.
#[global] Arguments sum64 : simpl never.
#[global] Arguments checked_add64 : simpl never.
#[global] Arguments checked_sub64 : simpl never.
#[global] Arguments saturating_add64 : simpl never.
#[global] Arguments whenb : simpl never.

(** ** Lemmas on outcomes *)

(** A pair with a known second component. *)
Lemma pair_eta {A B} (x : A * B) (b : B) : x.2 = b -> x = (x.1, b).
Proof. destruct x. by intros <-. Qed.

(** A program that is seen to succeed by evaluation. *)
Lemma is_ok_pair {E A B} (x : A * outcome E B) : is_ok x.2 = true -> exists s b, x = (s, Ok b).
Proof. destruct x as [s [b| |]]; cbn; eauto; discriminate. Qed.

Section outcome_lemmas.
Context {E : Type}.

Lemma bind_Ok {A B} (m : outcome E A) (f : A -> outcome E B) b :
  (m ≫= f) = Ok b <-> exists a, m = Ok a /\ f a = Ok b.
Proof.
  destruct m; cbn; split.
  - eauto.
  - intros (? & [= <-] & ?); done.
  - done.
  - intros (? & ? & ?); done.
  - done.
  - intros (? & ? & ?); done.
Qed.

Lemma Ok_bind {A B} (a : A) (f : A -> outcome E B) : (Ok a ≫= f) = f a.
Proof. done. Qed.

Lemma map_err_Ok {E' A} (g : E -> E') (m : outcome E A) a :
  map_err g m = Ok a <-> m = Ok a.
Proof. destruct m; cbn; naive_solver. Qed.

Lemma ok_or_Ok {A} (o : option A) (e : E) a : ok_or o e = Ok a <-> o = Some a.
Proof. destruct o; cbn; naive_solver. Qed.

Lemma unwrap_Ok {A} (o : option A) (a : A) : unwrap (E := E) o = Ok a <-> o = Some a.
Proof. destruct o; cbn; naive_solver. Qed.

Lemma unwrap_ok_Ok {E' A} (m : outcome E A) (a : A) :
  unwrap_ok (E' := E') m = Ok a <-> m = Ok a.
Proof. destruct m; cbn; naive_solver. Qed.

Lemma assert_Ok b u : assert_ (E := E) b = Ok u <-> b = true.
Proof. destruct b, u; cbn; naive_solver. Qed.

Lemma whenb_Err_Ok b (e : E) u : whenb b (Err e) = Ok u <-> b = false.
Proof. destruct b, u; cbn; naive_solver. Qed.

Lemma foldM_app {A B} (f : A -> B -> outcome E A) acc l1 l2 :
  foldM f acc (l1 ++ l2) = (a ← foldM f acc l1; foldM f a l2).
Proof.
  revert acc; induction l1 as [|b l1 IH]; intros acc; cbn; [done|].
  destruct (f acc b); cbn; auto.
Qed.

(** Results that are collected in a vector. *)
Lemma foldM_collect {A B} (f : A -> outcome E B) l acc ys : Forall2 (fun x y => f x = Ok y) l ys ->
  foldM (fun acc x => y ← f x; Ok (acc ++ [y])) acc l = Ok (acc ++ ys).
Proof.
  intros H. revert acc. induction H as [|x y l ys Hx _ IH]; intros acc; cbn.
  - by rewrite app_nil_r.
  - rewrite Hx. cbn. by rewrite IH, <- app_assoc.
Qed.

(** Loop invariants of a [for] loop. *)
(** A fold whose steps succeed under an invariant succeeds. *)
Lemma foldM_total {A B} (I : list B -> A -> Prop) (f : A -> B -> outcome E A) l acc0 :
  I [] acc0 ->
  (forall pre b post acc, l = pre ++ b :: post -> I pre acc ->
    exists acc', f acc b = Ok acc' /\ I (pre ++ [b]) acc') ->
  exists acc, foldM f acc0 l = Ok acc /\ I l acc.
Proof.
  intros H0 Hstep.
  assert (H : forall post pre acc, l = pre ++ post -> I pre acc ->
    exists acc', foldM f acc post = Ok acc' /\ I l acc').
  { induction post as [|b post IH]; intros pre acc Hl HI; cbn.
    - rewrite app_nil_r in Hl. subst l. eauto.
    - destruct (Hstep pre b post acc Hl HI) as (acc' & Hf & HI'). rewrite Hf. cbn.
      apply (IH (pre ++ [b])); [by rewrite <- app_assoc|done]. }
  by apply (H l []).
Qed.

Lemma foldM_inv {A B} (I : list B -> A -> Prop) (f : A -> B -> outcome E A) l acc0 acc :
  I [] acc0 ->
  (forall pre b acc1 acc2, I pre acc1 -> f acc1 b = Ok acc2 -> I (pre ++ [b]) acc2) ->
  foldM f acc0 l = Ok acc -> I l acc.
Proof.
  intros H0 Hstep. change l with ([] ++ l) at 2. revert H0.
  generalize (@nil B) as pre. revert acc0.
  induction l as [|b l IH]; intros acc0 pre HI Hf; cbn in Hf.
  - injection Hf as <-. by rewrite app_nil_r.
  - apply bind_Ok in Hf as (a & Ha & Hf).
    specialize (IH a (pre ++ [b])). rewrite <- app_assoc in IH. cbn in IH. eauto.
Qed.
End outcome_lemmas.

(** ** Lemmas on machine integers *)

Section integer_lemmas.
Context {P : Profile} {E : Type}.

Lemma wrapping_in w r : 0 <= r < 2 ^ w -> wrapping (E := E) w r = Ok r.
Proof.
  intros H. unfold wrapping.
  rewrite (proj2 (Z.leb_le _ _)), (proj2 (Z.ltb_lt _ _)) by lia. done.
Qed.

Lemma add64_in a b : 0 <= a + b < 2 ^ 64 -> add64 (E := E) a b = Ok (a + b).
Proof. apply wrapping_in. Qed.
Lemma sub64_in a b : 0 <= a - b < 2 ^ 64 -> sub64 (E := E) a b = Ok (a - b).
Proof. apply wrapping_in. Qed.
Lemma mul64_in a b : 0 <= a * b < 2 ^ 64 -> mul64 (E := E) a b = Ok (a * b).
Proof. apply wrapping_in. Qed.
Lemma add32_in a b : 0 <= a + b < 2 ^ 32 -> add32 (E := E) a b = Ok (a + b).
Proof. apply wrapping_in. Qed.
Lemma sub32_in a b : 0 <= a - b < 2 ^ 32 -> sub32 (E := E) a b = Ok (a - b).
Proof. apply wrapping_in. Qed.

Lemma wrapping_range w r x : 0 <= w -> wrapping (E := E) w r = Ok x -> in_u w x.
Proof.
  intros Hw. unfold wrapping, in_u.
  destruct (0 <=? r) eqn:H1, (r <? 2 ^ w) eqn:H2; cbn;
    [intros [= <-]; lia | ..];
    (destruct overflow_checks; [done|]; intros [= <-];
     apply Z.mod_pos_bound, Z.pow_pos_nonneg; lia).
Qed.

Lemma sum64_in l : Forall (fun x => 0 <= x) l -> sum_list_Z l < 2 ^ 64 ->
  sum64 (E := E) l = Ok (sum_list_Z l).
Proof.
  unfold sum64. enough (H : forall acc, 0 <= acc -> Forall (fun x => 0 <= x) l ->
    acc + sum_list_Z l < 2 ^ 64 -> foldM (add64 (E := E)) acc l = Ok (acc + sum_list_Z l)).
  { intros ? ?. apply (H 0); done. }
  induction l as [|x l IH]; intros acc Hacc Hl Hb; cbn in *.
  - by rewrite Z.add_0_r.
  - inversion Hl as [|? ? Hx Hl']; subst.
    assert (0 <= sum_list_Z l).
    { clear -Hl'. induction Hl'; cbn; unfold sum_list_Z in *; lia. }
    fold (sum_list_Z l) in *.
    rewrite add64_in by lia. cbn. rewrite IH by (done || lia). f_equal. lia.
Qed.
End integer_lemmas.

Lemma checked_add64_Some a b c :
  checked_add64 a b = Some c <-> c = a + b /\ a + b < 2 ^ 64.
Proof. unfold checked_add64. destruct (a + b <? 2 ^ 64) eqn:H; naive_solver lia. Qed.

Lemma checked_sub64_Some a b c :
  checked_sub64 a b = Some c <-> c = a - b /\ b <= a.
Proof. unfold checked_sub64. destruct (0 <=? a - b) eqn:H; naive_solver lia. Qed.

Lemma checked_sub64_None a b : checked_sub64 a b = None <-> a < b.
Proof. unfold checked_sub64. destruct (0 <=? a - b) eqn:H; naive_solver lia. Qed.

Lemma sum_list_Z_app l1 l2 : sum_list_Z (l1 ++ l2) = sum_list_Z l1 + sum_list_Z l2.
Proof. induction l1; cbn; unfold sum_list_Z in *; lia. Qed.

Lemma sum_list_Z_nonneg l : Forall (fun x => 0 <= x) l -> 0 <= sum_list_Z l.
Proof. induction 1; cbn; unfold sum_list_Z in *; lia. Qed.

Lemma filter_none {A} (P : A -> Prop) `{!forall x, Decision (P x)} (l : list A) :
  (forall x, x ∈ l -> ~ P x) -> base.filter P l = [].
Proof.
  induction l as [|x l IH]; intros Hl; [done|]. rewrite filter_cons, decide_False.
  - apply IH. intros y Hy. apply Hl. by apply list_elem_of_further.
  - apply Hl, list_elem_of_here.
Qed.

(** ** Automation *)

Create HintDb vls discriminated.
(** [inv_ok H] turns a hypothesis [c = Ok x], with [c] a monadic program, into
    the facts that make each step of [c] succeed. *)
Ltac inv_ok_step H :=
  lazymatch type of H with
  | mbind _ _ = Ok _ => let x := fresh "x" in let Hx := fresh "Hx" in
      apply bind_Ok in H as (x & Hx & H); try inv_ok_step Hx; cbv beta in H; inv_ok_step H
  | Ok _ = Ok _ => first [injection H as H; try subst | idtac]
  | Err _ = Ok _ => discriminate H
  | Panic = Ok _ => discriminate H
  | mret _ = Ok _ => injection H as H; try subst
  | map_err _ _ = Ok _ => apply map_err_Ok in H; inv_ok_step H
  | ok_or _ _ = Ok _ => apply ok_or_Ok in H; inv_ok_step H
  | unwrap _ = Ok _ => apply unwrap_Ok in H; inv_ok_step H
  | unwrap_ok _ = Ok _ => apply (proj1 (unwrap_ok_Ok _ _)) in H; inv_ok_step H
  | assert_ _ = Ok _ => apply assert_Ok in H
  | whenb _ (Err _) = Ok _ => apply whenb_Err_Ok in H
  | checked_add64 _ _ = Some _ =>
      let H' := fresh H in apply checked_add64_Some in H as [H H']; try subst
  | checked_sub64 _ _ = Some _ =>
      let H' := fresh H in apply checked_sub64_Some in H as [H H']; try subst
  | _ => idtac
  end.
Ltac inv_ok H := inv_ok_step H.

(** Reduce a bind whose first step is known. *)
Ltac step := cbn [mbind outcome_bind unwrap ok_or unwrap_ok map_err].

(** Evaluate machine arithmetic that stays in range. *)
Ltac arith64 :=
  repeat (first [rewrite add64_in by lia | rewrite sub64_in by lia
                |rewrite mul64_in by lia | rewrite add32_in by lia
                |rewrite sub32_in by lia]; cbn [mbind outcome_bind]).

Ltac destr_if :=
  match goal with
  | |- context [if ?b then _ else _] => destruct b eqn:?
  end.

(** Turn boolean comparisons in hypotheses into propositions. *)
Ltac b2p :=
  repeat match goal with
  | H : (_ <? _) = true |- _ => apply Z.ltb_lt in H
  | H : (_ <? _) = false |- _ => apply Z.ltb_ge in H
  | H : (_ <=? _) = true |- _ => apply Z.leb_le in H
  | H : (_ <=? _) = false |- _ => apply Z.leb_gt in H
  | H : (_ =? _) = true |- _ => apply Z.eqb_eq in H
  | H : (_ =? _) = false |- _ => apply Z.eqb_neq in H
  | H : negb _ = true |- _ => apply negb_true_iff in H
  | H : negb _ = false |- _ => apply negb_false_iff in H
  | H : (_ && _) = true |- _ => apply andb_true_iff in H as [? ?]
  | H : (_ || _) = false |- _ => apply orb_false_iff in H as [? ?]
  end.

(** [slice::chunks] *)
Fixpoint chunks_fuel {A} (fuel n : nat) (l : list A) : list (list A) :=
  match fuel, l with
  | O, _ | _, [] => []
  | S fuel, _ => take n l :: chunks_fuel fuel n (drop n l)
  end.
Definition chunks {A} (n : nat) (l : list A) : list (list A) := chunks_fuel (length l) n l.

Lemma chunks_concat {A} n (l : list A) : (0 < n)%nat -> concat (chunks n l) = l.
Proof.
  intros Hn. unfold chunks. assert (Hg : forall f (l : list A), (length l <= f)%nat -> concat (chunks_fuel f n l) = l).
  { intros f. induction f as [|f IH]; intros [|x l'] Hl; cbn in *; try done; [lia|].
    destruct n as [|n]; [lia|]. cbn [take drop]. rewrite IH; [|rewrite length_drop; lia].
    cbn. by rewrite take_drop. }
  by apply Hg.
Qed.
