(* ===== verification/Velocity.v ===== *)
(** * Velocity controls (vls-core/src/util/velocity.rs)

    A velocity control limits the amount that may be spent per unit of time.
    The code keeps one running total per bucket instead of the history of
    payments; the theorems relate the buckets to that history: [insert]
    refines a specification that keeps the whole log, and the total accepted
    in any window shorter than the tracked interval never exceeds the limit. *)

From S2P Require Import Prelude.

(** ** Data *)

Record VelocityControl := {
  start_sec : Z;
  bucket_interval : Z;
  buckets : list Z;
  limit : Z
}.

Inductive VelocityControlIntervalType := Hourly | Daily | Unlimited.

Record VelocityControlSpec := {
  limit_msat : Z;
  interval_type : VelocityControlIntervalType
}.

Definition UNLIMITED : VelocityControlSpec :=
  {| limit_msat := 0; interval_type := Unlimited |}.

(** [Vec::resize]. *)
Definition vec_resize (n : nat) (x : Z) (l : list Z) : list Z :=
  take n l ++ replicate (n - length l) x.

(** ** Operations *)

Definition new_with_intervals {E} (limit_msat bucket_interval : Z) (num_buckets : nat)
  : outcome E VelocityControl :=
  assert_ ((0 <? bucket_interval) && (0 <? num_buckets)%nat);;
  let buckets := vec_resize num_buckets 0 [] in
  Ok {| start_sec := 0; bucket_interval := bucket_interval; buckets := buckets;
        limit := limit_msat |}.

Definition new_unlimited {E} (bucket_interval : Z) (num_buckets : nat)
  : outcome E VelocityControl :=
  assert_ ((0 <? bucket_interval) && (0 <? num_buckets)%nat);;
  let buckets := vec_resize num_buckets 0 [] in
  Ok {| start_sec := 0; bucket_interval := bucket_interval; buckets := buckets;
        limit := U64_MAX |}.

Definition spec_to_triple (spec : VelocityControlSpec) : Z * Z * nat :=
  match interval_type spec with
  | Hourly => (limit_msat spec, 300, 12%nat)
  | Daily => (limit_msat spec, 3600, 24%nat)
  | Unlimited => (U64_MAX, 300, 12%nat)
  end.

Definition new {E} (spec : VelocityControlSpec) : outcome E VelocityControl :=
  let '(limit, bucket_interval, num_buckets) := spec_to_triple spec in
  new_with_intervals limit bucket_interval num_buckets.

Definition spec_matches (c : VelocityControl) (spec : VelocityControlSpec) : bool :=
  let '(lim, interval, num_buckets) := spec_to_triple spec in
  (limit c =? lim) && (bucket_interval c =? interval)
  && (length (buckets c) =? num_buckets)%nat.

Definition update_spec (c : VelocityControl) (spec : VelocityControlSpec) : VelocityControl :=
  if negb (spec_matches c spec) then
    let '(lim, interval, num_buckets) := spec_to_triple spec in
    {| start_sec := 0; bucket_interval := interval;
       buckets := vec_resize num_buckets 0 []; limit := lim |}
  else c.

Definition with_state (c : VelocityControl) (state : Z * list Z) : VelocityControl :=
  {| start_sec := state.1; bucket_interval := bucket_interval c;
     buckets := state.2; limit := limit c |}.

Definition get_state (c : VelocityControl) : Z * list Z := (start_sec c, buckets c).

Definition load_from_state {E} (spec : VelocityControlSpec) (state : Z * list Z)
  : outcome E VelocityControl :=
  control ← new spec;
  Ok (with_state control state).

Definition is_unlimited (c : VelocityControl) : bool := limit c =? U64_MAX.

Definition velocity (c : VelocityControl) : Z :=
  foldl (fun sum bucket => saturating_add64 sum bucket) 0 (buckets c).

(** [nshift as usize] keeps the number: [usize] has 64 bits.  (On a target of
    32 bits it would be cut to its low bits, but only once 2^32 intervals have
    passed since the start of the control.) *)
Definition insert `{Profile} {E} (c : VelocityControl) (current_sec velocity_msat : Z)
  : outcome E (VelocityControl * bool) :=
  elapsed ← sub64 current_sec (start_sec c);
  let nshift := elapsed / bucket_interval c in
  let len := length (buckets c) in
  let nshift := Nat.min len (Z.to_nat nshift) in
  let bs := vec_resize (len - nshift) 0 (buckets c) in
  let bs := Nat.iter nshift (cons 0) bs in
  let c1 := {| start_sec := current_sec - current_sec mod bucket_interval c;
               bucket_interval := bucket_interval c; buckets := bs; limit := limit c |} in
  let current_velocity := velocity c1 in
  if limit c1 <? saturating_add64 current_velocity velocity_msat then Ok (c1, false)
  else
    match bs with
    | b0 :: bs' =>
        Ok ({| start_sec := start_sec c1; bucket_interval := bucket_interval c1;
               buckets := saturating_add64 b0 velocity_msat :: bs';
               limit := limit c1 |}, true)
    | [] => Panic
    end.

Definition clear (c : VelocityControl) : VelocityControl :=
  {| start_sec := start_sec c; bucket_interval := bucket_interval c;
     buckets := map (fun _ => 0) (buckets c); limit := limit c |}.

(** ** The invariant of a control *)

Record wf (c : VelocityControl) : Prop := {
  wf_interval : 0 < bucket_interval c;
  wf_buckets : buckets c <> [];
  wf_u64 : Forall (fun b => 0 <= b <= U64_MAX) (buckets c);
  wf_start : 0 <= start_sec c < 2 ^ 64 /\ start_sec c mod bucket_interval c = 0
}.

(** ** The specification: the log of accepted payments *)

(** Total of the log entries whose time satisfies [f]. *)
Fixpoint vsum (f : Z -> bool) (log : list (Z * Z)) : Z :=
  match log with
  | [] => 0
  | (t, v) :: log' => (if f t then v else 0) + vsum f log'
  end.

(** Accept [v] at time [t] when the entries of the last [n] intervals leave room. *)
Definition spec_insert (iv lim : Z) (n : nat) (log : list (Z * Z)) (t v : Z)
  : list (Z * Z) * bool :=
  if vsum (fun t' => t / iv - Z.of_nat n <? t' / iv) log + v <=? lim
  then (log ++ [(t, v)], true) else (log, false).

(** Every bucket holds the total of its interval. *)
Record represents (c : VelocityControl) (log : list (Z * Z)) : Prop := {
  rep_wf : wf c;
  rep_bucket : forall i b, buckets c !! i = Some b ->
    b = vsum (fun t => t / bucket_interval c =? start_sec c / bucket_interval c - Z.of_nat i) log;
  rep_past : Forall (fun e => e.1 / bucket_interval c <= start_sec c / bucket_interval c
                              /\ 0 <= e.2) log
}.

(** A run of insert requests, with the log of the accepted ones. *)
Fixpoint run `{Profile} {E} (c : VelocityControl) (log : list (Z * Z))
  (reqs : list (Z * Z)) : outcome E (VelocityControl * list (Z * Z)) :=
  match reqs with
  | [] => Ok (c, log)
  | (t, v) :: reqs' =>
      '(c', ok) ← insert c t v;
      run c' (if ok : bool then log ++ [(t, v)] else log) reqs'
  end.

(** ** Lemmas *)

Section lemmas.
Context `{Prof : Profile} {E : Type}.
Implicit Types (c : VelocityControl) (log : list (Z * Z)).

Lemma velocity_sum_from acc l :
  0 <= acc <= U64_MAX -> Forall (fun b => 0 <= b <= U64_MAX) l ->
  foldl saturating_add64 acc l = Z.min (acc + sum_list_Z l) U64_MAX.
Proof.
  intros Hacc Hl. revert acc Hacc.
  induction Hl as [|b l Hb Hl IH]; intros acc Hacc; cbn; [lia|].
  fold (sum_list_Z l).
  assert (0 <= sum_list_Z l)
    by (apply sum_list_Z_nonneg; eapply Forall_impl; [exact Hl|cbn; lia]).
  rewrite IH by (unfold saturating_add64, U64_MAX in *; lia).
  unfold saturating_add64. lia.
Qed.

Lemma velocity_sum c : Forall (fun b => 0 <= b <= U64_MAX) (buckets c) ->
  velocity c = Z.min (sum_list_Z (buckets c)) U64_MAX.
Proof.
  intros H. unfold velocity. rewrite velocity_sum_from; [done| |done].
  unfold U64_MAX; lia.
Qed.

Lemma iter_cons n (x : Z) l : Nat.iter n (cons x) l = replicate n x ++ l.
Proof. induction n; cbn; [done|]. by f_equal. Qed.

Lemma shifted k l : (k <= length l)%nat ->
  Nat.iter k (cons 0) (vec_resize (length l - k) 0 l) = replicate k 0 ++ take (length l - k) l.
Proof.
  intros Hk. rewrite iter_cons. unfold vec_resize.
  replace (length l - k - length l)%nat with 0%nat by lia. cbn.
  by rewrite app_nil_r.
Qed.

Lemma vsum_app f l1 l2 : vsum f (l1 ++ l2) = vsum f l1 + vsum f l2.
Proof. induction l1 as [|[t v] l1 IH]; cbn; [done|]. rewrite IH. lia. Qed.

Lemma vsum_ext f g log : Forall (fun e => f e.1 = g e.1) log -> vsum f log = vsum g log.
Proof. induction 1 as [|[t v] log Hf _ IH]; cbn in *; [done|]. by rewrite Hf, IH. Qed.

Lemma vsum_mono f g log :
  Forall (fun e => 0 <= e.2 /\ (f e.1 = true -> g e.1 = true)) log ->
  vsum f log <= vsum g log.
Proof.
  induction 1 as [|[t v] log [Hv Hfg] _ IH]; cbn in *; [lia|].
  destruct (f t); [rewrite Hfg by done; lia|]. destruct (g t); lia.
Qed.

Lemma vsum_nonneg f log : Forall (fun e => 0 <= e.2) log -> 0 <= vsum f log.
Proof. induction 1 as [|[t v] log Hv _ IH]; cbn in *; [lia|]. destruct (f t); lia. Qed.

(** Summing the entries of [n] consecutive intervals, one interval at a time. *)
Lemma vsum_intervals iv s n log :
  Forall (fun e => e.1 / iv <= s) log ->
  sum_list_Z (map (fun i => vsum (fun t => t / iv =? s - Z.of_nat i) log) (seq 0 n))
  = vsum (fun t => s - Z.of_nat n <? t / iv) log.
Proof.
  intros Hlog. induction n as [|n IH].
  - change (0 = vsum (fun t => s - 0 <? t / iv) log).
    induction Hlog as [|[t v] log Ht _ IH]; cbn [vsum]; [done|]. cbn in Ht.
    destruct (s - 0 <? t / iv) eqn:?; b2p; lia.
  - rewrite seq_S, map_app, sum_list_Z_app, IH. cbn [map sum_list_Z foldr Nat.add].
    clear IH. rewrite Z.add_0_r.
    induction Hlog as [|[t v] log Ht _ IH]; cbn [vsum]; [done|]. cbn in Ht.
    destruct (s - Z.of_nat n <? t / iv) eqn:H1, (t / iv =? s - Z.of_nat n) eqn:H2,
      (s - Z.of_nat (S n) <? t / iv) eqn:H3; b2p; lia.
Qed.

Lemma list_as_map_seq (l : list Z) (f : nat -> Z) :
  (forall i b, l !! i = Some b -> b = f i) -> l = map f (seq 0 (length l)).
Proof.
  intros H. apply list_eq. intros i. rewrite list_lookup_fmap.
  destruct (l !! i) as [b|] eqn:Hi.
  - rewrite lookup_seq_lt by (eapply lookup_lt_Some; eauto). cbn. f_equal. eauto.
  - rewrite lookup_seq_ge; [done|]. by apply lookup_ge_None.
Qed.
End lemmas.

(** ** The refinement, step by step *)

Section refinement.
Context `{Prof : Profile} {E : Type}.
Implicit Types (c : VelocityControl) (log : list (Z * Z)).

(** The control after the passage of time, before the limit is looked at. *)
Definition shift c (t : Z) : VelocityControl :=
  let k := Nat.min (length (buckets c)) (Z.to_nat ((t - start_sec c) / bucket_interval c)) in
  {| start_sec := t - t mod bucket_interval c;
     bucket_interval := bucket_interval c;
     buckets := replicate k 0 ++ take (length (buckets c) - k) (buckets c);
     limit := limit c |}.

Lemma shift_start iv t : 0 < iv -> (t - t mod iv) / iv = t / iv.
Proof.
  intros Hiv. pose proof (Z.div_mod t iv ltac:(lia)) as Ht.
  replace (t - t mod iv) with (t / iv * iv) by lia. apply Z.div_mul. lia.
Qed.

Lemma elapsed_intervals c t : wf c -> start_sec c <= t ->
  (t - start_sec c) / bucket_interval c
  = t / bucket_interval c - start_sec c / bucket_interval c.
Proof.
  intros [Hiv _ _ [_ Hst]] Ht.
  pose proof (Z.div_mod (start_sec c) (bucket_interval c) ltac:(lia)) as Hs.
  replace (t - start_sec c)
    with (t + - (start_sec c / bucket_interval c) * bucket_interval c) by lia.
  rewrite Z.div_add by lia. lia.
Qed.

Lemma shift_length c t : length (buckets (shift c t)) = length (buckets c).
Proof. cbn. rewrite length_app, length_replicate, length_take. lia. Qed.

Lemma shift_wf c t : wf c -> start_sec c <= t < 2 ^ 64 -> wf (shift c t).
Proof.
  intros [Hiv Hne Hu [Hs Hst]] Ht. split; [done| |..].
  - intros Hn. apply (f_equal length) in Hn. rewrite shift_length in Hn.
    by destruct (buckets c).
  - cbn. apply Forall_app; split; [apply Forall_replicate; unfold U64_MAX; lia|].
    by apply Forall_take.
  - cbn. pose proof (Z.div_mod t (bucket_interval c) ltac:(lia)) as Hd.
    pose proof (Z.mod_pos_bound t (bucket_interval c) Hiv).
    replace (t - t mod bucket_interval c)
      with (t / bucket_interval c * bucket_interval c) by lia.
    split; [|by apply Z.mod_mul; lia].
    pose proof (Z.div_pos t (bucket_interval c) ltac:(lia) Hiv). nia.
Qed.

Lemma shift_represents c log t :
  represents c log -> start_sec c <= t < 2 ^ 64 -> represents (shift c t) log.
Proof.
  intros [Hwf Hb Hp] Ht. pose proof Hwf as [Hiv _ _ _].
  pose proof (elapsed_intervals c t Hwf ltac:(lia)) as Hel.
  pose proof (Z.div_le_mono _ _ _ Hiv (proj1 Ht)) as Hmono.
  split; [by apply shift_wf| |].
  - intros i b Hi. cbn in *. rewrite shift_start by done. rewrite Hel in Hi.
    apply lookup_app_Some in Hi as [Hi|[Hge Hi]].
    + apply lookup_replicate in Hi as [-> Hlt].
      rewrite (vsum_ext _ (fun _ => false)).
      * clear. induction log as [|[]]; cbn; lia.
      * eapply Forall_impl; [exact Hp|]. cbn. intros e He. apply Z.eqb_neq. lia.
    + rewrite length_replicate in *.
      apply lookup_take_Some in Hi as [Hi Hlt]. apply Hb in Hi as ->.
      apply vsum_ext. eapply Forall_impl; [exact Hp|]. cbn. intros e _.
      f_equal. lia.
  - cbn. rewrite shift_start by done.
    eapply Forall_impl; [exact Hp|]. cbn. intros e []. lia.
Qed.

Lemma insert_shift c t v : wf c -> start_sec c <= t < 2 ^ 64 ->
  insert (E := E) c t v =
    if limit c <? saturating_add64 (velocity (shift c t)) v then Ok (shift c t, false)
    else match buckets (shift c t) with
         | b0 :: bs => Ok ({| start_sec := start_sec (shift c t);
                              bucket_interval := bucket_interval c;
                              buckets := saturating_add64 b0 v :: bs;
                              limit := limit c |}, true)
         | [] => Panic
         end.
Proof.
  intros [Hiv _ _ [Hs _]] Ht. unfold insert. rewrite sub64_in by lia. cbn [mbind outcome_bind].
  cbn zeta. rewrite shifted by lia. reflexivity.
Qed.

Lemma represents_sum c log : represents c log ->
  sum_list_Z (buckets c)
  = vsum (fun t' => start_sec c / bucket_interval c - Z.of_nat (length (buckets c))
                    <? t' / bucket_interval c) log.
Proof.
  intros [_ Hb Hp].
  rewrite <- vsum_intervals by (eapply Forall_impl; [exact Hp|cbn; tauto]).
  f_equal. by apply list_as_map_seq.
Qed.

(** A payment recorded in the current bucket. *)
Lemma record_represents c log t v b0 bs :
  represents c log -> buckets c = b0 :: bs ->
  t / bucket_interval c = start_sec c / bucket_interval c ->
  0 <= v -> b0 + v <= U64_MAX ->
  represents {| start_sec := start_sec c; bucket_interval := bucket_interval c;
                buckets := saturating_add64 b0 v :: bs; limit := limit c |}
             (log ++ [(t, v)]).
Proof.
  intros [[Hiv Hne Hu Hst] Hb Hp] Hbs Ht Hv Hle.
  rewrite Hbs in *. inversion Hu; subst.
  unfold saturating_add64. rewrite Z.min_l by lia.
  split; [split; cbn; [done|done|constructor; [lia|done]|done]| |].
  - intros [|i] b Hi; cbn in Hi |- *; rewrite vsum_app; cbn; rewrite Ht.
    + injection Hi as <-. rewrite (Hb 0%nat b0 eq_refl) at 1.
      rewrite (proj2 (Z.eqb_eq _ _)) by (cbn; lia). lia.
    + rewrite (Hb (S i) b Hi) at 1.
      rewrite (proj2 (Z.eqb_neq _ _)) by lia. lia.
  - apply Forall_app; split; [done|]. repeat constructor; cbn; lia.
Qed.
End refinement.

(** ** Properties *)

Section properties.
Context `{Prof : Profile} {E : Type}.
Implicit Types (c : VelocityControl) (log : list (Z * Z)).

Lemma insert_simulates c log t v :
  represents c log -> start_sec c <= t < 2 ^ 64 -> 0 <= v -> limit c < U64_MAX ->
  let spec := spec_insert (bucket_interval c) (limit c) (length (buckets c)) log t v in
  exists c', insert (E := E) c t v = Ok (c', spec.2) /\ represents c' spec.1
    /\ bucket_interval c' = bucket_interval c /\ limit c' = limit c
    /\ length (buckets c') = length (buckets c)
    /\ start_sec c' = t - t mod bucket_interval c.
Proof.
  intros Hrep Ht Hv Hlim spec. pose proof (shift_represents _ _ _ Hrep Ht) as Hrep1.
  pose proof (rep_wf _ _ Hrep) as Hwf. pose proof (wf_interval _ Hwf) as Hiv.
  pose proof (represents_sum _ _ Hrep1) as Hsum.
  rewrite shift_length in Hsum. cbn [start_sec shift bucket_interval] in Hsum.
  rewrite shift_start in Hsum by done.
  pose proof (velocity_sum _ (wf_u64 _ (rep_wf _ _ Hrep1))) as Hvel.
  rewrite insert_shift, Hvel by done.
  subst spec. unfold spec_insert. rewrite <- Hsum. clear Hvel.
  replace (limit c <? saturating_add64 (Z.min (sum_list_Z (buckets (shift c t))) U64_MAX) v)
    with (negb (sum_list_Z (buckets (shift c t)) + v <=? limit c))
    by (unfold saturating_add64;
        destruct (_ <=? limit c) eqn:?, (limit c <? _) eqn:?; b2p; cbn; lia).
  destruct (_ <=? limit c) eqn:Hle; cbn [negb]; b2p.
  - destruct (buckets (shift c t)) as [|b0 bs] eqn:Hbs;
      [by destruct (wf_buckets _ (rep_wf _ _ Hrep1))|].
    eexists; split; [reflexivity|].
    pose proof (wf_u64 _ (rep_wf _ _ Hrep1)) as Hu. rewrite Hbs in Hu.
    assert (0 <= sum_list_Z bs).
    { apply sum_list_Z_nonneg. inversion Hu. eapply Forall_impl; [eassumption|cbn; lia]. }
    split; [|pose proof (shift_length c t) as HL; rewrite Hbs in HL; cbn in *; auto].
    apply (record_represents (shift c t) log t v b0 bs); [done..| |done|].
    + cbn. by rewrite shift_start.
    + cbn in Hle. fold (sum_list_Z bs) in Hle. lia.
  - eexists; split; [reflexivity|]. split; [done|]. rewrite shift_length. auto.
Qed.

Lemma represents_new lim iv n c : new_with_intervals (E := E) lim iv n = Ok c ->
  represents c [] /\ limit c = lim /\ bucket_interval c = iv /\ length (buckets c) = n.
Proof.
  unfold new_with_intervals, vec_resize. rewrite take_nil. cbn.
  intros H. inv_ok H. b2p. rewrite Nat.sub_0_r. cbn. rewrite length_replicate.
  split; [|done]. repeat split; cbn; try done.
  - destruct n; [|done]. by cbn in *.
  - apply Forall_replicate. unfold U64_MAX; lia.
  - intros i b Hi. by apply lookup_replicate in Hi as [-> _].
Qed.

(** A run of requests whose clock never goes back before the current bucket. *)
Fixpoint clock_ok (iv start : Z) (reqs : list (Z * Z)) : Prop :=
  match reqs with
  | [] => True
  | (t, v) :: reqs' => start <= t < 2 ^ 64 /\ 0 <= v /\ clock_ok iv (t - t mod iv) reqs'
  end.

(** Every entry of the log was within the limit when it was accepted. *)
Definition log_ok (iv lim : Z) (n : nat) log : Prop :=
  forall pre t v post, log = pre ++ (t, v) :: post ->
    vsum (fun t' => t / iv - Z.of_nat n <? t' / iv) pre + v <= lim.

Lemma log_ok_nil iv lim n : log_ok iv lim n [].
Proof. intros pre t v post H. by destruct pre. Qed.

Lemma log_ok_snoc iv lim n log t v : log_ok iv lim n log ->
  vsum (fun t' => t / iv - Z.of_nat n <? t' / iv) log + v <= lim ->
  log_ok iv lim n (log ++ [(t, v)]).
Proof.
  intros Hl Hv pre t' v' post Heq.
  destruct post as [|e post _] using rev_ind.
  - apply app_inj_tail in Heq as [-> [= -> ->]]. done.
  - rewrite app_comm_cons, app_assoc in Heq. apply app_inj_tail in Heq as [-> _]. eauto.
Qed.

Lemma run_represents c log reqs :
  represents c log -> limit c < U64_MAX -> clock_ok (bucket_interval c) (start_sec c) reqs ->
  log_ok (bucket_interval c) (limit c) (length (buckets c)) log ->
  exists c' log', run (E := E) c log reqs = Ok (c', log') /\ represents c' log'
    /\ bucket_interval c' = bucket_interval c
    /\ log_ok (bucket_interval c) (limit c) (length (buckets c)) log'.
Proof.
  revert c log. induction reqs as [|[t v] reqs IH]; intros c log Hrep Hlim Hck Hl.
  - exists c, log. auto.
  - destruct Hck as (Ht & Hv & Hck).
    destruct (insert_simulates c log t v Hrep Ht Hv Hlim)
      as (c' & Hins & Hrep' & Hiv & Hlm & Hlen & Hst).
    cbn [run]. rewrite Hins. cbn [mbind outcome_bind].
    revert Hrep'. unfold spec_insert. destruct (_ <=? limit c) eqn:Hle; cbn [fst snd]; intros Hrep'.
    all: rewrite <- Hiv, <- Hlm, <- Hlen; apply IH; rewrite ?Hiv, ?Hlm, ?Hlen, ?Hst; auto.
    apply log_ok_snoc; [done|]. by b2p.
Qed.

(** The last entry of a log that satisfies [f], with what precedes it. *)
Lemma last_in_window f log :
  vsum f log = 0 \/ exists pre t v post, log = pre ++ (t, v) :: post /\ f t = true
    /\ vsum f log = vsum f pre + v.
Proof.
  induction log as [|[t v] log [Hz|(pre & t' & v' & post & -> & Hf & IH)]]; cbn [vsum]; [by left| |].
  - rewrite Hz. destruct (f t) eqn:Hft; [right|left; lia].
    exists [], t, v, log. cbn. repeat split; [done|lia].
  - right. exists ((t, v) :: pre), t', v', post. cbn. repeat split; [done|lia].
Qed.

Lemma log_ok_window iv lim n log T :
  0 < iv -> 0 <= lim -> Forall (fun e => 0 <= e.2 /\ e.1 <= T) log -> log_ok iv lim n log ->
  vsum (fun t => T - (Z.of_nat n - 1) * iv <? t) log <= lim.
Proof.
  intros Hiv Hlim Hlog Hok.
  destruct (last_in_window (fun t => T - (Z.of_nat n - 1) * iv <? t) log)
    as [->|(pre & t & v & post & -> & Hf & ->)]; [done|].
  specialize (Hok _ _ _ _ eq_refl).
  apply Forall_app in Hlog as [Hpre Hpost]. inversion Hpost as [|? ? [_ Htv] _]; subst.
  etransitivity; [|exact Hok]. apply Z.add_le_mono_r, vsum_mono.
  eapply Forall_impl; [exact Hpre|]. cbn in *. intros [t' v'] [Hv' _]; cbn in *.
  split; [done|]. intros Ht'. b2p. apply Z.ltb_lt.
  assert ((t + - (Z.of_nat n - 1) * iv) / iv <= t' / iv) by (apply Z.div_le_mono; lia).
  rewrite Z.div_add in * by lia. lia.
Qed.

Lemma clock_ok_times iv st reqs T : clock_ok iv st reqs ->
  Forall (fun e => e.1 <= T) reqs -> Forall (fun e => 0 <= e.2 /\ e.1 <= T) reqs.
Proof.
  intros Hck HT. revert st Hck.
  induction HT as [|[t v] reqs Ht _ IH]; intros st; [constructor|].
  intros (? & ? & ?). constructor; [done|]. eauto.
Qed.

(** Requests whose clock reading is at most [T] leave a log up to [T]. *)
Lemma run_log_times c log reqs c' log' T :
  Forall (fun e => 0 <= e.2 /\ e.1 <= T) log -> Forall (fun e => 0 <= e.2 /\ e.1 <= T) reqs ->
  run (E := E) c log reqs = Ok (c', log') -> Forall (fun e => 0 <= e.2 /\ e.1 <= T) log'.
Proof.
  revert c log. induction reqs as [|[t v] reqs IH]; intros c log Hlog Hreqs H; cbn in H.
  - by injection H as <- <-.
  - inversion Hreqs; subst. inv_ok H. destruct x as [c1 ok].
    eapply IH; [|eassumption..]. destruct ok; [|done].
    apply Forall_app; split; [done|]. by apply Forall_singleton.
Qed.
End properties.

(** ** A control and the log of what it accepted *)

Section control.
Context `{Prof : Profile} {E : Type}.

Record control_inv (lim iv : Z) (k : nat) (vc : VelocityControl) (log : list (Z * Z)) : Prop := {
  ci_rep : represents vc log;
  ci_limit : limit vc = lim;
  ci_interval : bucket_interval vc = iv;
  ci_buckets : length (buckets vc) = k;
  ci_log : log_ok iv lim k log
}.

Lemma insert_inv lim iv k vc log t v vc' b : lim < U64_MAX -> control_inv lim iv k vc log ->
  start_sec vc <= t < 2 ^ 64 -> 0 <= v -> insert (E := E) vc t v = Ok (vc', b) ->
  control_inv lim iv k vc' (if b then log ++ [(t, v)] else log).
Proof.
  intros Hlim [Hrep Hl Hi Hk Hok] Ht Hv Hins.
  destruct (insert_simulates (E := E) vc log t v Hrep Ht Hv) as (c & Hc & Hr & Hi' & Hl' & Hk' & _);
    [lia|]. rewrite Hins in Hc. injection Hc as <- ->.
  revert Hr. unfold spec_insert. rewrite Hi, Hl, Hk. destruct (_ <=? lim) eqn:Hle; cbn [fst snd];
    intros Hr; split; try congruence; [|done]. apply log_ok_snoc; [done|]. by b2p.
Qed.

Lemma new_inv spec vc : new (E := E) spec = Ok vc ->
  let '(lim, iv, k) := spec_to_triple spec in control_inv lim iv k vc [].
Proof.
  unfold new. destruct (spec_to_triple spec) as [[lim iv] k]. intros Hn.
  apply represents_new in Hn as (Hr & Hl & Hi & Hk). split; try done. apply log_ok_nil.
Qed.

(** What the control accepted in the last [(k - 1) * iv] seconds before [T]. *)
Lemma inv_window lim iv k vc log T : 0 <= lim -> control_inv lim iv k vc log ->
  Forall (fun e => e.1 <= T) log ->
  vsum (fun t => T - (Z.of_nat k - 1) * iv <? t) log <= lim.
Proof.
  intros Hlim [Hr Hl Hi Hk Hok] HT. apply log_ok_window; [|done| |done].
  - rewrite <- Hi. apply Hr.
  - destruct Hr as [_ _ Hp]. apply Forall_forall. intros e He.
    rewrite Forall_forall in Hp, HT. split; [by apply Hp|by apply HT].
Qed.

(** The clock is not before the current bucket of the control. *)
Definition clock_at (vc : VelocityControl) (t : Z) : Prop := start_sec vc <= t < 2 ^ 64.
End control.

Section claims.
Context `{Prof : Profile} {E : Type}.

(** Every [insert] whose clock reading is not before the current bucket
    behaves as the specification that keeps the whole log of accepted
    payments and compares the total of the last [n] intervals with the
    limit: same answer, and the buckets again represent the log. *)
Theorem insert_refines_log (c : VelocityControl) (log : list (Z * Z)) (t v : Z)
  (Hrep : represents c log) (Ht : start_sec c <= t < 2 ^ 64) (Hv : 0 <= v)
  (Hlim : limit c < U64_MAX) :
  let spec := spec_insert (bucket_interval c) (limit c) (length (buckets c)) log t v in
  exists c', insert (E := E) c t v = Ok (c', spec.2) /\ represents c' spec.1
    /\ bucket_interval c' = bucket_interval c /\ limit c' = limit c
    /\ length (buckets c') = length (buckets c)
    /\ start_sec c' = t - t mod bucket_interval c.
Proof. by apply insert_simulates. Qed.

(** C24: the sliding-window guarantee.  A fresh control with [n] buckets of
    [iv] seconds that serves any sequence of requests (clock never moving
    back before the current bucket) never panics, and at every later time
    [T] the total it accepted during the last [(n-1) * iv] seconds is within
    the limit. *)
Theorem velocity_window_bound (lim iv : Z) (n : nat) (c : VelocityControl)
  (reqs : list (Z * Z)) (T : Z)
  (Hnew : new_with_intervals (E := E) lim iv n = Ok c)
  (Hlim : 0 <= lim < U64_MAX)
  (Hck : clock_ok iv 0 reqs)
  (HT : Forall (fun e => e.1 <= T) reqs) :
  exists c' log, run (E := E) c [] reqs = Ok (c', log)
    /\ vsum (fun t => T - (Z.of_nat n - 1) * iv <? t) log <= lim.
Proof.
  pose proof (represents_new _ _ _ _ Hnew) as (Hrep & Hl & Hiv & Hlen).
  assert (Hst : start_sec c = 0).
  { unfold new_with_intervals in Hnew. inv_ok Hnew. done. }
  destruct (run_represents (E := E) c [] reqs) as (c' & log & Hrun & Hrep' & _ & Hok);
    [done|lia|by rewrite Hiv, Hst|apply log_ok_nil|].
  exists c', log. split; [done|].
  rewrite Hl, Hiv, Hlen in Hok.
  pose proof (wf_interval _ (rep_wf _ _ Hrep)).
  apply log_ok_window; [lia..| |done].
  apply (run_log_times (E := E) c [] reqs c' log); [constructor| |done].
  by apply (clock_ok_times iv 0).
Qed.

(** Persistence round trip.  Loading the persisted state of a control
    under a spec that matches it gives the control back, and [update_spec]
    with that spec keeps its history. *)
Theorem load_get_state (c : VelocityControl) (spec : VelocityControlSpec)
  (Hm : spec_matches c spec = true) :
  load_from_state (E := E) spec (get_state c) = Ok c /\ update_spec c spec = c.
Proof.
  split; [|unfold update_spec; by rewrite Hm].
  unfold spec_matches in Hm. unfold load_from_state, new.
  destruct c as [st iv bs lim], spec as [l []]; cbn in *; b2p; by subst.
Qed.

(** With wrapping arithmetic, a clock reading before the start of the
    current bucket by more than the tracked interval below 2^64 empties
    every bucket: the control then accepts up to the whole limit again,
    whatever it accepted before. *)
Theorem insert_clock_back_resets (c : VelocityControl) (t v : Z)
  (Hwrap : overflow_checks = false) (Hwf : wf c) (Ht : 0 <= t < start_sec c)
  (Hfar : start_sec c - t + Z.of_nat (length (buckets c)) * bucket_interval c <= 2 ^ 64)
  (Hv : 0 <= v <= limit c) (Hl : limit c <= U64_MAX) :
  exists c', insert (E := E) c t v = Ok (c', true) /\ velocity c' = v.
Proof.
  destruct Hwf as [Hiv Hne _ [[Hs0 Hs] _]].
  unfold insert, sub64, wrapping.
  rewrite (proj2 (Z.leb_gt 0 _)), Hwrap by lia. cbn [andb mbind outcome_bind].
  replace ((t - start_sec c) mod 2 ^ 64) with (t - start_sec c + 2 ^ 64).
  2:{ rewrite <- (Z.mod_add _ 1) by lia. rewrite Z.mod_small by lia. lia. }
  assert (Hk : Z.of_nat (length (buckets c))
               <= (t - start_sec c + 2 ^ 64) / bucket_interval c).
  { apply Z.div_le_lower_bound; lia. }
  rewrite Nat.min_l by lia. rewrite Nat.sub_diag. cbn zeta.
  rewrite iter_cons. unfold vec_resize. cbn [take Nat.sub app replicate].
  destruct (buckets c) as [|b0 bs] eqn:Hbs; [done|]. cbn [length replicate app].
  assert (Hz : forall k, foldl saturating_add64 0 (replicate k 0 ++ []) = 0).
  { induction k; cbn; [done|]. exact IHk. }
  assert (Hz' : forall k a, 0 <= a <= U64_MAX ->
    foldl saturating_add64 a (replicate k 0 ++ []) = a).
  { intros k. induction k; intros a Ha; cbn; [done|].
    rewrite IHk; unfold saturating_add64; lia. }
  unfold velocity at 1. cbn [buckets limit foldl].
  change (saturating_add64 0 0) with 0. rewrite Hz.
  replace (limit c <? saturating_add64 0 v) with false
    by (symmetry; apply Z.ltb_ge; unfold saturating_add64; lia).
  eexists; split; [reflexivity|]. unfold velocity. cbn [buckets foldl].
  unfold saturating_add64 at 2 3. rewrite Z.min_l by lia.
  rewrite Z.min_l by lia. cbn. rewrite Hz' by lia. done.
Qed.
End claims.

(** ** Witnesses *)

Definition example_control : VelocityControl :=
  {| start_sec := 0; bucket_interval := 10; buckets := [0; 0; 0; 0]; limit := 100 |}.

Lemma insert_refines_log_witness :
  exists c', @insert true unit example_control 1100 90 = Ok (c', true)
    /\ represents c' [(1100, 90)].
Proof.
  destruct (@insert_refines_log true unit example_control [] 1100 90)
    as (c' & H & Hr & _); [|done..|by exists c'].
  by apply (@represents_new unit 100 10 4).
Defined.

Lemma velocity_window_bound_witness :
  exists c' log, @run true unit example_control []
    [(1100, 90); (1101, 11); (1101, 10); (1139, 90); (1140, 90); (1150, 5)] = Ok (c', log)
    /\ vsum (fun t => 1150 - (4 - 1) * 10 <? t) log <= 100.
Proof.
  apply (@velocity_window_bound true unit 100 10 4 example_control); [done|done| |].
  - repeat split; by vm_compute.
  - repeat constructor; by vm_compute.
Defined.

Lemma load_get_state_witness :
  @load_from_state unit {| limit_msat := 1000; interval_type := Hourly |}
    (300, [7; 0; 0; 0; 0; 0; 0; 0; 0; 0; 0; 5])
  = Ok {| start_sec := 300; bucket_interval := 300;
          buckets := [7; 0; 0; 0; 0; 0; 0; 0; 0; 0; 0; 5]; limit := 1000 |}.
Proof.
  apply (@load_get_state unit {| start_sec := 300; bucket_interval := 300;
    buckets := [7; 0; 0; 0; 0; 0; 0; 0; 0; 0; 0; 5]; limit := 1000 |}
    {| limit_msat := 1000; interval_type := Hourly |} eq_refl).
Defined.

Lemma insert_clock_back_resets_witness :
  exists c', @insert false unit
    {| start_sec := 1100; bucket_interval := 10; buckets := [100; 0; 0; 0]; limit := 100 |}
    1099 100 = Ok (c', true) /\ velocity c' = 100.
Proof.
  apply (@insert_clock_back_resets false unit
    {| start_sec := 1100; bucket_interval := 10; buckets := [100; 0; 0; 0]; limit := 100 |});
    [done| |by vm_compute..].
  split; [done|done| |done]. repeat constructor; by vm_compute.
Defined.
