(* ===== verification/Policy.v ===== *)
(** * Policy errors, filters and policies

    vls-core/src/policy/error.rs, policy/filter.rs, policy/mod.rs,
    util/status.rs and the policy record of policy/simple_validator.rs.

    Error messages are the format strings of the source, with the arguments
    left uninterpolated. *)

From S2P Require Import Prelude Velocity.

(** ** Errors (policy/error.rs) *)

Inductive ValidationErrorKind :=
| TransactionFormat (s : string)
| ScriptFormat (s : string)
| Mismatch (s : string)
| KPolicy (s : string)
| TemporaryPolicy (s : string)
| UnknownDestinations (s : string) (indices : list nat).

Record ValidationError := { kind : ValidationErrorKind }.

Notation result A := (outcome ValidationError A).

Definition prepend_msg (self : ValidationError) (premsg : string) : ValidationError :=
  {| kind :=
       match kind self with
       | TransactionFormat s0 => TransactionFormat (premsg +:+ s0)
       | ScriptFormat s0 => ScriptFormat (premsg +:+ s0)
       | Mismatch s0 => Mismatch (premsg +:+ s0)
       | KPolicy s0 => KPolicy (premsg +:+ s0)
       | TemporaryPolicy s0 => TemporaryPolicy (premsg +:+ s0)
       | UnknownDestinations s0 indices => UnknownDestinations (premsg +:+ s0) indices
       end |}.

Definition into_string (ve : ValidationError) : string :=
  match kind ve with
  | TransactionFormat s => "transaction format: " +:+ s
  | ScriptFormat s => "script format: " +:+ s
  | Mismatch s => "script template mismatch: " +:+ s
  | KPolicy s => "policy failure: " +:+ s
  | TemporaryPolicy s => "temporary policy failure: " +:+ s
  | UnknownDestinations s indices => "unknown destinations: " +:+ s +:+ " {:?}"
  end.

Definition transaction_format_error (msg : string) : ValidationError :=
  {| kind := TransactionFormat msg |}.
Definition script_format_error (msg : string) : ValidationError :=
  {| kind := ScriptFormat msg |}.
Definition mismatch_error (msg : string) : ValidationError := {| kind := Mismatch msg |}.
Definition policy_error_value (msg : string) : ValidationError := {| kind := KPolicy msg |}.
Definition temporary_policy_error_value (msg : string) : ValidationError :=
  {| kind := TemporaryPolicy msg |}.
Definition unknown_destinations_error (unknowns : list nat) : ValidationError :=
  {| kind := UnknownDestinations EmptyString unknowns |}.

(** The macro [transaction_format_err!]: never filtered. *)
Definition transaction_format_err {A} (func msg : string) : result A :=
  Err (transaction_format_error (func +:+ ": " +:+ msg)).

(** ** Status (util/status.rs) *)

Inductive Code := CodeOk | InvalidArgument | FailedPrecondition | Internal | Temporary.

Record Status := { code : Code; message : string }.

Definition invalid_argument (msg : string) : Status :=
  {| code := InvalidArgument; message := msg |}.
Definition internal_error (msg : string) : Status :=
  {| code := Internal; message := msg |}.
Definition failed_precondition (msg : string) : Status :=
  {| code := FailedPrecondition; message := msg |}.

(** [impl From<ValidationError> for Status]. *)
Definition status_from (ve : ValidationError) : Status :=
  match kind ve with
  | TemporaryPolicy s => {| code := Temporary; message := s |}
  | _ => {| code := FailedPrecondition; message := into_string ve |}
  end.

(** ** Filters (policy/filter.rs) *)

Inductive FilterResult := FError | FWarn.

#[global] Instance FilterResult_eq_dec : EqDecision FilterResult.
Proof. solve_decision. Defined.

Record FilterRule := { rule_tag : string; is_prefix : bool; action : FilterResult }.

Definition new_warn (tag : string) : FilterRule :=
  {| rule_tag := tag; is_prefix := false; action := FWarn |}.
Definition new_error (tag : string) : FilterRule :=
  {| rule_tag := tag; is_prefix := false; action := FError |}.

Record PolicyFilter := { rules : list FilterRule }.

Definition rule_matches (tag : string) (rule : FilterRule) : bool :=
  if is_prefix rule then String.prefix (rule_tag rule) tag
  else String.eqb tag (rule_tag rule).

Fixpoint filter_rules (rs : list FilterRule) (tag : string) : FilterResult :=
  match rs with
  | [] => FError
  | rule :: rs' => if rule_matches tag rule then action rule else filter_rules rs' tag
  end.

Definition filter_tag (f : PolicyFilter) (tag : string) : FilterResult :=
  filter_rules (rules f) tag.

Definition new_permissive : PolicyFilter :=
  {| rules := [{| rule_tag := EmptyString; is_prefix := true; action := FWarn |}] |}.

Definition merge (self other : PolicyFilter) : PolicyFilter :=
  {| rules := rules self ++ rules other |}.

Definition default_filter : PolicyFilter := {| rules := [] |}.

(** ** The [Policy] trait (policy/mod.rs) *)

Definition DEFAULT_FEE_VELOCITY_CONTROL : VelocityControlSpec :=
  {| limit_msat := 1000000000; interval_type := Daily |}.
Definition MAX_CHANNELS : Z := 1000.
Definition MAX_INVOICES : Z := 1000.
Definition MAX_ONCHAIN_TX_SIZE : Z := 32 * 1024.
(** Durations in seconds. *)
Definition MIN_INVOICE_EXPIRY : Z := 60.
Definition MAX_CLOCK_SKEW : Z := 60.

Record Policy := {
  policy_error : string -> string -> result unit;
  temporary_policy_error : string -> string -> result unit;
  global_velocity_control : VelocityControlSpec;
  max_channels : Z;
  max_invoices : Z;
  fee_velocity_control : VelocityControlSpec
}.

Definition policy_error_with_filter (tag msg : string) (f : PolicyFilter) : result unit :=
  if decide (filter_tag f tag = FError) then Err (policy_error_value msg) else Ok tt.

Definition temporary_policy_error_with_filter (tag msg : string) (f : PolicyFilter)
  : result unit :=
  if decide (filter_tag f tag = FError) then Err (temporary_policy_error_value msg) else Ok tt.

(** The macros [policy_err!] and [temporary_policy_err!], in function [func]. *)
Definition policy_err (p : Policy) (tag func msg : string) : result unit :=
  policy_error p tag (func +:+ ": " +:+ msg).
Definition temporary_policy_err (p : Policy) (tag func msg : string) : result unit :=
  temporary_policy_error p tag (func +:+ ": " +:+ msg).

(** ** [SimplePolicy] (policy/simple_validator.rs) *)

Inductive Network := Bitcoin | Testnet | Signet | Regtest.

#[global] Instance Network_eq_dec : EqDecision Network.
Proof. solve_decision. Defined.

Record PolicyDevFlags := { disable_beneficial_balance_checks : bool }.
Definition DEFAULT_DEV_FLAGS : PolicyDevFlags :=
  {| disable_beneficial_balance_checks := false |}.

Record SimplePolicy := {
  min_delay : Z;
  max_delay : Z;
  max_channel_size_sat : Z;
  epsilon_sat : Z;
  max_htlcs : Z;
  max_htlc_value_sat : Z;
  use_chain_state : bool;
  min_feerate_per_kw : Z;
  max_feerate_per_kw : Z;
  sp_enforce_balance : bool;
  max_routing_fee_msat : Z;
  dev_flags : option PolicyDevFlags;
  sp_filter : PolicyFilter;
  sp_global_velocity_control : VelocityControlSpec;
  sp_max_channels : Z;
  sp_max_invoices : Z;
  sp_fee_velocity_control : VelocityControlSpec
}.

Definition simple_policy (p : SimplePolicy) : Policy := {|
  policy_error tag msg := policy_error_with_filter tag msg (sp_filter p);
  temporary_policy_error tag msg := temporary_policy_error_with_filter tag msg (sp_filter p);
  global_velocity_control := sp_global_velocity_control p;
  max_channels := sp_max_channels p;
  max_invoices := sp_max_invoices p;
  fee_velocity_control := sp_fee_velocity_control p
|}.

Definition make_simple_policy (network : Network) : SimplePolicy :=
  if decide (network = Bitcoin) then {|
    min_delay := 144;
    max_delay := 2016;
    max_channel_size_sat := 1000000001;
    epsilon_sat := 10000;
    max_htlcs := 1000;
    max_htlc_value_sat := 16777216;
    use_chain_state := false;
    min_feerate_per_kw := 253;
    max_feerate_per_kw := 25000;
    sp_enforce_balance := false;
    max_routing_fee_msat := 10000;
    dev_flags := None;
    sp_filter := default_filter;
    sp_global_velocity_control := UNLIMITED;
    sp_max_channels := MAX_CHANNELS;
    sp_max_invoices := MAX_INVOICES;
    sp_fee_velocity_control := DEFAULT_FEE_VELOCITY_CONTROL
  |} else {|
    min_delay := 4;
    max_delay := 2016;
    max_channel_size_sat := 1000000001;
    epsilon_sat := 10000;
    max_htlcs := 1000;
    max_htlc_value_sat := 16777216;
    use_chain_state := false;
    min_feerate_per_kw := 253;
    max_feerate_per_kw := 151000;
    sp_enforce_balance := false;
    max_routing_fee_msat := 120000;
    dev_flags := None;
    sp_filter := default_filter;
    sp_global_velocity_control := UNLIMITED;
    sp_max_channels := MAX_CHANNELS;
    sp_max_invoices := MAX_INVOICES;
    sp_fee_velocity_control := DEFAULT_FEE_VELOCITY_CONTROL
  |}.

(** ** Strict policies

    A policy is strict on a tag when its filter turns violations of that tag
    into errors; [default_filter] is strict on every tag. *)

Definition strict_on (p : Policy) (tag : string) : Prop :=
  forall msg, exists e, policy_error p tag msg = Err e /\
    exists e', temporary_policy_error p tag msg = Err e'.

Class Strict (p : Policy) : Prop := strict : forall tag, strict_on p tag.

(** ** Lemmas *)

Lemma strict_err p tag func msg u : strict_on p tag -> policy_err p tag func msg = Ok u -> False.
Proof. intros Hs. unfold policy_err. by destruct (Hs (func +:+ ": " +:+ msg)) as (e & -> & _). Qed.

Lemma strict_temporary_err p tag func msg u :
  strict_on p tag -> temporary_policy_err p tag func msg = Ok u -> False.
Proof.
  intros Hs. unfold temporary_policy_err.
  by destruct (Hs (func +:+ ": " +:+ msg)) as (e & _ & e' & ->).
Qed.

Lemma strict_when p tag func msg b u : strict_on p tag ->
  whenb b (policy_err p tag func msg) = Ok u -> b = false.
Proof. destruct b; [|done]. intros Hs H. by apply strict_err in H. Qed.

Lemma strict_temporary_when p tag func msg b u : strict_on p tag ->
  whenb b (temporary_policy_err p tag func msg) = Ok u -> b = false.
Proof. destruct b; [|done]. intros Hs H. by apply strict_temporary_err in H. Qed.

Lemma simple_policy_strict_on p tag :
  filter_tag (sp_filter p) tag = FError -> strict_on (simple_policy p) tag.
Proof.
  intros Hf msg. cbn. unfold policy_error_with_filter, temporary_policy_error_with_filter.
  rewrite !decide_True by done. eauto 6.
Qed.

#[export] Instance make_simple_policy_strict network :
  Strict (simple_policy (make_simple_policy network)).
Proof. intros tag. apply simple_policy_strict_on. by destruct network. Qed.

Lemma filter_rules_app rs1 rs2 tag :
  filter_rules (rs1 ++ rs2) tag =
    if existsb (rule_matches tag) rs1 then filter_rules rs1 tag else filter_rules rs2 tag.
Proof.
  induction rs1 as [|r rs1 IH]; cbn; [done|]. by destruct (rule_matches tag r).
Qed.

Lemma prefix_empty s : String.prefix EmptyString s = true.
Proof. by destruct s. Qed.

(** Invert the success of a program that checks a strict policy [p]. *)
Ltac strict_ok Hs :=
  repeat match goal with
  | H : whenb _ (policy_err _ _ _ _) = Ok _ |- _ =>
      apply strict_when in H; [|solve [apply Hs]]
  | H : whenb _ (temporary_policy_err _ _ _ _) = Ok _ |- _ =>
      apply strict_temporary_when in H; [|solve [apply Hs]]
  | H : policy_err _ _ _ _ = Ok _ |- _ =>
      exfalso; apply strict_err in H; [done|solve [apply Hs]]
  | H : whenb _ (transaction_format_err _ _) = Ok _ |- _ => apply whenb_Err_Ok in H
  end.

(** ** Properties *)

(** Merging filters gives precedence to the rules already there: the
    verdict on a tag is that of the first filter when one of its rules matches
    the tag, and that of the second otherwise; a merged permissive filter
    turns into a warning exactly what no earlier rule makes an error. *)
Theorem merge_precedence (f g : PolicyFilter) (tag : string) :
  filter_tag (merge f g) tag =
    (if existsb (rule_matches tag) (rules f) then filter_tag f tag else filter_tag g tag)
  /\ (filter_tag (merge f new_permissive) tag = FError <->
      exists r, r ∈ rules f /\ rule_matches tag r = true /\ filter_tag f tag = FError).
Proof.
  unfold filter_tag, merge; cbn [rules]. rewrite !filter_rules_app.
  split; [done|]. destruct (existsb (rule_matches tag) (rules f)) eqn:Hex.
  - apply existsb_exists in Hex as (r & Hin & Hm). split; [|by intros (? & _ & _ & ?)].
    intros. exists r. by rewrite list_elem_of_In.
  - unfold rule_matches at 1; cbn. rewrite prefix_empty. split; [done|]. intros (r & Hin & Hm & _).
    assert (existsb (rule_matches tag) (rules f) = true); [|congruence].
    apply existsb_exists. exists r. by rewrite <- list_elem_of_In.
Qed.
