(* ===== verification/Order.v ===== *)
(** * Total orders, sorting and the added-items iterator

    The trait [Ord] of the Rust standard library as a type class with its
    laws, [Vec::sort], and [AddedItemsIter] of vls-core/src/util/mod.rs, which
    lists what a sorted vector has and another does not. *)

From stdpp Require Import sorting.
From S2P Require Import Prelude.

(** ** The trait [Ord] *)

Class Ord (T : Type) := cmp : T -> T -> comparison.

Class OrdLaws (T : Type) `{Ord T} : Prop := {
  cmp_eq : forall a b : T, cmp a b = Eq <-> a = b;
  cmp_opp : forall a b : T, cmp b a = CompOpp (cmp a b);
  cmp_lt_trans : forall a b c : T, cmp a b = Lt -> cmp b c = Lt -> cmp a c = Lt
}.

(** [Ordering::then_with]. *)
Definition then_with (c : comparison) (d : comparison) : comparison :=
  match c with Eq => d | _ => c end.

#[global] Instance Z_Ord : Ord Z := Z.compare.

(** The lexicographic order of slices. *)
Fixpoint slice_cmp {T} `{Ord T} (l1 l2 : list T) : comparison :=
  match l1, l2 with
  | [], [] => Eq
  | [], _ :: _ => Lt
  | _ :: _, [] => Gt
  | a :: l1', b :: l2' => then_with (cmp a b) (slice_cmp l1' l2')
  end.
#[global] Instance list_Ord {T} `{Ord T} : Ord (list T) := slice_cmp.

Definition lt_ {T} `{Ord T} (a b : T) : bool :=
  match cmp a b with Lt => true | _ => false end.

(** The relation [vec.sort()] sorts by. *)
Definition le_ {T} `{Ord T} (a b : T) : Prop := cmp a b <> Gt.

#[global] Instance le_dec {T} `{Ord T} : RelDecision (le_ (T := T)).
Proof. intros a b. unfold le_. destruct (cmp a b); [left|left|right]; naive_solver. Defined.

Definition sort {T} `{Ord T} (l : list T) : list T := merge_sort le_ l.

#[global] Instance Z_OrdLaws : OrdLaws Z.
Proof.
  split; unfold cmp, Z_Ord.
  - apply Z.compare_eq_iff.
  - intros. apply Z.compare_antisym.
  - intros a b c. rewrite !Z.compare_lt_iff. lia.
Qed.

Section then_with.
Lemma then_with_eq c d : then_with c d = Eq <-> c = Eq /\ d = Eq.
Proof. destruct c; naive_solver. Qed.
Lemma then_with_opp c d : CompOpp (then_with c d) = then_with (CompOpp c) (CompOpp d).
Proof. by destruct c. Qed.
Lemma then_with_lt c d : then_with c d = Lt <-> c = Lt \/ c = Eq /\ d = Lt.
Proof. destruct c; naive_solver. Qed.
End then_with.

#[global] Instance list_OrdLaws {T} `{OrdLaws T} : OrdLaws (list T).
Proof.
  split; unfold cmp, list_Ord.
  - induction a as [|x a IH]; intros [|y b]; cbn; try naive_solver.
    rewrite then_with_eq, cmp_eq, IH. naive_solver.
  - induction a as [|x a IH]; intros [|y b]; cbn; try done.
    by rewrite then_with_opp, <- cmp_opp, <- IH.
  - induction a as [|x a IH]; intros [|y b] [|z c]; cbn; try done.
    rewrite !then_with_lt, !cmp_eq. intros [Hxy|[-> Hab]] [Hyz|[-> Hbc]].
    + left. by eapply cmp_lt_trans.
    + by left.
    + by left.
    + right. eauto.
Qed.

#[global] Instance prod_Ord {A B} `{Ord A, Ord B} : Ord (A * B) :=
  fun p q => then_with (cmp p.1 q.1) (cmp p.2 q.2).

#[global] Instance prod_OrdLaws {A B} `{OrdLaws A, OrdLaws B} : OrdLaws (A * B).
Proof.
  split; unfold cmp, prod_Ord.
  - intros [] []; cbn. rewrite then_with_eq, !cmp_eq. naive_solver.
  - intros a b. by rewrite then_with_opp, <- !cmp_opp.
  - intros [a1 a2] [b1 b2] [c1 c2]; cbn. rewrite !then_with_lt, !cmp_eq.
    intros [Hab|[-> Hab]] [Hbc|[-> Hbc]]; eauto using cmp_lt_trans.
Qed.

(** An order through an injection. *)
Lemma inj_OrdLaws {A B} `{OrdLaws B} (f : A -> B) :
  (forall a b, f a = f b -> a = b) -> @OrdLaws A (fun a b => cmp (f a) (f b)).
Proof.
  intros Hinj. split.
  - intros a b. change (cmp (f a) (f b) = Eq <-> a = b). rewrite cmp_eq. naive_solver.
  - intros a b. apply (cmp_opp (f a) (f b)).
  - intros a b c. apply (cmp_lt_trans (f a) (f b) (f c)).
Qed.

Section order.
Context {T : Type} `{OrdLaws T}.
Implicit Types a b c : T.

Lemma cmp_refl a : cmp a a = Eq.
Proof. by apply cmp_eq. Qed.

Lemma cmp_gt_lt a b : cmp a b = Gt <-> cmp b a = Lt.
Proof. rewrite (cmp_opp a b). destruct (cmp a b); naive_solver. Qed.

Lemma le_total a b : le_ a b \/ le_ b a.
Proof.
  unfold le_. rewrite (cmp_opp a b). destruct (cmp a b); cbn; naive_solver.
Qed.

Lemma le_antisym a b : le_ a b -> le_ b a -> a = b.
Proof.
  unfold le_. rewrite (cmp_opp a b). intros ? ?. apply cmp_eq. by destruct (cmp a b).
Qed.

Lemma le_trans a b c : le_ a b -> le_ b c -> le_ a c.
Proof.
  unfold le_. intros Hab Hbc Hac. apply cmp_gt_lt in Hac.
  destruct (cmp a b) eqn:E1; [|..|done].
  - apply cmp_eq in E1 as ->. by apply cmp_gt_lt in Hac.
  - pose proof (cmp_lt_trans _ _ _ Hac E1) as Hcb. by apply cmp_gt_lt in Hcb.
Qed.

#[global] Instance le_Total : Total (le_ (T := T)).
Proof. intros a b. apply le_total. Qed.
#[global] Instance le_Transitive : Transitive (le_ (T := T)).
Proof. intros a b c. apply le_trans. Qed.
#[global] Instance le_AntiSymm : AntiSymm eq (le_ (T := T)).
Proof. intros a b. apply le_antisym. Qed.

Lemma sort_perm (l : list T) : sort l ≡ₚ l.
Proof. apply merge_sort_Permutation. Qed.

Lemma sort_sorted (l : list T) : StronglySorted le_ (sort l).
Proof. apply StronglySorted_merge_sort; apply _. Qed.

Lemma sort_ext (l1 l2 : list T) : l1 ≡ₚ l2 -> sort l1 = sort l2.
Proof.
  intros Hp. apply (StronglySorted_unique le_); [apply sort_sorted..|].
  by rewrite !sort_perm.
Qed.
End order.

(** ** [AddedItemsIter] (util/mod.rs) *)

(** The two [PutBack] iterators, as what they have left. *)
Record AddedItemsIter (T : Type) := { from : list T; to : list T }.
Arguments from {T} _.
Arguments to {T} _.

(** The loop of [next]: every turn consumes an element of [from]. *)
Fixpoint next_loop {T} `{Ord T} (from to : list T) : option T * AddedItemsIter T :=
  match from with
  | [] =>
      match to with
      | [] => (None, {| from := []; to := [] |})
      | next_to :: to' => (Some next_to, {| from := []; to := to' |})
      end
  | next_from :: from' =>
      match to with
      | [] => (None, {| from := from'; to := [] |})
      | next_to :: to' =>
          match cmp next_from next_to with
          | Lt => next_loop from' to
          | Eq => next_loop from' to'
          | Gt => (Some next_to, {| from := from; to := to' |})
          end
      end
  end.

Definition next {T} `{Ord T} (it : AddedItemsIter T) : option T * AddedItemsIter T :=
  next_loop (from it) (to it).

(** Drain the iterator; every item yielded was taken from [to]. *)
Fixpoint collect {T} `{Ord T} (fuel : nat) (it : AddedItemsIter T) : list T :=
  match fuel with
  | O => []
  | S fuel' =>
      match next it with
      | (Some x, it') => x :: collect fuel' it'
      | (None, _) => []
      end
  end.

Definition added_items {T} `{Ord T} (from to : list T) : list T :=
  collect (S (length to)) {| from := from; to := to |}.

(** ** Lemmas *)

Section added.
Context {T : Type} `{OrdLaws T} `{EqDecision T}.

(** The number of occurrences of [x]. *)
Definition count (x : T) (l : list T) : nat := length (filter (x =.) l).

Lemma count_cons x y l : count x (y :: l) = ((if decide (x = y) then 1 else 0) + count x l)%nat.
Proof. unfold count. rewrite filter_cons. by destruct (decide (x = y)). Qed.

Lemma count_lt_zero x l : Forall (fun y => cmp x y = Lt) l -> count x l = 0%nat.
Proof.
  induction 1 as [|y l Hy _ IH]; [done|]. rewrite count_cons, IH.
  destruct (decide (x = y)) as [->|]; [|done]. by rewrite cmp_refl in Hy.
Qed.

(** The reference: merge the two sorted lists, keeping what is only in [to]. *)
Fixpoint merge_diff (from to : list T) : list T :=
  match from with
  | [] => to
  | f :: from' =>
      (fix go to :=
         match to with
         | [] => []
         | t :: to' =>
             match cmp f t with
             | Lt => merge_diff from' to
             | Eq => merge_diff from' to'
             | Gt => t :: go to'
             end
         end) to
  end.

Lemma next_loop_spec from to :
  match next_loop from to with
  | (Some x, it) => merge_diff from to = x :: merge_diff (Order.from it) (Order.to it)
                    /\ (length (Order.to it) < length to)%nat
  | (None, _) => merge_diff from to = []
  end.
Proof.
  revert to. induction from as [|f from IH]; intros [|t to]; cbn [next_loop]; [done|..].
  - cbn. split; [done|lia].
  - done.
  - destruct (cmp f t) eqn:Hc.
    + specialize (IH to). destruct (next_loop from to) as [[x|] it]; cbn; rewrite Hc;
        [destruct IH; split; [done|cbn; lia]|done].
    + specialize (IH (t :: to)). destruct (next_loop from (t :: to)) as [[x|] it]; cbn; rewrite Hc;
        done.
    + cbn. rewrite Hc. split; [done|lia].
Qed.

Lemma collect_spec fuel it : (length (to it) < fuel)%nat ->
  collect fuel it = merge_diff (from it) (to it).
Proof.
  revert it. induction fuel as [|fuel IH]; intros it Hf; [lia|]. cbn. unfold next.
  pose proof (next_loop_spec (from it) (to it)) as Hn.
  destruct (next_loop (from it) (to it)) as [[x|] it']; [|done].
  destruct Hn as [-> Hl]. rewrite IH by lia. done.
Qed.

Lemma lt_sorted f a l : cmp f a = Lt -> StronglySorted le_ (a :: l) ->
  Forall (fun y => cmp f y = Lt) (a :: l).
Proof.
  intros Hf Hs. inversion Hs as [|? ? _ Hall]; subst. constructor; [done|].
  eapply Forall_impl; [exact Hall|]. cbn. intros y Hy.
  unfold le_ in Hy. destruct (cmp a y) eqn:Hc; [|by eapply cmp_lt_trans|done].
  apply cmp_eq in Hc as <-. done.
Qed.

Lemma merge_diff_count from to x : StronglySorted le_ from -> StronglySorted le_ to ->
  count x (merge_diff from to) = (count x to - count x from)%nat.
Proof.
  intros Hfrom. revert to. induction Hfrom as [|f from Hfrom IH Hf]; intros to Hto.
  { change (count x []) with 0%nat. cbn [merge_diff]. lia. }
  induction Hto as [|t to Hto IHto Ht]; [done|]. cbn [merge_diff].
  destruct (cmp f t) eqn:Hc.
  - apply cmp_eq in Hc as ->. rewrite IH by done. rewrite !count_cons. lia.
  - rewrite IH by (by constructor). rewrite (count_cons x f).
    destruct (decide (x = f)) as [->|]; [|lia].
    rewrite count_lt_zero; [lia|]. apply lt_sorted; [done|]. by constructor.
  - rewrite count_cons. cbn [merge_diff] in IHto. rewrite IHto. rewrite (count_cons x t).
    destruct (decide (x = t)) as [->|]; [|lia].
    apply cmp_gt_lt in Hc. rewrite (count_lt_zero t (f :: from)); [lia|].
    apply lt_sorted; [done|]. by constructor.
Qed.

Lemma merge_diff_subset from to x : x ∈ merge_diff from to -> x ∈ to.
Proof.
  revert to. induction from as [|f from IH]; intros to; [done|].
  induction to as [|t to IHto]; cbn [merge_diff]; [done|].
  destruct (cmp f t); intros Hx.
  - apply list_elem_of_further. auto.
  - auto.
  - apply elem_of_cons in Hx as [->|Hx]; [apply list_elem_of_here|].
    apply list_elem_of_further. auto.
Qed.

Lemma merge_diff_sorted from to : StronglySorted le_ to -> StronglySorted le_ (merge_diff from to).
Proof.
  revert to. induction from as [|f from IH]; intros to Hto; [done|].
  induction Hto as [|t to Hto IHto Ht]; cbn [merge_diff]; [constructor|].
  destruct (cmp f t); [by apply IH|apply IH; by constructor|].
  constructor; [done|]. apply Forall_forall. intros x Hx.
  rewrite Forall_forall in Ht. apply Ht. by apply (merge_diff_subset (f :: from)).
Qed.

(** On sorted vectors the iterator yields exactly the multiset difference
    of [to] and [from], in order (an element occurs in the result as many
    times as it occurs in [to] beyond its occurrences in [from]), and is
    exhausted after at most as many calls of [next] as [to] has elements. *)
Theorem added_items_difference (from to : list T)
  (Hfrom : StronglySorted le_ from) (Hto : StronglySorted le_ to) :
  StronglySorted le_ (added_items from to)
  /\ (forall x, count x (added_items from to) = (count x to - count x from)%nat)
  /\ (forall fuel, (length to < fuel)%nat ->
        collect fuel {| from := from; to := to |} = added_items from to).
Proof.
  unfold added_items. rewrite collect_spec by (cbn; lia). cbn [Order.from Order.to].
  split; [by apply merge_diff_sorted|]. split; [intros x; by apply merge_diff_count|].
  intros fuel Hf. by rewrite collect_spec.
Qed.
End added.

Lemma added_items_difference_witness :
  (forall x, count x (added_items [1; 2; 4] [2; 2; 3; 4; 5])
             = Nat.sub (count x [2; 2; 3; 4; 5]) (count x [1; 2; 4]))
  /\ added_items [1; 2; 4] [2; 2; 3; 4; 5] = [2; 3; 5].
Proof.
  split; [|reflexivity].
  apply (added_items_difference [1; 2; 4] [2; 2; 3; 4; 5]); repeat constructor; by vm_compute.
Defined.
