(* ===== verification/Extern.v ===== *)
(** * The crates the signer is built on

    Data types of the bitcoin, secp256k1 and lightning crates that the sources
    take apart, and the class [Lib] of the functions of those crates that the
    sources call.  The functions are not modelled: every definition that uses
    them takes them as a parameter.  Keys, hashes, signatures and scripts are
    their serialized bytes. *)

From S2P Require Import Prelude.

(** ** Data *)

(** A byte is a [Z] in [[0, 256)]. *)
Notation bytes := (list Z).
Notation PublicKey := (list Z).
Notation SecretKey := (list Z).
Notation Signature := (list Z).
Notation PaymentHash := (list Z).
Notation PaymentPreimage := (list Z).
Notation Txid := (list Z).
Notation Script := (list Z).

Record OutPoint := { op_txid : Txid; vout : Z }.

#[global] Instance OutPoint_eq_dec : EqDecision OutPoint.
Proof. solve_decision. Defined.

#[global] Instance OutPoint_countable : Countable OutPoint.
Proof.
  apply (inj_countable' (fun o => (op_txid o, vout o)) (fun p => {| op_txid := p.1; vout := p.2 |})).
  by intros [].
Defined.

Record TxIn := {
  previous_output : OutPoint;
  script_sig : Script;
  sequence : Z;
  witness : list bytes
}.

Record TxOut := { out_value : Z; script_pubkey : Script }.

Record Transaction := {
  version : Z;
  lock_time : Z;
  input : list TxIn;
  output : list TxOut
}.

#[global] Instance TxIn_eq_dec : EqDecision TxIn.
Proof. solve_decision. Defined.
#[global] Instance TxOut_eq_dec : EqDecision TxOut.
Proof. solve_decision. Defined.
#[global] Instance Transaction_eq_dec : EqDecision Transaction.
Proof. solve_decision. Defined.

(** An instruction of a script: an opcode, or a data push. *)
Inductive Instruction :=
| Op (op : Z)
| PushBytes (d : bytes).

#[global] Instance Instruction_eq_dec : EqDecision Instruction.
Proof. solve_decision. Defined.

(** The opcodes used by the sources, by their code. *)
Definition OP_PUSHNUM_1 : Z := 0x51.
Definition OP_PUSHNUM_2 : Z := 0x52.
Definition OP_PUSHNUM_16 : Z := 0x60.
Definition OP_IF : Z := 0x63.
Definition OP_NOTIF : Z := 0x64.
Definition OP_ELSE : Z := 0x67.
Definition OP_ENDIF : Z := 0x68.
Definition OP_IFDUP : Z := 0x73.
Definition OP_DROP : Z := 0x75.
Definition OP_DUP : Z := 0x76.
Definition OP_SWAP : Z := 0x7c.
Definition OP_SIZE : Z := 0x82.
Definition OP_EQUAL : Z := 0x87.
Definition OP_EQUALVERIFY : Z := 0x88.
Definition OP_HASH160 : Z := 0xa9.
Definition OP_CHECKSIG : Z := 0xac.
Definition OP_CHECKSIGVERIFY : Z := 0xad.
Definition OP_CHECKMULTISIG : Z := 0xae.
Definition OP_CLTV : Z := 0xb1.
Definition OP_CSV : Z := 0xb2.

(** [lightning::ln::chan_utils::ChannelPublicKeys]. *)
Record ChannelPublicKeys := {
  funding_pubkey : PublicKey;
  revocation_basepoint : PublicKey;
  payment_point : PublicKey;
  delayed_payment_basepoint : PublicKey;
  htlc_basepoint : PublicKey
}.

#[global] Instance ChannelPublicKeys_eq_dec : EqDecision ChannelPublicKeys.
Proof. solve_decision. Defined.

(** [lightning::ln::chan_utils::TxCreationKeys]. *)
Record TxCreationKeys := {
  per_commitment_point : PublicKey;
  revocation_key : PublicKey;
  broadcaster_htlc_key : PublicKey;
  countersignatory_htlc_key : PublicKey;
  broadcaster_delayed_payment_key : PublicKey
}.

(** [lightning::ln::chan_utils::HTLCOutputInCommitment]. *)
Record HTLCOutputInCommitment := {
  offered : bool;
  amount_msat : Z;
  oic_cltv_expiry : Z;
  oic_payment_hash : PaymentHash;
  transaction_output_index : option Z
}.

(** [lightning::ln::chan_utils::ClosingTransaction]: what it is built from. *)
Record ClosingTransaction := {
  to_holder_value_sat : Z;
  to_counterparty_value_sat : Z;
  to_holder_script : Script;
  to_counterparty_script : Script;
  closing_outpoint : OutPoint
}.

Inductive EcdsaSighashType := All | SinglePlusAnyoneCanPay.

(** [lightning::ln::chan_utils::ChannelTransactionParameters]. *)
Record ChannelTransactionParameters := {
  holder_pubkeys : ChannelPublicKeys;
  ctp_holder_selected_contest_delay : Z;
  is_outbound_from_holder : bool;
  counterparty_parameters : option (ChannelPublicKeys * Z);
  ctp_funding_outpoint : option OutPoint;
  opt_anchors : bool;
  opt_non_zero_fee_anchors : bool
}.

(** [lightning::ln::chan_utils::CommitmentTransaction]: what it is built from,
    by [new_with_auxiliary_htlc_data] and [with_non_zero_fee_anchors]; the
    parameters are directed at the holder's or at the counterparty's
    broadcast. *)
Record CommitmentTransaction := {
  ct_commitment_number : Z;
  ct_to_broadcaster_value_sat : Z;
  ct_to_countersignatory_value_sat : Z;
  ct_opt_anchors : bool;
  ct_broadcaster_funding_key : PublicKey;
  ct_countersignatory_funding_key : PublicKey;
  ct_keys : TxCreationKeys;
  ct_feerate_per_kw : Z;
  ct_htlcs : list HTLCOutputInCommitment;
  ct_parameters : ChannelTransactionParameters;
  ct_holder_broadcastable : bool;
  ct_non_zero_fee_anchors : bool
}.

(** [HolderCommitmentTransaction::new]. *)
Record HolderCommitmentTransaction := {
  hct_tx : CommitmentTransaction;
  hct_counterparty_sig : Signature;
  hct_counterparty_htlc_sigs : list Signature;
  hct_holder_funding_key : PublicKey;
  hct_counterparty_funding_key : PublicKey
}.

(** ** Functions *)

Class Lib := {
  (** bitcoin::Transaction *)
  txid : Transaction -> Txid;
  tx_weight : Transaction -> Z;
  tx_size : Transaction -> Z;

  (** bitcoin::Script and the addresses it pays to *)
  is_witness_program : Script -> bool;
  is_v0_p2wpkh : Script -> bool;
  is_v0_p2wsh : Script -> bool;
  to_v0_p2wsh : Script -> Script;
  dust_value : Script -> Z;
  txout_encoded_len : TxOut -> Z;
  varint_len : Z -> Z;
  payload_from_script : Script -> option bytes;
  instructions : Script -> list (option Instruction);
  (** [op.classify(Legacy)], when it is [PushNum] *)
  push_num : Z -> option Z;
  read_scriptint : bytes -> option Z;

  (** bitcoin::hashes::sha256, on any bytes *)
  sha256 : bytes -> bytes;
  (** and of sha256d, on any bytes *)
  sha256d : bytes -> bytes;

  (** bitcoin::secp256k1 *)
  pubkey_from_slice : bytes -> option PublicKey;
  pubkey_from_secret_key : SecretKey -> PublicKey;
  secretkey_from_slice : bytes -> option SecretKey;
  message_from_slice : bytes -> option bytes;
  sign_ecdsa : bytes -> SecretKey -> Signature;
  verify_ecdsa : bytes -> Signature -> PublicKey -> bool;
  serialize_der : Signature -> bytes;

  (** lightning::chain::keysinterface::InMemorySigner *)
  InMemorySigner : Type;
  pubkeys : InMemorySigner -> ChannelPublicKeys;
  counterparty_pubkeys : InMemorySigner -> ChannelPublicKeys;
  signer_per_commitment_point : InMemorySigner -> Z -> PublicKey;
  release_commitment_secret : InMemorySigner -> Z -> bytes;
  funding_key : InMemorySigner -> SecretKey;
  payment_key : InMemorySigner -> SecretKey;
  revocation_base_key : InMemorySigner -> SecretKey;
  delayed_payment_base_key : InMemorySigner -> SecretKey;
  htlc_base_key : InMemorySigner -> SecretKey;
  sign_counterparty_commitment : InMemorySigner -> CommitmentTransaction ->
    option (Signature * list Signature);
  sign_holder_commitment_and_htlcs : InMemorySigner -> HolderCommitmentTransaction ->
    option (Signature * list Signature);
  sign_closing_transaction : InMemorySigner -> ClosingTransaction -> option Signature;

  (** lightning::ln::chan_utils *)
  htlc_timeout_tx_weight : bool -> Z;
  htlc_success_tx_weight : bool -> Z;
  make_funding_redeemscript : PublicKey -> PublicKey -> Script;
  closing_built_transaction : ClosingTransaction -> Transaction;
  build_htlc_transaction : Txid -> Z -> Z -> HTLCOutputInCommitment -> bool -> bool ->
    PublicKey -> PublicKey -> Transaction;
  derive_public_key : PublicKey -> PublicKey -> option PublicKey;
  derive_public_revocation_key : PublicKey -> PublicKey -> PublicKey;
  derive_private_key : PublicKey -> SecretKey -> SecretKey;
  derive_private_revocation_key : SecretKey -> SecretKey -> SecretKey;
  (** [TxCreationKeys::derive_new]: point, the broadcaster's delayed payment
      and HTLC basepoints, the countersigner's revocation and HTLC ones *)
  derive_new : PublicKey -> PublicKey -> PublicKey -> PublicKey -> PublicKey -> TxCreationKeys;
  commitment_built_transaction : CommitmentTransaction -> Transaction;
  commitment_htlcs : CommitmentTransaction -> list HTLCOutputInCommitment;
  get_htlc_redeemscript : HTLCOutputInCommitment -> bool -> TxCreationKeys -> Script;
  get_revokeable_redeemscript : PublicKey -> Z -> PublicKey -> Script;

  (** [SighashCache::segwit_signature_hash]: transaction, input, script, value, type *)
  segwit_signature_hash : Transaction -> nat -> Script -> Z -> EcdsaSighashType -> option bytes
}.

(** ** A concrete instance

    Small executable stand-ins for the crates' functions, used by the
    witnesses: opcodes and direct pushes of scripts are split as bitcoin
    does, keys and hashes are toy functions. *)

Fixpoint example_instructions (fuel : nat) (s : Script) : list (option Instruction) :=
  match fuel, s with
  | S fuel', b :: s' =>
      if (1 <=? b) && (b <=? 75) then
        if (Z.to_nat b <=? length s')%nat then
          Some (PushBytes (take (Z.to_nat b) s'))
            :: example_instructions fuel' (drop (Z.to_nat b) s')
        else [None]
      else Some (Op b) :: example_instructions fuel' s'
  | _, _ => []
  end.

Definition example_signer_keys (k : Z) : ChannelPublicKeys := {|
  funding_pubkey := [2; k; 1]; revocation_basepoint := [2; k; 2]; payment_point := [2; k; 3];
  delayed_payment_basepoint := [2; k; 4]; htlc_basepoint := [2; k; 5] |}.

Definition example_lib : Lib := {|
  txid tx := [version tx; lock_time tx; Z.of_nat (length (input tx)); Z.of_nat (length (output tx))];
  tx_weight tx := 400 + 160 * Z.of_nat (length (input tx)) + 120 * Z.of_nat (length (output tx));
  tx_size tx := 100 + 40 * Z.of_nat (length (input tx)) + 30 * Z.of_nat (length (output tx));
  is_witness_program s := match s with 0 :: _ => true | _ => false end;
  is_v0_p2wpkh s := match s with 0 :: 20 :: _ => true | _ => false end;
  is_v0_p2wsh s := match s with 0 :: 32 :: _ => true | _ => false end;
  to_v0_p2wsh s := 0 :: 32 :: s;
  dust_value _ := 294;
  txout_encoded_len o := 9 + Z.of_nat (length (script_pubkey o));
  varint_len n := if n <? 253 then 1 else 3;
  payload_from_script s := Some s;
  instructions s := example_instructions (length s) s;
  push_num op := if (0x51 <=? op) && (op <=? 0x60) then Some (op - 0x50) else None;
  read_scriptint d := match d with [] => Some 0 | [b] => Some b | [b; c] => Some (b + 256 * c)
                                 | _ => None end;
  sha256 b := take 32 (map (fun x => (x * 7 + 3) mod 256) b ++ replicate 32 0);
  sha256d b := take 32 b;
  pubkey_from_slice d := match d with [] => None | _ => Some d end;
  pubkey_from_secret_key s := 2 :: s;
  secretkey_from_slice d := match d with [] => None | _ => Some d end;
  message_from_slice d := Some d;
  sign_ecdsa msg key := key ++ msg;
  verify_ecdsa msg sig key := bool_decide (2 :: sig = key ++ msg);
  serialize_der s := 48 :: s;
  InMemorySigner := Z;
  pubkeys k := example_signer_keys k;
  counterparty_pubkeys k := example_signer_keys (k + 100);
  signer_per_commitment_point k n := [2; k; n];
  release_commitment_secret k n := [k; n];
  funding_key k := [k; 1];
  revocation_base_key k := [k; 2];
  payment_key k := [k; 3];
  delayed_payment_base_key k := [k; 4];
  htlc_base_key k := [k; 5];
  sign_counterparty_commitment k ct :=
    Some ([k; 1; ct_commitment_number ct; ct_to_broadcaster_value_sat ct], []);
  sign_holder_commitment_and_htlcs k h :=
    Some ([k; 1; ct_commitment_number (hct_tx h); ct_to_broadcaster_value_sat (hct_tx h)], []);
  sign_closing_transaction k c :=
    Some [k; 1; to_holder_value_sat c; to_counterparty_value_sat c];
  derive_public_key point base := Some (base ++ point);
  derive_public_revocation_key point base := base ++ point;
  derive_private_key point base := base ++ point;
  derive_private_revocation_key secret base := base ++ secret;
  derive_new point a_delayed a_htlc b_revocation b_htlc := {|
    per_commitment_point := point; revocation_key := b_revocation ++ point;
    broadcaster_htlc_key := a_htlc ++ point; countersignatory_htlc_key := b_htlc ++ point;
    broadcaster_delayed_payment_key := a_delayed ++ point |};
  commitment_built_transaction ct := {| version := 2; lock_time := ct_commitment_number ct;
    input := [{| previous_output := default {| op_txid := []; vout := 0 |}
                   (ctp_funding_outpoint (ct_parameters ct));
                 script_sig := []; sequence := 0; witness := [] |}];
    output := [{| out_value := ct_to_broadcaster_value_sat ct;
                  script_pubkey := 0 :: 32 :: broadcaster_delayed_payment_key (ct_keys ct) |};
               {| out_value := ct_to_countersignatory_value_sat ct;
                  script_pubkey := 0 :: 20 :: per_commitment_point (ct_keys ct) |}] |};
  commitment_htlcs ct := ct_htlcs ct;
  get_htlc_redeemscript h _ ks := amount_msat h :: broadcaster_htlc_key ks;
  get_revokeable_redeemscript r delay d := delay :: r ++ d;
  htlc_timeout_tx_weight a := if a then 666 else 663;
  htlc_success_tx_weight a := if a then 706 else 703;
  make_funding_redeemscript a b := a ++ b;
  closing_built_transaction c := {| version := 2; lock_time := 0;
    input := [{| previous_output := closing_outpoint c; script_sig := [];
                 sequence := 0xffffffff; witness := [] |}];
    output := [{| out_value := to_counterparty_value_sat c;
                  script_pubkey := to_counterparty_script c |};
               {| out_value := to_holder_value_sat c; script_pubkey := to_holder_script c |}] |};
  build_htlc_transaction commitment_txid feerate delay htlc _ _ delayed_key rev_key := {|
    version := 2; lock_time := if offered htlc then oic_cltv_expiry htlc else 0;
    input := [{| previous_output := {| op_txid := commitment_txid;
                   vout := default 0 (transaction_output_index htlc) |};
                 script_sig := []; sequence := 0; witness := [] |}];
    output := [{| out_value := amount_msat htlc / 1000 - feerate * 663 / 1000;
                  script_pubkey := delay :: delayed_key ++ rev_key |}] |};
  segwit_signature_hash tx _ script value _ :=
    Some (version tx :: lock_time tx :: value :: map out_value (output tx) ++ script)
|}.
