(* ===== verification/Crypto.v ===== *)
(** * Bytes and key derivation primitives

    vls-core/src/util/byte_utils.rs: integers to and from byte arrays.
    vls-core/src/util/crypto_utils.rs: HKDF, signature encodings and the hash
    of a heartbeat.  HMAC and the signature parser are the crates' and are
    parameters. *)

From S2P Require Import Prelude Order Extern.

Class CryptoLib := {
  (** [Hmac::<sha256>]: key, message *)
  hmac_sha256 : bytes -> bytes -> bytes;
  (** [Signature::from_der] *)
  signature_from_der : bytes -> option Signature
}.

(** The hex crate. *)
Class HexLib := {
  hex_encode : bytes -> string;
  hex_decode : string -> option bytes
}.

(** [str::as_bytes]. *)
Definition as_bytes (s : string) : bytes :=
  (fun c => Z.of_N (Ascii.N_of_ascii c)) <$> String.list_ascii_of_string s.

(** Strings are compared by their bytes. *)
#[global] Instance string_Ord : Ord string := fun a b => cmp (as_bytes a) (as_bytes b).

Lemma as_bytes_inj a b : as_bytes a = as_bytes b -> a = b.
Proof.
  intros H. rewrite <- (String.string_of_list_ascii_of_string a),
    <- (String.string_of_list_ascii_of_string b). f_equal.
  eapply (list_fmap_eq_inj (fun c => Z.of_N (Ascii.N_of_ascii c))); [|exact H].
  intros x y Hxy%N2Z.inj. by apply (f_equal Ascii.ascii_of_N) in Hxy; rewrite !Ascii.ascii_N_embedding in Hxy.
Qed.

#[global] Instance string_OrdLaws : OrdLaws string.
Proof. apply (inj_OrdLaws as_bytes). apply as_bytes_inj. Qed.

Lemma append_inj_l (a x y : string) : a +:+ x = a +:+ y -> x = y.
Proof. induction a as [|c a IH]; cbn; [done|]. intros [= Heq]. by apply IH. Qed.

Lemma length_append (a b : string) : String.length (a +:+ b) = (String.length a + String.length b)%nat.
Proof.
  induction a as [|c a IH]; [done|]. change (String c a +:+ b) with (String c (a +:+ b)).
  cbn [String.length]. by rewrite IH.
Qed.

Lemma as_bytes_append u v : as_bytes (u +:+ v) = as_bytes u ++ as_bytes v.
Proof.
  induction u as [|c u IH]; [done|]. change (String c u +:+ v) with (String c (u +:+ v)).
  unfold as_bytes in *. cbn. by rewrite IH.
Qed.

Lemma append_inj_r (x y z : string) : x +:+ z = y +:+ z -> x = y.
Proof.
  intros Heq%(f_equal as_bytes). rewrite !as_bytes_append in Heq.
  apply app_inv_tail in Heq. by apply as_bytes_inj.
Qed.

(** ** byte_utils.rs *)

Module ByteUtils.

(** The conversions differ in the shift of each byte. *)
Definition be (n : nat) : list Z := (fun i => 8 * Z.of_nat i) <$> reverse (seq 0 n).
Definition le (n : nat) : list Z := (fun i => 8 * Z.of_nat i) <$> seq 0 n.

Section conversions.
Context {E : Type}.

(** [((v[0] as uN) << s0) | ((v[1] as uN) << s1) | ...] *)
Fixpoint or_shifted (v : bytes) (shifts : list Z) : outcome E Z :=
  match shifts with
  | [] => Ok 0
  | s :: shifts' =>
      b ← unwrap (head v);
      rest ← or_shifted (tail v) shifts';
      Ok (Z.lor (Z.shiftl b s) rest)
  end.

(** [v[i] = ((u >> si) & 0xff) as u8] *)
Definition to_array (u : Z) (shifts : list Z) : bytes :=
  (fun s => Z.land (Z.shiftr u s) 0xff) <$> shifts.

Definition slice_to_be16 (v : bytes) : outcome E Z := or_shifted v (be 2).
Definition slice_to_be32 (v : bytes) : outcome E Z := or_shifted v (be 4).
Definition slice_to_le32 (v : bytes) : outcome E Z := or_shifted v (le 4).
Definition slice_to_be48 (v : bytes) : outcome E Z := or_shifted v (be 6).
Definition slice_to_be64 (v : bytes) : outcome E Z := or_shifted v (be 8).

Definition be16_to_array (u : Z) : bytes := to_array u (be 2).
Definition be32_to_array (u : Z) : bytes := to_array u (be 4).
Definition le32_to_array (u : Z) : bytes := to_array u (le 4).
Definition be48_to_array (u : Z) : outcome E bytes :=
  assert_ (Z.land u 0xffff000000000000 =? 0);;
  Ok (to_array u (be 6)).
Definition be64_to_array (u : Z) : bytes := to_array u (be 8).
Definition le64_to_array (u : Z) : bytes := to_array u (le 8).

(** ** The conversions are inverse to each other *)

Definition is_byte (b : Z) : Prop := 0 <= b < 256.

(** Byte [s / 8] of [u], in place. *)
Definition covers (s j : Z) : bool := (s <=? j) && (j <? s + 8).

Lemma byte_in_place u s j : 0 <= s -> 0 <= j ->
  Z.testbit (Z.shiftl (Z.land (Z.shiftr u s) 0xff) s) j = covers s j && Z.testbit u j.
Proof.
  intros Hs Hj. unfold covers. rewrite Z.shiftl_spec by done.
  destruct (Z.leb_spec s j) as [Hsj|Hsj]; cbn [andb].
  - rewrite Z.land_spec, Z.shiftr_spec by lia. replace (j - s + s) with j by lia.
    change 0xff with (Z.ones 8). destruct (Z.ltb_spec j (s + 8)).
    + rewrite Z.ones_spec_low by lia. by rewrite andb_true_r.
    + rewrite Z.ones_spec_high by lia. by rewrite andb_false_r.
  - by rewrite Z.testbit_neg_r by lia.
Qed.

Lemma or_to_array u shifts : Forall (fun s => 0 <= s) shifts ->
  exists r, or_shifted (to_array u shifts) shifts = Ok r
    /\ forall j, 0 <= j -> Z.testbit r j = existsb (fun s => covers s j) shifts && Z.testbit u j.
Proof.
  induction 1 as [|s shifts Hs _ (r & Hr & Hbits)].
  - exists 0. split; [done|]. intros j _. by rewrite Z.testbit_0_l.
  - exists (Z.lor (Z.shiftl (Z.land (Z.shiftr u s) 0xff) s) r). split.
    + cbn [to_array fmap list_fmap or_shifted head tail unwrap]. rewrite Ok_bind.
      unfold to_array in Hr. by rewrite Hr.
    + intros j Hj. rewrite Z.lor_spec, byte_in_place, Hbits by done. cbn [existsb].
      by destruct (covers s j), (existsb _ _), (Z.testbit u j).
Qed.

Lemma shifts_nonneg n : Forall (fun s => 0 <= s) (be n) /\ Forall (fun s => 0 <= s) (le n).
Proof. split; apply Forall_fmap, Forall_forall; intros; cbn; lia. Qed.

Lemma covers_byte (i : nat) j : 0 <= j ->
  covers (8 * Z.of_nat i) j = bool_decide (Z.to_nat (j / 8) = i).
Proof.
  intros Hj. unfold covers. apply eq_true_iff_eq.
  rewrite andb_true_iff, Z.leb_le, Z.ltb_lt, bool_decide_eq_true.
  pose proof (Z.div_mod j 8 ltac:(lia)). pose proof (Z.mod_pos_bound j 8 ltac:(lia)).
  assert (0 <= j / 8) by (apply Z.div_pos; lia). split; lia.
Qed.

Lemma covered (ix : list nat) n j : (forall i, i ∈ ix <-> (i < n)%nat) -> 0 <= j ->
  existsb (fun s => covers s j) ((fun i => 8 * Z.of_nat i) <$> ix) = (j <? 8 * Z.of_nat n).
Proof.
  intros Hix Hj. apply eq_true_iff_eq. rewrite existsb_exists, Z.ltb_lt.
  pose proof (Z.div_mod j 8 ltac:(lia)). pose proof (Z.mod_pos_bound j 8 ltac:(lia)).
  assert (0 <= j / 8) by (apply Z.div_pos; lia). split.
  - intros (s & (i & -> & Hi)%list_elem_of_In%list_elem_of_fmap & Hc). apply Hix in Hi.
    rewrite covers_byte in Hc by done. apply bool_decide_eq_true in Hc. lia.
  - intros Hlt. exists (8 * Z.of_nat (Z.to_nat (j / 8))). split.
    + apply list_elem_of_In, list_elem_of_fmap. eexists. split; [done|]. apply Hix. lia.
    + rewrite covers_byte by done. by apply bool_decide_eq_true.
Qed.

(** Encoding then decoding, for any layout that has every byte. *)
Lemma decode_encode (ix : list nat) n u : (forall i, i ∈ ix <-> (i < n)%nat) ->
  0 <= u < 2 ^ (8 * Z.of_nat n) ->
  or_shifted (to_array u ((fun i => 8 * Z.of_nat i) <$> ix))
    ((fun i => 8 * Z.of_nat i) <$> ix) = Ok u.
Proof.
  intros Hix Hu.
  destruct (or_to_array u ((fun i => 8 * Z.of_nat i) <$> ix)) as (r & -> & Hbits).
  { apply Forall_fmap, Forall_forall. intros; cbn; lia. }
  f_equal. apply Z.bits_inj'. intros j Hj. rewrite Hbits, (covered _ n) by done.
  destruct (Z.ltb_spec j (8 * Z.of_nat n)); [done|]. cbn. symmetry.
  destruct (Z.eq_dec u 0) as [->|]; [apply Z.testbit_0_l|].
  apply Z.bits_above_log2; [lia|]. assert (Z.log2 u < 8 * Z.of_nat n) by (apply Z.log2_lt_pow2; lia).
  lia.
Qed.

Lemma elem_of_be_index n i : i ∈ reverse (seq 0 n) <-> (i < n)%nat.
Proof. rewrite elem_of_reverse, elem_of_seq. lia. Qed.
Lemma elem_of_le_index n i : i ∈ seq 0 n <-> (i < n)%nat.
Proof. rewrite elem_of_seq. lia. Qed.

(** Decoding then encoding. *)
Lemma or_shifted_bits (ix : list nat) : forall (v : bytes), NoDup ix -> Forall is_byte v ->
  length v = length ix ->
  exists r, or_shifted v ((fun i => 8 * Z.of_nat i) <$> ix) = Ok r
    /\ (forall k i b t, ix !! k = Some i -> v !! k = Some b -> 0 <= t < 8 ->
          Z.testbit r (8 * Z.of_nat i + t) = Z.testbit b t)
    /\ (forall i t, i ∉ ix -> 0 <= t < 8 -> Z.testbit r (8 * Z.of_nat i + t) = false).
Proof.
  induction ix as [|i0 ix IH]; intros v Hnd Hv Hlen.
  - exists 0. split; [done|]. split; [done|]. intros. apply Z.testbit_0_l.
  - destruct v as [|b0 v]; [done|]. apply NoDup_cons in Hnd as [Hi0 Hnd].
    apply Forall_cons in Hv as [Hb0 Hv].
    destruct (IH v Hnd Hv ltac:(cbn in Hlen; lia)) as (r & Hr & Hin & Hout).
    exists (Z.lor (Z.shiftl b0 (8 * Z.of_nat i0)) r).
    assert (Hhigh : forall j, 8 <= j -> Z.testbit b0 j = false).
    { intros j Hj. destruct (Z.eq_dec b0 0) as [->|]; [apply Z.testbit_0_l|].
      unfold is_byte in Hb0. apply Z.bits_above_log2; [lia|].
      assert (Z.log2 b0 < 8) by (apply Z.log2_lt_pow2; lia). lia. }
    assert (Hfirst : forall i t, 0 <= t < 8 ->
      Z.testbit (Z.shiftl b0 (8 * Z.of_nat i0)) (8 * Z.of_nat i + t)
      = if decide (i = i0) then Z.testbit b0 t else false).
    { intros i t Ht. rewrite Z.shiftl_spec by lia. case_decide as Hi; [subst; f_equal; lia|].
      destruct (Nat.lt_total i i0) as [|[|]]; [|done|].
      - apply Z.testbit_neg_r. lia.
      - apply Hhigh. lia. }
    split; [rewrite fmap_cons; cbn [or_shifted head tail unwrap]; by rewrite Ok_bind, Hr|]. split.
    + intros [|k] i b t Hi Hb Ht; cbn in Hi, Hb; simplify_eq; rewrite Z.lor_spec, Hfirst by done.
      * rewrite decide_True, Hout by done. apply orb_false_r.
      * rewrite decide_False, (Hin k i b t) by (try done; intros ->; apply Hi0;
          by eapply list_elem_of_lookup_2). done.
    + intros i t [Hne Hi]%not_elem_of_cons Ht.
      by rewrite Z.lor_spec, Hfirst, Hout, decide_False by done.
Qed.

Lemma encode_decode (ix : list nat) (v : bytes) : NoDup ix -> Forall is_byte v ->
  length v = length ix ->
  exists r, or_shifted v ((fun i => 8 * Z.of_nat i) <$> ix) = Ok r
    /\ to_array r ((fun i => 8 * Z.of_nat i) <$> ix) = v.
Proof.
  intros Hnd Hv Hlen. destruct (or_shifted_bits ix v Hnd Hv Hlen) as (r & Hr & Hin & _).
  exists r. split; [done|]. apply list_eq. intros k. unfold to_array.
  rewrite !list_lookup_fmap. destruct (ix !! k) as [i|] eqn:Hi.
  - assert (Hk : is_Some (v !! k)) by (apply lookup_lt_is_Some; rewrite Hlen;
      by eapply lookup_lt_Some). destruct Hk as [b Hb]. rewrite Hb. cbn. f_equal.
    assert (Hbb : is_byte b) by (eapply Forall_lookup; eauto). unfold is_byte in Hbb.
    apply Z.bits_inj'. intros t Ht. change 0xff with (Z.ones 8).
    rewrite Z.land_spec, Z.shiftr_spec by done. destruct (Z.lt_ge_cases t 8).
    + rewrite Z.ones_spec_low, andb_true_r, (Z.add_comm t), (Hin k i b t) by (done || lia). done.
    + rewrite Z.ones_spec_high, andb_false_r by lia. symmetry.
      destruct (Z.eq_dec b 0) as [->|]; [apply Z.testbit_0_l|].
      apply Z.bits_above_log2; [lia|]. assert (Z.log2 b < 8) by (apply Z.log2_lt_pow2; lia). lia.
  - cbn. symmetry. apply lookup_ge_None. rewrite Hlen. by apply lookup_ge_None.
Qed.

Lemma be_nodup n : NoDup (reverse (seq 0 n)).
Proof. rewrite reverse_Permutation. apply NoDup_seq. Qed.

Lemma high_bits u : 0 <= u < 2 ^ 64 ->
  Z.land u 0xffff000000000000 = Z.shiftl (Z.shiftr u 48) 48.
Proof.
  intros Hu. change 0xffff000000000000 with (Z.shiftl (Z.ones 16) 48).
  apply Z.bits_inj'. intros j Hj. rewrite Z.land_spec, !Z.shiftl_spec by done.
  destruct (Z.lt_ge_cases j 48).
  - by rewrite !(Z.testbit_neg_r _ (j - 48)), andb_false_r by lia.
  - rewrite Z.shiftr_spec by lia. replace (j - 48 + 48) with j by lia.
    destruct (Z.lt_ge_cases j 64).
    + rewrite Z.ones_spec_low by lia. apply andb_true_r.
    + rewrite Z.ones_spec_high, andb_false_r by lia. symmetry.
      destruct (Z.eq_dec u 0) as [->|]; [apply Z.testbit_0_l|].
      apply Z.bits_above_log2; [lia|].
      assert (Z.log2 u < 64) by (apply Z.log2_lt_pow2; lia). lia.
Qed.

Lemma be48_assert u : 0 <= u < 2 ^ 64 ->
  (Z.land u 0xffff000000000000 =? 0) = (u <? 2 ^ 48).
Proof.
  intros Hu. rewrite high_bits, Z.shiftl_mul_pow2, Z.shiftr_div_pow2 by lia.
  apply eq_true_iff_eq. rewrite Z.eqb_eq, Z.ltb_lt.
  pose proof (Z.div_mod u (2 ^ 48) ltac:(lia)). pose proof (Z.mod_pos_bound u (2 ^ 48) ltac:(lia)).
  assert (0 <= u / 2 ^ 48) by (apply Z.div_pos; lia). split; [nia|]. intros.
  assert (u / 2 ^ 48 = 0) as -> by (apply Z.div_small; lia). done.
Qed.

(** The conversions of byte_utils.rs round trip in both directions, at
    every width and byte order: decoding the array of an integer of that width
    gives the integer back, and encoding what was decoded from an array of
    bytes gives the array back. *)
Theorem byte_utils_roundtrip :
  (forall u, 0 <= u < 2 ^ 16 -> slice_to_be16 (be16_to_array u) = Ok u)
  /\ (forall u, 0 <= u < 2 ^ 32 -> slice_to_be32 (be32_to_array u) = Ok u
        /\ slice_to_le32 (le32_to_array u) = Ok u)
  /\ (forall u, 0 <= u < 2 ^ 48 -> (be48_to_array u ≫= slice_to_be48) = Ok u)
  /\ (forall u, 2 ^ 48 <= u < 2 ^ 64 -> be48_to_array u = Panic)
  /\ (forall u, 0 <= u < 2 ^ 64 -> slice_to_be64 (be64_to_array u) = Ok u)
  /\ (forall v, Forall is_byte v ->
        (length v = 4%nat -> (r ← slice_to_be32 v; Ok (be32_to_array r)) = Ok v
          /\ (r ← slice_to_le32 v; Ok (le32_to_array r)) = Ok v)
        /\ (length v = 8%nat -> (r ← slice_to_be64 v; Ok (be64_to_array r)) = Ok v)).
Proof.
  split; [|split; [|split; [|split; [|split]]]].
  - intros u Hu. apply (decode_encode _ 2); [apply elem_of_be_index|done].
  - intros u Hu. split; apply (decode_encode _ 4); auto using elem_of_be_index, elem_of_le_index.
  - intros u Hu. unfold be48_to_array. rewrite be48_assert by lia.
    rewrite (proj2 (Z.ltb_lt u (2 ^ 48))) by lia. cbn [assert_]. rewrite !Ok_bind.
    apply (decode_encode _ 6); [apply elem_of_be_index|done].
  - intros u Hu. unfold be48_to_array. rewrite be48_assert by lia.
    by rewrite (proj2 (Z.ltb_ge u (2 ^ 48))) by lia.
  - intros u Hu. apply (decode_encode _ 8); [apply elem_of_be_index|done].
  - intros v Hv. split; [intros Hl; split|intros Hl].
    + destruct (encode_decode (reverse (seq 0 4)) v (be_nodup 4) Hv Hl) as (r & Hr & Ha).
      unfold slice_to_be32, be32_to_array, be. by rewrite Hr, Ok_bind, Ha.
    + destruct (encode_decode (seq 0 4) v (NoDup_seq 0 4) Hv Hl) as (r & Hr & Ha).
      unfold slice_to_le32, le32_to_array, le. by rewrite Hr, Ok_bind, Ha.
    + destruct (encode_decode (reverse (seq 0 8)) v (be_nodup 8) Hv Hl) as (r & Hr & Ha).
      unfold slice_to_be64, be64_to_array, be. by rewrite Hr, Ok_bind, Ha.
Qed.
End conversions.
End ByteUtils.

(** What is relied on of the hex crate. *)
Class HexLaws `{HexLib} : Prop :=
  law_hex_decode b : Forall ByteUtils.is_byte b -> hex_decode (hex_encode b) = Some b.

Lemma hex_encode_inj `{HexLaws} a b : Forall ByteUtils.is_byte a -> Forall ByteUtils.is_byte b ->
  hex_encode a = hex_encode b -> a = b.
Proof. intros Ha Hb Heq. apply law_hex_decode in Ha, Hb. congruence. Qed.

(** ** crypto_utils.rs *)

Section crypto.
Context `{L : Lib, CrL : CryptoLib} {E : Type}.

(** [output.chunks_mut(32)]: the sizes of the chunks. *)
Fixpoint chunk_sizes (fuel len : nat) : list nat :=
  match fuel with
  | O => []
  | S fuel' =>
      if (len =? 0)%nat then []
      else if (len <=? 32)%nat then [len]
      else 32%nat :: chunk_sizes fuel' (len - 32)
  end.

(** One turn of the loop: the previous block, the counter, what is written so far. *)
Definition hkdf_step (prk info : bytes) (acc : bytes * Z * bytes) (size : nat)
  : outcome E (bytes * Z * bytes) :=
  let '(t, n, output) := acc in
  n ← (if n + 1 <? 256 then Ok (n + 1) else Panic);
  let t := hmac_sha256 prk ((if negb (n =? 1) then t else []) ++ info ++ [n]) in
  assert_ (size =? 32)%nat;;
  Ok (t, n, output ++ t).

Definition hkdf_extract_expand (salt secret info : bytes) (output_len : nat) : outcome E bytes :=
  let prk := hmac_sha256 salt secret in
  '(_, _, output) ← foldM (hkdf_step prk info) (replicate 32 0, 0, [])
                      (chunk_sizes output_len output_len);
  Ok output.

Definition hkdf_sha256 (secret info salt : bytes) : outcome E bytes :=
  hkdf_extract_expand salt secret info 32.

Definition hkdf_sha256_keys (secret info salt : bytes) : outcome E bytes :=
  hkdf_extract_expand salt secret info (32 * 6).

(** [EcdsaSighashType::All as u8] and the other types of the crate. *)
Definition sighash_byte (t : EcdsaSighashType) : Z :=
  match t with All => 1 | SinglePlusAnyoneCanPay => 0x83 end.

Definition signature_to_bitcoin_vec (sig : Signature) : bytes :=
  serialize_der sig ++ [sighash_byte All].

Definition bitcoin_vec_to_signature (sigvec : bytes) (t : EcdsaSighashType) : outcome unit Signature :=
  match last sigvec with
  | None => Err tt
  | Some mode =>
      if negb (mode =? sighash_byte t) then Err tt
      else ok_or (signature_from_der (removelast sigvec)) tt
  end.

Definition sighash_from_heartbeat (ser_heartbeat : bytes) : outcome E bytes :=
  let hash := sha256 (as_bytes "vls" ++ as_bytes "heartbeat" ++ ser_heartbeat) in
  unwrap (message_from_slice hash).

(** ** HKDF is the one of RFC 5869 *)

(** The blocks [T(1), ..., T(n)] of the expansion. *)
Fixpoint hkdf_T (prk info : bytes) (n : nat) : bytes :=
  match n with
  | O => []
  | S n' => hmac_sha256 prk (hkdf_T prk info n' ++ info ++ [Z.of_nat n])
  end.

Definition hkdf_expand (prk info : bytes) (n : nat) : bytes :=
  concat (hkdf_T prk info <$> seq 1 n).

Lemma chunk_sizes_full n : forall fuel, (32 * n <= fuel)%nat ->
  chunk_sizes fuel (32 * n) = replicate n 32%nat.
Proof.
  induction n as [|n IH]; intros fuel Hf; [by destruct fuel|].
  destruct fuel as [|fuel]; [lia|]. cbn [chunk_sizes].
  rewrite (proj2 (Nat.eqb_neq _ 0)) by lia.
  destruct (Nat.leb_spec (32 * S n) 32).
  - assert (n = 0%nat) as -> by lia. done.
  - replace (32 * S n - 32)%nat with (32 * n)%nat by lia. rewrite IH by lia. done.
Qed.

Lemma hkdf_step_block prk info t (m : nat) out :
  hkdf_step prk info (t, Z.of_nat m, out) 32
  = if decide (m < 255)%nat then
      let t' := hmac_sha256 prk ((if decide (m = 0%nat) then [] else t) ++ info
                                 ++ [Z.of_nat (S m)]) in
      Ok (t', Z.of_nat (S m), out ++ t')
    else Panic.
Proof.
  unfold hkdf_step. case_decide.
  - rewrite (proj2 (Z.ltb_lt (Z.of_nat m + 1) 256)), Ok_bind by lia.
    cbn [assert_ Nat.eqb]. rewrite Ok_bind. replace (Z.of_nat m + 1) with (Z.of_nat (S m)) by lia.
    cbv zeta. destruct m; [done|]. rewrite (proj2 (Z.eqb_neq _ 1)) by lia. done.
  - by rewrite (proj2 (Z.ltb_ge (Z.of_nat m + 1) 256)) by lia.
Qed.

Lemma hkdf_loop prk info n : forall m t out, (n + m < 256)%nat ->
  (m <> 0%nat -> t = hkdf_T prk info m) ->
  exists t', foldM (hkdf_step prk info) (t, Z.of_nat m, out) (replicate n 32%nat)
    = Ok (t', Z.of_nat (n + m), out ++ concat (hkdf_T prk info <$> seq (S m) n)).
Proof.
  induction n as [|n IH]; intros m t out Hm Ht; [exists t; cbn; by rewrite app_nil_r|].
  cbn [replicate foldM]. rewrite hkdf_step_block, decide_True by lia. cbv zeta. rewrite Ok_bind.
  assert (Ht' : hmac_sha256 prk ((if decide (m = 0%nat) then [] else t) ++ info
      ++ [Z.of_nat (S m)]) = hkdf_T prk info (S m)).
  { cbn [hkdf_T]. do 2 f_equal. case_decide; [by subst|]. by apply Ht. }
  rewrite Ht'. destruct (IH (S m) (hkdf_T prk info (S m)) (out ++ hkdf_T prk info (S m)))
    as (t' & ->); [lia|done|].
  exists t'. rewrite Nat.add_succ_r, <- app_assoc. done.
Qed.

Lemma hkdf_loop_limit prk info n : forall t m out, (m <= 255 < n + m)%nat ->
  foldM (hkdf_step prk info) (t, Z.of_nat m, out) (replicate n 32%nat) = Panic.
Proof.
  induction n as [|n IH]; intros t m out Hm; [lia|]. cbn [replicate foldM].
  rewrite hkdf_step_block. case_decide; [|done]. cbv zeta. rewrite Ok_bind. apply IH. lia.
Qed.

Lemma hkdf_blocks salt secret info n : (n <= 255)%nat ->
  hkdf_extract_expand salt secret info (32 * n)
  = Ok (hkdf_expand (hmac_sha256 salt secret) info n).
Proof.
  intros Hn. unfold hkdf_extract_expand. rewrite chunk_sizes_full by lia.
  destruct (hkdf_loop (hmac_sha256 salt secret) info n 0 (replicate 32 0) []) as (t & Hl);
    [lia|done|]. change (Z.of_nat 0) with 0 in Hl. by rewrite Hl.
Qed.

(** For an output of [n] whole blocks, [hkdf_extract_expand] is HKDF of
    RFC 5869, extraction followed by the concatenation of [T(1)] to [T(n)], up
    to the 255 blocks the counter allows; a longer output panics. *)
Theorem hkdf_is_rfc5869 (salt secret info : bytes) (n : nat) :
  hkdf_extract_expand salt secret info (32 * n)
  = if decide (n <= 255)%nat then Ok (hkdf_expand (hmac_sha256 salt secret) info n) else Panic.
Proof.
  case_decide as Hn; [by apply hkdf_blocks|].
  unfold hkdf_extract_expand. rewrite chunk_sizes_full by lia.
  pose proof (hkdf_loop_limit (hmac_sha256 salt secret) info n (replicate 32 0) 0 [] ltac:(lia))
    as Hl. change (Z.of_nat 0) with 0 in Hl. by rewrite Hl.
Qed.

(** A signature survives the encoding used in witnesses. *)
Lemma bitcoin_sig_roundtrip (Hder : forall sig, signature_from_der (serialize_der sig) = Some sig)
  (sig : Signature) :
  bitcoin_vec_to_signature (signature_to_bitcoin_vec sig) All = Ok sig
  /\ bitcoin_vec_to_signature (signature_to_bitcoin_vec sig) SinglePlusAnyoneCanPay = Err tt.
Proof.
  unfold bitcoin_vec_to_signature, signature_to_bitcoin_vec.
  rewrite last_snoc, removelast_last. cbn. by rewrite Hder.
Qed.
End crypto.
