(* ===== verification/ChaCha20.v ===== *)
(** * The ChaCha20 stream cipher of the storage server

    lightning-storage-server/src/chacha20.rs, on words of 32 bits as [Z]: the
    vector arithmetic, the block function and the processing of a message.  The
    theorem at the end compares it with the description of RFC 8439. *)

From S2P Require Import Prelude Extern Crypto.

Module ChaCha.

(** ** Vectors of four words *)

Record u32x4 := U32x4 { w0 : Z; w1 : Z; w2 : Z; w3 : Z }.

Definition lanes (f : Z -> Z -> Z) (a b : u32x4) : u32x4 :=
  U32x4 (f (w0 a) (w0 b)) (f (w1 a) (w1 b)) (f (w2 a) (w2 b)) (f (w3 a) (w3 b)).

Definition wrapping_add (a b : Z) : Z := as_u 32 (a + b).
Definition wrapping_sub (a b : Z) : Z := as_u 32 (a - b).

Definition u32x4_add : u32x4 -> u32x4 -> u32x4 := lanes wrapping_add.
Definition u32x4_sub : u32x4 -> u32x4 -> u32x4 := lanes wrapping_sub.
Definition u32x4_bitxor : u32x4 -> u32x4 -> u32x4 := lanes Z.lxor.
(** The shift amounts are the constants below, less than 32. *)
Definition u32x4_shr : u32x4 -> u32x4 -> u32x4 := lanes Z.shiftr.
Definition u32x4_shl : u32x4 -> u32x4 -> u32x4 := lanes (fun a n => as_u 32 (Z.shiftl a n)).

(** [u32::from_le_bytes] and [u32::to_le_bytes]. *)
Definition from_le_bytes (b : bytes) : Z := foldr (fun x acc => x + 256 * acc) 0 b.
Definition to_le_bytes (w : Z) : bytes := (fun i => as_u 8 (Z.shiftr w (8 * Z.of_nat i))) <$> seq 0 4.

(** The bytes [4 * i .. 4 * (i + 1)]. *)
Definition word_at (b : bytes) (i : nat) : Z := from_le_bytes (take 4 (drop (4 * i) b)).

Definition from_bytes {E} (b : bytes) : outcome E u32x4 :=
  assert_ (length b =? 16)%nat;;
  Ok (U32x4 (word_at b 0) (word_at b 1) (word_at b 2) (word_at b 3)).

(** ** The cipher *)

Definition BLOCK_SIZE : nat := 64.

Record ChaChaState := { a : u32x4; b : u32x4; c : u32x4; d : u32x4 }.

Record ChaCha20 := { state : ChaChaState; output : bytes; offset : nat }.

Definition swizzle (b c d : u32x4) : u32x4 * u32x4 * u32x4 :=
  let '(U32x4 b10 b11 b12 b13) := b in
  let '(U32x4 c10 c11 c12 c13) := c in
  let '(U32x4 d10 d11 d12 d13) := d in
  (U32x4 b11 b12 b13 b10, U32x4 c12 c13 c10 c11, U32x4 d13 d10 d11 d12).

Definition state_words (s : ChaChaState) : list Z :=
  let '(U32x4 a1 a2 a3 a4) := a s in
  let '(U32x4 b1 b2 b3 b4) := b s in
  let '(U32x4 c1 c2 c3 c4) := c s in
  let '(U32x4 d1 d2 d3 d4) := d s in
  [a1; a2; a3; a4; b1; b2; b3; b4; c1; c2; c3; c4; d1; d2; d3; d4].

Definition state_to_buffer (s : ChaChaState) : bytes := concat (to_le_bytes <$> state_words s).

Definition S32 : u32x4 := U32x4 32 32 32 32.
Definition S16 : u32x4 := U32x4 16 16 16 16.
Definition S12 : u32x4 := U32x4 12 12 12 12.
Definition S8 : u32x4 := U32x4 8 8 8 8.
Definition S7 : u32x4 := U32x4 7 7 7 7.

(** [rotate!(a, b, c)]: the new [a]. *)
Definition rotate (a b c : u32x4) : u32x4 :=
  let v := u32x4_bitxor a b in
  let r := u32x4_sub S32 c in
  let right := u32x4_shr v r in
  u32x4_bitxor (u32x4_shl v c) right.

Definition round (s : ChaChaState) : ChaChaState :=
  let a := u32x4_add (a s) (b s) in
  let d := rotate (d s) a S16 in
  let c := u32x4_add (c s) d in
  let b := rotate (b s) c S12 in
  let a := u32x4_add a b in
  let d := rotate d a S8 in
  let c := u32x4_add c d in
  let b := rotate b c S7 in
  {| a := a; b := b; c := c; d := d |}.

(** One turn of the loop of [update]. *)
Definition double_round (s : ChaChaState) : ChaChaState :=
  let s := round s in
  let '(b', c', d') := swizzle (b s) (c s) (d s) in
  let s := round {| a := a s; b := b'; c := c'; d := d' |} in
  let '(d', c', b') := swizzle (d s) (c s) (b s) in
  {| a := a s; b := b'; c := c'; d := d' |}.

Definition mix (s : ChaChaState) : ChaChaState := Nat.iter 10 double_round s.

Section cipher.
Context {E : Type}.

Definition expand (key nonce : bytes) : outcome E ChaChaState :=
  constant ← match length key with
             | 16%nat => Ok (as_bytes "expand 16-byte k")
             | 32%nat => Ok (as_bytes "expand 32-byte k")
             | _ => Panic
             end;
  a ← from_bytes (take 16 constant);
  b ← from_bytes (take 16 key);
  c ← if (length key =? 16)%nat then from_bytes (take 16 key) else from_bytes (take 16 (drop 16 key));
  d ← if (length nonce =? 16)%nat then from_bytes (take 16 nonce)
      else if (length nonce =? 12)%nat then from_bytes (replicate 4 0 ++ nonce)
      else from_bytes (replicate 8 0 ++ nonce);
  Ok {| a := a; b := b; c := c; d := d |}.

Definition new (key nonce : bytes) : outcome E ChaCha20 :=
  assert_ ((length key =? 16) || (length key =? 32))%nat;;
  assert_ ((length nonce =? 8) || (length nonce =? 12))%nat;;
  st ← expand key nonce;
  Ok {| state := st; output := replicate BLOCK_SIZE 0; offset := 64 |}.

Definition update (self : ChaCha20) : outcome E ChaCha20 :=
  let s0 := state self in
  let s := mix s0 in
  let s := {| a := u32x4_add (a s) (a s0); b := u32x4_add (b s) (b s0);
              c := u32x4_add (c s) (c s0); d := u32x4_add (d s) (d s0) |} in
  let d' := u32x4_add (d s0) (U32x4 1 0 0 0) in
  if w0 d' =? 0 then Panic
  else Ok {| state := {| a := a s0; b := b s0; c := c s0; d := d' |};
             output := state_to_buffer s; offset := 0 |}.

(** The loop of [process] and of [process_in_place]: the rest of the input, and
    what was written so far.  Every turn consumes input, so that [fuel] is the
    length of the input. *)
Fixpoint process_loop (fuel : nat) (self : ChaCha20) (input written : bytes)
  : outcome E (ChaCha20 * bytes) :=
  match fuel, input with
  | S fuel', _ :: _ =>
      self ← if (offset self =? BLOCK_SIZE)%nat then update self else Ok self;
      let count := Nat.min (BLOCK_SIZE - offset self) (length input) in
      assert_ (offset self + count <=? length (output self))%nat;;
      let chunk := zip_with Z.lxor (take count input) (take count (drop (offset self) (output self))) in
      process_loop fuel' {| state := state self; output := output self; offset := offset self + count |}
        (drop count input) (written ++ chunk)
  | _, _ => Ok (self, written)
  end.

Definition process (self : ChaCha20) (input out : bytes) : outcome E (ChaCha20 * bytes) :=
  assert_ (length input =? length out)%nat;;
  process_loop (length input) self input [].

Definition process_in_place (self : ChaCha20) (input_output : bytes) : outcome E (ChaCha20 * bytes) :=
  process_loop (length input_output) self input_output [].

Definition get_single_block (key nonce : bytes) : outcome E bytes :=
  st ← expand key nonce;
  '(_, chacha_bytes) ← process_in_place
    {| state := st; output := replicate BLOCK_SIZE 0; offset := 64 |} (replicate 32 0);
  Ok chacha_bytes.
End cipher.

(** ** RFC 8439 *)

Module RFC.

(** A left rotation of a word. *)
Definition rotl (x n : Z) : Z := Z.lor (as_u 32 (Z.shiftl x n)) (Z.shiftr x (32 - n)).

(** 2.1, with the rotation as an argument. *)
Definition qr (rot : Z -> Z -> Z) (a b c d : Z) : Z * Z * Z * Z :=
  let a := wrapping_add a b in let d := rot (Z.lxor d a) 16 in
  let c := wrapping_add c d in let b := rot (Z.lxor b c) 12 in
  let a := wrapping_add a b in let d := rot (Z.lxor d a) 8 in
  let c := wrapping_add c d in let b := rot (Z.lxor b c) 7 in
  (a, b, c, d).

(** 2.2: a quarter round on four words of the state. *)
Definition quarterround (x y z w : nat) (s : list Z) : list Z :=
  let '(a, b, c, d) := qr rotl (nth x s 0) (nth y s 0) (nth z s 0) (nth w s 0) in
  <[x := a]> (<[y := b]> (<[z := c]> (<[w := d]> s))).

(** 2.3: column rounds, then diagonal rounds. *)
Definition inner_block (s : list Z) : list Z :=
  let s := quarterround 0 4 8 12 s in
  let s := quarterround 1 5 9 13 s in
  let s := quarterround 2 6 10 14 s in
  let s := quarterround 3 7 11 15 s in
  let s := quarterround 0 5 10 15 s in
  let s := quarterround 1 6 11 12 s in
  let s := quarterround 2 7 8 13 s in
  quarterround 3 4 9 14 s.

Definition words (b : bytes) (n : nat) : list Z := word_at b <$> seq 0 n.

(** The constants, the key, the counter and the nonce of 96 bits. *)
Definition initial (key nonce : bytes) (counter : Z) : list Z :=
  words (as_bytes "expand 32-byte k") 4 ++ words key 8 ++ [counter] ++ words nonce 3.

Definition block (key nonce : bytes) (counter : Z) : bytes :=
  let s := initial key nonce counter in
  concat (to_le_bytes <$> zip_with wrapping_add (Nat.iter 10 inner_block s) s).

(** 2.4: the first [n] bytes of the key stream from block 0. *)
Definition key_stream (key nonce : bytes) (n : nat) : bytes :=
  take n (concat ((fun i => block key nonce (Z.of_nat i)) <$> seq 0 (n / 64 + 1))).
End RFC.

(** ** Words *)

Definition is_word (x : Z) : Prop := 0 <= x < 2 ^ 32.

Lemma word_bits x : 0 <= x -> (forall j, 32 <= j -> Z.testbit x j = false) -> is_word x.
Proof.
  intros Hx Hb. split; [done|]. destruct (decide (x = 0)) as [->|Hne]; [done|].
  apply Z.log2_lt_pow2; [lia|]. destruct (decide (Z.log2 x < 32)); [done|].
  specialize (Hb (Z.log2 x) ltac:(lia)). rewrite Z.bit_log2 in Hb by lia. done.
Qed.

Lemma bits_word x j : is_word x -> 32 <= j -> Z.testbit x j = false.
Proof.
  intros [H0 H1] Hj. destruct (decide (x = 0)) as [->|Hne]; [by rewrite Z.bits_0|].
  apply Z.bits_above_log2; [done|]. apply Z.lt_le_trans with 32; [|done].
  by apply Z.log2_lt_pow2; [lia|].
Qed.

Lemma lxor_word x y : is_word x -> is_word y -> is_word (Z.lxor x y).
Proof.
  intros Hx Hy. apply word_bits; [apply Z.lxor_nonneg; unfold is_word in *; lia|].
  intros j Hj. by rewrite Z.lxor_spec, !bits_word.
Qed.

Lemma as_u_word x : is_word (as_u 32 x).
Proof. unfold is_word, as_u. apply Z.mod_pos_bound. lia. Qed.

Lemma rotl_word x n : is_word x -> 0 <= n < 32 -> is_word (RFC.rotl x n).
Proof.
  intros Hx Hn. unfold RFC.rotl. pose proof (as_u_word (Z.shiftl x n)) as Hs.
  apply word_bits.
  - apply Z.lor_nonneg. split; [apply Hs|]. apply Z.shiftr_nonneg. apply Hx.
  - intros j Hj. rewrite Z.lor_spec, (bits_word _ j Hs), Z.shiftr_spec, bits_word by (done || lia). done.
Qed.

(** The two parts of a rotation are disjoint, so that their sum, their union
    and their difference are the same. *)
Lemma rotate_rotl x n : is_word x -> 0 <= n < 32 ->
  Z.lxor (as_u 32 (Z.shiftl x n)) (Z.shiftr x (32 - n)) = RFC.rotl x n.
Proof.
  intros Hx Hn. unfold RFC.rotl. apply Z.lxor_lor. apply Z.bits_inj'. intros j Hj.
  rewrite Z.land_spec, Z.bits_0. destruct (decide (j < n)).
  - unfold as_u. destruct (decide (j < 32)); [|lia].
    rewrite Z.mod_pow2_bits_low, Z.shiftl_spec_low by lia. done.
  - rewrite (Z.shiftr_spec x), (bits_word x (j + (32 - n))) by (done || lia). apply andb_false_r.
Qed.

(** ** The vector rounds are the quarter rounds *)

Definition rot (x n : Z) : Z := Z.lxor (as_u 32 (Z.shiftl x n)) (Z.shiftr x (32 - n)).

Lemma qr_rotl x y z w : is_word x -> is_word y -> is_word z -> is_word w ->
  RFC.qr rot x y z w = RFC.qr RFC.rotl x y z w
  /\ let '(x', y', z', w') := RFC.qr RFC.rotl x y z w in
     is_word x' /\ is_word y' /\ is_word z' /\ is_word w'.
Proof.
  intros Hx Hy Hz Hw. unfold RFC.qr.
  assert (Hr : forall u v n, is_word u -> is_word v -> 0 <= n < 32 ->
    rot (Z.lxor u v) n = RFC.rotl (Z.lxor u v) n)
    by (intros u v n Hu Hv Hn; by apply rotate_rotl; [apply lxor_word|]).
  assert (Hw' : forall u v n, is_word u -> is_word v -> 0 <= n < 32 ->
    is_word (RFC.rotl (Z.lxor u v) n)) by (intros; apply rotl_word; [by apply lxor_word|done]).
  assert (Ha : forall u v, is_word (wrapping_add u v)) by (intros; apply as_u_word).
  rewrite !Hr by (repeat (apply Hw' || apply Ha || assumption || lia)).
  split; [done|]. repeat split; repeat (apply Hw' || apply Ha || assumption || lia).
Qed.

Lemma add_lanes a0 a1 a2 a3 b0 b1 b2 b3 :
  u32x4_add (U32x4 a0 a1 a2 a3) (U32x4 b0 b1 b2 b3)
  = U32x4 (wrapping_add a0 b0) (wrapping_add a1 b1) (wrapping_add a2 b2) (wrapping_add a3 b3).
Proof. reflexivity. Qed.

Lemma rotate_lanes n a0 a1 a2 a3 b0 b1 b2 b3 : 0 <= n < 32 ->
  rotate (U32x4 a0 a1 a2 a3) (U32x4 b0 b1 b2 b3) (U32x4 n n n n)
  = U32x4 (rot (Z.lxor a0 b0) n) (rot (Z.lxor a1 b1) n) (rot (Z.lxor a2 b2) n) (rot (Z.lxor a3 b3) n).
Proof.
  intros Hn. unfold rotate, u32x4_sub, S32, lanes. cbn [w0 w1 w2 w3].
  assert (wrapping_sub 32 n = 32 - n) as -> by (unfold wrapping_sub, as_u; apply Z.mod_small; lia).
  reflexivity.
Qed.

(** [round] applies a quarter round to each lane. *)
Lemma round_lanes a0 a1 a2 a3 b0 b1 b2 b3 c0 c1 c2 c3 d0 d1 d2 d3 :
  round {| a := U32x4 a0 a1 a2 a3; b := U32x4 b0 b1 b2 b3;
           c := U32x4 c0 c1 c2 c3; d := U32x4 d0 d1 d2 d3 |}
  = let '(a0, b0, c0, d0) := RFC.qr rot a0 b0 c0 d0 in
    let '(a1, b1, c1, d1) := RFC.qr rot a1 b1 c1 d1 in
    let '(a2, b2, c2, d2) := RFC.qr rot a2 b2 c2 d2 in
    let '(a3, b3, c3, d3) := RFC.qr rot a3 b3 c3 d3 in
    {| a := U32x4 a0 a1 a2 a3; b := U32x4 b0 b1 b2 b3;
       c := U32x4 c0 c1 c2 c3; d := U32x4 d0 d1 d2 d3 |}.
Proof.
  unfold round, S16, S12, S8, S7, RFC.qr. cbv beta iota zeta delta [a b c d].
  repeat (rewrite add_lanes || rewrite rotate_lanes by lia). reflexivity.
Qed.

Ltac do_qr :=
  match goal with |- context [RFC.qr rot ?x ?y ?z ?w] =>
    let Hq := fresh "Hq" in let Hok := fresh "Hok" in
    destruct (qr_rotl x y z w) as [Hq Hok]; [assumption..|];
    rewrite Hq; clear Hq; destruct (RFC.qr RFC.rotl x y z w) as [[[? ?] ?] ?] eqn:?;
    destruct Hok as (? & ? & ? & ?) end.

Lemma quarterround_eq x y z w s a b c d :
  RFC.qr RFC.rotl (nth x s 0) (nth y s 0) (nth z s 0) (nth w s 0) = (a, b, c, d) ->
  RFC.quarterround x y z w s = <[x := a]> (<[y := b]> (<[z := c]> (<[w := d]> s))).
Proof. unfold RFC.quarterround. by intros ->. Qed.

Ltac do_quarter :=
  match goal with |- context [RFC.quarterround ?x ?y ?z ?w (?h :: ?t)] =>
    erewrite (quarterround_eq x y z w (h :: t)) by (cbn [nth]; eassumption);
    cbn [insert list_insert] end.

Lemma double_round_rfc s : Forall is_word (state_words s) ->
  state_words (double_round s) = RFC.inner_block (state_words s)
  /\ Forall is_word (state_words (double_round s)).
Proof.
  destruct s as [[a0 a1 a2 a3] [b0 b1 b2 b3] [c0 c1 c2 c3] [d0 d1 d2 d3]].
  cbn [state_words a b c d]. rewrite !Forall_cons. intros Hw. destruct_and! Hw.
  unfold double_round. rewrite round_lanes. do 4 do_qr.
  cbn [a b c d swizzle]. rewrite round_lanes. do 4 do_qr. cbn [a b c d swizzle state_words].
  unfold RFC.inner_block. cbv zeta. do 8 do_quarter. split; [reflexivity|].
  repeat (apply Forall_cons_2; [assumption|]). apply Forall_nil_2.
Qed.

Lemma iter_S {A} (f : A -> A) k x : Nat.iter (S k) f x = f (Nat.iter k f x).
Proof. reflexivity. Qed.

Lemma mix_rfc s : Forall is_word (state_words s) ->
  state_words (mix s) = Nat.iter 10 RFC.inner_block (state_words s).
Proof.
  intros Hs. unfold mix. generalize 10%nat as k. intros k.
  enough (H : state_words (Nat.iter k double_round s) = Nat.iter k RFC.inner_block (state_words s)
    /\ Forall is_word (state_words (Nat.iter k double_round s))) by apply H.
  induction k as [|k [IH Hk]]; [by split|]. rewrite !iter_S.
  destruct (double_round_rfc _ Hk) as [He Hw]. split; [|exact Hw]. by rewrite He, IH.
Qed.

(** ** Blocks *)

(** The state [s] with the counter [k]. *)
Definition at_counter (s : ChaChaState) (k : nat) : ChaChaState :=
  {| a := a s; b := b s; c := c s; d := U32x4 (Z.of_nat k) (w1 (d s)) (w2 (d s)) (w3 (d s)) |}.

(** The bytes [update] puts into the buffer. *)
Definition block_of (s : ChaChaState) : bytes :=
  concat (to_le_bytes <$> zip_with wrapping_add (state_words (mix s)) (state_words s)).

Lemma length_to_le_bytes w : length (to_le_bytes w) = 4%nat.
Proof. reflexivity. Qed.

Lemma length_state_words s : length (state_words s) = 16%nat.
Proof. by destruct s as [[] [] [] []]. Qed.

Lemma length_block_of s : length (block_of s) = 64%nat.
Proof.
  unfold block_of. assert (Hl : forall l, length (concat (to_le_bytes <$> l)) = (4 * length l)%nat).
  { induction l as [|w l IH]; [done|]. cbn [fmap list_fmap concat]. rewrite length_app, IH. cbn. lia. }
  rewrite Hl, length_zip_with, !length_state_words. done.
Qed.

Lemma update_at {E} s k out off : (Z.of_nat k + 1 < 2 ^ 32) ->
  Forall is_word (state_words (at_counter s k)) ->
  update (E := E) {| state := at_counter s k; output := out; offset := off |}
  = Ok {| state := at_counter s (S k); output := block_of (at_counter s k); offset := 0 |}.
Proof.
  intros Hk Hw. unfold update. cbn [state].
  assert (Hd : u32x4_add (d (at_counter s k)) (U32x4 1 0 0 0) = d (at_counter s (S k))).
  { destruct s as [[] [] [] []]. cbn [state_words at_counter a b c d w1 w2 w3] in *.
    rewrite !Forall_cons in Hw. destruct_and! Hw. rewrite add_lanes. cbn [at_counter d w1 w2 w3].
    unfold wrapping_add, as_u, is_word in *. rewrite !Z.mod_small by lia. f_equal; lia. }
  rewrite Hd. replace (w0 (d (at_counter s (S k))) =? 0) with false
    by (symmetry; apply Z.eqb_neq; cbn; lia).
  f_equal. f_equal. unfold block_of, state_to_buffer. f_equal. f_equal.
  by destruct (mix (at_counter s k)) as [[] [] [] []], (at_counter s k) as [[] [] [] []].
Qed.

(** ** The stream *)

(** Byte [i] of the key stream. *)
Definition stream (s : ChaChaState) (i : nat) : Z :=
  nth (i mod 64)%nat (block_of (at_counter s (i / 64))) 0.

Lemma stream_in_block s k i : (i < 64)%nat ->
  stream s (64 * k + i) = nth i (block_of (at_counter s k)) 0.
Proof.
  intros Hi. unfold stream. rewrite (Nat.mul_comm 64 k), Nat.div_add_l, Nat.div_small by lia.
  rewrite (Nat.add_comm (k * 64) i), Nat.Div0.mod_add, Nat.mod_small by lia. by rewrite Nat.add_0_r.
Qed.

Lemma stream_chunk s k off n : (off + n <= 64)%nat ->
  stream s <$> seq (64 * k + off) n = take n (drop off (block_of (at_counter s k))).
Proof.
  intros Hn. apply list_eq. intros i. rewrite list_lookup_fmap.
  pose proof (length_block_of (at_counter s k)) as Hl.
  destruct (decide (i < n)%nat) as [Hi|Hi].
  - rewrite lookup_seq_lt by lia. rewrite lookup_take_lt, lookup_drop by lia. cbn [fmap option_fmap option_map].
    rewrite <- Nat.add_assoc, stream_in_block by lia. rewrite nth_lookup.
    destruct (lookup_lt_is_Some_2 (block_of (at_counter s k)) (off + i)) as [x Hx]; [lia|].
    by rewrite Hx.
  - rewrite lookup_seq_ge, lookup_take_ge by lia. done.
Qed.

(** A cipher started at [s] that has used [p] bytes of the stream. *)
Record at_pos s (self : ChaCha20) (p : nat) : Prop := {
  pos_words k : (Z.of_nat k < 2 ^ 32) -> Forall is_word (state_words (at_counter s k));
  pos_buffer : exists k, state self = at_counter s k /\ (offset self <= 64)%nat
    /\ (p + 64 = 64 * k + offset self)%nat /\ length (output self) = 64%nat
    /\ (offset self < 64 -> exists k', k = S k' /\ output self = block_of (at_counter s k'))%nat
}.

#[local] Opaque mix update block_of.

(** [process] takes the next bytes of the stream. *)
Lemma process_loop_at {E} s fuel : forall self p input written, at_pos s self p ->
  (length input <= fuel)%nat -> Z.of_nat (p + length input) <= 64 * (2 ^ 32 - 1) ->
  exists self', process_loop (E := E) fuel self input written
    = Ok (self', written ++ zip_with Z.lxor input (stream s <$> seq p (length input)))
    /\ at_pos s self' (p + length input).
Proof.
  induction fuel as [|fuel IH]; intros self p input written Hp Hf Hlim.
  { destruct input; [|cbn in Hf; lia]. exists self. cbn. by rewrite app_nil_r, Nat.add_0_r. }
  destruct input as [|x input']; [exists self; cbn; by rewrite app_nil_r, Nat.add_0_r|].
  set (input := x :: input') in *. assert (Hpos : (0 < length input)%nat) by (cbn; lia).
  change (process_loop (E := E) (S fuel) self input written) with
    (self ← (if (offset self =? BLOCK_SIZE)%nat then update (E := E) self else Ok self);
     let count := Nat.min (BLOCK_SIZE - offset self) (length input) in
     assert_ (offset self + count <=? length (output self))%nat;;
     process_loop (E := E) fuel
       {| state := state self; output := output self; offset := offset self + count |}
       (drop count input)
       (written ++ zip_with Z.lxor (take count input) (take count (drop (offset self) (output self))))).
  assert (Hready : exists self1 k, (if (offset self =? BLOCK_SIZE)%nat then update (E := E) self else Ok self)
      = Ok self1 /\ state self1 = at_counter s (S k) /\ (offset self1 < 64)%nat
      /\ (p = 64 * k + offset self1)%nat /\ output self1 = block_of (at_counter s k)).
  { destruct Hp as [Hw (k & Hst & Ho & Hpk & Hl & Hb)]. unfold BLOCK_SIZE.
    destruct (Nat.eqb_spec (offset self) 64) as [He|He].
    - destruct self as [st out off]. cbn [state offset output] in *. subst st off.
      rewrite update_at by (try apply Hw; lia). eexists _, k. split; [done|]. cbn. split; [done|].
      split; [lia|]. split; [lia|done].
    - destruct Hb as (k' & -> & Hb); [lia|]. exists self, k'. repeat split; [done|lia|lia|done]. }
  destruct Hready as (self1 & k & Hu & Hst & Ho & Hpk & Hb). rewrite Hu, Ok_bind. unfold BLOCK_SIZE.
  cbv zeta. set (count := Nat.min (64 - offset self1) (length input)).
  assert (Hl : length (output self1) = 64%nat) by (rewrite Hb; apply length_block_of).
  replace (offset self1 + count <=? length (output self1))%nat with true
    by (symmetry; apply Nat.leb_le; rewrite Hl; lia). cbn [assert_]. rewrite Ok_bind.
  destruct (IH {| state := state self1; output := output self1; offset := offset self1 + count |}
    (p + count)%nat (drop count input)
    (written ++ zip_with Z.lxor (take count input) (take count (drop (offset self1) (output self1)))))
    as (self' & Hrun & Hat).
  - split; [apply Hp|]. exists (S k). cbn [state offset output]. repeat split; [done|lia|lia|done|].
    intros _. by exists k.
  - rewrite length_drop. lia.
  - rewrite length_drop. lia.
  - exists self'. rewrite length_drop in *. replace (p + count + (length input - count))%nat
      with (p + length input)%nat in Hat by lia. split; [|done]. rewrite Hrun. f_equal. f_equal.
    rewrite <- app_assoc. f_equal. rewrite Hb, <- stream_chunk, <- Hpk by lia.
    rewrite <- zip_with_app, take_drop, <- fmap_app, <- seq_app
      by (rewrite length_fmap, length_seq, length_take; lia).
    by replace (count + (length input - count))%nat with (length input) by lia.
Qed.

(** ** The initial state *)

Lemma from_le_bytes_bound l : Forall ByteUtils.is_byte l ->
  0 <= from_le_bytes l < 256 ^ Z.of_nat (length l).
Proof.
  induction 1 as [|x l Hx Hl IH]; [done|]. cbn [from_le_bytes foldr length].
  change (foldr _ 0 l) with (from_le_bytes l). unfold ByteUtils.is_byte in Hx.
  rewrite Nat2Z.inj_succ, Z.pow_succ_r by lia. nia.
Qed.

Lemma word_at_word l i : Forall ByteUtils.is_byte l -> is_word (word_at l i).
Proof.
  intros Hl. unfold word_at, is_word.
  pose proof (from_le_bytes_bound (take 4 (drop (4 * i) l)) ltac:(by apply Forall_take, Forall_drop)) as Hb.
  split; [lia|]. apply Z.lt_le_trans with (1 := proj2 Hb).
  change (2 ^ 32) with (256 ^ 4). apply Z.pow_le_mono_r; [lia|]. rewrite length_take. lia.
Qed.

Lemma word_at_take l i n : (4 * i + 4 <= n)%nat -> word_at (take n l) i = word_at l i.
Proof.
  intros Hi. unfold word_at. rewrite skipn_firstn_comm, firstn_firstn. f_equal. f_equal. lia.
Qed.

Lemma word_at_drop l i k : word_at (drop (4 * k) l) i = word_at l (k + i).
Proof. unfold word_at. rewrite drop_drop. do 3 f_equal. lia. Qed.

(** A nonce of 64 bits is the end of one of 96 bits. *)
Definition pad (nonce : bytes) : bytes := replicate (12 - length nonce) 0 ++ nonce.

Lemma from_bytes_16 {E} l : length l = 16%nat ->
  from_bytes (E := E) l = Ok (U32x4 (word_at l 0) (word_at l 1) (word_at l 2) (word_at l 3)).
Proof. unfold from_bytes. by intros ->. Qed.

Lemma new_initial {E} key nonce : length key = 32%nat ->
  length nonce = 8%nat \/ length nonce = 12%nat -> Forall ByteUtils.is_byte (key ++ nonce) ->
  exists s self, new (E := E) key nonce = Ok self /\ at_pos s self 0
    /\ forall k, state_words (at_counter s k) = RFC.initial key (pad nonce) (Z.of_nat k).
Proof.
  intros Hk Hn [Hbk Hbn]%Forall_app. unfold new, expand. rewrite Hk.
  assert (Hd : exists d, (if (length nonce =? 16)%nat then from_bytes (E := E) (take 16 nonce)
     else if (length nonce =? 12)%nat then from_bytes (replicate 4 0 ++ nonce)
     else from_bytes (replicate 8 0 ++ nonce)) = Ok d
     /\ d = U32x4 0 (word_at (pad nonce) 0) (word_at (pad nonce) 1) (word_at (pad nonce) 2)).
  { unfold from_bytes. rewrite !length_app, !length_replicate.
    destruct Hn as [Hn|Hn]; rewrite Hn; cbn [Nat.eqb Nat.add assert_]; rewrite Ok_bind;
      (eexists; split; [reflexivity|]); unfold pad; rewrite Hn; reflexivity. }
  destruct Hd as (d & Hd & Hdw). replace ((length nonce =? 8) || (length nonce =? 12))%nat with true
    by (by destruct Hn as [-> | ->]).
  cbn [Nat.eqb orb assert_]. rewrite !Ok_bind, Hd.
  rewrite !from_bytes_16 by (rewrite ?length_take, ?length_drop, ?Hk; reflexivity). rewrite !Ok_bind.
  match goal with |- context [{| state := ?st; output := _; offset := _ |}] => set (s := st) end.
  exists s, {| state := s; output := replicate 64 0; offset := 64 |}.
  assert (Hs : forall k, state_words (at_counter s k) = RFC.initial key (pad nonce) (Z.of_nat k)).
  { intros k. subst d. unfold s. cbn [at_counter state_words a b c d w1 w2 w3].
    rewrite !word_at_take by lia. rewrite !(word_at_drop key _ 4). reflexivity. }
  split; [done|]. split; [|done]. split.
  - intros k Hkk. rewrite Hs. unfold RFC.initial, RFC.words.
    assert (Hp : Forall ByteUtils.is_byte (pad nonce)).
    { apply Forall_app. split; [|done]. apply Forall_replicate. by compute. }
    rewrite !Forall_app. repeat split; try (apply Forall_fmap, Forall_forall; intros i _; cbn;
      by apply word_at_word); [|constructor; [unfold is_word; lia|constructor]].
    by repeat constructor.
  - exists 0%nat. cbn [state offset output]. repeat split; try lia.
    unfold s. subst d. reflexivity.
Qed.

(** ** The cipher is RFC 8439 *)

Lemma block_rfc s key nonce k : Forall is_word (state_words s) ->
  state_words s = RFC.initial key nonce k -> block_of s = RFC.block key nonce k.
Proof. intros Hw He. unfold RFC.block. by rewrite <- He, <- mix_rfc. Qed.

Lemma key_stream_stream s key nonce n :
  (forall k, Z.of_nat k < 2 ^ 32 -> block_of (at_counter s k) = RFC.block key nonce (Z.of_nat k)) ->
  Z.of_nat n <= 64 * (2 ^ 32 - 1) -> RFC.key_stream key nonce n = stream s <$> seq 0 n.
Proof.
  intros Hb Hn. unfold RFC.key_stream.
  assert (Hdiv : (64 * (n / 64) <= n)%nat /\ (n < 64 * (n / 64 + 1))%nat).
  { pose proof (Nat.div_mod_eq n 64). pose proof (Nat.mod_upper_bound n 64). lia. }
  assert (Hm : forall m, Z.of_nat m <= 2 ^ 32 ->
    concat ((fun i => RFC.block key nonce (Z.of_nat i)) <$> seq 0 m) = stream s <$> seq 0 (64 * m)).
  { induction m as [|m IH]; intros Hm; [done|]. rewrite seq_S, fmap_app, concat_app, IH by lia.
    replace (64 * S m)%nat with (64 * m + 64)%nat by lia. rewrite seq_app, fmap_app. f_equal.
    cbn [fmap list_fmap concat Nat.add]. rewrite app_nil_r, <- Hb by lia.
    rewrite <- (Nat.add_0_r (64 * m)), stream_chunk, drop_0 by lia.
    by rewrite take_ge by (rewrite length_block_of; lia). }
  rewrite Hm by lia. rewrite <- fmap_take. f_equal.
  apply list_eq. intros i. destruct (decide (i < n)%nat).
  - rewrite lookup_take_lt, !lookup_seq_lt by lia. done.
  - rewrite lookup_take_ge, lookup_seq_ge by lia. done.
Qed.

Lemma lxor_twice (l k : list Z) : length l = length k ->
  zip_with Z.lxor (zip_with Z.lxor l k) k = l.
Proof.
  revert k. induction l as [|x l IH]; intros [|y k] Hl; try done. cbn. injection Hl as Hl.
  rewrite IH by done. by rewrite Z.lxor_assoc, Z.lxor_nilpotent, Z.lxor_0_r.
Qed.

(** The cipher against the RFC. *)
Lemma process_rfc {E} key nonce msg (Hkey : length key = 32%nat)
  (Hnonce : length nonce = 8%nat \/ length nonce = 12%nat)
  (Hbytes : Forall ByteUtils.is_byte (key ++ nonce))
  (Hlen : Z.of_nat (length msg) <= 64 * (2 ^ 32 - 1)) :
  let enc := zip_with Z.lxor msg (RFC.key_stream key (pad nonce) (length msg)) in
  exists self, new (E := E) key nonce = Ok self
    /\ (exists self', process_in_place (E := E) self msg = Ok (self', enc))
    /\ (exists self', process_in_place (E := E) self enc = Ok (self', msg))
    /\ (forall m1 m2, msg = m1 ++ m2 -> exists self1 self2 e1 e2,
          process_in_place (E := E) self m1 = Ok (self1, e1)
          /\ process_in_place (E := E) self1 m2 = Ok (self2, e2) /\ e1 ++ e2 = enc).
Proof.
  destruct (new_initial (E := E) key nonce Hkey Hnonce Hbytes) as (s & self & Hnew & Hpos & Hs).
  intros enc. exists self. split; [done|].
  assert (Henc : enc = zip_with Z.lxor msg (stream s <$> seq 0 (length msg))).
  { unfold enc. rewrite (key_stream_stream s); [done| |done]. intros k Hk.
    apply block_rfc; [by apply Hpos|apply Hs]. }
  assert (Hle : length enc = length msg)
    by (rewrite Henc, length_zip_with, length_fmap, length_seq; lia).
  split; [|split].
  - destruct (process_loop_at (E := E) s (length msg) self 0 msg [] Hpos) as (self' & Hr & _); [lia..|].
    exists self'. rewrite Henc. exact Hr.
  - destruct (process_loop_at (E := E) s (length enc) self 0 enc [] Hpos) as (self' & Hr & _); [lia..|].
    exists self'. unfold process_in_place. rewrite Hr. cbn [app]. do 2 f_equal. rewrite Hle, Henc.
    apply lxor_twice. by rewrite length_fmap, length_seq.
  - intros m1 m2 Hm. assert (Hl : length msg = (length m1 + length m2)%nat)
      by (rewrite Hm; apply length_app).
    destruct (process_loop_at (E := E) s (length m1) self 0 m1 [] Hpos) as (self1 & Hr1 & Hp1); [lia..|].
    destruct (process_loop_at (E := E) s (length m2) self1 (length m1) m2 [] Hp1) as (self2 & Hr2 & _);
      [lia..|].
    eexists self1, self2, _, _. split; [exact Hr1|]. split; [exact Hr2|].
    rewrite Henc, Hm, length_app, seq_app, fmap_app, zip_with_app; [done|].
    by rewrite length_fmap, length_seq.
Qed.
(** C32: the vectorised cipher computes ChaCha20 of RFC 8439: with a key of 32
    bytes and a nonce of 8 or 12, and for every message up to the last block
    before the counter is exhausted, [process_in_place] succeeds and adds the
    key stream of the RFC from block 0 to the message.  Processing the result
    with a fresh cipher gives the message back, and a message may be processed
    in pieces. *)
Theorem chacha_is_rfc8439 {E} key nonce msg (Hkey : length key = 32%nat)
  (Hnonce : length nonce = 8%nat \/ length nonce = 12%nat)
  (Hbytes : Forall ByteUtils.is_byte (key ++ nonce))
  (Hlen : Z.of_nat (length msg) <= 64 * (2 ^ 32 - 1)) :
  let enc := zip_with Z.lxor msg (RFC.key_stream key (pad nonce) (length msg)) in
  exists self, new (E := E) key nonce = Ok self
    /\ (exists self', process_in_place (E := E) self msg = Ok (self', enc))
    /\ (exists self', process_in_place (E := E) self enc = Ok (self', msg))
    /\ (forall m1 m2, msg = m1 ++ m2 -> exists self1 self2 e1 e2,
          process_in_place (E := E) self m1 = Ok (self1, e1)
          /\ process_in_place (E := E) self1 m2 = Ok (self2, e2) /\ e1 ++ e2 = enc).
Proof. by apply process_rfc. Qed.
End ChaCha.

(** ** Witness *)

(** The first bytes of a test vector of the source (key 0, nonce 0). *)
Lemma chacha_is_rfc8439_witness : exists self self',
  ChaCha.new (E := unit) (replicate 32 0) (replicate 8 0) = Ok self
  /\ ChaCha.process_in_place (E := unit) self (replicate 8 0)
     = Ok (self', [0x76; 0xb8; 0xe0; 0xad; 0xa0; 0xf1; 0x3d; 0x90]).
Proof.
  destruct (ChaCha.chacha_is_rfc8439 (E := unit) (replicate 32 0) (replicate 8 0) (replicate 8 0))
    as (self & Hnew & (self' & Hp) & _); [done|by left|by repeat constructor|cbn; lia|].
  exists self, self'. split; [exact Hnew|].
  assert (He : zip_with Z.lxor (replicate 8 0)
    (ChaCha.RFC.key_stream (replicate 32 0) (ChaCha.pad (replicate 8 0)) (length (replicate 8 0)))
    = [0x76; 0xb8; 0xe0; 0xad; 0xa0; 0xf1; 0x3d; 0x90]) by (vm_compute; reflexivity).
  rewrite He in Hp. exact Hp.
Defined.
