(* ===== verification/Setup.v ===== *)
(** * Channel parameters (the negotiated setup of vls-core/src/channel.rs) *)

From S2P Require Import Prelude Extern.

(** [ChannelId] is a byte vector. *)
Notation ChannelId := (list Z).

Inductive CommitmentType := Legacy | StaticRemoteKey | Anchors | AnchorsZeroFeeHtlc.

#[global] Instance CommitmentType_eq_dec : EqDecision CommitmentType.
Proof. solve_decision. Defined.

Record ChannelSetup := {
  is_outbound : bool;
  channel_value_sat : Z;
  push_value_msat : Z;
  funding_outpoint : OutPoint;
  holder_selected_contest_delay : Z;
  holder_shutdown_script : option Script;
  counterparty_points : ChannelPublicKeys;
  counterparty_selected_contest_delay : Z;
  counterparty_shutdown_script : option Script;
  commitment_type : CommitmentType
}.

#[global] Instance ChannelSetup_eq_dec : EqDecision ChannelSetup.
Proof. solve_decision. Defined.

Definition is_static_remotekey (self : ChannelSetup) : bool :=
  bool_decide (commitment_type self <> Legacy).

Definition is_anchors (self : ChannelSetup) : bool :=
  bool_decide (commitment_type self = Anchors)
  || bool_decide (commitment_type self = AnchorsZeroFeeHtlc).

Definition is_zero_fee_htlc (self : ChannelSetup) : bool :=
  bool_decide (commitment_type self = AnchorsZeroFeeHtlc).
