(* ===== verification/Tx.v ===== *)
(** * Commitment contents (vls-core/src/tx/tx.rs) and transaction helpers
      (vls-core/src/util/transaction_utils.rs)

    [CommitmentInfo2] is the normalized content of a commitment transaction:
    who gets what, and the HTLCs in both directions. *)

From stdpp Require Import sorting.
From S2P Require Import Prelude Order Extern.

(** ** HTLCs *)

Record HTLCInfo2 := {
  value_sat : Z;
  payment_hash : PaymentHash;
  cltv_expiry : Z
}.

#[global] Instance HTLCInfo2_eq_dec : EqDecision HTLCInfo2.
Proof. solve_decision. Defined.

#[global] Instance HTLCInfo2_Ord : Ord HTLCInfo2 := fun self other =>
  then_with (then_with (cmp (value_sat self) (value_sat other))
                       (cmp (payment_hash self) (payment_hash other)))
            (cmp (cltv_expiry self) (cltv_expiry other)).

(** The trait [PreimageMap]. *)
Notation PreimageMap := (PaymentHash -> bool).

(** ** [CommitmentInfo2] *)

Record CommitmentInfo2 := {
  is_counterparty_broadcaster : bool;
  to_countersigner_pubkey : PublicKey;
  to_countersigner_value_sat : Z;
  revocation_pubkey : PublicKey;
  to_broadcaster_delayed_pubkey : PublicKey;
  to_broadcaster_value_sat : Z;
  to_self_delay : Z;
  offered_htlcs : list HTLCInfo2;
  received_htlcs : list HTLCInfo2;
  feerate_per_kw : Z
}.

#[global] Instance CommitmentInfo2_eq_dec : EqDecision CommitmentInfo2.
Proof. solve_decision. Defined.

Definition CommitmentInfo2_new (is_counterparty_broadcaster : bool)
  (to_countersigner_pubkey : PublicKey) (to_countersigner_value_sat : Z)
  (revocation_pubkey to_broadcaster_delayed_pubkey : PublicKey)
  (to_broadcaster_value_sat to_self_delay : Z)
  (offered_htlcs received_htlcs : list HTLCInfo2) (feerate_per_kw : Z) : CommitmentInfo2 := {|
    is_counterparty_broadcaster := is_counterparty_broadcaster;
    to_countersigner_pubkey := to_countersigner_pubkey;
    to_countersigner_value_sat := to_countersigner_value_sat;
    revocation_pubkey := revocation_pubkey;
    to_broadcaster_delayed_pubkey := to_broadcaster_delayed_pubkey;
    to_broadcaster_value_sat := to_broadcaster_value_sat;
    to_self_delay := to_self_delay;
    offered_htlcs := sort offered_htlcs;
    received_htlcs := sort received_htlcs;
    feerate_per_kw := feerate_per_kw
  |}.

Definition htlcs_is_empty (self : CommitmentInfo2) : bool :=
  match offered_htlcs self, received_htlcs self with [], [] => true | _, _ => false end.

Definition delta_offered_htlcs (self new : CommitmentInfo2)
  : AddedItemsIter HTLCInfo2 * AddedItemsIter HTLCInfo2 :=
  ({| from := offered_htlcs self; to := offered_htlcs new |},
   {| from := offered_htlcs new; to := offered_htlcs self |}).

Definition delta_received_htlcs (self new : CommitmentInfo2)
  : AddedItemsIter HTLCInfo2 * AddedItemsIter HTLCInfo2 :=
  ({| from := received_htlcs self; to := received_htlcs new |},
   {| from := received_htlcs new; to := received_htlcs self |}).

(** Value to the holder and to the counterparty, without the HTLCs. *)
Definition value_to_parties (self : CommitmentInfo2) : Z * Z :=
  if is_counterparty_broadcaster self
  then (to_countersigner_value_sat self, to_broadcaster_value_sat self)
  else (to_broadcaster_value_sat self, to_countersigner_value_sat self).

(** The HTLCs offered and received by the holder. *)
Definition holder_htlcs (self : CommitmentInfo2) : list HTLCInfo2 * list HTLCInfo2 :=
  if is_counterparty_broadcaster self
  then (received_htlcs self, offered_htlcs self)
  else (offered_htlcs self, received_htlcs self).

Section ops.
Context `{Prof : Profile} {E : Type}.

Definition total_value (self : CommitmentInfo2) : outcome E Z :=
  a ← add64 (to_broadcaster_value_sat self) (to_countersigner_value_sat self);
  offered ← sum64 (map value_sat (offered_htlcs self));
  b ← add64 a offered;
  received ← sum64 (map value_sat (received_htlcs self));
  add64 b received.

Definition claimable_balance (self : CommitmentInfo2) (has_preimage : PreimageMap)
  (is_outbound : bool) (channel_value : Z) : outcome E Z :=
  let balance := (value_to_parties self).1 in
  balance ←
    (if is_outbound then
       total ← total_value self;
       fee ← unwrap (checked_sub64 channel_value total);
       unwrap (checked_add64 balance fee)
     else Ok balance);
  let '(offered, received) := holder_htlcs self in
  balance ← foldM (fun balance o =>
      if negb (has_preimage (payment_hash o))
      then unwrap (checked_add64 balance (value_sat o)) else Ok balance) balance offered;
  foldM (fun balance r =>
      if has_preimage (payment_hash r)
      then unwrap (checked_add64 balance (value_sat r)) else Ok balance) balance received.

(** Received and offered totals, and their counts as [u32]. *)
Definition htlc_balance (self : CommitmentInfo2) : outcome E (Z * Z * Z * Z) :=
  let '(offered, received) := holder_htlcs self in
  sum_offered ← foldM (fun s o => unwrap (checked_add64 s (value_sat o))) 0 offered;
  sum_received ← foldM (fun s r => unwrap (checked_add64 s (value_sat r))) 0 received;
  Ok (sum_received, sum_offered,
      as_u 32 (Z.of_nat (length received)), as_u 32 (Z.of_nat (length offered))).
End ops.

(** ** Transaction helpers (util/transaction_utils.rs) *)

Definition MAX_VALUE_MSAT : Z := 2100000000000000000.
Definition MIN_DUST_LIMIT_SATOSHIS : Z := 330.
Definition MIN_CHAN_DUST_LIMIT_SATOSHIS : Z := 354.

(** The weights are [usize] and far from its bound; the number of HTLCs is the
    length of a vector. *)
Definition expected_commitment_tx_weight (opt_anchors : bool) (num_untrimmed_htlc : nat) : Z :=
  let base_weight := if opt_anchors then 1124 else 724 in
  base_weight + Z.of_nat num_untrimmed_htlc * 172.

Definition EXPECTED_MUTUAL_CLOSE_WITNESS_WEIGHT : Z :=
  2 + 1 + 4 + 72 + 72 + 1 + 1 + 33 + 1 + 33 + 1 + 1.

Definition mutual_close_tx_weight `{Lib} (unsigned_tx : Transaction) : Z :=
  tx_weight unsigned_tx + EXPECTED_MUTUAL_CLOSE_WITNESS_WEIGHT.

Definition estimate_feerate_per_kw `{Profile} {E} (total_fee weight : Z) : outcome E Z :=
  a ← mul64 total_fee 1000;
  b ← add64 a 999;
  if weight =? 0 then Panic else Ok (as_u 32 (b / weight)).

(** The loop of [maybe_add_change_output] that adds up the outputs. *)
Definition add_outputs `{Profile} (input_value : Z) (outs : list TxOut) : outcome unit Z :=
  foldM (fun output_value out =>
    output_value ← add64 output_value (out_value out);
    if input_value <=? output_value then Err tt else Ok output_value) 0 outs.

(** Divisions of [i64] truncate toward zero.  The [i64] arithmetic stays in
    range: the input value is bounded and weights and feerates are small. *)
Definition maybe_add_change_output `{Lib, Profile} (tx : Transaction)
  (input_value witness_max_weight feerate_sat_per_1000_weight : Z)
  (change_destination_script : Script) : outcome unit Transaction :=
  if MAX_VALUE_MSAT / 1000 <? input_value then Err tt else
  output_value ← add_outputs input_value (output tx);
  let dust := dust_value change_destination_script in
  let change_output := {| out_value := 0; script_pubkey := change_destination_script |} in
  let change_len := txout_encoded_len change_output in
  let n := Z.of_nat (length (output tx)) in
  let weight_with_change :=
    tx_weight tx + 2 + witness_max_weight + change_len * 4
    + (varint_len (n + 1) - varint_len n) * 4 in
  let change_value := (input_value - output_value)
    - Z.quot (weight_with_change * feerate_sat_per_1000_weight) 1000 in
  if dust <=? change_value then
    Ok {| version := version tx; lock_time := lock_time tx; input := input tx;
          output := output tx ++ [{| out_value := change_value;
                                     script_pubkey := change_destination_script |}] |}
  else if (input_value - output_value)
          - Z.quot ((tx_weight tx + 2 + witness_max_weight) * feerate_sat_per_1000_weight) 1000
          <? 0 then Err tt
  else Ok tx.

(** [EcdsaSighashType::All as u8]. *)
Definition SIGHASH_ALL : Z := 0x01.

(** The witness of the funding input: both signatures in the order of the keys. *)
Definition add_holder_sig `{Lib} {E} (tx : Transaction) (holder_sig counterparty_sig : Signature)
  (holder_funding_key counterparty_funding_key : PublicKey) : outcome E Transaction :=
  let funding_redeemscript :=
    make_funding_redeemscript holder_funding_key counterparty_funding_key in
  let ser_holder_sig := serialize_der holder_sig ++ [SIGHASH_ALL] in
  let ser_cp_sig := serialize_der counterparty_sig ++ [SIGHASH_ALL] in
  let holder_sig_first := lt_ holder_funding_key counterparty_funding_key in
  match input tx with
  | [] => Panic
  | inp :: inps =>
      let sigs := if holder_sig_first then [ser_holder_sig; ser_cp_sig]
                  else [ser_cp_sig; ser_holder_sig] in
      let inp := {| previous_output := previous_output inp; script_sig := script_sig inp;
                    sequence := sequence inp;
                    witness := witness inp ++ [[]] ++ sigs ++ [funding_redeemscript] |} in
      Ok {| version := version tx; lock_time := lock_time tx; input := inp :: inps;
            output := output tx |}
  end.

(** A map of the input transactions by their txid; a later one replaces an
    earlier one with the same txid. *)
Definition index_by_txid `{Lib} (txs : list Transaction) : gmap Txid Transaction :=
  foldl (fun m tx => <[txid tx := tx]> m) ∅ txs.

Definition is_tx_non_malleable `{Lib} (tx : Transaction) (input_txs : list Transaction) : bool :=
  let in_tx_map := index_by_txid input_txs in
  forallb (fun inp =>
    match in_tx_map !! op_txid (previous_output inp) with
    | None => false
    | Some in_tx =>
        match output in_tx !! Z.to_nat (vout (previous_output inp)) with
        | None => false
        | Some txout => is_witness_program (script_pubkey txout)
        end
    end) (input tx).

(** ** Lemmas *)

#[global] Instance HTLCInfo2_OrdLaws : OrdLaws HTLCInfo2.
Proof.
  assert (Hinj : forall a b, (value_sat a, payment_hash a, cltv_expiry a)
    = (value_sat b, payment_hash b, cltv_expiry b) -> a = b) by (intros [] []; cbn; naive_solver).
  exact (inj_OrdLaws _ Hinj).
Qed.

(** The plain sum of the values of HTLCs. *)
Definition htlc_sum (l : list HTLCInfo2) : Z := sum_list_Z (map value_sat l).

(** Every amount of a commitment is a [u64]. *)
Definition amounts_nonneg (self : CommitmentInfo2) : Prop :=
  0 <= to_broadcaster_value_sat self /\ 0 <= to_countersigner_value_sat self
  /\ Forall (fun h => 0 <= value_sat h) (offered_htlcs self)
  /\ Forall (fun h => 0 <= value_sat h) (received_htlcs self).

Definition total (self : CommitmentInfo2) : Z :=
  to_broadcaster_value_sat self + to_countersigner_value_sat self
  + htlc_sum (offered_htlcs self) + htlc_sum (received_htlcs self).

Lemma htlc_sum_nonneg l : Forall (fun h => 0 <= value_sat h) l -> 0 <= htlc_sum l.
Proof. intros H. apply sum_list_Z_nonneg. by apply Forall_map. Qed.

#[export] Hint Resolve htlc_sum_nonneg : vls.

Section lemmas.
Context `{Prof : Profile} {E : Type}.

Lemma total_value_exact info : amounts_nonneg info -> total info < 2 ^ 64 ->
  total_value (E := E) info = Ok (total info).
Proof.
  intros (Hb & Hc & Ho & Hr) Ht. unfold total in *.
  pose proof (htlc_sum_nonneg _ Ho). pose proof (htlc_sum_nonneg _ Hr).
  unfold total_value, htlc_sum in *.
  rewrite !sum64_in by (lia || by apply Forall_map). arith64. done.
Qed.

(** Adding up the HTLCs that satisfy [f], with checked additions. *)
Lemma foldM_checked (f : HTLCInfo2 -> bool) l acc :
  0 <= acc -> Forall (fun h => 0 <= value_sat h) l -> acc + htlc_sum l < 2 ^ 64 ->
  foldM (E := E) (fun b h => if f h then unwrap (checked_add64 b (value_sat h)) else Ok b) acc l
  = Ok (acc + htlc_sum (base.filter f l)).
Proof.
  intros Hacc Hl. revert acc Hacc. induction Hl as [|h l Hh Hl IH]; intros acc Hacc Hb.
  { cbn. by rewrite Z.add_0_r. }
  cbn [foldM]. unfold htlc_sum in Hb. cbn in Hb. fold (sum_list_Z (map value_sat l)) in Hb.
  fold (htlc_sum l) in Hb. pose proof (htlc_sum_nonneg _ Hl).
  rewrite filter_cons. destruct (f h) eqn:Hf.
  - rewrite decide_True by done. unfold checked_add64.
    rewrite (proj2 (Z.ltb_lt _ _)) by lia. cbn [unwrap mbind outcome_bind].
    rewrite IH by lia. f_equal. unfold htlc_sum. cbn. unfold sum_list_Z. lia.
  - rewrite decide_False by (by intros []). cbn [mbind outcome_bind]. by apply IH; lia.
Qed.

Lemma htlc_sum_filter_le (f : HTLCInfo2 -> bool) l :
  Forall (fun h => 0 <= value_sat h) l -> 0 <= htlc_sum (base.filter f l) <= htlc_sum l.
Proof.
  induction 1 as [|h l Hh Hl IH]; [done|]. rewrite filter_cons.
  case_decide; unfold htlc_sum, sum_list_Z in *; cbn in *; lia.
Qed.

(** The specification of [claimable_balance]. *)
Definition claimable_spec (self : CommitmentInfo2) (has_preimage : PreimageMap)
  (is_outbound : bool) (channel_value : Z) : Z :=
  (value_to_parties self).1 + (if is_outbound then channel_value - total self else 0)
  + htlc_sum (base.filter (fun h => negb (has_preimage (payment_hash h))) (holder_htlcs self).1)
  + htlc_sum (base.filter (fun h => has_preimage (payment_hash h) : Prop) (holder_htlcs self).2).

Lemma claimable_exact info pm outbound cv :
  amounts_nonneg info -> total info <= cv < 2 ^ 64 ->
  claimable_balance (E := E) info pm outbound cv = Ok (claimable_spec info pm outbound cv)
  /\ 0 <= claimable_spec info pm outbound cv <= cv.
Proof.
  intros Ha Ht. pose proof Ha as (Hb & Hc & Ho & Hr).
  unfold claimable_balance, claimable_spec.
  assert (Hfee : (if outbound
      then total0 ← total_value info; fee ← unwrap (checked_sub64 cv total0);
           unwrap (checked_add64 (value_to_parties info).1 fee)
      else Ok (value_to_parties info).1)
    = Ok (E := E) ((value_to_parties info).1 + if outbound then cv - total info else 0)).
  { pose proof (htlc_sum_nonneg _ Ho). pose proof (htlc_sum_nonneg _ Hr).
    destruct outbound; [|by rewrite Z.add_0_r].
    rewrite total_value_exact by (done || lia). cbn. unfold checked_sub64.
    rewrite (proj2 (Z.leb_le _ _)) by lia. cbn. unfold checked_add64.
    rewrite (proj2 (Z.ltb_lt _ _)); [done|].
    unfold value_to_parties, total in *. destruct (is_counterparty_broadcaster info); cbn; lia. }
  rewrite Hfee. cbn [mbind outcome_bind]. clear Hfee.
  unfold holder_htlcs, value_to_parties, total in *.
  pose proof (htlc_sum_nonneg _ Ho). pose proof (htlc_sum_nonneg _ Hr).
  destruct (is_counterparty_broadcaster info); cbn [fst snd];
    match goal with
    | |- context [foldM _ _ ?l ≫= fun b => foldM _ b ?l'] =>
        pose proof (htlc_sum_filter_le (fun h => negb (pm (payment_hash h))) l ltac:(done));
        pose proof (htlc_sum_filter_le (fun h => pm (payment_hash h)) l' ltac:(done))
    end;
    (rewrite (foldM_checked (fun h => negb (pm (payment_hash h))))
       by (done || (destruct outbound; lia)); cbn [mbind outcome_bind];
     rewrite (foldM_checked (fun h => pm (payment_hash h)))
       by (done || (destruct outbound; lia));
     split; [done|destruct outbound; lia]).
Qed.
End lemmas.

(** ** Properties *)

(** Normalization.  Building a [CommitmentInfo2] from the same HTLCs in any
    order gives the same value, whose HTLCs are the given ones in increasing
    order; so the comparison that decides whether a commitment is a retry of
    the previous one does not depend on the order of the request. *)
Theorem CommitmentInfo2_new_normalizes (cpb : bool) (k1 k2 k3 : PublicKey)
  (v1 v2 delay feerate : Z) (o o' r r' : list HTLCInfo2) (Ho : o ≡ₚ o') (Hr : r ≡ₚ r') :
  let info := CommitmentInfo2_new cpb k1 v1 k2 k3 v2 delay o r feerate in
  info = CommitmentInfo2_new cpb k1 v1 k2 k3 v2 delay o' r' feerate
  /\ StronglySorted le_ (offered_htlcs info) /\ offered_htlcs info ≡ₚ o
  /\ StronglySorted le_ (received_htlcs info) /\ received_htlcs info ≡ₚ r.
Proof.
  unfold CommitmentInfo2_new; cbn. rewrite (sort_ext o o'), (sort_ext r r') by done.
  repeat split; try apply sort_sorted; by rewrite sort_perm.
Qed.

Lemma CommitmentInfo2_new_normalizes_witness :
  let a := {| value_sat := 5; payment_hash := [1]; cltv_expiry := 9 |} in
  let b := {| value_sat := 4; payment_hash := [2]; cltv_expiry := 9 |} in
  CommitmentInfo2_new true [] 1 [] [] 2 6 [a; b] [b; a] 253
  = CommitmentInfo2_new true [] 1 [] [] 2 6 [b; a] [a; b] 253.
Proof.
  intros a b.
  apply (CommitmentInfo2_new_normalizes true [] [] [] 1 2 6 253 [a; b] [b; a] [b; a] [a; b]);
    constructor.
Defined.

Section claims.
Context `{Prof : Profile} {E : Type}.

(** The feerate before it is narrowed to 32 bits. *)
Lemma feerate_exact fee weight : 0 <= fee -> fee * 1000 + 999 < 2 ^ 64 -> 0 < weight ->
  estimate_feerate_per_kw (E := E) fee weight = Ok (as_u 32 ((fee * 1000 + 999) / weight)).
Proof.
  intros H1 H2 H3. unfold estimate_feerate_per_kw. arith64.
  by rewrite (proj2 (Z.eqb_neq weight 0)) by lia.
Qed.

Lemma feerate_highest fee weight r : 0 <= fee -> 0 < weight -> 0 <= r ->
  r * weight / 1000 <= fee <-> r <= (fee * 1000 + 999) / weight.
Proof.
  intros Hf Hw Hr. split; intros H.
  - apply Z.div_le_lower_bound; [done|].
    pose proof (Z.div_mod (r * weight) 1000 ltac:(lia)).
    pose proof (Z.mod_pos_bound (r * weight) 1000 ltac:(lia)). lia.
  - assert (r * weight <= fee * 1000 + 999).
    { etransitivity; [apply Z.mul_le_mono_nonneg_r; [lia|exact H]|].
      rewrite Z.mul_comm. apply Z.mul_div_le. lia. }
    assert (r * weight / 1000 < fee + 1) by (apply Z.div_lt_upper_bound; lia). lia.
Qed.

(** The estimated feerate of a fee within range is the highest feerate that
    gives at most this fee, and recomputing the fee of a transaction built
    at feerate [f] from the estimate gives the fee it was built with. *)
Theorem estimate_feerate_inverse (fee weight f : Z)
  (Hfee : 0 <= fee) (Hw : 0 < weight) (Hmul : fee * 1000 + 999 < 2 ^ 64)
  (Hrate : (fee * 1000 + 999) / weight < 2 ^ 32) :
  exists r, estimate_feerate_per_kw (E := E) fee weight = Ok r
    /\ (forall r', 0 <= r' -> r' * weight / 1000 <= fee <-> r' <= r)
    /\ (0 <= f -> f * weight / 1000 = fee -> r * weight / 1000 = fee).
Proof.
  exists ((fee * 1000 + 999) / weight). rewrite feerate_exact by done.
  assert (0 <= (fee * 1000 + 999) / weight) by (apply Z.div_pos; lia).
  unfold as_u. rewrite Z.mod_small by lia. split; [done|]. split.
  - intros r' Hr'. by apply feerate_highest.
  - intros Hf Heq. apply Z.le_antisymm; [by apply feerate_highest|].
    rewrite <- Heq at 1. apply Z.div_le_mono; [lia|].
    apply Z.mul_le_mono_nonneg_r; [lia|]. apply feerate_highest; lia.
Qed.

(** The estimate is narrowed to 32 bits without a check.  Adding
    [2^32 * weight / 1000] satoshi to the fee of a transaction whose weight
    is a multiple of 1000 does not change its estimated feerate, so the
    upper feerate bound does not bound the fee. *)
Theorem estimate_feerate_truncates (fee k : Z) (Hk : 0 < k) (Hfee : 0 <= fee)
  (Hmul : (fee + 2 ^ 32 * k) * 1000 + 999 < 2 ^ 64) :
  estimate_feerate_per_kw (E := E) (fee + 2 ^ 32 * k) (1000 * k)
  = estimate_feerate_per_kw (E := E) fee (1000 * k).
Proof.
  rewrite !feerate_exact by lia. f_equal. unfold as_u.
  replace ((fee + 2 ^ 32 * k) * 1000 + 999) with (fee * 1000 + 999 + 2 ^ 32 * (1000 * k)) by lia.
  rewrite Z.div_add by lia. rewrite <- (Z.mul_1_l (2 ^ 32)) at 1. by rewrite Z.mod_add by lia.
Qed.

(** On a commitment whose outputs fit in the channel value, computing the
    claimable balance succeeds; it is the holder's output, plus the fee when
    the holder funded the channel, plus the offered HTLCs whose preimage is
    unknown and the received HTLCs whose preimage is known, and it is at
    most the channel value. *)
Theorem claimable_balance_spec (info : CommitmentInfo2) (pm : PreimageMap)
  (outbound : bool) (cv : Z) (Ha : amounts_nonneg info) (Ht : total info <= cv < 2 ^ 64) :
  claimable_balance (E := E) info pm outbound cv = Ok (claimable_spec info pm outbound cv)
  /\ 0 <= claimable_spec info pm outbound cv <= cv.
Proof. by apply claimable_exact. Qed.

(** The outputs add up without reaching the input value. *)
Lemma add_outputs_bound iv outs acc s :
  iv <= 2 ^ 63 -> 0 <= acc < 2 ^ 63 -> Forall (fun o => 0 <= out_value o < 2 ^ 63) outs ->
  foldM (fun output_value out =>
    output_value ← add64 output_value (out_value out);
    if iv <=? output_value then Err tt else Ok output_value) acc outs = Ok s ->
  s = acc + sum_list_Z (map out_value outs) /\ (outs = [] \/ s < iv).
Proof.
  intros Hiv Hacc Houts. revert acc Hacc.
  induction Houts as [|o outs Ho Houts IH]; intros acc Hacc H.
  { injection H as <-. cbn. split; [lia|by left]. }
  cbn [foldM] in H. rewrite add64_in in H by lia. cbn [mbind outcome_bind] in H.
  destruct (iv <=? acc + out_value o) eqn:Hle; [done|]. b2p.
  apply IH in H as [-> Hlt]; [|lia]. split; [cbn; unfold sum_list_Z; lia|].
  right. destruct Hlt as [->|Hlt]; [cbn; lia|done].
Qed.

(** The weight of a transaction with one more output to [script]: its bytes,
    and those by which the count of the outputs grows, weigh four each. *)
Definition weight_with_output `{L : Lib} (tx : Transaction) (script : Script) : Z :=
  let n := Z.of_nat (length (output tx)) in
  tx_weight tx + 4 * txout_encoded_len {| out_value := 0; script_pubkey := script |}
  + 4 * (varint_len (n + 1) - varint_len n).

(** The outputs [outs] that complete an unsigned transaction [tx] of inputs
    worth [iv], whose witnesses will weigh [witness]: either one more output to
    [script], of at least the dust limit, so that the fee is exactly that of
    the weight with this output; or none, when it would be dust, and then the
    fee covers the weight of [tx]. *)
Inductive change_made `{L : Lib} (tx : Transaction) (iv witness feerate : Z) (script : Script)
  (outs : list TxOut) : Prop :=
| change_added v (Hdust : dust_value script <= v)
    (Houts : outs = output tx ++ [{| out_value := v; script_pubkey := script |}])
    (Hfee : iv - sum_list_Z (map out_value outs)
            = (weight_with_output tx script + 2 + witness) * feerate / 1000)
| change_dropped (Houts : outs = output tx)
    (Hfee : (tx_weight tx + 2 + witness) * feerate / 1000 <= iv - sum_list_Z (map out_value outs)
            < (weight_with_output tx script + 2 + witness) * feerate / 1000 + dust_value script).

(** Adding a change output creates no value and pays the requested feerate. *)
Lemma maybe_add_change_output_pays `{L : Lib} (tx tx' : Transaction)
  (iv wmax feerate : Z) (script : Script)
  (Hiv : 0 <= iv) (Hw : 0 <= tx_weight tx + 2 + wmax) (Hfr : 0 <= feerate)
  (Hlen : 0 <= txout_encoded_len {| out_value := 0; script_pubkey := script |})
  (Hvar : varint_len (Z.of_nat (length (output tx)))
          <= varint_len (Z.of_nat (length (output tx)) + 1))
  (Houts : Forall (fun o => 0 <= out_value o < 2 ^ 63) (output tx))
  (H : maybe_add_change_output tx iv wmax feerate script = Ok tx') :
  change_made tx iv wmax feerate script (output tx') /\ input tx' = input tx.
Proof.
  unfold maybe_add_change_output, MAX_VALUE_MSAT in H.
  destruct (_ <? iv) eqn:Hmax; [done|]. b2p. inv_ok H.
  assert (iv <= 2 ^ 63) by (change (2100000000000000000 / 1000) with 2100000000000000 in *; lia).
  apply (add_outputs_bound iv (output tx) 0) in Hx as [-> Hlt]; [|done..].
  set (sum := sum_list_Z (map out_value (output tx))) in *.
  match type of H with context [Z.quot (?w * feerate) 1000] =>
    replace w with (weight_with_output tx script + 2 + wmax) in H
      by (unfold weight_with_output; lia) end.
  assert (0 <= weight_with_output tx script + 2 + wmax) by (unfold weight_with_output; lia).
  rewrite !Z.quot_div_nonneg in H by nia.
  destruct (_ <=? _) eqn:Hc; [|destruct (_ <? 0) eqn:Hneg; [done|]]; injection H as <-; b2p.
  - split; [|done]. apply (change_added _ _ _ _ _ _ _ Hc eq_refl).
    cbn [output]. rewrite map_app, sum_list_Z_app. cbn [map out_value sum_list_Z foldr]. fold sum. lia.
  - split; [|done]. apply change_dropped; [done|]. fold sum. lia.
Qed.
End claims.

(** ** Witnesses *)

Definition example_htlc (v : Z) (h : bytes) : HTLCInfo2 :=
  {| value_sat := v; payment_hash := h; cltv_expiry := 500 |}.

(** A holder commitment of a channel of a million satoshi, with one HTLC in
    each direction and a fee of 1000 satoshi. *)
Definition example_info : CommitmentInfo2 :=
  CommitmentInfo2_new false [2; 103] 399000 [2; 50] [2; 51] 500000 144
    [example_htlc 40000 [7]] [example_htlc 60000 [8]] 1000.

Lemma estimate_feerate_inverse_witness :
  exists r, @estimate_feerate_per_kw true unit 663 663 = Ok r
    /\ (forall r', 0 <= r' -> r' * 663 / 1000 <= 663 <-> r' <= r).
Proof.
  destruct (@estimate_feerate_inverse true unit 663 663 1000) as (r & Hr & Hh & _);
    [by vm_compute..|]. by exists r.
Defined.

Lemma estimate_feerate_truncates_witness :
  @estimate_feerate_per_kw true unit (253 + 2 ^ 32 * 1) (1000 * 1)
  = @estimate_feerate_per_kw true unit 253 (1000 * 1).
Proof. by apply (@estimate_feerate_truncates true unit 253 1). Defined.

Lemma claimable_balance_spec_witness :
  @claimable_balance true unit example_info (fun h => bool_decide (h = [8])) true 1000000
  = Ok 601000.
Proof.
  destruct (@claimable_balance_spec true unit example_info
    (fun h => bool_decide (h = [8])) true 1000000) as [H _].
  - split; [done|]. split; [done|]. split; repeat constructor; done.
  - by vm_compute.
  - rewrite H. by vm_compute.
Defined.

