(* ===== verification/Keys.v ===== *)
(** * Keys of a node (vls-core/src/signer/derive.rs, signer/my_keys_manager.rs)

    The derivation styles, the keys manager with its counters, and the
    transaction that spends the outputs of closed channels.  BIP-32 and the
    in-memory channel signer are the bitcoin and lightning crates, parameters
    of the class [KeyLib].  A hash engine is the bytes it was given. *)

From S2P Require Import Prelude Velocity Policy Extern Crypto Setup Tx.

(** ** The crates *)

Inductive ChildNumber := Normal (index : Z) | Hardened (index : Z).

(** [lightning::chain::keysinterface::SpendableOutputDescriptor]. *)
Record ChannelOutput := {
  do_outpoint : OutPoint;
  do_output : TxOut;
  do_channel_keys_id : bytes;
  do_channel_value_satoshis : Z
}.

Inductive SpendableOutputDescriptor :=
| StaticPaymentOutput (d : ChannelOutput)
| DelayedPaymentOutput (d : ChannelOutput) (to_self_delay : Z)
| StaticOutput (outpoint : OutPoint) (out : TxOut).

Class KeyLib `{Lib} := {
  (** bitcoin::util::bip32 *)
  ExtendedPrivKey : Type;
  from_normal_idx : Z -> option ChildNumber;
  from_hardened_idx : Z -> option ChildNumber;
  new_master : Network -> bytes -> option ExtendedPrivKey;
  ckd_priv : ExtendedPrivKey -> ChildNumber -> option ExtendedPrivKey;
  private_key : ExtendedPrivKey -> SecretKey;
  (** scripts *)
  hash160 : bytes -> bytes;
  push_slice : bytes -> Script;
  p2pkh_script : PublicKey -> Script;
  (** secp256k1 *)
  shared_secret : PublicKey -> SecretKey -> bytes;
  scalar_from_be_bytes : bytes -> option bytes;
  add_tweak : SecretKey -> bytes -> option SecretKey;
  mul_tweak : SecretKey -> bytes -> option SecretKey;
  sign_schnorr_no_aux_rand : bytes -> SecretKey -> Signature;
  sign_ecdsa_recoverable : bytes -> SecretKey -> Signature;
  (** lightning::chain::keysinterface::InMemorySigner: funding, revocation,
      payment, delayed payment and HTLC keys, commitment seed, channel value,
      keys id and entropy *)
  InMemorySigner_new : SecretKey -> SecretKey -> SecretKey -> SecretKey -> SecretKey ->
    bytes -> Z -> bytes -> bytes -> InMemorySigner;
  commitment_seed : InMemorySigner -> bytes;
  channel_keys_id : InMemorySigner -> bytes;
  signer_random_bytes : InMemorySigner -> bytes;
  provide_channel_parameters : InMemorySigner -> ChannelTransactionParameters -> InMemorySigner;
  sign_counterparty_payment_input : InMemorySigner -> Transaction -> nat -> ChannelOutput ->
    option (list bytes);
  sign_dynamic_p2wsh_input : InMemorySigner -> Transaction -> nat -> ChannelOutput -> Z ->
    option (list bytes);
  STATIC_MAX_WITNESS_LENGTH : Z;
  DELAYED_MAX_WITNESS_LENGTH : Z;
  (** lightning::util::invoice::construct_invoice_preimage *)
  construct_invoice_preimage : bytes -> list Z -> bytes
}.

(** ** derive.rs *)

(** [&buf[from..to]]. *)
Definition slice {E} (buf : bytes) (from to : nat) : outcome E bytes :=
  if (to <=? length buf)%nat then Ok (take (to - from) (drop from buf)) else Panic.

(** [a[i] = x] on an array. *)
Definition array_set {E} (a : bytes) (i : nat) (x : Z) : outcome E bytes :=
  if (i <? length a)%nat then Ok (<[i := x]> a) else Panic.

Inductive KeyDerivationStyle := Native | Ldk | Lnd.

Definition KeyDerivationStyle_as_u8 (s : KeyDerivationStyle) : Z :=
  match s with Native => 1 | Ldk => 2 | Lnd => 3 end.

Definition KeyDerivationStyle_try_from (v : Z) : outcome unit KeyDerivationStyle :=
  if v =? 1 then Ok Native else if v =? 2 then Ok Ldk else if v =? 3 then Ok Lnd else Err tt.

Definition KeyDerivationStyle_to_string (s : KeyDerivationStyle) : string :=
  match s with Native => "native" | Ldk => "ldk" | Lnd => "lnd" end.

Definition KeyDerivationStyle_from_str (s : string) : outcome unit KeyDerivationStyle :=
  if String.eqb s "native" then Ok Native
  else if String.eqb s "ldk" then Ok Ldk
  else if String.eqb s "lnd" then Ok Lnd
  else Err tt.

Definition get_key_path_len (s : KeyDerivationStyle) : nat :=
  match s with Native => 1 | Ldk => 1 | Lnd => 2 end.

(** Funding, revocation, HTLC, payment and delayed payment keys, and the
    commitment seed. *)
Notation ChannelKeys := (SecretKey * SecretKey * SecretKey * SecretKey * SecretKey * bytes)%type.

Section derive.
Context `{L : Lib, CrL : CryptoLib, !KeyLib} {E : Type}.

(** [key.ckd_priv(ChildNumber::from_..._idx(i).unwrap()).unwrap()] *)
Definition ckd (n : option ChildNumber) (k : ExtendedPrivKey) : outcome E ExtendedPrivKey :=
  n ← unwrap n; unwrap (ckd_priv k n).

Definition hardened (i : Z) (k : ExtendedPrivKey) : outcome E ExtendedPrivKey :=
  ckd (from_hardened_idx i) k.
Definition normal (i : Z) (k : ExtendedPrivKey) : outcome E ExtendedPrivKey :=
  ckd (from_normal_idx i) k.

(** The trait: the methods every style has. *)
Record KeyDerive := {
  master_key : bytes -> outcome E ExtendedPrivKey;
  node_keys : bytes -> outcome E (PublicKey * SecretKey);
  keys_id : ChannelId -> bytes -> outcome E bytes;
  channel_keys : bytes -> bytes -> Z -> ExtendedPrivKey -> outcome E ChannelKeys
}.

(** Default methods. *)
Definition default_keys_id (channel_id : ChannelId) (channel_seed_base : bytes)
  : outcome E bytes :=
  hkdf_sha256 channel_seed_base (as_bytes "per-peer seed") channel_id.

Definition channels_seed (seed : bytes) : outcome E bytes :=
  hkdf_sha256 seed (as_bytes "peer seed") [].

(** *** Native: compatible with CLN *)

Definition native_master_key (network : Network) (seed : bytes) : outcome E ExtendedPrivKey :=
  master_seed ← hkdf_sha256 seed (as_bytes "bip32 seed") [];
  unwrap (new_master network master_seed).

Definition native_node_keys (seed : bytes) : outcome E (PublicKey * SecretKey) :=
  node_private_bytes ← hkdf_sha256 seed (as_bytes "nodeid") [];
  node_secret_key ← unwrap (secretkey_from_slice node_private_bytes);
  Ok (pubkey_from_secret_key node_secret_key, node_secret_key).

Definition key_at (keys_buf : bytes) (ndx : nat) : outcome E SecretKey :=
  b ← slice keys_buf ndx (ndx + 32); unwrap (secretkey_from_slice b).

Definition native_channel_keys (_seed keys_id : bytes) (_basepoint_index : Z)
  (_master_key : ExtendedPrivKey) : outcome E ChannelKeys :=
  keys_buf ← hkdf_sha256_keys keys_id (as_bytes "c-lightning") [];
  funding_key ← key_at keys_buf 0;
  revocation_base_key ← key_at keys_buf 32;
  htlc_base_key ← key_at keys_buf 64;
  payment_key ← key_at keys_buf 96;
  delayed_payment_base_key ← key_at keys_buf 128;
  commitment_seed ← slice keys_buf 160 192;
  Ok (funding_key, revocation_base_key, htlc_base_key, payment_key, delayed_payment_base_key,
      commitment_seed).

Definition NativeKeyDerive (network : Network) : KeyDerive := {|
  master_key := native_master_key network;
  node_keys := native_node_keys;
  keys_id := default_keys_id;
  channel_keys := native_channel_keys |}.

(** *** LDK *)

Definition ldk_master_key (network : Network) (seed : bytes) : outcome E ExtendedPrivKey :=
  unwrap (new_master network seed).

Definition ldk_node_keys (network : Network) (seed : bytes) : outcome E (PublicKey * SecretKey) :=
  master ← ldk_master_key network seed;
  k ← hardened 0 master;
  Ok (pubkey_from_secret_key (private_key k), private_key k).

(** The macro [key_step!]. *)
Definition key_step (channel_seed : bytes) (info : string) (prev_key : bytes)
  : outcome E SecretKey :=
  unwrap (secretkey_from_slice (sha256 (channel_seed ++ prev_key ++ as_bytes info))).

Definition ldk_channel_keys (seed keys_id : bytes) (_basepoint_index : Z)
  (master_key : ExtendedPrivKey) : outcome E ChannelKeys :=
  first8 ← slice keys_id 0 8;
  chan_id ← ByteUtils.slice_to_be64 first8;
  assert_ (chan_id <=? U32_MAX);;
  channel_master_key ← hardened 3 master_key;
  child_privkey ← hardened (as_u 32 chan_id) channel_master_key;
  let channel_seed := sha256 (keys_id ++ seed ++ private_key child_privkey) in
  let commitment_seed := sha256 (channel_seed ++ as_bytes "commitment seed") in
  funding_key ← key_step channel_seed "funding key" commitment_seed;
  revocation_base_key ← key_step channel_seed "revocation base key" funding_key;
  payment_key ← key_step channel_seed "payment key" revocation_base_key;
  delayed_payment_base_key ← key_step channel_seed "delayed payment base key" payment_key;
  htlc_base_key ← key_step channel_seed "HTLC base key" delayed_payment_base_key;
  Ok (funding_key, revocation_base_key, htlc_base_key, payment_key, delayed_payment_base_key,
      commitment_seed).

Definition ldk_keys_id (channel_id : ChannelId) (channel_seed_base : bytes) : outcome E bytes :=
  res ← hkdf_sha256 channel_seed_base (as_bytes "per-peer seed") channel_id;
  res ← array_set res 0 0;
  res ← array_set res 1 0;
  res ← array_set res 2 0;
  res ← array_set res 3 0;
  b4 ← unwrap (res !! 4%nat);
  array_set res 4 (Z.land b4 0x7f).

Definition LdkKeyDerive (network : Network) : KeyDerive := {|
  master_key := ldk_master_key network;
  node_keys := ldk_node_keys network;
  keys_id := ldk_keys_id;
  channel_keys := ldk_channel_keys |}.

(** *** LND *)

Definition derive_key_lnd (network : Network) (master : ExtendedPrivKey) (key_family index : Z)
  : outcome E (PublicKey * SecretKey) :=
  let coin_type := match network with Bitcoin => 0 | _ => 1 end in
  k ← hardened 1017 master;
  k ← hardened coin_type k;
  k ← hardened key_family k;
  k ← normal 0 k;
  k ← normal index k;
  Ok (pubkey_from_secret_key (private_key k), private_key k).

Definition lnd_node_keys (network : Network) (seed : bytes) : outcome E (PublicKey * SecretKey) :=
  master ← ldk_master_key network seed;
  derive_key_lnd network master 6 0.

Definition lnd_channel_keys (network : Network) (_seed keys_id : bytes) (basepoint_index : Z)
  (master_key : ExtendedPrivKey) : outcome E ChannelKeys :=
  keys_buf ← hkdf_sha256_keys keys_id (as_bytes "c-lightning") [];
  commitment_seed ← slice keys_buf 160 192;
  '(_, funding_key) ← derive_key_lnd network master_key 0 basepoint_index;
  '(_, revocation_base_key) ← derive_key_lnd network master_key 1 basepoint_index;
  '(_, htlc_base_key) ← derive_key_lnd network master_key 2 basepoint_index;
  '(_, payment_key) ← derive_key_lnd network master_key 3 basepoint_index;
  '(_, delayed_payment_base_key) ← derive_key_lnd network master_key 4 basepoint_index;
  Ok (funding_key, revocation_base_key, htlc_base_key, payment_key, delayed_payment_base_key,
      commitment_seed).

Definition LndKeyDerive (network : Network) : KeyDerive := {|
  master_key := ldk_master_key network;
  node_keys := lnd_node_keys network;
  keys_id := default_keys_id;
  channel_keys := lnd_channel_keys network |}.

Definition key_derive (style : KeyDerivationStyle) (network : Network) : KeyDerive :=
  match style with
  | Native => NativeKeyDerive network
  | Ldk => LdkKeyDerive network
  | Lnd => LndKeyDerive network
  end.

(** *** The account key of the layer-1 wallet *)

Definition get_account_extended_key_native (network : Network) (node_seed : bytes)
  : outcome E ExtendedPrivKey :=
  bip32_seed ← hkdf_sha256 node_seed (as_bytes "bip32 seed") [];
  master ← unwrap (new_master network bip32_seed);
  k ← normal 0 master;
  normal 0 k.

Definition get_account_extended_key_lnd (network : Network) (node_seed : bytes)
  : outcome E ExtendedPrivKey :=
  master ← unwrap (new_master network node_seed);
  k ← hardened 84 master;
  k ← hardened 0 k;
  hardened 0 k.

Definition style_account_extended_key (style : KeyDerivationStyle) (network : Network)
  (seed : bytes) : outcome E ExtendedPrivKey :=
  match style with
  | Native => get_account_extended_key_native network seed
  | Ldk => get_account_extended_key_native network seed
  | Lnd => get_account_extended_key_lnd network seed
  end.
End derive.
#[global] Arguments KeyDerive {_ _} E.

(** ** The keys manager (my_keys_manager.rs) *)

Module Keys.

Record MyKeysManager `{KeyLib} := {
  seed : bytes;
  key_derivation_style : KeyDerivationStyle;
  km_network : Network;
  km_master_key : ExtendedPrivKey;
  node_secret : SecretKey;
  bolt12_secret : SecretKey;
  persistence_secret : SecretKey;
  inbound_payment_key : bytes;
  channel_seed_base : bytes;
  account_extended_key : ExtendedPrivKey;
  destination_script : Script;
  ldk_shutdown_pubkey : PublicKey;
  channel_master_key : ExtendedPrivKey;
  channel_id_master_key : ExtendedPrivKey;
  channel_id_child_index : Z;
  rand_bytes_master_key : ExtendedPrivKey;
  rand_bytes_child_index : Z;
  rand_bytes_unique_start : bytes;
  lnd_basepoint_index : Z;
  unique_start : bytes
}.
Arguments MyKeysManager {_ _}.

Section manager.
Context `{L : Lib, CrL : CryptoLib, !KeyLib, Prof : Profile} {E : Type}.
Implicit Types self : MyKeysManager.

Definition set_counters self (channel_ix rand_ix lnd_ix : Z) : MyKeysManager := {|
  seed := seed self; key_derivation_style := key_derivation_style self;
  km_network := km_network self; km_master_key := km_master_key self;
  node_secret := node_secret self; bolt12_secret := bolt12_secret self;
  persistence_secret := persistence_secret self; inbound_payment_key := inbound_payment_key self;
  channel_seed_base := channel_seed_base self; account_extended_key := account_extended_key self;
  destination_script := destination_script self; ldk_shutdown_pubkey := ldk_shutdown_pubkey self;
  channel_master_key := channel_master_key self;
  channel_id_master_key := channel_id_master_key self;
  channel_id_child_index := channel_ix;
  rand_bytes_master_key := rand_bytes_master_key self;
  rand_bytes_child_index := rand_ix;
  rand_bytes_unique_start := rand_bytes_unique_start self;
  lnd_basepoint_index := lnd_ix;
  unique_start := unique_start self |}.

(** [EntropySource::get_secure_random_bytes]. *)
Definition get_secure_random_bytes self : outcome E (MyKeysManager * bytes) :=
  let child_ix := rand_bytes_child_index self in
  let self := set_counters self (channel_id_child_index self) (as_u 64 (child_ix + 1))
                (lnd_basepoint_index self) in
  child_privkey ← hardened (as_u 32 child_ix) (rand_bytes_master_key self);
  Ok (self, sha256 (rand_bytes_unique_start self ++ private_key child_privkey
                    ++ as_bytes "Unique Secure Random Bytes Salt")).

(** The pair is the starting time, in seconds and nanoseconds. *)
Definition new (style : KeyDerivationStyle) (the_seed : bytes) (network : Network)
  (starting_time : Z * Z) : outcome E MyKeysManager :=
  let kd := key_derive style network in
  master ← master_key kd the_seed;
  '(_, secret) ← node_keys kd the_seed;
  channel_master ← hardened 3 master;
  channel_id_master ← hardened 5 master;
  let start := ByteUtils.be64_to_array starting_time.1
               ++ ByteUtils.be32_to_array starting_time.2 ++ the_seed in
  base ← channels_seed the_seed;
  account ← style_account_extended_key style network the_seed;
  shutdown_key ← normal 2 account;
  destination_key ← normal 1 account;
  let destination :=
    0x00 :: push_slice (hash160 (pubkey_from_secret_key (private_key destination_key))) in
  rand_bytes_master ← hardened 4 master;
  inbound_payment ← hardened 5 master;
  bolt12 ← hardened 9735 master;
  persistence ← hardened 9736 master;
  '(res, _) ← get_secure_random_bytes {|
    seed := the_seed; key_derivation_style := style; km_network := network;
    km_master_key := master; node_secret := secret; bolt12_secret := private_key bolt12;
    persistence_secret := private_key persistence;
    inbound_payment_key := private_key inbound_payment; channel_seed_base := base;
    account_extended_key := account; destination_script := destination;
    ldk_shutdown_pubkey := pubkey_from_secret_key (private_key shutdown_key);
    channel_master_key := channel_master; channel_id_master_key := channel_id_master;
    channel_id_child_index := 0; rand_bytes_master_key := rand_bytes_master;
    rand_bytes_child_index := 0; rand_bytes_unique_start := start;
    lnd_basepoint_index := 0; unique_start := start |};
  Ok res.

Definition get_node_id self : PublicKey := pubkey_from_secret_key (node_secret self).

Definition get_onion_reply_secret self : outcome E bytes :=
  hkdf_sha256 (seed self) (as_bytes "onion reply secret") [].

Definition get_bolt12_pubkey self : PublicKey := pubkey_from_secret_key (bolt12_secret self).

Definition get_persistence_pubkey self : PublicKey :=
  pubkey_from_secret_key (persistence_secret self).

Definition get_persistence_shared_secret self (server_pubkey : PublicKey) : bytes :=
  shared_secret server_pubkey (persistence_secret self).

Definition get_persistence_auth_token self (server_pubkey : PublicKey) : bytes :=
  sha256 (get_persistence_shared_secret self server_pubkey).

Definition sign_bolt12 self (messagename fieldname merkleroot : bytes)
  (publictweak_opt : option bytes) : outcome unit Signature :=
  let tag_hash := sha256 (as_bytes "lightning" ++ messagename ++ fieldname) in
  let sig_hash := sha256 (tag_hash ++ tag_hash ++ merkleroot) in
  kp ← match publictweak_opt with
       | Some publictweak =>
           tweak ← unwrap (scalar_from_be_bytes
                     (sha256 (pubkey_from_secret_key (bolt12_secret self) ++ publictweak)));
           ok_or (add_tweak (bolt12_secret self) tweak) tt
       | None => Ok (node_secret self)
       end;
  msg ← unwrap (message_from_slice sig_hash);
  Ok (sign_schnorr_no_aux_rand msg kp).

Definition derive_secret self (info : bytes) : outcome E SecretKey :=
  derived_secrets_base ← hkdf_sha256 (seed self) (as_bytes "derived secrets") [];
  derived_secret ← hkdf_sha256 derived_secrets_base info [];
  unwrap (secretkey_from_slice derived_secret).

Definition get_channel_keys_with_keys_id self (the_keys_id : bytes) (channel_value_sat : Z)
  : outcome E (MyKeysManager * InMemorySigner) :=
  let kd := key_derive (key_derivation_style self) (km_network self) in
  let basepoint_index := lnd_basepoint_index self in
  let self := set_counters self (channel_id_child_index self) (rand_bytes_child_index self)
                (as_u 32 (basepoint_index + 1)) in
  '(funding_key, revocation_base_key, htlc_base_key, payment_key, delayed_payment_base_key,
    cseed) ← channel_keys kd (seed self) the_keys_id basepoint_index (km_master_key self);
  '(self, rand) ← get_secure_random_bytes self;
  Ok (self, InMemorySigner_new funding_key revocation_base_key payment_key
              delayed_payment_base_key htlc_base_key cseed channel_value_sat the_keys_id rand).

Definition get_channel_keys_with_id self (channel_id : ChannelId) (channel_value_sat : Z)
  : outcome E (MyKeysManager * InMemorySigner) :=
  let kd := key_derive (key_derivation_style self) (km_network self) in
  the_keys_id ← keys_id kd channel_id (channel_seed_base self);
  get_channel_keys_with_keys_id self the_keys_id channel_value_sat.

Definition increment_channel_id_child_index self : MyKeysManager * Z :=
  let ix := channel_id_child_index self in
  (set_counters self (as_u 64 (ix + 1)) (rand_bytes_child_index self) (lnd_basepoint_index self),
   ix).

Definition get_channel_id self : outcome E (MyKeysManager * ChannelId) :=
  let '(self, child_ix) := increment_channel_id_child_index self in
  child_privkey ← hardened (as_u 32 child_ix) (channel_id_master_key self);
  Ok (self, sha256 (unique_start self ++ private_key child_privkey)).

(** *** Spending the outputs of closed channels *)

Definition descriptor_outpoint (d : SpendableOutputDescriptor) : OutPoint :=
  match d with
  | StaticPaymentOutput d => do_outpoint d
  | DelayedPaymentOutput d _ => do_outpoint d
  | StaticOutput o _ => o
  end.

Definition descriptor_value (d : SpendableOutputDescriptor) : Z :=
  match d with
  | StaticPaymentOutput d => out_value (do_output d)
  | DelayedPaymentOutput d _ => out_value (do_output d)
  | StaticOutput _ out => out_value out
  end.

Definition descriptor_sequence (d : SpendableOutputDescriptor) : Z :=
  match d with DelayedPaymentOutput _ delay => delay | _ => 0 end.

Definition descriptor_weight (d : SpendableOutputDescriptor) : Z :=
  match d with
  | StaticPaymentOutput _ => STATIC_MAX_WITNESS_LENGTH
  | DelayedPaymentOutput _ _ => DELAYED_MAX_WITNESS_LENGTH
  | StaticOutput _ _ => 1 + 73 + 34
  end.

Definition unsigned_input (d : SpendableOutputDescriptor) : TxIn := {|
  previous_output := descriptor_outpoint d; script_sig := [];
  sequence := descriptor_sequence d; witness := [] |}.

(** The first loop: inputs, their value and weight, and the outpoints seen. *)
Definition gather_step (acc : list TxIn * Z * Z * gset OutPoint) (d : SpendableOutputDescriptor)
  : outcome unit (list TxIn * Z * Z * gset OutPoint) :=
  let '(input, input_value, witness_weight, output_set) := acc in
  let input := input ++ [unsigned_input d] in
  let witness_weight := witness_weight + descriptor_weight d in
  input_value ← add64 input_value (descriptor_value d);
  whenb (bool_decide (descriptor_outpoint d ∈ output_set)) (Err tt);;
  whenb (MAX_VALUE_MSAT / 1000 <? input_value) (Err tt);;
  Ok (input, input_value, witness_weight, {[descriptor_outpoint d]} ∪ output_set).

Definition set_witness (tx : Transaction) (i : nat) (w : list bytes) : outcome unit Transaction :=
  inp ← unwrap (input tx !! i);
  Ok {| version := version tx; lock_time := lock_time tx;
        input := <[i := {| previous_output := previous_output inp; script_sig := script_sig inp;
                           sequence := sequence inp; witness := w |}]> (input tx);
        output := output tx |}.

(** The keys of a descriptor, from the cache when they are the last ones used. *)
Definition cached_keys self (cache : option (InMemorySigner * bytes)) (d : ChannelOutput)
  : outcome unit (MyKeysManager * (InMemorySigner * bytes)) :=
  match cache with
  | Some (ks, id) =>
      if bool_decide (id = do_channel_keys_id d) then Ok (self, (ks, id))
      else
        '(self, ks) ← unwrap_ok (get_channel_keys_with_keys_id self (do_channel_keys_id d)
                                   (do_channel_value_satoshis d));
        Ok (self, (ks, do_channel_keys_id d))
  | None =>
      '(self, ks) ← unwrap_ok (get_channel_keys_with_keys_id self (do_channel_keys_id d)
                                 (do_channel_value_satoshis d));
      Ok (self, (ks, do_channel_keys_id d))
  end.

(** The witness of an output to the destination or the shutdown script. *)
Definition sign_static_output self (tx : Transaction) (input_idx : nat) (out : TxOut)
  : outcome unit (list bytes) :=
  let derivation_idx := if bool_decide (script_pubkey out = destination_script self) then 1 else 2 in
  account ← style_account_extended_key (key_derivation_style self) (km_network self) (seed self);
  secret_key ← normal derivation_idx account;
  let pubkey := pubkey_from_secret_key (private_key secret_key) in
  whenb (derivation_idx =? 2) (assert_ (bool_decide (pubkey = ldk_shutdown_pubkey self)));;
  sighash ← unwrap (segwit_signature_hash tx input_idx (p2pkh_script pubkey) (out_value out) All);
  msg ← unwrap (message_from_slice sighash);
  let sig := sign_ecdsa msg (private_key secret_key) in
  Ok [serialize_der sig ++ [sighash_byte All]; pubkey].

(** One turn of the second loop, which signs the inputs. *)
Definition sign_step (acc : MyKeysManager * option (InMemorySigner * bytes) * Transaction * nat)
  (d : SpendableOutputDescriptor)
  : outcome unit (MyKeysManager * option (InMemorySigner * bytes) * Transaction * nat) :=
  let '(self, cache, tx, input_idx) := acc in
  '(self, cache, w) ←
    match d with
    | StaticPaymentOutput d =>
        '(self, (ks, id)) ← cached_keys self cache d;
        w ← unwrap (sign_counterparty_payment_input ks tx input_idx d);
        Ok (self, Some (ks, id), w)
    | DelayedPaymentOutput d delay =>
        '(self, (ks, id)) ← cached_keys self cache d;
        w ← unwrap (sign_dynamic_p2wsh_input ks tx input_idx d delay);
        Ok (self, Some (ks, id), w)
    | StaticOutput _ out =>
        w ← sign_static_output self tx input_idx out;
        Ok (self, cache, w)
    end;
  tx ← set_witness tx input_idx w;
  Ok (self, cache, tx, S input_idx).

Definition spend_spendable_outputs self (descriptors : list SpendableOutputDescriptor)
  (outputs : list TxOut) (change_destination_script : Script)
  (feerate_sat_per_1000_weight : Z) : outcome unit (MyKeysManager * Transaction) :=
  '(inputs, input_value, witness_weight, _) ← foldM gather_step ([], 0, 0, ∅) descriptors;
  spend_tx ← maybe_add_change_output
    {| version := 2; lock_time := 0; input := inputs; output := outputs |}
    input_value witness_weight feerate_sat_per_1000_weight change_destination_script;
  '(self, _, spend_tx, _) ← foldM sign_step (self, None, spend_tx, 0%nat) descriptors;
  Ok (self, spend_tx).

(** *** Signing with the node's keys *)

Definition sign_heartbeat self (ser_heartbeat : bytes) : outcome E Signature :=
  msg ← sighash_from_heartbeat ser_heartbeat;
  Ok (sign_schnorr_no_aux_rand msg (private_key (account_extended_key self))).

Definition get_shutdown_pubkey_hash self : bytes := hash160 (ldk_shutdown_pubkey self).

(** [recipient] is [Node] or [PhantomNode]. *)
Inductive Recipient := RecipientNode | RecipientPhantomNode.

Definition km_get_node_id self (r : Recipient) : outcome unit PublicKey :=
  match r with
  | RecipientNode => Ok (get_node_id self)
  | RecipientPhantomNode => Err tt
  end.

Definition km_sign_gossip_message self (encoded : bytes) : outcome unit Signature :=
  encmsg ← ok_or (message_from_slice (sha256d encoded)) tt;
  Ok (sign_ecdsa encmsg (node_secret self)).

Definition km_ecdh self (r : Recipient) (other_key : PublicKey) (tweak : option bytes)
  : outcome unit bytes :=
  match r with
  | RecipientPhantomNode => Err tt
  | RecipientNode =>
      secret ← match tweak with
               | Some t => ok_or (mul_tweak (node_secret self) t) tt
               | None => Ok (node_secret self)
               end;
      Ok (shared_secret other_key secret)
  end.

Definition km_sign_invoice self (hrp_bytes : bytes) (invoice_data : list Z) (r : Recipient)
  : outcome unit Signature :=
  match r with
  | RecipientPhantomNode => Err tt
  | RecipientNode =>
      msg ← unwrap (message_from_slice (sha256 (construct_invoice_preimage hrp_bytes invoice_data)));
      Ok (sign_ecdsa_recoverable msg (node_secret self))
  end.
(** ** Derivation always succeeds

    What is assumed of the crates: a hash has 32 bytes, indices below [2^31]
    are child numbers, and derivations do not hit the few invalid keys. *)

Class KeyLaws : Prop := {
  law_hmac k m : length (hmac_sha256 k m) = 32%nat /\ Forall ByteUtils.is_byte (hmac_sha256 k m);
  law_idx i : 0 <= i < 2 ^ 31 -> is_Some (from_normal_idx i) /\ is_Some (from_hardened_idx i);
  law_master n b : is_Some (new_master n b);
  law_ckd k n : is_Some (ckd_priv k n);
  law_sha_key m : m <> [] -> is_Some (secretkey_from_slice (sha256 m));
  law_hmac_key k m : is_Some (secretkey_from_slice (hmac_sha256 k m))
}.

Section total.
Context `{!KeyLaws}.

Lemma hardened_total i k : 0 <= i < 2 ^ 31 -> exists k', hardened (E := E) i k = Ok k'.
Proof.
  intros Hi. unfold hardened, ckd. destruct (law_idx i Hi) as [_ [n ->]]. step.
  destruct (law_ckd k n) as [k' ->]. eauto.
Qed.

Lemma hkdf_one salt secret info : hkdf_sha256 (E := E) secret info salt
  = Ok (hmac_sha256 (hmac_sha256 salt secret) (info ++ [1])).
Proof.
  unfold hkdf_sha256. change 32%nat with (32 * 1)%nat. rewrite hkdf_blocks by lia.
  unfold hkdf_expand. cbn [seq fmap list_fmap concat hkdf_T app]. by rewrite app_nil_r.
Qed.

Lemma hkdf_six salt secret info : exists b1 b2 b3 b4 b5 b6,
  hkdf_sha256_keys (E := E) secret info salt = Ok (b1 ++ b2 ++ b3 ++ b4 ++ b5 ++ b6)
  /\ Forall (fun b => length b = 32%nat /\ exists k m, b = hmac_sha256 k m)
       [b1; b2; b3; b4; b5; b6].
Proof.
  eexists _, _, _, _, _, _. split.
  - unfold hkdf_sha256_keys. rewrite hkdf_blocks by lia.
    unfold hkdf_expand. cbn [seq fmap list_fmap concat]. by rewrite app_nil_r.
  - repeat (apply Forall_cons; split; [split; [apply law_hmac|cbn [hkdf_T]; eauto]|]).
    constructor.
Qed.

(** Block [i] of a concatenation of blocks of 32 bytes. *)
Lemma slice_block (pre b post : bytes) n : length pre = n -> length b = 32%nat ->
  slice (E := E) (pre ++ b ++ post) n (n + 32) = Ok b.
Proof.
  intros <- Hb. unfold slice. rewrite !length_app, Hb.
  rewrite (proj2 (Nat.leb_le _ _)) by lia. f_equal. rewrite drop_app_length.
  replace (length pre + 32 - length pre)%nat with (length b) by lia. apply take_app_length.
Qed.

Lemma key_at_block (pre b post : bytes) n : length pre = n -> length b = 32%nat ->
  (exists k m, b = hmac_sha256 k m) ->
  exists key, key_at (E := E) (pre ++ b ++ post) n = Ok key.
Proof.
  intros Hp Hb (k & m & ->). unfold key_at. rewrite slice_block by done. step.
  destruct (law_hmac_key k m) as [key ->]. eauto.
Qed.

Lemma native_keys_total the_seed kid ix m : exists ks,
  native_channel_keys (E := E) the_seed kid ix m = Ok ks.
Proof.
  unfold native_channel_keys.
  destruct (hkdf_six [] kid (as_bytes "c-lightning"))
    as (b1 & b2 & b3 & b4 & b5 & b6 & -> & Hall). step.
  rewrite !Forall_cons in Hall.
  destruct Hall as ([H1 K1] & [H2 K2] & [H3 K3] & [H4 K4] & [H5 K5] & [H6 K6] & _).
  destruct (key_at_block [] b1 (b2 ++ b3 ++ b4 ++ b5 ++ b6) 0 eq_refl H1 K1) as [k1 E1].
  destruct (key_at_block b1 b2 (b3 ++ b4 ++ b5 ++ b6) 32 H1 H2 K2) as [k2 E2].
  destruct (key_at_block (b1 ++ b2) b3 (b4 ++ b5 ++ b6) 64) as [k3 E3];
    [rewrite length_app; lia|done..|].
  destruct (key_at_block (b1 ++ b2 ++ b3) b4 (b5 ++ b6) 96) as [k4 E4];
    [rewrite !length_app; lia|done..|].
  destruct (key_at_block (b1 ++ b2 ++ b3 ++ b4) b5 b6 128) as [k5 E5];
    [rewrite !length_app; lia|done..|].
  pose proof (slice_block (b1 ++ b2 ++ b3 ++ b4 ++ b5) b6 [] 160) as E6.
  change (160 + 32)%nat with 192%nat in E6. rewrite app_nil_r in E6. repeat rewrite <- app_assoc in E6. repeat rewrite <- app_assoc in E5.
  repeat rewrite <- app_assoc in E4. repeat rewrite <- app_assoc in E3.
  cbn [app] in E1. rewrite E1, E2, E3, E4, E5, E6 by (rewrite ?length_app; lia).
  step. eauto.
Qed.

(** The identifier of a channel's keys: bytes, with four zeros in front and a
    fifth byte below 128. *)
Lemma ldk_keys_id_spec cid base : exists id b4 b5 b6 b7 rest,
  ldk_keys_id (E := E) cid base = Ok id
  /\ id = 0 :: 0 :: 0 :: 0 :: b4 :: b5 :: b6 :: b7 :: rest
  /\ 0 <= b4 < 128 /\ Forall ByteUtils.is_byte id.
Proof.
  unfold ldk_keys_id. rewrite hkdf_one, Ok_bind.
  set (h := hmac_sha256 _ _).
  destruct (law_hmac (hmac_sha256 cid base) (as_bytes "per-peer seed" ++ [1])) as [Hl Hb].
  fold h in Hl, Hb. clearbody h.
  destruct h as [|c0 [|c1 [|c2 [|c3 [|c4 [|c5 [|c6 [|c7 rest]]]]]]]]; try discriminate Hl.
  exists (0 :: 0 :: 0 :: 0 :: Z.land c4 0x7f :: c5 :: c6 :: c7 :: rest).
  exists (Z.land c4 0x7f), c5, c6, c7, rest. split; [done|]. split; [done|].
  assert (Hc4 : 0 <= Z.land c4 0x7f < 128).
  { change 0x7f with (Z.ones 7). rewrite Z.land_ones by lia.
    apply (Z.mod_pos_bound c4 (2 ^ 7)). lia. }
  split; [done|]. rewrite !Forall_cons in *. unfold ByteUtils.is_byte in *.
  destruct_and! Hb. repeat split; try done; lia.
Qed.

Lemma lor_bound a b n : 0 <= n -> 0 <= a < 2 ^ n -> 0 <= b < 2 ^ n -> 0 <= Z.lor a b < 2 ^ n.
Proof.
  intros Hn Ha Hb. destruct (Z.eq_dec a 0) as [->|]; [by rewrite Z.lor_0_l|].
  destruct (Z.eq_dec b 0) as [->|]; [by rewrite Z.lor_0_r|].
  assert (0 <= Z.lor a b) by (apply Z.lor_nonneg; lia). split; [done|].
  destruct (Z.eq_dec (Z.lor a b) 0) as [->|]; [lia|]. apply Z.log2_lt_pow2; [lia|].
  rewrite Z.log2_lor by lia.
  assert (Z.log2 a < n) by (apply Z.log2_lt_pow2; lia).
  assert (Z.log2 b < n) by (apply Z.log2_lt_pow2; lia). lia.
Qed.

Lemma ldk_index b4 b5 b6 b7 : 0 <= b4 < 128 -> 0 <= b5 < 256 -> 0 <= b6 < 256 -> 0 <= b7 < 256 ->
  exists i, ByteUtils.slice_to_be64 (E := E) [0; 0; 0; 0; b4; b5; b6; b7] = Ok i
    /\ 0 <= i < 2 ^ 31.
Proof.
  intros H4 H5 H6 H7. eexists. split; [reflexivity|].
  change (8 * Z.of_nat 0) with 0. change (8 * Z.of_nat 1) with 8.
  change (8 * Z.of_nat 2) with 16. change (8 * Z.of_nat 3) with 24.
  rewrite !Z.shiftl_0_l, !Z.lor_0_l.
  repeat (apply lor_bound; [lia|rewrite Z.shiftl_mul_pow2; lia|]). lia.
Qed.

Lemma key_step_total cs info prev : as_bytes info <> [] ->
  exists k, key_step (E := E) cs info prev = Ok k.
Proof.
  intros Hi. unfold key_step. destruct (law_sha_key (cs ++ prev ++ as_bytes info)) as [k ->].
  - by intros [_ [_ ?]%app_nil]%app_nil.
  - by exists k.
Qed.

Lemma ldk_keys_total the_seed cid base ix m : exists id ks,
  ldk_keys_id (E := E) cid base = Ok id /\ ldk_channel_keys (E := E) the_seed id ix m = Ok ks.
Proof.
  destruct (ldk_keys_id_spec cid base) as (id & b4 & b5 & b6 & b7 & rest & Hid & Heq & Hb4 & Hb).
  exists id. rewrite Hid. unfold ldk_channel_keys.
  assert (slice (E := E) id 0 8 = Ok [0; 0; 0; 0; b4; b5; b6; b7]) as -> by (by rewrite Heq).
  rewrite Ok_bind. rewrite Heq, !Forall_cons in Hb. unfold ByteUtils.is_byte in Hb. destruct_and! Hb.
  destruct (ldk_index b4 b5 b6 b7) as (i & -> & Hi); [done..|]. rewrite Ok_bind.
  rewrite (proj2 (Z.leb_le i U32_MAX)) by (unfold U32_MAX; lia). cbn [assert_]. rewrite Ok_bind.
  destruct (hardened_total 3 m) as [k3 ->]; [lia|]. rewrite Ok_bind.
  unfold as_u. rewrite Z.mod_small by lia.
  destruct (hardened_total i k3) as [kc ->]; [done|]. rewrite Ok_bind.
  set (cs := sha256 (id ++ the_seed ++ private_key kc)).
  set (seed1 := sha256 (cs ++ as_bytes "commitment seed")).
  destruct (key_step_total cs "funding key" seed1) as [fk ->]; [done|]. rewrite Ok_bind.
  destruct (key_step_total cs "revocation base key" fk) as [rk ->]; [done|]. rewrite Ok_bind.
  destruct (key_step_total cs "payment key" rk) as [pk ->]; [done|]. rewrite Ok_bind.
  destruct (key_step_total cs "delayed payment base key" pk) as [dk ->]; [done|]. rewrite Ok_bind.
  destruct (key_step_total cs "HTLC base key" dk) as [hk ->]; [done|]. rewrite Ok_bind. eauto.
Qed.

Lemma random_total self : 0 <= rand_bytes_child_index self < 2 ^ 31 -> exists self' b,
  get_secure_random_bytes self = Ok (self', b).
Proof.
  intros Hi. unfold get_secure_random_bytes. cbv zeta.
  assert (as_u 32 (rand_bytes_child_index self) = rand_bytes_child_index self) as ->
    by (apply Z.mod_small; lia).
  cbn [rand_bytes_master_key set_counters].
  destruct (hardened_total (rand_bytes_child_index self) (rand_bytes_master_key self) Hi) as [k ->].
  rewrite Ok_bind. eauto.
Qed.
End total.

(** ** What the manager's operations change

    Only the counters. *)

Inductive km_step self : MyKeysManager -> Prop :=
| step_random self' b : get_secure_random_bytes self = Ok (self', b) -> km_step self self'
| step_keys self' kid v s :
    get_channel_keys_with_keys_id self kid v = Ok (self', s) -> km_step self self'
| step_keys_with_id self' cid v s :
    get_channel_keys_with_id self cid v = Ok (self', s) -> km_step self self'
| step_increment self' i : increment_channel_id_child_index self = (self', i) -> km_step self self'
| step_channel_id self' cid : get_channel_id self = Ok (self', cid) -> km_step self self'.

Definition counters_of self self' : Prop := exists a b c, self' = set_counters self a b c.

Lemma random_counters self self' b : get_secure_random_bytes self = Ok (self', b) ->
  counters_of self self'.
Proof. unfold get_secure_random_bytes. intros Hx1. inv_ok Hx1. unfold counters_of. eauto. Qed.

Lemma keys_counters self kid v self' s :
  get_channel_keys_with_keys_id self kid v = Ok (self', s) -> counters_of self self'.
Proof.
  unfold get_channel_keys_with_keys_id. intros Hk. inv_ok Hk.
  destruct x as [[[[[fk rk] hk] pk] dk] cs]. inv_ok Hk. destruct x as [self1 r]. simplify_eq.
  apply random_counters in Hx0 as (a & b & c & ->). unfold counters_of. eauto.
Qed.

Lemma km_step_counters self self' : km_step self self' -> counters_of self self'.
Proof.
  destruct 1 as [?? Hk|???? Hk|???? Hk|?? Hk|?? Hk]; [by eapply random_counters|by eapply keys_counters| | |].
  - unfold get_channel_keys_with_id in Hk. inv_ok Hk. by eapply keys_counters.
  - unfold increment_channel_id_child_index in Hk. simplify_eq. unfold counters_of. eauto.
  - unfold get_channel_id, increment_channel_id_child_index in Hk. inv_ok Hk. unfold counters_of. eauto.
Qed.

Lemma km_steps_counters self self' : rtc km_step self self' -> counters_of self self'.
Proof.
  induction 1 as [k|k1 k2 k3 H1 _ (a & b & c & ->)].
  - exists (channel_id_child_index k), (rand_bytes_child_index k), (lnd_basepoint_index k).
    by destruct k.
  - apply km_step_counters in H1 as (a1 & b1 & c1 & ->). exists a, b, c. done.
Qed.

(** What [new] derives from the seed alone. *)
Record derived style (sd : bytes) network self : Prop := {
  d_seed : seed self = sd;
  d_style : key_derivation_style self = style;
  d_network : km_network self = network;
  d_master : master_key (key_derive (E := E) style network) sd = Ok (km_master_key self);
  d_base : channels_seed (E := E) sd = Ok (channel_seed_base self);
  d_node : exists pk, node_keys (key_derive (E := E) style network) sd = Ok (pk, node_secret self);
  d_account : style_account_extended_key (E := E) style network sd = Ok (account_extended_key self)
}.

Lemma derived_counters style sd network self self' : derived style sd network self ->
  counters_of self self' -> derived style sd network self'.
Proof. intros [] (a & b & c & ->). by split. Qed.

Lemma new_derived style sd network st self : new style sd network st = Ok self ->
  derived style sd network self.
Proof.
  unfold new. cbv zeta. intros Hn. inv_ok Hn. destruct x0 as [pk secret]. inv_ok Hn.
  match goal with Hr : get_secure_random_bytes _ = Ok ?p |- _ =>
    destruct p as [res b]; apply random_counters in Hr as (a1 & b1 & c1 & ->) end.
  simplify_eq. split; try done. by exists pk.
Qed.

Lemma derived_reachable style sd network st self self' : new style sd network st = Ok self ->
  rtc km_step self self' -> derived style sd network self'.
Proof.
  intros Hn Hr. eapply derived_counters; [by eapply new_derived|by apply km_steps_counters].
Qed.

(** Two managers of the same seed agree on everything but the counters. *)
Lemma derived_agree style sd network k1 k2 : derived style sd network k1 ->
  derived style sd network k2 ->
  km_master_key k1 = km_master_key k2 /\ channel_seed_base k1 = channel_seed_base k2
  /\ node_secret k1 = node_secret k2 /\ account_extended_key k1 = account_extended_key k2.
Proof.
  intros [_ _ _ Hm1 Hb1 [p1 Hn1] Ha1] [_ _ _ Hm2 Hb2 [p2 Hn2] Ha2].
  rewrite Hm2 in Hm1. rewrite Hb2 in Hb1. rewrite Hn2 in Hn1. rewrite Ha2 in Ha1. by simplify_eq.
Qed.

Lemma style_keys_total `{!KeyLaws} style network sd cid base m : style <> Lnd ->
  exists kid ks, keys_id (key_derive (E := E) style network) cid base = Ok kid
    /\ forall ix, channel_keys (key_derive (E := E) style network) sd kid ix m = Ok ks.
Proof.
  intros Hs. destruct style; [| |done]; cbn [key_derive NativeKeyDerive LdkKeyDerive keys_id
    channel_keys].
  - unfold default_keys_id. rewrite hkdf_one.
    destruct (native_keys_total sd (hmac_sha256 (hmac_sha256 cid base)
      (as_bytes "per-peer seed" ++ [1])) 0 m) as [ks Hks].
    eexists _, ks. split; [reflexivity|]. intros ix. exact Hks.
  - destruct (ldk_keys_total sd cid base 0 m) as (id & ks & Hid & Hks). exists id, ks.
    by split.
Qed.

(** The signer of a channel of [self], up to its entropy. *)
Lemma channel_keys_of `{!KeyLaws} style sd network self cid kid fk rk hk pk dk cs v :
  derived style sd network self -> 0 <= rand_bytes_child_index self < 2 ^ 31 ->
  keys_id (key_derive (E := E) style network) cid (channel_seed_base self) = Ok kid ->
  channel_keys (key_derive (E := E) style network) sd kid (lnd_basepoint_index self)
    (km_master_key self) = Ok (fk, rk, hk, pk, dk, cs) ->
  exists self' r, get_channel_keys_with_id self cid v
    = Ok (self', InMemorySigner_new fk rk pk dk hk cs v kid r).
Proof.
  intros [Hsd Hst Hnet _ _ _ _] Hr Hkid Hks.
  unfold get_channel_keys_with_id. rewrite Hst, Hnet, Hkid, Ok_bind.
  unfold get_channel_keys_with_keys_id. cbv zeta. cbn [seed set_counters km_master_key].
  rewrite Hst, Hnet, Hsd, Hks, Ok_bind.
  edestruct random_total as (self' & r & ->); [|rewrite Ok_bind; eauto]. done.
Qed.

Lemma normal_total `{!KeyLaws} i k : 0 <= i < 2 ^ 31 -> exists k', normal (E := E) i k = Ok k'.
Proof.
  intros Hi. unfold normal, ckd. destruct (law_idx i Hi) as [[n ->] _]. step.
  destruct (law_ckd k n) as [k' ->]. eauto.
Qed.

Lemma lnd_key_total `{!KeyLaws} network m family ix : 0 <= family < 2 ^ 31 -> 0 <= ix < 2 ^ 31 ->
  exists pk sk, derive_key_lnd (E := E) network m family ix = Ok (pk, sk).
Proof.
  intros Hf Hi. unfold derive_key_lnd. destruct (hardened_total 1017 m) as [k1 ->]; [lia|].
  rewrite Ok_bind. edestruct hardened_total as [k2 ->]; [by destruct network|]. rewrite Ok_bind.
  destruct (hardened_total family k2) as [k3 ->]; [done|]. rewrite Ok_bind.
  destruct (normal_total 0 k3) as [k4 ->]; [lia|]. rewrite Ok_bind.
  destruct (normal_total ix k4) as [k5 ->]; [done|]. rewrite Ok_bind. by eexists _, _.
Qed.

Lemma master_total `{!KeyLaws} style network sd :
  exists m, master_key (key_derive (E := E) style network) sd = Ok m.
Proof.
  destruct style; cbn [key_derive NativeKeyDerive LdkKeyDerive LndKeyDerive master_key];
    unfold native_master_key, ldk_master_key; rewrite ?hkdf_one, ?Ok_bind;
    match goal with |- context [new_master ?n ?b] => destruct (law_master n b) as [m ->] end;
    by exists m.
Qed.

Lemma node_keys_total `{!KeyLaws} style network sd :
  exists pk sk, node_keys (key_derive (E := E) style network) sd = Ok (pk, sk).
Proof.
  destruct style; cbn [key_derive NativeKeyDerive LdkKeyDerive LndKeyDerive node_keys].
  - unfold native_node_keys. rewrite hkdf_one, Ok_bind.
    destruct (law_hmac_key (hmac_sha256 [] sd) (as_bytes "nodeid" ++ [1])) as [k ->]. by eexists _, k.
  - unfold ldk_node_keys, ldk_master_key. destruct (law_master network sd) as [m ->]. step.
    destruct (hardened_total 0 m) as [k ->]; [lia|]. by eexists _, _.
  - unfold lnd_node_keys, ldk_master_key. destruct (law_master network sd) as [m ->].
    step. apply lnd_key_total; lia.
Qed.

Lemma account_total `{!KeyLaws} style network sd :
  exists k, style_account_extended_key (E := E) style network sd = Ok k.
Proof.
  assert (Hn : exists k, get_account_extended_key_native (E := E) network sd = Ok k).
  { unfold get_account_extended_key_native. rewrite hkdf_one, Ok_bind.
    match goal with |- context [new_master ?n ?b] => destruct (law_master n b) as [m ->] end. step.
    destruct (normal_total 0 m) as [k1 ->]; [lia|]. rewrite Ok_bind. apply normal_total. lia. }
  destruct style; cbn [style_account_extended_key]; [done|done|].
  unfold get_account_extended_key_lnd. destruct (law_master network sd) as [m ->]. step.
  destruct (hardened_total 84 m) as [k1 ->]; [lia|]. rewrite Ok_bind.
  destruct (hardened_total 0 k1) as [k2 ->]; [lia|]. rewrite Ok_bind. apply hardened_total. lia.
Qed.

Lemma lnd_keys_total `{!KeyLaws} network sd kid ix m : 0 <= ix < 2 ^ 31 ->
  exists ks, lnd_channel_keys (E := E) network sd kid ix m = Ok ks.
Proof.
  intros Hi. unfold lnd_channel_keys.
  destruct (hkdf_six [] kid (as_bytes "c-lightning"))
    as (b1 & b2 & b3 & b4 & b5 & b6 & -> & Hall). rewrite Ok_bind.
  rewrite !Forall_cons in Hall.
  destruct Hall as ([H1 _] & [H2 _] & [H3 _] & [H4 _] & [H5 _] & [H6 _] & _).
  unfold slice at 1. rewrite (proj2 (Nat.leb_le 192 _)) by (rewrite !length_app; lia).
  rewrite Ok_bind.
  destruct (lnd_key_total network m 0 ix) as (p0 & s0 & ->); [lia|done|]. rewrite Ok_bind.
  destruct (lnd_key_total network m 1 ix) as (p1 & s1 & ->); [lia|done|]. rewrite Ok_bind.
  destruct (lnd_key_total network m 2 ix) as (p2 & s2 & ->); [lia|done|]. rewrite Ok_bind.
  destruct (lnd_key_total network m 3 ix) as (p3 & s3 & ->); [lia|done|]. rewrite Ok_bind.
  destruct (lnd_key_total network m 4 ix) as (p4 & s4 & ->); [lia|done|]. rewrite Ok_bind. eauto.
Qed.

(** The first channel of a new LND manager gets its keys. *)
Lemma lnd_first_channel `{!KeyLaws} network sd st self cid v :
  new Lnd sd network st = Ok self -> rand_bytes_child_index self = 1 ->
  lnd_basepoint_index self = 0 ->
  exists self' s, get_channel_keys_with_id self cid v = Ok (self', s).
Proof.
  intros Hn Hr Hl. pose proof (new_derived _ _ _ _ _ Hn) as D.
  destruct (lnd_keys_total network sd (hmac_sha256 (hmac_sha256 cid (channel_seed_base self))
    (as_bytes "per-peer seed" ++ [1])) 0 (km_master_key self))
    as ([[[[[fk rk] hk] pk] dk] cs] & Hks); [lia|].
  edestruct (channel_keys_of Lnd sd network self cid) as (self' & r & Hk);
    [done|lia| | |by eexists _, _].
  - cbn [key_derive LndKeyDerive keys_id]. unfold default_keys_id. by rewrite hkdf_one.
  - rewrite Hl. exact Hks.
Qed.

Lemma new_total `{!KeyLaws} style network sd st : exists self,
  new style sd network st = Ok self /\ rand_bytes_child_index self = 1
  /\ lnd_basepoint_index self = 0.
Proof.
  unfold new. cbv zeta. destruct (master_total style network sd) as [m ->]. rewrite Ok_bind.
  destruct (node_keys_total style network sd) as (pk & sk & ->). rewrite Ok_bind.
  destruct (hardened_total 3 m) as [k3 ->]; [lia|]. rewrite Ok_bind.
  destruct (hardened_total 5 m) as [k5 Hk5]; [lia|]. rewrite Hk5, Ok_bind.
  unfold channels_seed. rewrite hkdf_one, Ok_bind.
  destruct (account_total style network sd) as [acc ->]. rewrite Ok_bind.
  destruct (normal_total 2 acc) as [n2 ->]; [lia|]. rewrite Ok_bind.
  destruct (normal_total 1 acc) as [n1 ->]; [lia|]. rewrite Ok_bind.
  destruct (hardened_total 4 m) as [k4 ->]; [lia|]. rewrite !Ok_bind.
  destruct (hardened_total 9735 m) as [k6 ->]; [lia|]. rewrite Ok_bind.
  destruct (hardened_total 9736 m) as [k7 ->]; [lia|]. rewrite Ok_bind.
  unfold get_secure_random_bytes. cbv zeta. cbn [rand_bytes_master_key rand_bytes_child_index
    set_counters]. change (as_u 32 0) with 0.
  destruct (hardened_total 0 k4) as [k8 ->]; [lia|]. rewrite !Ok_bind. by eexists.
Qed.

(** A restart keeps the keys of every channel.  For the native and the LDK
    style, two keys managers made from the same seed, at any starting times
    and after any operations, give a channel the same signing keys, keys
    identifier and commitment seed whatever its value; the node's key and the
    wallet's account key are the same too.  The derivation never fails: the
    index it takes from the keys identifier is within the range of BIP-32. *)
Theorem channel_keys_survive_restart `{!KeyLaws} style sd network st1 st2 a1 a2 k1 k2 cid
  (Hstyle : style <> Lnd)
  (Hnew1 : new style sd network st1 = Ok a1) (Hrun1 : rtc km_step a1 k1)
  (Hnew2 : new style sd network st2 = Ok a2) (Hrun2 : rtc km_step a2 k2)
  (Hrand1 : 0 <= rand_bytes_child_index k1 < 2 ^ 31)
  (Hrand2 : 0 <= rand_bytes_child_index k2 < 2 ^ 31) :
  (exists fk rk pk dk hk cs kid, forall v, exists k1' k2' r1 r2,
     get_channel_keys_with_id k1 cid v = Ok (k1', InMemorySigner_new fk rk pk dk hk cs v kid r1)
     /\ get_channel_keys_with_id k2 cid v = Ok (k2', InMemorySigner_new fk rk pk dk hk cs v kid r2))
  /\ get_node_id k1 = get_node_id k2 /\ account_extended_key k1 = account_extended_key k2.
Proof.
  pose proof (derived_reachable _ _ _ _ _ _ Hnew1 Hrun1) as D1.
  pose proof (derived_reachable _ _ _ _ _ _ Hnew2 Hrun2) as D2.
  destruct (derived_agree _ _ _ _ _ D1 D2) as (Hm & Hb & Hn & Ha).
  destruct (style_keys_total style network sd cid (channel_seed_base k1) (km_master_key k1) Hstyle)
    as (kid & [[[[[fk rk] hk] pk] dk] cs] & Hkid & Hks).
  split; [|unfold get_node_id; by rewrite Hn].
  exists fk, rk, pk, dk, hk, cs, kid. intros v.
  destruct (channel_keys_of style sd network k1 cid kid fk rk hk pk dk cs v D1 Hrand1 Hkid (Hks _))
    as (k1' & r1 & ->).
  destruct (channel_keys_of style sd network k2 cid kid fk rk hk pk dk cs v D2 Hrand2)
    as (k2' & r2 & ->); [by rewrite <- Hb|by rewrite <- Hm|]. by exists k1', k2', r1, r2.
Qed.

Lemma lnd_same_index network sd1 sd2 kid1 kid2 ix m fk1 rk1 hk1 pk1 dk1 cs1 fk2 rk2 hk2 pk2 dk2 cs2 :
  lnd_channel_keys (E := E) network sd1 kid1 ix m = Ok (fk1, rk1, hk1, pk1, dk1, cs1) ->
  lnd_channel_keys (E := E) network sd2 kid2 ix m = Ok (fk2, rk2, hk2, pk2, dk2, cs2) ->
  fk1 = fk2 /\ rk1 = rk2 /\ hk1 = hk2 /\ pk1 = pk2 /\ dk1 = dk2.
Proof.
  unfold lnd_channel_keys. intros Hc1 Hc2.
  apply bind_Ok in Hc1 as (b1 & _ & Hc1). apply bind_Ok in Hc1 as (c1 & _ & Hc1).
  apply bind_Ok in Hc2 as (b2 & _ & Hc2). apply bind_Ok in Hc2 as (c2 & _ & Hc2).
  destruct (derive_key_lnd network m 0 ix) as [[]| |]; [|done..].
  destruct (derive_key_lnd network m 1 ix) as [[]| |]; [|done..].
  destruct (derive_key_lnd network m 2 ix) as [[]| |]; [|done..].
  destruct (derive_key_lnd network m 3 ix) as [[]| |]; [|done..].
  destruct (derive_key_lnd network m 4 ix) as [[]| |]; [|done..].
  rewrite !Ok_bind in Hc1, Hc2. by simplify_eq.
Qed.

(** The signer that was returned, from the keys that were derived. *)
Lemma channel_keys_inv style sd network self cid v self' s : derived style sd network self ->
  get_channel_keys_with_id self cid v = Ok (self', s) ->
  exists kid fk rk hk pk dk cs r,
    channel_keys (key_derive (E := E) style network) sd kid (lnd_basepoint_index self)
      (km_master_key self) = Ok (fk, rk, hk, pk, dk, cs)
    /\ s = InMemorySigner_new fk rk pk dk hk cs v kid r.
Proof.
  intros [Hsd Hst Hnet _ _ _ _]. unfold get_channel_keys_with_id, get_channel_keys_with_keys_id.
  cbv zeta. cbn [seed set_counters km_master_key]. rewrite Hst, Hnet, Hsd. intros Hk.
  apply bind_Ok in Hk as (kid & _ & Hk).
  apply bind_Ok in Hk as ([[[[[fk rk] hk] pk] dk] cs] & Hc & Hk).
  apply bind_Ok in Hk as ([self1 r] & _ & Hk). simplify_eq.
  by exists kid, fk, rk, hk, pk, dk, cs, r.
Qed.

(** With the LND style the keys of a channel depend on the order of
    derivations and not on the channel: two managers of the same seed that
    have derived equally many channels give the next one the same keys, even
    if it is a different channel.  After a restart a channel gets its own keys
    back only if the channels are restored in the order of their creation. *)
Theorem lnd_keys_ignore_channel_id sd network st1 st2 a1 a2 k1 k2 cid1 cid2 v1 v2 k1' k2' s1 s2
  (Hnew1 : new Lnd sd network st1 = Ok a1) (Hrun1 : rtc km_step a1 k1)
  (Hnew2 : new Lnd sd network st2 = Ok a2) (Hrun2 : rtc km_step a2 k2)
  (Hsame : lnd_basepoint_index k1 = lnd_basepoint_index k2)
  (Hk1 : get_channel_keys_with_id k1 cid1 v1 = Ok (k1', s1))
  (Hk2 : get_channel_keys_with_id k2 cid2 v2 = Ok (k2', s2)) :
  exists fk rk pk dk hk cs1 cs2 kid1 kid2 r1 r2,
    s1 = InMemorySigner_new fk rk pk dk hk cs1 v1 kid1 r1
    /\ s2 = InMemorySigner_new fk rk pk dk hk cs2 v2 kid2 r2.
Proof.
  pose proof (derived_reachable _ _ _ _ _ _ Hnew1 Hrun1) as D1.
  pose proof (derived_reachable _ _ _ _ _ _ Hnew2 Hrun2) as D2.
  destruct (derived_agree _ _ _ _ _ D1 D2) as (Hm & _).
  destruct (channel_keys_inv _ _ _ _ _ _ _ _ D1 Hk1)
    as (kid1 & fk1 & rk1 & hk1 & pk1 & dk1 & cs1 & r1 & Hc1 & ->).
  destruct (channel_keys_inv _ _ _ _ _ _ _ _ D2 Hk2)
    as (kid2 & fk2 & rk2 & hk2 & pk2 & dk2 & cs2 & r2 & Hc2 & ->).
  rewrite Hm, Hsame in Hc1. cbn [key_derive LndKeyDerive channel_keys] in Hc1, Hc2.
  destruct (lnd_same_index _ _ _ _ _ _ _ _ _ _ _ _ _ _ _ _ _ _ _ Hc1 Hc2)
    as (-> & -> & -> & -> & ->).
  by exists fk2, rk2, pk2, dk2, hk2, cs1, cs2, kid1, kid2, r1, r2.
Qed.

(** *** The spending transaction *)

(** What the first loop has gathered from the descriptors [ds]. *)
Record gathered (ds : list SpendableOutputDescriptor) (acc : list TxIn * Z * Z * gset OutPoint)
  : Prop := {
  g_inputs : acc.1.1.1 = unsigned_input <$> ds;
  g_weight : acc.1.2 = sum_list_Z (descriptor_weight <$> ds);
  g_value : acc.1.1.2 = sum_list_Z (descriptor_value <$> ds) /\ 0 <= acc.1.1.2 < 2 ^ 63;
  g_set : forall o, o ∈ acc.2 <-> o ∈ descriptor_outpoint <$> ds;
  g_nodup : NoDup (descriptor_outpoint <$> ds)
}.

Lemma gather_loop ds acc : Forall (fun d => 0 <= descriptor_value d < 2 ^ 63) ds ->
  foldM gather_step ([], 0, 0, ∅) ds = Ok acc -> gathered ds acc.
Proof.
  intros Hv Hg.
  refine (foldM_inv (fun pre acc => Forall (fun d => 0 <= descriptor_value d < 2 ^ 63) pre ->
    gathered pre acc) _ ds _ _ _ _ Hg Hv).
  - intros _. split; [done|done|done|set_solver|constructor].
  - intros pre d [[[ins iv] w] os] acc' IH Hstep [Hpre Hd]%Forall_app.
    rewrite Forall_singleton in Hd. destruct (IH Hpre) as [Hi Hwt [Hval Hr] Hos Hnd]. cbn in *.
    unfold gather_step, MAX_VALUE_MSAT in Hstep. rewrite add64_in, Ok_bind in Hstep by lia.
    inv_ok Hstep. apply bool_decide_eq_false in Hx. b2p.
    change (2100000000000000000 / 1000) with 2100000000000000 in Hx0.
    split; cbn.
    + by rewrite fmap_app.
    + rewrite fmap_app, sum_list_Z_app. cbn [fmap list_fmap sum_list_Z foldr]. lia.
    + rewrite fmap_app, sum_list_Z_app. cbn [fmap list_fmap sum_list_Z foldr]. lia.
    + intros o. rewrite fmap_app, elem_of_union, elem_of_singleton, elem_of_app, Hos. cbn.
      rewrite list_elem_of_singleton. tauto.
    + rewrite fmap_app. apply NoDup_app. split; [done|]. split; [|apply NoDup_singleton].
      intros o Ho ->%list_elem_of_singleton. by apply Hx, Hos.
Qed.

(** Signing only sets witnesses. *)
Lemma sign_loop ds : forall acc acc', foldM sign_step acc ds = Ok acc' ->
  previous_output <$> input acc'.1.2 = previous_output <$> input acc.1.2
  /\ output acc'.1.2 = output acc.1.2.
Proof.
  induction ds as [|d ds IH]; intros acc acc' Hs; cbn [foldM] in Hs; [by simplify_eq|].
  apply bind_Ok in Hs as (acc1 & Hstep & Hs). apply IH in Hs as [-> ->].
  destruct acc as [[[self cache] tx] n]. unfold sign_step in Hstep.
  apply bind_Ok in Hstep as ([[self1 cache1] w] & _ & Hstep).
  apply bind_Ok in Hstep as (tx1 & Hw & Hstep). simplify_eq. cbn [fst snd].
  unfold set_witness in Hw. inv_ok Hw. cbn [input output]. split; [|done].
  rewrite list_fmap_insert. apply list_insert_id. rewrite list_lookup_fmap. by rewrite Hx.
Qed.

(** C36: the transaction that sweeps closed channels spends exactly the outputs
    described, each once and in order, and keeps the requested outputs.  It has
    one change output of at least the dust limit, and then the fee is exactly
    the feerate for the weight of the transaction with that output and its
    witnesses; or, when such an output would be dust, none, and then the fee
    covers the feerate for the weight without it.  A descriptor given twice is
    an error. *)
Theorem spend_spendable_outputs_pays self self' ds outs script feerate tx
  (Hvals : Forall (fun d => 0 <= descriptor_value d < 2 ^ 63) ds)
  (Houts : Forall (fun o => 0 <= out_value o < 2 ^ 63) outs)
  (Hw : forall t, 0 <= tx_weight t) (Hwit : Forall (fun d => 0 <= descriptor_weight d) ds) (Hfr : 0 <= feerate)
  (Hlen : forall o, 0 <= txout_encoded_len o)
  (Hvar : forall n, varint_len n <= varint_len (n + 1))
  (Hspend : spend_spendable_outputs self ds outs script feerate = Ok (self', tx)) :
  previous_output <$> input tx = descriptor_outpoint <$> ds
  /\ NoDup (descriptor_outpoint <$> ds)
  /\ change_made {| version := 2; lock_time := 0; input := unsigned_input <$> ds; output := outs |}
       (sum_list_Z (descriptor_value <$> ds)) (sum_list_Z (descriptor_weight <$> ds)) feerate script
       (output tx).
Proof.
  unfold spend_spendable_outputs in Hspend.
  apply bind_Ok in Hspend as ([[[inputs iv] ww] os] & Hg & Hspend).
  apply bind_Ok in Hspend as (tx1 & Hc & Hspend).
  apply bind_Ok in Hspend as ([[[self1 cache] tx2] n] & Hs & Hspend). simplify_eq.
  apply gather_loop in Hg as [Hi Hww [Hval Hr] _ Hnd]; [|done]. cbn [fst snd] in *. subst inputs ww iv.
  apply sign_loop in Hs as [Hin Hout]. cbn [fst snd] in *. rewrite Hin, Hout.
  assert (Hwt := Hw {| version := 2; lock_time := 0; input := unsigned_input <$> ds; output := outs |}).
  assert (0 <= sum_list_Z (descriptor_weight <$> ds))
    by (apply sum_list_Z_nonneg, Forall_fmap; exact Hwit).
  apply maybe_add_change_output_pays in Hc as (Ho & ->); cbn [input output] in *;
    [|lia..|by apply Hlen|apply Hvar|done].
  split; [by rewrite <- list_fmap_compose|]. split; [done|]. exact Ho.
Qed.
End manager.
End Keys.

(** ** A concrete instance *)

Definition example_hash (b : bytes) : bytes :=
  (fun x => x mod 256) <$> take 32 (reverse b ++ replicate 32 9).

Definition example_crypto : CryptoLib := {|
  hmac_sha256 k m := example_hash (k ++ m);
  signature_from_der d := match d with 48 :: s => Some s | _ => None end |}.

(** An extended key is its derivation path. *)
Definition example_keys : @KeyLib example_lib := {|
  ExtendedPrivKey := list Z;
  from_normal_idx i := if (0 <=? i) && (i <? 2 ^ 31) then Some (Normal i) else None;
  from_hardened_idx i := if (0 <=? i) && (i <? 2 ^ 31) then Some (Hardened i) else None;
  new_master _ s := Some (take 2 s);
  ckd_priv k n := Some (k ++ [match n with Normal i => i | Hardened i => 1000 + i end]);
  private_key k := k;
  hash160 b := take 20 b;
  push_slice b := Z.of_nat (length b) :: b;
  p2pkh_script k := 0x76 :: k;
  shared_secret p s := zip_with Z.add (tail p) s;
  scalar_from_be_bytes b := Some b;
  add_tweak s t := Some (s ++ t);
  mul_tweak s t := Some (s ++ t);
  sign_schnorr_no_aux_rand m s := s ++ m;
  sign_ecdsa_recoverable m s := s ++ m;
  InMemorySigner_new fk _ _ _ _ _ v _ _ := (v + sum_list_Z fk : @InMemorySigner example_lib);
  commitment_seed k := [k];
  channel_keys_id k := [k];
  signer_random_bytes k := [k];
  provide_channel_parameters k _ := k;
  sign_counterparty_payment_input _ _ _ _ := Some [[1]];
  sign_dynamic_p2wsh_input _ _ _ _ _ := Some [[1]; []];
  STATIC_MAX_WITNESS_LENGTH := 109;
  DELAYED_MAX_WITNESS_LENGTH := 154;
  construct_invoice_preimage h d := h ++ d |}.

#[local] Existing Instances example_lib example_crypto example_keys.

Lemma example_key_laws : Keys.KeyLaws.
Proof.
  split.
  - intros k m. cbn [hmac_sha256 example_crypto]. unfold example_hash. split.
    + rewrite length_fmap, length_take, length_app, length_replicate. lia.
    + apply Forall_fmap, Forall_forall. intros x _. cbn. apply Z.mod_pos_bound. lia.
  - intros i Hi. cbn [from_normal_idx from_hardened_idx example_keys].
    rewrite (proj2 (Z.leb_le 0 i)), (proj2 (Z.ltb_lt i (2 ^ 31))) by lia. by split.
  - by eexists.
  - by eexists.
  - intros m Hm. cbn [secretkey_from_slice sha256 example_lib]. destruct m; [done|]. by eexists.
  - intros k m. cbn [secretkey_from_slice hmac_sha256 example_crypto example_lib].
    unfold example_hash. destruct (_ <$> _) eqn:He; [|by eexists].
    apply (f_equal length) in He.
    rewrite length_fmap, length_take, length_app, length_replicate in He. cbn [length] in He. lia.
Qed.

Definition example_seed : bytes := Z.of_nat <$> seq 1 32.

Lemma channel_keys_survive_restart_witness : exists a1 a2 : Keys.MyKeysManager,
  Keys.new (E := unit) Ldk example_seed Testnet (5, 6) = Ok a1
  /\ Keys.new (E := unit) Ldk example_seed Testnet (7, 8) = Ok a2
  /\ Keys.get_node_id a1 = Keys.get_node_id a2.
Proof.
  destruct (@Keys.new_total _ _ _ unit example_key_laws Ldk Testnet example_seed (5, 6))
    as (a1 & H1 & R1 & _).
  destruct (@Keys.new_total _ _ _ unit example_key_laws Ldk Testnet example_seed (7, 8))
    as (a2 & H2 & R2 & _).
  exists a1, a2. split; [exact H1|]. split; [exact H2|].
  refine (proj1 (proj2 (@Keys.channel_keys_survive_restart _ _ _ unit example_key_laws Ldk
    example_seed Testnet (5, 6) (7, 8) a1 a2 a1 a2 [3] _ H1 (rtc_refl _ _) H2 (rtc_refl _ _) _ _)));
    [discriminate|lia|lia].
Defined.

(** The first channel derived by either manager gets the same keys. *)
Lemma lnd_keys_ignore_channel_id_witness : exists a1 a2 k1 k2 (s1 s2 : Z),
  Keys.new (E := unit) Lnd example_seed Testnet (5, 6) = Ok a1
  /\ Keys.new (E := unit) Lnd example_seed Testnet (7, 8) = Ok a2
  /\ Keys.get_channel_keys_with_id (E := unit) a1 [1] 0 = Ok (k1, s1)
  /\ Keys.get_channel_keys_with_id (E := unit) a2 [2] 0 = Ok (k2, s2) /\ s1 = s2.
Proof.
  destruct (@Keys.new_total _ _ _ unit example_key_laws Lnd Testnet example_seed (5, 6))
    as (a1 & H1 & R1 & L1).
  destruct (@Keys.new_total _ _ _ unit example_key_laws Lnd Testnet example_seed (7, 8))
    as (a2 & H2 & R2 & L2).
  destruct (@Keys.lnd_first_channel _ _ _ unit example_key_laws Testnet example_seed (5, 6) a1
    [1] 0 H1 R1 L1) as (k1 & s1 & K1).
  destruct (@Keys.lnd_first_channel _ _ _ unit example_key_laws Testnet example_seed (7, 8) a2
    [2] 0 H2 R2 L2) as (k2 & s2 & K2).
  exists a1, a2, k1, k2, s1, s2. repeat (split; [assumption|]).
  destruct (@Keys.lnd_keys_ignore_channel_id _ _ _ unit example_seed Testnet (5, 6) (7, 8) a1 a2
    a1 a2 [1] [2] 0 0 k1 k2 s1 s2 H1 (rtc_refl _ _) H2 (rtc_refl _ _) (eq_trans L1 (eq_sym L2)) K1 K2)
    as (fk & rk & pk & dk & hk & cs1 & cs2 & kid1 & kid2 & r1 & r2 & E1 & E2).
  rewrite E1, E2. reflexivity.
Defined.

Definition example_manager : Keys.MyKeysManager := {|
  Keys.seed := example_seed; Keys.key_derivation_style := Native; Keys.km_network := Testnet;
  Keys.km_master_key := []; Keys.node_secret := [1]; Keys.bolt12_secret := [2];
  Keys.persistence_secret := [3]; Keys.inbound_payment_key := []; Keys.channel_seed_base := [];
  Keys.account_extended_key := []; Keys.destination_script := [7];
  Keys.ldk_shutdown_pubkey := []; Keys.channel_master_key := []; Keys.channel_id_master_key := [];
  Keys.channel_id_child_index := 0; Keys.rand_bytes_master_key := [];
  Keys.rand_bytes_child_index := 0; Keys.rand_bytes_unique_start := [];
  Keys.lnd_basepoint_index := 0; Keys.unique_start := [] |}.

Definition example_descriptors : list SpendableOutputDescriptor :=
  [StaticOutput {| op_txid := [1]; vout := 0 |} {| out_value := 100000; script_pubkey := [7] |}].

Lemma spend_spendable_outputs_pays_witness : exists tx,
  @Keys.spend_spendable_outputs _ _ _ true unit example_manager example_descriptors [] [0; 20; 9] 253
     = Ok (example_manager, tx)
  /\ change_made {| version := 2; lock_time := 0; input := Keys.unsigned_input <$> example_descriptors;
                    output := [] |} 100000 108 253 [0; 20; 9] (output tx).
Proof.
  eexists. split; [reflexivity|].
  apply (@Keys.spend_spendable_outputs_pays _ _ _ true unit example_manager example_manager
    example_descriptors [] [0; 20; 9] 253); [| | | | | | |reflexivity].
  - repeat constructor; by vm_compute.
  - constructor.
  - intros t. cbn. lia.
  - repeat constructor; by vm_compute.
  - done.
  - intros o. cbn. lia.
  - intros n. cbn. destruct (Z.ltb_spec n 253), (Z.ltb_spec (n + 1) 253); lia.
Defined.
