(* ===== verification/Lss.v ===== *)
(** * The lightning storage server

    lightning-storage-server/src: the values a client stores with their HMAC
    and encryption (util.rs), the authentication (client/auth.rs), the sled
    database with its version check (database/sled.rs), the server's two
    requests (server/mod.rs) and the client that sends them and checks the
    answers (client/driver.rs).  A request of the client is composed with the
    handler of the server; gRPC and CBOR carry the messages and the values
    unchanged. *)

From stdpp Require Import sorting.
From S2P Require Import Prelude Order Extern Crypto Keys ChaCha20.

Module Lss.

Record Value := { version : Z; value : bytes }.

(** [i64::to_be_bytes] *)
Definition be_bytes (v : Z) : bytes := ByteUtils.be64_to_array (as_u 64 v).

Section util.
Context `{L : Lib, CrL : CryptoLib}.

(** ** util.rs *)

Definition add_to_hmac (key : string) (version : Z) (value : bytes) : bytes :=
  as_bytes key ++ be_bytes version ++ value.

Definition compute_hmac (secret : bytes) (key : string) (version : Z) (value : bytes) : bytes :=
  hmac_sha256 secret (add_to_hmac key version value).

Definition append_hmac_to_value (secret : bytes) (key : string) (version : Z) (value : bytes) : bytes :=
  value ++ compute_hmac secret key version value.

Definition crypt_value {E} (secret : bytes) (key : string) (version : Z) (value : bytes)
  : outcome E bytes :=
  let hash := sha256 (as_bytes key ++ be_bytes version) in
  let nonce := take 12 hash in
  chacha ← ChaCha.new secret nonce;
  '(_, value) ← ChaCha.process_in_place chacha value;
  Ok value.

Definition prepare_value_for_put {E} (secret : bytes) (key : string) (v : Value) : outcome E Value :=
  value ← crypt_value secret key (version v)
            (append_hmac_to_value secret key (version v) (value v));
  Ok {| version := version v; value := value |}.

(** The value without its HMAC, or [Err] when it is not valid. *)
Definition remove_and_check_hmac (secret : bytes) (key : string) (version : Z) (value : bytes)
  : outcome unit bytes :=
  if (length value <? 32)%nat then Err tt
  else
    let expected_hmac := drop (length value - 32) value in
    let value := take (length value - 32) value in
    if bool_decide (compute_hmac secret key version value = expected_hmac) then Ok value else Err tt.

Definition process_value_from_get (secret : bytes) (key : string) (v : Value) : outcome unit Value :=
  value ← crypt_value secret key (version v) (value v);
  value ← remove_and_check_hmac secret key (version v) value;
  Ok {| version := version v; value := value |}.

Definition compute_shared_hmac (secret nonce : bytes) (kvs : list (string * Value)) : bytes :=
  hmac_sha256 secret (secret ++ nonce ++
    concat ((fun kv => add_to_hmac kv.1 (version kv.2) (value kv.2)) <$> kvs)).
End util.

(** ** client/auth.rs *)

Record Auth := { client_id : PublicKey; token : bytes }.

Record PrivAuth := { priv_client_id : PublicKey; the_shared_secret : bytes }.

Section auth.
Context `{L : Lib, !KeyLib}.

Definition new_for_client (client_key : SecretKey) (server_id : PublicKey) : PrivAuth :=
  {| priv_client_id := pubkey_from_secret_key client_key;
     the_shared_secret := shared_secret server_id client_key |}.

Definition new_for_server (server_key : SecretKey) (client_id : PublicKey) : PrivAuth :=
  {| priv_client_id := client_id; the_shared_secret := shared_secret client_id server_key |}.

Definition auth_token (self : PrivAuth) : bytes := sha256 (the_shared_secret self).

Definition auth (self : PrivAuth) : Auth :=
  {| client_id := priv_client_id self; token := auth_token self |}.
End auth.

(** ** database/sled.rs *)

(** The trees of sled: the encoded values by key. *)
Notation SledDatabase := (gmap string Value).

(** [Error::Conflict]; storage errors of sled are not modelled. *)
Inductive Error := Conflict (existing : list (string * option Value)).

(** [existing.version + 1] on [i64] *)
Definition next_i64 {P : Profile} {E} (v : Z) : outcome E Z :=
  if v + 1 <? 2 ^ 63 then Ok (v + 1) else if overflow_checks then Panic else Ok (v + 1 - 2 ^ 64).

Section server.
Context `{L : Lib, CrL : CryptoLib, !KeyLib, HL : HexLib, Prof : Profile}.

Definition full_key (client_id : bytes) (key_suffix : string) : string :=
  hex_encode client_id +:+ "/" +:+ key_suffix.

(** The existing value, if the version is not the next one. *)
Definition conflict (db : SledDatabase) (client_id : bytes) (kv : string * Value)
  : outcome Error (option (string * option Value)) :=
  let existing := db !! full_key client_id kv.1 in
  next_version ← match existing with Some e => next_i64 (version e) | None => Ok 0 end;
  Ok (if version kv.2 =? next_version then None else Some (kv.1, existing)).

Definition db_put (db : SledDatabase) (client_id : bytes) (kvs : list (string * Value))
  : SledDatabase * outcome Error unit :=
  match foldM (fun conflicts kv =>
      c ← conflict db client_id kv; Ok (conflicts ++ option_list c)) [] kvs with
  | Ok [] => (foldl (fun db kv => <[full_key client_id kv.1 := kv.2]> db) db kvs, Ok tt)
  | Ok conflicts => (db, Err (Conflict conflicts))
  | Err e => (db, Err e)
  | Panic => (db, Panic)
  end.

Definition db_get_with_prefix (db : SledDatabase) (client_id : bytes) (key_prefix : string)
  : list (string * Value) :=
  let prefix := full_key client_id key_prefix in
  omap (fun key =>
      (String.substring (length client_id * 2 + 1) (String.length key - (length client_id * 2 + 1)) key,.)
        <$> db !! key)
    (base.filter (fun key => String.prefix prefix key = true) (sort (map_to_list db).*1)).

(** ** server/mod.rs *)

Inductive TonicStatus :=
| Unauthenticated (msg : string) | InvalidArgument (msg : string) | InternalStatus (msg : string).

Record GetRequest := { get_auth : option Auth; key_prefix : string; get_nonce : bytes }.
Record GetReply := { get_kvs : list (string * Value); get_hmac : bytes }.
Record PutRequest := { put_auth : option Auth; put_kvs : list (string * Value); put_hmac : bytes }.
Record PutReply := { success : bool; reply_hmac : bytes; conflicts : list (string * Value) }.

(** A conflict as it is sent: version -1 for a missing key. *)
Definition conflict_into (c : string * option Value) : string * Value :=
  (c.1, {| version := default (-1) (version <$> c.2); value := default [] (value <$> c.2) |}).

Definition check_auth (secret_key : SecretKey) (auth_proto : Auth) : outcome TonicStatus PrivAuth :=
  client_id ← ok_or (pubkey_from_slice (client_id auth_proto)) (Unauthenticated "invalid client id");
  let auth := new_for_server secret_key client_id in
  if bool_decide (token auth_proto = auth_token auth) then Ok auth
  else Err (InvalidArgument "invalid auth token").

Definition server_get (secret_key : SecretKey) (db : SledDatabase) (request : GetRequest)
  : outcome TonicStatus GetReply :=
  auth_proto ← ok_or (get_auth request) (InvalidArgument "missing auth");
  auth ← check_auth secret_key auth_proto;
  let kvs := db_get_with_prefix db (client_id auth_proto) (key_prefix request) in
  Ok {| get_kvs := kvs; get_hmac := compute_shared_hmac (the_shared_secret auth) (get_nonce request) kvs |}.

(** No two neighbours are out of order. *)
Fixpoint windows_sorted (keys : list string) : bool :=
  match keys with
  | k1 :: (k2 :: _) as rest => negb (lt_ k2 k1) && windows_sorted rest
  | _ => true
  end.

Definition server_put (secret_key : SecretKey) (db : SledDatabase) (request : PutRequest)
  : SledDatabase * outcome TonicStatus PutReply :=
  let kvs := put_kvs request in
  match
    auth_proto ← ok_or (put_auth request) (InvalidArgument "missing auth");
    (if windows_sorted kvs.*1 then Ok tt else Err (InvalidArgument "keys are not sorted"));;
    auth ← check_auth secret_key auth_proto;
    (if bool_decide (compute_shared_hmac (the_shared_secret auth) [0x01] kvs = put_hmac request)
     then Ok tt else Err (InvalidArgument "invalid client HMAC"));;
    Ok (auth_proto, auth)
  with
  | Ok (auth_proto, auth) =>
      match db_put db (client_id auth_proto) kvs with
      | (db, Ok _) =>
          (db, Ok {| success := true; conflicts := [];
                     reply_hmac := compute_shared_hmac (the_shared_secret auth) [0x02] kvs |})
      | (db, Err (Conflict conflicts)) =>
          (db, Ok {| success := false; reply_hmac := []; conflicts := conflict_into <$> conflicts |})
      | (db, Panic) => (db, Panic)
      end
  | Err e => (db, Err e)
  | Panic => (db, Panic)
  end.

(** ** client/driver.rs *)

Inductive ClientError :=
| Tonic (status : TonicStatus)
| InvalidHmac (key : string) (version : Z)
| InvalidServerHmac
| PutConflict (conflicts : list (string * Value)).

Definition remove_and_check_kv (hmac_secret : bytes) (kv : string * Value)
  : outcome ClientError (string * Value) :=
  v ← map_err (fun _ => InvalidHmac kv.1 (version kv.2)) (process_value_from_get hmac_secret kv.1 kv.2);
  Ok (kv.1, v).

Definition remove_and_check_hmacs (hmac_secret : bytes) (kvs : list (string * Value))
  : outcome ClientError (list (string * Value)) :=
  foldM (fun acc kv => kv ← remove_and_check_kv hmac_secret kv; Ok (acc ++ [kv])) [] kvs.

(** [Client::get], composed with the server. *)
Definition Client_get (self : Auth) (server : SecretKey) (db : SledDatabase) (prefix : string)
  (nonce : bytes) : outcome ClientError (list (string * Value) * bytes) :=
  reply ← map_err Tonic (server_get server db
    {| get_auth := Some self; key_prefix := prefix; get_nonce := nonce |});
  Ok (get_kvs reply, get_hmac reply).

(** [Client::put], composed with the server. *)
Definition Client_put (self : Auth) (server : SecretKey) (db : SledDatabase)
  (kvs : list (string * Value)) (client_hmac : bytes) : SledDatabase * outcome ClientError bytes :=
  let '(db, r) := server_put server db
    {| put_auth := Some self; put_kvs := kvs; put_hmac := client_hmac |} in
  (db, reply ← map_err Tonic r;
       if (success reply : bool) then Ok (reply_hmac reply) else Err (PutConflict (conflicts reply))).

(** [PrivClient::get]; the nonce is random. *)
Definition client_get (self : PrivAuth) (server : SecretKey) (db : SledDatabase) (hmac_secret : bytes)
  (prefix : string) (nonce : bytes) : outcome ClientError (list (string * Value)) :=
  '(kvs, received_hmac) ← Client_get (auth self) server db prefix nonce;
  if bool_decide (received_hmac = compute_shared_hmac (the_shared_secret self) nonce kvs)
  then remove_and_check_hmacs hmac_secret kvs
  else Err InvalidServerHmac.

(** [sort_by_key], a stable sort. *)
Fixpoint insert_by_key (kv : string * Value) (l : list (string * Value)) : list (string * Value) :=
  match l with
  | [] => [kv]
  | kv' :: l' => if lt_ kv'.1 kv.1 then kv' :: insert_by_key kv l' else kv :: l
  end.

Definition sort_kvs (kvs : list (string * Value)) : list (string * Value) := foldr insert_by_key [] kvs.

(** What [PrivClient::put] makes of the answer. *)
Definition check_put_reply (self : PrivAuth) (hmac_secret : bytes) (kvs : list (string * Value))
  (r : outcome ClientError bytes) : outcome ClientError unit :=
  match r with
  | Ok received_server_hmac =>
      if bool_decide (received_server_hmac = compute_shared_hmac (the_shared_secret self) [0x02] kvs)
      then Ok tt else Err InvalidServerHmac
  | Err (PutConflict conflicts) =>
      conflicts ← remove_and_check_hmacs hmac_secret conflicts;
      Err (PutConflict conflicts)
  | Err e => Err e
  | Panic => Panic
  end.

Definition prepare_kv {E} (hmac_secret : bytes) (kv : string * Value) : outcome E (string * Value) :=
  v ← prepare_value_for_put hmac_secret kv.1 kv.2;
  Ok (kv.1, v).

Definition prepare_all {E} (hmac_secret : bytes) (kvs : list (string * Value))
  : outcome E (list (string * Value)) :=
  foldM (fun acc kv => kv ← prepare_kv hmac_secret kv; Ok (acc ++ [kv])) [] kvs.

(** [PrivClient::put] *)
Definition client_put (self : PrivAuth) (server : SecretKey) (db : SledDatabase) (hmac_secret : bytes)
  (kvs : list (string * Value)) : SledDatabase * outcome ClientError unit :=
  match prepare_all hmac_secret (sort_kvs kvs) with
  | Ok kvs =>
      let '(db, r) := Client_put (auth self) server db kvs
                        (compute_shared_hmac (the_shared_secret self) [0x01] kvs) in
      (db, check_put_reply self hmac_secret kvs r)
  | Err e => (db, Err e)
  | Panic => (db, Panic)
  end.

(** ** What is assumed of the crates

    A hash has 32 bytes, a public key has 33 and is read back, the shared
    secret is the same on both sides, and the hexadecimal encoding is injective
    and has two characters per byte. *)

(** A secret of 32 bytes. *)
Definition good_secret (secret : bytes) : Prop :=
  length secret = 32%nat /\ Forall ByteUtils.is_byte secret.

Class LssLaws : Prop := {
  law_mac k m : length (hmac_sha256 k m) = 32%nat;
  law_sha m : length (sha256 m) = 32%nat /\ Forall ByteUtils.is_byte (sha256 m);
  law_ecdh k k' : good_secret k -> good_secret k' ->
    shared_secret (pubkey_from_secret_key k) k' = shared_secret (pubkey_from_secret_key k') k;
  law_pubkey k : good_secret k -> length (pubkey_from_secret_key k) = 33%nat
    /\ Forall ByteUtils.is_byte (pubkey_from_secret_key k)
    /\ pubkey_from_slice (pubkey_from_secret_key k) = Some (pubkey_from_secret_key k);
  law_hex_length b : String.length (hex_encode b) = (2 * length b)%nat;
  law_hex_inj b b' : Forall ByteUtils.is_byte b -> Forall ByteUtils.is_byte b' ->
    hex_encode b = hex_encode b' -> b = b'
}.
Context `{LL : !LssLaws}.

(** ** Values *)

(** The cipher takes values up to 256 GiB. *)
Definition small (v : Value) : Prop := Z.of_nat (length (value v)) + 32 <= 64 * (2 ^ 32 - 1).

(** Encryption is its own inverse. *)
Lemma crypt_crypt secret key ver msg : good_secret secret ->
  Z.of_nat (length msg) <= 64 * (2 ^ 32 - 1) -> exists enc,
    (forall E, crypt_value (E := E) secret key ver msg = Ok enc)
    /\ forall E, crypt_value (E := E) secret key ver enc = Ok msg.
Proof.
  intros [Hl Hb] Hm. unfold crypt_value.
  destruct (law_sha (as_bytes key ++ be_bytes ver)) as [Hh Hhb]. set (nonce := take 12 _).
  assert (Hn : length nonce = 12%nat) by (unfold nonce; rewrite length_take; lia).
  assert (Hkn : Forall ByteUtils.is_byte (secret ++ nonce))
    by (apply Forall_app; split; [done|by apply Forall_take]).
  pose proof (fun E => ChaCha.process_rfc (E := E) secret nonce msg Hl (or_intror Hn) Hkn Hm) as Hp.
  set (enc := zip_with _ _ _) in *. exists enc. split.
  - intros E. destruct (Hp E) as (self & Hn' & (self' & Hr) & _). rewrite Hn', Ok_bind. by rewrite Hr.
  - intros E. destruct (Hp E) as (self & Hn' & _ & (self' & Hr) & _). rewrite Hn', Ok_bind. by rewrite Hr.
Qed.

(** What is stored for a value can be read back. *)
Lemma prepare_process secret key v : good_secret secret -> small v ->
  exists w, (forall E, prepare_value_for_put (E := E) secret key v = Ok w) /\ version w = version v
    /\ process_value_from_get secret key w = Ok v.
Proof.
  intros Hg Hs. set (msg := append_hmac_to_value secret key (version v) (value v)).
  assert (Hm : length msg = (length (value v) + 32)%nat)
    by (unfold msg, append_hmac_to_value, compute_hmac; by rewrite length_app, law_mac).
  destruct (crypt_crypt secret key (version v) msg Hg) as (enc & He & Hd);
    [unfold small in Hs; lia|].
  exists {| version := version v; value := enc |}. split; [|split; [done|]].
  - intros E. unfold prepare_value_for_put. fold msg. by rewrite He.
  - unfold process_value_from_get. cbn [version value]. rewrite Hd, Ok_bind.
    unfold remove_and_check_hmac. rewrite Hm. replace (_ <? 32)%nat with false
      by (symmetry; apply Nat.ltb_ge; lia).
    unfold msg, append_hmac_to_value. rewrite Nat.add_sub, take_app_length, drop_app_length.
    rewrite bool_decide_true by done. by destruct v.
Qed.

(** ** Keys *)

Lemma append_eq (a b x y : string) : String.length a = String.length b -> a +:+ x = b +:+ y ->
  a = b /\ x = y.
Proof.
  revert b. induction a as [|c a IH]; intros [|c' b] Hl Heq; try done. cbn in *.
  injection Hl as Hl. injection Heq as -> Heq. destruct (IH b Hl Heq) as [-> ->]. done.
Qed.

(** The id of a client. *)
Definition is_id (cid : bytes) : Prop := length cid = 33%nat /\ Forall ByteUtils.is_byte cid.

Lemma full_key_inj cid cid' k k' : is_id cid -> is_id cid' ->
  full_key cid k = full_key cid' k' -> cid = cid' /\ k = k'.
Proof.
  intros [Hl Hb] [Hl' Hb'] Heq. unfold full_key in Heq.
  apply append_eq in Heq as [He Hk]; [|rewrite !law_hex_length; lia].
  split; [by apply law_hex_inj|]. by injection Hk.
Qed.

(** ** The contents of the database for a client *)

(** Under [secret], [db] holds the values [plain] for the client [cid]. *)
Definition holds (secret cid : bytes) (db : SledDatabase) (plain : gmap string Value) : Prop :=
  forall k, match plain !! k with
    | None => db !! full_key cid k = None
    | Some v => small v /\ version v + 1 < 2 ^ 63 /\ exists w,
        (forall E, prepare_value_for_put (E := E) secret k v = Ok w) /\ db !! full_key cid k = Some w
    end.

Definition next_version (plain : gmap string Value) (k : string) : Z :=
  match plain !! k with Some v => version v + 1 | None => 0 end.

Lemma prepared_version {E} secret k v w : prepare_value_for_put (E := E) secret k v = Ok w ->
  version w = version v.
Proof. intros Hp. unfold prepare_value_for_put in Hp. by inv_ok Hp. Qed.

Lemma conflict_spec secret cid db plain kv : holds secret cid db plain ->
  conflict db cid kv = Ok (if version kv.2 =? next_version plain kv.1 then None
                           else Some (kv.1, db !! full_key cid kv.1)).
Proof.
  intros Hh. specialize (Hh kv.1). unfold conflict, next_version.
  destruct (plain !! kv.1) as [v|].
  - destruct Hh as (_ & Hv & w & Hw & ->). rewrite (prepared_version (E := unit) _ _ _ _ (Hw unit)).
    unfold next_i64. replace (version v + 1 <? 2 ^ 63) with true by (symmetry; by apply Z.ltb_lt).
    done.
  - by rewrite Hh.
Qed.

(** The conflicting keys, with what is stored for them, when [nv] is the next
    version of each key. *)
Definition conflicting (nv : string -> Z) (db : SledDatabase) (cid : bytes)
  (kv : string * Value) : option (string * option Value) :=
  if version kv.2 =? nv kv.1 then None else Some (kv.1, db !! full_key cid kv.1).
Definition stale (plain : gmap string Value) : SledDatabase -> bytes -> string * Value ->
  option (string * option Value) := conflicting (next_version plain).

Lemma conflicts_fold nv cid db kvs acc :
  (forall kv, conflict db cid kv = Ok (conflicting nv db cid kv)) ->
  foldM (fun conflicts kv => c ← conflict db cid kv; Ok (conflicts ++ option_list c)) acc kvs
  = Ok (acc ++ omap (conflicting nv db cid) kvs).
Proof.
  intros Hc. revert acc. induction kvs as [|kv kvs IH]; intros acc; cbn [foldM omap list_omap].
  - by rewrite app_nil_r.
  - rewrite Hc, !Ok_bind, IH. destruct (conflicting nv db cid kv) as [c|]; cbn [option_list];
      [by rewrite <- app_assoc|by rewrite app_nil_r].
Qed.

(** The put writes everything or nothing. *)
Lemma db_put_fold nv cid db kvs : (forall kv, conflict db cid kv = Ok (conflicting nv db cid kv)) ->
  db_put db cid kvs =
  match omap (conflicting nv db cid) kvs with
  | [] => (foldl (fun db kv => <[full_key cid kv.1 := kv.2]> db) db kvs, Ok tt)
  | conflicts => (db, Err (Conflict conflicts))
  end.
Proof.
  intros Hc. unfold db_put. rewrite (conflicts_fold _ _ _ _ _ Hc). cbn [app]. by destruct (omap _ kvs).
Qed.

(** A put is all or nothing. *)
Lemma db_put_spec secret cid db plain kvs : holds secret cid db plain ->
  db_put db cid kvs =
  match omap (stale plain db cid) kvs with
  | [] => (foldl (fun db kv => <[full_key cid kv.1 := kv.2]> db) db kvs, Ok tt)
  | conflicts => (db, Err (Conflict conflicts))
  end.
Proof. intros Hh. apply db_put_fold. intros kv. by apply (conflict_spec secret). Qed.

Lemma put_lookup cid cid' kvs (db : SledDatabase) k : is_id cid -> is_id cid' -> NoDup kvs.*1 ->
  foldl (fun db kv => <[full_key cid kv.1 := kv.2]> db) db kvs !! full_key cid' k
  = if decide (cid = cid') then match (list_to_map kvs : gmap string Value) !! k with
                                | Some w => Some w | None => db !! full_key cid' k end
    else db !! full_key cid' k.
Proof.
  intros Hi Hi'. revert db. induction kvs as [|[k0 w0] kvs IH]; intros db Hnd; cbn [foldl].
  - cbn. rewrite lookup_empty. by destruct (decide _).
  - cbn [fmap list_fmap fst] in Hnd. apply NoDup_cons in Hnd as [Hk0 Hnd].
    rewrite IH by done. cbn [list_to_map foldr fst snd]. destruct (decide (cid = cid')) as [->|Hne].
    + destruct (decide (k0 = k)) as [<-|Hk].
      * rewrite lookup_insert_eq. change (foldr _ ∅ kvs) with (list_to_map kvs : gmap string Value).
        rewrite (not_elem_of_list_to_map_1 kvs k0) by done. by rewrite lookup_insert_eq.
      * rewrite (lookup_insert_ne db), (lookup_insert_ne _ k0 k) by
          (done || (intros Heq; apply Hk; by destruct (full_key_inj cid' cid' k0 k Hi' Hi' Heq))).
        done.
    + rewrite lookup_insert_ne; [done|]. intros Heq. apply Hne.
      by destruct (full_key_inj cid cid' k0 k Hi Hi' Heq).
Qed.

(** ** Requests *)

Lemma insert_by_key_perm kv l : insert_by_key kv l ≡ₚ kv :: l.
Proof.
  induction l as [|kv' l IH]; [done|]. cbn. destruct (lt_ _ _); [|done].
  rewrite IH. apply perm_swap.
Qed.

Lemma sort_kvs_perm kvs : sort_kvs kvs ≡ₚ kvs.
Proof. induction kvs as [|kv kvs IH]; [done|]. cbn. by rewrite insert_by_key_perm, IH. Qed.

Lemma lt_asym (a b : string) : lt_ a b = true -> lt_ b a = false.
Proof.
  unfold lt_. destruct (cmp a b) eqn:Hc; try done. intros _.
  by apply cmp_gt_lt in Hc; rewrite Hc.
Qed.

Lemma windows_insert kv l : windows_sorted l.*1 = true -> windows_sorted (insert_by_key kv l).*1 = true.
Proof.
  induction l as [|kv' l IH]; [done|]. intros Hs. cbn [insert_by_key].
  destruct (lt_ kv'.1 kv.1) eqn:Hlt.
  - assert (Hl : windows_sorted l.*1 = true).
    { destruct l; [done|]. cbn in Hs. by apply andb_prop in Hs as [_ Hs]. }
    specialize (IH Hl). destruct l as [|kv2 l]; cbn [insert_by_key fmap list_fmap windows_sorted] in *.
    + by rewrite (lt_asym _ _ Hlt).
    + apply andb_prop in Hs as [Hs _]. destruct (lt_ kv2.1 kv.1) eqn:Hlt2; cbn [fmap list_fmap] in *.
      * cbn [windows_sorted]. rewrite Hs. exact IH.
      * cbn [windows_sorted]. rewrite (lt_asym _ _ Hlt). exact IH.
  - cbn [fmap list_fmap windows_sorted] in *. rewrite Hlt. exact Hs.
Qed.

Lemma sort_kvs_sorted kvs : windows_sorted (sort_kvs kvs).*1 = true.
Proof. induction kvs as [|kv kvs IH]; [done|]. by apply windows_insert. Qed.

(** Every value is prepared. *)
Definition prepared secret (kv kw : string * Value) : Prop :=
  kw.1 = kv.1 /\ forall E, prepare_value_for_put (E := E) secret kv.1 kv.2 = Ok kw.2.

Lemma prepare_all_spec secret kvs : good_secret secret -> Forall (fun kv => small kv.2) kvs ->
  exists kws, (forall E, prepare_all (E := E) secret kvs = Ok kws) /\ Forall2 (prepared secret) kvs kws.
Proof.
  intros Hg Hs.
  assert (Hall : exists kws, Forall2 (prepared secret) kvs kws).
  { induction Hs as [|kv kvs Hkv _ [kws IH]]; [by exists []|].
    destruct (prepare_process secret kv.1 kv.2 Hg Hkv) as (w & Hw & _).
    exists ((kv.1, w) :: kws). constructor; [|done]. by split. }
  destruct Hall as [kws Hall]. exists kws. split; [|done]. intros E. unfold prepare_all.
  rewrite (foldM_collect _ kvs [] kws); [done|]. eapply Forall2_impl; [exact Hall|].
  intros kv [k w] [Hk Hw]. cbn in Hk. subst k. unfold prepare_kv. by rewrite Hw.
Qed.

Section client.
Context (client_key server_key : SecretKey).
Context (Hclient : good_secret client_key) (Hserver : good_secret server_key).

Definition the_client : PrivAuth := new_for_client client_key (pubkey_from_secret_key server_key).
Definition the_client_id : bytes := pubkey_from_secret_key client_key.

Lemma pubkey_is_id k : good_secret k -> is_id (pubkey_from_secret_key k).
Proof. intros Hk. by destruct (law_pubkey k Hk) as (Hl & Hb & _). Qed.

Lemma check_auth_client :
  exists a, check_auth server_key (auth the_client) = Ok a
    /\ the_shared_secret a = the_shared_secret the_client.
Proof.
  unfold check_auth, the_client, new_for_client, auth. cbn [client_id priv_client_id token].
  destruct (law_pubkey client_key Hclient) as (_ & _ & ->). cbn [ok_or]. rewrite Ok_bind.
  unfold auth_token. cbn [the_shared_secret new_for_server].
  rewrite (law_ecdh client_key server_key) by done.
  rewrite bool_decide_true by done. eexists. split; [done|]. cbn. by rewrite law_ecdh.
Qed.

(** The server runs the client's request on the database. *)
Lemma server_put_client db kws : windows_sorted kws.*1 = true ->
  server_put server_key db {| put_auth := Some (auth the_client); put_kvs := kws;
    put_hmac := compute_shared_hmac (the_shared_secret the_client) [0x01] kws |}
  = match db_put db the_client_id kws with
    | (db, Ok _) => (db, Ok {| success := true; conflicts := [];
                       reply_hmac := compute_shared_hmac (the_shared_secret the_client) [0x02] kws |})
    | (db, Err (Conflict conflicts)) =>
        (db, Ok {| success := false; reply_hmac := []; conflicts := conflict_into <$> conflicts |})
    | (db, Panic) => (db, Panic)
    end.
Proof.
  intros Hs. destruct check_auth_client as (a & Ha & Hsh). unfold server_put.
  cbn [put_auth put_kvs put_hmac ok_or]. rewrite Ok_bind, Hs, Ok_bind, Ha, Ok_bind, Hsh.
  rewrite bool_decide_true by done. cbn. by rewrite Hsh.
Qed.

Lemma Client_get_eval db prefix nonce :
  Client_get (auth the_client) server_key db prefix nonce
  = let kvs := db_get_with_prefix db the_client_id prefix in
    Ok (kvs, compute_shared_hmac (the_shared_secret the_client) nonce kvs).
Proof.
  destruct check_auth_client as (a & Ha & Hsh). unfold Client_get, server_get.
  cbn [get_auth ok_or key_prefix get_nonce]. rewrite Ok_bind, Ha, Ok_bind, Hsh. cbn [map_err].
  by rewrite Ok_bind.
Qed.

(** ** Putting *)

Section put.
Context (secret : bytes) (db : SledDatabase) (plain : gmap string Value).
Context (Hsecret : good_secret secret) (Hholds : holds secret the_client_id db plain).

(** A request of the client, evaluated. *)
Lemma client_put_eval kvs : Forall (fun kv => small kv.2) kvs ->
  exists kws, Forall2 (prepared secret) (sort_kvs kvs) kws
    /\ client_put the_client server_key db secret kvs
       = match omap (stale plain db the_client_id) kws with
         | [] => (foldl (fun db kv => <[full_key the_client_id kv.1 := kv.2]> db) db kws, Ok tt)
         | cs => (db, cs ← remove_and_check_hmacs secret (conflict_into <$> cs); Err (PutConflict cs))
         end.
Proof.
  intros Hs. destruct (prepare_all_spec secret (sort_kvs kvs) Hsecret) as (kws & Hp & Hall).
  { by rewrite sort_kvs_perm. }
  exists kws. split; [done|]. unfold client_put, Client_put. rewrite Hp.
  assert (Hk : kws.*1 = (sort_kvs kvs).*1).
  { clear Hp. induction Hall as [|kv kw l l' [Hk _] _ IH]; [done|]. cbn. by rewrite Hk, IH. }
  rewrite server_put_client by (rewrite Hk; apply sort_kvs_sorted).
  rewrite (db_put_spec secret _ _ plain) by done.
  destruct (omap _ kws) as [|c cs]; [|done]. cbn [map_err]. rewrite Ok_bind.
  unfold check_put_reply. cbn [success reply_hmac]. by rewrite bool_decide_true.
Qed.

(** The stored value under a stale key, decoded. *)
Definition current (kv : string * Value) : option (string * Value) :=
  if version kv.2 =? next_version plain kv.1 then None else (kv.1,.) <$> plain !! kv.1.

Lemma stale_prepared kv kw : prepared secret kv kw ->
  stale plain db the_client_id kw
  = if version kv.2 =? next_version plain kv.1 then None
    else Some (kv.1, db !! full_key the_client_id kv.1).
Proof. intros [Hk Hw]. unfold stale, conflicting. by rewrite Hk, (prepared_version _ _ _ _ (Hw unit)). Qed.

Lemma process_stored k v : plain !! k = Some v -> exists w,
  db !! full_key the_client_id k = Some w /\ process_value_from_get secret k w = Ok v.
Proof.
  intros Hv. specialize (Hholds k). rewrite Hv in Hholds. destruct Hholds as (Hs & _ & w & Hw & Hd).
  exists w. split; [done|]. destruct (prepare_process secret k v Hsecret Hs) as (w' & Hw' & _ & Hp).
  specialize (Hw unit). rewrite Hw' in Hw. injection Hw as <-. done.
Qed.

Lemma conflicts_decoded l kws : Forall2 (prepared secret) l kws ->
  Forall (fun kv => version kv.2 <> next_version plain kv.1 -> is_Some (plain !! kv.1)) l ->
  remove_and_check_hmacs secret (conflict_into <$> omap (stale plain db the_client_id) kws)
  = Ok (omap current l).
Proof.
  intros Hall Hex. unfold remove_and_check_hmacs.
  rewrite (foldM_collect _ _ [] (omap current l)); [done|].
  induction Hall as [|kv kw l kws Hkv Hall IH]; [constructor|]. apply Forall_cons in Hex as [He Hex].
  cbn [omap list_omap]. rewrite (stale_prepared kv kw Hkv). unfold current at 1.
  destruct (Z.eqb_spec (version kv.2) (next_version plain kv.1)) as [|Hne]; [by apply IH|].
  destruct (He Hne) as [v Hv]. rewrite Hv. destruct (process_stored kv.1 v Hv) as (w & -> & Hp).
  cbn [fmap list_fmap option_fmap option_map]. constructor; [|by apply IH].
  unfold remove_and_check_kv, conflict_into. cbn [fst snd fmap option_fmap option_map default].
  destruct w as [wv wb]. cbn in Hp |- *. by rewrite Hp.
Qed.

Lemma prepared_keys l kws : Forall2 (prepared secret) l kws -> kws.*1 = l.*1.
Proof. induction 1 as [|kv kw l l' [Hk _] _ IH]; [done|]. cbn. by rewrite Hk, IH. Qed.

Lemma prepared_lookup l kws k v : Forall2 (prepared secret) l kws -> NoDup l.*1 ->
  (list_to_map l : gmap string Value) !! k = Some v -> exists w,
  (list_to_map kws : gmap string Value) !! k = Some w
  /\ forall E, prepare_value_for_put (E := E) secret k v = Ok w.
Proof.
  intros Hall Hnd Hl%elem_of_list_to_map_2. apply list_elem_of_lookup in Hl as [i Hi].
  destruct (Forall2_lookup_l _ _ _ _ _ Hall Hi) as ([k' w] & Hw & [Hk Hp]). cbn in Hk, Hp. subst k'.
  exists w. split; [|done]. apply elem_of_list_to_map_1.
  - by rewrite (prepared_keys _ _ Hall).
  - by eapply list_elem_of_lookup_2.
Qed.

Lemma fresh_versions l kws : Forall2 (prepared secret) l kws ->
  Forall (fun kv => version kv.2 = next_version plain kv.1) l ->
  omap (stale plain db the_client_id) kws = [].
Proof.
  induction 1 as [|kv kw l kws Hkv _ IH]; intros Hv; [done|]. apply Forall_cons in Hv as [Hv Hvs].
  cbn [omap list_omap]. rewrite (stale_prepared kv kw Hkv), Hv, Z.eqb_refl. by apply IH.
Qed.

Lemma stale_versions l kws : Forall2 (prepared secret) l kws ->
  Exists (fun kv => version kv.2 <> next_version plain kv.1) l ->
  omap (stale plain db the_client_id) kws <> [].
Proof.
  induction 1 as [|kv kw l kws Hkv _ IH]; intros Hv; [by apply Exists_nil in Hv|].
  cbn [omap list_omap]. rewrite (stale_prepared kv kw Hkv).
  destruct (Z.eqb_spec (version kv.2) (next_version plain kv.1)) as [He|He]; [|done].
  apply Exists_cons in Hv as [Hv|Hv]; [done|by apply IH].
Qed.

(** After a put the client's values are replaced, the others are as before. *)
Lemma put_holds kvs kws db' : NoDup kvs.*1 ->
  Forall (fun kv => small kv.2 /\ version kv.2 + 1 < 2 ^ 63) kvs ->
  Forall2 (prepared secret) (sort_kvs kvs) kws ->
  db' = foldl (fun db kv => <[full_key the_client_id kv.1 := kv.2]> db) db kws ->
  holds secret the_client_id db' (list_to_map kvs ∪ plain)
  /\ forall key' secret' plain', good_secret key' -> pubkey_from_secret_key key' <> the_client_id ->
     holds secret' (pubkey_from_secret_key key') db plain' ->
     holds secret' (pubkey_from_secret_key key') db' plain'.
Proof.
  intros Hnd Hsm Hall ->. assert (Hnd1 : NoDup (sort_kvs kvs).*1)
    by (by rewrite sort_kvs_perm).
  assert (Hnd' : NoDup kws.*1) by (by rewrite (prepared_keys _ _ Hall)).
  assert (Hmap : (list_to_map (sort_kvs kvs) : gmap string Value) = list_to_map kvs)
    by (apply list_to_map_proper; [done|apply sort_kvs_perm]).
  split.
  - intros k. rewrite put_lookup, decide_True by (done || by apply pubkey_is_id). rewrite lookup_union.
    destruct ((list_to_map kvs : gmap string Value) !! k) as [v|] eqn:Hk.
    + rewrite <- Hmap in Hk. destruct (prepared_lookup _ _ _ _ Hall Hnd1 Hk) as (w & -> & Hw).
      rewrite union_Some_l. rewrite Hmap in Hk. apply elem_of_list_to_map_2 in Hk.
      rewrite Forall_forall in Hsm. destruct (Hsm _ Hk) as [Hs Hv]. eauto.
    + rewrite (left_id_L None _). assert (Hn : (list_to_map kws : gmap string Value) !! k = None).
      { apply not_elem_of_list_to_map_1. rewrite (prepared_keys _ _ Hall), sort_kvs_perm.
        by apply not_elem_of_list_to_map_2. }
      rewrite Hn. apply Hholds.
  - intros key' secret' plain' Hk' Hne Hh k. rewrite put_lookup by (done || by apply pubkey_is_id).
    rewrite decide_False by done. apply Hh.
Qed.

(** C33: the storage server is a store with optimistic versions, end to end.
    An authenticated client that puts values with the next version of each key
    succeeds: afterwards the database holds these values for it, and what it
    holds for every other client is as before.  When some version is not the
    next one, nothing at all is written, and the client gets the current
    values of the stale keys, decrypted and with their HMACs checked (for keys
    that exist). *)
Theorem lss_put_all_or_nothing kvs (Hsmall : Forall (fun kv => small kv.2 /\ version kv.2 + 1 < 2 ^ 63) kvs)
  (Hkeys : NoDup kvs.*1) :
  (Forall (fun kv => version kv.2 = next_version plain kv.1) kvs ->
     exists db', client_put the_client server_key db secret kvs = (db', Ok tt)
     /\ holds secret the_client_id db' (list_to_map kvs ∪ plain)
     /\ forall key' secret' plain', good_secret key' -> pubkey_from_secret_key key' <> the_client_id ->
        holds secret' (pubkey_from_secret_key key') db plain' ->
        holds secret' (pubkey_from_secret_key key') db' plain')
  /\ (Exists (fun kv => version kv.2 <> next_version plain kv.1) kvs ->
      Forall (fun kv => version kv.2 <> next_version plain kv.1 -> is_Some (plain !! kv.1)) kvs ->
      client_put the_client server_key db secret kvs
      = (db, Err (PutConflict (omap current (sort_kvs kvs))))).
Proof.
  destruct (client_put_eval kvs) as (kws & Hall & Hput).
  { eapply Forall_impl; [exact Hsmall|]. by intros kv []. }
  rewrite Hput. split.
  - intros Hv. rewrite (fresh_versions _ _ Hall) by (by rewrite sort_kvs_perm).
    eexists. split; [done|]. by eapply put_holds.
  - intros Hex Hsome. pose proof (stale_versions _ _ Hall) as Hst.
    pose proof (conflicts_decoded _ _ Hall ltac:(by rewrite sort_kvs_perm)) as Hdec.
    rewrite sort_kvs_perm in Hst. destruct (omap _ kws) as [|c cs]; [by destruct Hst|].
    by rewrite Hdec.
Qed.

(** A missing value has no valid HMAC. *)
Lemma process_missing k : process_value_from_get secret k {| version := -1; value := [] |} = Err tt.
Proof.
  destruct (crypt_crypt secret k (-1) [] Hsecret) as (enc & He & _); [cbn; lia|].
  unfold process_value_from_get. cbn [version value].
  assert (enc = []) as ->.
  { specialize (He unit). unfold crypt_value in He. inv_ok He. destruct x0 as [c' v].
    injection He as ->. by injection Hx0. }
  by rewrite He.
Qed.

(** A conflict on a key that does not exist is not reported as a conflict.
    When a put has a stale version for a key the server does not have, the
    database is unchanged, but the client fails with [InvalidHmac] for the
    version -1 the server sent in place of a value, and not with the
    conflicts. *)
Theorem lss_missing_key_conflict k v (Hsmall : small v) (Hver : version v <> 0)
  (Hmissing : plain !! k = None) :
  client_put the_client server_key db secret [(k, v)] = (db, Err (InvalidHmac k (-1))).
Proof.
  destruct (client_put_eval [(k, v)]) as (kws & Hall & ->); [by repeat constructor|].
  inversion Hall as [|kv kw l l' Hkv Hnil]; subst. inversion Hnil; subst. cbn [omap list_omap].
  rewrite (stale_prepared (k, v) kw Hkv). cbn [fst snd]. unfold next_version. rewrite Hmissing.
  rewrite (proj2 (Z.eqb_neq (version v) 0)) by done.
  pose proof (Hholds k) as Hk. rewrite Hmissing in Hk. rewrite Hk. cbn.
  unfold remove_and_check_kv. cbn [fst snd version]. by rewrite process_missing.
Qed.
End put.

(** ** Getting *)

Lemma append_cons c (p r : string) : String c p +:+ r = String c (p +:+ r).
Proof. reflexivity. Qed.

Lemma prefix_append p r : String.prefix p (p +:+ r) = true.
Proof.
  induction p as [|c p IH]; [by destruct r|]. rewrite append_cons. cbn.
  destruct (Ascii.ascii_dec c c); congruence.
Qed.

Lemma prefix_split p x : String.prefix p x = true -> exists r, x = p +:+ r.
Proof.
  revert x. induction p as [|c p IH]; intros x Hp; [by exists x|].
  destruct x as [|c' x]; [done|]. cbn in Hp. destruct (Ascii.ascii_dec c c') as [<-|]; [|done].
  destruct (IH x Hp) as [r ->]. by exists r.
Qed.

Lemma append_assoc (a b c : string) : (a +:+ b) +:+ c = a +:+ (b +:+ c).
Proof. induction a as [|x a IH]; [done|]. by rewrite !append_cons, IH. Qed.

Lemma substring_append p r n : String.length p = n ->
  String.substring n (String.length (p +:+ r) - n) (p +:+ r) = r.
Proof.
  intros <-. induction p as [|c p IH]; cbn.
  - change (EmptyString +:+ r) with r. rewrite Nat.sub_0_r. induction r as [|c r IHr]; [done|]. cbn. by rewrite IHr.
  - rewrite append_cons. exact IH.
Qed.

Lemma cmp_append (p a b : string) : cmp (p +:+ a) (p +:+ b) = cmp a b.
Proof.
  unfold cmp, string_Ord. induction p as [|c p IH]; [done|]. rewrite !append_cons.
  change (cmp (as_bytes (String c (p +:+ a))) (as_bytes (String c (p +:+ b)))) with
    (cmp (Z.of_N (Ascii.N_of_ascii c) :: as_bytes (p +:+ a))
         (Z.of_N (Ascii.N_of_ascii c) :: as_bytes (p +:+ b))).
  cbn. by rewrite Z.compare_refl.
Qed.

Lemma filter_sorted (Q : string -> Prop) `{!forall x, Decision (Q x)} l :
  StronglySorted le_ l -> StronglySorted le_ (base.filter Q l).
Proof.
  induction 1 as [|x l Hl IH Hx]; [constructor|]. rewrite filter_cons. destruct (decide (Q x)); [|done].
  constructor; [done|]. rewrite Forall_forall in *. intros y [_ Hy]%list_elem_of_filter. by apply Hx.
Qed.

Lemma sorted_unmap (f : string -> string) l : (forall x y, cmp (f x) (f y) = cmp x y) ->
  StronglySorted le_ (f <$> l) -> StronglySorted le_ l.
Proof.
  intros Hf. induction l as [|x l IH]; intros Hs; [constructor|]. inversion Hs as [|? ? Hl Hx]; subst.
  constructor; [by apply IH|]. rewrite Forall_forall in *. intros y Hy. unfold le_. rewrite <- Hf.
  apply Hx, list_elem_of_fmap. eauto.
Qed.

Lemma cut_full_key k : String.substring (length the_client_id * 2 + 1)
    (String.length (full_key the_client_id k) - (length the_client_id * 2 + 1))
    (full_key the_client_id k) = k.
Proof.
  unfold full_key. rewrite <- append_assoc. apply substring_append.
  rewrite length_append, law_hex_length. cbn. lia.
Qed.

(** The keys the database returns for a prefix, without the client's id. *)
Lemma scanned_keys (db : SledDatabase) pre : exists ks,
  base.filter (fun key => String.prefix (full_key the_client_id pre) key = true) (sort (map_to_list db).*1)
  = full_key the_client_id <$> ks
  /\ (forall k, k ∈ ks <-> is_Some (db !! full_key the_client_id k) /\ String.prefix pre k = true)
  /\ NoDup ks /\ StronglySorted le_ ks.
Proof.
  set (K := base.filter _ _). set (cut := fun x : string => String.substring (length the_client_id * 2 + 1)
    (String.length x - (length the_client_id * 2 + 1)) x).
  assert (Hfull : forall k, full_key the_client_id k
    = (hex_encode the_client_id +:+ "/") +:+ k) by (intros k; unfold full_key; by rewrite append_assoc).
  assert (Hcut : forall k, cut (full_key the_client_id k) = k).
  { intros k. apply cut_full_key. }
  assert (Hpre : forall k, String.prefix (full_key the_client_id pre) (full_key the_client_id k)
    = String.prefix pre k).
  { intros k. rewrite !Hfull. generalize (hex_encode the_client_id +:+ "/"). intros p.
    induction p as [|c p IH]; [done|]. rewrite !append_cons. cbn.
    destruct (Ascii.ascii_dec c c); [exact IH|congruence]. }
  assert (HK : K = full_key the_client_id <$> (cut <$> K)).
  { rewrite <- list_fmap_compose. symmetry. rewrite <- (list_fmap_id K) at 2. apply list_fmap_ext.
    intros i x Hx%list_elem_of_lookup_2. apply list_elem_of_filter in Hx as [Hx _].
    apply prefix_split in Hx as [r ->]. cbn.
    assert (full_key the_client_id pre +:+ r = full_key the_client_id (pre +:+ r)) as ->
      by (unfold full_key; by rewrite !append_assoc). by rewrite Hcut. }
  assert (Hnd : NoDup K) by (apply NoDup_filter; rewrite sort_perm; apply NoDup_fst_map_to_list).
  exists (cut <$> K). split; [done|]. split; [|split].
  - intros k. transitivity (full_key the_client_id k ∈ K).
    + split.
      * intros Hk. rewrite HK. apply list_elem_of_fmap. eauto.
      * intros Hk. apply list_elem_of_fmap. exists (full_key the_client_id k). by rewrite Hcut.
    + unfold K. rewrite list_elem_of_filter, Hpre, sort_perm, list_elem_of_fmap. split.
      * intros [Hp ([k' w] & Hk & Hin%elem_of_map_to_list)]. cbn in Hk. subst k'. eauto.
      * intros [[w Hw] Hp]. split; [done|]. exists (full_key the_client_id k, w).
        by rewrite elem_of_map_to_list.
  - rewrite HK in Hnd. by apply NoDup_fmap_1 in Hnd.
  - apply (sorted_unmap (full_key the_client_id)).
    + intros x y. rewrite !Hfull. apply cmp_append.
    + rewrite <- HK. apply filter_sorted, sort_sorted.
Qed.

(** Every stored value is decoded. *)
Lemma scanned_decoded secret db plain ks : good_secret secret -> holds secret the_client_id db plain ->
  (forall k, k ∈ ks -> is_Some (db !! full_key the_client_id k)) ->
  remove_and_check_hmacs secret (omap (fun key =>
      (String.substring (length the_client_id * 2 + 1)
         (String.length key - (length the_client_id * 2 + 1)) key,.) <$> db !! key)
    (full_key the_client_id <$> ks)) = Ok (omap (fun k => (k,.) <$> plain !! k) ks)
  /\ (omap (fun k => (k,.) <$> plain !! k) ks).*1 = ks.
Proof.
  intros Hsecret Hholds Hks. unfold remove_and_check_hmacs.
  rewrite (foldM_collect _ _ [] (omap (fun k => (k,.) <$> plain !! k) ks)).
  - split; [done|]. induction ks as [|k ks IH]; [done|].
    destruct (Hks k) as [w Hw]; [by left|]. specialize (Hholds k) as Hk. cbn [omap list_omap].
    destruct (plain !! k) as [v|]; [|by rewrite Hk in Hw]. cbn [fmap list_fmap option_fmap option_map fst].
    f_equal. apply IH. intros k' Hk'. apply Hks. by right.
  - induction ks as [|k ks IH]; [constructor|].
    destruct (Hks k) as [w Hw]; [by left|]. cbn [fmap list_fmap omap list_omap].
    rewrite Hw, cut_full_key. specialize (Hholds k) as Hk.
    destruct (plain !! k) as [v|] eqn:Hv; [|by rewrite Hk in Hw]. cbn [fmap option_fmap option_map].
    destruct (process_stored secret db plain Hsecret Hholds k v Hv) as (w' & Hw' & Hp).
    rewrite Hw in Hw'. injection Hw' as <-. constructor.
    + unfold remove_and_check_kv. cbn [fst snd]. by rewrite Hp.
    + apply IH. intros k' Hk'. apply Hks. by right.
Qed.

(** C34: what was put is what one gets.  For an authenticated client whose values
    are in the database, [get] with a prefix succeeds: the answer has the
    server's HMAC, every value decrypts and has a valid HMAC, and the result is
    the list of all the client's keys with that prefix with their values, sorted
    by key. *)
Theorem lss_get_returns_values secret db plain prefix nonce (Hsecret : good_secret secret)
  (Hholds : holds secret the_client_id db plain) :
  exists l, client_get the_client server_key db secret prefix nonce = Ok l
    /\ l ≡ₚ base.filter (fun kv => String.prefix prefix kv.1 = true) (map_to_list plain)
    /\ StronglySorted le_ l.*1.
Proof.
  destruct (scanned_keys db prefix) as (ks & HK & Hks & Hnd & Hsort).
  unfold client_get. rewrite Client_get_eval, Ok_bind, bool_decide_true by done.
  unfold db_get_with_prefix. rewrite HK.
  destruct (scanned_decoded secret db plain ks Hsecret Hholds) as [-> Hkeys]; [intros k; apply Hks|].
  eexists. split; [done|]. split; [|by rewrite Hkeys]. apply NoDup_Permutation.
  - apply (NoDup_fmap_1 fst). by rewrite Hkeys.
  - apply NoDup_filter, NoDup_map_to_list.
  - intros [k v]. rewrite list_elem_of_filter, elem_of_map_to_list, list_elem_of_omap. cbn. split.
    + intros (k' & Hin & Hv). destruct (plain !! k') eqn:Hk'; [|done]. injection Hv as -> ->.
      by apply Hks in Hin as [_ Hp].
    + intros [Hp Hv]. exists k. rewrite Hv. split; [|done]. apply Hks. split; [|done].
      specialize (Hholds k). rewrite Hv in Hholds. destruct Hholds as (_ & _ & w & _ & ->). by eexists.
Qed.
End client.
End server.
End Lss.

(** ** Witnesses *)

Definition hex_digit (n : Z) : Ascii.ascii := Ascii.ascii_of_N (Z.to_N (97 + n)).

Definition example_hex : HexLib := {|
  hex_encode b := foldr (fun x s => String (hex_digit (x / 16)) (String (hex_digit (x mod 16)) s)) EmptyString b;
  hex_decode _ := None |}.

Definition example_profile : Profile := true.

#[local] Existing Instances example_lib example_crypto example_keys example_hex example_profile.

Lemma hex_digit_inj m n : 0 <= m < 16 -> 0 <= n < 16 -> hex_digit m = hex_digit n -> m = n.
Proof.
  intros Hm Hn Heq. apply (f_equal Ascii.N_of_ascii) in Heq. unfold hex_digit in Heq.
  rewrite !Ascii.N_ascii_embedding in Heq by lia. lia.
Qed.

Lemma example_lss_laws : Lss.LssLaws.
Proof.
  split.
  - intros k m. cbn. unfold example_hash. rewrite length_fmap, length_take, length_app, length_replicate. lia.
  - intros m. cbn [sha256 example_lib]. split.
    + rewrite length_take, length_app, length_replicate. lia.
    + apply Forall_take, Forall_app. split; [|by apply Forall_replicate].
      apply Forall_fmap, Forall_forall. intros x _. cbn. unfold ByteUtils.is_byte.
      apply Z.mod_pos_bound. lia.
  - intros k k' _ _. cbn. revert k'. induction k as [|x k IH]; intros [|y k']; try done. cbn.
    by rewrite IH, Z.add_comm.
  - intros k [Hl Hb]. cbn. split; [by rewrite Hl|]. split; [|done]. constructor; [by compute|done].
  - intros b. induction b as [|x b IH]; [done|]. cbn in *. rewrite IH. lia.
  - intros b b' Hb. revert b'. induction Hb as [|x b Hx Hb IH]; intros [|y b'] Hb' Heq; try done.
    apply Forall_cons in Hb' as [Hy Hb']. cbn in Heq. injection Heq as H1 H2 H3.
    unfold ByteUtils.is_byte in *.
    apply hex_digit_inj in H1; [|split; [apply Z.div_pos; lia|apply Z.div_lt_upper_bound; lia]..].
    apply hex_digit_inj in H2; [|apply Z.mod_pos_bound; lia..].
    f_equal; [|by apply IH]. rewrite (Z.div_mod x 16), (Z.div_mod y 16), H1, H2 by lia. done.
Qed.
#[local] Existing Instance example_lss_laws.

Definition example_put : list (string * Lss.Value) :=
  [("b", {| Lss.version := 0; Lss.value := [5; 6] |}); ("a", {| Lss.version := 0; Lss.value := [7] |})].

Lemma example_small : Forall (fun kv => Lss.small kv.2 /\ Lss.version kv.2 + 1 < 2 ^ 63) example_put.
Proof.
  unfold Lss.small. repeat (apply Forall_cons_2; [cbn; lia|]). apply Forall_nil_2.
Qed.

Lemma example_secret n : 0 <= n < 256 -> Lss.good_secret (replicate 32 n).
Proof. intros Hn. split; [by rewrite length_replicate|]. by apply Forall_replicate. Qed.

Lemma lss_put_all_or_nothing_witness : exists db',
  Lss.client_put (Lss.the_client (replicate 32 1) (replicate 32 2)) (replicate 32 2) ∅ (replicate 32 3)
    example_put = (db', Ok tt)
  /\ Lss.holds (replicate 32 3) (Lss.the_client_id (replicate 32 1)) db' (list_to_map example_put ∪ ∅).
Proof.
  destruct (Lss.lss_put_all_or_nothing (replicate 32 1) (replicate 32 2)
    ltac:(by apply example_secret) ltac:(by apply example_secret) (replicate 32 3) ∅ ∅
    ltac:(by apply example_secret) ltac:(by intros k) example_put
    example_small ltac:(by repeat constructor; set_solver)) as [Hok _].
  destruct Hok as (db' & Hput & Hh & _); [by repeat constructor|].
  exists db'. split; [exact Hput|exact Hh].
Defined.

(** A database with the two values. *)
Lemma example_stored : exists db,
  Lss.holds (replicate 32 3) (Lss.the_client_id (replicate 32 1)) db (list_to_map example_put ∪ ∅).
Proof.
  destruct (Lss.prepare_all_spec (replicate 32 3) (Lss.sort_kvs example_put)) as (kws & _ & Hall);
    [by apply example_secret| |].
  { rewrite Lss.sort_kvs_perm. eapply Forall_impl; [apply example_small|]. by intros kv []. }
  assert (Hempty : Lss.holds (replicate 32 3) (Lss.the_client_id (replicate 32 1)) ∅ ∅) by (by intros k).
  eexists. refine (proj1 (Lss.put_holds _ (example_secret 1 ltac:(lia)) _ _ _ Hempty example_put kws _
    _ example_small Hall eq_refl)).
  repeat constructor; set_solver.
Qed.

Lemma lss_get_returns_values_witness : exists db l,
  Lss.client_get (Lss.the_client (replicate 32 1) (replicate 32 2)) (replicate 32 2) db (replicate 32 3)
    "a" [9] = Ok l
  /\ l ≡ₚ [("a", {| Lss.version := 0; Lss.value := [7] |})].
Proof.
  destruct example_stored as [db Hdb].
  destruct (Lss.lss_get_returns_values (replicate 32 1) (replicate 32 2)
    ltac:(by apply example_secret) ltac:(by apply example_secret) (replicate 32 3) db _ "a" [9]
    ltac:(by apply example_secret) Hdb) as (l & Hget & Hl & _).
  exists db, l. split; [exact Hget|]. rewrite Hl. reflexivity.
Defined.

Lemma lss_missing_key_conflict_witness :
  Lss.client_put (Lss.the_client (replicate 32 1) (replicate 32 2)) (replicate 32 2) ∅ (replicate 32 3)
    [("a", {| Lss.version := 1; Lss.value := [7] |})] = (∅, Err (Lss.InvalidHmac "a" (-1))).
Proof.
  apply (Lss.lss_missing_key_conflict (replicate 32 1) (replicate 32 2)
    ltac:(by apply example_secret) ltac:(by apply example_secret) (replicate 32 3) ∅ ∅
    ltac:(by apply example_secret) ltac:(by intros k)); done.
Defined.
