(* ===== verification/Allowlist.v ===== *)
(** * Destinations a node may pay (vls-core/src/node.rs, [Allowable])

    Entries of the allowlist, their textual form, which is what the persister
    stores, and the sets of entries.  Addresses and keys are parsed and printed
    by the bitcoin crate, a parameter. *)

From Stdlib Require Import Ascii.
From S2P Require Import Prelude Velocity Policy Extern Crypto Keys Setup.

Notation ExtendedPubKey := (list Z).

Class AddressLib := {
  (** bitcoin::Address *)
  Address : Type;
  address_from_script : Script -> Network -> option Address;
  address_to_string : Address -> string;
  address_from_str : string -> option Address;
  address_network : Address -> Network;
  address_script_pubkey : Address -> Script;
  p2wpkh : PublicKey -> Network -> option Address;
  p2shwpkh : PublicKey -> Network -> option Address;
  p2pkh : PublicKey -> Network -> Address;
  (** hexadecimal *)
  to_hex : bytes -> string;
  pubkey_from_str : string -> option PublicKey;
  (** bitcoin::util::bip32::ExtendedPubKey *)
  xpub_to_string : ExtendedPubKey -> string;
  xpub_from_str : string -> option ExtendedPubKey;
  xpub_network : ExtendedPubKey -> Network;
  derive_pub : ExtendedPubKey -> list ChildNumber -> option PublicKey
}.

Inductive Allowable :=
| AllowScript (script : Script)
| AllowXPub (xpub : ExtendedPubKey)
| AllowPayee (pubkey : PublicKey).

#[global] Instance Allowable_eq_dec : EqDecision Allowable.
Proof. solve_decision. Defined.

#[global] Instance Allowable_countable : Countable Allowable.
Proof.
  refine (inj_countable'
    (fun a => match a with AllowScript s => (0%nat, s) | AllowXPub x => (1%nat, x)
                         | AllowPayee p => (2%nat, p) end)
    (fun p => match p.1 with O => AllowScript p.2 | S O => AllowXPub p.2
                           | _ => AllowPayee p.2 end) _).
  by intros [].
Defined.

(** [s.splitn(2, ":")]: the part before the first colon, and the rest. *)
Fixpoint split_colon (s : string) : string * option string :=
  match s with
  | EmptyString => (EmptyString, None)
  | String c s' =>
      if Ascii.eqb c ":"%char then (EmptyString, Some s')
      else let '(a, b) := split_colon s' in (String c a, b)
  end.

Section allowable.
Context `{AL : AddressLib}.

Definition to_string (self : Allowable) (network : Network) : string :=
  match self with
  | AllowScript script =>
      match address_from_script script network with
      | Some a => "address:" +:+ address_to_string a
      | None => "invalid_script:" +:+ to_hex script
      end
  | AllowPayee pubkey => "payee:" +:+ to_hex pubkey
  | AllowXPub xpub => "xpub:" +:+ xpub_to_string xpub
  end.

Definition address_on (s : string) (body : string) (network : Network) : outcome string Allowable :=
  address ← ok_or (address_from_str body) s;
  if bool_decide (address_network address <> network) then
    Err (s +:+ ": expected network {}")
  else Ok (AllowScript (address_script_pubkey address)).

Definition from_str (s : string) (network : Network) : outcome string Allowable :=
  let '(prefix, rest) := split_colon s in
  match rest with
  | Some body =>
      if String.eqb prefix "address" then address_on s body network
      else if String.eqb prefix "payee" then
        pubkey ← ok_or (pubkey_from_str body) s;
        Ok (AllowPayee pubkey)
      else if String.eqb prefix "xpub" then
        xpub ← ok_or (xpub_from_str body) s;
        if bool_decide (xpub_network xpub <> network) then
          Err (s +:+ ": expected network {}")
        else Ok (AllowXPub xpub)
      else Err s
  | None => address_on s prefix network
  end.

Definition to_script (self : Allowable) : outcome unit Script :=
  match self with AllowScript script => Ok script | _ => Err tt end.

(** The list of entries parsed from a list of strings, or the first error. *)
Definition parse_list (l : list string) (network : Network) : outcome string (list Allowable) :=
  foldM (fun acc s => a ← from_str s network; Ok (acc ++ [a])) [] l.

(** ** What a printed entry is read back as

    The assumptions are about parsing: what was parsed is printed in a form
    that is parsed again to the same thing. *)

Class AddressLaws : Prop := {
  law_address s a : address_from_str s = Some a ->
    exists a' a'', address_from_script (address_script_pubkey a) (address_network a) = Some a'
      /\ address_from_str (address_to_string a') = Some a''
      /\ address_script_pubkey a'' = address_script_pubkey a
      /\ address_network a'' = address_network a;
  law_xpub s x : xpub_from_str s = Some x -> xpub_from_str (xpub_to_string x) = Some x;
  law_payee s p : pubkey_from_str s = Some p -> pubkey_from_str (to_hex p) = Some p
}.

Context `{!AddressLaws}.

(** An entry that was accepted from a string. *)
Definition parsed (network : Network) (a : Allowable) : Prop := exists s, from_str s network = Ok a.

Lemma address_on_roundtrip s body network a : address_on s body network = Ok a ->
  exists str, to_string a network = "address:" +:+ str
    /\ forall s', address_on s' str network = Ok a.
Proof.
  unfold address_on. intros Ha. inv_ok Ha.
  case_bool_decide as Hnet; [done|]. injection Ha as <-.
  destruct (law_address _ _ Hx) as (a' & a'' & Hs & Hp & Hsc & Hn). cbn [to_string].
  rewrite <- Hnet, Hs. eexists. split; [done|]. intros s'. rewrite Hp. step. rewrite Hn, Hsc.
  rewrite bool_decide_false; [done|by intros []].
Qed.

Lemma allowable_roundtrip network a : parsed network a ->
  from_str (to_string a network) network = Ok a.
Proof.
  intros [s Hs]. unfold from_str in Hs. destruct (split_colon s) as [prefix [body|]].
  - destruct (String.eqb prefix "address").
    { destruct (address_on_roundtrip _ _ _ _ Hs) as (str & Hstr & Hr).
      unfold from_str. rewrite Hstr. apply Hr. }
    destruct (String.eqb prefix "payee").
    { inv_ok Hs. change (from_str _ _) with
        (pubkey ← ok_or (pubkey_from_str (to_hex x)) ("payee:" +:+ to_hex x);
         Ok (AllowPayee pubkey)). by rewrite (law_payee _ _ Hx). }
    destruct (String.eqb prefix "xpub"); [|done]. inv_ok Hs.
    case_bool_decide as Hn; [done|]. injection Hs as <-. change (from_str _ _) with
      (xpub ← ok_or (xpub_from_str (xpub_to_string x)) ("xpub:" +:+ xpub_to_string x);
       if bool_decide (xpub_network xpub <> network)
       then Err (("xpub:" +:+ xpub_to_string x) +:+ ": expected network {}")
       else Ok (AllowXPub xpub)).
    rewrite (law_xpub _ _ Hx). step. rewrite bool_decide_false; [done|by intros []].
  - destruct (address_on_roundtrip _ _ _ _ Hs) as (str & Hstr & Hr).
    unfold from_str. rewrite Hstr. apply Hr.
Qed.

Lemma parse_printed network (l : list Allowable) : Forall (parsed network) l ->
  forall acc, foldM (fun acc s => a ← from_str s network; Ok (acc ++ [a])) acc
                ((fun a => to_string a network) <$> l) = Ok (acc ++ l).
Proof.
  induction 1 as [|a l Ha _ IH]; intros acc; [cbn; by rewrite app_nil_r|].
  rewrite fmap_cons. cbn [foldM]. rewrite (allowable_roundtrip _ _ Ha), !Ok_bind, IH.
  by rewrite <- app_assoc.
Qed.

Lemma parse_list_parsed network l r : parse_list l network = Ok r -> Forall (parsed network) r.
Proof.
  intros Hl. unfold parse_list in Hl.
  refine (foldM_inv (fun _ (acc : list Allowable) => Forall (parsed network) acc) _ l [] r _ _ Hl);
    [constructor|].
  intros pre s acc acc' IH Hstep. inv_ok Hstep. apply Forall_app. split; [done|].
  apply Forall_singleton. by exists s.
Qed.
End allowable.
