(* ===== verification/Script.v ===== *)
(** * Parsing commitment transaction outputs

    vls-core/src/tx/script.rs (the [expect_*] functions) and the phase-1
    decoder of vls-core/src/tx/tx.rs: the output scripts of a commitment
    transaction are recognized by their template and summed up in a
    [CommitmentInfo]. *)

From S2P Require Import Prelude Policy Extern Setup.

(** ** The instruction iterator *)

(** What is left of [script.instructions()]; [None] is an unparseable opcode. *)
Notation iter := (list (option Instruction)).

(** A parsing step: consumes instructions, fails with a [ValidationError]. *)
Definition parser (A : Type) : Type := iter -> result (A * iter).

#[global] Instance parser_ret : MRet parser := fun A a it => Ok (a, it).
#[global] Instance parser_bind : MBind parser := fun A B f p it =>
  match p it with
  | Ok (a, it') => f a it'
  | Err e => Err e
  | Panic => Panic
  end.

Definition fail {A} (e : ValidationError) : parser A := fun _ => Err e.

(** ** tx/script.rs *)

Definition expect_next : parser Instruction := fun it =>
  match it with
  | [] => Err (mismatch_error "unexpected end")
  | None :: _ => Err (mismatch_error "unparseable opcode")
  | Some ins :: it' => Ok (ins, it')
  end.

Definition expect_op (op : Z) : parser unit :=
  ins ← expect_next;
  match ins with
  | Op o => if o =? op then mret tt else fail (mismatch_error "expected op {}, saw {}")
  | _ => fail (mismatch_error "expected op, saw {:?}")
  end.

Definition expect_number `{Lib} : parser Z :=
  ins ← expect_next;
  match ins with
  | Op op =>
      match push_num op with
      | Some i => mret i
      | None => fail (mismatch_error "expected PushNum, saw {:?}")
      end
  | PushBytes d =>
      match read_scriptint d with
      | Some i => mret i
      | None => fail (mismatch_error "read_scriptint failed: {:?}")
      end
  end.

Definition expect_script_end : parser unit := fun it =>
  match it with
  | [] => Ok (tt, [])
  | _ => Err (mismatch_error "expected script end, saw {:?}")
  end.

Definition expect_data : parser bytes :=
  ins ← expect_next;
  match ins with
  | PushBytes d => mret d
  | _ => fail (mismatch_error "expected data, saw {:?}")
  end.

(** Run a parser on a whole script. *)
Definition run_parser `{Lib} {A} (p : parser A) (script : Script) : result A :=
  '(a, _) ← p (instructions script); Ok a.

(** ** Output scripts (tx/tx.rs) *)

Section scripts.
Context `{L : Lib}.

Definition received_htlc_parser (is_anchors : bool)
  : parser (bytes * bytes * bytes * bytes * Z) :=
  expect_op OP_DUP;; expect_op OP_HASH160;;
  revocation_hash ← expect_data;
  expect_op OP_EQUAL;; expect_op OP_IF;; expect_op OP_CHECKSIG;; expect_op OP_ELSE;;
  remote_htlc_pubkey ← expect_data;
  expect_op OP_SWAP;; expect_op OP_SIZE;;
  thirty_two ← expect_number;
  (if negb (thirty_two =? 32) then fail (mismatch_error "expected 32, saw {}") else mret tt);;
  expect_op OP_EQUAL;; expect_op OP_IF;; expect_op OP_HASH160;;
  payment_hash_vec ← expect_data;
  expect_op OP_EQUALVERIFY;; expect_op OP_PUSHNUM_2;; expect_op OP_SWAP;;
  local_htlc_pubkey ← expect_data;
  expect_op OP_PUSHNUM_2;; expect_op OP_CHECKMULTISIG;; expect_op OP_ELSE;;
  expect_op OP_DROP;;
  cltv_expiry ← expect_number;
  expect_op OP_CLTV;; expect_op OP_DROP;; expect_op OP_CHECKSIG;; expect_op OP_ENDIF;;
  (if is_anchors then expect_op OP_PUSHNUM_1;; expect_op OP_CSV;; expect_op OP_DROP
   else mret tt);;
  expect_op OP_ENDIF;; expect_script_end;;
  mret (revocation_hash, remote_htlc_pubkey, payment_hash_vec, local_htlc_pubkey, cltv_expiry).

Definition parse_received_htlc_script (script : Script) (is_anchors : bool)
  : result (bytes * bytes * bytes * bytes * Z) :=
  run_parser (received_htlc_parser is_anchors) script.

Definition offered_htlc_parser (is_anchors : bool) : parser (bytes * bytes * bytes * bytes) :=
  expect_op OP_DUP;; expect_op OP_HASH160;;
  revocation_hash ← expect_data;
  expect_op OP_EQUAL;; expect_op OP_IF;; expect_op OP_CHECKSIG;; expect_op OP_ELSE;;
  remote_htlc_pubkey ← expect_data;
  expect_op OP_SWAP;; expect_op OP_SIZE;;
  thirty_two ← expect_number;
  (if negb (thirty_two =? 32) then fail (mismatch_error "expected 32, saw {}") else mret tt);;
  expect_op OP_EQUAL;; expect_op OP_NOTIF;; expect_op OP_DROP;; expect_op OP_PUSHNUM_2;;
  expect_op OP_SWAP;;
  local_htlc_pubkey ← expect_data;
  expect_op OP_PUSHNUM_2;; expect_op OP_CHECKMULTISIG;; expect_op OP_ELSE;;
  expect_op OP_HASH160;;
  payment_hash_vec ← expect_data;
  expect_op OP_EQUALVERIFY;; expect_op OP_CHECKSIG;; expect_op OP_ENDIF;;
  (if is_anchors then expect_op OP_PUSHNUM_1;; expect_op OP_CSV;; expect_op OP_DROP
   else mret tt);;
  expect_op OP_ENDIF;; expect_script_end;;
  mret (revocation_hash, remote_htlc_pubkey, local_htlc_pubkey, payment_hash_vec).

Definition parse_offered_htlc_script (script : Script) (is_anchors : bool)
  : result (bytes * bytes * bytes * bytes) :=
  run_parser (offered_htlc_parser is_anchors) script.

Definition revokeable_parser : parser (bytes * Z * bytes) :=
  expect_op OP_IF;;
  revocation_key ← expect_data;
  expect_op OP_ELSE;;
  contest_delay ← expect_number;
  expect_op OP_CSV;; expect_op OP_DROP;;
  delayed_pubkey ← expect_data;
  expect_op OP_ENDIF;; expect_op OP_CHECKSIG;; expect_script_end;;
  mret (revocation_key, contest_delay, delayed_pubkey).

Definition parse_revokeable_redeemscript (script : Script) (_is_anchors : bool)
  : result (bytes * Z * bytes) :=
  run_parser revokeable_parser script.

(** The method has the same body as [parse_revokeable_redeemscript]. *)
Definition parse_to_broadcaster_script (script : Script) : result (bytes * Z * bytes) :=
  run_parser revokeable_parser script.

Definition to_countersigner_delayed_parser : parser bytes :=
  pubkey_data ← expect_data;
  expect_op OP_CHECKSIGVERIFY;; expect_op OP_PUSHNUM_1;; expect_op OP_CSV;;
  expect_script_end;;
  mret pubkey_data.

Definition parse_to_countersigner_delayed_script (script : Script) : result bytes :=
  run_parser to_countersigner_delayed_parser script.

Definition anchor_parser : parser bytes :=
  to_pubkey_data ← expect_data;
  expect_op OP_CHECKSIG;; expect_op OP_IFDUP;; expect_op OP_NOTIF;;
  expect_op OP_PUSHNUM_16;; expect_op OP_CSV;; expect_op OP_ENDIF;;
  expect_script_end;;
  mret to_pubkey_data.

Definition parse_anchor_script (script : Script) : result bytes :=
  run_parser anchor_parser script.
End scripts.

(** ** [CommitmentInfo] *)

Definition MAX_DELAY : Z := 2016.
Definition ANCHOR_SAT : Z := 330.

Record HTLCInfo := {
  p1_value_sat : Z;
  payment_hash_hash : bytes;
  p1_cltv_expiry : Z
}.

Record CommitmentInfo := {
  ci_is_counterparty_broadcaster : bool;
  ci_to_countersigner_address : option bytes;
  ci_to_countersigner_pubkey : option PublicKey;
  ci_to_countersigner_value_sat : Z;
  ci_to_countersigner_anchor_count : Z;
  ci_revocation_pubkey : option PublicKey;
  ci_to_broadcaster_delayed_pubkey : option PublicKey;
  ci_to_broadcaster_value_sat : Z;
  ci_to_self_delay : Z;
  ci_to_broadcaster_anchor_count : Z;
  ci_offered_htlcs : list HTLCInfo;
  ci_received_htlcs : list HTLCInfo
}.

Definition CommitmentInfo_new (is_counterparty_broadcaster : bool) : CommitmentInfo := {|
  ci_is_counterparty_broadcaster := is_counterparty_broadcaster;
  ci_to_countersigner_address := None;
  ci_to_countersigner_pubkey := None;
  ci_to_countersigner_value_sat := 0;
  ci_to_countersigner_anchor_count := 0;
  ci_revocation_pubkey := None;
  ci_to_broadcaster_delayed_pubkey := None;
  ci_to_broadcaster_value_sat := 0;
  ci_to_self_delay := 0;
  ci_to_broadcaster_anchor_count := 0;
  ci_offered_htlcs := [];
  ci_received_htlcs := []
|}.

Definition has_to_broadcaster (self : CommitmentInfo) : bool :=
  bool_decide (is_Some (ci_to_broadcaster_delayed_pubkey self)).

Definition has_to_countersigner (self : CommitmentInfo) : bool :=
  bool_decide (is_Some (ci_to_countersigner_address self))
  || bool_decide (is_Some (ci_to_countersigner_pubkey self)).

Definition to_broadcaster_anchor_value_sat (self : CommitmentInfo) : Z :=
  if ci_to_broadcaster_anchor_count self =? 1 then ANCHOR_SAT else 0.

Definition to_countersigner_anchor_value_sat (self : CommitmentInfo) : Z :=
  if ci_to_countersigner_anchor_count self =? 1 then ANCHOR_SAT else 0.

(** The handlers below update a [CommitmentInfo] that the caller owns and drops
    when one of them fails, so a failure carries no state. *)

Section handlers.
Context `{L : Lib, Prof : Profile}.

Definition parse_pubkey (d : bytes) (msg : string) : result PublicKey :=
  ok_or (pubkey_from_slice d) (mismatch_error msg).

Definition handle_to_broadcaster_output (self : CommitmentInfo) (out : TxOut)
  (vals : bytes * Z * bytes) : result CommitmentInfo :=
  let '(revocation_pubkey, delay, delayed_pubkey) := vals in
  whenb (has_to_broadcaster self)
    (Err (transaction_format_error "more than one to_broadcaster output"));;
  whenb (delay <? 0) (Err (script_format_error "negative delay"));;
  whenb (MAX_DELAY <? delay) (Err (script_format_error "delay too large: {} > {}"));;
  delayed ← parse_pubkey delayed_pubkey "delayed_pubkey malformed: {}";
  revocation ← parse_pubkey revocation_pubkey "revocation_pubkey malformed: {}";
  Ok {|
    ci_is_counterparty_broadcaster := ci_is_counterparty_broadcaster self;
    ci_to_countersigner_address := ci_to_countersigner_address self;
    ci_to_countersigner_pubkey := ci_to_countersigner_pubkey self;
    ci_to_countersigner_value_sat := ci_to_countersigner_value_sat self;
    ci_to_countersigner_anchor_count := ci_to_countersigner_anchor_count self;
    ci_revocation_pubkey := Some revocation;
    ci_to_broadcaster_delayed_pubkey := Some delayed;
    ci_to_broadcaster_value_sat := out_value out;
    ci_to_self_delay := as_u 16 delay;
    ci_to_broadcaster_anchor_count := ci_to_broadcaster_anchor_count self;
    ci_offered_htlcs := ci_offered_htlcs self;
    ci_received_htlcs := ci_received_htlcs self
  |}.

(** Replace the countersigner's output. *)
Definition set_to_countersigner (self : CommitmentInfo) (address : option bytes)
  (pubkey : option PublicKey) (value : Z) : CommitmentInfo := {|
    ci_is_counterparty_broadcaster := ci_is_counterparty_broadcaster self;
    ci_to_countersigner_address := address;
    ci_to_countersigner_pubkey := pubkey;
    ci_to_countersigner_value_sat := value;
    ci_to_countersigner_anchor_count := ci_to_countersigner_anchor_count self;
    ci_revocation_pubkey := ci_revocation_pubkey self;
    ci_to_broadcaster_delayed_pubkey := ci_to_broadcaster_delayed_pubkey self;
    ci_to_broadcaster_value_sat := ci_to_broadcaster_value_sat self;
    ci_to_self_delay := ci_to_self_delay self;
    ci_to_broadcaster_anchor_count := ci_to_broadcaster_anchor_count self;
    ci_offered_htlcs := ci_offered_htlcs self;
    ci_received_htlcs := ci_received_htlcs self
  |}.

Definition handle_to_countersigner_delayed_output (self : CommitmentInfo) (out : TxOut)
  (pubkey_data : bytes) : result CommitmentInfo :=
  whenb (has_to_countersigner self)
    (Err (transaction_format_error "more than one to_countersigner output"));;
  pubkey ← parse_pubkey pubkey_data "to_countersigner delayed pubkey malformed: {}";
  Ok (set_to_countersigner self (ci_to_countersigner_address self) (Some pubkey)
        (out_value out)).

(** Replace the HTLCs and the anchor counts. *)
Definition set_lists (self : CommitmentInfo) (offered received : list HTLCInfo)
  (to_broadcaster_anchors to_countersigner_anchors : Z) : CommitmentInfo := {|
    ci_is_counterparty_broadcaster := ci_is_counterparty_broadcaster self;
    ci_to_countersigner_address := ci_to_countersigner_address self;
    ci_to_countersigner_pubkey := ci_to_countersigner_pubkey self;
    ci_to_countersigner_value_sat := ci_to_countersigner_value_sat self;
    ci_to_countersigner_anchor_count := to_countersigner_anchors;
    ci_revocation_pubkey := ci_revocation_pubkey self;
    ci_to_broadcaster_delayed_pubkey := ci_to_broadcaster_delayed_pubkey self;
    ci_to_broadcaster_value_sat := ci_to_broadcaster_value_sat self;
    ci_to_self_delay := ci_to_self_delay self;
    ci_to_broadcaster_anchor_count := to_broadcaster_anchors;
    ci_offered_htlcs := offered;
    ci_received_htlcs := received
  |}.

(** [try_into] a 20-byte array. *)
Definition to_hash20 (d : bytes) : result bytes :=
  if (length d =? 20)%nat then Ok d
  else Err (mismatch_error "payment hash RIPEMD160 must be length 20").

Definition handle_received_htlc_output (self : CommitmentInfo) (out : TxOut)
  (vals : bytes * bytes * bytes * bytes * Z) : result CommitmentInfo :=
  let '(_, _, payment_hash_vec, _, cltv_expiry) := vals in
  payment_hash_hash ← to_hash20 payment_hash_vec;
  whenb (cltv_expiry <? 0) (Err (script_format_error "negative CLTV"));;
  let cltv_expiry := as_u 32 cltv_expiry in
  let htlc := {| p1_value_sat := out_value out; payment_hash_hash := payment_hash_hash;
                 p1_cltv_expiry := cltv_expiry |} in
  Ok (set_lists self (ci_offered_htlcs self) (ci_received_htlcs self ++ [htlc])
        (ci_to_broadcaster_anchor_count self) (ci_to_countersigner_anchor_count self)).

Definition handle_offered_htlc_output (self : CommitmentInfo) (out : TxOut)
  (vals : bytes * bytes * bytes * bytes) : result CommitmentInfo :=
  let '(_, _, _, payment_hash_vec) := vals in
  payment_hash_hash ← to_hash20 payment_hash_vec;
  let htlc := {| p1_value_sat := out_value out; payment_hash_hash := payment_hash_hash;
                 p1_cltv_expiry := 0 |} in
  Ok (set_lists self (ci_offered_htlcs self ++ [htlc]) (ci_received_htlcs self)
        (ci_to_broadcaster_anchor_count self) (ci_to_countersigner_anchor_count self)).

Definition handle_anchor_output (self : CommitmentInfo) (keys : InMemorySigner) (out : TxOut)
  (to_pubkey_data : bytes) : result CommitmentInfo :=
  to_pubkey ← parse_pubkey to_pubkey_data "anchor to_pubkey malformed: {}";
  let '(to_broadcaster_funding_pubkey, to_countersigner_funding_pubkey) :=
    if ci_is_counterparty_broadcaster self
    then (funding_pubkey (counterparty_pubkeys keys), funding_pubkey (pubkeys keys))
    else (funding_pubkey (pubkeys keys), funding_pubkey (counterparty_pubkeys keys)) in
  whenb (negb (out_value out =? ANCHOR_SAT)) (Err (mismatch_error "anchor wrong size: {}"));;
  if decide (to_pubkey = to_broadcaster_funding_pubkey) then
    n ← wrapping 16 (ci_to_broadcaster_anchor_count self + 1);
    Ok (set_lists self (ci_offered_htlcs self) (ci_received_htlcs self)
          n (ci_to_countersigner_anchor_count self))
  else if decide (to_pubkey = to_countersigner_funding_pubkey) then
    n ← wrapping 16 (ci_to_countersigner_anchor_count self + 1);
    Ok (set_lists self (ci_offered_htlcs self) (ci_received_htlcs self)
          (ci_to_broadcaster_anchor_count self) n)
  else Err (mismatch_error "anchor to_pubkey {} doesn't match local or remote").

(** The templates are tried in order; the first that matches decides. *)
Definition handle_p2wsh_output (self : CommitmentInfo) (keys : InMemorySigner)
  (setup : ChannelSetup) (out : TxOut) (script : Script) : result CommitmentInfo :=
  match parse_to_broadcaster_script script with
  | Ok vals => handle_to_broadcaster_output self out vals
  | _ =>
  match parse_received_htlc_script script (is_anchors setup) with
  | Ok vals => handle_received_htlc_output self out vals
  | _ =>
  match parse_offered_htlc_script script (is_anchors setup) with
  | Ok vals => handle_offered_htlc_output self out vals
  | _ =>
  match parse_anchor_script script with
  | Ok vals => handle_anchor_output self keys out vals
  | _ =>
  match (if is_anchors setup then parse_to_countersigner_delayed_script script
         else Err (transaction_format_error "unknown p2wsh script")) with
  | Ok vals => handle_to_countersigner_delayed_output self out vals
  | _ => Err (transaction_format_error "unknown p2wsh script")
  end end end end end.

Definition handle_output (self : CommitmentInfo) (keys : InMemorySigner)
  (setup : ChannelSetup) (out : TxOut) (script_bytes : bytes) : result CommitmentInfo :=
  if is_v0_p2wpkh (script_pubkey out) then
    whenb (is_anchors setup)
      (Err (transaction_format_error "p2wpkh to_countersigner not valid with anchors"));;
    whenb (has_to_countersigner self)
      (Err (transaction_format_error "more than one to_countersigner output"));;
    Ok (set_to_countersigner self (payload_from_script (script_pubkey out))
          (ci_to_countersigner_pubkey self) (out_value out))
  else if is_v0_p2wsh (script_pubkey out) then
    whenb (bool_decide (script_bytes = []))
      (Err (transaction_format_error "missing witscript for p2wsh"));;
    let script := script_bytes in
    whenb (negb (bool_decide (script_pubkey out = to_v0_p2wsh script)))
      (Err (transaction_format_error "script pubkey doesn't match inner script"));;
    handle_p2wsh_output self keys setup out script
  else Err (transaction_format_error "unknown output type").
End handlers.

(** ** Templates: the printers of the parsers *)

Section templates.
Context `{L : Lib}.

(** The number an instruction stands for. *)
Definition number_of (i : Instruction) : option Z :=
  match i with Op op => push_num op | PushBytes d => read_scriptint d end.

Definition anchors_suffix (is_anchors : bool) : list Instruction :=
  if is_anchors then [Op OP_PUSHNUM_1; Op OP_CSV; Op OP_DROP] else [].

Definition received_htlc_template (is_anchors : bool)
  (rev_hash remote_key : bytes) (n32 : Instruction) (hash local_key : bytes)
  (cltv : Instruction) : list Instruction :=
  [Op OP_DUP; Op OP_HASH160; PushBytes rev_hash; Op OP_EQUAL; Op OP_IF; Op OP_CHECKSIG;
   Op OP_ELSE; PushBytes remote_key; Op OP_SWAP; Op OP_SIZE; n32; Op OP_EQUAL; Op OP_IF;
   Op OP_HASH160; PushBytes hash; Op OP_EQUALVERIFY; Op OP_PUSHNUM_2; Op OP_SWAP;
   PushBytes local_key; Op OP_PUSHNUM_2; Op OP_CHECKMULTISIG; Op OP_ELSE; Op OP_DROP; cltv;
   Op OP_CLTV; Op OP_DROP; Op OP_CHECKSIG; Op OP_ENDIF]
  ++ anchors_suffix is_anchors ++ [Op OP_ENDIF].

Definition offered_htlc_template (is_anchors : bool)
  (rev_hash remote_key : bytes) (n32 : Instruction) (local_key hash : bytes)
  : list Instruction :=
  [Op OP_DUP; Op OP_HASH160; PushBytes rev_hash; Op OP_EQUAL; Op OP_IF; Op OP_CHECKSIG;
   Op OP_ELSE; PushBytes remote_key; Op OP_SWAP; Op OP_SIZE; n32; Op OP_EQUAL; Op OP_NOTIF;
   Op OP_DROP; Op OP_PUSHNUM_2; Op OP_SWAP; PushBytes local_key; Op OP_PUSHNUM_2;
   Op OP_CHECKMULTISIG; Op OP_ELSE; Op OP_HASH160; PushBytes hash; Op OP_EQUALVERIFY;
   Op OP_CHECKSIG; Op OP_ENDIF]
  ++ anchors_suffix is_anchors ++ [Op OP_ENDIF].

Definition revokeable_template (rev_key : bytes) (delay : Instruction) (delayed_key : bytes)
  : list Instruction :=
  [Op OP_IF; PushBytes rev_key; Op OP_ELSE; delay; Op OP_CSV; Op OP_DROP;
   PushBytes delayed_key; Op OP_ENDIF; Op OP_CHECKSIG].

Definition anchor_template (key : bytes) : list Instruction :=
  [PushBytes key; Op OP_CHECKSIG; Op OP_IFDUP; Op OP_NOTIF; Op OP_PUSHNUM_16; Op OP_CSV;
   Op OP_ENDIF].

Definition to_countersigner_delayed_template (key : bytes) : list Instruction :=
  [PushBytes key; Op OP_CHECKSIGVERIFY; Op OP_PUSHNUM_1; Op OP_CSV].

(** *** Inversion of the parsing steps *)

Lemma parser_bind_Ok {A B} (p : parser A) (f : A -> parser B) it b it' :
  (p ≫= f) it = Ok (b, it') <-> exists a it1, p it = Ok (a, it1) /\ f a it1 = Ok (b, it').
Proof.
  unfold mbind, parser_bind. destruct (p it) as [[a it1]| |]; naive_solver.
Qed.

Lemma parser_ret_Ok {A} (a b : A) it it' :
  (mret a : parser A) it = Ok (b, it') <-> b = a /\ it' = it.
Proof. unfold mret, parser_ret. naive_solver. Qed.

Lemma expect_op_Ok op it u it' :
  expect_op op it = Ok (u, it') <-> it = Some (Op op) :: it'.
Proof.
  unfold expect_op. rewrite parser_bind_Ok. unfold expect_next. destruct u. split.
  - intros ([o|d] & it1 & Hn & Hf); destruct it as [|[i|] it]; try done.
    injection Hn as -> ->. destruct (o =? op) eqn:Ho; [|done]. b2p. subst.
    by injection Hf as ->.
  - intros ->. exists (Op op), it'. by rewrite Z.eqb_refl.
Qed.

Lemma expect_data_Ok it d it' :
  expect_data it = Ok (d, it') <-> it = Some (PushBytes d) :: it'.
Proof.
  unfold expect_data. rewrite parser_bind_Ok. unfold expect_next. split.
  - intros ([o|d'] & it1 & Hn & Hf); destruct it as [|[i|] it]; try done.
    injection Hn as -> ->. by injection Hf as -> ->.
  - intros ->. by exists (PushBytes d), it'.
Qed.

Lemma expect_number_Ok it n it' :
  expect_number it = Ok (n, it')
  <-> exists i, it = Some i :: it' /\ number_of i = Some n.
Proof.
  unfold expect_number. rewrite parser_bind_Ok. unfold expect_next. split.
  - intros (i & it1 & Hn & Hf); destruct it as [|[i'|] it]; try done.
    injection Hn as -> ->. exists i. unfold number_of.
    destruct i; [destruct (push_num op)|destruct (read_scriptint d)]; try done;
      by injection Hf as -> ->.
  - intros (i & -> & Hi). exists i, it'. split; [done|]. unfold number_of in Hi.
    destruct i; by rewrite Hi.
Qed.

Lemma expect_script_end_Ok it u it' :
  expect_script_end it = Ok (u, it') <-> it = [] /\ it' = [].
Proof. destruct it, u; cbn; naive_solver. Qed.

Lemma fail_if_Ok (b : bool) e it u it' :
  (if b then fail e else mret tt : parser unit) it = Ok (u, it') <-> b = false /\ it' = it.
Proof. destruct b, u; cbn; unfold fail, mret, parser_ret; naive_solver. Qed.

Lemma anchors_if_Ok (a : bool) it u it' :
  (if a then expect_op OP_PUSHNUM_1;; expect_op OP_CSV;; expect_op OP_DROP
   else mret tt : parser unit) it = Ok (u, it')
  <-> it = map Some (anchors_suffix a) ++ it'.
Proof.
  destruct a, u; cbn.
  - split; [|by intros ->].
    intros H. apply parser_bind_Ok in H as (? & ? & H1 & H).
    apply parser_bind_Ok in H as (? & ? & H2 & H3).
    apply expect_op_Ok in H1, H2, H3. by subst.
  - rewrite parser_ret_Ok. naive_solver.
Qed.

Lemma run_parser_Ok {A} (p : parser A) s a :
  run_parser p s = Ok a <-> exists it, p (instructions s) = Ok (a, it).
Proof.
  unfold run_parser. split.
  - intros H. inv_ok H. destruct x. injection H as ->. eauto.
  - intros [it ->]. done.
Qed.
End templates.

(** Invert, or run, a parser step by step. *)
Ltac parser_inv :=
  repeat match goal with
  | H : mbind _ _ _ = _ |- _ => apply parser_bind_Ok in H as (? & ? & H & ?)
  | H : expect_op _ _ = Ok _ |- _ => apply expect_op_Ok in H
  | H : expect_data _ = Ok _ |- _ => apply expect_data_Ok in H
  | H : expect_number _ = Ok _ |- _ => apply expect_number_Ok in H as (? & H & ?)
  | H : expect_script_end _ = Ok _ |- _ => apply expect_script_end_Ok in H as [H ?]
  | H : mret _ _ = _ |- _ => apply parser_ret_Ok in H as [? ?]
  | H : @eq (outcome _ _) _ _ |- _ =>
      first [apply fail_if_Ok in H as [H ?]; b2p | apply anchors_if_Ok in H]
  end; simplify_eq.

Section template_lemmas.
Context `{L : Lib}.

Lemma received_htlc_sound a it vals it' :
  received_htlc_parser a it = Ok (vals, it') ->
  exists n32 c, number_of n32 = Some 32 /\ number_of c = Some vals.2
    /\ it = map Some (received_htlc_template a vals.1.1.1.1 vals.1.1.1.2 n32
                        vals.1.1.2 vals.1.2 c).
Proof.
  intros H. unfold received_htlc_parser in H. parser_inv.
  do 2 eexists. split; [eassumption|]. split; [eassumption|]. by destruct a.
Qed.

Lemma offered_htlc_sound a it vals it' :
  offered_htlc_parser a it = Ok (vals, it') ->
  exists n32, number_of n32 = Some 32
    /\ it = map Some (offered_htlc_template a vals.1.1.1 vals.1.1.2 n32 vals.1.2 vals.2).
Proof.
  intros H. unfold offered_htlc_parser in H. parser_inv.
  eexists. split; [eassumption|]. by destruct a.
Qed.

Lemma revokeable_sound it vals it' :
  revokeable_parser it = Ok (vals, it') ->
  exists d, number_of d = Some vals.1.2
    /\ it = map Some (revokeable_template vals.1.1 d vals.2).
Proof. intros H. unfold revokeable_parser in H. parser_inv. eauto. Qed.

Lemma anchor_sound it key it' :
  anchor_parser it = Ok (key, it') -> it = map Some (anchor_template key).
Proof. intros H. unfold anchor_parser in H. parser_inv. done. Qed.

Lemma to_countersigner_delayed_sound it key it' :
  to_countersigner_delayed_parser it = Ok (key, it') ->
  it = map Some (to_countersigner_delayed_template key).
Proof. intros H. unfold to_countersigner_delayed_parser in H. parser_inv. done. Qed.
End template_lemmas.

Ltac parser_run :=
  repeat (apply parser_bind_Ok; first [exists tt; eexists|do 2 eexists]; split;
    [first [ by apply expect_op_Ok | by apply expect_data_Ok
           | apply expect_number_Ok; eexists; split; [reflexivity|eassumption]
           | by apply fail_if_Ok | by apply anchors_if_Ok
           | by apply expect_script_end_Ok ]|]);
  by apply parser_ret_Ok.

Section claims.
Context `{L : Lib, Prof : Profile}.

(** The HTLC parsers invert the HTLC script templates of BOLT-3: a script is
    recognized as a received (offered) HTLC with some contents exactly when
    its instructions are the template filled with these contents. *)
Theorem htlc_scripts_roundtrip (s : Script) (a : bool) :
  (forall rev_hash remote hash loc cltv,
     parse_received_htlc_script s a = Ok (rev_hash, remote, hash, loc, cltv) <->
     exists n32 c, number_of n32 = Some 32 /\ number_of c = Some cltv /\
       instructions s = map Some (received_htlc_template a rev_hash remote n32 hash loc c))
  /\ (forall rev_hash remote loc hash,
     parse_offered_htlc_script s a = Ok (rev_hash, remote, loc, hash) <->
     exists n32, number_of n32 = Some 32 /\
       instructions s = map Some (offered_htlc_template a rev_hash remote n32 loc hash)).
Proof.
  split; intros; [unfold parse_received_htlc_script|unfold parse_offered_htlc_script];
    rewrite run_parser_Ok; split.
  - intros [it H]. by apply received_htlc_sound in H.
  - intros (n32 & c & H32 & Hc & ->). eexists.
    unfold received_htlc_template, received_htlc_parser. rewrite !map_app. parser_run.
  - intros [it H]. by apply offered_htlc_sound in H.
  - intros (n32 & H32 & ->). eexists.
    unfold offered_htlc_template, offered_htlc_parser. rewrite !map_app. parser_run.
Qed.

(** How many of the five templates recognize a script. *)
Definition recognized (s : Script) (a : bool) : nat :=
  Nat.b2n (is_ok (parse_to_broadcaster_script s))
  + Nat.b2n (is_ok (parse_received_htlc_script s a))
  + Nat.b2n (is_ok (parse_offered_htlc_script s a))
  + Nat.b2n (is_ok (parse_anchor_script s))
  + Nat.b2n (is_ok (parse_to_countersigner_delayed_script s)).

Lemma is_ok_run {A} (p : parser A) s : is_ok (run_parser p s) = true ->
  exists a it, p (instructions s) = Ok (a, it).
Proof.
  unfold run_parser. destruct (p (instructions s)) as [[a it]| |]; cbn; [eauto|done..].
Qed.

(** No script is recognized by two of the templates of a commitment output, so
    the order in which [handle_output] tries them does not matter. *)
Theorem output_templates_exclusive (s : Script) (a : bool) : (recognized s a <= 1)%nat.
Proof.
  unfold recognized, parse_to_broadcaster_script, parse_received_htlc_script,
    parse_offered_htlc_script, parse_anchor_script, parse_to_countersigner_delayed_script.
  repeat match goal with
  | |- context [is_ok (run_parser ?p s)] =>
      let H := fresh "H" in
      destruct (is_ok (run_parser p s)) eqn:H;
        [apply is_ok_run in H as (? & ? & H)|clear H]
  end; cbn [Nat.b2n Nat.add]; try lia; exfalso;
  repeat match goal with
  | H : received_htlc_parser _ _ = _ |- _ => apply received_htlc_sound in H as (? & ? & ? & ? & H)
  | H : offered_htlc_parser _ _ = _ |- _ => apply offered_htlc_sound in H as (? & ? & H)
  | H : revokeable_parser _ = _ |- _ => apply revokeable_sound in H as (? & ? & H)
  | H : anchor_parser _ = _ |- _ => apply anchor_sound in H
  | H : to_countersigner_delayed_parser _ = _ |- _ => apply to_countersigner_delayed_sound in H
  end;
  match goal with
  | H1 : instructions s = map Some _, H2 : instructions s = map Some _ |- _ =>
      rewrite H1 in H2; cbn in H2; discriminate H2
  end.
Qed.

(** The value a [CommitmentInfo] accounts for. *)
Definition accounted (ci : CommitmentInfo) : Z :=
  ci_to_broadcaster_value_sat ci + ci_to_countersigner_value_sat ci
  + sum_list_Z (map p1_value_sat (ci_offered_htlcs ci))
  + sum_list_Z (map p1_value_sat (ci_received_htlcs ci))
  + ANCHOR_SAT * (ci_to_broadcaster_anchor_count ci + ci_to_countersigner_anchor_count ci).

Definition ci_wf (ci : CommitmentInfo) : Prop :=
  (has_to_broadcaster ci = false -> ci_to_broadcaster_value_sat ci = 0)
  /\ (has_to_countersigner ci = false -> ci_to_countersigner_value_sat ci = 0).

(** bitcoin: every p2wpkh script has an address. *)
Definition p2wpkh_has_payload : Prop :=
  forall s, is_v0_p2wpkh s = true -> is_Some (payload_from_script s).
End claims.

(** ** What a decoded transaction accounts for *)

Section accounting.
Context `{L : Lib, Prof : Profile}.
Context (Hpay : p2wpkh_has_payload).

(** The decoder's state after [n] outputs. *)
Record decoded (n : nat) (value : Z) (ci : CommitmentInfo) : Prop := {
  dec_wf : ci_wf ci;
  dec_value : accounted ci = value;
  dec_anchors : 0 <= ci_to_broadcaster_anchor_count ci <= Z.of_nat n
                /\ 0 <= ci_to_countersigner_anchor_count ci <= Z.of_nat n
}.

Lemma decoded_new b : decoded 0 0 (CommitmentInfo_new b).
Proof. repeat split; cbn; lia. Qed.

Ltac account := unfold ci_wf, accounted, has_to_broadcaster, has_to_countersigner in *;
  cbn in *; rewrite ?map_app, ?sum_list_Z_app in *; unfold sum_list_Z, ANCHOR_SAT in *; cbn;
  try lia; try (intuition discriminate).

Lemma to_broadcaster_accounts n v ci out vals ci' : decoded n v ci ->
  handle_to_broadcaster_output ci out vals = Ok ci' -> decoded (S n) (v + out_value out) ci'.
Proof.
  intros [[H1 H2] Hv Ha] H. destruct vals as [[rk d] dk]. unfold handle_to_broadcaster_output in H.
  inv_ok H. specialize (H1 Hx). split; account.
Qed.

Lemma to_countersigner_accounts n v ci a k value : decoded n v ci ->
  has_to_countersigner ci = false -> (is_Some a \/ is_Some k) ->
  decoded (S n) (v + value) (set_to_countersigner ci a k value).
Proof.
  intros [[H1 H2] Hv Ha] Hn Hs. specialize (H2 Hn). split; account.
  split; [done|]. intros H. apply orb_false_iff in H as [Ho Hk].
  apply bool_decide_eq_false in Ho, Hk. tauto.
Qed.

Lemma htlc_accounts n v ci o r : decoded n v ci ->
  decoded (S n) (v + sum_list_Z (map p1_value_sat o) + sum_list_Z (map p1_value_sat r))
    (set_lists ci (ci_offered_htlcs ci ++ o) (ci_received_htlcs ci ++ r)
       (ci_to_broadcaster_anchor_count ci) (ci_to_countersigner_anchor_count ci)).
Proof. intros [[H1 H2] Hv Ha]. split; account. Qed.

Lemma anchor_accounts n v ci keys out d ci' : Z.of_nat n < 2 ^ 16 - 1 -> decoded n v ci ->
  handle_anchor_output ci keys out d = Ok ci' -> decoded (S n) (v + out_value out) ci'.
Proof.
  intros Hn [[H1 H2] Hv Ha] H. unfold handle_anchor_output in H. inv_ok H.
  destruct (if ci_is_counterparty_broadcaster ci then _ else _) as [kb kc]. inv_ok H. b2p.
  rewrite Hx0. repeat case_decide; [..|done]; rewrite wrapping_in in H by lia;
    injection H as <-; split; account.
Qed.

Lemma p2wsh_accounts n v ci keys setup out s ci' : Z.of_nat n < 2 ^ 16 - 1 -> decoded n v ci ->
  handle_p2wsh_output ci keys setup out s = Ok ci' -> decoded (S n) (v + out_value out) ci'.
Proof.
  intros Hn Hd H. unfold handle_p2wsh_output in H.
  destruct (parse_to_broadcaster_script s) as [vals| |];
    [by eapply to_broadcaster_accounts|..].
  all: destruct (parse_received_htlc_script s _) as [[[[[rh rk] ph] lk] c]| |].
  all: try (unfold handle_received_htlc_output in H; inv_ok H;
    pose proof (htlc_accounts n v ci []
      [{| p1_value_sat := out_value out; payment_hash_hash := x; p1_cltv_expiry := as_u 32 c |}] Hd)
      as Hd'; rewrite app_nil_r in Hd'; cbn in Hd'; rewrite !Z.add_0_r in Hd'; exact Hd').
  all: destruct (parse_offered_htlc_script s _) as [[[[rh' rk'] lk'] ph']| |].
  all: try (unfold handle_offered_htlc_output in H; inv_ok H;
    pose proof (htlc_accounts n v ci
      [{| p1_value_sat := out_value out; payment_hash_hash := x; p1_cltv_expiry := 0 |}] [] Hd)
      as Hd'; rewrite app_nil_r in Hd'; cbn in Hd'; rewrite !Z.add_0_r in Hd'; exact Hd').
  all: destruct (parse_anchor_script s) as [vals| |]; [by eapply anchor_accounts|..].
  all: destruct (if is_anchors setup then _ else _) as [vals| |]; [|done..].
  all: unfold handle_to_countersigner_delayed_output in H; inv_ok H;
    by apply to_countersigner_accounts; [..|eauto].
Qed.

Lemma output_accounts n v ci keys setup out s ci' : Z.of_nat n < 2 ^ 16 - 1 -> decoded n v ci ->
  handle_output ci keys setup out s = Ok ci' -> decoded (S n) (v + out_value out) ci'.
Proof.
  intros Hn Hd H. unfold handle_output in H.
  destruct (is_v0_p2wpkh _) eqn:Hp.
  - inv_ok H. apply to_countersigner_accounts; [done..|]. left. by apply Hpay.
  - destruct (is_v0_p2wsh _); [|done]. inv_ok H. by eapply p2wsh_accounts.
Qed.
End accounting.
