(* ===== verification/Secrets.v ===== *)
(** * Counterparty revocation secrets
      ([CounterpartyCommitmentSecrets] of vls-core/src/policy/validator.rs)

    The secrets a counterparty reveals, one per revoked commitment, are kept
    in 49 buckets: a secret with [i] trailing zero bits in its index derives
    the secrets of the indexes that differ from it in the [i] low bits, so the
    latest secret of every trailing-zero count is enough.  Indexes count down
    from [2^48 - 1]. *)

From S2P Require Import Prelude Extern.

(** ** Definitions *)

Record CounterpartyCommitmentSecrets := { old_secrets : list (bytes * Z) }.

Definition secrets_new : CounterpartyCommitmentSecrets :=
  {| old_secrets := map (fun _ => (replicate 32 0, Z.shiftl 1 48)) (seq 0 49) |}.

(** [idx & (1 << i) == (1 << i)]. *)
Definition bit_set (idx : Z) (i : nat) : bool :=
  Z.land idx (Z.shiftl 1 (Z.of_nat i)) =? Z.shiftl 1 (Z.of_nat i).

(** The loop of [place_secret] over [i] in [48 - fuel .. 48]. *)
Fixpoint place_loop (idx : Z) (fuel i : nat) : nat :=
  match fuel with
  | O => 48
  | S fuel' => if bit_set idx i then i else place_loop idx fuel' (S i)
  end.

Definition place_secret (idx : Z) : nat := place_loop idx 48 0.

#[global] Arguments place_secret : simpl never.

Definition get_min_seen_secret (self : CounterpartyCommitmentSecrets) : Z :=
  foldl (fun min e => if e.2 <? min then e.2 else min) (Z.shiftl 1 48) (old_secrets self).

Section ops.
Context `{L : Lib}.

(** [res[bitpos / 8] ^= 1 << (bitpos & 7)], on a 32-byte array. *)
Definition flip_bit (res : bytes) (bitpos : nat) : bytes :=
  alter (fun b => Z.lxor b (Z.shiftl 1 (Z.land (Z.of_nat bitpos) 7)))
    (Nat.div bitpos 8) res.

(** The loop goes through the bit positions [bits - 1] down to [0]. *)
Fixpoint derive_secret (res : bytes) (bits : nat) (idx : Z) : bytes :=
  match bits with
  | O => res
  | S bitpos =>
      let res := if bit_set idx bitpos then sha256 (flip_bit res bitpos) else res in
      derive_secret res bitpos idx
  end.

(** The loop over the buckets below [pos]; indexing out of range panics. *)
Fixpoint check_buckets (secret : bytes) (pos : nat) (self : CounterpartyCommitmentSecrets)
  (idxs : list nat) : outcome unit unit :=
  match idxs with
  | [] => Ok tt
  | i :: idxs' =>
      '(old_secret, old_idx) ← unwrap (old_secrets self !! i);
      if decide (derive_secret secret pos old_idx = old_secret)
      then check_buckets secret pos self idxs' else Err tt
  end.

Definition provide_secret (self : CounterpartyCommitmentSecrets) (idx : Z) (secret : bytes)
  : outcome unit CounterpartyCommitmentSecrets :=
  let pos := place_secret idx in
  check_buckets secret pos self (seq 0 pos);;
  if get_min_seen_secret self <=? idx then Ok self
  else if (pos <? length (old_secrets self))%nat
  then Ok {| old_secrets := <[pos := (secret, idx)]> (old_secrets self) |}
  else Panic.

(** [idx & !((1 << i) - 1)] on 64 bits. *)
Definition mask_low (idx : Z) (i : nat) : Z :=
  Z.land idx (Z.ldiff U64_MAX (Z.shiftl 1 (Z.of_nat i) - 1)).

Fixpoint get_secret_loop (idx : Z) (i : nat) (l : list (bytes * Z)) : option bytes :=
  match l with
  | [] => None
  | (s, j) :: l' =>
      if mask_low idx i =? j then Some (derive_secret s i idx)
      else get_secret_loop idx (S i) l'
  end.

Definition get_secret (self : CounterpartyCommitmentSecrets) (idx : Z)
  : outcome unit (option bytes) :=
  match get_secret_loop idx 0 (old_secrets self) with
  | Some s => Ok (Some s)
  | None => assert_ (idx <? get_min_seen_secret self);; Ok None
  end.
End ops.

(** ** Bits *)

Lemma bit_set_testbit idx i : 0 <= idx -> bit_set idx i = Z.testbit idx (Z.of_nat i).
Proof.
  intros Hidx. unfold bit_set. rewrite Z.shiftl_1_l.
  destruct (Z.testbit idx (Z.of_nat i)) eqn:Hb.
  - apply Z.eqb_eq. apply Z.bits_inj'. intros k Hk.
    rewrite Z.land_spec, Z.pow2_bits_eqb by lia.
    destruct (Z.of_nat i =? k) eqn:E; [b2p; subst; by rewrite Hb|by rewrite andb_false_r].
  - apply Z.eqb_neq. intros Heq. apply (f_equal (fun z => Z.testbit z (Z.of_nat i))) in Heq.
    rewrite Z.land_spec, Z.pow2_bits_true, Hb in Heq by lia. done.
Qed.

(** The number with the low [i] bits cleared. *)
Notation hi idx i := (idx - idx mod 2 ^ Z.of_nat i).

Lemma pow2_pos i : 0 < 2 ^ Z.of_nat i.
Proof. apply Z.pow_pos_nonneg; lia. Qed.

Lemma pow2_S i : 2 ^ Z.of_nat (S i) = 2 * 2 ^ Z.of_nat i.
Proof. rewrite Nat2Z.inj_succ, Z.pow_succ_r; lia. Qed.

Lemma pow2_le i j : (i <= j)%nat -> 2 ^ Z.of_nat i <= 2 ^ Z.of_nat j.
Proof. intros. apply Z.pow_le_mono_r; lia. Qed.

Lemma mask_low_hi idx i : 0 <= idx < 2 ^ 64 -> (i <= 64)%nat -> mask_low idx i = hi idx i.
Proof.
  intros Hidx Hi. unfold mask_low, U64_MAX. rewrite Z.shiftl_1_l.
  replace (2 ^ Z.of_nat i - 1) with (Z.ones (Z.of_nat i)) by (rewrite Z.ones_equiv; lia).
  replace (2 ^ 64 - 1) with (Z.ones 64) by done.
  assert (Hh : hi idx i = Z.ldiff idx (Z.ones (Z.of_nat i))).
  { rewrite Z.ldiff_ones_r, Z.shiftl_mul_pow2, Z.shiftr_div_pow2 by lia.
    pose proof (Z.div_mod idx (2 ^ Z.of_nat i) ltac:(pose proof (pow2_pos i); lia)). lia. }
  rewrite Hh. apply Z.bits_inj'. intros k Hk. rewrite Z.land_spec, !Z.ldiff_spec.
  destruct (Z.lt_ge_cases k 64).
  - by rewrite Z.ones_spec_low by lia.
  - assert (Hz : Z.testbit idx k = false); [|by rewrite Hz].
    apply Z.bits_above_log2; [lia|]. destruct (Z.eq_dec idx 0) as [->|]; [cbn; lia|].
    apply Z.log2_lt_pow2; [lia|].
    assert (2 ^ 64 <= 2 ^ k) by (apply Z.pow_le_mono_r; lia). lia.
Qed.

Lemma testbit_mod idx i : 0 <= idx -> idx mod 2 ^ Z.of_nat i = 0 ->
  Z.testbit idx (Z.of_nat i) = true <-> idx mod 2 ^ Z.of_nat (S i) = 2 ^ Z.of_nat i.
Proof.
  intros Hidx Hm. pose proof (pow2_pos i).
  rewrite Z.testbit_true by lia.
  pose proof (Z.div_mod idx (2 ^ Z.of_nat i) ltac:(lia)) as Hd. rewrite Hm, Z.add_0_r in Hd.
  set (q := idx / 2 ^ Z.of_nat i) in *. rewrite pow2_S, Hd.
  rewrite (Z.mul_comm 2), Z.mul_mod_distr_l by lia.
  split; intros Hq; [rewrite Hq; lia|]. pose proof (Z.mod_pos_bound q 2). nia.
Qed.

(** ** Where a secret is placed *)

Lemma mod_tower x i j : (i <= j)%nat -> (x mod 2 ^ Z.of_nat j) mod 2 ^ Z.of_nat i = x mod 2 ^ Z.of_nat i.
Proof.
  intros Hij. pose proof (pow2_pos i). pose proof (pow2_pos j).
  assert (Hp : 2 ^ Z.of_nat j = 2 ^ Z.of_nat (j - i) * 2 ^ Z.of_nat i).
  { rewrite <- Z.pow_add_r by lia. f_equal. lia. }
  rewrite (Z.mod_eq x (2 ^ Z.of_nat j)) by lia.
  replace (x - 2 ^ Z.of_nat j * (x / 2 ^ Z.of_nat j))
    with (x + - (2 ^ Z.of_nat (j - i) * (x / 2 ^ Z.of_nat j)) * 2 ^ Z.of_nat i)
    by (rewrite Hp at 2; ring).
  apply Z.mod_add. lia.
Qed.

Lemma mod_S_0 x i : x mod 2 ^ Z.of_nat (S i) = 2 ^ Z.of_nat i -> x mod 2 ^ Z.of_nat i = 0.
Proof.
  intros H. rewrite <- (mod_tower x i (S i)), H by lia. apply Z.mod_same. pose proof (pow2_pos i). lia.
Qed.

Lemma small_multiple y p : 0 < p -> 0 <= y < 2 * p -> y mod p = 0 -> y = 0 \/ y = p.
Proof.
  intros Hp Hy Hm. pose proof (Z.div_mod y p ltac:(lia)) as Hd. rewrite Hm in Hd.
  set (q := y / p) in *. assert (q < 2) by nia. assert (0 <= q) by nia.
  destruct (Z.eq_dec q 0) as [->|]; [lia|]. replace q with 1 in Hd by lia. lia.
Qed.

Lemma multiple_gap n p q : 0 < p -> n mod p = 0 -> n < q * p -> n + p <= q * p.
Proof.
  intros Hp Hm Hn. pose proof (Z.div_mod n p ltac:(lia)) as Hd. rewrite Hm in Hd.
  assert (n / p < q) by nia. nia.
Qed.

Lemma mod_S_cases x i : x mod 2 ^ Z.of_nat i = 0 ->
  x mod 2 ^ Z.of_nat (S i) = 0 \/ x mod 2 ^ Z.of_nat (S i) = 2 ^ Z.of_nat i.
Proof.
  intros H. pose proof (pow2_pos i).
  pose proof (mod_tower x i (S i) ltac:(lia)) as Ht. rewrite H in Ht.
  pose proof (Z.mod_pos_bound x (2 ^ Z.of_nat (S i)) (pow2_pos _)) as Hb.
  rewrite pow2_S in *. set (y := x mod (2 * 2 ^ Z.of_nat i)) in *.
  apply (small_multiple y (2 ^ Z.of_nat i)); lia.
Qed.

Lemma place_loop_spec idx fuel i :
  0 <= idx -> (fuel + i = 48)%nat -> idx mod 2 ^ Z.of_nat i = 0 ->
  let p := place_loop idx fuel i in
  (i <= p <= 48)%nat /\ idx mod 2 ^ Z.of_nat p = 0
  /\ ((p < 48)%nat -> idx mod 2 ^ Z.of_nat (S p) = 2 ^ Z.of_nat p).
Proof.
  intros Hidx. revert i. induction fuel as [|fuel IH]; intros i Hf Hm; cbn [place_loop].
  - replace i with 48%nat in Hm by lia. split; [lia|]. split; [done|lia].
  - rewrite bit_set_testbit by done. destruct (Z.testbit idx (Z.of_nat i)) eqn:Hb.
    + split; [lia|]. split; [done|]. intros _. by apply testbit_mod.
    + destruct (mod_S_cases idx i Hm) as [H0|H1].
      * destruct (IH (S i) ltac:(lia) H0) as (? & ? & ?). split; [lia|]. done.
      * apply testbit_mod in H1; [congruence|done..].
Qed.

Lemma place_spec idx : 0 <= idx ->
  (place_secret idx <= 48)%nat /\ idx mod 2 ^ Z.of_nat (place_secret idx) = 0
  /\ ((place_secret idx < 48)%nat ->
      idx mod 2 ^ Z.of_nat (S (place_secret idx)) = 2 ^ Z.of_nat (place_secret idx)).
Proof.
  intros H. unfold place_secret. destruct (place_loop_spec idx 48 0 H eq_refl) as (? & ? & ?); [apply Z.mod_1_r|].
  split; [lia|]. done.
Qed.

Lemma place_unique idx i : 0 <= idx -> (i <= 48)%nat -> idx mod 2 ^ Z.of_nat i = 0 ->
  ((i < 48)%nat -> idx mod 2 ^ Z.of_nat (S i) = 2 ^ Z.of_nat i) -> place_secret idx = i.
Proof.
  intros Hidx Hi H0 H1. destruct (place_spec idx Hidx) as (Hp & Hp0 & Hp1).
  set (p := place_secret idx) in *. pose proof (pow2_pos i). pose proof (pow2_pos p).
  destruct (Nat.lt_trichotomy p i) as [Hlt|[->|Hlt]]; [|done|].
  - specialize (Hp1 ltac:(lia)).
    pose proof (mod_tower idx (S p) i ltac:(lia)) as Ht. rewrite H0, Hp1, Z.mod_0_l in Ht; [lia|].
    pose proof (pow2_pos (S p)). lia.
  - specialize (H1 ltac:(lia)).
    pose proof (mod_tower idx (S i) p ltac:(lia)) as Ht. rewrite Hp0, H1, Z.mod_0_l in Ht; [lia|].
    pose proof (pow2_pos (S i)). lia.
Qed.

(** ** Clearing low bits *)

Lemma hi_mod x i : hi x i mod 2 ^ Z.of_nat i = 0.
Proof.
  pose proof (pow2_pos i). pose proof (Z.div_mod x (2 ^ Z.of_nat i) ltac:(lia)).
  replace (hi x i) with (x / 2 ^ Z.of_nat i * 2 ^ Z.of_nat i) by lia. apply Z.mod_mul. lia.
Qed.

Lemma hi_bound x i : hi x i <= x < hi x i + 2 ^ Z.of_nat i.
Proof. pose proof (Z.mod_pos_bound x _ (pow2_pos i)). lia. Qed.

Lemma hi_nonneg x i : 0 <= x -> 0 <= hi x i.
Proof. intros. pose proof (Z.mod_le x (2 ^ Z.of_nat i) ltac:(done) (pow2_pos i)). lia. Qed.

Lemma hi_id x i : x mod 2 ^ Z.of_nat i = 0 -> hi x i = x.
Proof. lia. Qed.

(** The only multiple of [2^i] within [2^i] below [x] is [hi x i]. *)
Lemma hi_unique x y i : y mod 2 ^ Z.of_nat i = 0 -> y <= x < y + 2 ^ Z.of_nat i -> hi x i = y.
Proof.
  intros Hy Hx. pose proof (pow2_pos i).
  pose proof (Z.div_mod y (2 ^ Z.of_nat i) ltac:(lia)) as Hd. rewrite Hy in Hd.
  assert (x mod 2 ^ Z.of_nat i = x - y); [|lia].
  symmetry. apply (Z.mod_unique _ _ (y / 2 ^ Z.of_nat i)); lia.
Qed.

Lemma hi_S x i : hi x (S i) = hi x i \/ hi x (S i) = hi x i - 2 ^ Z.of_nat i.
Proof.
  pose proof (pow2_pos i). pose proof (mod_tower x i (S i) ltac:(lia)) as Ht.
  pose proof (Z.mod_pos_bound x (2 ^ Z.of_nat (S i)) (pow2_pos _)) as Hb. rewrite pow2_S in *.
  set (y := x mod (2 * 2 ^ Z.of_nat i)) in *.
  pose proof (Z.mod_pos_bound y (2 ^ Z.of_nat i) ltac:(lia)).
  pose proof (Z.mod_le y (2 ^ Z.of_nat i) ltac:(lia) ltac:(lia)).
  destruct (small_multiple (y - y mod 2 ^ Z.of_nat i) (2 ^ Z.of_nat i));
    [lia|lia|apply hi_mod|lia|lia].
Qed.

Lemma bit_set_hi x y i k : 0 <= x -> 0 <= y -> hi x i = hi y i -> (i <= k)%nat ->
  bit_set x k = bit_set y k.
Proof.
  intros Hx Hy Hh Hk. rewrite !bit_set_testbit by done. pose proof (pow2_pos i).
  assert (Hdiv : x / 2 ^ Z.of_nat i = y / 2 ^ Z.of_nat i).
  { pose proof (Z.div_mod x (2 ^ Z.of_nat i) ltac:(lia)).
    pose proof (Z.div_mod y (2 ^ Z.of_nat i) ltac:(lia)). nia. }
  replace (Z.of_nat k) with (Z.of_nat (k - i) + Z.of_nat i) by lia.
  rewrite <- !Z.div_pow2_bits by lia. by rewrite Hdiv.
Qed.

Lemma bit_set_low x i k : 0 <= x -> x mod 2 ^ Z.of_nat i = 0 -> (k < i)%nat -> bit_set x k = false.
Proof.
  intros Hx Hm Hk. rewrite bit_set_testbit by done.
  rewrite <- (Z.mod_pow2_bits_low x (Z.of_nat i)) by lia. by rewrite Hm, Z.bits_0.
Qed.

(** ** Derivation *)

Section derive.
Context `{L : Lib}.

(** The part of the loop that handles the bits from [lo + n - 1] down to [lo]. *)
Fixpoint derive_range (s : bytes) (lo n : nat) (idx : Z) : bytes :=
  match n with
  | O => s
  | S m =>
      let s := if bit_set idx (lo + m) then sha256 (flip_bit s (lo + m)) else s in
      derive_range s lo m idx
  end.

Lemma derive_split s lo n idx :
  derive_secret s (n + lo) idx = derive_secret (derive_range s lo n idx) lo idx.
Proof.
  revert s. induction n as [|n IH]; intros s; cbn; [done|]. rewrite IH.
  by rewrite (Nat.add_comm n lo).
Qed.

Lemma derive_range_ext s lo n x y :
  (forall k, (lo <= k)%nat -> bit_set x k = bit_set y k) ->
  derive_range s lo n x = derive_range s lo n y.
Proof.
  intros H. revert s. induction n as [|n IH]; intros s; cbn; [done|].
  rewrite H by lia. apply IH.
Qed.

Lemma derive_zero s bits idx :
  0 <= idx -> idx mod 2 ^ Z.of_nat bits = 0 -> derive_secret s bits idx = s.
Proof.
  intros H0 Hm. assert (Hb : forall k, (k < bits)%nat -> bit_set idx k = false)
    by (intros; by apply (bit_set_low idx bits)).
  clear H0 Hm. revert s. induction bits as [|b IH]; intros s; cbn; [done|].
  rewrite Hb by lia. apply IH. intros k Hk. apply Hb. lia.
Qed.

(** Deriving [x] goes through the secret of [x] with its low [i] bits cleared. *)
Lemma derive_via s p i x : 0 <= x -> (i <= p)%nat ->
  derive_secret s p x = derive_secret (derive_secret s p (hi x i)) i x.
Proof.
  intros Hx Hi. replace p with (p - i + i)%nat by lia. rewrite !derive_split.
  pose proof (hi_nonneg x i Hx).
  rewrite (derive_zero _ i (hi x i)) by (done || apply hi_mod).
  f_equal. apply derive_range_ext. intros k Hk. apply (bit_set_hi x _ i); try done.
  symmetry. apply hi_id, hi_mod.
Qed.
End derive.

(** ** The invariant of the store *)

Section invariant.
Context `{L : Lib}.
Context (prov : Z -> bytes).

(** The secrets of the indexes from [N] to [2^48 - 1] were provided, [prov]
    being the secret provided for each index. *)
Record inv (N : Z) (l : list (bytes * Z)) : Prop := {
  inv_length : length l = 49%nat;
  inv_bucket : forall i s J, l !! i = Some (s, J) ->
    (J = 2 ^ 48 /\ forall idx, N <= idx < 2 ^ 48 -> place_secret idx <> i)
    \/ (N <= J < 2 ^ 48 /\ place_secret J = i
        /\ forall idx, N <= idx < J -> place_secret idx <> i);
  inv_derives : forall i s J idx, l !! i = Some (s, J) -> N <= idx < 2 ^ 48 ->
    hi idx i = J -> derive_secret s i idx = prov idx
}.

Lemma inv_new : inv (2 ^ 48) (old_secrets secrets_new).
Proof.
  split; [done| |lia]. intros i s J Hi. left.
  cbn [old_secrets secrets_new] in Hi. rewrite list_lookup_fmap in Hi.
  destruct (seq 0 49 !! i); [|done]. injection Hi as _ <-. split; [done|lia].
Qed.

(** When index [n] comes next, the buckets below its place hold [n + 2^i]. *)
Lemma inv_lower n l i s J : 0 <= n -> n < 2 ^ 48 -> inv (n + 1) l ->
  (i < place_secret n)%nat -> l !! i = Some (s, J) -> J = n + 2 ^ Z.of_nat i.
Proof.
  intros Hn Hn48 Hinv Hi Hl. destruct (place_spec n Hn) as (Hp & Hp0 & _).
  set (p := place_secret n) in *. pose proof (pow2_pos i) as Hpi.
  pose proof (pow2_le (S i) p ltac:(lia)) as Hle. rewrite pow2_S in Hle.
  assert (Hn0 : n mod 2 ^ Z.of_nat (S i) = 0).
  { rewrite <- (mod_tower n (S i) p), Hp0 by lia. apply Z.mod_0_l. pose proof (pow2_pos (S i)). lia. }
  assert (Htop : n + 2 ^ Z.of_nat p <= 2 ^ 48).
  { assert (Hq : 2 ^ 48 = 2 ^ Z.of_nat (48 - p) * 2 ^ Z.of_nat p)
      by (rewrite <- Z.pow_add_r by lia; f_equal; lia).
    rewrite Hq in *. by apply multiple_gap; [apply pow2_pos|..]. }
  assert (Hplace : place_secret (n + 2 ^ Z.of_nat i) = i).
  { apply place_unique; [lia|lia| |intros _].
    - apply mod_S_0. rewrite <- Z.add_mod_idemp_l, Hn0 by (rewrite pow2_S; lia).
      apply Z.mod_small. rewrite pow2_S. lia.
    - rewrite <- Z.add_mod_idemp_l, Hn0 by (rewrite pow2_S; lia).
      apply Z.mod_small. rewrite pow2_S. lia. }
  destruct (inv_bucket _ _ Hinv i s J Hl) as [[_ Hno]|(HJ & HpJ & Hmin)].
  - destruct (Hno (n + 2 ^ Z.of_nat i)); [lia|done].
  - destruct (Z.lt_trichotomy J (n + 2 ^ Z.of_nat i)) as [Hlt|[->|Hgt]]; [|done|].
    + destruct (place_spec J ltac:(lia)) as (_ & HJ0 & _). rewrite HpJ in HJ0.
      assert (Hn0' : n mod 2 ^ Z.of_nat i = 0)
        by (rewrite <- (mod_tower n i (S i)), Hn0 by lia; apply Z.mod_0_l; lia).
      pose proof (hi_unique J n i Hn0' ltac:(lia)). lia.
    + destruct (Hmin (n + 2 ^ Z.of_nat i)); [lia|done].
Qed.

(** A number in the range of bucket [p] below a filled one. *)
Lemma top_bit p low : 0 < low < 2 ^ Z.of_nat p ->
  exists i, (i < p)%nat /\ 2 ^ Z.of_nat i <= low < 2 ^ Z.of_nat (S i).
Proof.
  induction p as [|p IH]; intros Hlow; [cbn in *; lia|].
  destruct (Z.lt_ge_cases low (2 ^ Z.of_nat p)) as [Hlt|Hge].
  - destruct (IH ltac:(lia)) as (i & ? & ?). exists i. split; [lia|done].
  - exists p. split; [lia|]. lia.
Qed.

Lemma check_buckets_Ok s p st idxs u : check_buckets s p st idxs = Ok u ->
  forall i sec J, i ∈ idxs -> old_secrets st !! i = Some (sec, J) -> derive_secret s p J = sec.
Proof.
  induction idxs as [|k idxs IH]; intros H i sec J Hin Hl; cbn in H; [by apply elem_of_nil in Hin|].
  inv_ok H. destruct x as [sec' J']. case_decide; [|done].
  apply elem_of_cons in Hin as [->|Hin]; [|by eapply IH].
  rewrite Hl in Hx. by injection Hx as -> ->.
Qed.
End invariant.

Section store.
Context `{L : Lib}.
Context (prov : Z -> bytes).

Lemma foldl_min_spec (l : list (bytes * Z)) m :
  let r := foldl (fun min e => if e.2 <? min then e.2 else min) m l in
  r <= m /\ (forall e, e ∈ l -> r <= e.2) /\ (r = m \/ exists e, e ∈ l /\ r = e.2).
Proof.
  revert m. induction l as [|e l IH]; intros m; cbn.
  - split; [lia|]. split; [intros e He; by apply elem_of_nil in He|by left].
  - set (m' := if e.2 <? m then e.2 else m).
    destruct (IH m') as (H1 & H2 & H3).
    assert (m' <= m /\ m' <= e.2 /\ (m' = m \/ m' = e.2)) as (Ha & Hb & Hc)
      by (subst m'; destruct (e.2 <? m) eqn:E; b2p; lia).
    split; [lia|]. split.
    + intros e' [->|He']%elem_of_cons; [lia|auto].
    + destruct H3 as [->|(e' & He' & ->)]; [destruct Hc as [->| ->]; [by left|]|];
        right; eexists; (split; [|reflexivity]); rewrite elem_of_cons; auto.
Qed.

Lemma min_seen_inv N st : 0 <= N <= 2 ^ 48 -> inv prov N (old_secrets st) ->
  get_min_seen_secret st = N.
Proof.
  intros HN Hinv. unfold get_min_seen_secret.
  destruct (foldl_min_spec (old_secrets st) (Z.shiftl 1 48)) as (H1 & H2 & H3).
  change (Z.shiftl 1 48) with (2 ^ 48) in *.
  set (r := foldl _ _ _) in *. apply Z.le_antisymm.
  - destruct (Z.eq_dec N (2 ^ 48)) as [->|Hne]; [done|].
    destruct (place_spec N ltac:(lia)) as (Hp & _ & _).
    destruct (lookup_lt_is_Some_2 (old_secrets st) (place_secret N)) as [[s J] Hl];
      [rewrite (inv_length _ _ _ Hinv); lia|].
    destruct (inv_bucket _ _ _ Hinv _ _ _ Hl) as [[_ Hno]|(HJ & _ & Hmin)];
      [by destruct (Hno N ltac:(lia))|].
    assert (J = N) as ->.
    { destruct (Z.eq_dec J N); [done|]. by destruct (Hmin N ltac:(lia)). }
    apply (H2 (s, N)). by eapply list_elem_of_lookup_2.
  - destruct H3 as [->|([s J] & He & ->)]; [lia|].
    apply list_elem_of_lookup_1 in He as [i Hi]. cbn.
    destruct (inv_bucket _ _ _ Hinv _ _ _ Hi) as [[-> _]|(? & _)]; lia.
Qed.

Lemma inv_step n st st' : 0 <= n < 2 ^ 48 -> inv prov (n + 1) (old_secrets st) ->
  provide_secret st n (prov n) = Ok st' -> inv prov n (old_secrets st').
Proof.
  intros Hn Hinv H. unfold provide_secret in H. inv_ok H. rename Hx into Hchk.
  rewrite (min_seen_inv (n + 1)) in H by (done || lia).
  rewrite (proj2 (Z.leb_gt _ _)) in H by lia.
  destruct (place_secret n <? _)%nat eqn:Hlen; [|done]. injection H as <-. cbn [old_secrets].
  destruct (place_spec n ltac:(lia)) as (Hp & Hp0 & Hp1). set (p := place_secret n) in *.
  apply Nat.ltb_lt in Hlen. split.
  - rewrite length_insert. apply (inv_length _ _ _ Hinv).
  - intros i s J [(<- & [= <- <-] & _)|(Hne & Hl)]%list_lookup_insert_Some.
    + right. split; [lia|]. split; [done|lia].
    + destruct (inv_bucket _ _ _ Hinv _ _ _ Hl) as [[-> Hno]|(HJ & HpJ & Hmin)].
      * left. split; [done|]. intros idx Hidx.
        destruct (Z.eq_dec idx n) as [->|]; [by fold p|]. apply Hno. lia.
      * right. split; [lia|]. split; [done|]. intros idx Hidx.
        destruct (Z.eq_dec idx n) as [->|]; [by fold p|]. apply Hmin. lia.
  - intros i s J idx [(<- & [= <- <-] & _)|(Hne & Hl)]%list_lookup_insert_Some Hidx Hhi.
    + destruct (Z.eq_dec idx n) as [->|Hd]; [by apply derive_zero; lia|].
      pose proof (hi_bound idx p). destruct (top_bit p (idx - n) ltac:(lia)) as (k & Hk & Hb).
      destruct (lookup_lt_is_Some_2 (old_secrets st) k) as [[sk Jk] Hlk];
        [rewrite (inv_length _ _ _ Hinv); lia|].
      pose proof (inv_lower prov n (old_secrets st) k sk Jk ltac:(lia) ltac:(lia) Hinv Hk Hlk) as ->.
      pose proof (pow2_S k). pose proof (pow2_pos k).
      assert (Hhk : hi idx k = n + 2 ^ Z.of_nat k).
      { apply hi_unique; [|lia].
        rewrite <- Z.add_mod_idemp_l by lia. rewrite <- (mod_tower n k p), Hp0 by lia.
        rewrite Z.mod_0_l by lia. apply Z.mod_same. lia. }
      rewrite (derive_via _ p k) by lia. rewrite Hhk.
      rewrite (check_buckets_Ok _ _ _ _ _ Hchk k sk _ ltac:(apply elem_of_seq; lia) Hlk).
      apply (inv_derives _ _ _ Hinv _ _ _ _ Hlk); [lia|done].
    + destruct (Z.eq_dec idx n) as [->|Hd]; [|apply (inv_derives _ _ _ Hinv _ _ _ _ Hl); [lia|done]].
      exfalso. assert (HJ : n < J)
        by (destruct (inv_bucket _ _ _ Hinv _ _ _ Hl) as [[-> _]|(? & _)]; lia).
      pose proof (hi_bound n i). lia.
Qed.

(** Some bucket derives every provided index. *)
Lemma match_exists N l idx : 0 <= N <= idx -> idx < 2 ^ 48 -> inv prov N l ->
  exists i s J, l !! i = Some (s, J) /\ hi idx i = J.
Proof.
  intros HN Hidx Hinv.
  assert (Hsearch : forall k, exists i, (i <= k)%nat /\ N <= hi idx i
    /\ (i = k \/ hi idx (S i) < N)).
  { induction k as [|k (i & Hi & Hge & Hor)].
    - exists 0%nat. split; [lia|]. rewrite Z.mod_1_r. split; [lia|by left].
    - destruct Hor as [->|Hor]; [|exists i; split; [lia|]; auto].
      destruct (Z.lt_ge_cases (hi idx (S k)) N).
      + exists k. split; [lia|]. auto.
      + exists (S k). split; [lia|]. split; [lia|by left]. }
  destruct (Hsearch 48%nat) as (i & Hi & Hge & Hor).
  destruct (lookup_lt_is_Some_2 l i) as [[s J] Hl]; [rewrite (inv_length _ _ _ Hinv); lia|].
  exists i, s, J. split; [done|].
  assert (Hpl : place_secret (hi idx i) = i).
  { apply place_unique; [apply hi_nonneg; lia|done|apply hi_mod|]. intros Hi48.
    destruct Hor as [->|Hor]; [lia|]. pose proof (pow2_pos i). pose proof (pow2_S i).
    destruct (hi_S idx i) as [Hs|Hs]; [lia|].
    replace (hi idx i) with (hi idx (S i) + 2 ^ Z.of_nat i) by lia.
    rewrite <- Z.add_mod_idemp_l by lia. rewrite hi_mod. apply Z.mod_small. lia. }
  pose proof (hi_bound idx i) as Hb.
  destruct (inv_bucket _ _ _ Hinv _ _ _ Hl) as [[_ Hno]|(HJ & HpJ & Hmin)];
    [by destruct (Hno (hi idx i) ltac:(lia))|].
  destruct (Z.lt_trichotomy J (hi idx i)) as [Hlt|[->|Hgt]]; [|done|];
    [|by destruct (Hmin (hi idx i) ltac:(lia))].
  exfalso. destruct Hor as [->|Hor].
  { destruct (place_spec J ltac:(lia)) as (_ & HJ0 & _). rewrite HpJ in HJ0.
    rewrite Z.mod_small in HJ0 by (cbn; lia).
    rewrite (Z.mod_small idx) in Hlt by (cbn; lia). lia. }
  destruct (Nat.eq_dec i 48) as [->|]; [rewrite (Z.mod_small idx) in Hlt by (cbn; lia); lia|].
  destruct (place_spec J ltac:(lia)) as (_ & _ & HJ1). rewrite HpJ in HJ1.
  specialize (HJ1 ltac:(lia)). pose proof (pow2_pos i). pose proof (pow2_S i).
  destruct (hi_S idx i) as [Hs|Hs]; [lia|].
  assert (hi J (S i) = J - 2 ^ Z.of_nat i) by lia.
  pose proof (hi_mod idx (S i)) as Hm. pose proof (hi_mod J (S i)) as HmJ.
  pose proof (multiple_gap (hi J (S i)) (2 ^ Z.of_nat (S i)) (hi idx (S i) / 2 ^ Z.of_nat (S i))
    ltac:(lia) HmJ) as Hgap.
  pose proof (Z.div_mod (hi idx (S i)) (2 ^ Z.of_nat (S i)) ltac:(lia)) as Hd.
  rewrite Hm in Hd. lia.
Qed.
End store.

(** ** Properties *)

Section claims.
Context `{L : Lib}.

(** Provide the secrets of consecutive indexes, downwards from [idx]. *)
Fixpoint provide_all (st : CounterpartyCommitmentSecrets) (idx : Z) (secrets : list bytes)
  : outcome unit CounterpartyCommitmentSecrets :=
  match secrets with
  | [] => Ok st
  | s :: secrets' => st' ← provide_secret st idx s; provide_all st' (idx - 1) secrets'
  end.

(** The secret at an index, in a list that starts at index [2^48 - 1]. *)
Definition nth_secret (secrets : list bytes) (idx : Z) : bytes :=
  default [] (secrets !! Z.to_nat (2 ^ 48 - 1 - idx)).

Lemma provide_all_inv prov secrets st st' N :
  Z.of_nat (length secrets) <= N <= 2 ^ 48 -> inv prov N (old_secrets st) ->
  (forall k s, secrets !! k = Some s -> prov (N - 1 - Z.of_nat k) = s) ->
  provide_all st (N - 1) secrets = Ok st' ->
  inv prov (N - Z.of_nat (length secrets)) (old_secrets st').
Proof.
  revert st N. induction secrets as [|s secrets IH]; intros st N HN Hinv Hprov H.
  - injection H as <-. by rewrite Z.sub_0_r.
  - cbn in H. inv_ok H. cbn [length] in *.
    replace (N - Z.of_nat (S (length secrets))) with (N - 1 - Z.of_nat (length secrets)) by lia.
    apply (IH x); [lia| | |done].
    + apply inv_step with (st := st); [lia|by replace (N - 1 + 1) with N by lia|].
      rewrite <- (Hprov 0%nat s eq_refl) in Hx. by rewrite Z.sub_0_r in Hx.
    + intros k s' Hk. rewrite <- (Hprov (S k) s' Hk). f_equal. lia.
Qed.

Lemma get_secret_loop_found idx l k r :
  (forall i s J, l !! i = Some (s, J) -> mask_low idx (k + i) = J ->
     derive_secret s (k + i) idx = r) ->
  (exists i s J, l !! i = Some (s, J) /\ mask_low idx (k + i) = J) ->
  get_secret_loop idx k l = Some r.
Proof.
  revert k. induction l as [|[s J] l IH]; intros k Hall (i & s' & J' & Hl & Hm); [done|].
  cbn. destruct (mask_low idx k =? J) eqn:E.
  - b2p. f_equal. rewrite <- (Nat.add_0_r k). apply (Hall 0%nat s J eq_refl). by rewrite Nat.add_0_r.
  - apply IH.
    + intros i' s'' J'' Hl' Hm'. rewrite Nat.add_succ_comm in *. by apply (Hall (S i') s'' J'').
    + destruct i as [|i]; cbn in Hl.
      { injection Hl as -> ->. rewrite Nat.add_0_r in Hm. b2p. done. }
      exists i, s', J'. split; [done|]. by rewrite Nat.add_succ_comm.
Qed.

Lemma get_secret_loop_none idx l k :
  (forall i s J, l !! i = Some (s, J) -> mask_low idx (k + i) <> J) ->
  get_secret_loop idx k l = None.
Proof.
  revert k. induction l as [|[s J] l IH]; intros k Hall; [done|]. cbn.
  rewrite (proj2 (Z.eqb_neq _ _)).
  - apply IH. intros i s' J' Hl. rewrite Nat.add_succ_comm. by apply (Hall (S i) s').
  - rewrite <- (Nat.add_0_r k). by apply (Hall 0%nat s).
Qed.

Lemma get_secret_inv prov N st idx : 0 <= N <= 2 ^ 48 -> 0 <= idx < 2 ^ 48 ->
  inv prov N (old_secrets st) ->
  get_secret st idx = Ok (if N <=? idx then Some (prov idx) else None).
Proof.
  intros HN Hidx Hinv. unfold get_secret.
  assert (Hmask : forall i s J, old_secrets st !! i = Some (s, J) ->
    mask_low idx (0 + i) = hi idx i).
  { intros i s J Hl. apply mask_low_hi; [lia|]. apply lookup_lt_Some in Hl.
    rewrite (inv_length _ _ _ Hinv) in Hl. lia. }
  destruct (N <=? idx) eqn:Hge; b2p.
  - rewrite (get_secret_loop_found _ _ _ (prov idx)); [done|..].
    + intros i s J Hl Hm. rewrite (Hmask _ _ _ Hl) in Hm.
      apply (inv_derives _ _ _ Hinv _ _ _ _ Hl); [lia|done].
    + destruct (match_exists prov N (old_secrets st) idx) as (i & s & J & Hl & Hh); [lia..|done|].
      exists i, s, J. by rewrite (Hmask _ _ _ Hl).
  - rewrite get_secret_loop_none.
    + rewrite (min_seen_inv prov N) by done. by rewrite (proj2 (Z.ltb_lt _ _)).
    + intros i s J Hl. rewrite (Hmask _ _ _ Hl). pose proof (hi_bound idx i).
      destruct (inv_bucket _ _ _ Hinv _ _ _ Hl) as [[-> _]|(? & _)]; lia.
Qed.

(** C14: the compact store loses nothing.  After any sequence of secrets was
    accepted for the indexes [2^48 - 1], [2^48 - 2], ..., whoever chose the
    secrets, [get_secret] returns for every one of these indexes the very
    secret that was provided for it, and [None] for the indexes below, and
    the minimum seen is the last index provided. *)
Theorem secrets_store_faithful (secrets : list bytes) (st : CounterpartyCommitmentSecrets)
  (Hlen : Z.of_nat (length secrets) <= 2 ^ 48)
  (Hok : provide_all secrets_new (2 ^ 48 - 1) secrets = Ok st) :
  get_min_seen_secret st = 2 ^ 48 - Z.of_nat (length secrets)
  /\ forall idx, 0 <= idx < 2 ^ 48 ->
     get_secret st idx = Ok (secrets !! Z.to_nat (2 ^ 48 - 1 - idx)).
Proof.
  assert (Hinv : inv (nth_secret secrets) (2 ^ 48 - Z.of_nat (length secrets)) (old_secrets st)).
  { apply (provide_all_inv _ secrets secrets_new); [lia|apply inv_new| |done].
    intros k s Hk. unfold nth_secret. replace (Z.to_nat _) with k by lia. by rewrite Hk. }
  split; [apply (min_seen_inv (nth_secret secrets)); [lia|exact Hinv]|]. intros idx Hidx.
  rewrite (get_secret_inv (nth_secret secrets) (2 ^ 48 - Z.of_nat (length secrets)) st idx
    ltac:(clear -Hlen; lia) Hidx Hinv).
  unfold nth_secret. remember (Z.to_nat (2 ^ 48 - 1 - idx)) as m eqn:Hm.
  destruct (_ <=? idx) eqn:Hge; b2p.
  - destruct (lookup_lt_is_Some_2 secrets m) as [s Hs]; [lia|]. by rewrite Hs.
  - by rewrite (lookup_ge_None_2 secrets m) by lia.
Qed.

(** The secret a counterparty that follows BOLT-3 reveals for an index. *)
Definition honest_secret (seed : bytes) (idx : Z) : bytes := derive_secret seed 48 idx.

Lemma check_buckets_honest seed n st : 0 <= n < 2 ^ 48 ->
  inv (honest_secret seed) (n + 1) (old_secrets st) ->
  check_buckets (honest_secret seed n) (place_secret n) st (seq 0 (place_secret n)) = Ok tt.
Proof.
  intros Hn Hinv. destruct (place_spec n ltac:(lia)) as (Hp & Hp0 & _).
  set (p := place_secret n) in *.
  assert (Hall : forall idxs, (forall i, i ∈ idxs -> (i < p)%nat) ->
    check_buckets (honest_secret seed n) p st idxs = Ok tt); [|apply Hall; intros i Hi; apply elem_of_seq in Hi; lia].
  induction idxs as [|i idxs IH]; intros Hin; [done|]. cbn [check_buckets].
  assert (Hi : (i < p)%nat) by (apply Hin; apply list_elem_of_here).
  destruct (lookup_lt_is_Some_2 (old_secrets st) i) as [[s J] Hl];
    [rewrite (inv_length _ _ _ Hinv); lia|].
  rewrite Hl. step. pose proof (pow2_pos i). pose proof (pow2_pos p).
  pose proof (inv_lower _ n _ i s J ltac:(lia) ltac:(lia) Hinv Hi Hl) as HJ.
  assert (HJ48 : n + 1 <= J < 2 ^ 48 /\ J mod 2 ^ Z.of_nat i = 0).
  { destruct (inv_bucket _ _ _ Hinv _ _ _ Hl) as [[-> Hno]|(? & <- & _)].
    - exfalso. pose proof (pow2_le (S i) p ltac:(lia)). rewrite pow2_S in *.
      assert (n + 2 ^ Z.of_nat p <= 2 ^ 48); [|lia].
      assert (Hq : 2 ^ 48 = 2 ^ Z.of_nat (48 - p) * 2 ^ Z.of_nat p)
        by (rewrite <- Z.pow_add_r by lia; f_equal; lia).
      rewrite Hq in *. apply multiple_gap; [done..|lia].
    - split; [done|]. apply place_spec. lia. }
  assert (Hs : s = honest_secret seed J).
  { rewrite <- (inv_derives _ _ _ Hinv i s J J Hl); [|lia|lia]. symmetry. apply derive_zero; lia. }
  rewrite decide_True; [apply IH; intros k Hk; apply Hin; by apply list_elem_of_further|].
  rewrite Hs. unfold honest_secret. rewrite (derive_via seed 48 p J) by lia.
  pose proof (pow2_le (S i) p ltac:(lia)). rewrite pow2_S in *.
  by rewrite (hi_unique J n p) by lia.
Qed.

(** A counterparty that derives its secrets from a seed as BOLT-3 says is
    never rejected: all its secrets, in the order of revocation, are
    accepted. *)
Theorem honest_secrets_accepted (seed : bytes) (k : nat) (Hk : Z.of_nat k <= 2 ^ 48) :
  exists st, provide_all secrets_new (2 ^ 48 - 1)
    (map (fun i => honest_secret seed (2 ^ 48 - 1 - Z.of_nat i)) (seq 0 k)) = Ok st.
Proof.
  enough (Hgen : forall st a, inv (honest_secret seed) (2 ^ 48 - Z.of_nat a) (old_secrets st) ->
    Z.of_nat (a + k) <= 2 ^ 48 ->
    exists st', provide_all st (2 ^ 48 - 1 - Z.of_nat a)
      (map (fun i => honest_secret seed (2 ^ 48 - 1 - Z.of_nat i)) (seq a k)) = Ok st').
  { destruct (Hgen secrets_new 0%nat) as [st Hst]; [apply inv_new|lia|].
    exists st. by rewrite Z.sub_0_r in Hst. }
  clear Hk. induction k as [|k IH]; intros st a Hinv Hak; [by eexists|].
  cbn [seq map provide_all]. set (n := 2 ^ 48 - 1 - Z.of_nat a).
  assert (Hinv' : inv (honest_secret seed) (n + 1) (old_secrets st))
    by (by replace (n + 1) with (2 ^ 48 - Z.of_nat a) by lia).
  assert (Hprov : exists st1, provide_secret st n (honest_secret seed n) = Ok st1).
  { unfold provide_secret. rewrite check_buckets_honest by (done || lia). step.
    rewrite (min_seen_inv (honest_secret seed) (n + 1)) by (done || lia).
    rewrite (proj2 (Z.leb_gt _ _)), (inv_length _ _ _ Hinv') by lia.
    destruct (place_spec n ltac:(lia)) as (Hp & _).
    rewrite (proj2 (Nat.ltb_lt _ _)) by lia. by eexists. }
  destruct Hprov as [st1 Hst1]. rewrite Hst1. step.
  destruct (IH st1 (S a)) as [st' Hst'].
  - replace (2 ^ 48 - Z.of_nat (S a)) with n by lia.
    apply (inv_step _ n st); [lia|exact Hinv'|exact Hst1].
  - lia.
  - exists st'. rewrite <- Hst'. f_equal. lia.
Qed.
End claims.

Lemma secrets_store_faithful_witness :
  let L := example_lib in
  let seed := replicate 32 9 in
  exists st, provide_all secrets_new (2 ^ 48 - 1)
    (map (fun i => honest_secret seed (2 ^ 48 - 1 - Z.of_nat i)) (seq 0 5)) = Ok st
  /\ get_min_seen_secret st = 2 ^ 48 - 5
  /\ get_secret st (2 ^ 48 - 2) = Ok (Some (honest_secret seed (2 ^ 48 - 2))).
Proof.
  intros L seed. eexists. split; [vm_compute; reflexivity|].
  refine (let H := @secrets_store_faithful L
    (map (fun i => honest_secret seed (2 ^ 48 - 1 - Z.of_nat i)) (seq 0 5)) _ _ _ in _).
  split; [apply H|]. rewrite (proj2 H); [reflexivity|lia].
  Unshelve. all: by vm_compute.
Defined.

Lemma honest_secrets_accepted_witness :
  let L := example_lib in
  exists st, provide_all secrets_new (2 ^ 48 - 1)
    (map (fun i => honest_secret (replicate 32 9) (2 ^ 48 - 1 - Z.of_nat i)) (seq 0 5)) = Ok st.
Proof. intros L. apply (@honest_secrets_accepted L (replicate 32 9) 5). lia. Defined.
