(* ===== verification/Enforcement.v ===== *)
(** * Enforcement state (vls-core/src/policy/validator.rs)

    The state that the policy checks of a channel are made against: the
    commitment numbers of both sides, the current commitments, and the
    secrets the counterparty revealed. *)

From S2P Require Import Prelude Order Extern Setup Tx Secrets.

(** ** Data *)

Record ChainState := {
  current_height : Z;
  funding_depth : Z;
  funding_double_spent_depth : Z;
  closing_depth : Z
}.

(** The commitment signature and the HTLC signatures. *)
Notation CommitmentSignatures := (list Z * list (list Z))%type.

Record EnforcementState := {
  next_holder_commit_num : Z;
  next_counterparty_commit_num : Z;
  next_counterparty_revoke_num : Z;
  current_counterparty_point : option PublicKey;
  previous_counterparty_point : option PublicKey;
  current_holder_commit_info : option CommitmentInfo2;
  current_counterparty_signatures : option CommitmentSignatures;
  current_counterparty_commit_info : option CommitmentInfo2;
  previous_counterparty_commit_info : option CommitmentInfo2;
  channel_closed : bool;
  initial_holder_value : Z;
  counterparty_secrets : option CounterpartyCommitmentSecrets
}.

Definition EnforcementState_new (initial_holder_value : Z) : EnforcementState := {|
  next_holder_commit_num := 0;
  next_counterparty_commit_num := 0;
  next_counterparty_revoke_num := 0;
  current_counterparty_point := None;
  previous_counterparty_point := None;
  current_holder_commit_info := None;
  current_counterparty_signatures := None;
  current_counterparty_commit_info := None;
  previous_counterparty_commit_info := None;
  channel_closed := false;
  initial_holder_value := initial_holder_value;
  counterparty_secrets := Some secrets_new
|}.

Record ChannelBalance := {
  claimable : Z;
  received_htlc : Z;
  offered_htlc : Z;
  sweeping : Z;
  channel_count : Z;
  received_htlc_count : Z;
  offered_htlc_count : Z
}.

Definition ChannelBalance_zero : ChannelBalance := {|
  claimable := 0; received_htlc := 0; offered_htlc := 0; sweeping := 0; channel_count := 0;
  received_htlc_count := 0; offered_htlc_count := 0 |}.

Definition accumulate `{Profile} {E} (self other : ChannelBalance) : outcome E ChannelBalance :=
  a ← add64 (claimable self) (claimable other);
  b ← add64 (received_htlc self) (received_htlc other);
  c ← add64 (offered_htlc self) (offered_htlc other);
  d ← add64 (sweeping self) (sweeping other);
  e ← add32 (channel_count self) (channel_count other);
  f ← add32 (received_htlc_count self) (received_htlc_count other);
  g ← add32 (offered_htlc_count self) (offered_htlc_count other);
  Ok {| claimable := a; received_htlc := b; offered_htlc := c; sweeping := d;
        channel_count := e; received_htlc_count := f; offered_htlc_count := g |}.

(** [BalanceDelta(before, after)], in satoshi. *)
Notation BalanceDelta := (Z * Z)%type.

(** ** Setters *)

Definition set_holder (es : EnforcementState) (num : Z) (info : option CommitmentInfo2)
  (sigs : option CommitmentSignatures) : EnforcementState := {|
  next_holder_commit_num := num;
  next_counterparty_commit_num := next_counterparty_commit_num es;
  next_counterparty_revoke_num := next_counterparty_revoke_num es;
  current_counterparty_point := current_counterparty_point es;
  previous_counterparty_point := previous_counterparty_point es;
  current_holder_commit_info := info;
  current_counterparty_signatures := sigs;
  current_counterparty_commit_info := current_counterparty_commit_info es;
  previous_counterparty_commit_info := previous_counterparty_commit_info es;
  channel_closed := channel_closed es;
  initial_holder_value := initial_holder_value es;
  counterparty_secrets := counterparty_secrets es
|}.

Definition set_counterparty (es : EnforcementState) (commit_num revoke_num : Z)
  (cur_point prev_point : option PublicKey) (cur_info prev_info : option CommitmentInfo2)
  : EnforcementState := {|
  next_holder_commit_num := next_holder_commit_num es;
  next_counterparty_commit_num := commit_num;
  next_counterparty_revoke_num := revoke_num;
  current_counterparty_point := cur_point;
  previous_counterparty_point := prev_point;
  current_holder_commit_info := current_holder_commit_info es;
  current_counterparty_signatures := current_counterparty_signatures es;
  current_counterparty_commit_info := cur_info;
  previous_counterparty_commit_info := prev_info;
  channel_closed := channel_closed es;
  initial_holder_value := initial_holder_value es;
  counterparty_secrets := counterparty_secrets es
|}.

Definition set_closed_secrets (es : EnforcementState) (closed : bool)
  (secrets : option CounterpartyCommitmentSecrets) : EnforcementState := {|
  next_holder_commit_num := next_holder_commit_num es;
  next_counterparty_commit_num := next_counterparty_commit_num es;
  next_counterparty_revoke_num := next_counterparty_revoke_num es;
  current_counterparty_point := current_counterparty_point es;
  previous_counterparty_point := previous_counterparty_point es;
  current_holder_commit_info := current_holder_commit_info es;
  current_counterparty_signatures := current_counterparty_signatures es;
  current_counterparty_commit_info := current_counterparty_commit_info es;
  previous_counterparty_commit_info := previous_counterparty_commit_info es;
  channel_closed := closed;
  initial_holder_value := initial_holder_value es;
  counterparty_secrets := secrets
|}.

(** ** Operations on the commitment numbers *)

(** The smaller of two amounts when they are within [epsilon] of each other. *)
Definition min_within (epsilon_sat hval cval : Z) : option Z :=
  if cval <? hval then
    if hval - cval <=? epsilon_sat then Some cval else None
  else
    if cval - hval <=? epsilon_sat then Some hval else None.

Definition minimum_to_holder_value (self : EnforcementState) (epsilon_sat : Z) : option Z :=
  match current_holder_commit_info self with
  | Some hinfo =>
      match current_counterparty_commit_info self with
      | Some cinfo =>
          min_within epsilon_sat (to_broadcaster_value_sat hinfo)
            (to_countersigner_value_sat cinfo)
      | None => None
      end
  | None => None
  end.

Definition minimum_to_counterparty_value (self : EnforcementState) (epsilon_sat : Z)
  : option Z :=
  match current_holder_commit_info self with
  | Some hinfo =>
      match current_counterparty_commit_info self with
      | Some cinfo =>
          min_within epsilon_sat (to_countersigner_value_sat hinfo)
            (to_broadcaster_value_sat cinfo)
      | None => None
      end
  | None => None
  end.

Definition es_set_next_holder_commit_num (self : EnforcementState) (num : Z)
  (current_commitment_info : CommitmentInfo2) (counterparty_signatures : CommitmentSignatures)
  : EnforcementState :=
  set_holder self num (Some current_commitment_info) (Some counterparty_signatures).

Definition es_get_current_holder_commitment_info {E} (self : EnforcementState)
  : outcome E CommitmentInfo2 :=
  unwrap (current_holder_commit_info self).

Section numbers.
Context `{Prof : Profile} {E : Type}.

Definition es_set_next_counterparty_commit_num (self : EnforcementState) (num : Z)
  (current_point : PublicKey) (current_commitment_info : CommitmentInfo2)
  : outcome E EnforcementState :=
  assert_ (0 <? num);;
  let current := next_counterparty_commit_num self in
  next ← add64 current 1;
  let '(prev_point, prev_info, cur_info) :=
    if num =? next then
      (current_counterparty_point self, current_counterparty_commit_info self, None)
    else if (next <? num) || (num <? current) then
      (None, None, current_counterparty_commit_info self)
    else
      (previous_counterparty_point self, previous_counterparty_commit_info self,
       current_counterparty_commit_info self) in
  let '(cur_point, cur_info) :=
    if next <=? num then (Some current_point, Some current_commitment_info)
    else (current_counterparty_point self, cur_info) in
  Ok (set_counterparty self num (next_counterparty_revoke_num self)
        cur_point prev_point cur_info prev_info).

Definition get_previous_counterparty_point (self : EnforcementState) (num : Z)
  : outcome E (option PublicKey) :=
  n1 ← add64 num 1;
  if n1 =? next_counterparty_commit_num self then Ok (current_counterparty_point self)
  else
    n2 ← add64 num 2;
    if n2 =? next_counterparty_commit_num self then Ok (previous_counterparty_point self)
    else Ok None.

Definition get_previous_counterparty_commit_info (self : EnforcementState) (num : Z)
  : outcome E (option CommitmentInfo2) :=
  n1 ← add64 num 1;
  if n1 =? next_counterparty_commit_num self then Ok (current_counterparty_commit_info self)
  else
    n2 ← add64 num 2;
    if n2 =? next_counterparty_commit_num self then Ok (previous_counterparty_commit_info self)
    else Ok None.

Definition es_set_next_counterparty_revoke_num (self : EnforcementState) (num : Z)
  : outcome E EnforcementState :=
  assert_ (negb (num =? 0));;
  n1 ← add64 num 1;
  let prev_info :=
    if next_counterparty_commit_num self <=? n1 then None
    else previous_counterparty_commit_info self in
  Ok (set_counterparty self (next_counterparty_commit_num self) num
        (current_counterparty_point self) (previous_counterparty_point self)
        (current_counterparty_commit_info self) prev_info).
End numbers.

(** ** Payments in flight *)

Section payments.
Context `{Prof : Profile} {E : Type}.

(** HTLCs of the same payment are summed. *)
Definition summarize_payments (htlcs : list HTLCInfo2) : outcome E (gmap PaymentHash Z) :=
  foldM (fun summary h =>
    match summary !! payment_hash h with
    | Some e => e' ← add64 e (value_sat h); Ok (<[payment_hash h := e']> summary)
    | None => Ok (<[payment_hash h := value_sat h]> summary)
    end) ∅ htlcs.

(** [entry(k).or_insert(0)] for every HTLC. *)
Definition insert_missing (summary : gmap PaymentHash Z) (htlcs : list HTLCInfo2)
  : gmap PaymentHash Z :=
  foldl (fun s h =>
    match s !! payment_hash h with
    | Some _ => s
    | None => <[payment_hash h := 0]> s
    end) summary htlcs.

Definition opt_htlcs (o : option (list HTLCInfo2)) : list HTLCInfo2 := default [] o.

Definition opt_or {A} (a b : option A) : option A :=
  match a with Some _ => a | None => b end.

Definition payments_summary (self : EnforcementState)
  (new_holder_tx new_counterparty_tx : option CommitmentInfo2)
  : outcome E (gmap PaymentHash Z) :=
  let holder_offered :=
    offered_htlcs <$> opt_or new_holder_tx (current_holder_commit_info self) in
  let counterparty_received :=
    received_htlcs <$> opt_or new_counterparty_tx (current_counterparty_commit_info self) in
  holder_summary ← (match holder_offered with
                    | Some h => summarize_payments h | None => Ok ∅ end);
  counterparty_summary ← (match counterparty_received with
                          | Some h => summarize_payments h | None => Ok ∅ end);
  let summary := map_fold (fun k v summary =>
      match summary !! k with
      | Some e => <[k := Z.max e v]> summary
      | None => <[k := v]> summary
      end) holder_summary counterparty_summary in
  let summary := insert_missing summary
    (opt_htlcs (offered_htlcs <$> current_holder_commit_info self)) in
  Ok (insert_missing summary
    (opt_htlcs (received_htlcs <$> current_counterparty_commit_info self))).

Definition incoming_payments_summary (self : EnforcementState)
  (new_holder_tx new_counterparty_tx : option CommitmentInfo2)
  : outcome E (gmap PaymentHash Z) :=
  let holder_received :=
    received_htlcs <$> opt_or new_holder_tx (current_holder_commit_info self) in
  let counterparty_offered :=
    offered_htlcs <$> opt_or new_counterparty_tx (current_counterparty_commit_info self) in
  holder_summary ← (match holder_received with
                    | Some h => summarize_payments h | None => Ok ∅ end);
  counterparty_summary ← (match counterparty_offered with
                          | Some h => summarize_payments h | None => Ok ∅ end);
  let summary := base.filter (fun kv => is_Some (counterparty_summary !! kv.1))
    holder_summary in
  let summary := map_fold (fun k v summary =>
      match summary !! k with
      | Some e => <[k := Z.min e v]> summary
      | None => summary
      end) summary counterparty_summary in
  let summary := insert_missing summary
    (opt_htlcs (received_htlcs <$> current_holder_commit_info self)) in
  Ok (insert_missing summary
    (opt_htlcs (offered_htlcs <$> current_counterparty_commit_info self))).
End payments.

(** ** Balances *)

Definition min_opt (a_opt b_opt : option Z) : option Z :=
  match a_opt with
  | Some a => match b_opt with Some b => Some (Z.min a b) | None => a_opt end
  | None => b_opt
  end.

Section balances.
Context `{Prof : Profile} {E : Type}.

(** [opt.map(|tx| tx.claimable_balance(..))]. *)
Definition opt_claimable (tx : option CommitmentInfo2) (pm : PreimageMap)
  (setup : ChannelSetup) : outcome E (option Z) :=
  match tx with
  | Some tx =>
      b ← claimable_balance tx pm (is_outbound setup) (channel_value_sat setup); Ok (Some b)
  | None => Ok None
  end.

Definition claimable_balances (self : EnforcementState) (pm : PreimageMap)
  (new_holder_tx new_counterparty_tx : option CommitmentInfo2) (setup : ChannelSetup)
  : outcome E BalanceDelta :=
  assert_ (bool_decide (is_Some new_holder_tx) || bool_decide (is_Some new_counterparty_tx));;
  assert_ (bool_decide (new_holder_tx = None) || bool_decide (new_counterparty_tx = None));;
  cur_holder_bal ← opt_claimable (current_holder_commit_info self) pm setup;
  cur_cp_bal ← opt_claimable (current_counterparty_commit_info self) pm setup;
  let cur_bal_opt := min_opt cur_holder_bal cur_cp_bal in
  new_holder_bal ←
    opt_claimable (opt_or new_holder_tx (current_holder_commit_info self)) pm setup;
  new_cp_bal ←
    opt_claimable (opt_or new_counterparty_tx (current_counterparty_commit_info self)) pm setup;
  new_bal ← unwrap (min_opt new_holder_bal new_cp_bal);
  let cur_bal := default (initial_holder_value self) cur_bal_opt in
  Ok (cur_bal, new_bal).

Definition balance (self : EnforcementState) (pm : PreimageMap) (setup : ChannelSetup)
  : outcome E ChannelBalance :=
  match current_holder_commit_info self, current_counterparty_commit_info self with
  | Some hinfo, Some cinfo =>
      cur_holder_bal ←
        claimable_balance hinfo pm (is_outbound setup) (channel_value_sat setup);
      cur_cp_bal ←
        claimable_balance cinfo pm (is_outbound setup) (channel_value_sat setup);
      let '(cur_bal, info) :=
        if cur_holder_bal <? cur_cp_bal then (cur_holder_bal, hinfo) else (cur_cp_bal, cinfo) in
      '(received, offered, received_count, offered_count) ← htlc_balance info;
      let '(claimable, sweeping) :=
        if channel_closed self then (0, cur_bal) else (cur_bal, 0) in
      Ok {| claimable := claimable; received_htlc := received; offered_htlc := offered;
            sweeping := sweeping; channel_count := 1;
            received_htlc_count := received_count; offered_htlc_count := offered_count |}
  | _, _ => Ok ChannelBalance_zero
  end.
End balances.

(** ** The summaries, as functions of the payment hash *)

(** The total of the HTLCs of a payment, when there is one. *)
Definition hash_sum (l : list HTLCInfo2) (h : PaymentHash) : option Z :=
  if decide (h ∈ map payment_hash l)
  then Some (htlc_sum (base.filter (fun x => payment_hash x = h) l)) else None.

(** Amounts are nonnegative and add up below [2^64]. *)
Definition htlcs_ok (l : list HTLCInfo2) : Prop :=
  Forall (fun h => 0 <= value_sat h) l /\ htlc_sum l < 2 ^ 64.

Section summary_lemmas.
Context `{Prof : Profile} {E : Type}.
Implicit Types (l : list HTLCInfo2) (h : PaymentHash).

Lemma htlc_sum_app l1 l2 : htlc_sum (l1 ++ l2) = htlc_sum l1 + htlc_sum l2.
Proof. unfold htlc_sum. by rewrite map_app, sum_list_Z_app. Qed.

Lemma hash_sum_snoc l x h :
  hash_sum (l ++ [x]) h =
    if decide (payment_hash x = h) then Some (default 0 (hash_sum l h) + value_sat x)
    else hash_sum l h.
Proof.
  unfold hash_sum. rewrite map_app, filter_app, filter_cons, filter_nil, htlc_sum_app. cbn [map].
  destruct (decide (payment_hash x = h)) as [Hx|Hx].
  - rewrite decide_True by (apply elem_of_app; right; by apply list_elem_of_singleton).
    f_equal. unfold htlc_sum at 2. cbn. rewrite Z.add_0_r. f_equal. case_decide as Hin; [done|].
    cbn. rewrite filter_none; [done|].
    intros y Hy Hyh. apply Hin. apply list_elem_of_fmap. by exists y.
  - cbn. rewrite Z.add_0_r. destruct (decide (h ∈ map payment_hash l)) as [Hin|Hin].
    + rewrite decide_True; [done|]. apply elem_of_app. by left.
    + rewrite decide_False; [done|]. rewrite elem_of_app, list_elem_of_singleton. naive_solver.
Qed.

Lemma hash_sum_bound l h : Forall (fun x => 0 <= value_sat x) l ->
  0 <= default 0 (hash_sum l h) <= htlc_sum l.
Proof.
  intros Hl. unfold hash_sum.
  pose proof (htlc_sum_nonneg _ Hl). case_decide; cbn; [|lia].
  clear -Hl. induction Hl as [|x l Hx Hl IH]; [done|]. rewrite filter_cons.
  case_decide; unfold htlc_sum, sum_list_Z in *; cbn in *; lia.
Qed.

Lemma summarize_spec l : htlcs_ok l ->
  exists m, summarize_payments (E := E) l = Ok m /\ forall h, m !! h = hash_sum l h.
Proof.
  intros [Hl Hs]. unfold summarize_payments.
  induction l as [|x l IH] using rev_ind.
  { exists ∅. split; [done|]. intros h. by rewrite lookup_empty. }
  apply Forall_app in Hl as [Hl Hx]. rewrite Forall_singleton in Hx.
  rewrite htlc_sum_app in Hs. pose proof (htlc_sum_nonneg _ Hl) as Hl0.
  assert (Hvx : htlc_sum [x] = value_sat x) by (unfold htlc_sum; cbn; lia).
  rewrite Hvx in Hs. destruct IH as (m & Hm & Hlk); [done|lia|].
  rewrite foldM_app, Hm. step. cbn [foldM].
  assert (Hm' : (match m !! payment_hash x with
    | Some e => e' ← add64 e (value_sat x); Ok (<[payment_hash x := e']> m)
    | None => Ok (<[payment_hash x := value_sat x]> m) end)
    = Ok (E := E) (<[payment_hash x := default 0 (hash_sum l (payment_hash x)) + value_sat x]> m)).
  { pose proof (hash_sum_bound l (payment_hash x) Hl) as Hb. rewrite Hlk in *.
    destruct (hash_sum l (payment_hash x)) as [e|]; cbn in *; [|done].
    rewrite add64_in by lia. done. }
  rewrite Hm'. step. eexists. split; [reflexivity|]. intros h. rewrite hash_sum_snoc.
  destruct (decide (payment_hash x = h)) as [<-|Hne].
  - by rewrite lookup_insert_eq.
  - by rewrite lookup_insert_ne by done.
Qed.

(** The loops over a map. *)
Lemma fold_max_lookup (m1 m2 : gmap PaymentHash Z) h :
  map_fold (fun k v s => match s !! k with
    | Some e => <[k := Z.max e v]> s | None => <[k := v]> s end) m1 m2 !! h
  = union_with (fun a b => Some (Z.max a b)) (m1 !! h) (m2 !! h).
Proof.
  revert h. apply (map_fold_weak_ind (fun r m2 => forall h,
    r !! h = union_with (fun a b => Some (Z.max a b)) (m1 !! h) (m2 !! h))).
  - intros h. rewrite lookup_empty. by destruct (m1 !! h).
  - intros k v m r Hk IH h. pose proof (IH k) as IHk. rewrite Hk in IHk.
    destruct (decide (k = h)) as [<-|Hne].
    + rewrite lookup_insert_eq. rewrite IHk. destruct (m1 !! k); cbn; by rewrite lookup_insert_eq.
    + rewrite (lookup_insert_ne m k h) by done.
      rewrite IHk. destruct (m1 !! k); cbn; by rewrite lookup_insert_ne by done.
Qed.

Lemma fold_min_lookup (m1 m2 : gmap PaymentHash Z) h :
  map_fold (fun k v s => match s !! k with
    | Some e => <[k := Z.min e v]> s | None => s end) m1 m2 !! h
  = match m1 !! h, m2 !! h with
    | Some a, Some b => Some (Z.min a b) | a, _ => a end.
Proof.
  revert h. apply (map_fold_weak_ind (fun r m2 => forall h,
    r !! h = match m1 !! h, m2 !! h with Some a, Some b => Some (Z.min a b) | a, _ => a end)).
  - intros h. rewrite lookup_empty. by destruct (m1 !! h).
  - intros k v m r Hk IH h. pose proof (IH k) as IHk. rewrite Hk in IHk.
    destruct (decide (k = h)) as [<-|Hne].
    + rewrite lookup_insert_eq, IHk. destruct (m1 !! k) eqn:H1; cbn;
        [by rewrite lookup_insert_eq|]. by rewrite IHk.
    + rewrite (lookup_insert_ne m k h), IHk by done.
      destruct (m1 !! k); cbn; [|done]. by rewrite lookup_insert_ne by done.
Qed.

Lemma insert_missing_lookup s l h :
  insert_missing s l !! h =
    match s !! h with
    | Some v => Some v
    | None => if decide (h ∈ map payment_hash l) then Some 0 else None
    end.
Proof.
  unfold insert_missing. revert s. induction l as [|x l IH]; intros s; cbn [foldl map].
  - destruct (s !! h); [done|]. rewrite decide_False; [done|]. apply not_elem_of_nil.
  - rewrite IH. destruct (s !! payment_hash x) eqn:Hx.
    + destruct (s !! h) eqn:Hh; [done|]. repeat case_decide; try done.
      * destruct H0. by apply list_elem_of_further.
      * apply elem_of_cons in H0 as [->|]; [congruence|done].
    + destruct (decide (payment_hash x = h)) as [<-|Hne].
      * rewrite lookup_insert_eq, Hx. by rewrite decide_True by apply list_elem_of_here.
      * rewrite lookup_insert_ne by done. destruct (s !! h); [done|].
        repeat case_decide; try done.
        -- destruct H0. by apply list_elem_of_further.
        -- apply elem_of_cons in H0 as [->|]; done.
Qed.
End summary_lemmas.

(** ** Properties *)

Section claims.
Context `{Prof : Profile} {E : Type}.

Lemma summarize_opt (o : option (list HTLCInfo2)) :
  (match o with Some h => summarize_payments (E := E) h | None => Ok ∅ end)
  = summarize_payments (opt_htlcs o).
Proof. by destruct o. Qed.

(** The hash of an HTLC in flight in one of the current commitments. *)
Definition zero_if_pending (l1 l2 : list HTLCInfo2) (h : PaymentHash) : option Z :=
  if decide (h ∈ map payment_hash (l1 ++ l2)) then Some 0 else None.

Lemma insert_missing_twice s l1 l2 h :
  insert_missing (insert_missing s l1) l2 !! h =
    match s !! h with Some v => Some v | None => zero_if_pending l1 l2 h end.
Proof.
  rewrite !insert_missing_lookup. unfold zero_if_pending. rewrite map_app.
  destruct (s !! h); [done|]. repeat case_decide; try done; rewrite elem_of_app in *; tauto.
Qed.

(** The summary of outgoing payments gives each payment hash the larger of
    the total of its HTLCs in the holder's and in the counterparty's
    commitment (the new ones where given, the current ones otherwise),
    zero for a payment that is only in a current commitment, and nothing
    for the others; the summary of incoming payments gives each payment
    that is in both commitments the smaller of the two totals, so that a
    payment counts as received only once it is in both. *)
Theorem payments_summaries (es : EnforcementState) (nh nc : option CommitmentInfo2)
  (H : forall info, opt_or nh (current_holder_commit_info es) = Some info
       \/ opt_or nc (current_counterparty_commit_info es) = Some info ->
       htlcs_ok (offered_htlcs info) /\ htlcs_ok (received_htlcs info)) :
  let cur_h f := opt_htlcs (f <$> current_holder_commit_info es) in
  let cur_c f := opt_htlcs (f <$> current_counterparty_commit_info es) in
  let eff_h f := opt_htlcs (f <$> opt_or nh (current_holder_commit_info es)) in
  let eff_c f := opt_htlcs (f <$> opt_or nc (current_counterparty_commit_info es)) in
  exists out inc, payments_summary (E := E) es nh nc = Ok out
    /\ incoming_payments_summary (E := E) es nh nc = Ok inc
    /\ (forall h, out !! h =
          match hash_sum (eff_h offered_htlcs) h, hash_sum (eff_c received_htlcs) h with
          | Some a, Some b => Some (Z.max a b)
          | Some a, None => Some a
          | None, Some b => Some b
          | None, None => zero_if_pending (cur_h offered_htlcs) (cur_c received_htlcs) h
          end)
    /\ (forall h, inc !! h =
          match hash_sum (eff_h received_htlcs) h, hash_sum (eff_c offered_htlcs) h with
          | Some a, Some b => Some (Z.min a b)
          | _, _ => zero_if_pending (cur_h received_htlcs) (cur_c offered_htlcs) h
          end).
Proof.
  cbn zeta.
  assert (Hok : forall o f, (f = offered_htlcs \/ f = received_htlcs) ->
    (o = opt_or nh (current_holder_commit_info es)
     \/ o = opt_or nc (current_counterparty_commit_info es)) -> htlcs_ok (opt_htlcs (f <$> o))).
  { intros [info|] f Hf Ho; cbn; [|split; [constructor|done]].
    destruct (H info); [naive_solver|]. by destruct Hf as [-> | ->]. }
  unfold payments_summary, incoming_payments_summary. rewrite !summarize_opt.
  destruct (summarize_spec (E := E) (opt_htlcs (offered_htlcs <$> opt_or nh (current_holder_commit_info es))))
    as (m1 & -> & H1); [apply Hok; auto|].
  destruct (summarize_spec (E := E) (opt_htlcs (received_htlcs <$> opt_or nc (current_counterparty_commit_info es))))
    as (m2 & -> & H2); [apply Hok; auto|].
  destruct (summarize_spec (E := E) (opt_htlcs (received_htlcs <$> opt_or nh (current_holder_commit_info es))))
    as (m3 & -> & H3); [apply Hok; auto|].
  destruct (summarize_spec (E := E) (opt_htlcs (offered_htlcs <$> opt_or nc (current_counterparty_commit_info es))))
    as (m4 & -> & H4); [apply Hok; auto|].
  step. do 2 eexists. split; [reflexivity|]. split; [reflexivity|]. split; intros h.
  - rewrite insert_missing_twice, fold_max_lookup, <- H1, <- H2.
    by destruct (m1 !! h), (m2 !! h).
  - rewrite insert_missing_twice, fold_min_lookup, map_lookup_filter, <- H3, <- H4. cbn.
    destruct (m3 !! h); cbn; [|by destruct (m4 !! h)].
    destruct (m4 !! h); cbn; [by rewrite option_guard_True by eauto|].
    rewrite option_guard_False; [done|]. by intros [? [=]].
Qed.

(** The commitments that [claimable_balances] looks at fit in the channel. *)
Definition fits (cv : Z) (o : option CommitmentInfo2) : Prop :=
  forall info, o = Some info -> amounts_nonneg info /\ total info <= cv < 2 ^ 64.

Definition opt_spec (o : option CommitmentInfo2) pm setup : option Z :=
  (fun info => claimable_spec info pm (is_outbound setup) (channel_value_sat setup)) <$> o.

Lemma opt_claimable_exact o pm setup : fits (channel_value_sat setup) o ->
  opt_claimable (E := E) o pm setup = Ok (opt_spec o pm setup).
Proof.
  intros Hf. destruct o as [info|]; [|done]. destruct (Hf info eq_refl) as [Ha Ht].
  cbn. by rewrite (proj1 (claimable_exact info pm (is_outbound setup) _ Ha Ht)).
Qed.

(** With commitments that fit in the channel value and exactly one new one,
    [claimable_balances] does not panic: the balance before is the smaller
    claimable balance of the current commitments (the initial holder value
    when there is none), the balance after the smaller one with the new
    commitment in place. *)
Theorem claimable_balances_spec (es : EnforcementState) (pm : PreimageMap)
  (nh nc : option CommitmentInfo2) (setup : ChannelSetup)
  (Hone : (exists i, nh = Some i /\ nc = None) \/ (exists i, nh = None /\ nc = Some i))
  (Hf : fits (channel_value_sat setup) (current_holder_commit_info es)
        /\ fits (channel_value_sat setup) (current_counterparty_commit_info es)
        /\ fits (channel_value_sat setup) nh /\ fits (channel_value_sat setup) nc) :
  exists after,
    min_opt (opt_spec (opt_or nh (current_holder_commit_info es)) pm setup)
            (opt_spec (opt_or nc (current_counterparty_commit_info es)) pm setup) = Some after
    /\ claimable_balances (E := E) es pm nh nc setup =
       Ok (default (initial_holder_value es)
             (min_opt (opt_spec (current_holder_commit_info es) pm setup)
                      (opt_spec (current_counterparty_commit_info es) pm setup)), after).
Proof.
  destruct Hf as (Hh & Hc & Hnh & Hnc). unfold claimable_balances.
  rewrite !opt_claimable_exact by (done || (destruct nh, nc; done)).
  destruct Hone as [(i & -> & ->)|(i & -> & ->)]; cbn -[min_opt opt_spec];
    [destruct (current_counterparty_commit_info es)|destruct (current_holder_commit_info es)];
    eexists; (split; [reflexivity|]); reflexivity.
Qed.

Lemma claimable_panics info pm cv : amounts_nonneg info -> cv < total info < 2 ^ 64 ->
  claimable_balance (E := E) info pm true cv = Panic.
Proof.
  intros Ha Ht. unfold claimable_balance. rewrite total_value_exact by (done || lia). step.
  by rewrite (proj2 (checked_sub64_None _ _)) by lia.
Qed.
End claims.

(** ** Witnesses *)

Definition example_setup : ChannelSetup := {|
  is_outbound := true; channel_value_sat := 1000000; push_value_msat := 0;
  funding_outpoint := {| op_txid := [9; 9]; vout := 0 |};
  holder_selected_contest_delay := 144; holder_shutdown_script := None;
  counterparty_points := example_signer_keys 101;
  counterparty_selected_contest_delay := 144; counterparty_shutdown_script := None;
  commitment_type := StaticRemoteKey |}.

(** The counterparty's commitment of the same state as [example_info]. *)
Definition example_cp_info : CommitmentInfo2 :=
  CommitmentInfo2_new true [2; 3] 500000 [2; 60] [2; 61] 399000 144
    [example_htlc 60000 [8]] [example_htlc 40000 [7]] 1000.

Definition example_state : EnforcementState :=
  set_holder (EnforcementState_new 999000) 1 (Some example_info) (Some ([1], [])).

Lemma example_info_htlcs info : info = example_info \/ info = example_cp_info ->
  htlcs_ok (offered_htlcs info) /\ htlcs_ok (received_htlcs info).
Proof. intros [-> | ->]; repeat split; repeat constructor; by vm_compute. Qed.

Lemma payments_summaries_witness :
  exists out inc, @payments_summary true unit example_state None (Some example_cp_info) = Ok out
    /\ @incoming_payments_summary true unit example_state None (Some example_cp_info) = Ok inc
    /\ out !! [7] = Some 40000 /\ inc !! [8] = Some 60000 /\ out !! [8] = None.
Proof.
  destruct (@payments_summaries true unit example_state None (Some example_cp_info))
    as (out & inc & Ho & Hi & Hout & Hinc).
  { intros info [[= <-]|[= <-]]; apply example_info_htlcs; auto. }
  exists out, inc. split; [exact Ho|]. split; [exact Hi|].
  split; [rewrite Hout; by vm_compute|]. split; [rewrite Hinc; by vm_compute|].
  rewrite Hout. by vm_compute.
Defined.

Lemma claimable_balances_spec_witness :
  exists after, @claimable_balances true unit example_state (fun _ => false) None
    (Some example_cp_info) example_setup = Ok (541000, after).
Proof.
  destruct (@claimable_balances_spec true unit example_state (fun _ => false) None
    (Some example_cp_info) example_setup) as (after & _ & H).
  - right. by exists example_cp_info.
  - split; [|split; [by intros ?|split; [by intros ?|]]]; intros ? [= <-];
      (split; [split; [done|split; [done|split; repeat constructor; done]]|by vm_compute]).
  - by exists after.
Defined.
