(* ===== verification/Validator.v ===== *)
(** * The validator interface (vls-core/src/policy/validator.rs)

    The trait [Validator] as a record of operations, its default methods as
    functions of the record, and the data types its operations mention: the
    wallet trait, and the channel and its slot (vls-core/src/channel.rs). *)

From S2P Require Import Prelude Velocity Policy Extern Setup Tx Script Secrets.
From S2P Require Import Enforcement.

(** ** Wallets (wallet.rs) *)

Notation path := (list Z).

(** [allowlist_contains] has no error but may panic. *)
Record Wallet := {
  can_spend : path -> Script -> outcome Status bool;
  allowlist_contains_payee : PublicKey -> bool;
  allowlist_contains : Script -> path -> result bool;
  wallet_network : Network
}.

(** ** Channels (channel.rs)

    The backpointer to the node and the chain monitor are not part of the
    record: operations that use them take the node's state and the chain
    state as arguments. *)

Section channel_data.
Context `{L : Lib}.

Record ChannelStub := {
  stub_keys : InMemorySigner;
  stub_id0 : ChannelId;
  stub_blockheight : Z
}.

Record Channel := {
  keys : InMemorySigner;
  enforcement_state : EnforcementState;
  setup : ChannelSetup;
  id0 : ChannelId;
  chan_id : option ChannelId
}.

Inductive ChannelSlot := Stub (stub : ChannelStub) | Ready (chan : Channel).

Definition slot_id (self : ChannelSlot) : ChannelId :=
  match self with Stub stub => stub_id0 stub | Ready chan => id0 chan end.

Definition slot_basepoints (self : ChannelSlot) : ChannelPublicKeys :=
  match self with Stub stub => pubkeys (stub_keys stub) | Ready chan => pubkeys (keys chan) end.

(** [Channel::id]: the permanent id when there is one. *)
Definition channel_id (self : Channel) : ChannelId := default (id0 self) (chan_id self).
End channel_data.

(** ** The trait *)

Record Validator `{L : Lib} := {
  validate_ready_channel : Wallet -> ChannelSetup -> path -> result unit;
  validate_channel_value : ChannelSetup -> result unit;
  validate_onchain_tx : Wallet -> list (option ChannelSlot) -> Transaction -> list Transaction ->
    list Z -> list path -> Z -> result Z;
  decode_commitment_tx : InMemorySigner -> ChannelSetup -> bool -> Transaction -> list bytes ->
    result CommitmentInfo;
  validate_counterparty_commitment_tx : EnforcementState -> Z -> PublicKey -> ChannelSetup ->
    ChainState -> CommitmentInfo2 -> result unit;
  validate_holder_commitment_tx : EnforcementState -> Z -> PublicKey -> ChannelSetup ->
    ChainState -> CommitmentInfo2 -> result unit;
  validate_counterparty_revocation : EnforcementState -> Z -> SecretKey -> result unit;
  decode_and_validate_htlc_tx : bool -> ChannelSetup -> TxCreationKeys -> Transaction -> Script ->
    Z -> Script -> result (Z * HTLCOutputInCommitment * bytes * EcdsaSighashType);
  validate_htlc_tx : ChannelSetup -> ChainState -> bool -> HTLCOutputInCommitment -> Z ->
    result unit;
  decode_and_validate_mutual_close_tx : Wallet -> ChannelSetup -> EnforcementState -> Transaction ->
    list path -> result ClosingTransaction;
  validate_mutual_close_tx : Wallet -> ChannelSetup -> EnforcementState -> Z -> Z ->
    option Script -> option Script -> path -> result unit;
  validate_delayed_sweep : Wallet -> ChannelSetup -> ChainState -> Transaction -> nat -> Z ->
    path -> result unit;
  validate_counterparty_htlc_sweep : Wallet -> ChannelSetup -> ChainState -> Transaction ->
    Script -> nat -> Z -> path -> result unit;
  validate_justice_sweep : Wallet -> ChannelSetup -> ChainState -> Transaction -> nat -> Z ->
    path -> result unit;
  validate_payment_balance : Z -> Z -> option Z -> result unit;
  enforce_balance : bool;
  minimum_initial_balance : Z -> Z;
  policy : Policy
}.

(** ** Default methods *)

(** An invoice as the validator sees it: creation time and expiry, in
    nanoseconds, the resolution of [Duration]. *)
Record InvoiceTimes := { duration_since_epoch : Z; expiry_duration : Z }.

Definition secs (n : Z) : Z := n * 10 ^ 9.
Definition DURATION_MAX : Z := secs (2 ^ 64 - 1) + 999999999.
Definition dur_add {E} (a b : Z) : outcome E Z :=
  if a + b <=? DURATION_MAX then Ok (a + b) else Panic.

Section defaults.
Context `{L : Lib, Prof : Profile}.
Implicit Types (self : Validator).

Definition set_next_holder_commit_num self (estate : EnforcementState) (num : Z)
  (current_commitment_info : CommitmentInfo2) (counterparty_signatures : CommitmentSignatures)
  : result EnforcementState :=
  let current := next_holder_commit_num estate in
  bad ← (if negb (num =? current) then
           current1 ← add64 current 1; Ok (negb (num =? current1))
         else Ok false);
  whenb bad (policy_err (policy self) "policy-revoke-new-commitment-signed"
               "set_next_holder_commit_num" "invalid progression: {} to {}");;
  Ok (es_set_next_holder_commit_num estate num current_commitment_info
        counterparty_signatures).

Definition get_current_holder_commitment_info self (estate : EnforcementState)
  (commitment_number : Z) : result CommitmentInfo2 :=
  n1 ← add64 commitment_number 1;
  whenb (negb (n1 =? next_holder_commit_num estate))
    (policy_err (policy self) "policy-other" "get_current_holder_commitment_info"
       "invalid next holder commitment number: {} != {}");;
  es_get_current_holder_commitment_info estate.

(** The checks of [set_next_counterparty_commit_num] relative to the revocations. *)
Definition check_commit_vs_revoke self (estate : EnforcementState) (num : Z) : result unit :=
  let err := policy_err (policy self) "policy-commitment-previous-revoked"
               "set_next_counterparty_commit_num" in
  whenb (num =? 0) (err "can't set next to 0");;
  let delta := if num =? 1 then 1 else 2 in
  low ← add64 (next_counterparty_revoke_num estate) delta;
  whenb (num <? low) (err "{} too small relative to next_counterparty_revoke_num {}");;
  high ← add64 (next_counterparty_revoke_num estate) 2;
  whenb (high <? num) (err "{} too large relative to next_counterparty_revoke_num {}").

Definition set_next_counterparty_commit_num self (estate : EnforcementState) (num : Z)
  (current_point : PublicKey) (current_commitment_info : CommitmentInfo2)
  : result EnforcementState :=
  check_commit_vs_revoke self estate num;;
  let current := next_counterparty_commit_num estate in
  (if num =? current then
     prior ← unwrap (current_counterparty_point estate);
     whenb (negb (bool_decide (current_point = prior)))
       (policy_err (policy self) "policy-commitment-retry-same"
          "set_next_counterparty_commit_num" "retry {}: point different than prior")
   else
     current1 ← add64 current 1;
     whenb (negb (num =? current1))
       (policy_err (policy self) "policy-commitment-previous-revoked"
          "set_next_counterparty_commit_num" "invalid progression: {} to {}"));;
  es_set_next_counterparty_commit_num estate num current_point current_commitment_info.

Definition set_next_counterparty_revoke_num self (estate : EnforcementState) (num : Z)
  : result EnforcementState :=
  let err := policy_err (policy self) "policy-commitment-previous-revoked"
               "set_next_counterparty_revoke_num" in
  whenb (num =? 0) (policy_err (policy self) "policy-other"
                      "set_next_counterparty_revoke_num" "can't set next to 0");;
  n2 ← add64 num 2;
  whenb (n2 <? next_counterparty_commit_num estate)
    (err "{} too small relative to next_counterparty_commit_num {}");;
  n1 ← add64 num 1;
  whenb (next_counterparty_commit_num estate <? n1)
    (err "{} too large relative to next_counterparty_commit_num {}");;
  let current := next_counterparty_revoke_num estate in
  bad ← (if negb (num =? current) then
           current1 ← add64 current 1; Ok (negb (num =? current1))
         else Ok false);
  whenb bad (err "invalid progression: {} to {}");;
  es_set_next_counterparty_revoke_num estate num.

(** [timeless_workaround] is a compile-time feature. *)
Definition validate_invoice (timeless_workaround : bool) self (invoice : InvoiceTimes) (now : Z)
  : result unit :=
  let '(behind_tolerance, ahead_tolerance) :=
    if timeless_workaround then (secs (1 * 60 * 60), secs (2 * 60 * 60)) else (0, 0) in
  a ← dur_add now (secs MAX_CLOCK_SKEW);
  a ← dur_add a behind_tolerance;
  whenb (a <? duration_since_epoch invoice)
    (policy_err (policy self) "policy-invoice-not-expired" "validate_invoice"
       "invoice is not yet valid ({} + {} (skew) + {} (tolerance) < {})");;
  b ← dur_add now (secs MIN_INVOICE_EXPIRY);
  c ← dur_add (duration_since_epoch invoice) (expiry_duration invoice);
  c ← dur_add c (secs MAX_CLOCK_SKEW);
  c ← dur_add c ahead_tolerance;
  whenb (c <? b)
    (policy_err (policy self) "policy-invoice-not-expired" "validate_invoice"
       "invoice is expired ({} + {} (buffer) > {} + {} (skew) + {} (tolerance))").
End defaults.

(** ** What a validator promises to a channel

    The facts about a validator that the safety of a channel rests on; they
    are about requests whose commitment numbers are far from the bound of
    [u64]. *)

Definition num_ok (n : Z) : Prop := 0 <= n < 2 ^ 64 - 3.

Class SafeValidator `{L : Lib} (v : Validator) : Prop := {
  sv_strict :: Strict (policy v);

  (** An accepted holder commitment is not revoked, is the current one if it
      has the current number, and is not a new one on a closing channel. *)
  sv_holder es n point setup cstate info :
    num_ok n ->
    validate_holder_commitment_tx v es n point setup cstate info = Ok tt ->
    next_holder_commit_num es < n + 2
    /\ (n + 1 = next_holder_commit_num es -> current_holder_commit_info es = Some info)
    /\ (n = next_holder_commit_num es -> channel_closed es = false);

  (** An accepted counterparty commitment is at most one ahead of the oldest
      unrevoked one, and is the current one if it has the current number. *)
  sv_counterparty es n point setup cstate info :
    num_ok n -> num_ok (next_counterparty_revoke_num es) ->
    validate_counterparty_commitment_tx v es n point setup cstate info = Ok tt ->
    n <= next_counterparty_revoke_num es + 1
    /\ (n + 1 = next_counterparty_commit_num es ->
        current_counterparty_point es = Some point
        /\ current_counterparty_commit_info es = Some info);

  (** An accepted revocation is of the oldest unrevoked commitment, or a retry,
      and its secret is that of the point of the commitment. *)
  sv_revocation es n secret :
    num_ok n ->
    validate_counterparty_revocation v es n secret = Ok tt ->
    (n = next_counterparty_revoke_num es \/ n + 1 = next_counterparty_revoke_num es)
    /\ (n + 1 = next_counterparty_commit_num es
          /\ current_counterparty_point es = Some (pubkey_from_secret_key secret)
        \/ n + 2 = next_counterparty_commit_num es
          /\ previous_counterparty_point es = Some (pubkey_from_secret_key secret))
}.

(** ** The default methods under a strict policy *)

Section default_lemmas.
Context `{L : Lib, Prof : Profile} (v : Validator) `{Hs : !Strict (policy v)}.
Implicit Types (es : EnforcementState).

Lemma set_next_holder_spec es num info sigs es' :
  num_ok (next_holder_commit_num es) ->
  set_next_holder_commit_num v es num info sigs = Ok es' ->
  (num = next_holder_commit_num es \/ num = next_holder_commit_num es + 1)
  /\ es' = set_holder es num (Some info) (Some sigs).
Proof.
  unfold num_ok. intros Hn H. unfold set_next_holder_commit_num in H. inv_ok H.
  strict_ok Hs. split; [|done]. destruct (num =? _) eqn:Heq; cbn in Hx; [b2p; lia|].
  rewrite add64_in in Hx by lia. cbn in Hx. inv_ok Hx. b2p. lia.
Qed.

Lemma es_set_counterparty_commit es num point info es' :
  num_ok (next_counterparty_commit_num es) ->
  es_set_next_counterparty_commit_num (E := ValidationError) es num point info = Ok es' ->
  (num = next_counterparty_commit_num es -> es' = es)
  /\ (num = next_counterparty_commit_num es + 1 ->
      es' = set_counterparty es num (next_counterparty_revoke_num es) (Some point)
              (current_counterparty_point es) (Some info) (current_counterparty_commit_info es)).
Proof.
  unfold num_ok. intros Hc H. unfold es_set_next_counterparty_commit_num in H. inv_ok H.
  rewrite add64_in in Hx0 by lia. injection Hx0 as <-. split; intros ->.
  - rewrite (proj2 (Z.eqb_neq _ _)) in H by lia.
    rewrite (proj2 (Z.ltb_ge _ _)), Z.ltb_irrefl in H by lia. cbn [orb] in H.
    rewrite (proj2 (Z.leb_gt _ _)) in H by lia. injection H as <-. by destruct es.
  - rewrite Z.eqb_refl, Z.leb_refl in H. by injection H as <-.
Qed.

Lemma check_commit_vs_revoke_spec es num u :
  num_ok (next_counterparty_revoke_num es) -> 0 <= num ->
  check_commit_vs_revoke v es num = Ok u ->
  num = 1 /\ next_counterparty_revoke_num es = 0
  \/ 2 <= num /\ num = next_counterparty_revoke_num es + 2.
Proof.
  unfold num_ok. intros Hr Hn H. unfold check_commit_vs_revoke in H. inv_ok H. strict_ok Hs.
  destruct (num =? 1) eqn:H1; rewrite !add64_in in * by lia;
    repeat match goal with H : Ok _ = Ok _ |- _ => injection H as <- end; b2p; lia.
Qed.

Lemma set_next_counterparty_commit_spec es num point info es' :
  num_ok (next_counterparty_commit_num es) -> num_ok (next_counterparty_revoke_num es) ->
  0 <= num -> set_next_counterparty_commit_num v es num point info = Ok es' ->
  let c := next_counterparty_commit_num es in
  let r := next_counterparty_revoke_num es in
  (num = 1 /\ r = 0 \/ 2 <= num /\ num = r + 2)
  /\ (num = c /\ current_counterparty_point es = Some point /\ es' = es
      \/ num = c + 1 /\ es' = set_counterparty es num r (Some point)
           (current_counterparty_point es) (Some info) (current_counterparty_commit_info es)).
Proof.
  intros Hc Hr Hn H c r. unfold set_next_counterparty_commit_num in H. inv_ok H.
  split; [by eapply check_commit_vs_revoke_spec|].
  pose proof (es_set_counterparty_commit _ _ _ _ _ Hc H) as [Heq Hnext].
  fold c in Hx0, Heq, Hnext. destruct (num =? c) eqn:Hnc; b2p.
  - left. inv_ok Hx0. strict_ok Hs. b2p. apply bool_decide_eq_true in Hx0. subst. auto.
  - right. unfold num_ok in Hc. rewrite add64_in in Hx0 by (subst c; lia). cbn in Hx0.
    strict_ok Hs. b2p. auto.
Qed.

Lemma set_next_counterparty_revoke_spec es num es' :
  num_ok (next_counterparty_commit_num es) -> num_ok (next_counterparty_revoke_num es) ->
  0 <= num < 2 ^ 64 - 2 -> set_next_counterparty_revoke_num v es num = Ok es' ->
  let c := next_counterparty_commit_num es in
  let r := next_counterparty_revoke_num es in
  1 <= num /\ num + 1 <= c <= num + 2 /\ (num = r \/ num = r + 1)
  /\ exists prev, es' = set_counterparty es c num (current_counterparty_point es)
       (previous_counterparty_point es) (current_counterparty_commit_info es) prev.
Proof.
  intros Hc Hr Hn H c r. unfold num_ok in *.
  unfold set_next_counterparty_revoke_num, es_set_next_counterparty_revoke_num in H.
  rewrite !(add64_in num) in H by lia. inv_ok H. strict_ok Hs. b2p.
  repeat match goal with H : Ok _ = Ok _ |- _ => injection H as <- end.
  split; [lia|]. split; [subst c; lia|]. split; [|by eexists].
  subst r. destruct (num =? _) eqn:Heq; b2p; [by left|right].
  cbn in Hx2. rewrite add64_in in Hx2 by lia. cbn in Hx2. injection Hx2 as <-. b2p. done.
Qed.
End default_lemmas.
