(* ===== verification/SimpleValidator.v ===== *)
(** * The simple validator (vls-core/src/policy/simple_validator.rs)

    Every policy check of the signer that does not need the blockchain, as
    an implementation of the interface [Validator]. *)

From S2P Require Import Prelude Velocity Policy Order Extern Setup Tx Script.
From S2P Require Import Secrets Enforcement Validator.

Module Simple.

Definition MAX_CHAIN_LAG : Z := 2.
Definition ANCHOR_SEQS : list Z := [0x00000001].
Definition NON_ANCHOR_SEQS : list Z := [0x00000000; 0xfffffffd; 0xffffffff].
Definition SAFE_COMMITMENT_TYPE : list CommitmentType := [StaticRemoteKey; AnchorsZeroFeeHtlc].

(** The validator has a policy; the node and channel ids are only logged. *)
Notation SimpleValidator := SimplePolicy.

Section simple.
Context `{L : Lib, Prof : Profile}.
Implicit Types (self : SimpleValidator) (wallet : Wallet).

Definition self_policy_err self := policy_err (simple_policy self).

(** ** Helpers *)

Definition validate_delay self (name : string) (delay : Z) : result unit :=
  let tag := "policy-channel-contest-delay-range-" +:+ name in
  whenb (delay <? min_delay self)
    (self_policy_err self tag "validate_delay" "{} contest-delay too small: {} < {}");;
  whenb (max_delay self <? delay)
    (self_policy_err self tag "validate_delay" "{} contest-delay too large: {} > {}").

Definition validate_expiry self (expiry current_height : Z) : result unit :=
  if use_chain_state self then
    low ← add32 current_height (min_delay self);
    whenb (expiry <? low)
      (self_policy_err self "policy-commitment-htlc-cltv-range" "validate_expiry"
         "{} expiry too early: {} < {}");;
    high ← add32 current_height (max_delay self);
    whenb (high <? expiry)
      (self_policy_err self "policy-commitment-htlc-cltv-range" "validate_expiry"
         "{} expiry too late: {} > {}")
  else Ok tt.

Definition validate_fee self (tag : string) (sum_inputs sum_outputs weight : Z) : result unit :=
  fee ← ok_or (checked_sub64 sum_inputs sum_outputs)
          (policy_error_value "fee underflow: {} - {}");
  feerate_perkw ← estimate_feerate_per_kw fee weight;
  whenb (feerate_perkw <? min_feerate_per_kw self)
    (self_policy_err self tag "validate_fee" "feerate below minimum: {} < {}");;
  whenb (max_feerate_per_kw self <? feerate_perkw)
    (self_policy_err self tag "validate_fee" "feerate above maximum: {} > {}").

Definition validate_beneficial_value self (sum_our_inputs sum_our_outputs weight : Z)
  : result Z :=
  non_beneficial ← ok_or (checked_sub64 sum_our_inputs sum_our_outputs)
    (policy_error_value
       "non-beneficial value underflow: sum of our inputs {} < sum of our outputs {}");
  feerate_perkw ← estimate_feerate_per_kw non_beneficial weight;
  whenb (max_feerate_per_kw self <? feerate_perkw)
    (let dev_flags := default DEFAULT_DEV_FLAGS (dev_flags self) in
     if disable_beneficial_balance_checks dev_flags then Ok tt
     else self_policy_err self "policy-onchain-fee-range" "validate_beneficial_value"
       "non-beneficial value considered as fees is above maximum feerate: {} > {}");;
  Ok non_beneficial.

Definition outside_epsilon_range self (value0 value1 : Z) : bool :=
  if value1 <? value0 then epsilon_sat self <? value0 - value1
  else epsilon_sat self <? value1 - value0.

(** [wallet.can_spend(..).map_err(..)? || wallet.allowlist_contains(..)], the
    second operand only evaluated when the first is false. *)
Definition spendable_or_allowlisted wallet (p : path) (script : Script) : result bool :=
  spendable ← map_err (fun _ => policy_error_value "wallet can_spend error: {}")
                (can_spend wallet p script);
  if spendable : bool then Ok true else allowlist_contains wallet script p.

Definition validate_sweep self wallet (tx : Transaction) (_input : nat) (_amount_sat : Z)
  (wallet_path : path) : result unit :=
  whenb (negb (version tx =? 2)) (transaction_format_err "validate_sweep" "bad version: {}");;
  foldM (fun _ out =>
    ok ← spendable_or_allowlisted wallet wallet_path (script_pubkey out);
    whenb (negb ok)
      (self_policy_err self "policy-sweep-destination-allowlisted" "validate_sweep"
         "destination is not in wallet or allowlist")) tt (output tx).

(** ** The trait's methods *)

Definition validate_ready_channel self wallet (setup : ChannelSetup)
  (holder_shutdown_key_path : path) : result unit :=
  whenb (negb (bool_decide (commitment_type setup ∈ SAFE_COMMITMENT_TYPE)))
    (if decide (commitment_type setup = Anchors) then
       self_policy_err self "policy-channel-safe-type-anchors" "validate_ready_channel"
         "unsafe commitment type: plain anchors"
     else
       self_policy_err self "policy-channel-safe-type" "validate_ready_channel"
         "unsafe commitment type: {:?}");;
  validate_delay self "holder" (counterparty_selected_contest_delay setup);;
  validate_delay self "counterparty" (holder_selected_contest_delay setup);;
  match holder_shutdown_script setup with
  | Some script =>
      ok ← spendable_or_allowlisted wallet holder_shutdown_key_path script;
      whenb (negb ok)
        (self_policy_err self "policy-mutual-destination-allowlisted" "validate_ready_channel"
           "holder_shutdown_script is not in wallet or allowlist")
  | None => Ok tt
  end.

Definition validate_channel_value self (setup : ChannelSetup) : result unit :=
  whenb (max_channel_size_sat self <? channel_value_sat setup)
    (self_policy_err self "policy-funding-max" "validate_channel_value"
       "channel value {} too large").

(** *** On-chain transactions *)

Definition add_beneficial_output (sum val : Z) : result Z :=
  ok_or (checked_add64 sum val)
    (policy_error_value "beneficial outputs overflow: sum {} + {} {}").

(** The checks on an output that funds a channel, and the value it adds. *)
Definition validate_funding_output self (out : TxOut) (slot : ChannelSlot)
  (beneficial_sum : Z) : result Z :=
  match slot with
  | Ready chan =>
      let err tag msg := self_policy_err self tag "validate_onchain_tx" msg in
      whenb (negb (out_value out =? channel_value_sat (Validator.setup chan)))
        (err "policy-onchain-output-match-commitment"
           "funding output amount mismatch w/ channel: {} != {}");;
      let funding_redeemscript :=
        make_funding_redeemscript (funding_pubkey (pubkeys (keys chan)))
          (funding_pubkey (counterparty_pubkeys (keys chan))) in
      let spk := to_v0_p2wsh funding_redeemscript in
      whenb (negb (bool_decide (script_pubkey out = spk)))
        (err "policy-onchain-output-scriptpubkey"
           "funding script_pubkey mismatch w/ channel: {} != {}");;
      whenb (negb (next_holder_commit_num (enforcement_state chan) =? 1))
        (err "policy-onchain-initial-commitment-countersigned"
           "initial holder commitment not validated");;
      whenb (negb (is_outbound (Validator.setup chan)))
        (err "policy-onchain-no-fund-inbound"
           "can't sign for inbound channel: dual-funding not supported yet");;
      let push_val_sat := push_value_msat (Validator.setup chan) / 1000 in
      whenb (0 <? push_val_sat)
        (err "policy-onchain-no-channel-push"
           "channel push not allowed: dual-funding not supported yet");;
      our_value ← unwrap (checked_sub64 (channel_value_sat (Validator.setup chan)) push_val_sat);
      add_beneficial_output beneficial_sum our_value
  | Stub _ => Panic
  end.

(** One turn of the loop over the outputs: the unknown outputs so far and the
    sum of the beneficial ones. *)
Definition validate_onchain_output self wallet (channels : list (option ChannelSlot))
  (opaths : list path) (acc : list nat * Z) (io : nat * TxOut) : result (list nat * Z) :=
  let '(unknowns, beneficial_sum) := acc in
  let '(outndx, out) := io in
  opath ← unwrap (opaths !! outndx);
  channel_slot ← unwrap (channels !! outndx);
  if (0 <? length opath)%nat then
    spendable ← map_err
      (fun _ => policy_error_value "output[{}]: wallet_can_spend error: {}")
      (can_spend wallet opath (script_pubkey out));
    ok ← (if spendable : bool then Ok true
          else allowlist_contains wallet (script_pubkey out) opath);
    if ok : bool then
      beneficial_sum ← add_beneficial_output beneficial_sum (out_value out);
      Ok (unknowns, beneficial_sum)
    else
      self_policy_err self "policy-onchain-no-unknown-outputs" "validate_onchain_tx"
        "output[{}] is unknown";;
      Ok (unknowns, beneficial_sum)
  else
    allowlisted ← allowlist_contains wallet (script_pubkey out) [];
    if allowlisted : bool then
      beneficial_sum ← add_beneficial_output beneficial_sum (out_value out);
      Ok (unknowns, beneficial_sum)
    else
      match channel_slot with
      | Some slot =>
          beneficial_sum ← validate_funding_output self out slot beneficial_sum;
          Ok (unknowns, beneficial_sum)
      | None => Ok (unknowns ++ [outndx], beneficial_sum)
      end.

Definition validate_onchain_tx self wallet (channels : list (option ChannelSlot))
  (tx : Transaction) (input_txs : list Transaction) (values_sat : list Z)
  (opaths : list path) (weight_lower_bound : Z) : result Z :=
  let err tag msg := self_policy_err self tag "validate_onchain_tx" msg in
  whenb (negb (version tx =? 2)) (err "policy-onchain-format-standard" "invalid version: {}");;
  whenb (MAX_ONCHAIN_TX_SIZE <? tx_size tx)
    (err "policy-onchain-max-size" "tx too large: {} > {}");;
  whenb (existsb (fun c => bool_decide (is_Some c)) channels
         && negb (is_tx_non_malleable tx input_txs))
    (err "policy-onchain-funding-non-malleable" "funding tx has non-segwit-native input");;
  '(unknowns, beneficial_sum) ←
    foldM (validate_onchain_output self wallet channels opaths) ([], 0)
      (imap pair (output tx));
  whenb (negb (bool_decide (unknowns = []))) (Err (unknown_destinations_error unknowns));;
  sum_inputs ← foldM (fun s val =>
    ok_or (checked_add64 s val) (policy_error_value "funding sum inputs overflow"))
    0 values_sat;
  map_err (fun ve => prepend_msg ve "validate_onchain_tx: ")
    (validate_beneficial_value self sum_inputs beneficial_sum weight_lower_bound).

(** *** Commitment transactions *)

Definition decode_commitment_tx self (keys : InMemorySigner) (setup : ChannelSetup)
  (is_counterparty : bool) (tx : Transaction) (output_witscripts : list bytes)
  : result CommitmentInfo :=
  whenb (negb (version tx =? 2))
    (self_policy_err self "policy-commitment-version" "decode_commitment_tx"
       "bad commitment version: {}");;
  foldM (fun info (io : nat * TxOut) =>
    ws ← unwrap (output_witscripts !! io.1);
    map_err (fun ve => prepend_msg ve "decode_commitment_tx: tx output[{}]: ")
      (handle_output info keys setup io.2 ws))
    (CommitmentInfo_new is_counterparty) (imap pair (output tx)).

(** The loop over the HTLCs of one direction: expiry, sum and dust. *)
Definition validate_htlcs self (cstate : ChainState) (overflow_msg dust_msg : string)
  (dust_limit htlc_value_sat : Z) (htlcs : list HTLCInfo2) : result Z :=
  foldM (fun htlc_value_sat htlc =>
    validate_expiry self (cltv_expiry htlc) (current_height cstate);;
    htlc_value_sat ← ok_or (checked_add64 htlc_value_sat (value_sat htlc))
                       (policy_error_value overflow_msg);
    whenb (value_sat htlc <? dust_limit)
      (self_policy_err self "policy-commitment-outputs-trimmed" "validate_commitment_tx"
         dust_msg);;
    Ok htlc_value_sat) htlc_value_sat htlcs.

(** The dust limit of second-level HTLC transactions of weight [weight]. *)
Definition htlc_dust_limit (setup : ChannelSetup) (feerate_per_kw weight : Z) : result Z :=
  if is_zero_fee_htlc setup then Ok MIN_CHAN_DUST_LIMIT_SATOSHIS
  else
    fee ← mul64 feerate_per_kw weight;
    add64 MIN_DUST_LIMIT_SATOSHIS (fee / 1000).

(** The requirements on initial commitments. *)
Definition validate_initial_commitment self (setup : ChannelSetup) (info : CommitmentInfo2)
  : result unit :=
  let '(_, counterparty_value_sat) := value_to_parties info in
  whenb (0 <? length (offered_htlcs info) + length (received_htlcs info))%nat
    (self_policy_err self "policy-commitment-first-no-htlcs" "validate_commitment_tx"
       "initial commitment may not have HTLCS");;
  if is_outbound setup then
    whenb (push_value_msat setup / 1000 <? counterparty_value_sat)
      (self_policy_err self "policy-commitment-initial-funding-value" "validate_commitment_tx"
         "initial commitment may only send push_value_msat ({}) to fundee")
  else Ok tt.

(** Common commitment validation, for both parties' transactions. *)
Definition validate_commitment_tx self (estate : EnforcementState) (commit_num : Z)
  (commitment_point : PublicKey) (setup : ChannelSetup) (cstate : ChainState)
  (info : CommitmentInfo2) : result unit :=
  let err tag msg := self_policy_err self tag "validate_commitment_tx" msg in
  let dust v := (0 <? v) && (v <? MIN_CHAN_DUST_LIMIT_SATOSHIS) in
  let num_htlcs := (length (offered_htlcs info) + length (received_htlcs info))%nat in
  whenb (dust (to_broadcaster_value_sat info))
    (err "policy-commitment-outputs-trimmed"
       "to_broadcaster_value_sat {} less than dust limit {}");;
  whenb (dust (to_countersigner_value_sat info))
    (err "policy-commitment-outputs-trimmed"
       "to_countersigner_value_sat {} less than dust limit {}");;
  whenb (max_htlcs self <? Z.of_nat num_htlcs)
    (err "policy-commitment-htlc-count-limit" "too many HTLCs");;
  offered_limit ← htlc_dust_limit setup (feerate_per_kw info)
                    (htlc_timeout_tx_weight (is_anchors setup));
  htlc_value_sat ← validate_htlcs self cstate "offered HTLC value overflow"
    "offered htlc.value_sat {} less than dust limit {}" offered_limit 0 (offered_htlcs info);
  received_limit ← htlc_dust_limit setup (feerate_per_kw info)
                     (htlc_success_tx_weight (is_anchors setup));
  htlc_value_sat ← validate_htlcs self cstate "received HTLC value overflow"
    "received htlc.value_sat {} less than dust limit {}" received_limit htlc_value_sat
    (received_htlcs info);
  whenb (max_htlc_value_sat self <? htlc_value_sat)
    (err "policy-commitment-htlc-inflight-limit" "sum of HTLC values {} too large");;
  let expected_weight := expected_commitment_tx_weight (is_anchors setup) num_htlcs in
  sum ← ok_or (checked_add64 (to_broadcaster_value_sat info) (to_countersigner_value_sat info))
          (policy_error_value "channel value overflow");
  sum_outputs ← ok_or (checked_add64 sum htlc_value_sat)
                  (policy_error_value "channel value overflow on HTLC");
  map_err (fun ve => prepend_msg ve "validate_commitment_tx: ")
    (validate_fee self "policy-commitment-fee-range" (channel_value_sat setup) sum_outputs
       expected_weight);;
  if commit_num =? 0 then validate_initial_commitment self setup info else Ok tt.

Definition validate_counterparty_commitment_tx self (estate : EnforcementState) (commit_num : Z)
  (commitment_point : PublicKey) (setup : ChannelSetup) (cstate : ChainState)
  (info2 : CommitmentInfo2) : result unit :=
  let err tag msg := self_policy_err self tag "validate_counterparty_commitment_tx" msg in
  map_err (fun ve => prepend_msg ve "validate_counterparty_commitment_tx: ")
    (validate_commitment_tx self estate commit_num commitment_point setup cstate info2);;
  whenb (negb (to_self_delay info2 =? holder_selected_contest_delay setup))
    (err "policy-channel-contest-delay-range-holder" "holder_selected_contest_delay mismatch");;
  revoke1 ← add64 (next_counterparty_revoke_num estate) 1;
  whenb (revoke1 <? commit_num)
    (err "policy-commitment-previous-revoked"
       "invalid attempt to sign counterparty commit_num {} with next_counterparty_revoke_num {}");;
  commit1 ← add64 commit_num 1;
  if commit1 =? next_counterparty_commit_num estate then
    match current_counterparty_point estate with
    | None => err "policy-commitment-retry-same"
                "retry of sign_counterparty_commitment {} with no prev point: new {}"
    | Some prev =>
        whenb (negb (bool_decide (commitment_point = prev)))
          (err "policy-commitment-retry-same"
             "retry of sign_counterparty_commitment {} with changed point: prev {} != new {}")
    end;;
    prev_commit_info ← get_previous_counterparty_commit_info estate commit_num;
    whenb (negb (bool_decide (Some info2 = prev_commit_info)))
      (err "policy-commitment-retry-same"
         "retry of sign_counterparty_commitment {} with changed info")
  else Ok tt.

Definition validate_holder_commitment_tx self (estate : EnforcementState) (commit_num : Z)
  (commitment_point : PublicKey) (setup : ChannelSetup) (cstate : ChainState)
  (info2 : CommitmentInfo2) : result unit :=
  let err tag msg := self_policy_err self tag "validate_holder_commitment_tx" msg in
  map_err (fun ve => prepend_msg ve "validate_holder_commitment_tx: ")
    (validate_commitment_tx self estate commit_num commitment_point setup cstate info2);;
  whenb (negb (to_self_delay info2 =? counterparty_selected_contest_delay setup))
    (err "policy-channel-contest-delay-range-counterparty"
       "counterparty_selected_contest_delay mismatch");;
  commit1 ← add64 commit_num 1;
  (if commit1 =? next_holder_commit_num estate then
     holder_commit_info ← unwrap (current_holder_commit_info estate);
     whenb (negb (bool_decide (info2 = holder_commit_info)))
       (err "policy-commitment-retry-same" "retry holder commitment {} with changed info")
   else Ok tt);;
  commit2 ← add64 commit_num 2;
  whenb (commit2 <=? next_holder_commit_num estate)
    (err "policy-commitment-holder-not-revoked"
       "can't sign revoked commitment_number {}, next_holder_commit_num is {}");;
  whenb ((commit_num =? next_holder_commit_num estate) && channel_closed estate)
    (err "policy-commitment-spends-active-utxo" "channel is closing").

Definition validate_counterparty_revocation self (state : EnforcementState) (revoke_num : Z)
  (commitment_secret : SecretKey) : result unit :=
  let err msg := self_policy_err self "policy-commitment-previous-revoked"
                   "validate_counterparty_revocation" msg in
  bad ← (if negb (revoke_num =? next_counterparty_revoke_num state) then
           revoke1 ← add64 revoke_num 1;
           Ok (negb (revoke1 =? next_counterparty_revoke_num state))
         else Ok false);
  whenb bad (err "invalid counterparty revoke_num {} with next_counterparty_revoke_num {}");;
  let supplied_commit_point := pubkey_from_secret_key commitment_secret in
  prev_commit_point ← get_previous_counterparty_point state revoke_num;
  match prev_commit_point with
  | None => err "revocation commit point mismatch for commit_num {}: supplied {}, previous is None"
  | Some prev =>
      whenb (negb (bool_decide (supplied_commit_point = prev)))
        (err "revocation commit point mismatch for commit_num {}: supplied {}, previous {}")
  end.

(** *** Second-level HTLC transactions *)

Definition decode_and_validate_htlc_tx self (is_counterparty : bool) (setup : ChannelSetup)
  (txkeys : TxCreationKeys) (tx : Transaction) (redeemscript : Script) (htlc_amount_sat : Z)
  (output_witscript : Script) : result (Z * HTLCOutputInCommitment * bytes * EcdsaSighashType) :=
  let to_self_delay :=
    if is_counterparty then holder_selected_contest_delay setup
    else counterparty_selected_contest_delay setup in
  let sighash_type :=
    if is_counterparty && is_anchors setup then SinglePlusAnyoneCanPay else All in
  original_tx_sighash ←
    unwrap (segwit_signature_hash tx 0 redeemscript htlc_amount_sat sighash_type);
  is_offered ←
    (if is_ok (parse_offered_htlc_script redeemscript (is_anchors setup)) then Ok true
     else if is_ok (parse_received_htlc_script redeemscript (is_anchors setup)) then Ok false
     else Err (policy_error_value "invalid redeemscript"));
  let cltv_expiry := if is_offered : bool then lock_time tx else 0 in
  input0 ← unwrap (input tx !! 0%nat);
  output0 ← unwrap (output tx !! 0%nat);
  total_fee ← sub64 htlc_amount_sat (out_value output0);
  build_feerate ←
    (if is_zero_fee_htlc setup then Ok 0
     else
       let weight := if is_offered : bool then htlc_timeout_tx_weight (is_anchors setup)
                     else htlc_success_tx_weight (is_anchors setup) in
       estimate_feerate_per_kw total_fee weight);
  amount_msat ← mul64 htlc_amount_sat 1000;
  let htlc := {| offered := is_offered; amount_msat := amount_msat;
                 oic_cltv_expiry := cltv_expiry; oic_payment_hash := replicate 32 0;
                 transaction_output_index := Some (vout (previous_output input0)) |} in
  let recomposed_tx :=
    build_htlc_transaction (op_txid (previous_output input0)) build_feerate to_self_delay htlc
      (is_anchors setup) (negb (is_zero_fee_htlc setup))
      (broadcaster_delayed_payment_key txkeys) (revocation_key txkeys) in
  recomposed_tx_sighash ←
    unwrap (segwit_signature_hash recomposed_tx 0 redeemscript htlc_amount_sat sighash_type);
  whenb (negb (bool_decide (recomposed_tx_sighash = original_tx_sighash)))
    (Err (policy_error_value "sighash mismatch"));;
  Ok (build_feerate, htlc, recomposed_tx_sighash, sighash_type).

Definition validate_htlc_tx self (setup : ChannelSetup) (_cstate : ChainState)
  (_is_counterparty : bool) (htlc : HTLCOutputInCommitment) (feerate_per_kw : Z)
  : result unit :=
  let err tag msg := self_policy_err self tag "validate_htlc_tx" msg in
  whenb (offered htlc && (oic_cltv_expiry htlc =? 0))
    (err "policy-htlc-locktime" "offered lock_time must be non-zero");;
  whenb (negb (is_zero_fee_htlc setup) && (feerate_per_kw <? min_feerate_per_kw self))
    (err "policy-htlc-fee-range" "feerate_per_kw of {} is smaller than the minimum of {}");;
  whenb (max_feerate_per_kw self <? feerate_per_kw)
    (err "policy-htlc-fee-range" "feerate_per_kw of {} is larger than the maximum of {}").

(** *** Mutual close *)

Definition new_closing_tx (setup : ChannelSetup) (to_holder to_counterparty : Z)
  (holder_script counterparty_script : option Script) : ClosingTransaction := {|
    to_holder_value_sat := to_holder;
    to_counterparty_value_sat := to_counterparty;
    to_holder_script := default [] holder_script;
    to_counterparty_script := default [] counterparty_script;
    closing_outpoint := funding_outpoint setup
  |}.

(** The side that does not pay the fees must get what both commitments give it. *)
Definition validate_close_values self (setup : ChannelSetup)
  (holder_info counterparty_info : CommitmentInfo2) (to_holder to_counterparty : Z)
  : result unit :=
  let err msg := self_policy_err self "policy-mutual-value-matches-commitment"
                   "validate_mutual_close_tx" msg in
  if is_outbound setup then
    whenb (outside_epsilon_range self to_counterparty
             (to_broadcaster_value_sat counterparty_info))
      (err "to_counterparty_value {} is {} than counterparty_info.broadcaster_value_sat {}");;
    whenb (outside_epsilon_range self to_counterparty (to_countersigner_value_sat holder_info))
      (err "to_counterparty_value {} is {} than holder_info.countersigner_value_sat {}")
  else
    whenb (outside_epsilon_range self to_holder (to_broadcaster_value_sat holder_info))
      (err "to_holder_value {} is {} than holder_info.broadcaster_value_sat {}");;
    whenb (outside_epsilon_range self to_holder (to_countersigner_value_sat counterparty_info))
      (err "to_holder_value {} is {} than counterparty_info.countersigner_value_sat {}").

Definition validate_mutual_close_tx self wallet (setup : ChannelSetup)
  (estate : EnforcementState) (to_holder to_counterparty : Z)
  (holder_script counterparty_script : option Script) (holder_wallet_path_hint : path)
  : result unit :=
  let err tag msg := self_policy_err self tag "validate_mutual_close_tx" msg in
  holder_info ← ok_or (current_holder_commit_info estate)
                  (policy_error_value "current_holder_commit_info missing");
  counterparty_info ← ok_or (current_counterparty_commit_info estate)
                        (policy_error_value "current_counterparty_commit_info missing");
  whenb ((0 <? to_holder) && bool_decide (holder_script = None))
    (err "policy-mutual-destination-allowlisted"
       "missing holder_script with {} to_holder_value_sat");;
  whenb ((0 <? to_counterparty) && bool_decide (counterparty_script = None))
    (err "policy-mutual-destination-allowlisted"
       "missing counterparty_script with {} to_counterparty_value_sat");;
  whenb (bool_decide (is_Some (holder_shutdown_script setup)) && (0 <? to_holder)
         && negb (bool_decide (holder_script = holder_shutdown_script setup)))
    (err "policy-mutual-destination-allowlisted"
       "holder_script doesn't match upfront holder_shutdown_script");;
  whenb (negb (htlcs_is_empty holder_info) || negb (htlcs_is_empty counterparty_info))
    (err "policy-mutual-no-pending-htlcs" "cannot close with pending htlcs");;
  let weight := mutual_close_tx_weight (closing_built_transaction
    (new_closing_tx setup to_holder to_counterparty holder_script counterparty_script)) in
  sum_outputs ← ok_or (checked_add64 to_holder to_counterparty)
                  (policy_error_value "consumed overflow");
  map_err (fun ve => prepend_msg ve "validate_mutual_close_tx: ")
    (validate_fee self "policy-mutual-fee-range" (channel_value_sat setup) sum_outputs weight);;
  validate_close_values self setup holder_info counterparty_info to_holder to_counterparty;;
  match holder_script with
  | Some script =>
      ok ← spendable_or_allowlisted wallet holder_wallet_path_hint script;
      whenb (negb ok)
        (err "policy-mutual-destination-allowlisted"
           "holder output not to wallet or in allowlist")
  | None => Ok tt
  end.

Record ValidateArgs := {
  va_to_holder_value_sat : Z;
  va_to_counterparty_value_sat : Z;
  va_holder_script : option Script;
  va_counterparty_script : option Script;
  va_wallet_path : path
}.

(** [Option]'s order: [None] is the least. *)
Definition opt_gt (a b : option Z) : bool :=
  match a, b with
  | Some x, Some y => y <? x
  | Some _, None => true
  | None, _ => false
  end.

(** The likely and the unlikely assignment of the outputs to the parties. *)
Definition close_args (tx : Transaction) (wallet_paths : list path)
  (holder_value_is_larger : bool) : result (ValidateArgs * ValidateArgs) :=
  if (length (output tx) =? 1)%nat then
    out0 ← unwrap (output tx !! 0%nat);
    path0 ← unwrap (wallet_paths !! 0%nat);
    let holders_output := {| va_to_holder_value_sat := out_value out0;
      va_to_counterparty_value_sat := 0; va_holder_script := Some (script_pubkey out0);
      va_counterparty_script := None; va_wallet_path := path0 |} in
    let cpartys_output := {| va_to_holder_value_sat := 0;
      va_to_counterparty_value_sat := out_value out0; va_holder_script := None;
      va_counterparty_script := Some (script_pubkey out0); va_wallet_path := [] |} in
    Ok (if holder_value_is_larger then (holders_output, cpartys_output)
        else (cpartys_output, holders_output))
  else
    out0 ← unwrap (output tx !! 0%nat);
    out1 ← unwrap (output tx !! 1%nat);
    path0 ← unwrap (wallet_paths !! 0%nat);
    path1 ← unwrap (wallet_paths !! 1%nat);
    let holder_first := {| va_to_holder_value_sat := out_value out0;
      va_to_counterparty_value_sat := out_value out1;
      va_holder_script := Some (script_pubkey out0);
      va_counterparty_script := Some (script_pubkey out1); va_wallet_path := path0 |} in
    let cparty_first := {| va_to_holder_value_sat := out_value out1;
      va_to_counterparty_value_sat := out_value out0;
      va_holder_script := Some (script_pubkey out1);
      va_counterparty_script := Some (script_pubkey out0); va_wallet_path := path1 |} in
    Ok (if holder_value_is_larger then (cparty_first, holder_first)
        else (holder_first, cparty_first)).

Definition validate_close_args self wallet (setup : ChannelSetup) (estate : EnforcementState)
  (a : ValidateArgs) : result unit :=
  validate_mutual_close_tx self wallet setup estate (va_to_holder_value_sat a)
    (va_to_counterparty_value_sat a) (va_holder_script a) (va_counterparty_script a)
    (va_wallet_path a).

Definition decode_and_validate_mutual_close_tx self wallet (setup : ChannelSetup)
  (estate : EnforcementState) (tx : Transaction) (wallet_paths : list path)
  : result ClosingTransaction :=
  let err tag msg := self_policy_err self tag "decode_and_validate_mutual_close_tx" msg in
  whenb (2 <? length (output tx))%nat
    (transaction_format_err "decode_and_validate_mutual_close_tx"
       "invalid number of outputs: {}");;
  assert_ (length wallet_paths =? length (output tx))%nat;;
  whenb (bool_decide (current_holder_commit_info estate = None))
    (err "policy-mutual-other" "current_holder_commit_info missing");;
  whenb (bool_decide (current_counterparty_commit_info estate = None))
    (err "policy-mutual-other" "current_counterparty_commit_info missing");;
  let holder_value := minimum_to_holder_value estate (epsilon_sat self) in
  let cparty_value := minimum_to_counterparty_value estate (epsilon_sat self) in
  '(likely_args, unlikely_args) ←
    close_args tx wallet_paths (opt_gt holder_value cparty_value);
  good_args ←
    match validate_close_args self wallet setup estate likely_args with
    | Ok _ => Ok likely_args
    | Panic => Panic
    | Err likely_err =>
        match validate_close_args self wallet setup estate unlikely_args with
        | Ok _ => Ok unlikely_args
        | Panic => Panic
        | Err _ => Err likely_err
        end
    end;
  let closing_tx := new_closing_tx setup (va_to_holder_value_sat good_args)
    (va_to_counterparty_value_sat good_args) (va_holder_script good_args)
    (va_counterparty_script good_args) in
  let recomposed_tx := closing_built_transaction closing_tx in
  whenb (negb (bool_decide (recomposed_tx = tx)))
    (err "policy-onchain-format-standard" "recomposed tx mismatch");;
  Ok closing_tx.

(** *** Sweeps *)

(** The lock time must not be beyond the tip by more than the allowed lag. *)
Definition check_sweep_locktime (func : string) (tx : Transaction) (cstate : ChainState)
  : result unit :=
  limit ← add32 (current_height cstate) MAX_CHAIN_LAG;
  whenb (limit <? lock_time tx) (transaction_format_err func "bad locktime: {} > {}").

Definition check_sweep_sequence (func : string) (tx : Transaction) (valid_seqs : list Z)
  : result unit :=
  input0 ← unwrap (input tx !! 0%nat);
  whenb (negb (bool_decide (sequence input0 ∈ valid_seqs)))
    (transaction_format_err func "bad sequence: {} not in {:?}").

Definition validate_delayed_sweep self wallet (setup : ChannelSetup) (cstate : ChainState)
  (tx : Transaction) (input : nat) (amount_sat : Z) (wallet_path : path) : result unit :=
  map_err (fun ve => prepend_msg ve "validate_delayed_sweep: ")
    (validate_sweep self wallet tx input amount_sat wallet_path);;
  check_sweep_locktime "validate_delayed_sweep" tx cstate;;
  input0 ← unwrap (Extern.input tx !! 0%nat);
  whenb (negb (sequence input0 =? counterparty_selected_contest_delay setup))
    (transaction_format_err "validate_delayed_sweep" "bad sequence: {} != {}").

Definition validate_counterparty_htlc_sweep self wallet (setup : ChannelSetup)
  (cstate : ChainState) (tx : Transaction) (redeemscript : Script) (input : nat)
  (amount_sat : Z) (wallet_path : path) : result unit :=
  let func := "validate_counterparty_htlc_sweep" in
  map_err (fun ve => prepend_msg ve "validate_counterparty_htlc_sweep: ")
    (validate_sweep self wallet tx input amount_sat wallet_path);;
  match parse_received_htlc_script redeemscript (is_anchors setup) with
  | Ok (_, _, _, _, cltv_expiry) =>
      whenb ((cltv_expiry <? 0) || (U32_MAX <? cltv_expiry))
        (transaction_format_err func "bad cltv_expiry: {}");;
      whenb (as_u 32 cltv_expiry <? lock_time tx)
        (transaction_format_err func "bad locktime: {} > {}")
  | _ =>
      match parse_offered_htlc_script redeemscript (is_anchors setup) with
      | Ok _ => check_sweep_locktime func tx cstate
      | _ => transaction_format_err func "bad redeemscript: {}"
      end
  end;;
  check_sweep_sequence func tx (if is_anchors setup then ANCHOR_SEQS else NON_ANCHOR_SEQS).

Definition validate_justice_sweep self wallet (_setup : ChannelSetup) (cstate : ChainState)
  (tx : Transaction) (input : nat) (amount_sat : Z) (wallet_path : path) : result unit :=
  map_err (fun ve => prepend_msg ve "validate_justice_sweep: ")
    (validate_sweep self wallet tx input amount_sat wallet_path);;
  check_sweep_locktime "validate_justice_sweep" tx cstate;;
  check_sweep_sequence "validate_justice_sweep" tx NON_ANCHOR_SEQS.

(** *** Payments *)

Definition validate_payment_balance self (incoming_msat outgoing_msat : Z)
  (invoiced_amount_msat : option Z) : result unit :=
  max_to_invoice_msat ←
    match invoiced_amount_msat with
    | Some a => add64 a (max_routing_fee_msat self)
    | None => Ok 0
    end;
  limit ← add64 incoming_msat max_to_invoice_msat;
  whenb (limit <? outgoing_msat)
    (self_policy_err self "policy-routing-balanced" "validate_payment_balance"
       "incoming_msat + max_to_invoice_msat < outgoing_msat: {} + {} < {}").

Definition minimum_initial_balance (holder_value_msat : Z) : Z := holder_value_msat / 1000.

(** ** The implementation of the interface *)

Definition validator self : Validator := {|
  Validator.validate_ready_channel := validate_ready_channel self;
  Validator.validate_channel_value := validate_channel_value self;
  Validator.validate_onchain_tx := validate_onchain_tx self;
  Validator.decode_commitment_tx := decode_commitment_tx self;
  Validator.validate_counterparty_commitment_tx := validate_counterparty_commitment_tx self;
  Validator.validate_holder_commitment_tx := validate_holder_commitment_tx self;
  Validator.validate_counterparty_revocation := validate_counterparty_revocation self;
  Validator.decode_and_validate_htlc_tx := decode_and_validate_htlc_tx self;
  Validator.validate_htlc_tx := validate_htlc_tx self;
  Validator.decode_and_validate_mutual_close_tx := decode_and_validate_mutual_close_tx self;
  Validator.validate_mutual_close_tx := validate_mutual_close_tx self;
  Validator.validate_delayed_sweep := validate_delayed_sweep self;
  Validator.validate_counterparty_htlc_sweep := validate_counterparty_htlc_sweep self;
  Validator.validate_justice_sweep := validate_justice_sweep self;
  Validator.validate_payment_balance := validate_payment_balance self;
  Validator.enforce_balance := sp_enforce_balance self;
  Validator.minimum_initial_balance := minimum_initial_balance;
  Validator.policy := simple_policy self
|}.
End simple.

(** [SimpleValidatorFactory]: the given policy, or the network's default. *)
Definition make_validator `{Lib, Profile} (policy : option SimplePolicy) (network : Network)
  : Validator :=
  validator (default (make_simple_policy network) policy).

(** ** Lemmas *)

Section simple_lemmas.
Context `{L : Lib, Prof : Profile} (self : SimplePolicy) `{Hs : !Strict (simple_policy self)}.

Lemma when_iff b tag func msg :
  whenb b (self_policy_err self tag func msg) = Ok tt <-> b = false.
Proof.
  split; [apply strict_when; apply Hs|]. by intros ->.
Qed.

Lemma bind_unit_iff {A} (m : result unit) (f : unit -> result A) a :
  (m ≫= f) = Ok a <-> m = Ok tt /\ f tt = Ok a.
Proof. rewrite bind_Ok. split; [intros ([] & ? & ?); auto|]. intros []; by exists tt. Qed.

(** *** The promises to a channel *)

Lemma holder_commitment_accepted es n point setup cstate info :
  num_ok n ->
  validate_holder_commitment_tx self es n point setup cstate info = Ok tt ->
  validate_commitment_tx self es n point setup cstate info = Ok tt
  /\ to_self_delay info = counterparty_selected_contest_delay setup
  /\ next_holder_commit_num es < n + 2
  /\ (n + 1 = next_holder_commit_num es -> current_holder_commit_info es = Some info)
  /\ (n = next_holder_commit_num es -> channel_closed es = false).
Proof.
  unfold num_ok. intros Hn H. unfold validate_holder_commitment_tx in H. inv_ok H.
  rewrite add64_in in Hx1, Hx3 by lia. injection Hx1 as <-. injection Hx3 as <-.
  unfold self_policy_err in *. strict_ok Hs. b2p. destruct x.
  split; [done|]. split; [done|]. split; [done|]. split.
  - intros Heq. rewrite (proj2 (Z.eqb_eq _ _) Heq) in Hx2. inv_ok Hx2. strict_ok Hs. b2p.
    apply bool_decide_eq_true in Hx2. congruence.
  - intros ->. rewrite Z.eqb_refl in H. cbn in H. by destruct (channel_closed es).
Qed.

Lemma counterparty_commitment_accepted es n point setup cstate info :
  num_ok n -> num_ok (next_counterparty_revoke_num es) ->
  validate_counterparty_commitment_tx self es n point setup cstate info = Ok tt ->
  validate_commitment_tx self es n point setup cstate info = Ok tt
  /\ to_self_delay info = holder_selected_contest_delay setup
  /\ n <= next_counterparty_revoke_num es + 1
  /\ (n + 1 = next_counterparty_commit_num es ->
      current_counterparty_point es = Some point
      /\ current_counterparty_commit_info es = Some info).
Proof.
  unfold num_ok. intros Hn Hr H. unfold validate_counterparty_commitment_tx in H. inv_ok H.
  rewrite add64_in in Hx1, Hx3 by lia. injection Hx1 as <-. injection Hx3 as <-.
  unfold self_policy_err in *. strict_ok Hs. b2p. destruct x.
  split; [done|]. split; [done|]. split; [lia|]. intros Heq.
  rewrite (proj2 (Z.eqb_eq _ _) Heq) in H. inv_ok H.
  destruct (current_counterparty_point es) as [prev|]; strict_ok Hs. b2p.
  unfold get_previous_counterparty_commit_info in Hx3.
  rewrite !add64_in in Hx3 by lia. cbn [mbind outcome_bind] in Hx3. rewrite (proj2 (Z.eqb_eq _ _) Heq) in Hx3.
  injection Hx3 as <-. apply bool_decide_eq_true in Hx1, H. by subst.
Qed.

Lemma revocation_accepted es n secret :
  num_ok n -> validate_counterparty_revocation self es n secret = Ok tt ->
  (n = next_counterparty_revoke_num es \/ n + 1 = next_counterparty_revoke_num es)
  /\ (n + 1 = next_counterparty_commit_num es
        /\ current_counterparty_point es = Some (pubkey_from_secret_key secret)
      \/ n + 2 = next_counterparty_commit_num es
        /\ previous_counterparty_point es = Some (pubkey_from_secret_key secret)).
Proof.
  unfold num_ok. intros Hn H. unfold validate_counterparty_revocation in H. inv_ok H.
  unfold self_policy_err, get_previous_counterparty_point in *. strict_ok Hs.
  rewrite !add64_in in * by lia. cbn [mbind outcome_bind] in *. split.
  - destruct (n =? _) eqn:Heq; b2p; [by left|]. cbn in Hx. injection Hx as <-. b2p. by right.
  - destruct x1 as [prev|]; strict_ok Hs. b2p. apply bool_decide_eq_true in H. subst prev.
    destruct (n + 1 =? next_counterparty_commit_num es) eqn:H1; b2p; [left; split; [done|congruence]|].
    destruct (n + 2 =? next_counterparty_commit_num es) eqn:H2; b2p; [right; split; [done|congruence]|done].
Qed.

#[export] Instance simple_safe : SafeValidator (validator self).
Proof.
  split; [exact Hs|..].
  - intros es n point setup cstate info Hn H.
    by apply holder_commitment_accepted in H as (_ & _ & H).
  - intros es n point setup cstate info Hn Hr H.
    by apply counterparty_commitment_accepted in H as (_ & _ & H).
  - intros. by apply revocation_accepted.
Qed.

(** *** Commitment contents *)

Definition expiry_ok (cstate : ChainState) (h : HTLCInfo2) : Prop :=
  use_chain_state self = true ->
  current_height cstate + min_delay self <= cltv_expiry h
    <= current_height cstate + max_delay self.

(** The chain height is such that the expiry bounds fit in 32 bits. *)
Definition height_ok (cstate : ChainState) : Prop :=
  0 <= current_height cstate /\ 0 <= min_delay self /\ 0 <= max_delay self
  /\ current_height cstate + min_delay self < 2 ^ 32
  /\ current_height cstate + max_delay self < 2 ^ 32.

Lemma validate_expiry_iff cstate h : height_ok cstate ->
  validate_expiry self (cltv_expiry h) (current_height cstate) = Ok tt <-> expiry_ok cstate h.
Proof.
  intros (? & ? & ? & ? & ?). unfold validate_expiry, expiry_ok.
  destruct (use_chain_state self); [|split; [done|]; done].
  rewrite !add32_in, !Ok_bind, bind_unit_iff, !when_iff by lia.
  rewrite !Z.ltb_ge. naive_solver lia.
Qed.

Lemma validate_htlcs_iff cstate m1 m2 limit acc l r :
  height_ok cstate -> 0 <= acc < 2 ^ 64 -> Forall (fun h => 0 <= value_sat h) l ->
  validate_htlcs self cstate m1 m2 limit acc l = Ok r <->
  Forall (fun h => expiry_ok cstate h /\ limit <= value_sat h) l
  /\ acc + htlc_sum l < 2 ^ 64 /\ r = acc + htlc_sum l.
Proof.
  intros Hh. revert acc. induction l as [|h l IH]; intros acc Hacc Hl.
  { cbn. rewrite Z.add_0_r. split; [intros [= <-]; split; [constructor|lia]|].
    by intros (_ & _ & ->). }
  inversion Hl as [|? ? Hv Hl']; subst. pose proof (htlc_sum_nonneg _ Hl').
  assert (Hsum : htlc_sum (h :: l) = value_sat h + htlc_sum l) by done.
  unfold validate_htlcs in *. cbn [foldM]. rewrite Hsum, Forall_cons, bind_Ok. split.
  - intros (a & Ha & Hf). apply bind_unit_iff in Ha as [He Ha].
    apply validate_expiry_iff in He; [|done]. inv_ok Ha. unfold self_policy_err in *.
    strict_ok Hs. b2p. apply IH in Hf as (? & ? & ->); [|lia|done]. split; [done|lia].
  - intros ([[He Hd] Hf] & Hb & ->). exists (acc + value_sat h). split.
    + apply bind_unit_iff. split; [by apply validate_expiry_iff|].
      unfold checked_add64. rewrite (proj2 (Z.ltb_lt (acc + value_sat h) _)) by lia. step.
      rewrite (proj2 (Z.ltb_ge _ _)) by lia. done.
    + apply IH; [lia|done|]. split; [done|lia].
Qed.

(** The dust limit without overflow. *)
Definition dust_limit (setup : ChannelSetup) (feerate weight : Z) : Z :=
  if is_zero_fee_htlc setup then MIN_CHAN_DUST_LIMIT_SATOSHIS
  else MIN_DUST_LIMIT_SATOSHIS + feerate * weight / 1000.

Lemma htlc_dust_exact setup feerate weight :
  0 <= feerate < 2 ^ 32 -> 0 <= weight < 2 ^ 31 ->
  htlc_dust_limit setup feerate weight = Ok (dust_limit setup feerate weight).
Proof.
  intros Hf Hw. unfold htlc_dust_limit, dust_limit, MIN_DUST_LIMIT_SATOSHIS.
  destruct (is_zero_fee_htlc setup); [done|].
  assert (0 <= feerate * weight < 2 ^ 63) by nia.
  rewrite mul64_in by lia. step.
  assert (0 <= feerate * weight / 1000 <= feerate * weight) by
    (split; [apply Z.div_pos; lia|apply Z.div_le_upper_bound; lia]).
  by rewrite add64_in by lia.
Qed.

(** The fee of a transaction, when the whole input as a fee would still be a
    feerate of 32 bits. *)
Lemma validate_fee_iff tag sum_in sum_out weight :
  0 <= sum_in -> sum_in * 1000 + 999 < 2 ^ 64 -> sum_in * 1000 + 999 < weight * 2 ^ 32 ->
  0 <= sum_out ->
  validate_fee self tag sum_in sum_out weight = Ok tt <->
  sum_out <= sum_in
  /\ min_feerate_per_kw self <= ((sum_in - sum_out) * 1000 + 999) / weight
     <= max_feerate_per_kw self.
Proof.
  intros Hin H64 Hw Hout. unfold validate_fee, checked_sub64.
  destruct (0 <=? sum_in - sum_out) eqn:Hle; b2p; [|split; [done|lia]].
  cbn [ok_or]. rewrite Ok_bind, feerate_exact, Ok_bind by lia. unfold as_u.
  assert (Hsmall : 0 <= ((sum_in - sum_out) * 1000 + 999) / weight < 2 ^ 32).
  { split; [apply Z.div_pos; lia|]. apply Z.div_lt_upper_bound; lia. }
  rewrite Z.mod_small by lia. rewrite bind_unit_iff, !when_iff, !Z.ltb_ge. lia.
Qed.

(** An accepted fee is never negative, whatever the range of the amounts. *)
Lemma validate_fee_covered tag sum_in sum_out weight u :
  validate_fee self tag sum_in sum_out weight = Ok u -> sum_out <= sum_in.
Proof. unfold validate_fee. intros H. inv_ok H. lia. Qed.

(** What is asked of the contents of a commitment. *)
Record acceptable (setup : ChannelSetup) (cstate : ChainState) (n : Z)
  (info : CommitmentInfo2) : Prop := {
  ac_broadcaster : to_broadcaster_value_sat info = 0
    \/ MIN_CHAN_DUST_LIMIT_SATOSHIS <= to_broadcaster_value_sat info;
  ac_countersigner : to_countersigner_value_sat info = 0
    \/ MIN_CHAN_DUST_LIMIT_SATOSHIS <= to_countersigner_value_sat info;
  ac_count : Z.of_nat (length (offered_htlcs info) + length (received_htlcs info))
    <= max_htlcs self;
  ac_offered : Forall (fun h => expiry_ok cstate h /\ dust_limit setup (feerate_per_kw info)
    (htlc_timeout_tx_weight (is_anchors setup)) <= value_sat h) (offered_htlcs info);
  ac_received : Forall (fun h => expiry_ok cstate h /\ dust_limit setup (feerate_per_kw info)
    (htlc_success_tx_weight (is_anchors setup)) <= value_sat h) (received_htlcs info);
  ac_inflight : htlc_sum (offered_htlcs info) + htlc_sum (received_htlcs info)
    <= max_htlc_value_sat self;
  ac_value : total info <= channel_value_sat setup;
  ac_fee : min_feerate_per_kw self
    <= ((channel_value_sat setup - total info) * 1000 + 999)
       / expected_commitment_tx_weight (is_anchors setup)
           (length (offered_htlcs info) + length (received_htlcs info))
    <= max_feerate_per_kw self;
  ac_initial : n = 0 -> offered_htlcs info = [] /\ received_htlcs info = []
    /\ (is_outbound setup = true -> (value_to_parties info).2 <= push_value_msat setup / 1000)
}.

Lemma validate_initial_iff setup info :
  validate_initial_commitment self setup info = Ok tt <->
  offered_htlcs info = [] /\ received_htlcs info = []
  /\ (is_outbound setup = true -> (value_to_parties info).2 <= push_value_msat setup / 1000).
Proof.
  unfold validate_initial_commitment. destruct (value_to_parties info) as [hv cv]. cbn [snd].
  rewrite bind_unit_iff, when_iff, Nat.ltb_ge.
  assert (Hlen : (length (offered_htlcs info) + length (received_htlcs info) <= 0)%nat <->
    offered_htlcs info = [] /\ received_htlcs info = []).
  { destruct (offered_htlcs info), (received_htlcs info); cbn; split; (lia || naive_solver). }
  rewrite Hlen. destruct (is_outbound setup); rewrite ?when_iff, ?Z.ltb_ge; naive_solver.
Qed.
End simple_lemmas.

(** ** Properties *)

Section claims.
Context `{L : Lib, Prof : Profile} (self : SimplePolicy) `{Hs : !Strict (simple_policy self)}.

(** The ranges of the quantities a commitment is checked with: amounts are
    unsigned, the channel is of at most 3 * 10^9 satoshi (three times the
    default limit), the feerate is 32 bits, and the weights of the HTLC
    transactions are small. *)
Record in_range (setup : ChannelSetup) (cstate : ChainState) (info : CommitmentInfo2) : Prop := {
  ir_amounts : amounts_nonneg info;
  ir_value : 0 <= channel_value_sat setup <= 3000000000;
  ir_feerate : 0 <= feerate_per_kw info < 2 ^ 32;
  ir_timeout : 0 <= htlc_timeout_tx_weight (is_anchors setup) < 2 ^ 31;
  ir_success : 0 <= htlc_success_tx_weight (is_anchors setup) < 2 ^ 31;
  ir_height : height_ok self cstate;
  ir_inflight : max_htlc_value_sat self < 2 ^ 64
}.

Lemma weight_bound b n v : 0 <= v <= 3000000000 ->
  v * 1000 + 999 < expected_commitment_tx_weight b n * 2 ^ 32.
Proof. unfold expected_commitment_tx_weight. destruct b; lia. Qed.

Lemma not_dust_iff v : 0 <= v ->
  (0 <? v) && (v <? MIN_CHAN_DUST_LIMIT_SATOSHIS) = false <->
  v = 0 \/ MIN_CHAN_DUST_LIMIT_SATOSHIS <= v.
Proof.
  intros Hv. rewrite andb_false_iff, !Z.ltb_ge. unfold MIN_CHAN_DUST_LIMIT_SATOSHIS. lia.
Qed.

Lemma initial_when_iff n setup info :
  (if n =? 0 then validate_initial_commitment self setup info else Ok tt) = Ok tt <->
  (n = 0 -> offered_htlcs info = [] /\ received_htlcs info = []
    /\ (is_outbound setup = true -> (value_to_parties info).2 <= push_value_msat setup / 1000)).
Proof.
  destruct (n =? 0) eqn:Hn; b2p; [rewrite validate_initial_iff by done; naive_solver|].
  split; [lia|done].
Qed.

Lemma sums_total info :
  to_broadcaster_value_sat info + to_countersigner_value_sat info
  + (0 + htlc_sum (offered_htlcs info) + htlc_sum (received_htlcs info)) = total info.
Proof. unfold total. lia. Qed.

Lemma commitment_accepted_acceptable es n point setup cstate info :
  in_range setup cstate info ->
  validate_commitment_tx self es n point setup cstate info = Ok tt ->
  acceptable self setup cstate n info.
Proof.
  intros [(Hb & Hc & Ho & Hr) Hv Hf Ht Hsc Hh Hi] H.
  unfold validate_commitment_tx, self_policy_err in H. cbv zeta in H.
  rewrite !htlc_dust_exact, !Ok_bind in H by done. inv_ok H.
  pose proof (htlc_sum_nonneg _ Ho). pose proof (htlc_sum_nonneg _ Hr).
  match goal with H : validate_htlcs _ _ _ _ _ 0 _ = Ok _ |- _ =>
    apply validate_htlcs_iff in H as (Hoff & ? & ->); [|done..] end.
  match goal with H : validate_htlcs _ _ _ _ _ _ _ = Ok _ |- _ =>
    apply validate_htlcs_iff in H as (Hrec & ? & ->); [|done|done|lia|done] end.
  strict_ok Hs. rewrite sums_total in *.
  match goal with H : validate_fee _ _ _ _ _ = Ok ?u |- _ =>
    destruct u; apply validate_fee_iff in H as [? ?];
      [|done|lia|lia|by apply weight_bound|unfold total; lia] end.
  pose proof (proj1 (initial_when_iff n setup info) H) as Hinit.
  split; try (apply not_dust_iff; [lia|assumption]); b2p; (done || lia).
Qed.

Lemma acceptable_commitment_accepted es n point setup cstate info :
  in_range setup cstate info -> acceptable self setup cstate n info ->
  validate_commitment_tx self es n point setup cstate info = Ok tt.
Proof.
  intros [(Hb & Hc & Ho & Hr) Hv Hf Ht Hsc Hh Hi] [].
  pose proof (htlc_sum_nonneg _ Ho). pose proof (htlc_sum_nonneg _ Hr).
  assert (Htot : total info < 2 ^ 64) by lia. unfold total in Htot.
  unfold validate_commitment_tx. cbv zeta. rewrite !htlc_dust_exact, !Ok_bind by done.
  rewrite !bind_unit_iff, !when_iff, !not_dust_iff, Z.ltb_ge by done.
  split; [done|]. split; [done|]. split; [done|].
  apply bind_Ok. eexists. split; [apply validate_htlcs_iff; [done..|split; [done|split; [lia|done]]]|].
  rewrite Ok_bind. apply bind_Ok. eexists.
  split; [apply validate_htlcs_iff; [done|done|lia|done|split; [done|split; [lia|done]]]|].
  apply bind_unit_iff. rewrite when_iff, Z.ltb_ge by done. split; [lia|].
  apply bind_Ok. eexists. split; [apply ok_or_Ok, checked_add64_Some; split; [done|lia]|].
  apply bind_Ok. eexists. split; [apply ok_or_Ok, checked_add64_Some; split; [done|lia]|].
  rewrite sums_total. apply bind_unit_iff. rewrite map_err_Ok, validate_fee_iff, initial_when_iff;
    [|done|lia|lia|by apply weight_bound|unfold total; lia]. done.
Qed.

(** C8: the policy on commitment contents, exactly.  Under a policy whose
    filter enforces every tag, a commitment in range (a channel of at most
    3 * 10^9 satoshi, amounts that are not negative, a feerate of 32 bits) is
    accepted if and only if neither output to a party is dust, the HTLCs are not too many, each is
    above the dust limit of its second-level transaction and, if the policy
    uses the chain state (which the default policies do not), expires within
    the allowed window of the current height, their sum is within the in-flight limit, everything
    adds up to at most the channel value, the rest is a fee at a feerate
    between the minimum and the maximum, and an initial commitment has no
    HTLCs and gives the counterparty of an outbound channel no more than the
    pushed value. *)
Theorem commitment_accepted_iff es n point setup cstate info (Hr : in_range setup cstate info) :
  validate_commitment_tx self es n point setup cstate info = Ok tt
  <-> acceptable self setup cstate n info.
Proof.
  split; [by apply commitment_accepted_acceptable|by apply acceptable_commitment_accepted].
Qed.

(** *** Destinations *)

(** The wallet can spend an output to [script] with the key at [p], or the
    script is on the allowlist. *)
Definition ours (wallet : Wallet) (p : path) (script : Script) : Prop :=
  can_spend wallet p script = Ok true \/ allowlist_contains wallet script p = Ok true.

Lemma spendable_ours wallet p script :
  spendable_or_allowlisted wallet p script = Ok true -> ours wallet p script.
Proof.
  unfold spendable_or_allowlisted, ours. intros H. inv_ok H.
  destruct x; [by left|]. by right.
Qed.

Lemma sweep_outputs wallet tx inp amount p :
  validate_sweep self wallet tx inp amount p = Ok tt ->
  version tx = 2 /\ Forall (fun o => ours wallet p (script_pubkey o)) (output tx).
Proof.
  intros H. unfold validate_sweep in H. inv_ok H. apply whenb_Err_Ok in Hx. b2p.
  split; [done|]. revert H. induction (output tx) as [|o outs IH]; intros H; [constructor|].
  cbn [foldM] in H. inv_ok H. unfold self_policy_err in *. strict_ok Hs.
  apply negb_false_iff in Hx0. subst. destruct x0. constructor; [by apply spendable_ours|auto].
Qed.

Lemma sweep_locktime func tx cstate u : 0 <= current_height cstate < 2 ^ 32 - 2 ->
  check_sweep_locktime func tx cstate = Ok u ->
  lock_time tx <= current_height cstate + MAX_CHAIN_LAG.
Proof.
  unfold check_sweep_locktime, MAX_CHAIN_LAG. intros Hh H. rewrite add32_in in H by lia.
  inv_ok H. apply whenb_Err_Ok in H. by b2p.
Qed.

(** C13: sweeps pay to us.  Under a policy whose filter enforces every tag and
    at a height below 2^32 - 2, when the signer accepts to sign a sweep of a
    delayed output, of an HTLC of the counterparty's commitment, or of a revoked
    commitment, every output of the sweep goes to the wallet or to an
    allowlisted script, the transaction is of version 2, and its lock time
    is at most two blocks ahead of the tip (for a received HTLC, at most the
    expiry of the HTLC). *)
Theorem sweeps_pay_to_us wallet setup cstate tx (redeemscript : Script) inp amount p
  (Hheight : 0 <= current_height cstate < 2 ^ 32 - 2)
  (Hok : validate_delayed_sweep self wallet setup cstate tx inp amount p = Ok tt
         \/ validate_counterparty_htlc_sweep self wallet setup cstate tx redeemscript inp amount p
            = Ok tt
         \/ validate_justice_sweep self wallet setup cstate tx inp amount p = Ok tt) :
  version tx = 2 /\ Forall (fun o => ours wallet p (script_pubkey o)) (output tx)
  /\ (lock_time tx <= current_height cstate + MAX_CHAIN_LAG
      \/ exists a b c d expiry,
          parse_received_htlc_script redeemscript (is_anchors setup) = Ok (a, b, c, d, expiry)
          /\ 0 <= expiry <= U32_MAX /\ lock_time tx <= expiry).
Proof.
  destruct Hok as [H|[H|H]];
    [unfold validate_delayed_sweep in H|unfold validate_counterparty_htlc_sweep in H
    |unfold validate_justice_sweep in H]; inv_ok H; destruct x;
    (destruct (sweep_outputs _ _ _ _ _ Hx) as [Hver Houts]; split; [done|]; split; [done|]).
  - left. by eapply sweep_locktime.
  - destruct (parse_received_htlc_script _ _) as [[[[[a b] c] d] expiry]|e|];
      [|destruct (parse_offered_htlc_script _ _); [left; by eapply sweep_locktime|done..]..].
    right. exists a, b, c, d, expiry. inv_ok Hx0. strict_ok Hs. b2p. split; [done|].
    split; [done|]. unfold as_u, U32_MAX in *. by rewrite Z.mod_small in Hx0 by lia.
  - left. by eapply sweep_locktime.
Qed.

(** *** Mutual close *)

(** The weight of the closing transaction, and the channel value, are such that
    the feerate is a number of 32 bits. *)
Definition close_range (setup : ChannelSetup) (weight : Z) : Prop :=
  0 <= channel_value_sat setup /\ channel_value_sat setup * 1000 + 999 < 2 ^ 64
  /\ channel_value_sat setup * 1000 + 999 < weight * 2 ^ 32.

(** What is asked of a mutual close that gives [to_holder] to [holder_script].
    The feerate is bounded only in [close_range]: beyond it the feerate that
    is compared with the bounds is truncated to 32 bits. *)
Record close_ok (wallet : Wallet) (setup : ChannelSetup) (holder_info cp_info : CommitmentInfo2)
  (to_holder to_counterparty : Z) (holder_script counterparty_script : option Script)
  (weight : Z) (p : path) : Prop := {
  co_htlcs : htlcs_is_empty holder_info = true /\ htlcs_is_empty cp_info = true;
  co_value : to_holder + to_counterparty <= channel_value_sat setup;
  co_fee : close_range setup weight -> min_feerate_per_kw self
    <= ((channel_value_sat setup - (to_holder + to_counterparty)) * 1000 + 999) / weight
    <= max_feerate_per_kw self;
  co_outbound : is_outbound setup = true ->
    Z.abs (to_counterparty - to_broadcaster_value_sat cp_info) <= epsilon_sat self
    /\ Z.abs (to_counterparty - to_countersigner_value_sat holder_info) <= epsilon_sat self;
  co_inbound : is_outbound setup = false ->
    Z.abs (to_holder - to_broadcaster_value_sat holder_info) <= epsilon_sat self
    /\ Z.abs (to_holder - to_countersigner_value_sat cp_info) <= epsilon_sat self;
  co_script : 0 < to_holder -> is_Some holder_script
    /\ (is_Some (holder_shutdown_script setup) -> holder_script = holder_shutdown_script setup);
  co_ours : forall script, holder_script = Some script -> ours wallet p script
}.

Lemma epsilon_iff a b :
  outside_epsilon_range self a b = false <-> Z.abs (a - b) <= epsilon_sat self.
Proof.
  unfold outside_epsilon_range. destruct (b <? a) eqn:H; b2p; rewrite Z.ltb_ge; lia.
Qed.

Lemma close_values setup hinfo cinfo th tc u :
  validate_close_values self setup hinfo cinfo th tc = Ok u ->
  (is_outbound setup = true ->
    Z.abs (tc - to_broadcaster_value_sat cinfo) <= epsilon_sat self
    /\ Z.abs (tc - to_countersigner_value_sat hinfo) <= epsilon_sat self)
  /\ (is_outbound setup = false ->
    Z.abs (th - to_broadcaster_value_sat hinfo) <= epsilon_sat self
    /\ Z.abs (th - to_countersigner_value_sat cinfo) <= epsilon_sat self).
Proof.
  unfold validate_close_values, self_policy_err. intros H.
  destruct (is_outbound setup); inv_ok H; strict_ok Hs;
    repeat match goal with H : outside_epsilon_range _ _ _ = false |- _ =>
      apply epsilon_iff in H end; split; intros; done.
Qed.

Definition closing_weight (setup : ChannelSetup) (th tc : Z) (hs cs : option Script) : Z :=
  mutual_close_tx_weight (closing_built_transaction (new_closing_tx setup th tc hs cs)).

Lemma mutual_close_accepted wallet setup es th tc hs cs p :
  0 <= th -> 0 <= tc ->
  validate_mutual_close_tx self wallet setup es th tc hs cs p = Ok tt ->
  exists hinfo cinfo, current_holder_commit_info es = Some hinfo
    /\ current_counterparty_commit_info es = Some cinfo
    /\ close_ok wallet setup hinfo cinfo th tc hs cs (closing_weight setup th tc hs cs) p.
Proof.
  intros Hth Htc H. unfold validate_mutual_close_tx, self_policy_err in H.
  cbv zeta in H. inv_ok H. exists x, x0. split; [done|]. split; [done|]. strict_ok Hs.
  match goal with H : validate_fee _ _ _ _ _ = Ok ?u |- _ =>
    destruct u; pose proof (validate_fee_covered _ _ _ _ _ _ H); rename H into Hfee end.
  match goal with H : validate_close_values _ _ _ _ _ _ = Ok _ |- _ =>
    apply close_values in H as [? ?] end.
  b2p. split; try done.
  - intros (Hv & H64 & H32). by apply validate_fee_iff in Hfee as [? ?]; [|done..|lia].
  - intros Hpos. rewrite (proj2 (Z.ltb_lt _ _)) in * by done. cbn [andb] in *.
    rewrite andb_true_r in *. split.
    + destruct hs; [by eexists|]. done.
    + intros Hsome. rewrite bool_decide_true in * by done. cbn [andb] in *. b2p.
      by match goal with H : bool_decide (hs = _) = true |- _ => apply bool_decide_eq_true in H end.
  - intros script ->. inv_ok H. strict_ok Hs. b2p. subst. by apply spendable_ours.
Qed.

Lemma close_args_nonneg tx paths b likely unlikely :
  Forall (fun o => 0 <= out_value o) (output tx) ->
  close_args tx paths b = Ok (likely, unlikely) ->
  forall a, a = likely \/ a = unlikely ->
    0 <= va_to_holder_value_sat a /\ 0 <= va_to_counterparty_value_sat a.
Proof.
  intros Hout H a Ha. rewrite Forall_forall in Hout.
  assert (Hk : forall k o, output tx !! k = Some o -> 0 <= out_value o)
    by (intros k o Ho; apply Hout; by eapply list_elem_of_lookup_2).
  unfold close_args in H. destruct (_ =? 1)%nat; inv_ok H;
    repeat match goal with H : output tx !! _ = Some _ |- _ => apply Hk in H end;
    destruct b; simplify_eq; destruct Ha as [-> | ->]; cbn; lia.
Qed.

(** C11: a mutual close pays the holder.  Under a policy whose filter enforces
    every tag, when the signer accepts to sign a supplied closing transaction, that transaction is exactly the one built
    from an assignment of its outputs to the parties for which: there are no
    HTLCs in flight; the outputs do not exceed the channel value and leave a
    fee within the feerate bounds, if the channel value is such that its
    feerate fits 32 bits (beyond that the code truncates the feerate before
    it compares it); the side that does not pay the fee gets,
    up to epsilon, what both current commitments give it; and what goes to
    the holder goes to the upfront shutdown script if there is one, and in
    any case to the wallet or to an allowlisted script. *)
Theorem mutual_close_pays_holder wallet setup es tx paths ct
  (Hout : Forall (fun o => 0 <= out_value o) (output tx))
  (Hok : decode_and_validate_mutual_close_tx self wallet setup es tx paths = Ok ct) :
  closing_built_transaction ct = tx
  /\ exists hinfo cinfo hs cs p,
       current_holder_commit_info es = Some hinfo
       /\ current_counterparty_commit_info es = Some cinfo
       /\ ct = new_closing_tx setup (to_holder_value_sat ct) (to_counterparty_value_sat ct) hs cs
       /\ close_ok wallet setup hinfo cinfo (to_holder_value_sat ct)
            (to_counterparty_value_sat ct) hs cs (mutual_close_tx_weight tx) p.
Proof.
  unfold decode_and_validate_mutual_close_tx, self_policy_err in Hok. cbv zeta in Hok.
  inv_ok Hok. destruct x3 as [likely unlikely]. inv_ok Hok. strict_ok Hs. b2p.
  match goal with H : bool_decide (_ = tx) = true |- _ =>
    apply bool_decide_eq_true in H; rename H into Htx end.
  assert (Hargs : exists a, (a = likely \/ a = unlikely) /\ x3 = a
    /\ validate_close_args self wallet setup es a = Ok tt).
  { destruct (validate_close_args _ _ _ _ likely) as [[]|e|] eqn:H1; simplify_eq.
    - exists x3. auto.
    - destruct (validate_close_args _ _ _ _ unlikely) as [[]|e'|] eqn:H2; simplify_eq.
      exists x3. auto. }
  destruct Hargs as (a & Ha & -> & Hval). split; [done|].
  match goal with H : close_args _ _ _ = Ok _ |- _ =>
    destruct (close_args_nonneg _ _ _ _ _ Hout H a Ha) end.
  apply mutual_close_accepted in Hval as (hinfo & cinfo & Hh & Hc & Hclose);
    [|done..].
  exists hinfo, cinfo, (va_holder_script a), (va_counterparty_script a), (va_wallet_path a).
  cbn [to_holder_value_sat to_counterparty_value_sat new_closing_tx].
  unfold closing_weight in Hclose. rewrite Htx in Hclose. done.
Qed.

(** *** On-chain transactions *)

(** An output that funds a channel of ours, whose first commitment the
    counterparty has signed. *)
Record funds_channel (out : TxOut) (slot : option ChannelSlot) (chan : Channel) : Prop := {
  fc_slot : slot = Some (Ready chan);
  fc_value : out_value out = channel_value_sat (setup chan);
  fc_script : script_pubkey out = to_v0_p2wsh (make_funding_redeemscript
    (funding_pubkey (pubkeys (keys chan))) (funding_pubkey (counterparty_pubkeys (keys chan))));
  fc_countersigned : next_holder_commit_num (enforcement_state chan) = 1;
  fc_outbound : is_outbound (setup chan) = true
}.

(** An output whose value stays ours. *)
Definition beneficial (wallet : Wallet) (channels : list (option ChannelSlot))
  (opaths : list path) (io : nat * TxOut) : Prop :=
  exists opath slot, opaths !! io.1 = Some opath /\ channels !! io.1 = Some slot
    /\ (opath <> [] /\ ours wallet opath (script_pubkey io.2)
        \/ opath = [] /\ allowlist_contains wallet (script_pubkey io.2) [] = Ok true
        \/ opath = [] /\ exists chan, funds_channel io.2 slot chan).

Lemma funding_output out slot sum sum' :
  (forall chan, slot = Ready chan -> 0 <= push_value_msat (setup chan)) ->
  validate_funding_output self out slot sum = Ok sum' ->
  sum' = sum + out_value out /\ exists chan, funds_channel out (Some slot) chan.
Proof.
  intros Hpush H. destruct slot as [|chan]; [done|]. specialize (Hpush chan eq_refl).
  unfold validate_funding_output, self_policy_err, add_beneficial_output in H. cbv zeta in H.
  inv_ok H. strict_ok Hs. b2p.
  assert (0 <= push_value_msat (setup chan) / 1000) by (apply Z.div_pos; lia).
  split; [lia|]. exists chan. split; try done.
  match goal with H : bool_decide _ = true |- _ => by apply bool_decide_eq_true in H end.
Qed.

Lemma onchain_output wallet channels opaths unknowns sum io unknowns' sum' :
  (forall chan, Some (Ready chan) ∈ channels -> 0 <= push_value_msat (setup chan)) ->
  validate_onchain_output self wallet channels opaths (unknowns, sum) io
    = Ok (unknowns', sum') ->
  unknowns' = unknowns /\ sum' = sum + out_value io.2 /\ beneficial wallet channels opaths io
  \/ unknowns' = unknowns ++ [io.1].
Proof.
  intros Hpush H. destruct io as [i out]. unfold validate_onchain_output, self_policy_err,
    add_beneficial_output in H. inv_ok H. rename x into opath, x0 into slot.
  unfold beneficial; cbn [fst snd].
  destruct (0 <? length opath)%nat eqn:Hlen.
  - inv_ok H. assert (opath <> []) by (by intros ->).
    destruct x0; inv_ok H; [|strict_ok Hs]. left. split; [done|].
    split; [done|]. exists opath, slot. split; [done|]. split; [done|]. left. split; [done|].
    unfold ours. destruct x; auto.
  - assert (opath = []) as -> by (by destruct opath).
    inv_ok H. destruct x; inv_ok H.
    + left. split; [done|]. split; [done|]. exists [], slot. auto 7.
    + destruct slot as [slot|]; inv_ok H; [left|by right].
      apply funding_output in Hx2 as [-> Hf].
      * split; [done|]. split; [done|]. exists [], (Some slot). auto 7.
      * intros chan ->. apply Hpush. by eapply list_elem_of_lookup_2.
Qed.

(** The loop over the outputs. *)
Lemma onchain_outputs wallet channels opaths ios sum :
  (forall chan, Some (Ready chan) ∈ channels -> 0 <= push_value_msat (setup chan)) ->
  foldM (validate_onchain_output self wallet channels opaths) ([], 0) ios = Ok ([], sum) ->
  Forall (beneficial wallet channels opaths) ios
  /\ sum = sum_list_Z (map (fun io => out_value io.2) ios).
Proof.
  intros Hpush H.
  refine (foldM_inv (fun pre (acc : list nat * Z) => acc.1 = [] ->
    Forall (beneficial wallet channels opaths) pre
    /\ acc.2 = sum_list_Z (map (fun io => out_value io.2) pre)) _ ios _ _ _ _ H eq_refl); [done|].
  intros pre io [u1 s1] [u2 s2] IH Hstep Hu. cbn in *. subst u2.
  apply onchain_output in Hstep as [(<- & -> & Hb)|Hu]; [|by destruct u1|done].
  destruct (IH eq_refl) as [Hf ->]. rewrite Forall_app, Forall_singleton, map_app, sum_list_Z_app.
  split; [done|]. cbn. lia.
Qed.

Lemma sum_inputs_exact (msg : string) values s acc : Forall (fun x => 0 <= x) values ->
  foldM (fun s val => ok_or (checked_add64 s val) (policy_error_value msg)) acc values = Ok s ->
  s = acc + sum_list_Z values.
Proof.
  intros Hv. revert acc. induction Hv as [|v values Hv Hvs IH]; intros acc H; cbn [foldM] in H.
  - injection H as <-. cbn. lia.
  - inv_ok H. apply IH in H as ->. cbn. unfold sum_list_Z. lia.
Qed.

Lemma beneficial_value sum_in sum_out weight nb :
  0 <= sum_in -> 0 <= sum_out ->
  validate_beneficial_value self sum_in sum_out weight = Ok nb ->
  nb = sum_in - sum_out /\ 0 <= nb
  /\ (dev_flags self = None -> sum_in * 1000 + 999 < 2 ^ 64 ->
      sum_in * 1000 + 999 < weight * 2 ^ 32 -> (nb * 1000 + 999) / weight <= max_feerate_per_kw self).
Proof.
  intros Hin Hout H. unfold validate_beneficial_value in H. inv_ok H.
  split; [done|]. split; [lia|]. intros Hdev H64 H32.
  match goal with H : estimate_feerate_per_kw _ _ = Ok _ |- _ =>
    rewrite feerate_exact in H by lia; injection H as <- end.
  unfold as_u, self_policy_err in *. rewrite Hdev in *.
  cbn [default disable_beneficial_balance_checks DEFAULT_DEV_FLAGS] in *. rewrite Z.mod_small in *.
  - strict_ok Hs. by b2p.
  - split; [apply Z.div_pos; lia|]. apply Z.div_lt_upper_bound; lia.
Qed.

Lemma imap_out_values outs :
  map (fun io : nat * TxOut => out_value io.2) (imap pair outs) = map out_value outs.
Proof.
  change (map ?f ?l) with (f <$> l). apply list_eq. intros i.
  rewrite !list_lookup_fmap, list_lookup_imap. by destruct (outs !! i).
Qed.


(** *** Decoding *)

Lemma handle_outputs_account (Hpay : p2wpkh_has_payload) keys setup (ws : list bytes) ios n v ci ci' :
  Z.of_nat (n + length ios) < 2 ^ 16 -> decoded n v ci ->
  foldM (fun info (io : nat * TxOut) =>
    w ← unwrap (ws !! io.1);
    map_err (fun ve => prepend_msg ve "decode_commitment_tx: tx output[{}]: ")
      (handle_output info keys setup io.2 w)) ci ios = Ok ci' ->
  decoded (n + length ios) (v + sum_list_Z (map (fun io => out_value io.2) ios)) ci'.
Proof.
  revert n v ci. induction ios as [|io ios IH]; intros n v ci Hlen Hd H; cbn [foldM length] in *.
  - injection H as <-. rewrite Nat.add_0_r. cbn. by rewrite Z.add_0_r.
  - inv_ok H. apply (output_accounts Hpay n v) in Hx; [|lia|done].
    apply (IH (S n) (v + out_value io.2)) in H; [|lia|done]. cbn [map]. rewrite Nat.add_succ_r. cbn [sum_list_Z foldr].
    fold (sum_list_Z (map (fun io => out_value io.2) ios)). rewrite Z.add_assoc. exact H.
Qed.

(** C37: decoding a commitment transaction loses nothing.  When a transaction
    with fewer than 2^16 outputs is decoded, the values of the recognized
    outputs (to the parties, offered and received HTLCs, and anchors) add up
    to the sum of all its outputs, so that no output was skipped or counted
    twice. *)
Theorem decode_accounts_for_all keys setup is_counterparty tx witscripts info
  (Hpay : p2wpkh_has_payload) (Hlen : Z.of_nat (length (output tx)) < 2 ^ 16)
  (Hok : decode_commitment_tx self keys setup is_counterparty tx witscripts = Ok info) :
  accounted info = sum_list_Z (map out_value (output tx)).
Proof.
  unfold decode_commitment_tx in Hok. inv_ok Hok.
  apply (handle_outputs_account Hpay _ _ _ _ 0 0) in Hok;
    [|by rewrite length_imap|apply decoded_new].
  rewrite imap_out_values in Hok. by destruct Hok.
Qed.

(** *** Payments *)

Lemma payment_balance_exact inc out inv :
  0 <= inc -> 0 <= max_routing_fee_msat self -> 0 <= default 0 inv ->
  inc + default 0 inv + max_routing_fee_msat self < 2 ^ 64 ->
  let limit := inc + match inv with Some a => a + max_routing_fee_msat self | None => 0 end in
  (out <= limit -> validate_payment_balance self inc out inv = Ok tt)
  /\ (limit < out -> exists e, validate_payment_balance self inc out inv = Err e).
Proof.
  intros Hi Hf Hv Hb. unfold validate_payment_balance.
  destruct inv as [a|]; cbn in Hv, Hb; [rewrite (add64_in a) by lia|];
    rewrite Ok_bind, add64_in, Ok_bind by lia; (split; intros H;
      [rewrite (proj2 (Z.ltb_ge _ _)) by lia; done|rewrite (proj2 (Z.ltb_lt _ _)) by lia]);
    unfold whenb, self_policy_err, policy_err;
    destruct (Hs "policy-routing-balanced" ("validate_payment_balance" +:+ ": " +:+
      "incoming_msat + max_to_invoice_msat < outgoing_msat: {} + {} < {}")) as (e & He & _);
    by exists e.
Qed.
End claims.

(** ** Witnesses *)

Definition example_policy : SimplePolicy := make_simple_policy Testnet.

Lemma example_in_range :
  @in_range example_lib example_policy example_setup
    {| current_height := 100; funding_depth := 6; funding_double_spent_depth := 0;
       closing_depth := 0 |} example_info.
Proof.
  split; try (by vm_compute). repeat split; repeat constructor; by vm_compute.
Qed.

Lemma commitment_accepted_iff_witness :
  @acceptable example_lib example_policy example_setup
    {| current_height := 100; funding_depth := 6; funding_double_spent_depth := 0;
       closing_depth := 0 |} 5 example_info.
Proof.
  apply (@commitment_accepted_iff example_lib false example_policy _
    (EnforcementState_new 0) 5 [2] _ _ _ example_in_range). by vm_compute.
Defined.

Definition example_close_wallet : Wallet := {|
  can_spend _ _ := Ok true; allowlist_contains_payee _ := false;
  allowlist_contains _ _ := Ok false; wallet_network := Testnet |}.

Definition example_sweep : Transaction := {|
  version := 2; lock_time := 101;
  input := [{| previous_output := {| op_txid := [1]; vout := 0 |}; script_sig := [];
               sequence := 144; witness := [] |}];
  output := [{| out_value := 5000; script_pubkey := [0; 20; 4] |}] |}.

Lemma sweeps_pay_to_us_witness :
  Forall (fun o => ours example_close_wallet [3] (script_pubkey o)) (output example_sweep).
Proof.
  apply (@sweeps_pay_to_us example_lib false example_policy _ example_close_wallet example_setup
    {| current_height := 100; funding_depth := 6; funding_double_spent_depth := 0;
       closing_depth := 0 |} example_sweep [] 0 5000 [3]); [by vm_compute|]. left. by vm_compute.
Defined.

Definition example_balanced_state : EnforcementState :=
  set_counterparty
    (set_holder (EnforcementState_new 999000) 2
       (Some (CommitmentInfo2_new false [2] 100000 [2] [2] 899000 144 [] [] 1000))
       (Some ([], []))) 2 1 None None
    (Some (CommitmentInfo2_new true [2] 899000 [2] [2] 100000 144 [] [] 1000)) None.

Definition example_close_tx : Transaction :=
  @closing_built_transaction example_lib
    (new_closing_tx example_setup 899000 100000 (Some [0; 20; 1]) (Some [0; 20; 2])).

Lemma mutual_close_pays_holder_witness :
  exists ct, @decode_and_validate_mutual_close_tx example_lib false example_policy
    example_close_wallet example_setup example_balanced_state example_close_tx [[]; [3]] = Ok ct
    /\ @closing_built_transaction example_lib ct = example_close_tx.
Proof.
  eexists. split; [vm_compute; reflexivity|].
  refine (proj1 (@mutual_close_pays_holder example_lib false example_policy _
    example_close_wallet example_setup example_balanced_state example_close_tx [[]; [3]] _ _ _)).
  - repeat constructor; by vm_compute.
  - vm_compute. reflexivity.
Defined.


Definition example_decode_tx : Transaction := {|
  version := 2; lock_time := 0; input := [];
  output := [{| out_value := 7000; script_pubkey := [0; 20; 9] |}] |}.

Lemma decode_accounts_for_all_witness :
  exists info, @decode_commitment_tx example_lib false example_policy 1 example_setup true
    example_decode_tx [[]] = Ok info /\ accounted info = 7000.
Proof.
  eexists. split; [vm_compute; reflexivity|].
  refine (@decode_accounts_for_all example_lib false example_policy 1 example_setup true
    example_decode_tx [[]] _ _ _ _).
  - intros s Hs. by eexists.
  - by vm_compute.
  - vm_compute. reflexivity.
Defined.


End Simple.
