(* ===== verification/OnchainValidator.v ===== *)
(** * The on-chain validator (vls-core/src/policy/onchain_validator.rs)

    A wrapper that adds the checks on the funding transaction's depth and
    passes everything else to an inner validator. *)

From S2P Require Import Prelude Velocity Policy Extern Setup Tx Script Secrets.
From S2P Require Import Enforcement Validator SimpleValidator.

Module Onchain.

Record OnchainPolicy := { op_filter : PolicyFilter; min_funding_depth : Z }.

Definition onchain_policy (p : OnchainPolicy) : Policy := {|
  policy_error tag msg := policy_error_with_filter tag msg (op_filter p);
  temporary_policy_error tag msg := temporary_policy_error_with_filter tag msg (op_filter p);
  global_velocity_control := UNLIMITED;
  max_channels := MAX_CHANNELS;
  max_invoices := MAX_INVOICES;
  fee_velocity_control := DEFAULT_FEE_VELOCITY_CONTROL
|}.

Definition make_onchain_policy (network : Network) (filter : PolicyFilter) : OnchainPolicy :=
  {| op_filter := filter; min_funding_depth := 1 |}.

Section onchain.
Context `{L : Lib, Prof : Profile}.

Record OnchainValidator := { inner : Validator; oc_policy : OnchainPolicy }.

Implicit Types (self : OnchainValidator).

Definition ensure_funding_buried_and_unspent self (commit_num : Z) (cstate : ChainState)
  : result unit :=
  let tag := "policy-commitment-spends-active-utxo" in
  let func := "ensure_funding_buried_and_unspent" in
  if 0 <? commit_num then
    whenb (funding_depth cstate <? min_funding_depth (oc_policy self))
      (temporary_policy_err (onchain_policy (oc_policy self)) tag func
         "tried commitment {} when funding is not buried at depth {}, our height {}");;
    whenb (0 <? closing_depth cstate)
      (policy_err (onchain_policy (oc_policy self)) tag func
         "tried commitment {} after closed on-chain at depth {}")
  else Ok tt.

Definition validate_counterparty_commitment_tx self (estate : EnforcementState)
  (commit_num : Z) (commitment_point : PublicKey) (setup : ChannelSetup) (cstate : ChainState)
  (info2 : CommitmentInfo2) : result unit :=
  ensure_funding_buried_and_unspent self commit_num cstate;;
  Validator.validate_counterparty_commitment_tx (inner self) estate commit_num
    commitment_point setup cstate info2.

Definition validate_holder_commitment_tx self (estate : EnforcementState)
  (commit_num : Z) (commitment_point : PublicKey) (setup : ChannelSetup) (cstate : ChainState)
  (info2 : CommitmentInfo2) : result unit :=
  (if next_holder_commit_num estate <=? commit_num
   then ensure_funding_buried_and_unspent self commit_num cstate else Ok tt);;
  Validator.validate_holder_commitment_tx (inner self) estate commit_num
    commitment_point setup cstate info2.

(** Everything else is passed on, except [enforce_balance], which keeps the
    default of the trait. *)
Definition validator self : Validator := {|
  Validator.validate_ready_channel := Validator.validate_ready_channel (inner self);
  Validator.validate_channel_value := Validator.validate_channel_value (inner self);
  Validator.validate_onchain_tx := Validator.validate_onchain_tx (inner self);
  Validator.decode_commitment_tx := Validator.decode_commitment_tx (inner self);
  Validator.validate_counterparty_commitment_tx := validate_counterparty_commitment_tx self;
  Validator.validate_holder_commitment_tx := validate_holder_commitment_tx self;
  Validator.validate_counterparty_revocation :=
    Validator.validate_counterparty_revocation (inner self);
  Validator.decode_and_validate_htlc_tx := Validator.decode_and_validate_htlc_tx (inner self);
  Validator.validate_htlc_tx := Validator.validate_htlc_tx (inner self);
  Validator.decode_and_validate_mutual_close_tx :=
    Validator.decode_and_validate_mutual_close_tx (inner self);
  Validator.validate_mutual_close_tx := Validator.validate_mutual_close_tx (inner self);
  Validator.validate_delayed_sweep := Validator.validate_delayed_sweep (inner self);
  Validator.validate_counterparty_htlc_sweep :=
    Validator.validate_counterparty_htlc_sweep (inner self);
  Validator.validate_justice_sweep := Validator.validate_justice_sweep (inner self);
  Validator.validate_payment_balance := Validator.validate_payment_balance (inner self);
  Validator.enforce_balance := false;
  Validator.minimum_initial_balance := Validator.minimum_initial_balance (inner self);
  Validator.policy := onchain_policy (oc_policy self)
|}.

(** [OnchainValidatorFactory] over a [SimpleValidatorFactory]. *)
Definition make_validator (policy : option SimplePolicy) (network : Network) : Validator :=
  let filter := default default_filter (sp_filter <$> policy) in
  validator {| inner := Simple.make_validator policy network;
               oc_policy := make_onchain_policy network filter |}.
End onchain.

(** ** Lemmas *)

Section lemmas.
Context `{L : Lib, Prof : Profile} (self : OnchainValidator).
Context `{Hs : !Strict (onchain_policy (oc_policy self))}.

Lemma ensure_iff n cstate :
  ensure_funding_buried_and_unspent self n cstate = Ok tt <->
  (0 < n -> min_funding_depth (oc_policy self) <= funding_depth cstate
            /\ closing_depth cstate <= 0).
Proof.
  unfold ensure_funding_buried_and_unspent. destruct (0 <? n) eqn:Hn; b2p; [|split; [lia|done]].
  split.
  - intros H _. inv_ok H. strict_ok Hs. b2p. done.
  - intros Hd. destruct (Hd Hn). rewrite !(proj2 (Z.ltb_ge _ _)) by lia. done.
Qed.

Lemma holder_forwards es n point setup cstate info :
  validate_holder_commitment_tx self es n point setup cstate info = Ok tt ->
  Validator.validate_holder_commitment_tx (inner self) es n point setup cstate info = Ok tt.
Proof. intros H. unfold validate_holder_commitment_tx in H. by inv_ok H. Qed.

Lemma counterparty_forwards es n point setup cstate info :
  validate_counterparty_commitment_tx self es n point setup cstate info = Ok tt ->
  Validator.validate_counterparty_commitment_tx (inner self) es n point setup cstate info
  = Ok tt.
Proof. intros H. unfold validate_counterparty_commitment_tx in H. by inv_ok H. Qed.

#[export] Instance onchain_safe `{!SafeValidator (inner self)} : SafeValidator (validator self).
Proof.
  split; [exact Hs|..]; cbn.
  - intros * Hn H. apply (sv_holder (v := inner self) _ _ point setup cstate); [done|].
    by apply holder_forwards.
  - intros * Hn Hr H. apply (sv_counterparty (v := inner self) _ _ _ setup cstate); [done..|].
    by apply counterparty_forwards.
  - intros * Hn H. by apply (sv_revocation (v := inner self)).
Qed.

(** The on-chain validator adds to the inner one exactly the conditions on
    the funding transaction.  A counterparty commitment is accepted if and
    only if the inner validator accepts it and, unless it is the initial
    one, the funding is buried at the minimum depth and no closing
    transaction is on chain; for a holder commitment the same conditions are
    only asked of a new commitment, not of a retry. *)
Theorem onchain_adds_funding_conditions es n point setup cstate info :
  let buried := 0 < n -> min_funding_depth (oc_policy self) <= funding_depth cstate
                         /\ closing_depth cstate <= 0 in
  (Validator.validate_counterparty_commitment_tx (validator self) es n point setup cstate info
     = Ok tt <->
   buried /\ Validator.validate_counterparty_commitment_tx (inner self) es n point setup cstate
               info = Ok tt)
  /\ (Validator.validate_holder_commitment_tx (validator self) es n point setup cstate info
      = Ok tt <->
      (next_holder_commit_num es <= n -> buried)
      /\ Validator.validate_holder_commitment_tx (inner self) es n point setup cstate info
         = Ok tt).
Proof.
  cbv zeta. cbn [Validator.validate_counterparty_commitment_tx
    Validator.validate_holder_commitment_tx validator].
  unfold validate_counterparty_commitment_tx, validate_holder_commitment_tx. split.
  - rewrite <- ensure_iff, bind_Ok. split; [intros ([] & ? & ?); auto|intros []; by exists tt].
  - rewrite <- ensure_iff, bind_Ok. destruct (_ <=? n) eqn:Hle; b2p.
    + split; [intros ([] & ? & ?); auto|intros [? ?]; exists tt; auto].
    + split; [intros ([] & ? & ?); split; [lia|done]|intros [? ?]; by exists tt].
Qed.
End lemmas.

#[export] Instance onchain_policy_strict (network : Network) :
  Strict (onchain_policy (make_onchain_policy network default_filter)).
Proof.
  intros tag msg. cbn. unfold policy_error_with_filter, temporary_policy_error_with_filter.
  rewrite !decide_True by done. eauto 6.
Qed.

(** The validators that the factory makes by default keep the promises. *)
#[export] Instance make_validator_safe `{Lib, Profile} (network : Network) :
  SafeValidator (make_validator None network).
Proof.
  apply (@onchain_safe _ {| inner := _; oc_policy := _ |}); [apply onchain_policy_strict|].
  apply Simple.simple_safe, make_simple_policy_strict.
Qed.

(** ** Witness *)

Definition example_onchain : @OnchainValidator example_lib :=
  @Build_OnchainValidator example_lib (@Simple.make_validator example_lib false None Testnet)
    (make_onchain_policy Testnet default_filter).

(** A deep funding is accepted, a funding that is not buried is not. *)
Lemma onchain_adds_funding_conditions_witness :
  let cstate depth := {| current_height := 100; funding_depth := depth;
    funding_double_spent_depth := 0; closing_depth := 0 |} in
  let validate depth := Validator.validate_holder_commitment_tx
    (@validator example_lib example_onchain) example_state 1 [2] example_setup (cstate depth)
    example_info in
  validate 6 = Ok tt /\ validate 0 <> Ok tt.
Proof.
  intros cstate validate. split.
  - apply (@onchain_adds_funding_conditions example_lib example_onchain
      (onchain_policy_strict Testnet) example_state 1 [2] example_setup (cstate 6) example_info).
    split; [intros _ _; by vm_compute|]. by vm_compute.
  - intros H. apply (@onchain_adds_funding_conditions example_lib example_onchain
      (onchain_policy_strict Testnet) example_state 1 [2] example_setup (cstate 0) example_info)
      in H as [H _]. destruct H as [H _]; [by vm_compute|done|]. by vm_compute in H.
Defined.

End Onchain.
