(* ===== verification/NodeState.v ===== *)
(** * Payments of a node ([NodeState] of vls-core/src/node.rs)

    The invoices and keysends the node approved, the invoices it issued, and
    for every payment hash the amounts in flight on each channel.  A new
    commitment is validated against, and then applied to, this state. *)

From S2P Require Import Prelude Velocity Policy Extern Setup Tx Script Secrets.
From S2P Require Import Enforcement Validator SimpleValidator OnchainValidator.

(** ** Data *)

Inductive PaymentType := Invoice | Keysend.

Record PaymentState := {
  invoice_hash : bytes;
  invoice_amount_msat : Z;
  payee : PublicKey;
  ps_duration_since_epoch : Z;
  ps_expiry_duration : Z;
  ps_is_fulfilled : bool;
  payment_type : PaymentType
}.

Record RoutedPayment := {
  incoming : gmap ChannelId Z;
  outgoing : gmap ChannelId Z;
  preimage : option PaymentPreimage
}.

Record NodeState := {
  invoices : gmap PaymentHash PaymentState;
  issued_invoices : gmap PaymentHash PaymentState;
  payments : gmap PaymentHash RoutedPayment;
  excess_amount : Z;
  velocity_control : VelocityControl;
  ns_fee_velocity_control : VelocityControl
}.

Definition NodeState_new (vc fvc : VelocityControl) : NodeState := {|
  invoices := ∅; issued_invoices := ∅; payments := ∅; excess_amount := 0;
  velocity_control := vc; ns_fee_velocity_control := fvc |}.

Definition set_payments (self : NodeState) (payments : gmap PaymentHash RoutedPayment)
  (excess_amount : Z) : NodeState := {|
  invoices := invoices self; issued_invoices := issued_invoices self; payments := payments;
  excess_amount := excess_amount; velocity_control := velocity_control self;
  ns_fee_velocity_control := ns_fee_velocity_control self |}.

Definition has_preimage (self : NodeState) : PreimageMap := fun hash =>
  match payments self !! hash with
  | Some p => bool_decide (is_Some (preimage p))
  | None => false
  end.

(** ** [RoutedPayment] *)

Definition RoutedPayment_new : RoutedPayment :=
  {| incoming := ∅; outgoing := ∅; preimage := None |}.

Definition is_fulfilled (self : RoutedPayment) : bool := bool_decide (is_Some (preimage self)).

Definition map_values (m : gmap ChannelId Z) : list Z := (map_to_list m).*2.

Section routed.
Context `{Prof : Profile} {E : Type}.

Definition is_no_incoming (self : RoutedPayment) : outcome E bool :=
  s ← sum64 (map_values (incoming self)); Ok (s =? 0).

Definition is_no_outgoing (self : RoutedPayment) : outcome E bool :=
  s ← sum64 (map_values (outgoing self)); Ok (s =? 0).

Definition incoming_outgoing (self : RoutedPayment) : outcome E (Z * Z) :=
  i ← sum64 (map_values (incoming self));
  o ← sum64 (map_values (outgoing self));
  Ok (i, o).

Definition apply (self : RoutedPayment) (channel_id : ChannelId)
  (incoming_amount_sat outgoing_amount_sat : Z) : RoutedPayment := {|
    incoming := <[channel_id := incoming_amount_sat]> (incoming self);
    outgoing := <[channel_id := outgoing_amount_sat]> (outgoing self);
    preimage := preimage self
  |}.

Definition updated_incoming_outgoing (self : RoutedPayment) (channel_id : ChannelId)
  (incoming_amount_sat outgoing_amount_sat : Z) : outcome E (Z * Z) :=
  i ← sum64 (map_values (<[channel_id := incoming_amount_sat]> (incoming self)));
  o ← sum64 (map_values (<[channel_id := outgoing_amount_sat]> (outgoing self)));
  Ok (i, o).

Definition set_preimage (self : RoutedPayment) (p : PaymentPreimage) : RoutedPayment :=
  {| incoming := incoming self; outgoing := outgoing self; preimage := Some p |}.
End routed.

(** ** Validation and application of a commitment's payments *)

Section node_state.
Context `{L : Lib, Prof : Profile}.

(** The hashes of both summaries; the source iterates over them as a set. *)
Definition summary_hashes (inc out : gmap PaymentHash Z) : list PaymentHash :=
  elements (dom inc ∪ dom out : gset PaymentHash).

Definition summary_amount (m : gmap PaymentHash Z) (h : PaymentHash) : Z := default 0 (m !! h).

(** Whether the payment of [hash] would be unbalanced, and counts as such. *)
Definition payment_unbalanced (self : NodeState) (channel_id : ChannelId)
  (inc out : gmap PaymentHash Z) (v : Validator) (hash : PaymentHash) : result bool :=
  let incoming_for_chan_sat := summary_amount inc hash in
  let outgoing_for_chan_sat := summary_amount out hash in
  let payment := payments self !! hash in
  '(incoming_sat, outgoing_sat) ←
    match payment with
    | Some p => updated_incoming_outgoing p channel_id incoming_for_chan_sat
                  outgoing_for_chan_sat
    | None => Ok (incoming_for_chan_sat, outgoing_for_chan_sat)
    end;
  let invoiced_amount := invoice_amount_msat <$> invoices self !! hash in
  incoming_msat ← mul64 incoming_sat 1000;
  outgoing_msat ← mul64 outgoing_sat 1000;
  match validate_payment_balance v incoming_msat outgoing_msat invoiced_amount with
  | Ok _ => Ok false
  | Panic => Panic
  | Err _ =>
      Ok (negb (bool_decide (is_Some payment) && bool_decide (invoiced_amount = None)))
  end.

Definition validate_payments (self : NodeState) (channel_id : ChannelId)
  (inc out : gmap PaymentHash Z) (balance_delta : BalanceDelta) (v : Validator)
  : result unit :=
  unbalanced ← foldM (fun unbalanced hash =>
      bad ← payment_unbalanced self channel_id inc out v hash;
      Ok (if bad : bool then unbalanced ++ [hash] else unbalanced))
    [] (summary_hashes inc out);
  whenb (negb (bool_decide (unbalanced = [])))
    (policy_err (policy v) "policy-commitment-htlc-routing-balance" "validate_payments"
       "unbalanced payments on channel {}: {:?}");;
  if enforce_balance v then
    sum ← unwrap (checked_add64 (excess_amount self) balance_delta.2);
    ok_or (checked_sub64 sum balance_delta.1) (policy_error_value "shortfall {} + {} - {}");;
    Ok tt
  else Ok tt.

Section infallible.
Context {E : Type}.

(** The first loop of [apply_payments]: create the missing entries and collect
    the issued invoices that are now paid. *)
Definition preflight_step (self : NodeState) (channel_id : ChannelId)
  (inc out : gmap PaymentHash Z) (acc : gmap PaymentHash RoutedPayment * list PaymentHash)
  (hash : PaymentHash) : outcome E (gmap PaymentHash RoutedPayment * list PaymentHash) :=
  let '(pays, fulfilled) := acc in
  let payment := default RoutedPayment_new (pays !! hash) in
  let pays := <[hash := payment]> pays in
  match issued_invoices self !! hash with
  | Some issued =>
      if negb (is_fulfilled payment) then
        '(incoming_sat, outgoing_sat) ←
          updated_incoming_outgoing payment channel_id (summary_amount inc hash)
            (summary_amount out hash);
        needed ← add64 outgoing_sat (invoice_amount_msat issued / 1000);
        Ok (pays, if needed <=? incoming_sat then fulfilled ++ [hash] else fulfilled)
      else Ok (pays, fulfilled)
  | None => Ok (pays, fulfilled)
  end.

Definition apply_preflight (self : NodeState) (channel_id : ChannelId)
  (inc out : gmap PaymentHash Z)
  : outcome E (gmap PaymentHash RoutedPayment * list PaymentHash) :=
  foldM (preflight_step self channel_id inc out) (payments self, []) (summary_hashes inc out).

Definition apply_payments (self : NodeState) (channel_id : ChannelId)
  (inc out : gmap PaymentHash Z) (balance_delta : BalanceDelta) (v : Validator)
  : outcome E NodeState :=
  '(pays, fulfilled_issued_invoices) ← apply_preflight self channel_id inc out;
  '(pays, excess) ←
    (if enforce_balance v then
       sum ← unwrap (checked_add64 (excess_amount self) balance_delta.2);
       excess ← unwrap (checked_sub64 sum balance_delta.1);
       pays ← foldM (fun (pays : gmap PaymentHash RoutedPayment) hash =>
           payment ← unwrap (pays !! hash);
           Ok (<[hash := set_preimage payment (replicate 32 0)]> pays))
         pays fulfilled_issued_invoices;
       Ok (pays, excess)
     else Ok (pays, excess_amount self));
  pays ← foldM (fun (pays : gmap PaymentHash RoutedPayment) hash =>
      payment ← unwrap (pays !! hash);
      Ok (<[hash := apply payment channel_id (summary_amount inc hash)
                      (summary_amount out hash)]> pays))
    pays (summary_hashes inc out);
  Ok (set_payments self pays excess).

(** [htlc_fulfilled]: the new state and whether the payment was just fulfilled. *)
Definition htlc_fulfilled (self : NodeState) (pre : PaymentPreimage) (v : Validator)
  : outcome E (NodeState * bool) :=
  let hash := sha256 pre in
  match payments self !! hash with
  | Some payment =>
      if is_fulfilled payment then Ok (self, false)
      else
        '(inc, out) ← incoming_outgoing payment;
        excess ←
          (match invoices self !! hash with
           | Some _ => Ok (excess_amount self)
           | None =>
               if enforce_balance v then
                 e ← unwrap (checked_add64 (excess_amount self) inc);
                 unwrap (checked_sub64 e out)
               else Ok (excess_amount self)
           end);
        Ok (set_payments self (<[hash := set_preimage payment pre]> (payments self)) excess, true)
  | None => Ok (self, false)
  end.

(** [Node::htlcs_fulfilled]: one preimage after the other. *)
Definition htlcs_fulfilled (self : NodeState) (preimages : list PaymentPreimage) (v : Validator)
  : outcome E NodeState :=
  foldM (fun st pre => '(st, _) ← htlc_fulfilled st pre v; Ok st) self preimages.

(** *** Pruning *)

Definition INVOICE_PRUNE_TIME : Z := secs (60 * 60 * 24).
Definition KEYSEND_PRUNE_TIME : Z := secs 0.

Definition prune_time (timeless_workaround : bool) (pstate : PaymentState) : outcome E Z :=
  let prune := match payment_type pstate with
    | Invoice => INVOICE_PRUNE_TIME | Keysend => KEYSEND_PRUNE_TIME end in
  if timeless_workaround then dur_add prune (secs (2 * 60 * 60)) else Ok prune.

(** When an invoice may be forgotten. *)
Definition prune_deadline (tw : bool) (pstate : PaymentState) : outcome E Z :=
  a ← dur_add (ps_duration_since_epoch pstate) (ps_expiry_duration pstate);
  p ← prune_time tw pstate;
  dur_add a p.

Definition prune_issued_invoices (tw : bool) (self : NodeState) (now : Z)
  : outcome E (NodeState * bool) :=
  issued ← foldM (fun (m : gmap PaymentHash PaymentState) kv =>
      deadline ← prune_deadline tw kv.2;
      Ok (if now <? deadline then m else delete kv.1 m))
    (issued_invoices self) (map_to_list (issued_invoices self));
  Ok ({| invoices := invoices self; issued_invoices := issued; payments := payments self;
         excess_amount := excess_amount self; velocity_control := velocity_control self;
         ns_fee_velocity_control := ns_fee_velocity_control self |},
      negb (size issued =? size (issued_invoices self))%nat).

Definition is_invoice_prunable (tw : bool) (now : Z) (state : PaymentState)
  (payment : RoutedPayment) : outcome E bool :=
  complete ← (if is_fulfilled payment then Ok true else is_no_outgoing payment);
  deadline ← prune_deadline tw state;
  Ok ((deadline <? now) && (complete : bool)).

Definition is_forwarded_payment_prunable (self : NodeState) (hash : PaymentHash)
  (payment : RoutedPayment) : outcome E bool :=
  if bool_decide (invoices self !! hash = None) && bool_decide (issued_invoices self !! hash = None)
  then
    no_in ← is_no_incoming payment;
    if no_in : bool then is_no_outgoing payment else Ok false
  else Ok false.

(** The hashes of the invoices to prune; an invoice without payment panics. *)
Definition prunable_invoices (tw : bool) (self : NodeState) (now : Z)
  : outcome E (list PaymentHash) :=
  foldM (fun acc (kv : PaymentHash * PaymentState) =>
      payment ← unwrap (payments self !! kv.1);
      prunable ← is_invoice_prunable tw now kv.2 payment;
      Ok (if prunable : bool then acc ++ [kv.1] else acc))
    [] (map_to_list (invoices self)).

Definition prune_invoices (tw : bool) (self : NodeState) (now : Z)
  : outcome E (NodeState * bool) :=
  prune ← prunable_invoices tw self now;
  let invs := base.filter (fun kv => kv.1 ∉ prune) (invoices self) in
  let pays := base.filter (fun kv => kv.1 ∉ prune) (payments self) in
  Ok ({| invoices := invs; issued_invoices := issued_invoices self; payments := pays;
         excess_amount := excess_amount self; velocity_control := velocity_control self;
         ns_fee_velocity_control := ns_fee_velocity_control self |},
      negb (bool_decide (prune = []))).

Definition prune_forwarded_payments (self : NodeState) : outcome E (NodeState * bool) :=
  pays ← foldM (fun (m : gmap PaymentHash RoutedPayment) kv =>
      prunable ← is_forwarded_payment_prunable self kv.1 kv.2;
      Ok (if prunable : bool then delete kv.1 m else m))
    (payments self) (map_to_list (payments self));
  Ok (set_payments self pays (excess_amount self), negb (size pays =? size (payments self))%nat).
End infallible.
End node_state.

(** ** Lemmas *)

Section lemmas.
Context `{L : Lib, Prof : Profile}.

(** A loop that collects the elements for which a check says so. *)
Lemma collect_loop {E A} (f : A -> outcome E bool) (l acc res : list A) :
  foldM (fun acc x => bad ← f x; Ok (if bad : bool then acc ++ [x] else acc)) acc l = Ok res ->
  exists l', res = acc ++ l' /\ Forall (fun x => exists b, f x = Ok b) l
    /\ forall x, x ∈ l' <-> x ∈ l /\ f x = Ok true.
Proof.
  revert acc. induction l as [|x l IH]; intros acc H; cbn [foldM] in H.
  - injection H as <-. exists []. rewrite app_nil_r. split; [done|]. split; [constructor|].
    intros y. split; [by intros ?%elem_of_nil|]. by intros [?%elem_of_nil _].
  - apply bind_Ok in H as (a & (b & Hb & [= <-])%bind_Ok & H).
    apply IH in H as (l' & -> & Hf & Hin). exists (if b then x :: l' else l').
    split; [destruct b; [by rewrite <- app_assoc|done]|].
    split; [constructor; [by exists b|done]|]. intros y.
    destruct b; rewrite !elem_of_cons, Hin; naive_solver congruence.
Qed.

(** The in-flight totals of a payment once this channel's amounts are replaced. *)
Definition new_incoming (ns : NodeState) (id : ChannelId) (inc : gmap PaymentHash Z)
  (hash : PaymentHash) : Z :=
  sum_list_Z (map_values
    (<[id := summary_amount inc hash]> (default ∅ (incoming <$> payments ns !! hash)))).

Definition new_outgoing (ns : NodeState) (id : ChannelId) (out : gmap PaymentHash Z)
  (hash : PaymentHash) : Z :=
  sum_list_Z (map_values
    (<[id := summary_amount out hash]> (default ∅ (outgoing <$> payments ns !! hash)))).

(** Amounts are nonnegative, and so are their totals far from the bound. *)
Definition amounts_ok (ns : NodeState) (id : ChannelId) (inc out : gmap PaymentHash Z) : Prop :=
  forall hash, hash ∈ summary_hashes inc out ->
    Forall (fun x => 0 <= x) (map_values
      (<[id := summary_amount inc hash]> (default ∅ (incoming <$> payments ns !! hash))))
    /\ Forall (fun x => 0 <= x) (map_values
      (<[id := summary_amount out hash]> (default ∅ (outgoing <$> payments ns !! hash))))
    /\ new_incoming ns id inc hash < 2 ^ 53 /\ new_outgoing ns id out hash < 2 ^ 53.

Lemma map_values_singleton (id : ChannelId) (x : Z) : map_values (<[id := x]> ∅) = [x].
Proof. unfold map_values. rewrite insert_empty, map_to_list_singleton. done. Qed.

Lemma updated_exact {E : Type} ns id inc out hash p :
  payments ns !! hash = Some p -> amounts_ok ns id inc out -> hash ∈ summary_hashes inc out ->
  updated_incoming_outgoing (E := E) p id (summary_amount inc hash) (summary_amount out hash)
  = Ok (new_incoming ns id inc hash, new_outgoing ns id out hash).
Proof.
  intros Hp Hok Hin. destruct (Hok _ Hin) as (Hi & Ho & Hib & Hob).
  unfold updated_incoming_outgoing, new_incoming, new_outgoing in *. rewrite Hp in *. cbn in *.
  rewrite !sum64_in by (done || lia). done.
Qed.

Lemma totals_exact ns id inc out hash :
  amounts_ok ns id inc out -> hash ∈ summary_hashes inc out ->
  match payments ns !! hash with
  | Some p => updated_incoming_outgoing (E := ValidationError) p id (summary_amount inc hash)
                (summary_amount out hash)
  | None => Ok (summary_amount inc hash, summary_amount out hash)
  end = Ok (new_incoming ns id inc hash, new_outgoing ns id out hash).
Proof.
  intros Hok Hin. destruct (payments ns !! hash) as [p|] eqn:Hp; [by apply updated_exact|].
  unfold new_incoming, new_outgoing. rewrite Hp. cbn [fmap option_fmap option_map default].
  rewrite !map_values_singleton. cbn. by rewrite !Z.add_0_r.
Qed.

(** A loop that updates an existing entry for each element of a list. *)
Lemma update_loop {E : Type} (g : PaymentHash -> RoutedPayment -> RoutedPayment)
  (l : list PaymentHash) (pays : gmap PaymentHash RoutedPayment) :
  (forall h p, g h (g h p) = g h p) -> (forall h, h ∈ l -> is_Some (pays !! h)) ->
  exists pays', foldM (E := E) (fun pays hash =>
      payment ← unwrap (pays !! hash); Ok (<[hash := g hash payment]> pays)) pays l = Ok pays'
    /\ forall h, pays' !! h = if decide (h ∈ l) then g h <$> pays !! h else pays !! h.
Proof.
  intros Hg. revert pays. induction l as [|x l IH]; intros pays Hin; cbn [foldM].
  - exists pays. split; [done|]. intros h. by rewrite decide_False by apply not_elem_of_nil.
  - destruct (Hin x) as [p Hp]; [apply list_elem_of_here|]. rewrite Hp. cbn [unwrap].
    rewrite !Ok_bind. destruct (IH (<[x := g x p]> pays)) as (pays' & Hf & Hl).
    { intros h Hh. rewrite lookup_insert_is_Some'. right. apply Hin. by apply list_elem_of_further. }
    exists pays'. split; [done|]. intros h. rewrite Hl. destruct (decide (h = x)) as [->|Hne].
    + rewrite lookup_insert_eq, (decide_True (P := x ∈ x :: l)) by apply list_elem_of_here.
      rewrite Hp. case_decide; cbn; [by rewrite Hg|done].
    + rewrite lookup_insert_ne by done. by rewrite (decide_ext (h ∈ l) (h ∈ x :: l)) by (rewrite elem_of_cons; naive_solver).
Qed.

(** The entry a commitment's payments are applied to. *)
Definition entry (ns : NodeState) (hash : PaymentHash) : RoutedPayment :=
  default RoutedPayment_new (payments ns !! hash).

Lemma entry_updated {E : Type} ns id inc out hash :
  amounts_ok ns id inc out -> hash ∈ summary_hashes inc out ->
  updated_incoming_outgoing (E := E) (entry ns hash) id (summary_amount inc hash)
    (summary_amount out hash)
  = Ok (new_incoming ns id inc hash, new_outgoing ns id out hash).
Proof.
  intros Hok Hin. unfold entry. destruct (payments ns !! hash) as [p|] eqn:Hp.
  { by apply updated_exact. }
  destruct (Hok _ Hin) as (Hi & Ho & Hib & Hob).
  unfold updated_incoming_outgoing, new_incoming, new_outgoing in *. rewrite Hp in *.
  cbn [incoming outgoing RoutedPayment_new default fmap option_fmap option_map] in *.
  rewrite !sum64_in by (done || lia). done.
Qed.

(** Invoices that were issued are for amounts far from the bound. *)
Definition issued_ok (ns : NodeState) : Prop :=
  forall hash i, issued_invoices ns !! hash = Some i -> 0 <= invoice_amount_msat i < 2 ^ 64.

(** The invoice issued for [hash] is paid by this commitment, and was not
    fulfilled before. *)
Definition newly_paid (ns : NodeState) (id : ChannelId) (inc out : gmap PaymentHash Z)
  (hash : PaymentHash) : bool :=
  match issued_invoices ns !! hash with
  | Some i => negb (is_fulfilled (entry ns hash))
      && (new_outgoing ns id out hash + invoice_amount_msat i / 1000 <=? new_incoming ns id inc hash)
  | None => false
  end.

Lemma preflight_step_exact {E : Type} ns id inc out pays ful x :
  amounts_ok ns id inc out -> issued_ok ns -> x ∈ summary_hashes inc out ->
  default RoutedPayment_new (pays !! x) = entry ns x ->
  preflight_step (E := E) ns id inc out (pays, ful) x
  = Ok (<[x := entry ns x]> pays, if newly_paid ns id inc out x then ful ++ [x] else ful).
Proof.
  intros Hok Hiss Hx Hent. unfold preflight_step, newly_paid. rewrite Hent.
  destruct (issued_invoices ns !! x) as [i|] eqn:Hi; [|done].
  destruct (negb (is_fulfilled (entry ns x))); [|done].
  destruct (Hok _ Hx) as (Hn1 & Hn2 & Hb1 & Hb2). specialize (Hiss _ _ Hi).
  assert (0 <= new_outgoing ns id out x) by (by apply sum_list_Z_nonneg).
  assert (0 <= invoice_amount_msat i / 1000 < 2 ^ 63)
    by (split; [apply Z.div_pos; lia|apply Z.div_lt_upper_bound; lia]).
  by rewrite entry_updated, Ok_bind, add64_in, Ok_bind by (done || lia).
Qed.

Lemma preflight_loop {E : Type} ns id inc out : amounts_ok ns id inc out -> issued_ok ns ->
  exists pays fulfilled, apply_preflight (E := E) ns id inc out = Ok (pays, fulfilled)
    /\ (forall h, pays !! h = if decide (h ∈ summary_hashes inc out) then Some (entry ns h)
                              else payments ns !! h)
    /\ (forall h, h ∈ fulfilled <-> h ∈ summary_hashes inc out /\ newly_paid ns id inc out h = true).
Proof.
  intros Hok Hiss. unfold apply_preflight.
  enough (Hgen : forall l pays ful, l ⊆ summary_hashes inc out ->
    (forall h, default RoutedPayment_new (pays !! h) = entry ns h) ->
    exists pays' ful', foldM (preflight_step (E := E) ns id inc out) (pays, ful) l
        = Ok (pays', ful')
      /\ (forall h, pays' !! h = if decide (h ∈ l) then Some (entry ns h) else pays !! h)
      /\ (forall h, h ∈ ful' <-> h ∈ ful \/ h ∈ l /\ newly_paid ns id inc out h = true)).
  { destruct (Hgen (summary_hashes inc out) (payments ns) []) as (pays & ful & ? & ? & Hf);
      [done|done|]. exists pays, ful. split; [done|]. split; [done|]. intros h. rewrite Hf, elem_of_nil.
    tauto. }
  induction l as [|x l IH]; intros pays ful Hl Hent; cbn [foldM].
  { exists pays, ful. split; [done|]. split; intros h; [|rewrite elem_of_nil; tauto].
    by rewrite decide_False by apply not_elem_of_nil. }
  rewrite (preflight_step_exact (E := E)), Ok_bind by (done || apply Hl, list_elem_of_here || done).
  edestruct (IH (<[x := entry ns x]> pays)) as (pays' & ful' & Hf & Hp & Hful').
  - intros y Hy. apply Hl. by apply list_elem_of_further.
  - intros h. destruct (decide (h = x)) as [->|]; [by rewrite lookup_insert_eq|].
    by rewrite lookup_insert_ne.
  - exists pays', ful'. split; [exact Hf|]. split; intros h.
    + rewrite Hp. destruct (decide (h = x)) as [->|Hne].
      * rewrite lookup_insert_eq, (decide_True (P := x ∈ x :: l)) by apply list_elem_of_here.
        by case_decide.
      * rewrite lookup_insert_ne by done.
        by rewrite (decide_ext (h ∈ l) (h ∈ x :: l)) by (rewrite elem_of_cons; naive_solver).
    + rewrite Hful', elem_of_cons. destruct (newly_paid ns id inc out x) eqn:Hx;
        rewrite ?elem_of_app, ?list_elem_of_singleton; naive_solver congruence.
Qed.
End lemmas.

(** ** Properties *)

Section claims.
Context `{L : Lib, Prof : Profile} (self : SimplePolicy) `{Hs : !Strict (simple_policy self)}.

(** The invoices of the node, and the routing fee the policy allows, are far
    from the bound. *)
Definition invoices_ok (ns : NodeState) : Prop :=
  0 <= max_routing_fee_msat self < 2 ^ 61
  /\ forall hash i, invoices ns !! hash = Some i -> 0 <= invoice_amount_msat i < 2 ^ 62.

(** What may be sent for a payment without being received. *)
Definition allowance (ns : NodeState) (hash : PaymentHash) : Z :=
  match invoices ns !! hash with
  | Some i => invoice_amount_msat i + max_routing_fee_msat self
  | None => 0
  end.

Definition balanced (ns : NodeState) (id : ChannelId) (inc out : gmap PaymentHash Z)
  (hash : PaymentHash) : Prop :=
  new_outgoing ns id out hash * 1000
  <= new_incoming ns id inc hash * 1000 + allowance ns hash.

Lemma payment_unbalanced_exact ns id inc out hash :
  amounts_ok ns id inc out -> invoices_ok ns -> hash ∈ summary_hashes inc out ->
  exists b, payment_unbalanced ns id inc out (Simple.validator self) hash = Ok b
    /\ (b = false <->
        balanced ns id inc out hash
        \/ is_Some (payments ns !! hash) /\ invoices ns !! hash = None).
Proof.
  intros Hok [Hfee Hinv] Hin. unfold payment_unbalanced. rewrite totals_exact, Ok_bind by done.
  destruct (Hok _ Hin) as (Hn1 & Hn2 & Hb1 & Hb2).
  assert (0 <= new_incoming ns id inc hash) by (by apply sum_list_Z_nonneg).
  assert (0 <= new_outgoing ns id out hash) by (by apply sum_list_Z_nonneg).
  rewrite !mul64_in, !Ok_bind by lia. cbn [Validator.validate_payment_balance Simple.validator].
  destruct (Simple.payment_balance_exact self (new_incoming ns id inc hash * 1000)
    (new_outgoing ns id out hash * 1000) (invoice_amount_msat <$> invoices ns !! hash))
    as [Hyes Hno]; [lia|lia|destruct (invoices ns !! hash) eqn:Hi; cbn;
      try specialize (Hinv _ _ Hi); lia..|].
  assert (Hlim : match invoice_amount_msat <$> invoices ns !! hash with
    | Some a => a + max_routing_fee_msat self | None => 0 end = allowance ns hash)
    by (unfold allowance; by destruct (invoices ns !! hash)).
  rewrite Hlim in Hyes, Hno. destruct (Z.le_gt_cases (new_outgoing ns id out hash * 1000)
    (new_incoming ns id inc hash * 1000 + allowance ns hash)) as [Hle|Hgt].
  - rewrite (Hyes Hle). exists false. split; [done|]. split; [by left|done].
  - destruct Hno as [e ->]; [lia|]. eexists. split; [done|].
    rewrite negb_false_iff, andb_true_iff, !bool_decide_eq_true, fmap_None. split; [by right|].
    unfold balanced. intros [?|]; [lia|done].
Qed.

Lemma collect_total {E A : Type} (f : A -> outcome E bool) l acc :
  (forall x, x ∈ l -> exists b, f x = Ok b) ->
  exists res, foldM (fun acc x => bad ← f x; Ok (if bad : bool then acc ++ [x] else acc)) acc l
    = Ok res.
Proof.
  revert acc. induction l as [|x l IH]; intros acc H; cbn [foldM]; [by eexists|].
  destruct (H x) as [b ->]; [apply list_elem_of_here|]. rewrite !Ok_bind.
  apply IH. intros y Hy. apply H. by apply list_elem_of_further.
Qed.

(** C9: payments are balanced, exactly.  With every policy tag enforced and
    amounts in range, the payments of a new commitment are accepted if and
    only if, for every payment hash it has or had HTLCs for, what all
    channels together send is covered by what all channels together receive
    plus, for an approved invoice or keysend, its amount and the maximum
    routing fee, or the payment is already known and was not invoiced (the
    exemption in the code for routed payments whose incoming side is
    removed first); and, when balances are enforced, the holder's balance
    does not drop by more than the excess collected so far. *)
Theorem payments_accepted_iff ns id inc out delta
  (Hok : amounts_ok ns id inc out) (Hinv : invoices_ok ns)
  (Hex : excess_amount ns + delta.2 < 2 ^ 64) :
  validate_payments ns id inc out delta (Simple.validator self) = Ok tt <->
  (forall hash, hash ∈ summary_hashes inc out ->
     balanced ns id inc out hash
     \/ is_Some (payments ns !! hash) /\ invoices ns !! hash = None)
  /\ (sp_enforce_balance self = true -> delta.1 <= excess_amount ns + delta.2).
Proof.
  unfold validate_payments.
  assert (Hex' : (if sp_enforce_balance self then
      sum ← unwrap (checked_add64 (excess_amount ns) delta.2);
      ok_or (checked_sub64 sum delta.1) (policy_error_value "shortfall {} + {} - {}");; Ok tt
    else Ok tt) = Ok tt <->
    (sp_enforce_balance self = true -> delta.1 <= excess_amount ns + delta.2)).
  { destruct (sp_enforce_balance self); [|done]. unfold checked_add64.
    rewrite (proj2 (Z.ltb_lt _ _)) by done. cbn [unwrap]. rewrite Ok_bind. unfold checked_sub64.
    destruct (0 <=? _) eqn:H; b2p; cbn; split; try done; lia. }
  destruct (collect_total (payment_unbalanced ns id inc out (Simple.validator self))
    (summary_hashes inc out) []) as [res Hres].
  { intros x Hx. destruct (payment_unbalanced_exact ns id inc out x) as (b & ? & _); eauto. }
  rewrite Hres, Ok_bind. apply collect_loop in Hres as (l & -> & _ & Hl). cbn [app].
  rewrite Simple.bind_unit_iff. cbn [Validator.enforce_balance Simple.validator].
  change (policy_err (policy (Simple.validator self))) with (Simple.self_policy_err self).
  rewrite Hex', (Simple.when_iff self), negb_false_iff, bool_decide_eq_true by done.
  enough (l = [] <-> forall hash, hash ∈ summary_hashes inc out -> balanced ns id inc out hash
    \/ is_Some (payments ns !! hash) /\ invoices ns !! hash = None) by tauto.
  split.
  - intros -> hash Hin.
    destruct (payment_unbalanced_exact ns id inc out hash) as ([] & Hb & Hiff); [done..| |].
    + exfalso. eapply not_elem_of_nil. apply Hl. by split.
    + by apply Hiff.
  - intros Hall. destruct l as [|x l]; [done|exfalso].
    destruct (proj1 (Hl x) (list_elem_of_here _ _)) as [Hin Hbad].
    destruct (payment_unbalanced_exact ns id inc out x) as (b & Hb & Hiff); [done..|].
    rewrite Hbad in Hb. injection Hb as <-. by apply Hiff in Hall.
Qed.

(** The adjustment of the excess and the preimages of the paid invoices. *)
Lemma adjust_excess {E : Type} (ns : NodeState) (delta : BalanceDelta) (ful : list PaymentHash)
  (pays : gmap PaymentHash RoutedPayment) :
  (sp_enforce_balance self = true -> delta.1 <= excess_amount ns + delta.2) ->
  excess_amount ns + delta.2 < 2 ^ 64 -> (forall h, h ∈ ful -> is_Some (pays !! h)) ->
  exists pays', (if sp_enforce_balance self then
       sum ← unwrap (checked_add64 (excess_amount ns) delta.2);
       excess ← unwrap (checked_sub64 sum delta.1);
       pays ← foldM (fun (pays : gmap PaymentHash RoutedPayment) hash =>
           payment ← unwrap (pays !! hash);
           Ok (<[hash := set_preimage payment (replicate 32 0)]> pays)) pays ful;
       Ok (pays, excess)
     else Ok (pays, excess_amount ns))
    = Ok (E := E) (pays', if sp_enforce_balance self
                          then excess_amount ns + delta.2 - delta.1 else excess_amount ns)
    /\ forall h, pays' !! h = if sp_enforce_balance self && bool_decide (h ∈ ful)
         then (fun p => set_preimage p (replicate 32 0)) <$> pays !! h else pays !! h.
Proof.
  intros Hshort Hex Hin. destruct (sp_enforce_balance self); [|exists pays; auto].
  specialize (Hshort eq_refl). unfold checked_add64, checked_sub64.
  rewrite (proj2 (Z.ltb_lt _ _)) by done. cbn [unwrap]. rewrite Ok_bind.
  rewrite (proj2 (Z.leb_le _ _)) by lia. cbn [unwrap]. rewrite Ok_bind.
  destruct (update_loop (E := E) (fun _ p => set_preimage p (replicate 32 0)) ful pays)
    as (pays' & -> & Hp); [done|done|].
  rewrite Ok_bind. exists pays'. split; [done|]. intros h. rewrite Hp. cbn [andb].
  destruct (decide (h ∈ ful)); [by rewrite bool_decide_true|by rewrite bool_decide_false].
Qed.

(** C27: validated payments are always applied.  When the payments of a
    commitment were accepted and the amounts are in range (totals below 2^53
    satoshi, an excess that stays below 2^64), applying them does not panic: every payment of
    the commitment then has exactly the commitment's amounts for this
    channel and the old ones for the others; its preimage becomes the dummy
    preimage exactly when balances are enforced and the node issued an invoice
    for it that was not fulfilled before and whose amount the new incoming
    exceeds the new outgoing by, and is otherwise as it was; no other payment
    changes; and the excess, when balances are enforced, is adjusted by the change of the
    balance and stays nonnegative. *)
Theorem validated_payments_apply {E : Type} ns id inc out delta
  (Hok : amounts_ok ns id inc out) (Hiss : issued_ok ns) (Hinv : invoices_ok ns)
  (Hex : 0 <= excess_amount ns /\ excess_amount ns + delta.2 < 2 ^ 64)
  (Hval : validate_payments ns id inc out delta (Simple.validator self) = Ok tt) :
  exists ns', apply_payments (E := E) ns id inc out delta (Simple.validator self) = Ok ns'
    /\ (forall hash, hash ∈ summary_hashes inc out ->
          exists p, payments ns' !! hash = Some p
            /\ incoming p = <[id := summary_amount inc hash]> (incoming (entry ns hash))
            /\ outgoing p = <[id := summary_amount out hash]> (outgoing (entry ns hash))
            /\ preimage p = if sp_enforce_balance self && newly_paid ns id inc out hash
                            then Some (replicate 32 0) else preimage (entry ns hash))
    /\ (forall hash, hash ∉ summary_hashes inc out -> payments ns' !! hash = payments ns !! hash)
    /\ excess_amount ns' = (if sp_enforce_balance self
                            then excess_amount ns + delta.2 - delta.1 else excess_amount ns)
    /\ 0 <= excess_amount ns'.
Proof.
  assert (Hshort : sp_enforce_balance self = true -> delta.1 <= excess_amount ns + delta.2).
  { intros Henf. unfold validate_payments in Hval. inv_ok Hval.
    cbn [Validator.enforce_balance Simple.validator] in *. rewrite Henf in *. inv_ok Hval. lia. }
  unfold apply_payments. destruct (preflight_loop (E := E) ns id inc out Hok Hiss)
    as (pays & ful & -> & Hpays & Hful). rewrite Ok_bind.
  cbn [Validator.enforce_balance Simple.validator].
  destruct (adjust_excess (E := E) ns delta ful pays Hshort (proj2 Hex)) as (pays1 & -> & Hpays1).
  { intros h Hh. rewrite Hpays, decide_True by (by apply Hful). by eexists. }
  rewrite Ok_bind.
  destruct (update_loop (E := E) (fun hash p => apply p id (summary_amount inc hash)
    (summary_amount out hash)) (summary_hashes inc out) pays1) as (pays2 & -> & Hpays2).
  { intros h p. unfold apply. cbn. by rewrite !insert_insert_eq. }
  { intros h Hh. rewrite Hpays1, Hpays, decide_True by done. destruct (_ && _); by eexists. }
  rewrite Ok_bind. eexists. split; [done|]. cbn [payments set_payments excess_amount].
  split; [|split; [|split; [done|destruct (sp_enforce_balance self); [specialize (Hshort eq_refl)|]; lia]]].
  - intros h Hh. rewrite Hpays2, Hpays1, Hpays, !decide_True by done.
    rewrite (bool_decide_ext (h ∈ ful) (newly_paid ns id inc out h = true)) by (rewrite Hful; tauto).
    destruct (sp_enforce_balance self), (newly_paid ns id inc out h); by eexists.
  - intros h Hh. rewrite Hpays2, Hpays1, Hpays, !decide_False by done.
    rewrite (bool_decide_false (h ∈ ful)) by (rewrite Hful; tauto). by rewrite andb_false_r.
Qed.
End claims.

Section more_claims.
Context `{L : Lib, Prof : Profile}.

Lemma summary_hashes_empty : summary_hashes ∅ ∅ = [].
Proof. unfold summary_hashes. by rewrite dom_empty_L, union_empty_l_L, elements_empty. Qed.

(** Enforcement of balances is lost behind the on-chain validator.  With a
    policy that enforces balances, a change of the holder's balance that is
    not covered by the excess is an error for the simple validator, but the
    on-chain validator made from the same policy, which does not pass
    [enforce_balance] on to the validator it wraps, accepts it. *)
Theorem onchain_ignores_enforce_balance (p : SimplePolicy) (network : Network) ns id
  (before after : Z) (Henf : sp_enforce_balance p = true)
  (Hrange : excess_amount ns + after < 2 ^ 64) (Hshort : excess_amount ns + after < before) :
  validate_payments ns id ∅ ∅ (before, after) (Simple.make_validator (Some p) network)
    = Err (policy_error_value "shortfall {} + {} - {}")
  /\ validate_payments ns id ∅ ∅ (before, after) (Onchain.make_validator (Some p) network)
    = Ok tt.
Proof.
  unfold validate_payments. rewrite summary_hashes_empty. cbn [foldM]. rewrite !Ok_bind.
  rewrite bool_decide_true by done. split; [|done].
  change (Validator.enforce_balance (Simple.make_validator (Some p) network))
    with (sp_enforce_balance p). rewrite Henf. unfold whenb. cbn [negb]. rewrite Ok_bind. unfold checked_add64, checked_sub64. cbn [fst snd].
  rewrite (proj2 (Z.ltb_lt _ _)) by done. cbn [unwrap]. rewrite Ok_bind.
  by rewrite (proj2 (Z.leb_gt _ _)) by lia.
Qed.

(** Amounts that are nonnegative and sum to zero are zero. *)
Lemma sum64_zero {E : Type} l b : Forall (fun x => 0 <= x) l -> sum_list_Z l < 2 ^ 64 ->
  (s ← sum64 (E := E) l; Ok (s =? 0)) = Ok b -> b = true -> Forall (fun x => x = 0) l.
Proof.
  intros Hl Hb H ->. rewrite sum64_in, Ok_bind in H by done. injection H as H. b2p.
  induction Hl as [|x l Hx Hl IH]; [constructor|].
  pose proof (sum_list_Z_nonneg _ Hl). cbn in H. fold (sum_list_Z l) in H.
  cbn in Hb. fold (sum_list_Z l) in Hb. constructor; [lia|]. apply IH; lia.
Qed.

(** The amounts in flight of a payment. *)
Definition flows_ok (ns : NodeState) : Prop :=
  forall hash p, payments ns !! hash = Some p ->
    (Forall (fun x => 0 <= x) (map_values (incoming p))
     /\ sum_list_Z (map_values (incoming p)) < 2 ^ 64)
    /\ (Forall (fun x => 0 <= x) (map_values (outgoing p))
        /\ sum_list_Z (map_values (outgoing p)) < 2 ^ 64).

Lemma prunable_sound {E : Type} tw ns now l :
  prunable_invoices (E := E) tw ns now = Ok l ->
  forall h, h ∈ l -> exists st p, invoices ns !! h = Some st /\ payments ns !! h = Some p
    /\ is_invoice_prunable (E := E) tw now st p = Ok true.
Proof.
  intros H h Hh. unfold prunable_invoices in H.
  assert (Hinv : forall h, h ∈ l -> exists st p, (h, st) ∈ map_to_list (invoices ns)
    /\ payments ns !! h = Some p /\ is_invoice_prunable (E := E) tw now st p = Ok true).
  { refine (foldM_inv (fun pre acc => forall h, h ∈ acc -> exists st p, (h, st) ∈ pre
      /\ payments ns !! h = Some p /\ is_invoice_prunable (E := E) tw now st p = Ok true)
      _ _ _ _ _ _ H); [by intros ? ?%elem_of_nil|].
    intros pre [k st] acc1 acc2 IH Hstep x Hx. inv_ok Hstep. cbn [fst snd] in *.
    assert (Hcase : x ∈ acc1 \/ x = k /\ x1 = true)
      by (destruct x1; [apply elem_of_app in Hx as [|Hx%list_elem_of_singleton]|]; auto).
    destruct Hcase as [Hin|[-> ->]].
    - destruct (IH x Hin) as (st' & p & ? & ?). exists st', p. split; [|done].
      apply elem_of_app. by left.
    - exists st, x0. split; [|done]. apply elem_of_app. right. by apply list_elem_of_singleton. }
  destruct (Hinv h Hh) as (st & p & Hin & ?). exists st, p. split; [|done].
  by apply elem_of_map_to_list.
Qed.

(** Pruning forgets nothing that is pending.  Pruning the approved invoices
    removes an invoice and its payment only after the invoice's deadline and
    only when the payment is fulfilled or nothing is outgoing for it; every
    other invoice, payment, and the rest of the state, is kept. *)
Theorem prune_invoices_keeps_pending {E : Type} tw ns now ns' b (Hflows : flows_ok ns)
  (Hok : prune_invoices (E := E) tw ns now = Ok (ns', b)) hash :
  (invoices ns' !! hash = invoices ns !! hash /\ payments ns' !! hash = payments ns !! hash)
  \/ (exists st p, invoices ns !! hash = Some st /\ payments ns !! hash = Some p
      /\ (exists d, prune_deadline (E := E) tw st = Ok d /\ d < now)
      /\ (is_fulfilled p = true \/ Forall (fun x => x = 0) (map_values (outgoing p)))).
Proof.
  unfold prune_invoices in Hok. inv_ok Hok. rename x into l.
  destruct (decide (hash ∈ l)) as [Hin|Hin].
  - right. destruct (prunable_sound tw ns now l Hx hash Hin) as (st & p & Hi & Hp & Hpr).
    exists st, p. split; [done|]. split; [done|]. unfold is_invoice_prunable in Hpr. inv_ok Hpr.
    apply andb_true_iff in Hpr as [Hd Hc]. b2p. split; [eauto|].
    destruct (is_fulfilled p); [by left|right]. destruct (Hflows _ _ Hp) as [_ [? ?]].
    by eapply sum64_zero.
  - left. cbn [invoices payments]. rewrite !map_lookup_filter.
    split; [destruct (invoices ns !! hash)|destruct (payments ns !! hash)]; cbn; try done;
      by rewrite option_guard_True.
Qed.
End more_claims.

(** ** Witnesses *)

(** An approved invoice of a million millisatoshi with nothing in flight, and a
    commitment that offers 900 satoshi for it. *)
Definition example_invoice : PaymentState := {|
  invoice_hash := [8]; invoice_amount_msat := 1000000; payee := [2];
  ps_duration_since_epoch := secs 1000; ps_expiry_duration := secs 3600;
  ps_is_fulfilled := false; payment_type := Invoice |}.

Definition example_node_state : NodeState := {|
  invoices := {[ [8] := example_invoice ]}; issued_invoices := ∅;
  payments := {[ [8] := RoutedPayment_new ]}; excess_amount := 0;
  velocity_control := example_control; ns_fee_velocity_control := example_control |}.

Definition example_out : gmap PaymentHash Z := {[ [8] := 900 ]}.

Lemma example_amounts_ok : amounts_ok example_node_state [5] ∅ example_out.
Proof.
  intros hash Hin. assert (summary_hashes ∅ example_out = [[8]]) as Heq by (by vm_compute).
  rewrite Heq in Hin. apply list_elem_of_singleton in Hin as ->.
  split; [|split; [|by vm_compute]]; vm_compute; repeat constructor; done.
Qed.

Lemma example_invoices_ok : invoices_ok Simple.example_policy example_node_state.
Proof.
  split; [by vm_compute|]. intros hash i Hi. cbn in Hi. apply lookup_singleton_Some in Hi as [_ <-].
  by vm_compute.
Qed.

Lemma payments_accepted_iff_witness :
  @validate_payments example_lib false example_node_state [5] ∅ example_out (0, 0)
    (@Simple.validator example_lib false Simple.example_policy) = Ok tt.
Proof.
  apply (@payments_accepted_iff example_lib false Simple.example_policy _ example_node_state [5] ∅
    example_out (0, 0) example_amounts_ok example_invoices_ok); [by vm_compute|].
  split; [|done]. intros hash Hin. left.
  assert (summary_hashes ∅ example_out = [[8]]) as Heq by (by vm_compute).
  rewrite Heq in Hin. apply list_elem_of_singleton in Hin as ->. by vm_compute.
Defined.

Lemma validated_payments_apply_witness :
  exists ns', @apply_payments example_lib false unit example_node_state [5] ∅ example_out (0, 0)
      (@Simple.validator example_lib false Simple.example_policy) = Ok ns'
    /\ excess_amount ns' = 0.
Proof.
  destruct (@validated_payments_apply example_lib false Simple.example_policy unit
    example_node_state [5] ∅ example_out (0, 0) example_amounts_ok)
    as (ns' & H & _ & _ & He & _).
  - by intros hash i Hi.
  - exact example_invoices_ok.
  - by split.
  - by vm_compute.
  - exists ns'. exact (conj H He).
Defined.

Definition example_enforcing : SimplePolicy :=
  let p := make_simple_policy Testnet in {|
  min_delay := min_delay p; max_delay := max_delay p;
  max_channel_size_sat := max_channel_size_sat p; epsilon_sat := epsilon_sat p;
  max_htlcs := max_htlcs p; max_htlc_value_sat := max_htlc_value_sat p;
  use_chain_state := use_chain_state p; min_feerate_per_kw := min_feerate_per_kw p;
  max_feerate_per_kw := max_feerate_per_kw p; sp_enforce_balance := true;
  max_routing_fee_msat := max_routing_fee_msat p; dev_flags := dev_flags p;
  sp_filter := sp_filter p; sp_global_velocity_control := sp_global_velocity_control p;
  sp_max_channels := sp_max_channels p; sp_max_invoices := sp_max_invoices p;
  sp_fee_velocity_control := sp_fee_velocity_control p |}.

Lemma onchain_ignores_enforce_balance_witness :
  @validate_payments example_lib false example_node_state [5] ∅ ∅ (100, 0)
    (@Onchain.make_validator example_lib false (Some example_enforcing) Testnet) = Ok tt.
Proof.
  apply (@onchain_ignores_enforce_balance example_lib false example_enforcing Testnet
    example_node_state [5] 100 0); by vm_compute.
Defined.

Lemma prune_invoices_keeps_pending_witness :
  exists ns' b, @prune_invoices false unit false example_node_state (secs 5000) = Ok (ns', b)
    /\ (invoices ns' !! [8] = Some example_invoice
        \/ exists d, @prune_deadline unit false example_invoice = Ok d /\ d < secs 5000).
Proof.
  destruct (@prune_invoices false unit false example_node_state (secs 5000))
    as [[ns' b]|e|] eqn:H; [|by vm_compute in H..].
  exists ns', b. split; [done|].
  destruct (@prune_invoices_keeps_pending false unit false example_node_state (secs 5000) ns' b)
    with (hash := [8]) as [[Hi _]|(st & p & Hi & _ & Hd & _)].
  - intros hash p Hp. cbn in Hp. apply lookup_singleton_Some in Hp as [_ <-]. vm_compute. by repeat split.
  - exact H.
  - left. rewrite Hi. by vm_compute.
  - right. assert (st = example_invoice) as -> by (vm_compute in Hi; by injection Hi). exact Hd.
Defined.
