(* ===== verification/ChannelOps.v ===== *)
(** * Channel operations (vls-core/src/channel.rs)

    The requests a node sends to the signer of a channel.  Each operation that
    changes state is a function of a small state and error monad: the
    channel, the payments of its node, and the copy of the channel in the
    persister.  As in the source, an error leaves the changes made before it
    in place. *)

From S2P Require Import Prelude Velocity Policy Order Extern Setup Tx Script.
From S2P Require Import Secrets Enforcement Validator NodeState SimpleValidator.

(** The initial commitment number when counting backwards (util/mod.rs). *)
Definition INITIAL_COMMITMENT_NUMBER : Z := 2 ^ 48 - 1.

#[global] Arguments INITIAL_COMMITMENT_NUMBER : simpl never.

Module Chan.

(** ** The monad *)

(** What an operation reads: the validator that the node's factory makes, the
    node as a wallet, the monitor's view of the chain, and whether the
    persister accepts an update. *)
Record Env `{Lib} := {
  env_validator : Validator;
  env_wallet : Wallet;
  env_chain_state : ChainState;
  env_persists : bool
}.

Record ChanState `{Lib} := {
  chan : Channel;
  node_state : NodeState;
  persisted : Channel
}.

Definition M `{Lib} (A : Type) : Type := ChanState -> ChanState * outcome Status A.

Section monad.
Context `{L : Lib}.

#[global] Instance M_ret : MRet M := fun A a s => (s, Ok a).
#[global] Instance M_bind : MBind M := fun A B f m s =>
  match m s with
  | (s', Ok a) => f a s'
  | (s', Err e) => (s', Err e)
  | (s', Panic) => (s', Panic)
  end.

Definition lift {A} (m : outcome Status A) : M A := fun s => (s, m).

(** A validator's error becomes a [Status] at the [?]. *)
Definition lift_v {A} (m : result A) : M A := lift (map_err status_from m).

Definition get_chan : M Channel := fun s => (s, Ok (chan s)).
Definition get_node_state : M NodeState := fun s => (s, Ok (node_state s)).

Definition with_es (c : Channel) (es : EnforcementState) : Channel := {|
  keys := keys c; enforcement_state := es; setup := setup c; id0 := id0 c; chan_id := chan_id c |}.

Definition put_es (es : EnforcementState) : M unit := fun s =>
  ({| chan := with_es (chan s) es; node_state := node_state s; persisted := persisted s |}, Ok tt).

Definition put_node_state (n : NodeState) : M unit := fun s =>
  ({| chan := chan s; node_state := n; persisted := persisted s |}, Ok tt).

Definition persist (env : Env) : M unit := fun s =>
  if env_persists env then
    ({| chan := chan s; node_state := node_state s; persisted := chan s |}, Ok tt)
  else (s, Err (internal_error "persist failed")).

(** [self.enforcement_state.channel_closed = true]. *)
Definition set_channel_closed : M unit :=
  self ← get_chan;
  let es := enforcement_state self in
  put_es (set_closed_secrets es true (counterparty_secrets es)).
End monad.

Section ops.
Context `{L : Lib, Prof : Profile}.
Implicit Types (self : Channel) (v : Validator) (env : Env).

(** ** Points and secrets *)

Definition get_per_commitment_point self (commitment_number : Z) : outcome Status PublicKey :=
  next1 ← add64 (next_holder_commit_num (enforcement_state self)) 1;
  if next1 <? commitment_number then
    Err (status_from (policy_error_value
      "get_per_commitment_point: commitment_number {} invalid when next_holder_commit_num is {}"))
  else
    idx ← sub64 INITIAL_COMMITMENT_NUMBER commitment_number;
    Ok (signer_per_commitment_point (keys self) idx).

Definition get_per_commitment_secret v self (commitment_number : Z) : outcome Status SecretKey :=
  n2 ← add64 commitment_number 2;
  whenb (next_holder_commit_num (enforcement_state self) <? n2)
    (map_err status_from
      (policy_err (policy v) "policy-revoke-new-commitment-signed" "get_per_commitment_secret"
         "cannot revoke commitment_number {} when next_holder_commit_num is {}"));;
  idx ← sub64 INITIAL_COMMITMENT_NUMBER commitment_number;
  unwrap (secretkey_from_slice (release_commitment_secret (keys self) idx)).

Definition check_future_secret self (commitment_number : Z) (suggested : SecretKey)
  : outcome Status bool :=
  idx ← sub64 INITIAL_COMMITMENT_NUMBER commitment_number;
  Ok (bool_decide (suggested = release_commitment_secret (keys self) idx)).

(** A stub only gives out its first point. *)
Definition stub_get_per_commitment_point (self : ChannelStub) (commitment_number : Z)
  : outcome Status PublicKey :=
  if negb (commitment_number =? 0) then
    Err (status_from (policy_error_value
      "channel stub can only return point for commitment number zero"))
  else
    idx ← sub64 INITIAL_COMMITMENT_NUMBER commitment_number;
    Ok (signer_per_commitment_point (stub_keys self) idx).

Definition stub_get_per_commitment_secret (self : ChannelStub) (_commitment_number : Z)
  : outcome Status SecretKey :=
  Err (status_from (policy_error_value "channel stub cannot release commitment secret")).

Definition stub_check_future_secret (self : ChannelStub) (commitment_number : Z)
  (suggested : SecretKey) : outcome Status bool :=
  idx ← sub64 INITIAL_COMMITMENT_NUMBER commitment_number;
  Ok (bool_decide (suggested = release_commitment_secret (stub_keys self) idx)).

(** ** Building commitments *)

Definition make_tx_keys (point : PublicKey) (a_points b_points : ChannelPublicKeys)
  : TxCreationKeys :=
  derive_new point (delayed_payment_basepoint a_points) (htlc_basepoint a_points)
    (revocation_basepoint b_points) (htlc_basepoint b_points).

Definition make_counterparty_tx_keys self (point : PublicKey) : TxCreationKeys :=
  make_tx_keys point (counterparty_pubkeys (keys self)) (pubkeys (keys self)).

Definition make_holder_tx_keys self (point : PublicKey) : TxCreationKeys :=
  make_tx_keys point (pubkeys (keys self)) (counterparty_pubkeys (keys self)).

Definition derive_counterparty_payment_pubkey self (remote_point : PublicKey)
  : outcome Status PublicKey :=
  let holder_points := pubkeys (keys self) in
  if is_static_remotekey (setup self) then Ok (payment_point holder_points)
  else ok_or (derive_public_key remote_point (payment_point holder_points))
         (internal_error "could not derive counterparty_key: {}").

Definition build_counterparty_commitment_info self (remote_point : PublicKey)
  (to_holder to_counterparty : Z) (offered_htlcs received_htlcs : list HTLCInfo2)
  (feerate_per_kw : Z) : outcome Status CommitmentInfo2 :=
  to_counterparty_delayed_pubkey ←
    ok_or (derive_public_key remote_point
             (delayed_payment_basepoint (counterparty_points (setup self))))
      (internal_error "could not derive to_holder_delayed_key: {}");
  counterparty_payment_pubkey ← derive_counterparty_payment_pubkey self remote_point;
  let revocation_pubkey :=
    derive_public_revocation_key remote_point (revocation_basepoint (pubkeys (keys self))) in
  Ok (CommitmentInfo2_new true counterparty_payment_pubkey to_holder revocation_pubkey
        to_counterparty_delayed_pubkey to_counterparty
        (holder_selected_contest_delay (setup self)) offered_htlcs received_htlcs
        feerate_per_kw).

Definition build_holder_commitment_info self (point : PublicKey)
  (to_holder to_counterparty : Z) (offered_htlcs received_htlcs : list HTLCInfo2)
  (feerate_per_kw : Z) : outcome Status CommitmentInfo2 :=
  let holder_points := pubkeys (keys self) in
  let counterparty_points := counterparty_pubkeys (keys self) in
  to_holder_delayed_pubkey ←
    ok_or (derive_public_key point (delayed_payment_basepoint holder_points))
      (internal_error "could not derive to_holder_delayed_pubkey: {}");
  counterparty_pubkey ←
    (if is_static_remotekey (setup self) then Ok (payment_point counterparty_points)
     else ok_or (derive_public_key point (payment_point counterparty_points))
            (internal_error "could not derive counterparty_pubkey: {}"));
  let revocation_pubkey :=
    derive_public_revocation_key point (revocation_basepoint counterparty_points) in
  Ok (CommitmentInfo2_new false counterparty_pubkey to_counterparty revocation_pubkey
        to_holder_delayed_pubkey to_holder
        (counterparty_selected_contest_delay (setup self)) offered_htlcs received_htlcs
        feerate_per_kw).

Definition htlc_to_oic (is_offered : bool) (htlc : HTLCInfo2)
  : outcome Status HTLCOutputInCommitment :=
  msat ← mul64 (value_sat htlc) 1000;
  Ok {| offered := is_offered; amount_msat := msat; oic_cltv_expiry := cltv_expiry htlc;
        oic_payment_hash := payment_hash htlc; transaction_output_index := None |}.

Definition htlcs_info2_to_oic (offered_htlcs received_htlcs : list HTLCInfo2)
  : outcome Status (list HTLCOutputInCommitment) :=
  htlcs ← foldM (fun acc h => o ← htlc_to_oic true h; Ok (acc ++ [o])) [] offered_htlcs;
  foldM (fun acc h => o ← htlc_to_oic false h; Ok (acc ++ [o])) htlcs received_htlcs.

Definition make_channel_parameters self : ChannelTransactionParameters :=
  let setup := setup self in {|
  holder_pubkeys := pubkeys (keys self);
  ctp_holder_selected_contest_delay := holder_selected_contest_delay setup;
  is_outbound_from_holder := is_outbound setup;
  counterparty_parameters :=
    Some (counterparty_points setup, counterparty_selected_contest_delay setup);
  ctp_funding_outpoint := Some {| op_txid := op_txid (funding_outpoint setup);
                                  vout := as_u 16 (vout (funding_outpoint setup)) |};
  opt_anchors := is_anchors setup;
  opt_non_zero_fee_anchors := is_zero_fee_htlc setup
|}.

Definition make_counterparty_commitment_tx_with_keys self (ks : TxCreationKeys)
  (commitment_number feerate_per_kw to_holder to_counterparty : Z)
  (htlcs : list HTLCOutputInCommitment) : outcome Status CommitmentTransaction :=
  idx ← sub64 INITIAL_COMMITMENT_NUMBER commitment_number;
  Ok {| ct_commitment_number := idx;
        ct_to_broadcaster_value_sat := to_counterparty;
        ct_to_countersignatory_value_sat := to_holder;
        ct_opt_anchors := is_anchors (setup self);
        ct_broadcaster_funding_key := funding_pubkey (counterparty_pubkeys (keys self));
        ct_countersignatory_funding_key := funding_pubkey (pubkeys (keys self));
        ct_keys := ks;
        ct_feerate_per_kw := feerate_per_kw;
        ct_htlcs := htlcs;
        ct_parameters := make_channel_parameters self;
        ct_holder_broadcastable := false;
        ct_non_zero_fee_anchors := false |}.

Definition make_counterparty_commitment_tx self (remote_point : PublicKey)
  (commitment_number feerate_per_kw to_holder to_counterparty : Z)
  (htlcs : list HTLCOutputInCommitment) : outcome Status CommitmentTransaction :=
  make_counterparty_commitment_tx_with_keys self (make_counterparty_tx_keys self remote_point)
    commitment_number feerate_per_kw to_holder to_counterparty htlcs.

Definition make_holder_commitment_tx self (commitment_number : Z) (ks : TxCreationKeys)
  (feerate_per_kw to_holder to_counterparty : Z)
  (htlcs : list HTLCOutputInCommitment) : outcome Status CommitmentTransaction :=
  idx ← sub64 INITIAL_COMMITMENT_NUMBER commitment_number;
  Ok {| ct_commitment_number := idx;
        ct_to_broadcaster_value_sat := to_holder;
        ct_to_countersignatory_value_sat := to_counterparty;
        ct_opt_anchors := is_anchors (setup self);
        ct_broadcaster_funding_key := funding_pubkey (pubkeys (keys self));
        ct_countersignatory_funding_key := funding_pubkey (counterparty_pubkeys (keys self));
        ct_keys := ks;
        ct_feerate_per_kw := feerate_per_kw;
        ct_htlcs := htlcs;
        ct_parameters := make_channel_parameters self;
        ct_holder_broadcastable := true;
        ct_non_zero_fee_anchors := is_anchors (setup self) |}.

(** ** Checking the counterparty's signatures *)

(** One HTLC signature. *)
Definition check_htlc_signature self (point : PublicKey) (txkeys : TxCreationKeys)
  (build_feerate : Z) (commitment_txid : Txid) (htlc_pubkey : PublicKey)
  (sigs : list Signature) (ih : nat * HTLCOutputInCommitment) : outcome Status unit :=
  let '(ndx, htlc) := ih in
  let anchors := is_anchors (setup self) in
  let sig_hash_type := if anchors then SinglePlusAnyoneCanPay else All in
  let htlc_redeemscript := get_htlc_redeemscript htlc anchors txkeys in
  let recomposed_htlc_tx :=
    build_htlc_transaction commitment_txid build_feerate
      (counterparty_selected_contest_delay (setup self)) htlc anchors
      (negb (is_zero_fee_htlc (setup self)))
      (broadcaster_delayed_payment_key txkeys) (revocation_key txkeys) in
  sighash ← unwrap (segwit_signature_hash recomposed_htlc_tx 0 htlc_redeemscript
                      (amount_msat htlc / 1000) sig_hash_type);
  msg ← ok_or (message_from_slice sighash)
          (invalid_argument "sighash failed for htlc {}: {}");
  sig ← unwrap (sigs !! ndx);
  if verify_ecdsa msg sig htlc_pubkey then Ok tt
  else Err (status_from (policy_error_value "commit sig verify failed for htlc {}: {}")).

Definition check_holder_tx_signatures self (point : PublicKey) (txkeys : TxCreationKeys)
  (feerate_per_kw : Z) (counterparty_commit_sig : Signature)
  (counterparty_htlc_sigs : list Signature) (recomposed_tx : CommitmentTransaction)
  : outcome Status unit :=
  let counterparty_funding := funding_pubkey (counterparty_points (setup self)) in
  let redeemscript :=
    make_funding_redeemscript (funding_pubkey (pubkeys (keys self))) counterparty_funding in
  let built := commitment_built_transaction recomposed_tx in
  sighash ← unwrap (segwit_signature_hash built 0 redeemscript
                      (channel_value_sat (setup self)) All);
  msg ← ok_or (message_from_slice sighash) (internal_error "sighash failed: {}");
  (if verify_ecdsa msg counterparty_commit_sig counterparty_funding then Ok tt
   else Err (status_from (policy_error_value "commit sig verify failed: {}")));;
  htlc_pubkey ← ok_or (derive_public_key point
                         (htlc_basepoint (counterparty_pubkeys (keys self))))
                  (internal_error "derive_public_key failed: {}");
  let build_feerate := if is_zero_fee_htlc (setup self) then 0 else feerate_per_kw in
  foldM (fun _ ih => check_htlc_signature self point txkeys build_feerate (txid built)
                       htlc_pubkey counterparty_htlc_sigs ih)
    tt (imap pair (commitment_htlcs recomposed_tx)).

(** ** Signing the counterparty's commitment *)

Definition sign_counterparty_commitment_tx_phase2 env (remote_point : PublicKey)
  (commitment_number feerate_per_kw to_holder to_counterparty : Z)
  (offered_htlcs received_htlcs : list HTLCInfo2) : M (Signature * list Signature) :=
  let v := env_validator env in
  self ← get_chan;
  let es := enforcement_state self in
  lift_v (Validator.validate_channel_value v (setup self));;
  info2 ← lift (build_counterparty_commitment_info self remote_point to_holder to_counterparty
                  offered_htlcs received_htlcs feerate_per_kw);
  state ← get_node_state;
  delta ← lift (claimable_balances es (has_preimage state) None (Some info2) (setup self));
  incoming ← lift (incoming_payments_summary es None (Some info2));
  lift_v (Validator.validate_counterparty_commitment_tx v es commitment_number remote_point
            (setup self) (env_chain_state env) info2);;
  htlcs ← lift (htlcs_info2_to_oic offered_htlcs received_htlcs);
  commitment_tx ← lift (make_counterparty_commitment_tx self remote_point commitment_number
                          feerate_per_kw to_holder to_counterparty htlcs);
  sigs ← lift (ok_or (sign_counterparty_commitment (keys self) commitment_tx)
                 (internal_error "failed to sign"));
  outgoing ← lift (payments_summary es None (Some info2));
  lift_v (validate_payments state (id0 self) incoming outgoing delta v);;
  next ← lift (add64 commitment_number 1);
  es' ← lift_v (set_next_counterparty_commit_num v es next remote_point info2);
  put_es es';;
  state' ← lift (apply_payments state (id0 self) incoming outgoing delta v);
  put_node_state state';;
  persist env;;
  mret sigs.

(** Phase 1: the transaction is supplied, decoded, and compared with the one
    rebuilt from its contents. *)
Definition sign_counterparty_commitment_tx env (tx : Transaction)
  (output_witscripts : list bytes) (remote_point : PublicKey)
  (commitment_number feerate_per_kw : Z) (offered_htlcs received_htlcs : list HTLCInfo2)
  : M Signature :=
  let v := env_validator env in
  self ← get_chan;
  let es := enforcement_state self in
  lift (whenb (negb (length (output tx) =? length output_witscripts)%nat)
          (Err (invalid_argument "len(tx.output) != len(witscripts)")));;
  lift_v (Validator.validate_channel_value v (setup self));;
  info ← lift_v (Validator.decode_commitment_tx v (keys self) (setup self) true tx
                   output_witscripts);
  let to_holder := ci_to_countersigner_value_sat info in
  let to_counterparty := ci_to_broadcaster_value_sat info in
  info2 ← lift (build_counterparty_commitment_info self remote_point to_holder to_counterparty
                  offered_htlcs received_htlcs feerate_per_kw);
  state ← get_node_state;
  delta ← lift (claimable_balances es (has_preimage state) None (Some info2) (setup self));
  incoming ← lift (incoming_payments_summary es None (Some info2));
  lift_v (Validator.validate_counterparty_commitment_tx v es commitment_number remote_point
            (setup self) (env_chain_state env) info2);;
  htlcs ← lift (htlcs_info2_to_oic (Tx.offered_htlcs info2) (Tx.received_htlcs info2));
  recomposed_tx ← lift (make_counterparty_commitment_tx self remote_point commitment_number
                          feerate_per_kw to_holder to_counterparty htlcs);
  lift (whenb (negb (bool_decide (commitment_built_transaction recomposed_tx = tx)))
    (map_err status_from (policy_err (policy v) "policy-commitment"
       "sign_counterparty_commitment_tx" "recomposed tx mismatch")));;
  commit_num ← lift (sub64 INITIAL_COMMITMENT_NUMBER (ct_commitment_number recomposed_tx));
  let point := per_commitment_point (ct_keys recomposed_tx) in
  sigs ← lift (ok_or (sign_counterparty_commitment (keys self) recomposed_tx)
                 (internal_error "sign_counterparty_commitment failed"));
  outgoing ← lift (payments_summary es None (Some info2));
  lift_v (validate_payments state (id0 self) incoming outgoing delta v);;
  next ← lift (add64 commit_num 1);
  es' ← lift_v (set_next_counterparty_commit_num v es next point info2);
  put_es es';;
  state' ← lift (apply_payments state (id0 self) incoming outgoing delta v);
  put_node_state state';;
  persist env;;
  mret (sigs.1 : Signature).

(** ** Receiving a new holder commitment *)

Definition advance_holder_commitment_state v (commitment_number : Z) (info2 : CommitmentInfo2)
  (counterparty_signatures : CommitmentSignatures) : M (PublicKey * option SecretKey) :=
  self ← get_chan;
  next ← lift (add64 commitment_number 1);
  es' ← lift_v (set_next_holder_commit_num v (enforcement_state self) next info2
                  counterparty_signatures);
  put_es es';;
  self ← get_chan;
  next_point ← lift (n1 ← add64 commitment_number 1;
                     unwrap_ok (get_per_commitment_point self n1));
  maybe_old_secret ← lift
    (if 1 <=? commitment_number then
       m1 ← sub64 commitment_number 1;
       s ← unwrap_ok (get_per_commitment_secret v self m1); Ok (Some s)
     else Ok None);
  mret (next_point, maybe_old_secret).

(** The end of both validation requests: check the signatures and the payments,
    advance the state, and persist it. *)
Definition finish_holder_commitment env (commitment_number feerate_per_kw : Z)
  (point : PublicKey) (txkeys : TxCreationKeys) (recomposed_tx : CommitmentTransaction)
  (info2 : CommitmentInfo2) (delta : BalanceDelta) (incoming : gmap PaymentHash Z)
  (counterparty_commit_sig : Signature) (counterparty_htlc_sigs : list Signature)
  : M (PublicKey * option SecretKey) :=
  let v := env_validator env in
  self ← get_chan;
  state ← get_node_state;
  lift (check_holder_tx_signatures self point txkeys feerate_per_kw counterparty_commit_sig
          counterparty_htlc_sigs recomposed_tx);;
  outgoing ← lift (payments_summary (enforcement_state self) (Some info2) None);
  lift_v (validate_payments state (id0 self) incoming outgoing delta v);;
  res ← advance_holder_commitment_state v commitment_number info2
          (counterparty_commit_sig, counterparty_htlc_sigs);
  state' ← lift (apply_payments state (id0 self) incoming outgoing delta v);
  put_node_state state';;
  persist env;;
  mret res.

Definition validate_holder_commitment_tx_phase2 env
  (commitment_number feerate_per_kw to_holder to_counterparty : Z)
  (offered_htlcs received_htlcs : list HTLCInfo2) (counterparty_commit_sig : Signature)
  (counterparty_htlc_sigs : list Signature) : M (PublicKey * option SecretKey) :=
  let v := env_validator env in
  self ← get_chan;
  let es := enforcement_state self in
  point ← lift (get_per_commitment_point self commitment_number);
  info2 ← lift (build_holder_commitment_info self point to_holder to_counterparty
                  offered_htlcs received_htlcs feerate_per_kw);
  state ← get_node_state;
  delta ← lift (claimable_balances es (has_preimage state) (Some info2) None (setup self));
  incoming ← lift (incoming_payments_summary es (Some info2) None);
  lift_v (Validator.validate_holder_commitment_tx v es commitment_number point (setup self)
            (env_chain_state env) info2);;
  htlcs ← lift (htlcs_info2_to_oic (Tx.offered_htlcs info2) (Tx.received_htlcs info2));
  let txkeys := make_holder_tx_keys self point in
  recomposed_tx ← lift (make_holder_commitment_tx self commitment_number txkeys feerate_per_kw
                          to_holder to_counterparty htlcs);
  finish_holder_commitment env commitment_number feerate_per_kw point txkeys recomposed_tx info2
    delta incoming counterparty_commit_sig counterparty_htlc_sigs.

Definition make_validated_recomposed_holder_commitment_tx env self (tx : Transaction)
  (output_witscripts : list bytes) (commitment_number : Z) (point : PublicKey)
  (txkeys : TxCreationKeys) (feerate_per_kw : Z) (offered_htlcs received_htlcs : list HTLCInfo2)
  : outcome Status (CommitmentTransaction * CommitmentInfo2 * gmap PaymentHash Z) :=
  let v := env_validator env in
  let es := enforcement_state self in
  whenb (negb (length (output tx) =? length output_witscripts)%nat)
    (Err (invalid_argument "len(tx.output):{} != len(witscripts):{}"));;
  map_err status_from (Validator.validate_channel_value v (setup self));;
  info ← map_err status_from
           (Validator.decode_commitment_tx v (keys self) (setup self) false tx
              output_witscripts);
  let to_holder := ci_to_broadcaster_value_sat info in
  let to_counterparty := ci_to_countersigner_value_sat info in
  info2 ← build_holder_commitment_info self point to_holder to_counterparty
            offered_htlcs received_htlcs feerate_per_kw;
  incoming ← incoming_payments_summary es (Some info2) None;
  map_err status_from
    (Validator.validate_holder_commitment_tx v es commitment_number point (setup self)
       (env_chain_state env) info2);;
  htlcs ← htlcs_info2_to_oic (Tx.offered_htlcs info2) (Tx.received_htlcs info2);
  recomposed_tx ← make_holder_commitment_tx self commitment_number txkeys feerate_per_kw
                    to_holder to_counterparty htlcs;
  whenb (negb (bool_decide (commitment_built_transaction recomposed_tx = tx)))
    (map_err status_from (policy_err (policy v) "policy-commitment"
       "make_validated_recomposed_holder_commitment_tx" "recomposed tx mismatch"));;
  Ok (recomposed_tx, info2, incoming).

(** Phase 1. *)
Definition validate_holder_commitment_tx env (tx : Transaction)
  (output_witscripts : list bytes) (commitment_number feerate_per_kw : Z)
  (offered_htlcs received_htlcs : list HTLCInfo2) (counterparty_commit_sig : Signature)
  (counterparty_htlc_sigs : list Signature) : M (PublicKey * option SecretKey) :=
  self ← get_chan;
  let es := enforcement_state self in
  point ← lift (get_per_commitment_point self commitment_number);
  let txkeys := make_holder_tx_keys self point in
  '(recomposed_tx, info2, incoming) ← lift
    (make_validated_recomposed_holder_commitment_tx env self tx output_witscripts
       commitment_number point txkeys feerate_per_kw offered_htlcs received_htlcs);
  state ← get_node_state;
  delta ← lift (claimable_balances es (has_preimage state) (Some info2) None (setup self));
  finish_holder_commitment env commitment_number feerate_per_kw point txkeys recomposed_tx info2
    delta incoming counterparty_commit_sig counterparty_htlc_sigs.

(** ** Signing the holder's commitment *)

Definition dummy_sig : Signature :=
  [235; 41; 153; 71; 177; 64; 192; 233; 2; 36; 62; 232; 57; 202; 88; 199;
   18; 145; 244; 204; 228; 154; 192; 54; 127; 180; 97; 124; 75; 110; 137; 15;
   24; 188; 8; 185; 190; 103; 38; 192; 144; 175; 76; 107; 73; 178; 39; 126;
   19; 75; 52; 7; 143; 113; 10; 114; 165; 117; 46; 57; 240; 19; 145; 73].

(** Rebuild a commitment with dummy signatures of the counterparty and sign it. *)
Definition sign_recomposed self (recomposed_tx : CommitmentTransaction) (htlcs_len : nat)
  : outcome Status (Signature * list Signature) :=
  let recomposed_holder_tx := {|
    hct_tx := recomposed_tx; hct_counterparty_sig := dummy_sig;
    hct_counterparty_htlc_sigs := replicate htlcs_len dummy_sig;
    hct_holder_funding_key := funding_pubkey (pubkeys (keys self));
    hct_counterparty_funding_key := funding_pubkey (counterparty_pubkeys (keys self)) |} in
  ok_or (sign_holder_commitment_and_htlcs (keys self) recomposed_holder_tx)
    (internal_error "failed to sign").

(** The transaction of the holder's commitment [info2]. *)
Definition recompose_holder_commitment self (commitment_number : Z) (point : PublicKey)
  (info2 : CommitmentInfo2) (htlcs : list HTLCOutputInCommitment)
  : outcome Status CommitmentTransaction :=
  let build_feerate := if is_zero_fee_htlc (setup self) then 0 else feerate_per_kw info2 in
  make_holder_commitment_tx self commitment_number (make_holder_tx_keys self point)
    build_feerate (to_broadcaster_value_sat info2) (to_countersigner_value_sat info2) htlcs.

Definition sign_holder_commitment_tx_phase2 env (commitment_number : Z)
  : M (Signature * list Signature) :=
  self ← get_chan;
  info2 ← lift_v (get_current_holder_commitment_info (env_validator env)
                    (enforcement_state self) commitment_number);
  htlcs ← lift (htlcs_info2_to_oic (Tx.offered_htlcs info2) (Tx.received_htlcs info2));
  point ← lift (get_per_commitment_point self commitment_number);
  recomposed_tx ← lift (recompose_holder_commitment self commitment_number point info2 htlcs);
  sigs ← lift (sign_recomposed self recomposed_tx (length (commitment_htlcs recomposed_tx)));
  set_channel_closed;;
  persist env;;
  mret sigs.

Definition get_unilateral_close_key self (commitment_point_opt revocation_pubkey : option PublicKey)
  : outcome Status (SecretKey * list bytes) :=
  match commitment_point_opt with
  | Some commitment_point =>
      let base_key := if bool_decide (is_Some revocation_pubkey)
                      then delayed_payment_base_key (keys self) else payment_key (keys self) in
      let key := derive_private_key commitment_point base_key in
      let pubkey := pubkey_from_secret_key key in
      let witness_stack_prefix :=
        match revocation_pubkey with
        | Some r => [[]; get_revokeable_redeemscript r
                           (counterparty_selected_contest_delay (setup self)) pubkey]
        | None => [pubkey_from_secret_key base_key]
        end in
      Ok (key, witness_stack_prefix)
  | None =>
      if bool_decide (is_Some revocation_pubkey) then
        Err (invalid_argument "delayed output without commitment point")
      else
        let key := payment_key (keys self) in
        Ok (key, [pubkey_from_secret_key key])
  end.

Definition sign_holder_commitment_tx_for_recovery env
  : M (Transaction * list Transaction * Script * (SecretKey * list bytes) * PublicKey) :=
  self ← get_chan;
  let es := enforcement_state self in
  info2 ← lift (unwrap (current_holder_commit_info es));
  cp_sigs ← lift (unwrap (current_counterparty_signatures es));
  commitment_number ← lift (sub64 (next_holder_commit_num es) 1);
  htlcs ← lift (htlcs_info2_to_oic (Tx.offered_htlcs info2) (Tx.received_htlcs info2));
  point ← lift (get_per_commitment_point self commitment_number);
  recomposed_tx ← lift (recompose_holder_commitment self commitment_number point info2 htlcs);
  sigs ← lift (sign_recomposed self recomposed_tx (length (commitment_htlcs recomposed_tx)));
  let holder_funding_key := funding_pubkey (pubkeys (keys self)) in
  let counterparty_funding_key := funding_pubkey (counterparty_pubkeys (keys self)) in
  let tx_keys := ct_keys recomposed_tx in
  let revocable_redeemscript :=
    get_revokeable_redeemscript (revocation_key tx_keys)
      (counterparty_selected_contest_delay (setup self))
      (broadcaster_delayed_payment_key tx_keys) in
  tx ← lift (add_holder_sig (commitment_built_transaction recomposed_tx) sigs.1 cp_sigs.1
               holder_funding_key counterparty_funding_key);
  set_channel_closed;;
  let revocation_pubkey :=
    derive_public_revocation_key point
      (revocation_basepoint (counterparty_pubkeys (keys self))) in
  ck ← lift (get_unilateral_close_key self (Some point) (Some revocation_pubkey));
  persist env;;
  mret (tx, [], to_v0_p2wsh revocable_redeemscript, ck, revocation_pubkey).

Definition sign_holder_commitment_tx_phase2_redundant env
  (commitment_number feerate_per_kw to_holder to_counterparty : Z)
  (offered_htlcs received_htlcs : list HTLCInfo2) : M (Signature * list Signature) :=
  self ← get_chan;
  point ← lift (get_per_commitment_point self commitment_number);
  info2 ← lift (build_holder_commitment_info self point to_holder to_counterparty
                  offered_htlcs received_htlcs feerate_per_kw);
  lift_v (Validator.validate_holder_commitment_tx (env_validator env) (enforcement_state self)
            commitment_number point (setup self) (env_chain_state env) info2);;
  htlcs ← lift (htlcs_info2_to_oic offered_htlcs received_htlcs);
  let build_feerate := if is_zero_fee_htlc (setup self) then 0 else feerate_per_kw in
  commitment_tx ← lift (make_holder_commitment_tx self commitment_number
                          (make_holder_tx_keys self point) build_feerate to_holder
                          to_counterparty htlcs);
  sigs ← lift (sign_recomposed self commitment_tx (length htlcs));
  set_channel_closed;;
  persist env;;
  mret sigs.

(** ** Processing the counterparty's revocation *)

Definition validate_counterparty_revocation env (revoke_num : Z) (old_secret : SecretKey)
  : M unit :=
  let v := env_validator env in
  self ← get_chan;
  let es := enforcement_state self in
  lift_v (Validator.validate_counterparty_revocation v es revoke_num old_secret);;
  (match counterparty_secrets es with
   | Some secrets =>
       backwards_num ← lift (sub64 INITIAL_COMMITMENT_NUMBER revoke_num);
       match provide_secret secrets backwards_num old_secret with
       | Ok secrets' => put_es (set_closed_secrets es (channel_closed es) (Some secrets'))
       | Err _ =>
           lift_v (policy_err (policy v) "policy-commitment-previous-revoked"
                     "validate_counterparty_revocation" "counterparty secret does not chain")
       | Panic => lift Panic
       end
   | None => mret tt
   end);;
  self ← get_chan;
  next ← lift (add64 revoke_num 1);
  es' ← lift_v (set_next_counterparty_revoke_num v (enforcement_state self) next);
  put_es es';;
  persist env.

(** ** Closing *)

Definition sign_mutual_close_tx_phase2 env (to_holder to_counterparty : Z)
  (holder_script counterparty_script : option Script) (holder_wallet_path_hint : path)
  : M Signature :=
  self ← get_chan;
  lift_v (Validator.validate_mutual_close_tx (env_validator env) (env_wallet env) (setup self)
            (enforcement_state self) to_holder to_counterparty holder_script
            counterparty_script holder_wallet_path_hint);;
  let tx := {| to_holder_value_sat := to_holder; to_counterparty_value_sat := to_counterparty;
               to_holder_script := default [] holder_script;
               to_counterparty_script := default [] counterparty_script;
               closing_outpoint := funding_outpoint (setup self) |} in
  sig ← lift (ok_or (sign_closing_transaction (keys self) tx) (internal_error "failed to sign"));
  set_channel_closed;;
  persist env;;
  mret sig.

Definition sign_mutual_close_tx env (tx : Transaction) (opaths : list path) : M Signature :=
  self ← get_chan;
  lift (whenb (negb (length opaths =? length (output tx))%nat)
          (Err (invalid_argument "{}: bad opath len {} with tx.output len {}")));;
  recomposed_tx ← lift_v (Validator.decode_and_validate_mutual_close_tx (env_validator env)
    (env_wallet env) (setup self) (enforcement_state self) tx opaths);
  sig ← lift (ok_or (sign_closing_transaction (keys self) recomposed_tx)
                (internal_error "failed to sign"));
  set_channel_closed;;
  persist env;;
  mret sig.

(** ** Sweeps and second-level transactions *)

(** The message signed for an input of a sweep. *)
Definition sweep_sighash (tx : Transaction) (input : nat) (redeemscript : Script)
  (amount_sat : Z) : outcome Status bytes :=
  sighash ← unwrap (segwit_signature_hash tx input redeemscript amount_sat All);
  ok_or (message_from_slice sighash) (internal_error "failed to sighash").

Definition sign_delayed_sweep env (tx : Transaction) (input : nat) (commitment_number : Z)
  (redeemscript : Script) (amount_sat : Z) (wallet_path : path) : M Signature :=
  self ← get_chan;
  lift (whenb (length (Extern.input tx) <=? input)%nat
          (Err (invalid_argument "sign_delayed_sweep: bad input index: {} >= {}")));;
  point ← lift (get_per_commitment_point self commitment_number);
  lift_v (Validator.validate_delayed_sweep (env_validator env) (env_wallet env) (setup self)
            (env_chain_state env) tx input amount_sat wallet_path);;
  sighash ← lift (sweep_sighash tx input redeemscript amount_sat);
  let privkey := derive_private_key point (delayed_payment_base_key (keys self)) in
  let sig := sign_ecdsa sighash privkey in
  persist env;;
  mret sig.

Definition sign_counterparty_htlc_sweep env (tx : Transaction) (input : nat)
  (remote_point : PublicKey) (redeemscript : Script) (htlc_amount_sat : Z)
  (wallet_path : path) : M Signature :=
  self ← get_chan;
  lift (whenb (length (Extern.input tx) <=? input)%nat
          (Err (invalid_argument "sign_counterparty_htlc_sweep: bad input index: {} >= {}")));;
  lift_v (Validator.validate_counterparty_htlc_sweep (env_validator env) (env_wallet env)
            (setup self) (env_chain_state env) tx redeemscript input htlc_amount_sat
            wallet_path);;
  htlc_sighash ← lift (sweep_sighash tx input redeemscript htlc_amount_sat);
  let htlc_privkey := derive_private_key remote_point (htlc_base_key (keys self)) in
  let sig := sign_ecdsa htlc_sighash htlc_privkey in
  persist env;;
  mret sig.

Definition sign_justice_sweep env (tx : Transaction) (input : nat)
  (revocation_secret : SecretKey) (redeemscript : Script) (amount_sat : Z)
  (wallet_path : path) : M Signature :=
  self ← get_chan;
  lift (whenb (length (Extern.input tx) <=? input)%nat
          (Err (invalid_argument "sign_justice_sweep: bad input index: {} >= {}")));;
  lift_v (Validator.validate_justice_sweep (env_validator env) (env_wallet env) (setup self)
            (env_chain_state env) tx input amount_sat wallet_path);;
  sighash ← lift (sweep_sighash tx input redeemscript amount_sat);
  let privkey := derive_private_revocation_key revocation_secret
                   (revocation_base_key (keys self)) in
  let sig := sign_ecdsa sighash privkey in
  persist env;;
  mret sig.

(** [TypedSignature]: the signature and its sighash type. *)
Definition sign_htlc_tx env self (tx : Transaction) (point : PublicKey) (redeemscript : Script)
  (htlc_amount_sat : Z) (output_witscript : Script) (is_counterparty : bool)
  (txkeys : TxCreationKeys) : outcome Status (Signature * EcdsaSighashType) :=
  let v := env_validator env in
  '(feerate_per_kw, htlc, recomposed_tx_sighash, sighash_type) ←
    map_err status_from
      (Validator.decode_and_validate_htlc_tx v is_counterparty (setup self) txkeys tx
         redeemscript htlc_amount_sat output_witscript);
  map_err status_from
    (Validator.validate_htlc_tx v (setup self) (env_chain_state env) is_counterparty htlc
       feerate_per_kw);;
  let htlc_privkey := derive_private_key point (htlc_base_key (keys self)) in
  htlc_sighash ← ok_or (message_from_slice recomposed_tx_sighash)
                   (internal_error "failed to sighash recomposed");
  Ok (sign_ecdsa htlc_sighash htlc_privkey, sighash_type).

Definition sign_holder_htlc_tx env self (tx : Transaction) (commitment_number : Z)
  (opt_per_commitment_point : option PublicKey) (redeemscript : Script) (htlc_amount_sat : Z)
  (output_witscript : Script) : outcome Status (Signature * EcdsaSighashType) :=
  point ← match opt_per_commitment_point with
          | Some p => Ok p
          | None => get_per_commitment_point self commitment_number
          end;
  sign_htlc_tx env self tx point redeemscript htlc_amount_sat output_witscript false
    (make_holder_tx_keys self point).

Definition sign_counterparty_htlc_tx env self (tx : Transaction) (remote_point : PublicKey)
  (redeemscript : Script) (htlc_amount_sat : Z) (output_witscript : Script)
  : outcome Status (Signature * EcdsaSighashType) :=
  sign_htlc_tx env self tx remote_point redeemscript htlc_amount_sat output_witscript true
    (make_counterparty_tx_keys self remote_point).

Definition sign_channel_announcement_with_funding_key self (announcement : bytes)
  : outcome Status Signature :=
  encmsg ← unwrap (message_from_slice (sha256d announcement));
  Ok (sign_ecdsa encmsg (funding_key (keys self))).

(** ** Payments and balance *)

(** After a restart: the payments of the current commitments. *)
Definition restore_payments : M unit :=
  self ← get_chan;
  let es := enforcement_state self in
  incoming ← lift (incoming_payments_summary es None None);
  outgoing ← lift (payments_summary es None None);
  state ← get_node_state;
  let pays := foldl (fun (pays : gmap PaymentHash RoutedPayment) hash =>
      let payment := default RoutedPayment_new (pays !! hash) in
      <[hash := apply payment (id0 self) (summary_amount incoming hash)
                  (summary_amount outgoing hash)]> pays)
    (payments state) (summary_hashes incoming outgoing) in
  put_node_state (set_payments state pays (excess_amount state)).

Definition htlcs_fulfilled env (preimages : list PaymentPreimage) : M unit :=
  state ← get_node_state;
  state' ← lift (NodeState.htlcs_fulfilled state preimages (env_validator env));
  put_node_state state'.

Definition channel_balance : M ChannelBalance :=
  self ← get_chan;
  state ← get_node_state;
  lift (balance (enforcement_state self) (has_preimage state) (setup self)).
End ops.

(** ** Properties *)

Section claims.
Context `{L : Lib, Prof : Profile}.

(** A request to sign a counterparty commitment whose outputs exceed the
    value of an outbound channel is not answered with a policy error: the
    claimable balance of the requested commitment is computed, with an
    [expect] on the fee, before the commitment is validated, and the signer
    panics.  (On an inbound channel the same request is rejected by the
    validator.) *)
Theorem oversized_commitment_panics (env : Env) (s : ChanState) point n feerate
  (to_holder to_counterparty : Z) (off rec : list HTLCInfo2) info
  (Hv : Validator.validate_channel_value (env_validator env) (setup (chan s)) = Ok tt)
  (Hout : is_outbound (setup (chan s)) = true)
  (Hinfo : build_counterparty_commitment_info (chan s) point to_holder to_counterparty off rec
             feerate = Ok info)
  (Hcur : fits (channel_value_sat (setup (chan s)))
            (current_holder_commit_info (enforcement_state (chan s)))
          /\ fits (channel_value_sat (setup (chan s)))
            (current_counterparty_commit_info (enforcement_state (chan s))))
  (Hamt : amounts_nonneg info)
  (Hbig : channel_value_sat (setup (chan s)) < total info < 2 ^ 64) :
  sign_counterparty_commitment_tx_phase2 env point n feerate to_holder to_counterparty off rec s
  = (s, Panic).
Proof.
  unfold sign_counterparty_commitment_tx_phase2, mbind, M_bind, get_chan, lift_v, lift,
    get_node_state. rewrite Hv, Hinfo. cbn [map_err].
  unfold claimable_balances. cbn [opt_or]. destruct Hcur as [Hh Hc].
  rewrite (opt_claimable_exact (current_holder_commit_info _)) by done.
  rewrite (opt_claimable_exact (current_counterparty_commit_info _)) by done.
  cbn -[opt_claimable].
  unfold opt_claimable. rewrite Hout, claimable_panics by done. done.
Qed.
End claims.

(** ** An example channel *)

(** A release build. *)
Definition release : Profile := false.

Definition example_validator : @Validator example_lib :=
  @Simple.make_validator example_lib release None Testnet.

Definition example_wallet : Wallet := {|
  can_spend _ _ := Ok true; allowlist_contains_payee _ := false;
  allowlist_contains _ _ := Ok false; wallet_network := Testnet |}.

Definition example_env (persists : bool) : @Env example_lib :=
  @Build_Env example_lib example_validator example_wallet
    {| current_height := 100; funding_depth := 6; funding_double_spent_depth := 0;
       closing_depth := 0 |} persists.

Definition example_channel : @Channel example_lib :=
  @Build_Channel example_lib 1 (EnforcementState_new 999000) example_setup [5] None.

Definition example_start : @ChanState example_lib :=
  @Build_ChanState example_lib example_channel
    (NodeState_new example_control example_control) example_channel.

Lemma oversized_commitment_panics_witness :
  @sign_counterparty_commitment_tx_phase2 example_lib release (example_env true) [2; 7] 0 1000
    1000000 1 [] [] example_start = (example_start, Panic).
Proof.
  eapply (@oversized_commitment_panics example_lib release (example_env true) example_start);
    [done|done|reflexivity| | |by vm_compute].
  - split; by intros ? ?.
  - repeat split; repeat constructor; done.
Defined.
End Chan.
