(* ===== verification/ChannelSafety.v ===== *)
(** * Safety of a channel over its whole life

    The requests to a channel as one type, the history of what was signed and
    revealed, and the sequences of requests, failures and restarts a channel
    can go through.  The theorems are about every such sequence, for every
    validator that keeps the promises of [SafeValidator]. *)

From S2P Require Import Prelude Velocity Policy Order Extern Setup Tx Script.
From S2P Require Import Secrets Enforcement Validator NodeState ChannelOps.
From S2P Require Import SimpleValidator OnchainValidator.

Module Safety.
Import Chan.

(** ** Requests and what they reveal *)

Inductive Op :=
| SignCounterpartyPhase2 (point : PublicKey) (n feerate to_holder to_counterparty : Z)
    (offered received : list HTLCInfo2)
| SignCounterparty (tx : Transaction) (witscripts : list bytes) (point : PublicKey)
    (n feerate : Z) (offered received : list HTLCInfo2)
| ValidateHolderPhase2 (n feerate to_holder to_counterparty : Z)
    (offered received : list HTLCInfo2) (sig : Signature) (htlc_sigs : list Signature)
| ValidateHolder (tx : Transaction) (witscripts : list bytes) (n feerate : Z)
    (offered received : list HTLCInfo2) (sig : Signature) (htlc_sigs : list Signature)
| SignHolderPhase2 (n : Z)
| SignHolderRecovery
| SignHolderRedundant (n feerate to_holder to_counterparty : Z)
    (offered received : list HTLCInfo2)
| Revocation (n : Z) (secret : SecretKey)
| MutualClosePhase2 (to_holder to_counterparty : Z) (holder_script counterparty_script : option Script)
    (hint : path)
| MutualClose (tx : Transaction) (opaths : list path)
| DelayedSweep (tx : Transaction) (inp : nat) (n : Z) (redeemscript : Script) (amount : Z)
    (wallet_path : path)
| CounterpartyHtlcSweep (tx : Transaction) (inp : nat) (point : PublicKey)
    (redeemscript : Script) (amount : Z) (wallet_path : path)
| JusticeSweep (tx : Transaction) (inp : nat) (secret : SecretKey) (redeemscript : Script)
    (amount : Z) (wallet_path : path)
| GetPoint (n : Z)
| GetSecret (n : Z)
| HtlcsFulfilled (preimages : list PaymentPreimage)
| RestorePayments.

(** What leaves the signer: a signature on the holder's commitment [n], the
    secret that revokes it, a signature on the counterparty's commitment [n]
    with its point and contents; and the revocations it accepted. *)
Inductive Event :=
| EHolderSigned (n : Z)
| EReleased (n : Z)
| ECpSigned (n : Z) (point : PublicKey) (info : CommitmentInfo2)
| ECpRevoked (n : Z) (secret : SecretKey).

Section exec.
Context `{L : Lib, Prof : Profile}.

Definition released_by (n : Z) (res : PublicKey * option SecretKey) : list Event :=
  match res.2 with Some _ => [EReleased (n - 1)] | None => [] end.

(** Run a request and collect what it reveals. *)
Definition exec (env : Env) (op : Op) : M (list Event) :=
  self ← get_chan;
  match op with
  | SignCounterpartyPhase2 point n feerate to_holder to_counterparty off rec =>
      sign_counterparty_commitment_tx_phase2 env point n feerate to_holder to_counterparty
        off rec;;
      info ← lift (build_counterparty_commitment_info self point to_holder to_counterparty
                     off rec feerate);
      mret [ECpSigned n point info]
  | SignCounterparty tx witscripts point n feerate off rec =>
      sign_counterparty_commitment_tx env tx witscripts point n feerate off rec;;
      ci ← lift_v (Validator.decode_commitment_tx (env_validator env) (keys self) (setup self)
                     true tx witscripts);
      info ← lift (build_counterparty_commitment_info self point
                     (ci_to_countersigner_value_sat ci) (ci_to_broadcaster_value_sat ci)
                     off rec feerate);
      mret [ECpSigned n point info]
  | ValidateHolderPhase2 n feerate to_holder to_counterparty off rec sig htlc_sigs =>
      res ← validate_holder_commitment_tx_phase2 env n feerate to_holder to_counterparty off rec
              sig htlc_sigs;
      mret (released_by n res)
  | ValidateHolder tx witscripts n feerate off rec sig htlc_sigs =>
      res ← validate_holder_commitment_tx env tx witscripts n feerate off rec sig htlc_sigs;
      mret (released_by n res)
  | SignHolderPhase2 n => sign_holder_commitment_tx_phase2 env n;; mret [EHolderSigned n]
  | SignHolderRecovery =>
      sign_holder_commitment_tx_for_recovery env;;
      mret [EHolderSigned (next_holder_commit_num (enforcement_state self) - 1)]
  | SignHolderRedundant n feerate to_holder to_counterparty off rec =>
      sign_holder_commitment_tx_phase2_redundant env n feerate to_holder to_counterparty
        off rec;;
      mret [EHolderSigned n]
  | Revocation n secret => validate_counterparty_revocation env n secret;;
                           mret [ECpRevoked n secret]
  | MutualClosePhase2 to_holder to_counterparty hs cs hint =>
      sign_mutual_close_tx_phase2 env to_holder to_counterparty hs cs hint;; mret []
  | MutualClose tx opaths => sign_mutual_close_tx env tx opaths;; mret []
  | DelayedSweep tx inp n rs amount wp => sign_delayed_sweep env tx inp n rs amount wp;; mret []
  | CounterpartyHtlcSweep tx inp point rs amount wp =>
      sign_counterparty_htlc_sweep env tx inp point rs amount wp;; mret []
  | JusticeSweep tx inp secret rs amount wp =>
      sign_justice_sweep env tx inp secret rs amount wp;; mret []
  | GetPoint n => lift (get_per_commitment_point self n);; mret []
  | GetSecret n => lift (get_per_commitment_secret (env_validator env) self n);;
                   mret [EReleased n]
  | HtlcsFulfilled preimages => Chan.htlcs_fulfilled env preimages;; mret []
  | RestorePayments => restore_payments;; mret []
  end.

(** Requests whose numbers are in range: commitment numbers are 48 bits in the
    protocol; only the bounds that the arithmetic needs are asked for. *)
Definition op_ok (op : Op) : Prop :=
  match op with
  | SignCounterpartyPhase2 _ n _ _ _ _ _ | SignCounterparty _ _ _ n _ _ _
  | ValidateHolderPhase2 n _ _ _ _ _ _ _ | ValidateHolder _ _ n _ _ _ _ _
  | SignHolderPhase2 n | SignHolderRedundant n _ _ _ _ _ => 0 <= n < 2 ^ 63
  | Revocation n _ => 0 <= n < 2 ^ 48
  | GetSecret n => 0 <= n < 2 ^ 64 - 2
  | _ => True
  end.

(** ** Sequences of requests, failures and restarts *)

Notation World := (ChanState * list Event)%type.

(** The channel as the persister has it, with whatever payments the node had
    persisted. *)
Definition restart (s : ChanState) (ns : NodeState) : ChanState :=
  {| chan := persisted s; node_state := ns; persisted := persisted s |}.

Inductive step : World -> World -> Prop :=
(** a request that is answered, with success or with an error *)
| step_ok env op s s' h evs :
    SafeValidator (env_validator env) -> env_persists env = true -> op_ok op ->
    exec env op s = (s', Ok evs) -> step (s, h) (s', h ++ evs)
| step_err env op s s' h e :
    SafeValidator (env_validator env) -> env_persists env = true -> op_ok op ->
    exec env op s = (s', Err e) -> step (s, h) (s', h)
(** a request during which the signer stops, because of a panic or because the
    persister failed *)
| step_abort env op s s' h r ns :
    SafeValidator (env_validator env) -> op_ok op ->
    exec env op s = (s', r) -> is_ok r = false -> step (s, h) (restart s' ns, h)
(** a restart *)
| step_restart s h ns : step (s, h) (restart s ns, h).

(** A channel starts with a fresh enforcement state, persisted. *)
Definition initial (s : ChanState) : Prop :=
  persisted s = chan s
  /\ exists v, enforcement_state (chan s) = EnforcementState_new v.

Inductive reachable (s0 : ChanState) : World -> Prop :=
| reach_init : initial s0 -> reachable s0 (s0, [])
| reach_step w w' : reachable s0 w -> step w w' -> reachable s0 w'.
End exec.

(** ** Reasoning about the monad

    [wp m Q R s]: run from [s], [m] ends in a state with [Q] when it succeeds,
    and with [R] when it errs ([R false]) or panics ([R true]). *)

Section wp.
Context `{L : Lib}.

Definition wp {A} (m : M A) (Q : A -> ChanState -> Prop) (R : bool -> ChanState -> Prop)
  (s : ChanState) : Prop :=
  match m s with
  | (s', Ok a) => Q a s'
  | (s', Err _) => R false s'
  | (s', Panic) => R true s'
  end.

Context {A B : Type}.
Implicit Types (Q : A -> ChanState -> Prop) (R : bool -> ChanState -> Prop).

Lemma wp_ret a Q R s : Q a s -> wp (mret a) Q R s.
Proof. done. Qed.

Lemma wp_bind (m : M B) (f : B -> M A) Q R s :
  wp m (fun b => wp (f b) Q R) R s -> wp (m ≫= f) Q R s.
Proof.
  unfold wp, mbind, M_bind. destruct (m s) as [s' [b|e|]]; done.
Qed.

Lemma wp_lift (o : outcome Status A) Q R s :
  (forall a, o = Ok a -> Q a s) -> (forall b, R b s) -> wp (lift o) Q R s.
Proof. unfold wp, lift. destruct o; auto. Qed.

Lemma wp_lift_Ok a Q R s : Q a s -> wp (lift (Ok a)) Q R s.
Proof. done. Qed.

Lemma wp_lift_v (o : result A) Q R s :
  (forall a, o = Ok a -> Q a s) -> (forall b, R b s) -> wp (lift_v o) Q R s.
Proof. unfold lift_v. intros HQ HR. apply wp_lift; [|done]. intros a H. by inv_ok H; auto. Qed.

(** A computation that can panic but not err. *)
Lemma wp_lift_noerr (o : outcome Status A) Q R s :
  (forall e, o <> Err e) -> (forall a, o = Ok a -> Q a s) -> R true s -> wp (lift o) Q R s.
Proof. unfold wp, lift. destruct o; auto. intros H. by destruct (H e). Qed.

Lemma wp_mono (m : M A) Q Q' R R' s :
  wp m Q R s -> (forall a s', Q a s' -> Q' a s') -> (forall b s', R b s' -> R' b s') ->
  wp m Q' R' s.
Proof. unfold wp. destruct (m s) as [s' [a|e|]]; auto. Qed.
End wp.

Section wp_state.
Context `{L : Lib}.
Implicit Types (R : bool -> ChanState -> Prop).

Lemma wp_get_chan Q R s : Q (chan s) s -> wp get_chan Q R s.
Proof. done. Qed.

Lemma wp_get_node_state Q R s : Q (node_state s) s -> wp get_node_state Q R s.
Proof. done. Qed.

Lemma wp_put_es es Q R s :
  Q tt {| chan := with_es (chan s) es; node_state := node_state s; persisted := persisted s |} ->
  wp (put_es es) Q R s.
Proof. done. Qed.

Lemma wp_put_node_state n Q R s :
  Q tt {| chan := chan s; node_state := n; persisted := persisted s |} ->
  wp (put_node_state n) Q R s.
Proof. done. Qed.

Lemma wp_persist env Q R s :
  Q tt {| chan := chan s; node_state := node_state s; persisted := chan s |} ->
  (env_persists env = false -> R false s) -> wp (persist env) Q R s.
Proof. unfold wp, persist. destruct (env_persists env); auto. Qed.

Lemma wp_set_channel_closed Q R s :
  Q tt {| chan := with_es (chan s) (set_closed_secrets (enforcement_state (chan s)) true
                    (counterparty_secrets (enforcement_state (chan s))));
          node_state := node_state s; persisted := persisted s |} ->
  wp set_channel_closed Q R s.
Proof. done. Qed.
End wp_state.

(** Computations that do not err. *)
Definition noerr {E A} (m : outcome E A) : Prop := forall e, m <> Err e.

Section noerr.
Context {E : Type}.

Lemma noerr_Ok {A} (a : A) : noerr (E := E) (Ok a).
Proof. done. Qed.

Lemma noerr_unwrap {A} (o : option A) : noerr (E := E) (unwrap o).
Proof. by destruct o. Qed.

Lemma noerr_bind {A B} (m : outcome E A) (f : A -> outcome E B) :
  noerr m -> (forall a, noerr (f a)) -> noerr (m ≫= f).
Proof. intros Hm Hf e. destruct m; cbn; [apply Hf|by destruct (Hm e0)|done]. Qed.

Lemma noerr_foldM {A B} (f : A -> B -> outcome E A) acc l :
  (forall a b, noerr (f a b)) -> noerr (foldM f acc l).
Proof.
  intros Hf. revert acc. induction l as [|b l IH]; intros acc; cbn [foldM]; [done|].
  apply noerr_bind; auto.
Qed.

Lemma noerr_wrapping {P : Profile} w r : noerr (E := E) (wrapping w r).
Proof. unfold wrapping. by destruct (_ && _); [|destruct overflow_checks]. Qed.
End noerr.

#[export] Hint Resolve noerr_Ok noerr_unwrap noerr_bind noerr_foldM noerr_wrapping : vls.

(** Decompose a goal [noerr m]. *)
Ltac noerr :=
  repeat match goal with
  | |- noerr (_ ≫= _) => apply noerr_bind; [|intros]
  | |- noerr (foldM _ _ _) => apply noerr_foldM; intros
  | |- noerr (let '(_, _) := ?x in _) => destruct x
  | |- noerr (match ?x with _ => _ end) => destruct x
  | |- noerr (sum64 _) => unfold sum64
  | |- noerr (add64 _ _) => apply noerr_wrapping
  | |- noerr (mul64 _ _) => apply noerr_wrapping
  | |- noerr (unwrap _) => apply noerr_unwrap
  | |- noerr (Ok _) => apply noerr_Ok
  | |- noerr ((fun _ => _) _) => cbv beta
  end.

Lemma apply_payments_noerr `{Lib, Profile} {E} ns id inc out delta v :
  noerr (E := E) (apply_payments ns id inc out delta v).
Proof.
  unfold apply_payments, apply_preflight, preflight_step, updated_incoming_outgoing. noerr.
Qed.

(** ** The invariant *)

Section invariant.
Context `{L : Lib, Prof : Profile}.
Implicit Types (h : list Event) (es : EnforcementState) (c : Channel).

(** The secrets of the first [k] commitments of the counterparty are in the
    store, and each is the secret of the point that was signed with. *)
Definition store_ok h (k : Z) (st : CounterpartyCommitmentSecrets) : Prop :=
  exists prov, inv prov (2 ^ 48 - k) (old_secrets st)
    /\ forall n p i, 0 <= n < k -> ECpSigned n p i ∈ h ->
         pubkey_from_secret_key (prov (2 ^ 48 - 1 - n)) = p.

(** The holder's numbers: what was signed is current and stays so, what was
    revealed is old. *)
Record holder_inv h es : Prop := {
  hi_range : 0 <= next_holder_commit_num es <= 2 ^ 63;
  hi_signed n : EHolderSigned n ∈ h ->
    channel_closed es = true /\ next_holder_commit_num es <= n + 1;
  hi_released n : EReleased n ∈ h -> n + 2 <= next_holder_commit_num es
}.

(** The counterparty's numbers: signed commitments are unique and at most two
    are not revoked. *)
Record cp_inv h es : Prop := {
  cp_range : 0 <= next_counterparty_commit_num es <= 2 ^ 63
             /\ 0 <= next_counterparty_revoke_num es <= 2 ^ 48;
  cp_numbers : next_counterparty_commit_num es = 0 /\ next_counterparty_revoke_num es = 0
    \/ next_counterparty_revoke_num es + 1 <= next_counterparty_commit_num es
       <= next_counterparty_revoke_num es + 2;
  cp_current n p i : ECpSigned n p i ∈ h ->
    0 <= n < next_counterparty_commit_num es
    /\ (n + 1 = next_counterparty_commit_num es ->
        current_counterparty_point es = Some p
        /\ current_counterparty_commit_info es = Some i)
    /\ (n + 2 = next_counterparty_commit_num es -> previous_counterparty_point es = Some p);
  cp_all n : 0 <= n < next_counterparty_commit_num es -> exists p i, ECpSigned n p i ∈ h;
  cp_unique n p i p' i' : ECpSigned n p i ∈ h -> ECpSigned n p' i' ∈ h -> p = p' /\ i = i';
  cp_revoked n s : ECpRevoked n s ∈ h ->
    0 <= n < next_counterparty_revoke_num es
    /\ exists i, ECpSigned n (pubkey_from_secret_key s) i ∈ h;
  cp_all_revoked n : 0 <= n < next_counterparty_revoke_num es ->
    exists s, ECpRevoked n s ∈ h;
  cp_store : exists st k, counterparty_secrets es = Some st /\ store_ok h k st
    /\ (k = next_counterparty_revoke_num es \/ k = next_counterparty_revoke_num es + 1)
    /\ k <= next_counterparty_commit_num es /\ k <= 2 ^ 48
}.

Definition chan_inv h c : Prop :=
  holder_inv h (enforcement_state c) /\ cp_inv h (enforcement_state c).

(** A channel without the revealed secrets. *)
Definition erase c : Channel :=
  with_es c (set_closed_secrets (enforcement_state c) (channel_closed (enforcement_state c)) None).

(** The channel and its persisted copy satisfy the invariant and agree on
    everything but the revealed secrets. *)
Definition J h (s : ChanState) : Prop :=
  chan_inv h (chan s) /\ chan_inv h (persisted s) /\ erase (chan s) = erase (persisted s).

(** *** Events of one kind do not matter to the other side *)

Definition holder_event (e : Event) : bool :=
  match e with EHolderSigned _ | EReleased _ => true | _ => false end.

Lemma cp_inv_app h es evs : Forall (fun e => holder_event e = true) evs ->
  cp_inv h es -> cp_inv (h ++ evs) es.
Proof.
  intros Hev [].
  assert (Hin : forall e, holder_event e = false -> e ∈ h ++ evs <-> e ∈ h).
  { intros e He. rewrite elem_of_app. split; [|auto]. intros [|Hx]; [done|].
    rewrite Forall_forall in Hev. specialize (Hev _ Hx). congruence. }
  split; try done.
  - intros n p i Hx. apply Hin in Hx; [auto|done].
  - intros n Hn. destruct (cp_all0 n Hn) as (p & i & Hx). exists p, i. by apply Hin.
  - intros n p i p' i' H1 H2. apply Hin in H1; [|done]. apply Hin in H2; [|done]. eauto.
  - intros n s Hx. apply Hin in Hx; [|done]. destruct (cp_revoked0 _ _ Hx) as (? & i & ?).
    split; [done|]. exists i. by apply Hin.
  - intros n Hn. destruct (cp_all_revoked0 n Hn) as (s & Hx). exists s. by apply Hin.
  - destruct cp_store0 as (st & k & Hst & (prov & Hi & Hp) & Hk). exists st, k.
    split; [done|]. split; [|done]. exists prov. split; [done|].
    intros n p i Hn Hx. apply Hin in Hx; [|done]. eauto.
Qed.

Lemma holder_inv_app h es evs : Forall (fun e => holder_event e = false) evs ->
  holder_inv h es -> holder_inv (h ++ evs) es.
Proof.
  intros Hev []. rewrite Forall_forall in Hev.
  split; try done; intros n [Hx|Hx]%elem_of_app; auto; by specialize (Hev _ Hx).
Qed.

(** *** Transitions of the holder's side *)

Lemma holder_inv_advance h es n info sigs evs :
  holder_inv h es -> 0 <= n < 2 ^ 63 ->
  (n + 1 = next_holder_commit_num es \/ n + 1 = next_holder_commit_num es + 1) ->
  (n = next_holder_commit_num es -> channel_closed es = false) ->
  (forall e, e ∈ evs -> e = EReleased (n - 1)) ->
  holder_inv (h ++ evs) (set_holder es (n + 1) info sigs).
Proof.
  intros [] Hn Hnext Hclosed Hevs. split; cbn; [lia|..]; intros m [Hm|Hm]%elem_of_app;
    try (apply Hevs in Hm; simplify_eq; lia).
  - destruct (hi_signed0 m Hm) as [Hc Hle]. split; [done|].
    destruct Hnext; [lia|]. rewrite Hclosed in Hc by lia. done.
  - specialize (hi_released0 m Hm). lia.
Qed.

Lemma holder_inv_close h es evs secs :
  holder_inv h es ->
  (forall e, e ∈ evs -> exists n, e = EHolderSigned n /\ next_holder_commit_num es <= n + 1) ->
  holder_inv (h ++ evs) (set_closed_secrets es true secs).
Proof.
  intros [] Hevs. split; cbn; [done|..]; intros m [Hm|Hm]%elem_of_app.
  - destruct (hi_signed0 m Hm); auto.
  - apply Hevs in Hm as (n & ? & ?). simplify_eq. auto.
  - auto.
  - apply Hevs in Hm as (n & ? & ?). simplify_eq.
Qed.

Lemma holder_inv_release h es n :
  holder_inv h es -> n + 2 <= next_holder_commit_num es -> holder_inv (h ++ [EReleased n]) es.
Proof.
  intros [] Hn. split; [done|..]; intros m [Hm|Hm]%elem_of_app; auto;
    apply list_elem_of_singleton in Hm; simplify_eq; done.
Qed.

Lemma holder_inv_ext h es es' :
  next_holder_commit_num es' = next_holder_commit_num es ->
  channel_closed es' = channel_closed es -> holder_inv h es -> holder_inv h es'.
Proof. intros Hn Hc []. split; rewrite ?Hn, ?Hc; auto. Qed.

(** *** Transitions of the counterparty's side *)

Lemma cp_inv_set_holder h es n info sigs : cp_inv h es -> cp_inv h (set_holder es n info sigs).
Proof. by intros []; split. Qed.

Lemma cp_inv_close h es :
  cp_inv h es -> cp_inv h (set_closed_secrets es true (counterparty_secrets es)).
Proof. by intros []; split. Qed.

Lemma elem_of_snoc {A} (x y : A) l : x ∈ l ++ [y] <-> x ∈ l \/ x = y.
Proof. by rewrite elem_of_app, list_elem_of_singleton. Qed.

(** A signature for the current commitment again. *)
Lemma cp_inv_retry h es n p i :
  cp_inv h es -> 0 <= n -> n + 1 = next_counterparty_commit_num es ->
  current_counterparty_point es = Some p -> current_counterparty_commit_info es = Some i ->
  cp_inv (h ++ [ECpSigned n p i]) es.
Proof.
  intros Hinv Hn0 Hn Hp Hi. pose proof Hinv as [].
  assert (Hin : ECpSigned n p i ∈ h).
  { destruct (cp_all0 n) as (p' & i' & Hx); [lia|].
    destruct (cp_current0 _ _ _ Hx) as (_ & Hcur & _). destruct (Hcur Hn). by simplify_eq. }
  assert (Hiff : forall e, e ∈ h ++ [ECpSigned n p i] <-> e ∈ h)
    by (intros e; rewrite elem_of_snoc; naive_solver).
  split; try done.
  - intros ? ? ? Hx%Hiff. auto.
  - intros m Hm. destruct (cp_all0 m Hm) as (p' & i' & Hx). exists p', i'. by apply Hiff.
  - intros ? ? ? ? ? H1%Hiff H2%Hiff. eauto.
  - intros m s Hx%Hiff. destruct (cp_revoked0 _ _ Hx) as (? & i' & ?).
    split; [done|]. exists i'. by apply Hiff.
  - intros m Hm. destruct (cp_all_revoked0 m Hm) as (s & Hx). exists s. by apply Hiff.
  - destruct cp_store0 as (st & k & Hst & (prov & Hi' & Hp') & Hk). exists st, k.
    split; [done|]. split; [|done]. exists prov. split; [done|].
    intros m q j Hm Hx%Hiff. eauto.
Qed.

(** A signature for the next commitment. *)
Lemma cp_inv_sign h es n p i :
  cp_inv h es -> n = next_counterparty_commit_num es -> n < 2 ^ 63 ->
  (n = 0 /\ next_counterparty_revoke_num es = 0 \/ n = next_counterparty_revoke_num es + 1) ->
  cp_inv (h ++ [ECpSigned n p i])
    (set_counterparty es (n + 1) (next_counterparty_revoke_num es) (Some p)
       (current_counterparty_point es) (Some i) (current_counterparty_commit_info es)).
Proof.
  intros [[Hc Hr]] Hn Hlt Hrev.
  assert (Hne : forall m q j, ECpSigned m q j ∈ h -> m < n)
    by (intros m q j Hx; apply cp_current0 in Hx; lia).
  split; cbn; try lia.
  - intros m q j [Hx|Hx]%elem_of_snoc; [|simplify_eq; split; [lia|]; split; [done|lia]].
    destruct (cp_current0 _ _ _ Hx) as (? & Hcur & _). split; [lia|]. split; [lia|].
    intros. by apply Hcur; lia.
  - intros m Hm. destruct (decide (m = n)) as [->|].
    + exists p, i. apply elem_of_snoc. auto.
    + destruct (cp_all0 m) as (q & j & Hx); [lia|]. exists q, j. apply elem_of_snoc. auto.
  - intros m q j q' j' [H1|H1]%elem_of_snoc [H2|H2]%elem_of_snoc; simplify_eq; try done.
    + eauto.
    + apply Hne in H1. lia.
    + apply Hne in H2. lia.
  - intros m s [Hx|Hx]%elem_of_snoc; [|done]. destruct (cp_revoked0 _ _ Hx) as (? & j & ?).
    split; [done|]. exists j. apply elem_of_snoc. auto.
  - intros m Hm. destruct (cp_all_revoked0 m Hm) as (s & Hx). exists s. apply elem_of_snoc. auto.
  - destruct cp_store0 as (st & k & Hst & (prov & Hi' & Hp') & Hk & Hkc & Hk48). exists st, k.
    split; [done|]. split; [|lia]. exists prov. split; [done|].
    intros m q j Hm [Hx|Hx]%elem_of_snoc; [eauto|]. simplify_eq. lia.
Qed.

(** *** Revocations *)

Lemma inv_ext prov prov' N l :
  (forall idx, N <= idx < 2 ^ 48 -> prov idx = prov' idx) -> inv prov N l -> inv prov' N l.
Proof.
  intros Heq []. split; [done..|]. intros i s K idx Hl Hidx Hhi.
  rewrite <- Heq by done. eauto.
Qed.

(** A secret that was already provided changes nothing. *)
Lemma provide_seen prov N st idx s st' :
  0 <= N <= 2 ^ 48 -> inv prov N (old_secrets st) -> N <= idx ->
  provide_secret st idx s = Ok st' -> st' = st.
Proof.
  intros HN Hinv Hidx H. unfold provide_secret in H. inv_ok H.
  rewrite (min_seen_inv prov N) in H by done. rewrite (proj2 (Z.leb_le _ _)) in H by done.
  by injection H.
Qed.

(** The point that commitment [n] was signed with is that of the secret [s]. *)
Definition matches es (n : Z) (s : SecretKey) : Prop :=
  n + 1 = next_counterparty_commit_num es
    /\ current_counterparty_point es = Some (pubkey_from_secret_key s)
  \/ n + 2 = next_counterparty_commit_num es
    /\ previous_counterparty_point es = Some (pubkey_from_secret_key s).

Lemma matches_signed h es n s p i :
  cp_inv h es -> matches es n s -> ECpSigned n p i ∈ h -> pubkey_from_secret_key s = p.
Proof.
  intros [] Hm Hx. destruct (cp_current0 _ _ _ Hx) as (_ & Hcur & Hprev).
  destruct Hm as [[Hn Hp]|[Hn Hp]]; [destruct (Hcur Hn)|specialize (Hprev Hn)]; congruence.
Qed.

Lemma store_provide h es n s st st' :
  cp_inv h es -> counterparty_secrets es = Some st -> 0 <= n < 2 ^ 48 ->
  (n = next_counterparty_revoke_num es \/ n + 1 = next_counterparty_revoke_num es) ->
  matches es n s -> provide_secret st (2 ^ 48 - 1 - n) s = Ok st' ->
  exists k, store_ok h k st'
    /\ (k = next_counterparty_revoke_num es \/ k = next_counterparty_revoke_num es + 1)
    /\ n + 1 <= k <= next_counterparty_commit_num es /\ k <= 2 ^ 48.
Proof.
  intros Hinv Hst Hn Hrev Hm Hprov. pose proof Hinv as [[? Hr]].
  destruct cp_store0 as (st0 & k & Hst0 & (prov & Hi & Hp) & Hk & Hkc & Hk48).
  rewrite Hst in Hst0. injection Hst0 as <-. destruct (decide (n < k)) as [Hlt|Hge].
  - apply (provide_seen prov (2 ^ 48 - k)) in Hprov as ->; [|lia|done|lia].
    exists k. split; [by exists prov|lia].
  - assert (n = k) as -> by lia. exists (k + 1).
    split; [|unfold matches in Hm; lia].
    exists (fun idx => if idx =? 2 ^ 48 - 1 - k then s else prov idx). split.
    + replace (2 ^ 48 - (k + 1)) with (2 ^ 48 - 1 - k) by lia.
      apply (inv_step _ _ st); [lia| |by rewrite Z.eqb_refl].
      apply (inv_ext prov); [|by replace (2 ^ 48 - 1 - k + 1) with (2 ^ 48 - k) by lia].
      intros idx Hidx. by rewrite (proj2 (Z.eqb_neq _ _)) by lia.
    + intros m q j Hmk Hx. destruct (decide (m = k)) as [->|].
      * rewrite Z.eqb_refl. by eapply matches_signed.
      * rewrite (proj2 (Z.eqb_neq _ _)) by lia. apply (Hp m q j); [lia|done].
Qed.

(** The secret is stored but the revocation fails. *)
Lemma cp_inv_secret h es k st' :
  cp_inv h es -> store_ok h k st' ->
  (k = next_counterparty_revoke_num es \/ k = next_counterparty_revoke_num es + 1) ->
  k <= next_counterparty_commit_num es -> k <= 2 ^ 48 ->
  cp_inv h (set_closed_secrets es (channel_closed es) (Some st')).
Proof. intros [] Hs Hk Hkc Hk48. split; try done. cbn. eauto 8. Qed.

Lemma cp_inv_revoke h es n s k st' prev :
  cp_inv h es -> store_ok h k st' -> 0 <= n < 2 ^ 48 ->
  (n = next_counterparty_revoke_num es \/ n + 1 = next_counterparty_revoke_num es) ->
  (k = next_counterparty_revoke_num es \/ k = next_counterparty_revoke_num es + 1) ->
  n + 1 <= k <= next_counterparty_commit_num es -> k <= 2 ^ 48 ->
  n + 2 <= next_counterparty_commit_num es <= n + 3 -> matches es n s ->
  cp_inv (h ++ [ECpRevoked n s])
    (set_counterparty (set_closed_secrets es (channel_closed es) (Some st'))
       (next_counterparty_commit_num es) (n + 1) (current_counterparty_point es)
       (previous_counterparty_point es) (current_counterparty_commit_info es) prev).
Proof.
  intros Hinv Hs Hn Hrev Hk Hkc Hk48 Hc Hm. pose proof Hinv as [].
  assert (Hsig : forall m p i, ECpSigned m p i ∈ h ++ [ECpRevoked n s] <-> ECpSigned m p i ∈ h)
    by (intros; rewrite elem_of_snoc; naive_solver).
  split; cbn; try lia.
  - intros m p i Hx%Hsig. auto.
  - intros m Hx. destruct (cp_all0 m Hx) as (p & i & ?). exists p, i. by apply Hsig.
  - intros m p i p' i' H1%Hsig H2%Hsig. eauto.
  - intros m s' [Hx|Hx]%elem_of_snoc.
    + destruct (cp_revoked0 _ _ Hx) as (? & i & ?). split; [lia|]. exists i. by apply Hsig.
    + injection Hx as -> ->. split; [lia|]. destruct (cp_all0 n) as (p & i & Hx); [lia|].
      exists i. rewrite (matches_signed h es n s p i) by done. by apply Hsig.
  - intros m Hx. destruct (decide (m = n)) as [->|]; [exists s; apply elem_of_snoc; auto|].
    destruct (cp_all_revoked0 m) as (s' & ?); [lia|]. exists s'. apply elem_of_snoc. auto.
  - destruct Hs as (prov & Hi & Hp). exists st', k. split; [done|]. split; [|lia].
    exists prov. split; [done|]. intros m p i Hx Hy%Hsig. eauto.
Qed.

(** *** Starting and restarting *)

Lemma chan_inv_initial c v : enforcement_state c = EnforcementState_new v -> chan_inv [] c.
Proof.
  unfold chan_inv. intros ->. split; split; cbn; try (intros; exfalso; by eapply not_elem_of_nil);
    try lia.
  exists secrets_new, 0. split; [done|]. split; [|lia]. exists (fun _ => []).
  split; [apply inv_new|]. lia.
Qed.

Lemma J_restart h s ns : J h s -> J h (restart s ns).
Proof. by intros (_ & Hp & _). Qed.

Lemma J_persisted h c ns : chan_inv h c -> J h {| chan := c; node_state := ns; persisted := c |}.
Proof. by intros H. Qed.

(** *** The operations' changes to the enforcement state *)

Lemma chan_inv_sign h c v n p info setup cstate next es' `{!SafeValidator v} :
  chan_inv h c -> 0 <= n < 2 ^ 63 ->
  Validator.validate_counterparty_commitment_tx v (enforcement_state c) n p setup cstate info
    = Ok tt ->
  add64 (E := Status) n 1 = Ok next ->
  set_next_counterparty_commit_num v (enforcement_state c) next p info = Ok es' ->
  chan_inv (h ++ [ECpSigned n p info]) (with_es c es').
Proof.
  intros [Hh Hc] Hn Hval Hnext Hset. rewrite add64_in in Hnext by lia. injection Hnext as <-.
  pose proof Hc as [[Hr1 Hr2] Hnum _ _ _ _ _ _].
  apply sv_counterparty in Hval as [Hle Hretry]; [|unfold num_ok; lia..].
  apply set_next_counterparty_commit_spec in Hset as [Hrev [(Hcn & Hp & ->)|[Hcn ->]]];
    [| |apply _|unfold num_ok; lia..|lia].
  - destruct (Hretry Hcn) as [_ Hi]. split; cbn.
    + apply holder_inv_app; [by repeat constructor|done].
    + apply cp_inv_retry; (done || lia).
  - split; cbn.
    + apply holder_inv_app; [by repeat constructor|]. by apply (holder_inv_ext _ (enforcement_state c)).
    + apply cp_inv_sign; (done || lia).
Qed.

Lemma chan_inv_advance h c v n p info setup cstate sigs next es' evs `{!SafeValidator v} :
  chan_inv h c -> 0 <= n < 2 ^ 63 ->
  Validator.validate_holder_commitment_tx v (enforcement_state c) n p setup cstate info = Ok tt ->
  add64 (E := Status) n 1 = Ok next ->
  set_next_holder_commit_num v (enforcement_state c) next info sigs = Ok es' ->
  (forall e, e ∈ evs -> e = EReleased (n - 1)) ->
  chan_inv (h ++ evs) (with_es c es').
Proof.
  intros [Hh Hc] Hn Hval Hnext Hset Hevs. rewrite add64_in in Hnext by lia. injection Hnext as <-.
  pose proof Hh as [Hr _ _].
  apply sv_holder in Hval as (_ & _ & Hclosed); [|unfold num_ok; lia].
  apply set_next_holder_spec in Hset as [Hcase ->]; [|apply _|unfold num_ok; lia].
  split; cbn.
  - by apply holder_inv_advance.
  - apply cp_inv_app; [|by apply cp_inv_set_holder].
    apply Forall_forall. intros e He%Hevs. by subst.
Qed.

Lemma chan_inv_close h c evs :
  chan_inv h c ->
  (forall e, e ∈ evs -> exists n, e = EHolderSigned n
     /\ next_holder_commit_num (enforcement_state c) <= n + 1) ->
  chan_inv (h ++ evs) (with_es c (set_closed_secrets (enforcement_state c) true
                         (counterparty_secrets (enforcement_state c)))).
Proof.
  intros [Hh Hc] Hevs. split; cbn; [by apply holder_inv_close|].
  apply cp_inv_app; [|by apply cp_inv_close].
  apply Forall_forall. intros e (n & -> & _)%Hevs. done.
Qed.

(** *** Operations *)

(** What holds when a request fails: nothing was persisted, and the invariant
    is kept unless the signer stops. *)
Definition failed h (env : Env) (s : ChanState) (panic : bool) (s' : ChanState) : Prop :=
  persisted s' = persisted s
  /\ (panic = false -> env_persists env = true -> J h s').

Lemma failed_same h env s b : J h s -> failed h env s b s.
Proof. by split. Qed.

Lemma failed_panic h env s s' : persisted s' = persisted s -> failed h env s true s'.
Proof. by split. Qed.

Lemma failed_persist h env s s' :
  persisted s' = persisted s -> env_persists env = false -> failed h env s false s'.
Proof. intros ? Hp. split; [done|]. by rewrite Hp. Qed.

End invariant.

Create HintDb wp_failed discriminated.
#[export] Hint Resolve failed_same failed_panic failed_persist : wp_failed.

(** Run the steps of an operation; where a step can fail, the condition for a
    failure in the current state is looked up in [wp_failed]. *)
Ltac wp_fails := solve [intros; eauto with wp_failed].
Ltac wp1 :=
  lazymatch goal with
  | |- wp (mbind _ _) _ _ _ => apply wp_bind
  | |- wp (mret _) _ _ _ => apply wp_ret
  | |- wp get_chan _ _ _ => apply wp_get_chan
  | |- wp get_node_state _ _ _ => apply wp_get_node_state
  | |- wp (lift (Ok _)) _ _ _ => apply wp_lift_Ok
  | H : ?o = Ok _ |- wp (lift ?o) _ _ _ => rewrite H; apply wp_lift_Ok
  | H : ?o = Ok _ |- wp (lift_v ?o) _ _ _ => rewrite H; apply wp_lift_Ok
  | |- wp (lift_v _) _ _ _ => apply wp_lift_v; [intros ? ?|wp_fails]
  | |- wp (lift (apply_payments _ _ _ _ _ _)) _ _ _ =>
      apply wp_lift_noerr; [apply apply_payments_noerr|intros ? _|wp_fails]
  | |- wp (lift _) _ _ _ => apply wp_lift; [intros ? ?|wp_fails]
  | |- wp (put_node_state _) _ _ _ => apply wp_put_node_state
  | |- wp (put_es _) _ _ _ => apply wp_put_es
  | |- wp set_channel_closed _ _ _ => apply wp_set_channel_closed
  | |- wp (persist _) _ _ _ => apply wp_persist; [|wp_fails]
  | |- wp (match ?x with _ => _ end) _ _ _ => destruct x eqn:?
  end; cbv beta zeta; cbn [chan node_state persisted].
Ltac wps := repeat wp1.

(** [TxCreationKeys::derive_new] keeps the point it derives from. *)
Class KeysLaws `{Lib} : Prop :=
  derive_new_point p a b c d : per_commitment_point (derive_new p a b c d) = p.

Section preserved.
Context `{L : Lib, Prof : Profile, HK : !KeysLaws}.
Context (env : Env) `{HV : !SafeValidator (env_validator env)}.
Context (h : list Event) (s : ChanState) (HJ : J h s).

Notation holds m := (wp m (fun evs s' => J (h ++ evs) s') (failed h env s) s).

Lemma sign_counterparty_phase2_holds point n feerate th tc off rec :
  0 <= n < 2 ^ 63 -> holds (exec env (SignCounterpartyPhase2 point n feerate th tc off rec)).
Proof.
  intros Hn. unfold exec, sign_counterparty_commitment_tx_phase2. wps. apply J_persisted.
  match goal with H : Validator.validate_counterparty_commitment_tx _ _ _ _ _ _ _ = Ok ?u |- _ =>
    destruct u end.
  eapply chan_inv_sign; [done|apply HJ|done..].
Qed.

Lemma sub64_twice a n x y : 0 <= n < 2 ^ 64 -> sub64 (E := Status) a n = Ok x ->
  sub64 (E := Status) a x = Ok y -> y = n.
Proof.
  intros Hn H1 H2.
  assert (Hmod : forall r z, wrapping (E := Status) 64 r = Ok z -> z = r mod 2 ^ 64).
  { intros r z H. unfold wrapping in H. destruct ((0 <=? r) && (r <? 2 ^ 64)) eqn:Hr.
    - injection H as <-. b2p. by rewrite Z.mod_small by lia.
    - destruct overflow_checks; [done|]. by injection H. }
  apply Hmod in H1, H2. subst. rewrite Zminus_mod_idemp_r.
  replace (a - (a - n)) with n by lia. by apply Z.mod_small.
Qed.

Lemma sign_counterparty_holds tx ws point n feerate off rec :
  0 <= n < 2 ^ 63 -> holds (exec env (SignCounterparty tx ws point n feerate off rec)).
Proof.
  intros Hn. unfold exec, sign_counterparty_commitment_tx. wps. apply J_persisted.
  match goal with H : make_counterparty_commitment_tx _ _ _ _ _ _ _ = Ok _ |- _ =>
    unfold make_counterparty_commitment_tx, make_counterparty_commitment_tx_with_keys,
      make_counterparty_tx_keys, make_tx_keys in H; inv_ok H end.
  cbn [ct_commitment_number ct_keys] in *. rewrite derive_new_point in *.
  match goal with H : sub64 _ n = Ok _, H' : sub64 _ _ = Ok ?m |- _ =>
    apply (sub64_twice _ n) in H'; [|lia|done]; subst m end.
  match goal with H : Validator.validate_counterparty_commitment_tx _ _ _ _ _ _ _ = Ok ?u |- _ =>
    destruct u end.
  eapply chan_inv_sign; [done|apply HJ|done..].
Qed.

(** The common end of the two validation requests. *)
Lemma finish_holds n feerate point txkeys rtx info delta incoming sig htlc_sigs :
  0 <= n < 2 ^ 63 ->
  Validator.validate_holder_commitment_tx (env_validator env) (enforcement_state (chan s)) n point
    (setup (chan s)) (env_chain_state env) info = Ok tt ->
  wp (finish_holder_commitment env n feerate point txkeys rtx info delta incoming sig htlc_sigs)
    (fun res s' => J (h ++ released_by n res) s') (failed h env s) s.
Proof.
  intros Hn Hval. unfold finish_holder_commitment, advance_holder_commitment_state. wps.
  apply wp_lift_noerr; [|intros pt _|by apply failed_panic].
  { intros e. destruct (add64 n 1) as [m|?|] eqn:Hm; cbn; [|by apply noerr_wrapping in Hm|done].
    by destruct (get_per_commitment_point _ _). }
  wps. apply wp_lift_noerr; [|intros sec Hsec|by apply failed_panic].
  { intros e. destruct (1 <=? n); [|done].
    destruct (sub64 n 1) as [m|?|] eqn:Hm; cbn; [|by apply noerr_wrapping in Hm|done].
    by destruct (get_per_commitment_secret _ _ _). }
  wps. apply J_persisted. eapply chan_inv_advance; [done|apply HJ|done..|].
  intros e. unfold released_by. cbn. destruct sec; [|by intros ?%elem_of_nil].
  by intros ?%list_elem_of_singleton.
Qed.

Lemma validate_holder_phase2_holds n feerate th tc off rec sig htlc_sigs :
  0 <= n < 2 ^ 63 -> holds (exec env (ValidateHolderPhase2 n feerate th tc off rec sig htlc_sigs)).
Proof.
  intros Hn. unfold exec, validate_holder_commitment_tx_phase2. wps.
  match goal with H : Validator.validate_holder_commitment_tx _ _ _ _ _ _ _ = Ok ?u |- _ =>
    destruct u end.
  eapply wp_mono; [by apply finish_holds| |done]. intros res s' ?. by wps.
Qed.

Lemma validate_holder_holds tx ws n feerate off rec sig htlc_sigs :
  0 <= n < 2 ^ 63 -> holds (exec env (ValidateHolder tx ws n feerate off rec sig htlc_sigs)).
Proof.
  intros Hn. unfold exec, validate_holder_commitment_tx. wps.
  eapply wp_mono; [apply finish_holds; [done|]| |done]; [|intros res s' ?; by wps].
  match goal with H : make_validated_recomposed_holder_commitment_tx _ _ _ _ _ _ _ _ _ _ = Ok _ |- _ =>
    unfold make_validated_recomposed_holder_commitment_tx in H; inv_ok H end.
  match goal with H : Validator.validate_holder_commitment_tx _ _ _ _ _ _ _ = Ok ?u |- _ =>
    destruct u end. done.
Qed.

(** Signing the holder's commitment [n] and closing. *)
Lemma close_signed n ns :
  next_holder_commit_num (enforcement_state (chan s)) <= n + 1 ->
  let c := with_es (chan s) (set_closed_secrets (enforcement_state (chan s)) true
             (counterparty_secrets (enforcement_state (chan s)))) in
  J (h ++ [EHolderSigned n]) {| chan := c; node_state := ns; persisted := c |}.
Proof.
  intros Hn c. apply J_persisted, chan_inv_close; [apply HJ|].
  intros e ->%list_elem_of_singleton. eauto.
Qed.

Lemma sign_holder_phase2_holds n :
  0 <= n < 2 ^ 63 -> holds (exec env (SignHolderPhase2 n)).
Proof.
  intros Hn. unfold exec, sign_holder_commitment_tx_phase2. wps. apply close_signed.
  match goal with H : get_current_holder_commitment_info _ _ _ = Ok _ |- _ =>
    unfold get_current_holder_commitment_info in H; rewrite add64_in in H by lia; inv_ok H end.
  strict_ok (sv_strict (v := env_validator env)). b2p. lia.
Qed.

Lemma sign_holder_recovery_holds : holds (exec env SignHolderRecovery).
Proof.
  unfold exec, sign_holder_commitment_tx_for_recovery. wps.
  unfold get_unilateral_close_key. wps.
  apply close_signed. lia.
Qed.

Lemma sign_holder_redundant_holds n feerate th tc off rec :
  0 <= n < 2 ^ 63 -> holds (exec env (SignHolderRedundant n feerate th tc off rec)).
Proof.
  intros Hn. unfold exec, sign_holder_commitment_tx_phase2_redundant. wps. apply close_signed.
  match goal with H : Validator.validate_holder_commitment_tx _ _ _ _ _ _ _ = Ok ?u |- _ =>
    destruct u; apply sv_holder in H; [lia|unfold num_ok; lia] end.
Qed.

Lemma close_unsigned ns :
  let c := with_es (chan s) (set_closed_secrets (enforcement_state (chan s)) true
             (counterparty_secrets (enforcement_state (chan s)))) in
  J (h ++ []) {| chan := c; node_state := ns; persisted := c |}.
Proof.
  intros c. apply J_persisted, chan_inv_close; [apply HJ|]. by intros e ?%elem_of_nil.
Qed.

Lemma mutual_close_phase2_holds th tc hs cs hint :
  holds (exec env (MutualClosePhase2 th tc hs cs hint)).
Proof. unfold exec, sign_mutual_close_tx_phase2. wps. apply close_unsigned. Qed.

Lemma mutual_close_holds tx opaths : holds (exec env (MutualClose tx opaths)).
Proof. unfold exec, sign_mutual_close_tx. wps. apply close_unsigned. Qed.

(** Requests that leave the enforcement state alone. *)
Lemma unchanged ns : J (h ++ []) {| chan := chan s; node_state := ns; persisted := persisted s |}.
Proof. rewrite app_nil_r. by destruct HJ. Qed.

Lemma unchanged_persisted ns :
  J (h ++ []) {| chan := chan s; node_state := ns; persisted := chan s |}.
Proof. rewrite app_nil_r. apply J_persisted, HJ. Qed.

Lemma delayed_sweep_holds tx i n rs a wp : holds (exec env (DelayedSweep tx i n rs a wp)).
Proof. unfold exec, sign_delayed_sweep. wps. apply unchanged_persisted. Qed.

Lemma counterparty_htlc_sweep_holds tx i p rs a wp :
  holds (exec env (CounterpartyHtlcSweep tx i p rs a wp)).
Proof. unfold exec, sign_counterparty_htlc_sweep. wps. apply unchanged_persisted. Qed.

Lemma justice_sweep_holds tx i sec rs a wp : holds (exec env (JusticeSweep tx i sec rs a wp)).
Proof. unfold exec, sign_justice_sweep. wps. apply unchanged_persisted. Qed.

Lemma get_point_holds n : holds (exec env (GetPoint n)).
Proof. unfold exec. wps. by rewrite app_nil_r. Qed.

Lemma htlcs_fulfilled_holds ps : holds (exec env (HtlcsFulfilled ps)).
Proof. unfold exec, Chan.htlcs_fulfilled. wps. apply unchanged. Qed.

Lemma restore_payments_holds : holds (exec env RestorePayments).
Proof. unfold exec, restore_payments. wps. apply unchanged. Qed.

Lemma erase_next c c' : erase c = erase c' ->
  next_holder_commit_num (enforcement_state c) = next_holder_commit_num (enforcement_state c').
Proof.
  intros H. by apply (f_equal (fun x => next_holder_commit_num (enforcement_state x))) in H.
Qed.

Lemma get_secret_holds n : 0 <= n < 2 ^ 64 - 2 -> holds (exec env (GetSecret n)).
Proof.
  intros Hn. unfold exec. wps.
  match goal with H : get_per_commitment_secret _ _ _ = Ok _ |- _ =>
    unfold get_per_commitment_secret in H; rewrite add64_in in H by lia; inv_ok H end.
  destruct (next_holder_commit_num _ <? n + 2) eqn:Hlt.
  { match goal with H : whenb true _ = Ok _ |- _ => unfold whenb in H; inv_ok H end.
    strict_ok (sv_strict (v := env_validator env)). }
  b2p. destruct HJ as ([Hh1 Hc1] & [Hh2 Hc2] & He). pose proof (erase_next _ _ He).
  split; [|split; [|done]]; (split; [apply holder_inv_release; [done|lia]|]);
    (apply cp_inv_app; [by repeat constructor|done]).
Qed.

(** The revocation after its secret was stored as [st']. *)
Lemma revoke_stored n secret st' k :
  let es := enforcement_state (chan s) in
  let es1 := set_closed_secrets es (channel_closed es) (Some st') in
  store_ok h k st' -> 0 <= n < 2 ^ 48 ->
  (n = next_counterparty_revoke_num es \/ n + 1 = next_counterparty_revoke_num es) ->
  (k = next_counterparty_revoke_num es \/ k = next_counterparty_revoke_num es + 1) ->
  n + 1 <= k <= next_counterparty_commit_num es -> k <= 2 ^ 48 -> matches es n secret ->
  wp (self ← get_chan; next ← lift (add64 n 1);
      es' ← lift_v (set_next_counterparty_revoke_num (env_validator env)
                      (enforcement_state self) next);
      put_es es';; persist env)
    (fun _ s' => J (h ++ [ECpRevoked n secret]) s') (failed h env s)
    {| chan := with_es (chan s) es1; node_state := node_state s; persisted := persisted s |}.
Proof.
  intros es es1 Hst Hn Hrev Hk Hkc Hk48 Hm. destruct HJ as ([Hh1 Hc1] & [Hh2 Hc2] & He).
  pose proof Hc1 as [[? ?] _ _ _ _ _ _ _]. fold es in H, H0.
  rewrite add64_in by lia. do 5 wp1. apply wp_lift_v.
  - intros es' Hset. wps.
    apply set_next_counterparty_revoke_spec in Hset as (_ & Hc & _ & prev & ->);
      [|apply _|unfold num_ok; cbn; fold es; lia..].
    cbn in Hc. fold es in Hc. apply J_persisted. split; cbn.
    + apply holder_inv_app; [by repeat constructor|]. by apply (holder_inv_ext _ es).
    + apply (cp_inv_revoke h es n secret k); (done || lia).
  - intros b. split; [done|]. intros _ _. split; [|split; [done|]].
    + split; cbn; [by apply (holder_inv_ext _ es)|]. apply (cp_inv_secret h es k); (done || lia).
    + cbn [chan persisted]. rewrite <- He. done.
Qed.

Lemma revocation_holds n secret : 0 <= n < 2 ^ 48 -> holds (exec env (Revocation n secret)).
Proof.
  intros Hn. pose proof HJ as ([Hh1 Hc1] & _ & _).
  destruct (cp_store _ _ Hc1) as (st & k & Hst & _).
  unfold exec, validate_counterparty_revocation. do 8 wp1. destruct a.
  apply sv_revocation in H as [Hrev Hm]; [|unfold num_ok; lia]. rewrite Hst.
  unfold INITIAL_COMMITMENT_NUMBER. rewrite sub64_in by lia. do 2 wp1.
  destruct (provide_secret _ _ _) as [st'|e|] eqn:Hprov.
  - wp1. destruct (store_provide h (enforcement_state (chan s)) n secret st st') as (k' & Hs & Hk & Hkc & Hk48);
      [done..|].
    eapply wp_mono; [by eapply revoke_stored| |done]. intros [] s' ?. by wps.
  - wp1. strict_ok (sv_strict (v := env_validator env)).
  - wp1. done.
Qed.

Lemma op_holds op : op_ok op -> holds (exec env op).
Proof.
  destruct op; cbn [op_ok]; intros.
  - by apply sign_counterparty_phase2_holds.
  - by apply sign_counterparty_holds.
  - by apply validate_holder_phase2_holds.
  - by apply validate_holder_holds.
  - by apply sign_holder_phase2_holds.
  - apply sign_holder_recovery_holds.
  - by apply sign_holder_redundant_holds.
  - by apply revocation_holds.
  - apply mutual_close_phase2_holds.
  - apply mutual_close_holds.
  - apply delayed_sweep_holds.
  - apply counterparty_htlc_sweep_holds.
  - apply justice_sweep_holds.
  - apply get_point_holds.
  - by apply get_secret_holds.
  - apply htlcs_fulfilled_holds.
  - apply restore_payments_holds.
Qed.
End preserved.

(** ** Atomicity *)

Section atomic.
Context `{L : Lib, Prof : Profile} (env : Env).

(** The requests that end with the persister being updated. *)
Definition is_persisted (op : Op) : bool :=
  match op with
  | GetPoint _ | GetSecret _ | HtlcsFulfilled _ | RestorePayments => false
  | _ => true
  end.

Definition atomic_ok (op : Op) (s s' : ChanState) : Prop :=
  if is_persisted op then env_persists env = true /\ persisted s' = chan s'
  else chan s' = chan s /\ persisted s' = persisted s.

Definition atomic_failed (s : ChanState) (panic : bool) (s' : ChanState) : Prop :=
  persisted s' = persisted s
  /\ (panic = false -> env_persists env = true ->
      erase (chan s') = erase (chan s) /\ node_state s' = node_state s).

Lemma atomic_failed_same s b : atomic_failed s b s.
Proof. by split. Qed.

Lemma atomic_failed_panic s s' : persisted s' = persisted s -> atomic_failed s true s'.
Proof. by split. Qed.

Lemma atomic_failed_persist s s' :
  persisted s' = persisted s -> env_persists env = false -> atomic_failed s false s'.
Proof. intros ? Hp. split; [done|]. by rewrite Hp. Qed.

(** A revealed secret may have been stored. *)
Lemma atomic_failed_secrets s b st :
  atomic_failed s b {| chan := with_es (chan s) (set_closed_secrets (enforcement_state (chan s))
                         (channel_closed (enforcement_state (chan s))) st);
                       node_state := node_state s; persisted := persisted s |}.
Proof. by split. Qed.

Lemma wp_persist_ok Q R s :
  (env_persists env = true ->
   Q tt {| chan := chan s; node_state := node_state s; persisted := chan s |}) ->
  (env_persists env = false -> R false s) -> wp (persist env) Q R s.
Proof. unfold wp, persist. destruct (env_persists env); auto. Qed.
End atomic.

#[export] Hint Resolve atomic_failed_same atomic_failed_panic atomic_failed_persist
  atomic_failed_secrets : wp_failed.

Ltac wpa := repeat first
  [ lazymatch goal with |- wp (persist _) _ _ _ =>
      apply wp_persist_ok; [intros ?|wp_fails]; cbn [chan node_state persisted] end
  | wp1 ].

Section atomic_ops.
Context `{L : Lib, Prof : Profile} (env : Env).

Lemma advance_atomic s v n info sigs Q :
  (forall res es', Q res {| chan := with_es (chan s) es'; node_state := node_state s;
                             persisted := persisted s |}) ->
  wp (advance_holder_commitment_state v n info sigs) Q (atomic_failed env s) s.
Proof.
  intros HQ. unfold advance_holder_commitment_state. wpa.
  apply wp_lift_noerr; [|intros pt _|by apply atomic_failed_panic].
  { intros e. destruct (add64 n 1) as [m|?|] eqn:Hm; cbn; [|by apply noerr_wrapping in Hm|done].
    by destruct (get_per_commitment_point _ _). }
  wpa. apply wp_lift_noerr; [|intros sec Hsec|by apply atomic_failed_panic].
  { intros e. destruct (1 <=? n); [|done].
    destruct (sub64 n 1) as [m|?|] eqn:Hm; cbn; [|by apply noerr_wrapping in Hm|done].
    by destruct (get_per_commitment_secret _ _ _). }
  wpa. apply HQ.
Qed.

Lemma finish_atomic s n feerate point txkeys rtx info delta incoming sig htlc_sigs :
  wp (finish_holder_commitment env n feerate point txkeys rtx info delta incoming sig htlc_sigs)
    (fun _ s' => env_persists env = true /\ persisted s' = chan s') (atomic_failed env s) s.
Proof.
  unfold finish_holder_commitment. wpa. apply advance_atomic. intros res es'. wpa. done.
Qed.

Lemma exec_atomic s op :
  wp (exec env op) (fun _ s' => atomic_ok env op s s') (atomic_failed env s) s.
Proof.
  destruct op; unfold exec, sign_counterparty_commitment_tx_phase2,
    sign_counterparty_commitment_tx, Chan.validate_holder_commitment_tx,
    validate_holder_commitment_tx_phase2, sign_holder_commitment_tx_phase2,
    sign_holder_commitment_tx_for_recovery, sign_holder_commitment_tx_phase2_redundant,
    Chan.validate_counterparty_revocation, sign_mutual_close_tx_phase2, sign_mutual_close_tx,
    sign_delayed_sweep, sign_counterparty_htlc_sweep, sign_justice_sweep, Chan.htlcs_fulfilled,
    restore_payments, get_unilateral_close_key; wpa; try done.
  all: try (eapply wp_mono; [apply finish_atomic|intros; by wpa|done]).
Qed.
End atomic_ops.

(** ** Properties *)

Section claims.
Context `{L : Lib, Prof : Profile, HK : !KeysLaws}.
Implicit Types (s : ChanState) (h : list Event).

Lemma step_J w w' : step w w' -> J w.2 w.1 -> J w'.2 w'.1.
Proof.
  intros Hst HJ. destruct Hst as [env op s s' h evs Hv Hp Hok Hx|env op s s' h e Hv Hp Hok Hx
    |env op s s' h r ns Hv Hok Hx Hr|s h ns]; cbn in *.
  - pose proof (op_holds env h s HJ op Hok) as Hw. unfold wp in Hw. by rewrite Hx in Hw.
  - pose proof (op_holds env h s HJ op Hok) as Hw. unfold wp in Hw. rewrite Hx in Hw.
    by apply Hw.
  - pose proof (op_holds env h s HJ op Hok) as Hw. unfold wp in Hw. rewrite Hx in Hw.
    destruct HJ as (_ & Hi & _). destruct r; [done|destruct Hw as [Heq _]..]; unfold restart;
      apply J_persisted; by rewrite Heq.
  - by apply J_restart.
Qed.

Lemma reachable_J s0 w : reachable s0 w -> J w.2 w.1.
Proof.
  induction 1 as [[Hp [v Hes]]|w w' Hr IH Hst]; [|by eapply step_J].
  assert (chan_inv [] (chan s0)) by by eapply chan_inv_initial.
  unfold J. cbn. by rewrite Hp.
Qed.

(** C1: no revoked holder commitment is ever signed, and no signed one is ever
    revoked.  The sequences are those of requests whose numbers are in range
    (commitment numbers below 2^63, revocations below 2^48, secrets asked for
    below 2^64 - 2), checked under a filter that enforces every tag, of
    panics, of failures of the persister that stop the signer, and of restarts
    from the persisted state.  Once the signer gave out a signature on holder
    commitment [n], the channel is closed and the next holder commitment
    number is at most [n + 1]; and every revocation secret given out, before
    the signature or after it, is of a holder commitment [m < n] that is at
    least two below the next number. *)
Theorem no_signed_commitment_is_revoked s0 s h n (Hr : reachable s0 (s, h))
  (Hsigned : EHolderSigned n ∈ h) :
  channel_closed (enforcement_state (chan s)) = true
  /\ next_holder_commit_num (enforcement_state (chan s)) <= n + 1
  /\ forall m, EReleased m ∈ h ->
       m < n /\ m + 2 <= next_holder_commit_num (enforcement_state (chan s)).
Proof.
  apply reachable_J in Hr as ([[_ H1 H2] _] & _). cbn in *.
  destruct (H1 n Hsigned). split; [done|]. split; [done|].
  intros m Hm. specialize (H2 m Hm). lia.
Qed.

(** Why the numbers of the secrets asked for are bounded: without overflow
    checks the guard wraps, and whatever the state of the channel the secret
    of a number that no commitment has is given out. *)
Lemma secret_number_wraps v self (Hrelease : overflow_checks = false)
  (Hnext : 0 <= next_holder_commit_num (enforcement_state self)) :
  get_per_commitment_secret v self (2 ^ 64 - 2)
  = unwrap (secretkey_from_slice (release_commitment_secret (keys self) (2 ^ 48 + 1))).
Proof.
  assert (Hadd : add64 (E := Status) (2 ^ 64 - 2) 2 = Ok 0)
    by (unfold add64, wrapping; by rewrite Hrelease).
  assert (Hsub : sub64 (E := Status) INITIAL_COMMITMENT_NUMBER (2 ^ 64 - 2) = Ok (2 ^ 48 + 1))
    by (unfold sub64, wrapping; by rewrite Hrelease).
  unfold get_per_commitment_secret. by rewrite Hadd, Hsub, Ok_bind, (proj2 (Z.ltb_ge _ _)) by done.
Qed.

(** C3: for the counterparty's side, over every such sequence (under a filter
    that enforces every tag): all signatures
    given for a commitment number are for one and the same commitment (same
    point, same contents); every number below the next one was signed; and a
    commitment is signed only when at most one older commitment is not
    revoked, so that no more than two commitments of the counterparty are
    valid at any time. *)
Theorem counterparty_commitments_unique s0 s h n p i (Hr : reachable s0 (s, h))
  (Hsigned : ECpSigned n p i ∈ h) :
  (forall p' i', ECpSigned n p' i' ∈ h -> p' = p /\ i' = i)
  /\ 0 <= n <= next_counterparty_revoke_num (enforcement_state (chan s)) + 1
  /\ (forall k, 0 <= k <= n -> exists q j, ECpSigned k q j ∈ h)
  /\ (forall k, 0 <= k < next_counterparty_revoke_num (enforcement_state (chan s)) ->
        exists secret, ECpRevoked k secret ∈ h).
Proof.
  apply reachable_J in Hr as ([_ []] & _). cbn in *.
  destruct (cp_current0 _ _ _ Hsigned) as (Hn & _).
  split; [intros p' i' H'; by destruct (cp_unique0 _ _ _ _ _ Hsigned H') as [-> ->]|].
  split; [lia|]. split; [|done]. intros k Hk. apply cp_all0. lia.
Qed.

(** C4: requests are atomic and durable, for every validator.  A request that
    changes the channel and is answered with success has persisted exactly
    the state it leaves in memory; one that is answered with an error while
    the persister works has changed neither the payments nor the channel,
    except that a revealed secret may have been stored, and has persisted
    nothing; one that panics has persisted nothing. *)
Theorem requests_are_atomic (env : Env) (op : Op) s s' r (Hx : exec env op s = (s', r)) :
  match r with
  | Ok _ => if is_persisted op then env_persists env = true /\ persisted s' = chan s'
            else chan s' = chan s /\ persisted s' = persisted s
  | Err _ => persisted s' = persisted s
      /\ (env_persists env = true ->
          erase (chan s') = erase (chan s) /\ node_state s' = node_state s)
  | Panic => persisted s' = persisted s
  end.
Proof.
  pose proof (exec_atomic env s op) as H. unfold wp in H. rewrite Hx in H.
  destruct r; [exact H|destruct H; auto..].
Qed.

(** C2: the counterparty can always be punished.  Over every such sequence
    (under a filter that enforces every tag), an
    accepted revocation of commitment [n] was for a signed commitment, its
    secret is the secret of the point that commitment was signed with, and
    the store of secrets, in memory and in the persister, gives back a
    secret of that point. *)
Theorem revoked_commitments_are_punishable s0 s h n secret (Hr : reachable s0 (s, h))
  (Hrev : ECpRevoked n secret ∈ h) :
  exists p i, ECpSigned n p i ∈ h /\ pubkey_from_secret_key secret = p
    /\ forall c, c = chan s \/ c = persisted s ->
       exists st x, counterparty_secrets (enforcement_state c) = Some st
         /\ get_secret st (INITIAL_COMMITMENT_NUMBER - n) = Ok (Some x)
         /\ pubkey_from_secret_key x = p.
Proof.
  apply reachable_J in Hr as (Hc & Hp & _). cbn in Hc, Hp.
  destruct (cp_revoked _ _ (proj2 Hc) _ _ Hrev) as (_ & i & Hsig).
  exists (pubkey_from_secret_key secret), i. split; [done|]. split; [done|].
  intros c Hcc. assert (Hi : cp_inv h (enforcement_state c)) by (by destruct Hcc as [-> | ->]; [apply Hc|apply Hp]).
  destruct (cp_store _ _ Hi) as (st & k & Hst & (prov & Hinv & Hpts) & Hk & _ & Hk48).
  destruct (cp_revoked _ _ Hi _ _ Hrev) as (Hn & _). pose proof (cp_range _ _ Hi) as [_ ?].
  exists st, (prov (2 ^ 48 - 1 - n)). split; [done|].
  unfold INITIAL_COMMITMENT_NUMBER. rewrite (get_secret_inv prov (2 ^ 48 - k)) by (done || lia).
  rewrite (proj2 (Z.leb_le _ _)) by lia. split; [done|]. apply (Hpts n _ i); [lia|done].
Qed.
End claims.

(** ** An example channel *)

Section replay.
Context `{L : Lib, Prof : Profile}.

(** Run requests that all succeed. *)
Fixpoint replay (env : Env) (ops : list Op) (s : ChanState) (h : list Event)
  : option (ChanState * list Event) :=
  match ops with
  | [] => Some (s, h)
  | op :: ops' =>
      match exec env op s with
      | (s', Ok evs) => replay env ops' s' (h ++ evs)
      | _ => None
      end
  end.

Lemma replay_reachable env ops s0 s h w :
  SafeValidator (env_validator env) -> env_persists env = true -> Forall op_ok ops ->
  reachable s0 (s, h) -> replay env ops s h = Some w -> reachable s0 w.
Proof.
  intros Hv Hp Hok. revert s h. induction Hok as [|op ops Hop Hok IH]; intros s h Hr H; cbn in H.
  - by injection H as <-.
  - destruct (exec env op s) as [s' [evs|e|]] eqn:Hx; try done.
    apply (IH s' (h ++ evs)); [|done]. eapply reach_step; [done|]. by eapply step_ok.
Qed.
End replay.

#[export] Instance example_keys_laws : @KeysLaws example_lib.
Proof. done. Qed.

#[export] Instance example_validator_safe : @SafeValidator example_lib example_validator.
Proof. apply (@Simple.simple_safe example_lib release), make_simple_policy_strict. Qed.

(** The counterparty's signature on the holder's commitment [n]. *)
Definition example_sig (n to_holder to_counterparty : Z) : Signature :=
  [101; 1; 2; INITIAL_COMMITMENT_NUMBER - n; 1000000; to_holder; to_counterparty;
   2; 1; 1; 2; 101; 1].

Definition validate_op (n to_holder to_counterparty : Z) : Op :=
  ValidateHolderPhase2 n 1000 to_holder to_counterparty [] []
    (example_sig n to_holder to_counterparty) [].

Definition sign_op (point : PublicKey) (n to_holder to_counterparty : Z) : Op :=
  SignCounterpartyPhase2 point n 1000 to_holder to_counterparty [] [].

(** Open the channel, move to the second commitment on both sides, and close
    it with the holder's commitment. *)
Definition example_ops : list Op :=
  [validate_op 0 999000 0; sign_op [2; 7] 0 999000 0; sign_op [2; 8] 1 899000 100000;
   Revocation 0 [7]; validate_op 1 899000 100000; SignHolderPhase2 1].

Definition example_world : @ChanState example_lib * list Event :=
  default (example_start, [])
    (@replay example_lib release (example_env true) example_ops example_start []).

Definition example_end : @ChanState example_lib := example_world.1.
Definition example_history : list Event := example_world.2.

Lemma example_replays :
  @replay example_lib release (example_env true) example_ops example_start []
  = Some (example_end, example_history).
Proof.
  assert (H : bool_decide (is_Some (@replay example_lib release (example_env true) example_ops
    example_start [])) = true) by (vm_compute; reflexivity).
  apply bool_decide_eq_true in H as [[s h] H]. unfold example_end, example_history, example_world.
  by rewrite H.
Qed.

Lemma example_reachable :
  @reachable example_lib release example_start (example_end, example_history).
Proof.
  apply (replay_reachable (example_env true) example_ops example_start example_start []).
  - apply example_validator_safe.
  - done.
  - repeat (apply Forall_cons; split; [by vm_compute|]). by apply Forall_nil.
  - apply reach_init. split; [done|]. by exists 999000.
  - apply example_replays.
Qed.

Lemma no_signed_commitment_is_revoked_witness :
  EHolderSigned 1 ∈ example_history /\ EReleased 0 ∈ example_history /\ 0 < 1
  /\ channel_closed (enforcement_state (chan example_end)) = true.
Proof.
  assert (H1 : EHolderSigned 1 ∈ example_history) by (vm_compute; repeat constructor).
  assert (H2 : EReleased 0 ∈ example_history) by (vm_compute; repeat constructor).
  destruct (@no_signed_commitment_is_revoked example_lib release _ example_start
    example_end example_history 1 example_reachable H1) as (Hc & _ & Hlt).
  exact (conj H1 (conj H2 (conj (proj1 (Hlt 0 H2)) Hc))).
Defined.

(** The persister fails during the validation of holder commitment 1; then the
    secret of commitment 0 is asked for, the signer restarts, and commitment
    0 is to be signed: the answers to these three requests. *)
Definition persist_failure_scenario : bool * outcome Status (list Event)
  * outcome Status (list Event) :=
  let '(s, _) := default (example_start, [])
    (@replay example_lib release (example_env true)
       [validate_op 0 999000 0; sign_op [2; 7] 0 999000 0; sign_op [2; 8] 1 899000 100000;
        Revocation 0 [7]] example_start []) in
  let '(s1, r1) := @exec example_lib release (example_env false)
                     (validate_op 1 899000 100000) s in
  let '(s2, r2) := @exec example_lib release (example_env true) (GetSecret 0) s1 in
  let '(_, r3) := @exec example_lib release (example_env true) (SignHolderPhase2 0)
                    (@restart example_lib s2 (NodeState_new example_control example_control)) in
  (is_ok r1, r2, r3).

(** A failure of the persister is only safe when it stops the signer.  The
    validation of a new holder commitment advances the state in memory
    before it persists it, and the error of a failed update does not undo
    that: when the update fails during the validation of commitment 1, the
    secret of commitment 0 is still given out afterwards, and a restart from
    the persisted state then signs commitment 0, which is revoked. *)
Theorem persist_failure_then_revoked_signed :
  persist_failure_scenario = (false, Ok [EReleased 0], Ok [EHolderSigned 0]).
Proof. vm_compute. reflexivity. Qed.

(** The answer to a request, without the state. *)
Lemma exec_err `{Lib, Profile} env op s :
  match (exec env op s).2 with Err _ => true | _ => false end = true ->
  exists s' e, exec env op s = (s', Err e).
Proof. destruct (exec env op s) as [s' [|e|]]; try done. by exists s', e. Qed.

Lemma requests_are_atomic_witness :
  exists s' e, @exec example_lib release (example_env true) (validate_op 2 899000 100000)
                 example_end = (s', Err e)
    /\ persisted s' = persisted example_end.
Proof.
  destruct (@exec_err example_lib release (example_env true) (validate_op 2 899000 100000)
    example_end) as (s' & e & H); [vm_compute; reflexivity|].
  exists s', e. split; [exact H|].
  exact (proj1 (@requests_are_atomic example_lib release _ _ _ _ _ H)).
Defined.

Lemma counterparty_commitments_unique_witness :
  exists i, ECpSigned 1 [2; 8] i ∈ example_history
    /\ forall p' i', ECpSigned 1 p' i' ∈ example_history -> p' = [2; 8] /\ i' = i.
Proof.
  assert (H : exists i, ECpSigned 1 [2; 8] i ∈ example_history)
    by (eexists; vm_compute; repeat constructor).
  destruct H as [i H]. exists i. split; [exact H|].
  apply (@counterparty_commitments_unique example_lib release _ example_start
    example_end example_history 1 [2; 8] i example_reachable H).
Defined.

Lemma revoked_commitments_are_punishable_witness :
  ECpRevoked 0 [7] ∈ example_history
  /\ exists p i, ECpSigned 0 p i ∈ example_history /\ 2 :: [7] = p.
Proof.
  assert (H : ECpRevoked 0 [7] ∈ example_history) by (vm_compute; repeat constructor).
  split; [exact H|].
  destruct (@revoked_commitments_are_punishable example_lib release _ example_start
    example_end example_history 0 [7] example_reachable H) as (p & i & Hs & Hp & _).
  exists p, i. exact (conj Hs Hp).
Defined.

End Safety.
