(* ===== verification/PersistFailure.v ===== *)
(** * A persister that fails in the middle of a request

    What a request to a channel leaves in memory when the persister refuses to
    store its result.  The guarantees of ChannelSafety.v need a signer that
    stops then: the state in memory is ahead of the stored one. *)

From S2P Require Import Prelude Velocity Policy Order Extern Setup Tx Script.
From S2P Require Import Secrets Enforcement Validator NodeState ChannelOps ChannelSafety.

Import Chan Safety.

Section failing.
Context `{L : Lib, Prof : Profile}.
Implicit Types (env : Env) (s : ChanState).

Definition with_persists env (b : bool) : Env := {|
  env_validator := env_validator env; env_wallet := env_wallet env;
  env_chain_state := env_chain_state env; env_persists := b |}.

(** The state [s'] in memory, with what was stored in [s]. *)
Definition unstored s s' : ChanState :=
  {| chan := chan s'; node_state := node_state s'; persisted := persisted s |}.

(** When [m] succeeds, [m'] fails once all its work is done, but for storing it. *)
Definition fails_late {A} (m m' : M A) : Prop := forall s s' a,
  m s = (s', Ok a) -> exists e, m' s = (unstored s s', Err e).

Definition stores_nothing {A} (m : M A) : Prop := forall s, persisted (m s).1 = persisted s.
Definition keeps_state {A} (m : M A) : Prop := forall s, (m s).1 = s.

Lemma late_bind {A B} (p : M A) (f f' : A -> M B) : stores_nothing p ->
  (forall a, fails_late (f a) (f' a)) -> fails_late (p ≫= f) (p ≫= f').
Proof.
  intros Hp Hf s s' b Hm. specialize (Hp s). unfold mbind, M_bind in *.
  destruct (p s) as [s1 [a|e|]]; [|done..]. destruct (Hf a s1 s' b Hm) as [e He]. exists e.
  rewrite He. unfold unstored. by rewrite <- Hp.
Qed.

Lemma late_then {A B} (m m' : M A) (f f' : A -> M B) : fails_late m m' ->
  (forall a, keeps_state (f a)) -> fails_late (m ≫= f) (m' ≫= f').
Proof.
  intros Hm Hf s s' b Hb. unfold mbind, M_bind in *. destruct (m s) as [s1 [a|e|]] eqn:Hs; [|done..].
  destruct (Hm s s1 a Hs) as [e He]. exists e. rewrite He. specialize (Hf a s1). by rewrite Hb in Hf; subst.
Qed.

Lemma late_persist env : fails_late (persist (with_persists env true)) (persist (with_persists env false)).
Proof. intros s s' [] [= <-]. eexists. by destruct s. Qed.

Lemma stores_bind {A B} (p : M A) (f : A -> M B) : stores_nothing p ->
  (forall a, stores_nothing (f a)) -> stores_nothing (p ≫= f).
Proof.
  intros Hp Hf s. specialize (Hp s). unfold mbind, M_bind. destruct (p s) as [s1 [a|e|]]; [|done..].
  by rewrite (Hf a s1).
Qed.

Lemma keeps_bind {A B} (p : M A) (f : A -> M B) : keeps_state p ->
  (forall a, keeps_state (f a)) -> keeps_state (p ≫= f).
Proof.
  intros Hp Hf s. specialize (Hp s). unfold mbind, M_bind. destruct (p s) as [s1 [a|e|]]; [|done..].
  cbn in Hp. subst. apply Hf.
Qed.
End failing.

Ltac lates := cbn [with_persists env_validator env_wallet env_chain_state]; repeat
  lazymatch goal with
  | |- fails_late (persist _) _ => apply late_persist
  | |- fails_late (mbind _ (persist _)) _ => apply late_then; [|intros ?]
  | |- fails_late (mbind _ _) (mbind _ _) => apply late_bind; [|intros ?]
  | |- fails_late (match ?x with _ => _ end) _ => destruct x
  | |- stores_nothing (mbind _ _) => apply stores_bind; [|intros ?]
  | |- stores_nothing (match ?x with _ => _ end) => destruct x
  | |- stores_nothing _ => by intros ?
  | |- keeps_state (mbind _ _) => apply keeps_bind; [|intros ?]
  | |- keeps_state (match ?x with _ => _ end) => destruct x
  | |- keeps_state _ => by intros ?
  end.

Section requests.
Context `{L : Lib, Prof : Profile}.
Implicit Types (env : Env) (s : ChanState).

(** The requests that store the channel. *)
Definition writes (op : Op) : bool :=
  match op with
  | SignCounterpartyPhase2 _ _ _ _ _ _ _ | SignCounterparty _ _ _ _ _ _ _
  | ValidateHolderPhase2 _ _ _ _ _ _ _ _ | ValidateHolder _ _ _ _ _ _ _ _
  | SignHolderPhase2 _ | SignHolderRecovery | SignHolderRedundant _ _ _ _ _ _
  | Revocation _ _ | MutualClosePhase2 _ _ _ _ _ | MutualClose _ _ => true
  | _ => false
  end.

Lemma exec_late env op : writes op = true ->
  fails_late (exec (with_persists env true) op) (exec (with_persists env false) op).
Proof.
  destruct op; intros Hw; try done; unfold exec; (apply late_bind; [by intros ?|]); intros self;
    (apply late_then; [|intros ?; lates]);
    unfold sign_counterparty_commitment_tx_phase2, sign_counterparty_commitment_tx,
      validate_holder_commitment_tx_phase2, validate_holder_commitment_tx, finish_holder_commitment,
      make_validated_recomposed_holder_commitment_tx,
      advance_holder_commitment_state, sign_holder_commitment_tx_phase2,
      sign_holder_commitment_tx_for_recovery, sign_holder_commitment_tx_phase2_redundant,
      validate_counterparty_revocation, sign_mutual_close_tx_phase2, sign_mutual_close_tx; lates.
Qed.

(** The secrets that a validation gives out are those of the channel it leaves. *)
Definition released_by_channel v (evs : list Event) s : Prop :=
  forall m, EReleased m ∈ evs -> exists k, get_per_commitment_secret v (chan s) m = Ok k.

#[local] Hint Resolve I : wp_failed.

Lemma finish_releases env n f p ks tx info delta inc sig sigs s : 0 <= n < 2 ^ 63 ->
  wp (finish_holder_commitment env n f p ks tx info delta inc sig sigs)
    (fun res => released_by_channel (env_validator env) (released_by n res)) (fun _ _ => True) s.
Proof.
  intros Hn. unfold finish_holder_commitment, advance_holder_commitment_state. wps.
  intros m Hm. cbn [chan]. unfold released_by in Hm. cbn [snd] in Hm.
  match goal with Ho : (if 1 <=? n then _ else _) = Ok ?o |- _ =>
    destruct o as [k|]; [|by apply elem_of_nil in Hm]; rename Ho into Hk end.
  apply list_elem_of_singleton in Hm as [= ->]. destruct (1 <=? n) eqn:Hle; [|done]. b2p.
  rewrite sub64_in, Ok_bind in Hk by lia. inv_ok Hk. eauto.
Qed.

Lemma exec_releases env op s : writes op = true -> op_ok op ->
  wp (exec env op) (released_by_channel (env_validator env)) (fun _ _ => True) s.
Proof.
  assert (Hnone : forall v evs s, (forall m, EReleased m ∉ evs) -> released_by_channel v evs s)
    by (intros v evs s1 Hno m Hm; by apply Hno in Hm).
  assert (Hany : forall {A} (m : M A) Q s, (forall a s', Q a s') -> wp m Q (fun _ _ => True) s).
  { intros A m Q s1 HQ. unfold wp. destruct (m s1) as [s2 [| |]]; auto. }
  destruct op; intros Hw Hok; try done; unfold exec; apply wp_bind, wp_get_chan;
    try (repeat (apply wp_bind, Hany; intros ? ?); apply wp_ret, Hnone; intros m Hm;
         (by apply list_elem_of_singleton in Hm) || (by apply elem_of_nil in Hm)).
  all: apply wp_bind; unfold validate_holder_commitment_tx_phase2, validate_holder_commitment_tx; cbv zeta;
    repeat lazymatch goal with
      | |- wp (mbind _ _) _ _ _ => apply wp_bind, Hany; intros ? ?
      | |- wp (match ?x with _ => _ end) _ _ _ => destruct x
      end.
  all: eapply wp_mono; [by apply finish_releases|intros res s1 Hr; exact Hr|done].
Qed.

(** C39: a failure of the persister does not undo a request.  When storing fails
    in a request that would otherwise have succeeded, the answer is an error and
    nothing is stored, but the channel and the payments in memory are those
    after the request; in particular, every secret that the request would have
    revealed is given out when it is asked for next.  Only a signer that stops
    then keeps its stored state ahead of what it reveals: see
    [persist_failure_then_revoked_signed]. *)
Theorem failed_persist_keeps_memory env op s s' evs (Hw : writes op = true) (Hop : op_ok op)
  (Hx : exec (with_persists env true) op s = (s', Ok evs)) :
  (exists e, exec (with_persists env false) op s = (unstored s s', Err e))
  /\ forall m, EReleased m ∈ evs ->
       exec env (GetSecret m) (unstored s s') = (unstored s s', Ok [EReleased m]).
Proof.
  split; [by eapply exec_late in Hx|]. intros m Hm.
  pose proof (exec_releases (with_persists env true) op s Hw Hop) as Hr. unfold wp in Hr.
  rewrite Hx in Hr. destruct (Hr m Hm) as [k Hk]. cbn [env_validator with_persists] in Hk.
  unfold exec, mbind, M_bind, lift, get_chan. cbn [chan unstored]. by rewrite Hk.
Qed.
End requests.

(** ** Witnesses *)

Lemma failed_persist_keeps_memory_witness : exists s s' e,
  @exec example_lib release (with_persists (example_env true) true) (validate_op 1 899000 100000) s
    = (s', Ok [EReleased 0])
  /\ @exec example_lib release (with_persists (example_env true) false) (validate_op 1 899000 100000) s
    = (unstored s s', Err e)
  /\ @exec example_lib release (example_env true) (GetSecret 0) (unstored s s')
    = (unstored s s', Ok [EReleased 0]).
Proof.
  set (s := (default (example_start, []) (@replay example_lib release (example_env true)
    [validate_op 0 999000 0; sign_op [2; 7] 0 999000 0; sign_op [2; 8] 1 899000 100000;
     Revocation 0 [7]] example_start [])).1).
  assert (Hr : (@exec example_lib release (with_persists (example_env true) true)
    (validate_op 1 899000 100000) s).2 = Ok [EReleased 0]) by (by vm_compute).
  clearbody s.
  destruct (@exec example_lib release (with_persists (example_env true) true)
    (validate_op 1 899000 100000) s) as [s' r] eqn:Hx. cbn [snd] in Hr. subst r.
  destruct (@failed_persist_keeps_memory example_lib release (example_env true)
    (validate_op 1 899000 100000) s s' [EReleased 0]) as [[e He] Hs];
    [done|by vm_compute|exact Hx|].
  exists s, s', e. split; [exact Hx|]. split; [exact He|]. apply Hs. by apply list_elem_of_singleton.
Defined.
