(* ===== verification/Monitor.v ===== *)
(** * The chain monitor of a channel (vls-core/src/monitor.rs)

    The listener that follows the blocks of the chain for one channel: when
    its funding transaction confirms, when one of the funding inputs is spent
    by another transaction, and when the funding output is spent.  Blocks are
    streamed to it transaction by transaction and take effect when the block
    is added to, or removed from, the chain. *)

From S2P Require Import Prelude Extern Enforcement.

Module Monitor.

(** ** Data *)

Notation BlockHash := (list Z).

Inductive StateChange :=
| FundingConfirmed (outpoint : OutPoint)
| FundingDoubleSpent (outpoint : OutPoint)
| ClosingConfirmed (closing_txid : Txid) (closing : Transaction).

Record BlockDecodeState := {
  changes : list StateChange;
  bds_version : Z;
  input_num : Z;
  output_num : Z;
  closing_tx : option Transaction;
  block_hash : BlockHash
}.

Record State := {
  height : Z;
  funding_txids : list Txid;
  funding_vouts : list Z;
  funding_inputs : gset OutPoint;
  funding_height : option Z;
  funding_outpoint : option OutPoint;
  funding_double_spent_height : option Z;
  closing_height : option Z;
  saw_block : bool;
  decode_state : option BlockDecodeState
}.

Definition MAX_COMMITMENT_OUTPUTS : Z := 600.

(** [ChainMonitor::new]: the state of a monitor that follows nothing yet. *)
Definition new (height : Z) : State := {|
  height := height; funding_txids := []; funding_vouts := []; funding_inputs := ∅;
  funding_height := None; funding_outpoint := None; funding_double_spent_height := None;
  closing_height := None; saw_block := false; decode_state := None |}.

(** *** Setters *)

Definition set_decode_state (s : State) (saw : bool) (d : option BlockDecodeState) : State := {|
  height := height s; funding_txids := funding_txids s; funding_vouts := funding_vouts s;
  funding_inputs := funding_inputs s; funding_height := funding_height s;
  funding_outpoint := funding_outpoint s;
  funding_double_spent_height := funding_double_spent_height s;
  closing_height := closing_height s; saw_block := saw; decode_state := d |}.

Definition set_heights (s : State) (h : Z) (fh : option Z) (fo : option OutPoint)
  (ds ch : option Z) : State := {|
  height := h; funding_txids := funding_txids s; funding_vouts := funding_vouts s;
  funding_inputs := funding_inputs s; funding_height := fh; funding_outpoint := fo;
  funding_double_spent_height := ds; closing_height := ch; saw_block := saw_block s;
  decode_state := decode_state s |}.

Definition set_watched (s : State) (txids : list Txid) (vouts : list Z)
  (inputs : gset OutPoint) : State := {|
  height := height s; funding_txids := txids; funding_vouts := vouts;
  funding_inputs := inputs; funding_height := funding_height s;
  funding_outpoint := funding_outpoint s;
  funding_double_spent_height := funding_double_spent_height s;
  closing_height := closing_height s; saw_block := saw_block s;
  decode_state := decode_state s |}.

Section monitor.
Context `{L : Lib, Prof : Profile} {E : Type}.
Implicit Types s : State.

(** ** What the monitor follows *)

Definition add_funding_outpoint s (outpoint : OutPoint) : outcome E State :=
  assert_ (bool_decide (funding_txids s = []));;
  assert_ (length (funding_txids s) =? length (funding_vouts s))%nat;;
  Ok (set_watched s (funding_txids s ++ [op_txid outpoint]) (funding_vouts s ++ [vout outpoint])
        (funding_inputs s)).

Definition add_funding_inputs s (tx : Transaction) : State :=
  set_watched s (funding_txids s) (funding_vouts s)
    (funding_inputs s ∪ list_to_set (previous_output <$> input tx)).

Definition add_funding s (tx : Transaction) (v : Z) : outcome E State :=
  assert_ (bool_decide (funding_txids s = []));;
  assert_ (length (funding_txids s) =? length (funding_vouts s))%nat;;
  Ok (set_watched s (funding_txids s ++ [txid tx]) (funding_vouts s ++ [v])
        (funding_inputs s ∪ list_to_set (previous_output <$> input tx))).

(** ** Streaming a block *)

Definition is_not_ready_for_push s : bool :=
  bool_decide (decode_state s = None) && negb (saw_block s).

Definition on_block_start s (hash : BlockHash) : State :=
  set_decode_state s true (Some {| changes := []; bds_version := 0; input_num := 0;
    output_num := 0; closing_tx := None; block_hash := hash |}).

Definition on_transaction_start s (v : Z) : outcome E State :=
  if is_not_ready_for_push s then Ok s
  else
    state ← unwrap (decode_state s);
    Ok (set_decode_state s (saw_block s) (Some {| changes := changes state; bds_version := v;
      input_num := 0; output_num := 0; closing_tx := None; block_hash := block_hash state |})).

Definition on_transaction_input s (inp : TxIn) : outcome E State :=
  if is_not_ready_for_push s then Ok s
  else
    state ← unwrap (decode_state s);
    let changes :=
      if bool_decide (previous_output inp ∈ funding_inputs s)
      then changes state ++ [FundingDoubleSpent (previous_output inp)] else changes state in
    let closing_tx :=
      if bool_decide (Some (previous_output inp) = funding_outpoint s)
      then Some {| version := bds_version state; lock_time := 0; input := [inp]; output := [] |}
      else closing_tx state in
    assert_ (bool_decide (closing_tx = None) || (input_num state =? 0));;
    n ← add32 (input_num state) 1;
    Ok (set_decode_state s (saw_block s) (Some {| changes := changes;
      bds_version := bds_version state; input_num := n; output_num := output_num state;
      closing_tx := closing_tx; block_hash := block_hash state |})).

Definition on_transaction_output s (out : TxOut) : outcome E State :=
  if is_not_ready_for_push s then Ok s
  else
    state ← unwrap (decode_state s);
    closing_tx ←
      match closing_tx state with
      | Some tx =>
          assert_ (output_num state <? MAX_COMMITMENT_OUTPUTS);;
          Ok (Some {| version := version tx; lock_time := lock_time tx; input := input tx;
                      output := output tx ++ [out] |})
      | None => Ok None
      end;
    n ← add32 (output_num state) 1;
    Ok (set_decode_state s (saw_block s) (Some {| changes := changes state;
      bds_version := bds_version state; input_num := input_num state; output_num := n;
      closing_tx := closing_tx; block_hash := block_hash state |})).

(** The position of the first element equal to [x]. *)
Fixpoint position (x : Txid) (l : list Txid) : option nat :=
  match l with
  | [] => None
  | y :: l' => if bool_decide (y = x) then Some 0%nat else S <$> position x l'
  end.

Definition on_transaction_end s (locktime : Z) (id : Txid) : outcome E State :=
  if is_not_ready_for_push s then Ok s
  else
    state ← unwrap (decode_state s);
    confirmed ←
      match position id (funding_txids s) with
      | Some ind =>
          v ← unwrap (funding_vouts s !! ind);
          assert_ (v <? output_num state);;
          Ok [FundingConfirmed {| op_txid := id; vout := v |}]
      | None => Ok []
      end;
    let closed :=
      match closing_tx state with
      | Some tx => [ClosingConfirmed id {| version := version tx; lock_time := locktime;
                                           input := input tx; output := output tx |}]
      | None => []
      end in
    Ok (set_decode_state s (saw_block s) (Some {| changes := changes state ++ confirmed ++ closed;
      bds_version := bds_version state; input_num := input_num state;
      output_num := output_num state; closing_tx := None; block_hash := block_hash state |})).

(** ** Adding and removing the streamed block *)

Definition is_funding_confirmed (c : StateChange) : bool :=
  match c with FundingConfirmed _ => true | _ => false end.

Definition apply_add (have_funding_confirmed : bool)
  (acc : State * list OutPoint * list OutPoint) (change : StateChange)
  : outcome E (State * list OutPoint * list OutPoint) :=
  let '(s, adds, removes) := acc in
  match change with
  | FundingConfirmed outpoint =>
      assert_ (bool_decide (funding_double_spent_height s = None));;
      Ok (set_heights s (height s) (Some (height s)) (Some outpoint)
            (funding_double_spent_height s) (closing_height s), adds ++ [outpoint], removes)
  | FundingDoubleSpent outpoint =>
      s ← (if negb have_funding_confirmed then
             assert_ (bool_decide (funding_height s = None));;
             Ok (set_heights s (height s) (funding_height s) (funding_outpoint s)
                   (Some (default (height s) (funding_double_spent_height s))) (closing_height s))
           else Ok s);
      Ok (s, adds, removes ++ [outpoint])
  | ClosingConfirmed _ closing =>
      assert_ (length (input closing) =? 1)%nat;;
      inp ← unwrap (input closing !! 0%nat);
      Ok (set_heights s (height s) (funding_height s) (funding_outpoint s)
            (funding_double_spent_height s) (Some (height s)),
          adds, removes ++ [previous_output inp])
  end.

Definition on_add_block_end s (hash : BlockHash)
  : outcome E (State * list OutPoint * list OutPoint) :=
  if is_not_ready_for_push s then Ok (s, [], [])
  else
    state ← unwrap (decode_state s);
    assert_ (bool_decide (block_hash state = hash));;
    let have_funding_confirmed := existsb is_funding_confirmed (changes state) in
    h ← add32 (height s) 1;
    let s := set_decode_state (set_heights s h (funding_height s) (funding_outpoint s)
               (funding_double_spent_height s) (closing_height s)) true None in
    foldM (apply_add have_funding_confirmed) (s, [], []) (changes state).

Definition apply_remove (have_funding_confirmed : bool)
  (acc : State * list OutPoint * list OutPoint) (change : StateChange)
  : outcome E (State * list OutPoint * list OutPoint) :=
  let '(s, adds, removes) := acc in
  match change with
  | FundingConfirmed outpoint =>
      assert_ (bool_decide (funding_height s = Some (height s)));;
      Ok (set_heights s (height s) None None (funding_double_spent_height s) (closing_height s),
          adds ++ [outpoint], removes)
  | FundingDoubleSpent outpoint =>
      s ← (if negb have_funding_confirmed then
             assert_ (bool_decide (is_Some (funding_double_spent_height s)));;
             Ok (if bool_decide (funding_double_spent_height s = Some (height s))
                 then set_heights s (height s) (funding_height s) (funding_outpoint s) None
                        (closing_height s)
                 else s)
           else Ok s);
      Ok (s, adds, removes ++ [outpoint])
  | ClosingConfirmed _ closing =>
      assert_ (bool_decide (closing_height s = Some (height s)));;
      assert_ (length (input closing) =? 1)%nat;;
      inp ← unwrap (input closing !! 0%nat);
      Ok (set_heights s (height s) (funding_height s) (funding_outpoint s)
            (funding_double_spent_height s) None,
          adds, removes ++ [previous_output inp])
  end.

Definition on_remove_block_end s (hash : BlockHash)
  : outcome E (State * list OutPoint * list OutPoint) :=
  if is_not_ready_for_push s then Ok (s, [], [])
  else
    state ← unwrap (decode_state s);
    assert_ (bool_decide (block_hash state = hash));;
    let have_funding_confirmed := existsb is_funding_confirmed (changes state) in
    '(s, adds, removes) ← foldM (apply_remove have_funding_confirmed)
        (set_decode_state s (saw_block s) None, [], []) (changes state);
    h ← sub32 (height s) 1;
    Ok (set_heights s h (funding_height s) (funding_outpoint s) (funding_double_spent_height s)
          (closing_height s), adds, removes).

(** ** [ChainListener for ChainMonitor] *)

Definition stream_tx s (tx : Transaction) : outcome E State :=
  s ← on_transaction_start s (version tx);
  s ← foldM on_transaction_input s (input tx);
  s ← foldM on_transaction_output s (output tx);
  on_transaction_end s (lock_time tx) (txid tx).

Definition on_add_block s (txs : list Transaction) (hash : BlockHash)
  : outcome E (State * list OutPoint * list OutPoint) :=
  s ← foldM stream_tx (on_block_start s hash) txs;
  on_add_block_end s hash.

Definition on_remove_block s (txs : list Transaction) (hash : BlockHash)
  : outcome E (State * list OutPoint * list OutPoint) :=
  s ← foldM stream_tx (on_block_start s hash) txs;
  on_remove_block_end s hash.

(** ** What the monitor tells the validators *)

Definition depth_of s (h : option Z) : outcome E Z :=
  match h with
  | Some h => h1 ← add32 (height s) 1; sub32 h1 h
  | None => Ok 0
  end.

Definition funding_depth s : outcome E Z := depth_of s (funding_height s).

Definition funding_double_spent_depth s : outcome E Z :=
  depth_of s (funding_double_spent_height s).

Definition as_chain_state s : outcome E ChainState :=
  f ← depth_of s (funding_height s);
  d ← depth_of s (funding_double_spent_height s);
  c ← depth_of s (closing_height s);
  Ok {| current_height := height s; Enforcement.funding_depth := f;
        Enforcement.funding_double_spent_depth := d; closing_depth := c |}.
End monitor.

(** ** Specification: the heights that a chain gives

    A chain is the list of the blocks since the monitor was created at height
    [h0], the last one first. *)

Notation Block := (list Transaction).

Definition tx_spent (tx : Transaction) : list OutPoint := previous_output <$> input tx.

Section spec.
Context `{L : Lib, Prof : Profile}.
Context (h0 : Z) (F : OutPoint) (finputs : gset OutPoint).
Implicit Types (b : Block) (c : list Block).

Definition spent b : list OutPoint := b ≫= tx_spent.
Definition txids b : list Txid := txid <$> b.

Definition has_funding b : bool := bool_decide (op_txid F ∈ txids b).
Definition has_closing b : bool := bool_decide (F ∈ spent b).
Definition double_spends b : list OutPoint := base.filter (fun o => o ∈ finputs) (spent b).
Definition has_double_spend b : bool :=
  negb (bool_decide (double_spends b = [])) && negb (has_funding b).

(** The height of the first block with a property. *)
Fixpoint first_height (p : Block -> bool) c : option Z :=
  match c with
  | [] => None
  | b :: c' =>
      match first_height p c' with
      | Some h => Some h
      | None => if p b then Some (h0 + Z.of_nat (length c)) else None
      end
  end.

Definition depth_in c (h : option Z) : Z :=
  match h with Some h => h0 + Z.of_nat (length c) + 1 - h | None => 0 end.

Definition chain_state c : ChainState := {|
  current_height := h0 + Z.of_nat (length c);
  Enforcement.funding_depth := depth_in c (first_height has_funding c);
  Enforcement.funding_double_spent_depth := depth_in c (first_height has_double_spend c);
  closing_depth := depth_in c (first_height has_closing c)
|}.

(** The blocks that may extend a chain.  The first four are rules of the
    chain, given that the funding inputs are inputs of the funding
    transaction; the next two say that the funding output is spent by a
    commitment or closing transaction; the last two are what the monitor
    cannot cope with: see the failures below. *)
Record block_ok c b : Prop := {
  bo_no_double_spend : NoDup (spent b) /\ forall o b', o ∈ spent b -> b' ∈ c -> o ∉ spent b';
  bo_fresh_txids : NoDup (txids b) /\ forall i b', i ∈ txids b -> b' ∈ c -> i ∉ txids b';
  bo_funding : forall tx, tx ∈ b -> txid tx = op_txid F ->
    (forall o, o ∈ finputs -> o ∈ tx_spent tx) /\ 0 <= vout F < Z.of_nat (length (output tx));
  bo_sizes : forall tx, tx ∈ b ->
    Z.of_nat (length (input tx)) < 2 ^ 32 /\ Z.of_nat (length (output tx)) < 2 ^ 32;
  bo_closing : forall tx, tx ∈ b -> F ∈ tx_spent tx ->
    length (input tx) = 1%nat /\ Z.of_nat (length (output tx)) <= MAX_COMMITMENT_OUTPUTS;
  bo_closing_later : F ∈ spent b -> exists b', b' ∈ c /\ op_txid F ∈ txids b';
  bo_one_double_spend : has_funding b = false -> (length (double_spends b) <= 1)%nat
}.

(** ** Streaming *)

(** The changes that one transaction, and a block, amount to. *)
Definition closing_of (tx : Transaction) : list StateChange :=
  if bool_decide (F ∈ tx_spent tx)
  then [ClosingConfirmed (txid tx) {| version := version tx; lock_time := lock_time tx;
          input := input tx; output := output tx |}]
  else [].

Definition changes_of_tx (tx : Transaction) : list StateChange :=
  (FundingDoubleSpent <$> base.filter (fun o => o ∈ finputs) (tx_spent tx))
  ++ (if bool_decide (txid tx = op_txid F) then [FundingConfirmed F] else [])
  ++ closing_of tx.

Definition changes_of b : list StateChange := b ≫= changes_of_tx.

(** A state in the middle of a block. *)
Definition streaming (s : State) (cs : list StateChange) (v i o : Z) (ct : option Transaction)
  (hash : BlockHash) : State :=
  set_decode_state s true (Some {| changes := cs; bds_version := v; input_num := i;
    output_num := o; closing_tx := ct; block_hash := hash |}).

Lemma streaming_ready s cs v i o ct hash :
  is_not_ready_for_push (streaming s cs v i o ct hash) = false.
Proof. done. Qed.

(** What the monitor was told to follow. *)
Definition follows (s : State) : Prop :=
  funding_txids s = [op_txid F] /\ funding_vouts s = [vout F] /\ funding_inputs s = finputs.

Section stream.
Context {E : Type} (s : State) (hash : BlockHash).
Hypothesis Hf : follows s.

Lemma stream_input_other inp cs v i o ct :
  Some (previous_output inp) <> funding_outpoint s -> ct = None -> 0 <= i < 2 ^ 32 - 1 ->
  on_transaction_input (E := E) (streaming s cs v i o ct hash) inp
  = Ok (streaming s (cs ++ (FundingDoubleSpent
          <$> base.filter (fun o => o ∈ finputs) [previous_output inp])) v (i + 1) o None hash).
Proof.
  intros Hne -> Hi. unfold on_transaction_input. rewrite streaming_ready.
  cbn [decode_state streaming set_decode_state unwrap]. rewrite Ok_bind.
  cbn [funding_inputs funding_outpoint set_decode_state closing_tx input_num changes].
  rewrite (bool_decide_false (Some _ = _)) by done.
  rewrite (bool_decide_true (@None Transaction = None)) by done. cbn [orb assert_].
  rewrite Ok_bind, add32_in, Ok_bind by lia. unfold streaming.
  cbn [funding_inputs set_decode_state]. destruct Hf as (_ & _ & ->).
  rewrite filter_cons, filter_nil.
  case_bool_decide; [rewrite decide_True by done|rewrite decide_False by done];
    cbn [fmap list_fmap]; [done|by rewrite app_nil_r].
Qed.

Lemma stream_inputs_other inps : forall cs v i o,
  (forall inp, inp ∈ inps -> Some (previous_output inp) <> funding_outpoint s) ->
  0 <= i -> i + Z.of_nat (length inps) < 2 ^ 32 ->
  foldM (on_transaction_input (E := E)) (streaming s cs v i o None hash) inps
  = Ok (streaming s (cs ++ (FundingDoubleSpent
          <$> base.filter (fun o => o ∈ finputs) (previous_output <$> inps))) v
          (i + Z.of_nat (length inps)) o None hash).
Proof.
  induction inps as [|inp inps IH]; intros cs v i o Hne Hi Hb; cbn [foldM length] in *.
  - by rewrite app_nil_r, Z.add_0_r.
  - rewrite stream_input_other; [|apply Hne, list_elem_of_here|done|lia]. rewrite Ok_bind.
    rewrite IH by (try lia; intros; apply Hne; by apply list_elem_of_further).
    f_equal. f_equal; [|lia]. rewrite <- app_assoc, <- fmap_app, <- filter_app. done.
Qed.

Lemma stream_output_other out cs v i o : 0 <= o < 2 ^ 32 - 1 ->
  on_transaction_output (E := E) (streaming s cs v i o None hash) out
  = Ok (streaming s cs v i (o + 1) None hash).
Proof.
  intros Ho. unfold on_transaction_output. rewrite streaming_ready.
  cbn [decode_state streaming set_decode_state unwrap]. rewrite Ok_bind.
  cbn [closing_tx output_num]. by rewrite Ok_bind, add32_in, Ok_bind by lia.
Qed.

Lemma stream_outputs_other outs : forall cs v i o,
  0 <= o -> o + Z.of_nat (length outs) < 2 ^ 32 ->
  foldM (on_transaction_output (E := E)) (streaming s cs v i o None hash) outs
  = Ok (streaming s cs v i (o + Z.of_nat (length outs)) None hash).
Proof.
  induction outs as [|out outs IH]; intros cs v i o Ho Hb; cbn [foldM length] in *.
  - by rewrite Z.add_0_r.
  - rewrite stream_output_other, Ok_bind, IH by lia. do 2 f_equal. lia.
Qed.

(** The same for the transaction that spends the funding output. *)
Lemma stream_input_closing inp cs v o :
  Some (previous_output inp) = funding_outpoint s ->
  on_transaction_input (E := E) (streaming s cs v 0 o None hash) inp
  = Ok (streaming s (cs ++ (FundingDoubleSpent
          <$> base.filter (fun o => o ∈ finputs) [previous_output inp])) v 1 o
          (Some {| version := v; lock_time := 0; input := [inp]; output := [] |}) hash).
Proof.
  intros He. unfold on_transaction_input. rewrite streaming_ready.
  cbn [decode_state streaming set_decode_state unwrap]. rewrite Ok_bind.
  cbn [funding_inputs funding_outpoint set_decode_state closing_tx input_num changes bds_version].
  rewrite (bool_decide_true (Some _ = _)) by done. rewrite Z.eqb_refl, orb_true_r.
  cbn [assert_]. rewrite Ok_bind, add32_in, Ok_bind by lia. unfold streaming.
  cbn [funding_inputs set_decode_state]. destruct Hf as (_ & _ & ->).
  rewrite filter_cons, filter_nil.
  case_bool_decide; [rewrite decide_True by done|rewrite decide_False by done];
    cbn [fmap list_fmap]; [done|by rewrite app_nil_r].
Qed.

Lemma stream_outputs_closing outs : forall cs v i o ct,
  0 <= o -> o + Z.of_nat (length outs) <= MAX_COMMITMENT_OUTPUTS ->
  foldM (on_transaction_output (E := E)) (streaming s cs v i o (Some ct) hash) outs
  = Ok (streaming s cs v i (o + Z.of_nat (length outs))
      (Some {| version := version ct; lock_time := lock_time ct; input := input ct;
               output := output ct ++ outs |}) hash).
Proof.
  induction outs as [|out outs IH]; intros cs v i o ct Ho Hb; cbn [foldM length] in *.
  - rewrite app_nil_r, Z.add_0_r. by destruct ct.
  - assert (Hs : on_transaction_output (E := E) (streaming s cs v i o (Some ct) hash) out
      = Ok (streaming s cs v i (o + 1) (Some {| version := version ct; lock_time := lock_time ct;
          input := input ct; output := output ct ++ [out] |}) hash)).
    { unfold on_transaction_output. rewrite streaming_ready.
      cbn [decode_state streaming set_decode_state unwrap]. rewrite Ok_bind.
      cbn [closing_tx output_num]. rewrite (proj2 (Z.ltb_lt _ _)) by lia. cbn [assert_].
      by rewrite !Ok_bind, add32_in, Ok_bind by (unfold MAX_COMMITMENT_OUTPUTS in *; lia). }
    rewrite Hs, Ok_bind, IH by lia. cbn [version lock_time input output].
    rewrite <- app_assoc. do 2 f_equal. lia.
Qed.

Lemma stream_end cs v i o ct locktime id :
  (id = op_txid F -> vout F < o) ->
  on_transaction_end (E := E) (streaming s cs v i o ct hash) locktime id
  = Ok (streaming s (cs ++ (if bool_decide (id = op_txid F) then [FundingConfirmed F] else [])
          ++ match ct with
             | Some tx => [ClosingConfirmed id {| version := version tx; lock_time := locktime;
                             input := input tx; output := output tx |}]
             | None => []
             end) v i o None hash).
Proof.
  intros Hv. unfold on_transaction_end. rewrite streaming_ready.
  cbn [decode_state streaming set_decode_state unwrap]. rewrite Ok_bind.
  cbn [funding_txids funding_vouts output_num closing_tx changes streaming set_decode_state].
  destruct Hf as (-> & -> & _). cbn [position].
  case_bool_decide as H1; case_bool_decide as H2; try congruence; cbn [fmap option_fmap option_map].
  - cbn [lookup list_lookup unwrap]. rewrite Ok_bind, (proj2 (Z.ltb_lt _ _)) by auto.
    cbn [assert_]. rewrite !Ok_bind. subst id. destruct F. done.
  - by rewrite Ok_bind.
Qed.

(** What a transaction must satisfy to be streamed. *)
Definition tx_ok (tx : Transaction) : Prop :=
  (txid tx = op_txid F -> 0 <= vout F < Z.of_nat (length (output tx)))
  /\ (Z.of_nat (length (input tx)) < 2 ^ 32 /\ Z.of_nat (length (output tx)) < 2 ^ 32)
  /\ (F ∈ tx_spent tx ->
      length (input tx) = 1%nat /\ Z.of_nat (length (output tx)) <= MAX_COMMITMENT_OUTPUTS).

(** The monitor knows the funding output, or nobody spends it. *)
Definition fo_ok (l : list OutPoint) : Prop :=
  funding_outpoint s = Some F \/ (funding_outpoint s = None /\ F ∉ l).

Lemma stream_tx_ok tx cs v i o : tx_ok tx -> fo_ok (tx_spent tx) ->
  exists v' i' o', stream_tx (E := E) (streaming s cs v i o None hash) tx
    = Ok (streaming s (cs ++ changes_of_tx tx) v' i' o' None hash).
Proof.
  intros (Hv & (Hi & Ho) & Hc) Hfo. unfold stream_tx.
  change (on_transaction_start (streaming s cs v i o None hash) (version tx))
    with (Ok (E := E) (streaming s cs (version tx) 0 0 None hash)). rewrite Ok_bind.
  unfold changes_of_tx, closing_of. destruct (decide (F ∈ tx_spent tx)) as [HF|HF].
  - rewrite (bool_decide_true (F ∈ _)) by done. destruct Hfo as [Hfo|[_ ?]]; [|done]. destruct (Hc HF) as [H1 H600].
    unfold tx_spent in *. destruct (input tx) as [|inp [|]] eqn:Hin; [done| |done].
    cbn [fmap list_fmap] in *. apply list_elem_of_singleton in HF.
    cbn [foldM]. rewrite stream_input_closing, !Ok_bind by congruence.
    rewrite stream_outputs_closing, Ok_bind by lia. rewrite Z.add_0_l, stream_end by (intros ?%Hv; lia).
    cbn [version lock_time input output]. rewrite <- app_assoc. by do 3 eexists.
  - rewrite (bool_decide_false (F ∈ _)) by done.
    rewrite stream_inputs_other, Ok_bind; [|intros inp Hin|lia|lia].
    2:{ destruct Hfo as [-> | [-> _]]; [|done]. intros [= He]. apply HF. rewrite <- He.
        apply list_elem_of_fmap. eauto. }
    rewrite stream_outputs_other, Ok_bind by lia. rewrite Z.add_0_l, stream_end by (intros ?%Hv; lia).
    rewrite <- app_assoc. by do 3 eexists.
Qed.

Lemma stream_block b : forall cs v i o,
  (forall tx, tx ∈ b -> tx_ok tx) -> fo_ok (spent b) ->
  exists v' i' o', foldM (stream_tx (E := E)) (streaming s cs v i o None hash) b
    = Ok (streaming s (cs ++ changes_of b) v' i' o' None hash).
Proof.
  induction b as [|tx b IH]; intros cs v i o Hb Hfo; cbn [foldM].
  - rewrite app_nil_r. by do 3 eexists.
  - assert (Hfo' : fo_ok (tx_spent tx) /\ fo_ok (spent b)).
    { destruct Hfo as [?|[? HF]]; [by split; left|]. cbn in HF. rewrite elem_of_app in HF.
      split; right; tauto. }
    destruct Hfo' as [Hf1 Hf2].
    destruct (stream_tx_ok tx cs v i o) as (v1 & i1 & o1 & ->);
      [apply Hb, list_elem_of_here|done|]. rewrite Ok_bind.
    destruct (IH (cs ++ changes_of_tx tx) v1 i1 o1) as (v2 & i2 & o2 & ->);
      [intros; apply Hb; by apply list_elem_of_further|done|].
    rewrite <- app_assoc. by do 3 eexists.
Qed.
End stream.

(** ** Applying the changes *)

Definition is_double_spent (c : StateChange) : bool :=
  match c with FundingDoubleSpent _ => true | _ => false end.
Definition is_closing (c : StateChange) : bool :=
  match c with ClosingConfirmed _ _ => true | _ => false end.

Definition adds_of (cs : list StateChange) : list OutPoint :=
  cs ≫= (fun c : StateChange => match c with FundingConfirmed o => [o] | _ => [] end).
Definition removes_of (cs : list StateChange) : list OutPoint :=
  cs ≫= (fun c : StateChange => match c with
                  | FundingConfirmed _ => []
                  | FundingDoubleSpent o => [o]
                  | ClosingConfirmed _ tx => tx_spent tx
                  end).

Definition change_ok (c : StateChange) : Prop :=
  match c with
  | FundingConfirmed o => o = F
  | FundingDoubleSpent _ => True
  | ClosingConfirmed _ tx => length (input tx) = 1%nat
  end.

(** At most one element satisfies [p]. *)
Fixpoint at_most_one {A} (p : A -> bool) (l : list A) : Prop :=
  match l with
  | [] => True
  | x :: l' => if p x then existsb p l' = false else at_most_one p l'
  end.

Lemma at_most_one_none {A} (p : A -> bool) l : existsb p l = false -> at_most_one p l.
Proof. induction l as [|x l IH]; cbn; [done|]. by destruct (p x). Qed.

Lemma set_heights_id s : set_heights s (height s) (funding_height s) (funding_outpoint s)
  (funding_double_spent_height s) (closing_height s) = s.
Proof. by destruct s. Qed.

Lemma add_loop {E : Type} (hfc : bool) (cs : list StateChange) : forall s (a r : list OutPoint), Forall change_ok cs ->
  (if hfc then funding_double_spent_height s = None
   else existsb is_funding_confirmed cs = false
        /\ (existsb is_double_spent cs = true -> funding_height s = None)) ->
  foldM (apply_add (E := E) hfc) (s, a, r) cs
  = Ok (set_heights s (height s)
          (if existsb is_funding_confirmed cs then Some (height s) else funding_height s)
          (if existsb is_funding_confirmed cs then Some F else funding_outpoint s)
          (if negb hfc && existsb is_double_spent cs
           then Some (default (height s) (funding_double_spent_height s))
           else funding_double_spent_height s)
          (if existsb is_closing cs then Some (height s) else closing_height s),
        a ++ adds_of cs, r ++ removes_of cs).
Proof.
  induction cs as [|c cs IH]; intros s a r Hok H; cbn [foldM].
  { rewrite andb_false_r. cbn. by rewrite !app_nil_r, set_heights_id. }
  apply Forall_cons in Hok as [Hc Hok]. destruct c as [o|o|id tx]; cbn [change_ok] in Hc.
  - subst o. destruct hfc; [|by destruct H]. cbn [apply_add].
    rewrite bool_decide_true by done. cbn [assert_]. rewrite !Ok_bind, IH by done.
    cbn. rewrite <- !app_assoc. by destruct (existsb is_funding_confirmed cs).
  - destruct hfc; cbn [apply_add negb].
    + rewrite !Ok_bind, IH by done. cbn. by rewrite <- !app_assoc.
    + destruct H as [Hfc Hfh]. cbn in Hfc, Hfh. rewrite bool_decide_true by auto. cbn [assert_].
      rewrite !Ok_bind, IH by (try done; cbn; auto). cbn. rewrite Hfc, <- !app_assoc.
      by destruct (existsb is_double_spent cs).
  - cbn [apply_add]. rewrite (proj2 (Nat.eqb_eq _ _)) by done. cbn [assert_].
    change (removes_of (ClosingConfirmed id tx :: cs)) with (tx_spent tx ++ removes_of cs).
    unfold tx_spent. destruct (input tx) as [|inp [|]]; [done| |done]. cbn [lookup list_lookup unwrap].
    rewrite !Ok_bind, IH by (try done; by destruct hfc). cbn. rewrite <- !app_assoc.
    by destruct (existsb is_closing cs).
Qed.

Lemma remove_loop {E : Type} (hfc : bool) (cs : list StateChange) : forall s (a r : list OutPoint), Forall change_ok cs ->
  at_most_one is_funding_confirmed cs -> at_most_one is_closing cs ->
  (existsb is_funding_confirmed cs = true -> funding_height s = Some (height s)) ->
  (existsb is_closing cs = true -> closing_height s = Some (height s)) ->
  (hfc = false -> at_most_one is_double_spent cs
     /\ (existsb is_double_spent cs = true -> is_Some (funding_double_spent_height s))) ->
  foldM (apply_remove (E := E) hfc) (s, a, r) cs
  = Ok (set_heights s (height s)
          (if existsb is_funding_confirmed cs then None else funding_height s)
          (if existsb is_funding_confirmed cs then None else funding_outpoint s)
          (if negb hfc && existsb is_double_spent cs
              && bool_decide (funding_double_spent_height s = Some (height s))
           then None else funding_double_spent_height s)
          (if existsb is_closing cs then None else closing_height s),
        a ++ adds_of cs, r ++ removes_of cs).
Proof.
  induction cs as [|c cs IH]; intros s a r Hok Hf1 Hc1 Hf Hc Hd; cbn [foldM].
  { rewrite andb_false_r. cbn. by rewrite !app_nil_r, set_heights_id. }
  apply Forall_cons in Hok as [Hco Hok]. destruct c as [o|o|id tx];
    cbn [change_ok at_most_one is_funding_confirmed is_closing is_double_spent existsb orb] in *.
  - subst o. cbn [apply_remove]. rewrite bool_decide_true by auto. cbn [assert_].
    rewrite !Ok_bind, IH
      by (try done; first [by apply at_most_one_none|intros; cbn; congruence]).
    cbn. rewrite Hf1, <- !app_assoc. done.
  - destruct hfc; cbn [apply_remove negb].
    + rewrite !Ok_bind, IH by done. cbn. by rewrite <- !app_assoc.
    + destruct (Hd eq_refl) as [Hd1 Hd2]. rewrite (bool_decide_true (is_Some _)) by auto. cbn [assert_].
      rewrite !Ok_bind. destruct (decide (funding_double_spent_height s = Some (height s))) as [He|He];
        [rewrite !bool_decide_true by done|rewrite !bool_decide_false by done];
        (rewrite IH; [|done|done|done|done|done|
           intros _; split; [by apply at_most_one_none|intros ?; congruence]]); cbn;
        rewrite Hd1, <- !app_assoc; cbn; done.
  - cbn [apply_remove]. rewrite bool_decide_true by auto.
    rewrite (proj2 (Nat.eqb_eq _ _)) by done. cbn [assert_].
    change (removes_of (ClosingConfirmed id tx :: cs)) with (tx_spent tx ++ removes_of cs).
    unfold tx_spent. destruct (input tx) as [|inp [|]]; [done| |done]. cbn [lookup list_lookup unwrap].
    rewrite !Ok_bind, IH
      by (try done; first [by apply at_most_one_none|intros; cbn; congruence]).
    cbn. rewrite Hc1, <- !app_assoc. done.
Qed.

(** *** Counting the changes of a block *)

Definition count {A} (p : A -> bool) (l : list A) : nat := length (List.filter p l).

Lemma count_app {A} (p : A -> bool) l1 l2 : count p (l1 ++ l2) = (count p l1 + count p l2)%nat.
Proof. unfold count. by rewrite List.filter_app, length_app. Qed.

Lemma existsb_count {A} (p : A -> bool) l : existsb p l = negb (count p l =? 0)%nat.
Proof. unfold count. induction l as [|x l IH]; cbn; [done|]. by destruct (p x). Qed.

Lemma count_at_most_one {A} (p : A -> bool) l : (count p l <= 1)%nat -> at_most_one p l.
Proof.
  unfold count. induction l as [|x l IH]; cbn; [done|]. destruct (p x) eqn:Hx; cbn; [|done].
  intros H. rewrite existsb_count. unfold count. by destruct (length (List.filter p l)); [|lia].
Qed.

Lemma NoDup_count {A} `{EqDecision A} (x : A) l : NoDup l ->
  (length (base.filter (fun y => y = x) l) <= 1)%nat.
Proof.
  induction 1 as [|y l Hy Hl IH]; [cbn; lia|]. rewrite filter_cons. case_decide as Hyx; [|done].
  subst y. rewrite filter_none; [cbn; lia|]. by intros z Hz ->.
Qed.

Lemma count_FundingDoubleSpent p (l : list OutPoint) :
  (forall o, p (FundingDoubleSpent o) = p (FundingDoubleSpent F)) ->
  count p (FundingDoubleSpent <$> l) = if p (FundingDoubleSpent F) then length l else 0%nat.
Proof.
  intros Hp. unfold count. induction l as [|o l IH]; cbn; [by destruct (p _)|].
  rewrite Hp. destruct (p (FundingDoubleSpent F)); cbn; congruence.
Qed.

Lemma count_changes_tx p tx :
  (forall o, p (FundingDoubleSpent o) = p (FundingDoubleSpent F)) ->
  (forall i t, p (ClosingConfirmed i t) = p (ClosingConfirmed [] tx)) ->
  count p (changes_of_tx tx)
  = ((if p (FundingDoubleSpent F)
      then length (base.filter (fun o => o ∈ finputs) (tx_spent tx)) else 0)
     + ((if p (FundingConfirmed F) && bool_decide (txid tx = op_txid F) then 1 else 0)
        + (if p (ClosingConfirmed [] tx) && bool_decide (F ∈ tx_spent tx) then 1 else 0)))%nat.
Proof.
  intros Hd Hc. unfold changes_of_tx, closing_of. rewrite !count_app, count_FundingDoubleSpent by done.
  f_equal. f_equal.
  - case_bool_decide; cbn; [|by rewrite andb_false_r]. unfold count. cbn.
    by destruct (p (FundingConfirmed F)).
  - case_bool_decide; cbn; [|by rewrite andb_false_r]. unfold count. cbn. rewrite Hc.
    by destruct (p (ClosingConfirmed [] tx)).
Qed.

Lemma count_changes_of tx b p :
  count p (changes_of (tx :: b)) = (count p (changes_of_tx tx) + count p (changes_of b))%nat.
Proof. apply count_app. Qed.

Lemma count_funding b : count is_funding_confirmed (changes_of b)
  = length (base.filter (fun i => i = op_txid F) (txids b)).
Proof.
  induction b as [|tx b IH]; [done|]. rewrite count_changes_of, IH, count_changes_tx by done.
  cbn [is_funding_confirmed]. unfold txids. rewrite fmap_cons, filter_cons. cbn [andb].
  case_bool_decide; [rewrite decide_True by done|rewrite decide_False by done]; cbn; lia.
Qed.

Lemma count_double_spends b :
  count is_double_spent (changes_of b) = length (double_spends b).
Proof.
  induction b as [|tx b IH]; [done|]. rewrite count_changes_of, IH, count_changes_tx by done.
  cbn [is_double_spent andb]. unfold double_spends, spent. cbn [mbind list_bind].
  fold (mbind (M := list) tx_spent b). rewrite filter_app, length_app. lia.
Qed.

Lemma count_closings b : (count is_closing (changes_of b)
  <= length (base.filter (fun o => o = F) (spent b)))%nat.
Proof.
  induction b as [|tx b IH]; [done|]. rewrite count_changes_of, count_changes_tx by done.
  cbn [is_closing andb]. unfold spent in *. cbn [mbind list_bind].
  fold (mbind (M := list) tx_spent b). rewrite filter_app, length_app.
  case_bool_decide as HF; [|lia].
  assert (0 < length (base.filter (fun o => o = F) (tx_spent tx)))%nat; [|lia].
  assert (Hin : F ∈ base.filter (fun o => o = F) (tx_spent tx)) by (by apply list_elem_of_filter).
  destruct (base.filter (fun o => o = F) (tx_spent tx)); [by apply elem_of_nil in Hin|cbn; lia].
Qed.

Lemma length_filter_zero {A} (P : A -> Prop) `{!forall x, Decision (P x)} (l : list A) :
  (length (base.filter P l) = 0)%nat <-> forall x, x ∈ l -> ~ P x.
Proof.
  split.
  - intros Hl%nil_length_inv x Hx HP. assert (Hin : x ∈ base.filter P l)
      by (by apply list_elem_of_filter). rewrite Hl in Hin. by apply elem_of_nil in Hin.
  - intros Hl. by rewrite filter_none.
Qed.

Lemma has_funding_changes b : existsb is_funding_confirmed (changes_of b) = has_funding b.
Proof.
  rewrite existsb_count, count_funding. unfold has_funding. case_bool_decide as H.
  - destruct (Nat.eqb_spec (length (base.filter (fun i => i = op_txid F) (txids b))) 0) as [Hl|]; [|done].
    exfalso. by apply (proj1 (length_filter_zero _ _) Hl (op_txid F)).
  - rewrite (proj2 (length_filter_zero _ _)); [done|]. by intros i Hi ->.
Qed.

Lemma double_spend_changes b : existsb is_double_spent (changes_of b)
  = negb (bool_decide (double_spends b = [])).
Proof. rewrite existsb_count, count_double_spends. f_equal. by destruct (double_spends b). Qed.

Lemma existsb_closing_tx tx : existsb is_closing (changes_of_tx tx) = bool_decide (F ∈ tx_spent tx).
Proof.
  rewrite existsb_count, count_changes_tx by done. cbn [is_closing andb].
  by case_bool_decide.
Qed.

Lemma closing_changes b : existsb is_closing (changes_of b) = has_closing b.
Proof.
  unfold has_closing. induction b as [|tx b IH]; [done|].
  unfold changes_of, spent. cbn [mbind list_bind].
  fold (mbind (M := list) tx_spent b) (mbind (M := list) changes_of_tx b).
  rewrite existsb_app, existsb_closing_tx. unfold changes_of in IH. rewrite IH. unfold spent.
  rewrite <- bool_decide_or. apply bool_decide_ext. by rewrite elem_of_app.
Qed.

Lemma changes_ok b : (forall tx, tx ∈ b -> F ∈ tx_spent tx -> length (input tx) = 1%nat) ->
  Forall change_ok (changes_of b).
Proof.
  intros Hb. apply Forall_forall. intros ch Hch. apply list_elem_of_bind in Hch as (tx & Hch & Hin).
  unfold changes_of_tx, closing_of in Hch. rewrite !elem_of_app in Hch.
  destruct Hch as [(o & -> & _)%list_elem_of_fmap|[Hch|Hch]]; [done|..];
    case_bool_decide; try (by apply elem_of_nil in Hch); apply list_elem_of_singleton in Hch as ->;
    cbn; auto.
Qed.

(** *** Heights in a chain *)

Lemma first_height_None p c : first_height p c = None <-> forall b, b ∈ c -> p b = false.
Proof.
  induction c as [|b c IH]; cbn [first_height].
  - split; [by intros _ b ?%elem_of_nil|done].
  - destruct (first_height p c) as [h|] eqn:Hc.
    + split; [done|]. intros H. exfalso. assert (Hn : Some h = None); [|done]. apply IH.
      intros b' Hb'. apply H. by apply list_elem_of_further.
    + destruct (p b) eqn:Hb; split; try done.
      * intros H. by rewrite H in Hb by apply list_elem_of_here.
      * intros _ b' [-> | Hb']%elem_of_cons; [done|]. by apply IH.
Qed.

Lemma first_height_Some p c h : first_height p c = Some h -> exists b, b ∈ c /\ p b = true.
Proof.
  induction c as [|b c IH]; cbn [first_height]; [done|]. destruct (first_height p c) as [h'|].
  - intros Hh. destruct (IH Hh) as (b' & ? & ?). exists b'. by rewrite elem_of_cons; auto.
  - destruct (p b) eqn:Hb; [|done]. intros _. exists b. by rewrite elem_of_cons; auto.
Qed.

Lemma first_height_range p c h : first_height p c = Some h ->
  h0 < h <= h0 + Z.of_nat (length c).
Proof.
  revert h. induction c as [|b c IH]; intros h; cbn [first_height length]; [done|].
  destruct (first_height p c) as [h'|]; [intros [= <-]; specialize (IH h' eq_refl); lia|].
  destruct (p b); [intros [= <-]; lia|done].
Qed.

Inductive chain_ok : list Block -> Prop :=
| chain_nil : chain_ok []
| chain_cons b c : chain_ok c -> block_ok c b -> chain_ok (b :: c).

(** The funding inputs are spent by the funding transaction only. *)
Lemma funding_spends c b o : block_ok c b -> has_funding b = true -> o ∈ finputs -> o ∈ spent b.
Proof.
  intros Hok Hb Ho. apply bool_decide_eq_true in Hb.
  apply list_elem_of_fmap in Hb as (tx & Htx & Hin).
  apply list_elem_of_bind. exists tx. split; [|done]. by apply (bo_funding _ _ Hok tx).
Qed.

Lemma chain_ok_in c b : chain_ok c -> b ∈ c -> exists c', block_ok c' b.
Proof.
  induction 1 as [|b' c Hc IH Hb']; [by intros ?%elem_of_nil|].
  intros [-> | Hin]%elem_of_cons; eauto.
Qed.

Lemma ok_funding_fresh c b : block_ok c b -> has_funding b = true ->
  first_height has_funding c = None.
Proof.
  intros Hok Hb. apply first_height_None. intros b' Hb'. apply bool_decide_eq_true in Hb.
  apply bool_decide_eq_false. by apply (proj2 (bo_fresh_txids _ _ Hok)).
Qed.

Lemma ok_funding_no_double_spend c b : block_ok c b -> has_funding b = true ->
  first_height has_double_spend c = None.
Proof.
  intros Hok Hb. apply first_height_None. intros b' Hb'. unfold has_double_spend.
  rewrite bool_decide_true; [done|]. apply filter_none. intros o Ho Hin.
  by apply (proj2 (bo_no_double_spend _ _ Hok) o b' (funding_spends c b o Hok Hb Hin)).
Qed.

Lemma ok_funded_no_double_spend c b h : chain_ok c -> block_ok c b ->
  first_height has_funding c = Some h -> double_spends b = [].
Proof.
  intros Hc Hok Hh. apply filter_none. intros o Ho Hin.
  destruct (first_height_Some _ _ _ Hh) as (b' & Hb' & Hf). destruct (chain_ok_in c b' Hc Hb') as (c' & Hok').
  by apply (proj2 (bo_no_double_spend _ _ Hok) o b' Ho Hb'), (funding_spends c' b').
Qed.

Lemma ok_closing_fresh c b : block_ok c b -> has_closing b = true ->
  first_height has_closing c = None.
Proof.
  intros Hok Hb. apply first_height_None. intros b' Hb'. apply bool_decide_eq_true in Hb.
  apply bool_decide_eq_false. by apply (proj2 (bo_no_double_spend _ _ Hok)).
Qed.

Lemma ok_closing_funded c b : block_ok c b -> F ∈ spent b ->
  exists h, first_height has_funding c = Some h.
Proof.
  intros Hok (b' & Hb' & Hin)%(bo_closing_later _ _ Hok).
  destruct (first_height has_funding c) as [h|] eqn:Hn; [eauto|].
  assert (has_funding b' = false) as Hf by (by apply (proj1 (first_height_None _ c))).
  by apply bool_decide_eq_false in Hf.
Qed.

(** ** The monitor represents the chain *)

Record rep (c : list Block) (s : State) : Prop := {
  rep_follows : follows s;
  rep_height : height s = h0 + Z.of_nat (length c);
  rep_funding : funding_height s = first_height has_funding c;
  rep_outpoint : funding_outpoint s
    = match first_height has_funding c with Some _ => Some F | None => None end;
  rep_double_spent : funding_double_spent_height s = first_height has_double_spend c;
  rep_closing : closing_height s = first_height has_closing c;
  rep_idle : decode_state s = None
}.

Lemma block_txs_ok c b tx : block_ok c b -> tx ∈ b -> tx_ok tx.
Proof.
  intros Hok Hin. split; [|split].
  - intros Ht. by apply (bo_funding _ _ Hok tx).
  - by apply (bo_sizes _ _ Hok).
  - by apply (bo_closing _ _ Hok).
Qed.

Lemma stream_rep {E : Type} c b s hash : follows s -> block_ok c b ->
  (forall h, first_height has_funding c = Some h -> funding_outpoint s = Some F) ->
  (funding_outpoint s = Some F \/ funding_outpoint s = None) ->
  exists v i o, foldM (stream_tx (E := E)) (on_block_start s hash) b
    = Ok (streaming s (changes_of b) v i o None hash).
Proof.
  intros Hf Hok Hfo Hcase. apply (stream_block s hash Hf b [] 0 0 0).
  - intros tx. by apply (block_txs_ok c).
  - destruct Hcase as [?|Hn]; [by left|right]. split; [done|].
    intros HF. destruct (ok_closing_funded c b Hok HF) as (h & Hh). specialize (Hfo h Hh). congruence.
Qed.

Context {E : Type}.
Hypothesis Hh0 : 0 <= h0.

(** Adding a block. *)
Lemma add_block_rep c b s hash : rep c s -> chain_ok (b :: c) ->
  h0 + Z.of_nat (length (b :: c)) < 2 ^ 32 ->
  exists s', on_add_block (E := E) s b hash
      = Ok (s', adds_of (changes_of b), removes_of (changes_of b)) /\ rep (b :: c) s'.
Proof.
  intros [Hf Hh Hfh Hfo Hds Hch Hd] Hc Hlen. inversion Hc as [|? ? Hc' Hok]; subst.
  cbn [length] in Hlen. unfold on_add_block.
  destruct (stream_rep (E := E) c b s hash Hf Hok) as (v & i & o & ->).
  { intros h Hs. by rewrite Hfo, Hs. }
  { rewrite Hfo. destruct (first_height has_funding c); auto. }
  rewrite Ok_bind. unfold on_add_block_end. rewrite streaming_ready.
  cbn [decode_state streaming set_decode_state unwrap]. rewrite Ok_bind.
  cbn [block_hash changes]. rewrite bool_decide_true by done. cbn [assert_]. rewrite Ok_bind.
  unfold streaming. cbn [height set_decode_state]. rewrite add32_in, Ok_bind by lia.
  rewrite has_funding_changes, add_loop.
  - eexists. split; [done|]. rewrite has_funding_changes, double_spend_changes, closing_changes.
    split; cbn; rewrite ?Hh, ?Hfh, ?Hfo, ?Hds, ?Hch; try done.
    + lia.
    + destruct (has_funding b) eqn:Hb; [rewrite (ok_funding_fresh c b) by done; f_equal; lia|].
      by destruct (first_height has_funding c).
    + destruct (has_funding b) eqn:Hb; [by rewrite (ok_funding_fresh c b) by done|].
      by destruct (first_height has_funding c).
    + rewrite andb_comm. fold (has_double_spend b).
      destruct (has_double_spend b), (first_height has_double_spend c); cbn; try done. f_equal; lia.
    + destruct (has_closing b) eqn:Hb; [rewrite (ok_closing_fresh c b) by done; f_equal; lia|].
      by destruct (first_height has_closing c).
  - apply changes_ok. intros tx Hin HF. by apply (bo_closing _ _ Hok tx).
  - rewrite has_funding_changes, double_spend_changes. cbn.
    destruct (has_funding b) eqn:Hb; [by rewrite Hds, (ok_funding_no_double_spend c b)|].
    split; [done|]. intros Hn. rewrite Hfh.
    destruct (first_height has_funding c) as [h|] eqn:Hs; [|done].
    rewrite (ok_funded_no_double_spend c b h) in Hn by done. done.
Qed.

(** Removing the last block gives back the chain before it, and the same
    outpoints as adding it did. *)
Lemma remove_block_rep c b s hash : rep (b :: c) s -> chain_ok (b :: c) ->
  h0 + Z.of_nat (length (b :: c)) < 2 ^ 32 ->
  exists s', on_remove_block (E := E) s b hash
      = Ok (s', adds_of (changes_of b), removes_of (changes_of b)) /\ rep c s'.
Proof.
  intros [Hf Hh Hfh Hfo Hds Hch Hd] Hc Hlen. inversion Hc as [|? ? Hc' Hok]; subst.
  cbn [length first_height] in *. unfold on_remove_block.
  destruct (stream_rep (E := E) c b s hash Hf Hok) as (v & i & o & ->).
  { intros h Hs. by rewrite Hfo, Hs. }
  { rewrite Hfo. destruct (first_height has_funding c), (has_funding b); auto. }
  rewrite Ok_bind. unfold on_remove_block_end. rewrite streaming_ready.
  cbn [decode_state streaming set_decode_state unwrap]. rewrite Ok_bind.
  cbn [block_hash changes]. rewrite bool_decide_true by done. cbn [assert_]. rewrite Ok_bind.
  rewrite has_funding_changes. rewrite remove_loop; unfold streaming;
    cbn [height funding_height funding_outpoint funding_double_spent_height closing_height
         set_decode_state set_heights];
    rewrite ?has_funding_changes, ?double_spend_changes, ?closing_changes, ?Hfh, ?Hds, ?Hch.
  - rewrite Ok_bind. cbn [height set_heights set_decode_state]. rewrite Hh, sub32_in, Ok_bind by lia. eexists. split; [done|].
    split; cbn; rewrite ?Hfh, ?Hfo, ?Hds, ?Hch; try done.
    + lia.
    + destruct (has_funding b) eqn:Hb; [by rewrite (ok_funding_fresh c b)|].
      by destruct (first_height has_funding c).
    + destruct (has_funding b) eqn:Hb; [by rewrite (ok_funding_fresh c b)|].
      by destruct (first_height has_funding c).
    + rewrite (andb_comm (negb (has_funding b))). fold (has_double_spend b).
      destruct (first_height has_double_spend c) as [h|] eqn:Hs.
      * apply first_height_range in Hs. rewrite bool_decide_false by (intros [= ->]; lia).
        by rewrite andb_false_r.
      * destruct (has_double_spend b); [by rewrite bool_decide_true|done].
    + destruct (has_closing b) eqn:Hb; [by rewrite (ok_closing_fresh c b)|].
      by destruct (first_height has_closing c).
  - apply changes_ok. intros tx Hin HF. by apply (bo_closing _ _ Hok tx).
  - apply count_at_most_one. rewrite count_funding. by apply NoDup_count, (bo_fresh_txids _ _ Hok).
  - apply count_at_most_one. etransitivity; [apply count_closings|].
    by apply NoDup_count, (bo_no_double_spend _ _ Hok).
  - intros Hb. rewrite Hh, Hb. by rewrite (ok_funding_fresh c b).
  - intros Hb. rewrite Hh, Hb. by rewrite (ok_closing_fresh c b).
  - intros Hb. split; [apply count_at_most_one; rewrite count_double_spends;
      by apply (bo_one_double_spend _ _ Hok)|].
    intros Hn. unfold has_double_spend at 2. rewrite Hn, Hb. cbn.
    destruct (first_height has_double_spend c); by eexists.
Qed.

Lemma depth_of_in c s h : rep c s -> h0 + Z.of_nat (length c) < 2 ^ 32 - 1 ->
  (forall h', h = Some h' -> h0 < h' <= h0 + Z.of_nat (length c)) ->
  depth_of (E := E) s h = Ok (depth_in c h).
Proof.
  intros Hr Hlen Hh. destruct h as [h|]; [|done]. specialize (Hh h eq_refl). cbn [depth_of depth_in].
  rewrite (rep_height _ _ Hr), add32_in, Ok_bind, sub32_in by lia. done.
Qed.

Lemma rep_chain_state c s : rep c s -> h0 + Z.of_nat (length c) < 2 ^ 32 - 1 ->
  as_chain_state (E := E) s = Ok (chain_state c).
Proof.
  intros Hr Hlen. unfold as_chain_state.
  rewrite (rep_funding _ _ Hr), (rep_double_spent _ _ Hr), (rep_closing _ _ Hr).
  rewrite !(depth_of_in c) by (try done; intros h'; apply first_height_range).
  rewrite !Ok_bind, (rep_height _ _ Hr). done.
Qed.

(** ** Following the chain *)

Inductive ChainEvent :=
| AddBlock (b : Block) (hash : BlockHash)
| RemoveBlock (b : Block) (hash : BlockHash).

Definition on_event (s : State) (ev : ChainEvent) : outcome E State :=
  match ev with
  | AddBlock b hash => '(s, _, _) ← on_add_block s b hash; Ok s
  | RemoveBlock b hash => '(s, _, _) ← on_remove_block s b hash; Ok s
  end.

(** [events_ok c evs c']: the events turn the chain [c] into [c']; a block is
    removed with the transactions it was added with. *)
Inductive events_ok : list Block -> list ChainEvent -> list Block -> Prop :=
| ev_nil c : events_ok c [] c
| ev_add b hash c evs c' :
    block_ok c b -> events_ok (b :: c) evs c' -> events_ok c (AddBlock b hash :: evs) c'
| ev_remove b hash c evs c' :
    events_ok c evs c' -> events_ok (b :: c) (RemoveBlock b hash :: evs) c'.

Lemma events_rep c evs c' : events_ok c evs c' -> forall s, rep c s -> chain_ok c ->
  h0 + Z.of_nat (length c + length evs) < 2 ^ 32 - 1 ->
  exists s', foldM on_event s evs = Ok s' /\ rep c' s'
    /\ h0 + Z.of_nat (length c') < 2 ^ 32 - 1.
Proof.
  induction 1 as [c|b hash c evs c' Hok Hev IH|b hash c evs c' Hev IH]; intros s Hr Hc Hlen;
    cbn [length foldM on_event] in *.
  - exists s. split; [done|]. split; [done|lia].
  - assert (Hc' : chain_ok (b :: c)) by (by constructor).
    destruct (add_block_rep c b s hash Hr Hc') as (s1 & -> & Hr1); [cbn [length]; lia|].
    rewrite !Ok_bind. apply IH; [done|done|cbn [length]; lia].
  - destruct (remove_block_rep c b s hash Hr Hc) as (s1 & -> & Hr1); [cbn [length]; lia|].
    rewrite !Ok_bind. inversion Hc; subst. apply IH; [done|done|lia].
Qed.
End spec.

(** A monitor created at height [h0] for the funding outpoint [F], that knows
    the funding transaction or, when the counterparty funds, does not. *)
Definition start {E : Type} (h0 : Z) (F : OutPoint) (funding_tx : option Transaction)
  : outcome E State :=
  s ← add_funding_outpoint (new h0) F;
  Ok (match funding_tx with Some tx => add_funding_inputs s tx | None => s end).

Definition known_inputs (funding_tx : option Transaction) : gset OutPoint :=
  match funding_tx with Some tx => list_to_set (tx_spent tx) | None => ∅ end.

Lemma start_rep {E : Type} `{L : Lib} h0 F ftx :
  exists s, start (E := E) h0 F ftx = Ok s /\ rep h0 F (known_inputs ftx) [] s.
Proof.
  unfold start, add_funding_outpoint. cbn. eexists. split; [done|].
  destruct ftx as [tx|]; split; cbn; try done; try lia; split; try done; split; try done.
  cbn. unfold tx_spent. by rewrite union_empty_l_L.
Qed.


(** ** Failures and witnesses *)

Definition example_in (n : Z) : TxIn := {|
  previous_output := {| op_txid := [n]; vout := 0 |}; script_sig := []; sequence := 0;
  witness := [] |}.

Definition example_out (v : Z) : TxOut := {| out_value := v; script_pubkey := [] |}.

(** A funding transaction with two inputs, the output it funds, a transaction
    that spends that output, and one that spends both inputs instead. *)
Definition example_funding_tx : Transaction := {|
  version := 2; lock_time := 0; input := [example_in 1; example_in 2];
  output := [example_out 1000; example_out 10] |}.

Definition example_funding : OutPoint := {| op_txid := @txid example_lib example_funding_tx; vout := 0 |}.

Definition example_closing_tx : Transaction := {|
  version := 2; lock_time := 5;
  input := [{| previous_output := example_funding; script_sig := []; sequence := 0; witness := [] |}];
  output := [example_out 900] |}.

Definition example_conflict_tx : Transaction := {|
  version := 2; lock_time := 7; input := [example_in 1; example_in 2];
  output := [example_out 1000] |}.

Definition example_events : list ChainEvent :=
  [AddBlock [example_funding_tx] [10]; AddBlock [example_closing_tx] [11];
   RemoveBlock [example_closing_tx] [11]].

(** The reorganisation of a double spend of two inputs panics.  The monitor
    of a funding transaction with two inputs accepts a block in which another
    transaction spends both, and reports the double spend, but panics when
    that block is removed: the first of the two changes clears the height
    that the second one asserts. *)
Theorem two_double_spends_reorg_panics (Prof : Profile) :
  let mon := @start unit 100 example_funding (Some example_funding_tx) in
  (s ← mon; s ← @on_event example_lib Prof unit s (AddBlock [example_conflict_tx] [10]);
   cs ← @as_chain_state Prof unit s; Ok (Enforcement.funding_double_spent_depth cs)) = Ok 1
  /\ (s ← mon; s ← @on_event example_lib Prof unit s (AddBlock [example_conflict_tx] [10]);
      @on_event example_lib Prof unit s (RemoveBlock [example_conflict_tx] [10])) = Panic.
Proof. destruct Prof; by vm_compute. Qed.

(** A channel that is funded and closed in the same block counts as open.
    The outpoint to watch is set when the block ends, so the transaction that
    spends it is not seen: the closing depth stays zero, and when the block is
    removed the closing is seen and the monitor panics. *)
Theorem same_block_closing_missed (Prof : Profile) :
  let mon := @start unit 100 example_funding (Some example_funding_tx) in
  let b := [example_funding_tx; example_closing_tx] in
  (s ← mon; s ← @on_event example_lib Prof unit s (AddBlock b [10]);
   cs ← @as_chain_state Prof unit s; Ok (Enforcement.funding_depth cs, closing_depth cs)) = Ok (1, 0)
  /\ (s ← mon; s ← @on_event example_lib Prof unit s (AddBlock b [10]);
      @on_event example_lib Prof unit s (RemoveBlock b [10])) = Panic.
Proof. destruct Prof; by vm_compute. Qed.

Lemma example_block_ok (c : list Block) (tx : Transaction) :
  let F := example_funding in let ins := known_inputs (Some example_funding_tx) in
  c = [] /\ tx = example_funding_tx \/ c = [[example_funding_tx]] /\ tx = example_closing_tx ->
  @block_ok example_lib F ins c [tx].
Proof.
  intros F ins [[-> ->]|[-> ->]]; split.
  all: try (intros tx ->%list_elem_of_singleton; try (intros ?; by vm_compute); by vm_compute).
  all: try (split; [apply (bool_decide_unpack _); by vm_compute|]).
  all: try (by intros ? ? _ ?%elem_of_nil).
  all: try (intros o b Ho ->%list_elem_of_singleton; revert o Ho;
            apply (Forall_forall (fun o => o ∉ _)), (bool_decide_unpack _); by vm_compute).
  all: try (intros H; by vm_compute in H).
  - intros tx ->%list_elem_of_singleton _. split; [|by vm_compute]. intros o Ho.
    apply elem_of_list_to_set in Ho. done.
  - intros tx ->%list_elem_of_singleton H. by apply (bool_decide_pack _) in H.
  - intros H. by apply (bool_decide_pack _) in H.
  - intros _. exists [example_funding_tx]. split; [by apply list_elem_of_singleton|].
    apply (bool_decide_unpack _). by vm_compute.
  - intros _. apply Nat.leb_le. by vm_compute.
Qed.

End Monitor.
