(* ===== verification/Tracker.v ===== *)
(** * The chain tracker (vls-core/src/chain/tracker.rs)

    The headers of the chain, checked to be linked and mined, the listeners
    that are told about every block added or removed, and the outpoints that
    the proof of a block must account for.  Listeners are used through an
    interface: what the tracker promises to validators is proved from the
    laws of that interface, and the channel monitor is shown to obey them. *)

From S2P Require Import Prelude Policy Extern Enforcement Monitor.

Notation BlockHash := (list Z).
Notation FilterHeader := (list Z).

(** ** The crates the tracker is built on: bitcoin, txoo and push_decoder *)

Record BlockHeader := {
  header_version : Z;
  prev_blockhash : BlockHash;
  merkle_root : list Z;
  time : Z;
  bits : Z;
  nonce : Z
}.

#[global] Instance BlockHeader_eq_dec : EqDecision BlockHeader.
Proof. solve_decision. Defined.

(** [txoo::proof::ProofType]: the transactions of a block that matter, a whole
    block, or a block that is streamed on its own. *)
Inductive ProofType :=
| ProofFilter (txs : list Transaction)
| ProofBlock (block_hash : BlockHash)
| ProofExternalBlock.

Definition is_external (p : ProofType) : bool :=
  match p with ProofExternalBlock => true | _ => false end.

Inductive VerifyError := InvalidAttestation | OtherVerifyError.

(** The events of [push_decoder::Listener]. *)
Inductive PushEvent :=
| OnBlockStart (header : BlockHeader)
| OnTransactionStart (v : Z)
| OnTransactionInput (inp : TxIn)
| OnTransactionOutput (out : TxOut)
| OnTransactionEnd (locktime : Z) (id : Txid)
| OnBlockEnd.

Class ChainLib := {
  header_hash : BlockHeader -> BlockHash;
  target : BlockHeader -> Z;
  validate_pow : BlockHeader -> Z -> bool;
  compact_target_from_u256 : Z -> Z;
  u256_from_compact_target : Z -> Z;

  TxoProof : Type;
  proof : TxoProof -> ProofType;
  proof_filter_header : TxoProof -> FilterHeader;
  verify : TxoProof -> Z -> BlockHeader -> option BlockHash -> FilterHeader -> list OutPoint ->
    option VerifyError;

  BlockDecoder : Type;
  decoder_new : BlockDecoder;
  decode_next : BlockDecoder -> bytes -> option (BlockDecoder * list PushEvent);
  decoder_finish : BlockDecoder -> bool
}.

Definition DIFFCHANGE_INTERVAL : Z := 2016.

(** ** The interface of a listener *)

Class ChainListener (Lst : Type) := {
  key : Lst -> OutPoint;
  on_add_block {E : Type} : Lst -> list Transaction -> BlockHash ->
    outcome E (Lst * list OutPoint * list OutPoint);
  on_add_streamed_block {E : Type} : Lst -> BlockHash ->
    outcome E (Lst * list OutPoint * list OutPoint);
  on_remove_block {E : Type} : Lst -> list Transaction -> BlockHash ->
    outcome E (Lst * list OutPoint * list OutPoint);
  on_remove_streamed_block {E : Type} : Lst -> BlockHash ->
    outcome E (Lst * list OutPoint * list OutPoint);
  on_push {E : Type} : Lst -> PushEvent -> outcome E Lst
}.

(** ** Data *)

Inductive Error := InvalidChain | InvalidBlock | ReorgTooDeep | InvalidProof.

Record ListenSlot := {
  txid_watches : gset Txid;
  watches : gset OutPoint;
  seen : gset OutPoint
}.

Notation Headers := (BlockHeader * FilterHeader)%type.

Record BlockDecodeState `{ChainLib} := {
  decoder : BlockDecoder;
  offset : Z;
  block_hash : BlockHash
}.
Arguments BlockDecodeState {_}.

Record ChainTracker `{ChainLib} (Lst : Type) := {
  headers : list Headers;
  tip : Headers;
  height : Z;
  network : Network;
  listeners : gmap OutPoint (Lst * ListenSlot);
  tracker_policy : Policy;
  decode_state : option BlockDecodeState
}.
Arguments headers {_ _} _.
Arguments tip {_ _} _.
Arguments height {_ _} _.
Arguments network {_ _} _.
Arguments listeners {_ _} _.
Arguments tracker_policy {_ _} _.
Arguments decode_state {_ _} _.

Definition MAX_REORG_SIZE : nat := 100.

Module Tracker.
Section tracker.
Context `{CL : ChainLib, Prof : Profile} {Lst : Type} `{!ChainListener Lst}.
Notation Tracker := (ChainTracker Lst).
Implicit Types self : Tracker.

Definition set_chain self (hs : list Headers) (t : Headers) (h : Z) : Tracker := {|
  headers := hs; tip := t; height := h; network := network self; listeners := listeners self;
  tracker_policy := tracker_policy self; decode_state := decode_state self |}.

Definition set_listeners self (ls : gmap OutPoint (Lst * ListenSlot)) : Tracker := {|
  headers := headers self; tip := tip self; height := height self; network := network self;
  listeners := ls; tracker_policy := tracker_policy self; decode_state := decode_state self |}.

Definition set_decode_state self (d : option BlockDecodeState) : Tracker := {|
  headers := headers self; tip := tip self; height := height self; network := network self;
  listeners := listeners self; tracker_policy := tracker_policy self; decode_state := d |}.

(** ** Creation *)

Definition new (net : Network) (h : Z) (t : Headers) (p : Policy) : outcome Error Tracker :=
  if validate_pow t.1 (target t.1) then
    Ok {| headers := []; tip := t; height := h; network := net; listeners := ∅;
          tracker_policy := p; decode_state := None |}
  else Err InvalidBlock.

Definition restore (hs : list Headers) (t : Headers) (h : Z) (net : Network)
  (ls : gmap OutPoint (Lst * ListenSlot)) (p : Policy) : Tracker := {|
  headers := hs; tip := t; height := h; network := net; listeners := ls; tracker_policy := p;
  decode_state := None |}.

Definition from_checkpoint (net : Network) (header : BlockHeader) (filter_header : FilterHeader)
  (h : Z) (p : Policy) : outcome Error Tracker :=
  unwrap_ok (new net h (header, filter_header) p).

(** ** Validation *)

Definition max_target (net : Network) : Z :=
  match net with
  | Regtest => Z.shiftl 0x7fffff (256 - 24)
  | _ => Z.shiftl 0xFFFF 208
  end.

Definition round_trip_target (t : Z) : Z := u256_from_compact_target (compact_target_from_u256 t).

(** [Uint256] shifts drop the bits above the width. *)
Definition validate_retarget (prev_target t : Z) (net : Network) : outcome Error unit :=
  let min := round_trip_target (Z.shiftr prev_target 2) in
  let max := round_trip_target (Z.shiftl prev_target 2 mod 2 ^ 256) in
  let chain_max := max_target net in
  whenb (chain_max <? t) (Err InvalidBlock);;
  whenb (t <? min) (Err InvalidChain);;
  whenb (max <? t) (Err InvalidChain).

(** The default [Validator::validate_block] of policy/validator.rs. *)
Definition validator_validate_block (p : Policy) (prf : TxoProof) (h : Z) (header : BlockHeader)
  (external_block_hash : option BlockHash) (prev_filter_header : FilterHeader)
  (outpoint_watches : list OutPoint) : result unit :=
  match verify prf h header external_block_hash prev_filter_header outpoint_watches with
  | None => Ok tt
  | Some InvalidAttestation =>
      policy_err p "policy-chain-validated" "validate_block" "invalid attestation"
  | Some OtherVerifyError =>
      policy_err p "policy-chain-validated" "validate_block" "invalid proof {:?}"
  end.

Definition get_all_watches self (include_reverse : bool) : gset Txid * gset OutPoint :=
  map_fold (fun _ (ls : Lst * ListenSlot) acc =>
      (acc.1 ∪ txid_watches ls.2,
       acc.2 ∪ watches ls.2 ∪ (if include_reverse then seen ls.2 else ∅)))
    (∅, ∅) (listeners self).

Definition get_all_forward_watches self : gset Txid * gset OutPoint := get_all_watches self false.
Definition get_all_reverse_watches self : gset Txid * gset OutPoint := get_all_watches self true.

(** The rule on the difficulty of a block. *)
Definition validate_bits self (h : Z) (prev_header header : BlockHeader) : outcome Error unit :=
  late ← (if bool_decide (network self = Testnet) && (target header =? max_target (network self))
          then t ← add32 (time prev_header) (60 * 20); Ok (t <? time header)
          else Ok false);
  if late : bool then Ok tt
  else
    h1 ← add32 h 1;
    if h1 mod DIFFCHANGE_INTERVAL =? 0 then
      validate_retarget (target prev_header) (target header) (network self)
    else
      whenb (negb (bits header =? bits prev_header) && negb (bool_decide (network self = Testnet)))
        (Err InvalidChain).

Definition validate_block self (h : Z) (external_block_hash : option BlockHash)
  (prev_headers hdrs : Headers) (prf : TxoProof) (is_remove : bool) : outcome Error unit :=
  let header := hdrs.1 in
  let prev_header := prev_headers.1 in
  whenb (negb (bool_decide (prev_blockhash header = header_hash prev_header)))
    (Err InvalidChain);;
  whenb (negb (validate_pow header (target header))) (Err InvalidBlock);;
  validate_bits self h prev_header header;;
  let '(_, outpoint_watches) :=
    if is_remove then get_all_reverse_watches self else get_all_forward_watches self in
  let prev_filter_header := prev_headers.2 in
  if forallb (Z.eqb 0) prev_filter_header then Ok tt
  else
    h1 ← add32 h 1;
    map_err (fun _ => InvalidProof)
      (validator_validate_block (tracker_policy self) prf h1 header external_block_hash
         prev_filter_header (elements outpoint_watches)).

(** ** Listeners *)

Definition add_listener self (listener : Lst) (initial_txid_watches : gset Txid) : Tracker :=
  set_listeners self (<[key listener := (listener, {| txid_watches := initial_txid_watches;
    watches := ∅; seen := ∅ |})]> (listeners self)).

Definition add_listener_watches self (k : OutPoint) (ws : gset OutPoint)
  : outcome Error Tracker :=
  '(listener, slot) ← unwrap (listeners self !! k);
  Ok (set_listeners self (<[k := (listener, {| txid_watches := txid_watches slot;
        watches := watches slot ∪ ws; seen := seen slot |})]> (listeners self))).

Section notify.
Context {E : Type}.

(** A loop over the values of the map of listeners. *)
Definition for_each_listener self (f : Lst * ListenSlot -> outcome E (Lst * ListenSlot))
  : outcome E Tracker :=
  ls ← foldM (fun (ls : gmap OutPoint (Lst * ListenSlot)) kv =>
      v ← f kv.2; Ok (<[kv.1 := v]> ls)) (listeners self) (map_to_list (listeners self));
  Ok (set_listeners self ls).

Definition notify_add (txs : option (list Transaction)) (hash : BlockHash)
  (ls : Lst * ListenSlot) : outcome E (Lst * ListenSlot) :=
  '(listener, adds, removes) ←
    match txs with
    | Some txs => on_add_block ls.1 txs hash
    | None => on_add_streamed_block ls.1 hash
    end;
  Ok (listener, {| txid_watches := txid_watches ls.2;
    watches := (watches ls.2 ∪ list_to_set adds) ∖ list_to_set removes;
    seen := seen ls.2 ∪ list_to_set removes |}).

Definition notify_listeners_add self (txs : option (list Transaction)) (hash : BlockHash)
  : outcome E Tracker := for_each_listener self (notify_add txs hash).

Definition notify_remove (txs : option (list Transaction)) (hash : BlockHash)
  (ls : Lst * ListenSlot) : outcome E (Lst * ListenSlot) :=
  '(listener, adds, removes) ←
    match txs with
    | Some txs => on_remove_block ls.1 txs hash
    | None => on_remove_streamed_block ls.1 hash
    end;
  Ok (listener, {| txid_watches := txid_watches ls.2;
    watches := (watches ls.2 ∪ list_to_set removes) ∖ list_to_set adds;
    seen := seen ls.2 ∖ list_to_set removes |}).

Definition notify_listeners_remove self (txs : option (list Transaction)) (hash : BlockHash)
  : outcome E Tracker := for_each_listener self (notify_remove txs hash).

(** ** Streaming *)

(** [ChainTrackerPushListener]: every listener gets every event. *)
Definition push_event (hash : BlockHash) self (ev : PushEvent) : outcome E Tracker :=
  match ev with
  | OnBlockStart header => assert_ (bool_decide (header_hash header = hash))
  | _ => Ok tt
  end;;
  for_each_listener self (fun ls => l ← on_push ls.1 ev; Ok (l, ls.2)).

Definition block_chunk self (hash : BlockHash) (off : Z) (chunk : bytes) : outcome E Tracker :=
  self ← (if off =? 0 then
            assert_ (negb (bool_decide (is_Some (decode_state self))));;
            Ok (set_decode_state self (Some {| decoder := decoder_new; offset := 0;
                                               block_hash := hash |}))
          else Ok self);
  match decode_state self with
  | Some d =>
      assert_ (bool_decide (block_hash d = hash));;
      assert_ (offset d =? off);;
      '(dec, events) ← unwrap (decode_next (decoder d) chunk);
      self ← foldM (push_event hash) self events;
      o ← add32 (offset d) (as_u 32 (Z.of_nat (length chunk)));
      Ok (set_decode_state self (Some {| decoder := dec; offset := o; block_hash := hash |}))
  | None => Panic
  end.

Definition maybe_finish_decoding_block self (prf : TxoProof) (expected : BlockHash)
  : outcome E Tracker :=
  assert_ (Bool.eqb (is_external (proof prf)) (bool_decide (is_Some (decode_state self))));;
  match decode_state self with
  | Some d =>
      assert_ (decoder_finish (decoder d));;
      assert_ (bool_decide (block_hash d = expected));;
      Ok (set_decode_state self None)
  | None => Ok self
  end.
End notify.

(** ** Adding and removing a block

    An error carries the tracker it leaves behind. *)

Notation tracked A := (outcome (Tracker * Error) (Tracker * A)).

Definition notify_proof (prf : TxoProof) (notify : option (list Transaction) ->
  outcome (Tracker * Error) Tracker) : outcome (Tracker * Error) Tracker :=
  match proof prf with
  | ProofFilter txs => notify (Some txs)
  | ProofBlock _ => Panic
  | ProofExternalBlock => notify None
  end.

Definition add_block self (header : BlockHeader) (prf : TxoProof) : tracked unit :=
  let message_block_hash := header_hash header in
  self ← maybe_finish_decoding_block self prf message_block_hash;
  let filter_header := proof_filter_header prf in
  let hdrs := (header, filter_header) in
  let expected := if is_external (proof prf) then Some message_block_hash else None in
  map_err (fun e => (self, e))
    (validate_block self (height self) expected (tip self) hdrs prf false);;
  self ← notify_proof prf (fun txs => notify_listeners_add self txs message_block_hash);
  h ← add32 (height self) 1;
  Ok (set_chain self (tip self :: take (MAX_REORG_SIZE - 1) (headers self)) hdrs h, tt).

Definition remove_block self (prf : TxoProof) : tracked BlockHeader :=
  match headers self with
  | [] => Err (self, ReorgTooDeep)
  | prev_headers :: rest =>
      let tip_block_hash := header_hash prev_headers.1 in
      self ← maybe_finish_decoding_block self prf tip_block_hash;
      let expected := if is_external (proof prf) then Some tip_block_hash else None in
      h ← sub32 (height self) 1;
      map_err (fun e => (self, e))
        (validate_block self h expected prev_headers (tip self) prf true);;
      self ← notify_proof prf (fun txs => notify_listeners_remove self txs tip_block_hash);
      h ← sub32 (height self) 1;
      Ok (set_chain self rest prev_headers h, (tip self).1)
  end.

(** ** The loop over the listeners *)

Lemma for_each_list {E A : Type} (f : A -> outcome E A) (P : OutPoint -> A -> A -> Prop)
  (l : list (OutPoint * A)) : forall acc : gmap OutPoint A,
  NoDup l.*1 -> (forall k v, (k, v) ∈ l -> exists v', f v = Ok v' /\ P k v v') ->
  exists acc', foldM (fun (m : gmap OutPoint A) kv => v ← f kv.2; Ok (<[kv.1 := v]> m)) acc l
      = Ok acc'
    /\ (forall k v, (k, v) ∈ l -> exists v', acc' !! k = Some v' /\ P k v v')
    /\ (forall k, k ∉ l.*1 -> acc' !! k = acc !! k).
Proof.
  induction l as [|[k v] l IH]; intros acc Hnd Hf; cbn [foldM].
  - exists acc. split; [done|]. split; [by intros ? ? ?%elem_of_nil|done].
  - rewrite fmap_cons in Hnd. apply NoDup_cons in Hnd as [Hk Hnd]. cbn [fst snd] in *.
    destruct (Hf k v (list_elem_of_here _ _)) as (v' & -> & Hp). rewrite !Ok_bind.
    destruct (IH (<[k := v']> acc) Hnd) as (acc' & -> & Hin & Hout).
    { intros k1 v1 H1. apply Hf. by apply list_elem_of_further. }
    exists acc'. split; [done|]. split.
    + intros k1 v1 [[= -> ->]|H1]%elem_of_cons; [|by apply Hin].
      exists v'. rewrite Hout by done. by rewrite lookup_insert_eq.
    + intros k1 [Hne Hk1]%not_elem_of_cons. rewrite Hout by done. by rewrite lookup_insert_ne.
Qed.

Lemma for_each_listener_ok {E : Type} self (f : Lst * ListenSlot -> outcome E (Lst * ListenSlot))
  (P : OutPoint -> Lst * ListenSlot -> Lst * ListenSlot -> Prop) :
  (forall k v, listeners self !! k = Some v -> exists v', f v = Ok v' /\ P k v v') ->
  exists ls, for_each_listener self f = Ok (set_listeners self ls)
    /\ forall k, option_Forall2 (P k) (listeners self !! k) (ls !! k).
Proof.
  intros Hf. unfold for_each_listener.
  destruct (for_each_list f P (map_to_list (listeners self)) (listeners self))
    as (ls & -> & Hin & Hout).
  - apply NoDup_fst_map_to_list.
  - intros k v H. apply Hf. by apply elem_of_map_to_list.
  - rewrite Ok_bind. exists ls. split; [done|]. intros k.
    destruct (listeners self !! k) as [v|] eqn:Hk.
    + destruct (Hin k v) as (v' & -> & ?); [by apply elem_of_map_to_list|]. by constructor.
    + rewrite Hout, Hk; [constructor|]. intros (kv & -> & H)%list_elem_of_fmap.
      destruct kv. apply elem_of_map_to_list in H. cbn in Hk. congruence.
Qed.

(** ** What a listener promises

    [lrep l0 c l]: [l] is what the listener [l0] becomes after the blocks [c],
    the last one first.  For the chains that [lok] allows, adding a block and
    removing it succeed, return the same outpoints, and follow the chain; the
    outpoints a block makes a listener watch are new. *)

Notation Block := (list Transaction).

Class ListenerLaws := {
  lrep : Lst -> list Block -> Lst -> Prop;
  lok : Lst -> list Block -> Prop;
  ladds : Lst -> Block -> list OutPoint;
  lremoves : Lst -> Block -> list OutPoint;
  law_add {E : Type} l0 c b l hash : lrep l0 c l -> lok l0 (b :: c) ->
    exists l', on_add_block (E := E) l b hash = Ok (l', ladds l0 b, lremoves l0 b)
      /\ lrep l0 (b :: c) l';
  law_remove {E : Type} l0 c b l hash : lrep l0 (b :: c) l -> lok l0 (b :: c) ->
    exists l', on_remove_block (E := E) l b hash = Ok (l', ladds l0 b, lremoves l0 b)
      /\ lrep l0 c l';
  law_tail l0 b c : lok l0 (b :: c) -> lok l0 c;
  law_fresh l0 b c o : lok l0 (b :: c) -> o ∈ ladds l0 b -> forall b', b' ∈ c -> o ∉ ladds l0 b'
}.

Context `{!ListenerLaws}.

(** The outpoints that were watched at the start or added since. *)
Definition watched (ls0 : Lst * ListenSlot) (c : list Block) (o : OutPoint) : Prop :=
  o ∈ watches ls0.2 \/ exists b, b ∈ c /\ o ∈ ladds ls0.1 b.

Record listener_rep (c : list Block) (ls0 ls : Lst * ListenSlot) : Prop := {
  lr_state : lrep ls0.1 c ls.1;
  lr_ok : lok ls0.1 c;
  lr_watched : forall o, watched ls0 c o -> o ∈ watches ls.2 ∪ seen ls.2
}.

(** A listener does not watch at the start what a block will add. *)
Definition fresh_start (ls0 : Lst * ListenSlot) : Prop :=
  forall b o, o ∈ ladds ls0.1 b -> o ∉ watches ls0.2.

Lemma notify_add_rep {E : Type} c b hash ls0 ls : listener_rep c ls0 ls -> lok ls0.1 (b :: c) ->
  exists ls', notify_add (E := E) (Some b) hash ls = Ok ls' /\ listener_rep (b :: c) ls0 ls'.
Proof.
  intros [Hs Ho Hw] Hok. unfold notify_add.
  destruct (law_add (E := E) ls0.1 c b ls.1 hash Hs Hok) as (l' & -> & Hl'). rewrite Ok_bind.
  eexists. split; [done|]. split; [done|done|]. cbn [snd watches seen]. intros o Hwo.
  assert (Hor : o ∈ watches ls.2 ∪ seen ls.2 \/ o ∈ ladds ls0.1 b).
  { destruct Hwo as [?|(b' & [-> | Hin]%elem_of_cons & ?)]; [left; apply Hw; by left|by right|].
    left. apply Hw. right. eauto. }
  rewrite elem_of_union, elem_of_difference, !elem_of_union, !elem_of_list_to_set in *.
  destruct (decide (o ∈ lremoves ls0.1 b)); [auto|]. destruct Hor as [[?|?]|?]; auto.
Qed.

Lemma notify_remove_rep {E : Type} c b hash ls0 ls : fresh_start ls0 ->
  listener_rep (b :: c) ls0 ls ->
  exists ls', notify_remove (E := E) (Some b) hash ls = Ok ls' /\ listener_rep c ls0 ls'.
Proof.
  intros Hfs [Hs Ho Hw]. unfold notify_remove.
  destruct (law_remove (E := E) ls0.1 c b ls.1 hash Hs Ho) as (l' & -> & Hl'). rewrite Ok_bind.
  eexists. split; [done|]. split; [done|by eapply law_tail|]. cbn [snd watches seen]. intros o Hwo.
  assert (Hin : o ∈ watches ls.2 ∪ seen ls.2 /\ o ∉ ladds ls0.1 b).
  { destruct Hwo as [Hwo|(b' & Hb' & Hwo)].
    - split; [apply Hw; by left|]. intros ?. by apply (Hfs b o).
    - split; [apply Hw; right; exists b'; by rewrite elem_of_cons; auto|].
      intros Hin. by apply (law_fresh _ _ _ o Ho Hin b'). }
  rewrite elem_of_union, !elem_of_difference, !elem_of_union, !elem_of_list_to_set in *.
  destruct (decide (o ∈ lremoves ls0.1 b)); tauto.
Qed.

(** ** The tracker represents the chain *)

(** Each header names the one before it and meets its own target. *)
Fixpoint linked (hs : list Headers) : Prop :=
  match hs with
  | h1 :: (h2 :: _) as hs' =>
      prev_blockhash h1.1 = header_hash h2.1 /\ validate_pow h1.1 (target h1.1) = true /\ linked hs'
  | _ => True
  end.

Record trep (t0 : Tracker) (c : list (Headers * Block)) (t : Tracker) : Prop := {
  tr_headers : (tip t :: headers t) `prefix_of` (c.*1 ++ tip t0 :: headers t0);
  tr_bound : (length (headers t) <= MAX_REORG_SIZE)%nat;
  tr_height : height t = height t0 + Z.of_nat (length c);
  tr_linked : linked (c.*1 ++ [tip t0]);
  tr_listeners : forall k,
    option_Forall2 (listener_rep c.*2) (listeners t0 !! k) (listeners t !! k);
  tr_static : network t = network t0 /\ tracker_policy t = tracker_policy t0;
  tr_idle : decode_state t = None
}.

(** With a proof that carries the transactions, a block is added exactly when
    it is valid. *)
Lemma add_block_filter t header prf txs : decode_state t = None -> proof prf = ProofFilter txs ->
  add_block t header prf
  = match validate_block t (height t) None (tip t) (header, proof_filter_header prf) prf false with
    | Ok _ =>
        t' ← notify_listeners_add t (Some txs) (header_hash header);
        h ← add32 (height t') 1;
        Ok (set_chain t' (tip t' :: take (MAX_REORG_SIZE - 1) (headers t'))
              (header, proof_filter_header prf) h, tt)
    | Err e => Err (t, e)
    | Panic => Panic
    end.
Proof.
  intros Hd Hp. unfold add_block, maybe_finish_decoding_block, notify_proof. rewrite Hd, Hp.
  cbn [is_external]. rewrite bool_decide_false by (by intros [? ?]). cbn [Bool.eqb assert_].
  rewrite !Ok_bind. by destruct (validate_block _ _ _ _ _ _ _).
Qed.

Lemma remove_block_filter t prev rest prf txs : decode_state t = None ->
  proof prf = ProofFilter txs -> headers t = prev :: rest ->
  remove_block t prf
  = (h ← sub32 (height t) 1;
     match validate_block t h None prev (tip t) prf true with
     | Ok _ =>
         t' ← notify_listeners_remove t (Some txs) (header_hash prev.1);
         h ← sub32 (height t') 1;
         Ok (set_chain t' rest prev h, (tip t').1)
     | Err e => Err (t, e)
     | Panic => Panic
     end).
Proof.
  intros Hd Hp Hh. unfold remove_block, maybe_finish_decoding_block, notify_proof.
  rewrite Hh, Hd, Hp.
  cbn [is_external]. rewrite bool_decide_false by (by intros [? ?]). cbn [Bool.eqb assert_].
  rewrite !Ok_bind. destruct (sub32 (height t) 1) as [h|e|]; [|done|done]. rewrite !Ok_bind.
  by destruct (validate_block _ _ _ _ _ _ _).
Qed.

Lemma validate_block_linked t h ext prev hdrs prf r u :
  validate_block t h ext prev hdrs prf r = Ok u ->
  prev_blockhash hdrs.1 = header_hash prev.1 /\ validate_pow hdrs.1 (target hdrs.1) = true.
Proof.
  unfold validate_block. intros Hv. apply bind_Ok in Hv as (? & H1 & Hv).
  apply bind_Ok in Hv as (? & H2 & _).
  apply whenb_Err_Ok, negb_false_iff, bool_decide_eq_true in H1.
  by apply whenb_Err_Ok, negb_false_iff in H2.
Qed.

(** The chains that every listener of [t0] can follow. *)
Definition all_ok (t0 : Tracker) (c : list Block) : Prop :=
  forall k ls0, listeners t0 !! k = Some ls0 -> lok ls0.1 c.

Definition all_fresh (t0 : Tracker) : Prop :=
  forall k ls0, listeners t0 !! k = Some ls0 -> fresh_start ls0.

Lemma Some_Forall2_inv {A B} {R : A -> B -> Prop} {x y} :
  option_Forall2 R (Some x) (Some y) -> R x y.
Proof. by inversion 1. Qed.

Lemma notify_listeners_add_rep {E : Type} t0 c b hash t :
  (forall k, option_Forall2 (listener_rep c) (listeners t0 !! k) (listeners t !! k)) ->
  all_ok t0 (b :: c) ->
  exists ls, notify_listeners_add (E := E) t (Some b) hash = Ok (set_listeners t ls)
    /\ forall k, option_Forall2 (listener_rep (b :: c)) (listeners t0 !! k) (ls !! k).
Proof.
  intros Hl Hok. destruct (for_each_listener_ok (E := E) t (notify_add (Some b) hash)
    (fun k _ ls' => exists ls0, listeners t0 !! k = Some ls0 /\ listener_rep (b :: c) ls0 ls'))
    as (ls & Hn & Hls).
  - intros k ls Hk. specialize (Hl k). rewrite Hk in Hl.
    destruct (listeners t0 !! k) as [ls0|] eqn:Hk0; [|by inversion Hl].
    assert (Hr := Some_Forall2_inv Hl).
    destruct (notify_add_rep (E := E) c b hash ls0 ls Hr) as (ls' & ? & ?); [by eapply Hok|].
    exists ls'. split; [done|]. by exists ls0.
  - exists ls. split; [done|]. intros k. specialize (Hls k). specialize (Hl k).
    inversion Hls as [? ls' (ls0 & -> & ?) H1 H2|H1 H2]; [by constructor|].
    rewrite <- H1 in Hl. destruct (listeners t0 !! k); [by inversion Hl|constructor].
Qed.

Lemma notify_listeners_remove_rep {E : Type} t0 c b hash t : all_fresh t0 ->
  (forall k, option_Forall2 (listener_rep (b :: c)) (listeners t0 !! k) (listeners t !! k)) ->
  exists ls, notify_listeners_remove (E := E) t (Some b) hash = Ok (set_listeners t ls)
    /\ forall k, option_Forall2 (listener_rep c) (listeners t0 !! k) (ls !! k).
Proof.
  intros Hfr Hl. destruct (for_each_listener_ok (E := E) t (notify_remove (Some b) hash)
    (fun k _ ls' => exists ls0, listeners t0 !! k = Some ls0 /\ listener_rep c ls0 ls'))
    as (ls & Hn & Hls).
  - intros k ls Hk. specialize (Hl k). rewrite Hk in Hl.
    destruct (listeners t0 !! k) as [ls0|] eqn:Hk0; [|by inversion Hl].
    assert (Hr := Some_Forall2_inv Hl).
    destruct (notify_remove_rep (E := E) c b hash ls0 ls) as (ls' & ? & ?); [by eapply Hfr|done|].
    exists ls'. split; [done|]. by exists ls0.
  - exists ls. split; [done|]. intros k. specialize (Hls k). specialize (Hl k).
    inversion Hls as [? ls' (ls0 & -> & ?) H1 H2|H1 H2]; [by constructor|].
    rewrite <- H1 in Hl. destruct (listeners t0 !! k); [by inversion Hl|constructor].
Qed.

Lemma prefix_take_tail {A} (x : A) n l full :
  (x :: l) `prefix_of` full -> (x :: take n l) `prefix_of` full.
Proof.
  intros [k ->]. exists (drop n l ++ k). cbn. f_equal. by rewrite app_assoc, take_drop.
Qed.

Lemma add_block_trep t0 c t header prf txs :
  let hdrs := (header, proof_filter_header prf) in
  0 <= height t0 -> height t0 + Z.of_nat (length c) < 2 ^ 32 - 1 ->
  trep t0 c t -> proof prf = ProofFilter txs -> all_ok t0 (txs :: c.*2) ->
  validate_block t (height t) None (tip t) hdrs prf false = Ok tt ->
  exists t', add_block t header prf = Ok (t', tt) /\ trep t0 ((hdrs, txs) :: c) t'.
Proof.
  intros hdrs H0 Hb [Hh Hbd Hht Hlk Hls Hst Hd] Hp Hok Hv.
  rewrite (add_block_filter t header prf txs) by done. fold hdrs. rewrite Hv.
  destruct (notify_listeners_add_rep (E := Tracker * Error) t0 c.*2 txs (header_hash header) t)
    as (ls & -> & Hls'); [done|done|].
  rewrite Ok_bind. cbn [height set_listeners]. rewrite Hht, add32_in, Ok_bind by lia.
  eexists. split; [done|]. apply validate_block_linked in Hv as [Hprev Hpow].
  split; cbn [tip headers height listeners decode_state network tracker_policy set_chain
    set_listeners length]; try done.
  - rewrite fmap_cons. cbn [fst app]. apply prefix_cons.
    by apply prefix_take_tail.
  - cbn [length]. rewrite length_take. unfold MAX_REORG_SIZE. lia.
  - rewrite Nat2Z.inj_succ. lia.
  - rewrite fmap_cons. cbn [fst app]. destruct Hh as [k Hk].
    destruct (c.*1 ++ [tip t0]) as [|h1 hs] eqn:Hc.
    { by destruct (c.*1). }
    assert (h1 = tip t).
    { destruct (c.*1) as [|h c'] eqn:Hc1; cbn in Hc, Hk; congruence. }
    subst h1. cbn [linked]. by split.
Qed.

Lemma remove_block_trep t0 c t hdrs txs prf prev rest :
  0 <= height t0 -> height t0 + Z.of_nat (S (length c)) < 2 ^ 32 -> all_fresh t0 ->
  trep t0 ((hdrs, txs) :: c) t -> proof prf = ProofFilter txs -> headers t = prev :: rest ->
  validate_block t (height t - 1) None prev (tip t) prf true = Ok tt ->
  exists t', remove_block t prf = Ok (t', hdrs.1) /\ trep t0 c t'.
Proof.
  intros H0 Hb Hfr [Hh Hbd Hht Hlk Hls Hst Hd] Hp Hhd Hv. rewrite fmap_cons in *. cbn [snd fst] in *.
  cbn [length] in Hht. rewrite (remove_block_filter t prev rest prf txs) by done.
  rewrite sub32_in, Ok_bind by lia. rewrite Hv.
  destruct (notify_listeners_remove_rep (E := Tracker * Error) t0 c.*2 txs (header_hash prev.1) t)
    as (ls & -> & Hls'); [done|done|].
  rewrite Ok_bind. cbn [height set_listeners]. rewrite sub32_in, Ok_bind by lia.
  rewrite Hhd in *. destruct Hh as [k Hk]. cbn in Hk. injection Hk as Htip Hk.
  eexists. split; [cbn [tip set_listeners]; by rewrite <- Htip|].
  split; cbn [tip headers height listeners decode_state network tracker_policy set_chain
    set_listeners]; try done.
  - exists k. done.
  - cbn [length] in Hbd. lia.
  - lia.
  - destruct (c.*1 ++ [tip t0]) as [|h1 hs] eqn:Hc; [done|]. cbn in Hlk. rewrite Hc in Hlk. by apply Hlk.
Qed.

(** ** Sequences of requests *)

Record start_ok (t0 : Tracker) : Prop := {
  so_idle : decode_state t0 = None;
  so_bound : (length (headers t0) <= MAX_REORG_SIZE)%nat;
  so_height : 0 <= height t0;
  so_listeners : forall k ls0, listeners t0 !! k = Some ls0 ->
    lrep ls0.1 [] ls0.1 /\ lok ls0.1 [] /\ fresh_start ls0
}.

(** The trackers reached from [t0], with the blocks accepted since: a block is
    removed with the transactions it was added with, and a refused request
    leaves the chain as it is. *)
Inductive reach (t0 : Tracker) : Tracker -> list (Headers * Block) -> Prop :=
| reach_start : reach t0 t0 []
| reach_add t c header prf txs t' :
    reach t0 t c -> proof prf = ProofFilter txs -> all_ok t0 (txs :: c.*2) ->
    height t0 + Z.of_nat (length c) < 2 ^ 32 - 1 ->
    add_block t header prf = Ok (t', tt) ->
    reach t0 t' (((header, proof_filter_header prf), txs) :: c)
| reach_add_refused t c header prf txs t' e :
    reach t0 t c -> proof prf = ProofFilter txs -> all_ok t0 (txs :: c.*2) ->
    height t0 + Z.of_nat (length c) < 2 ^ 32 - 1 ->
    add_block t header prf = Err (t', e) -> reach t0 t' c
| reach_remove t x c prf t' h :
    reach t0 t (x :: c) -> proof prf = ProofFilter x.2 ->
    remove_block t prf = Ok (t', h) -> reach t0 t' c
| reach_remove_refused t x c prf t' e :
    reach t0 t (x :: c) -> proof prf = ProofFilter x.2 ->
    remove_block t prf = Err (t', e) -> reach t0 t' (x :: c).

Lemma start_trep t0 : start_ok t0 -> trep t0 [] t0.
Proof.
  intros [Hi Hb Hh Hl]. split; try done.
  - cbn. lia.
  - intros k. destruct (listeners t0 !! k) as [ls0|] eqn:Hk; constructor.
    destruct (Hl k ls0 Hk) as (Hr & Ho & _). split; [done|done|].
    intros o [?|(b & ?%elem_of_nil & _)]; [|done]. apply elem_of_union. by left.
Qed.

(** The height stays a 32-bit number. *)
Lemma reach_height t0 t c : height t0 < 2 ^ 32 -> reach t0 t c ->
  height t0 + Z.of_nat (length c) < 2 ^ 32.
Proof. intros H0. induction 1; cbn [length] in *; lia. Qed.

Lemma remove_block_cases t0 x c t prf r : height t0 + Z.of_nat (S (length c)) < 2 ^ 32 ->
  start_ok t0 -> trep t0 (x :: c) t -> proof prf = ProofFilter x.2 -> remove_block t prf = r ->
  match r with
  | Ok (t', h) => h = x.1.1 /\ trep t0 c t'
  | Err (t', _) => t' = t
  | Panic => True
  end.
Proof.
  intros Hb Hs Hr Hp <-. destruct x as [hdrs txs]. cbn [fst snd] in *.
  destruct (headers t) as [|prev rest] eqn:Hh; [unfold remove_block; by rewrite Hh|].
  rewrite (remove_block_filter t prev rest prf txs) by (done || by destruct Hr).
  pose proof (tr_height _ _ _ Hr) as Hht. cbn [length] in Hht.
  pose proof (so_height _ Hs). rewrite sub32_in, Ok_bind by lia.
  destruct (validate_block t (height t - 1) None prev (tip t) prf true) as [[]|e|] eqn:Hv; try done.
  destruct (remove_block_trep t0 c t hdrs txs prf prev rest) as (t' & He & Hr'); try done.
  { intros k ls0 Hk. by apply (so_listeners _ Hs k). }
  rewrite (remove_block_filter t prev rest prf txs) in He by (done || by destruct Hr).
  rewrite sub32_in, Ok_bind, Hv in He by lia. by rewrite He.
Qed.

Lemma add_block_cases t0 c t header prf txs r : height t0 + Z.of_nat (length c) < 2 ^ 32 - 1 ->
  start_ok t0 -> trep t0 c t -> proof prf = ProofFilter txs -> all_ok t0 (txs :: c.*2) ->
  add_block t header prf = r ->
  match r with
  | Ok (t', _) => trep t0 (((header, proof_filter_header prf), txs) :: c) t'
  | Err (t', _) => t' = t
  | Panic => True
  end.
Proof.
  intros Hb Hs Hr Hp Hok <-.
  destruct (validate_block t (height t) None (tip t) (header, proof_filter_header prf) prf false)
    as [[]|e|] eqn:Hv.
  - destruct (add_block_trep t0 c t header prf txs) as (t' & -> & ?); try done.
    by apply so_height.
  - by rewrite (add_block_filter t header prf txs), Hv by (done || by destruct Hr).
  - by rewrite (add_block_filter t header prf txs), Hv by (done || by destruct Hr).
Qed.

Lemma reach_trep t0 t c : start_ok t0 -> height t0 < 2 ^ 32 -> reach t0 t c -> trep t0 c t.
Proof.
  intros Hs H0 Hr. induction Hr as [|t c header prf txs t' Hr IH Hp Hok Hb He
    |t c header prf txs t' e Hr IH Hp Hok Hb He|t x c prf t' h Hr IH Hp He
    |t x c prf t' e Hr IH Hp He].
  - by apply start_trep.
  - by apply (add_block_cases t0 c t header prf txs _ Hb Hs IH Hp Hok) in He.
  - apply (add_block_cases t0 c t header prf txs _ Hb Hs IH Hp Hok) in He. by rewrite He.
  - pose proof (reach_height _ _ _ H0 Hr) as Hb.
    by apply (remove_block_cases t0 x c t prf _ Hb Hs IH Hp) in He as [_ ?].
  - pose proof (reach_height _ _ _ H0 Hr) as Hb.
    apply (remove_block_cases t0 x c t prf _ Hb Hs IH Hp) in He. by rewrite He.
Qed.
End tracker.

(** ** The channel monitor as a listener *)

Record ChainMonitor := {
  cm_funding_outpoint : OutPoint;
  cm_state : Monitor.State
}.

Definition with_state (m : ChainMonitor) (s : Monitor.State) : ChainMonitor :=
  {| cm_funding_outpoint := cm_funding_outpoint m; cm_state := s |}.

Section monitors.
Context `{L : Lib, CL : ChainLib, Prof : Profile}.

Definition monitor_push {E : Type} (s : Monitor.State) (ev : PushEvent) : outcome E Monitor.State :=
  match ev with
  | OnBlockStart header => Ok (Monitor.on_block_start s (header_hash header))
  | OnTransactionStart v => Monitor.on_transaction_start s v
  | OnTransactionInput inp => Monitor.on_transaction_input s inp
  | OnTransactionOutput out => Monitor.on_transaction_output s out
  | OnTransactionEnd locktime id => Monitor.on_transaction_end s locktime id
  | OnBlockEnd => Ok s
  end.

Definition lift_monitor {E : Type} (m : ChainMonitor)
  (r : outcome E (Monitor.State * list OutPoint * list OutPoint))
  : outcome E (ChainMonitor * list OutPoint * list OutPoint) :=
  '(s, adds, removes) ← r; Ok (with_state m s, adds, removes).

#[global] Instance monitor_listener : ChainListener ChainMonitor := {
  key := cm_funding_outpoint;
  on_add_block E m txs hash := lift_monitor m (Monitor.on_add_block (cm_state m) txs hash);
  on_add_streamed_block E m hash := lift_monitor m (Monitor.on_add_block_end (cm_state m) hash);
  on_remove_block E m txs hash := lift_monitor m (Monitor.on_remove_block (cm_state m) txs hash);
  on_remove_streamed_block E m hash :=
    lift_monitor m (Monitor.on_remove_block_end (cm_state m) hash);
  on_push E m ev := s ← monitor_push (cm_state m) ev; Ok (with_state m s)
}.

(** What a monitor watches from the start: its height, outpoint and inputs. *)
Definition base_height (m : ChainMonitor) : Z := Monitor.height (cm_state m).
Definition known (m : ChainMonitor) : gset OutPoint := Monitor.funding_inputs (cm_state m).

Definition monitor_ok (m : ChainMonitor) (c : list (list Transaction)) : Prop :=
  0 <= base_height m /\ Monitor.chain_ok (cm_funding_outpoint m) (known m) c
  /\ base_height m + Z.of_nat (length c) < 2 ^ 32 - 1.

Definition monitor_rep (m0 : ChainMonitor) (c : list (list Transaction)) (m : ChainMonitor) : Prop :=
  cm_funding_outpoint m = cm_funding_outpoint m0
  /\ Monitor.rep (base_height m0) (cm_funding_outpoint m0) (known m0) c (cm_state m).

Definition monitor_changes (m0 : ChainMonitor) (b : list Transaction) : list Monitor.StateChange :=
  Monitor.changes_of (cm_funding_outpoint m0) (known m0) b.

Lemma monitor_adds_outpoint m0 b o : o ∈ Monitor.adds_of (monitor_changes m0 b) ->
  o = cm_funding_outpoint m0 /\ Monitor.has_funding (cm_funding_outpoint m0) b = true.
Proof.
  intros (ch & Ho & Hch)%list_elem_of_bind. destruct ch as [o'| |]; try by apply elem_of_nil in Ho.
  apply list_elem_of_singleton in Ho as ->. split.
  - apply list_elem_of_bind in Hch as (tx & Hch & _). unfold Monitor.changes_of_tx in Hch.
    rewrite !elem_of_app in Hch. destruct Hch as [(? & ? & _)%list_elem_of_fmap|[Hch|Hch]]; [done|..].
    + case_bool_decide; [|by apply elem_of_nil in Hch].
      apply list_elem_of_singleton in Hch. congruence.
    + unfold Monitor.closing_of in Hch. case_bool_decide; [|by apply elem_of_nil in Hch].
      by apply list_elem_of_singleton in Hch.
  - rewrite <- (Monitor.has_funding_changes _ (known m0)). apply existsb_exists.
    exists (Monitor.FundingConfirmed o'). split; [|done]. by apply list_elem_of_In.
Qed.

#[global] Instance monitor_laws : ListenerLaws (Lst := ChainMonitor).
Proof.
  refine {| lrep := monitor_rep; lok := monitor_ok;
            ladds m0 b := Monitor.adds_of (monitor_changes m0 b);
            lremoves m0 b := Monitor.removes_of (monitor_changes m0 b) |}.
  - intros E m0 c b m hash [Hk Hr] (H0 & Hc & Hb).
    destruct (Monitor.add_block_rep (E := E) _ _ _ H0 c b _ hash Hr Hc) as (s' & Hs & Hr'); [lia|].
    exists (with_state m s'). split; [|by split]. cbn. by rewrite Hs.
  - intros E m0 c b m hash [Hk Hr] (H0 & Hc & Hb).
    destruct (Monitor.remove_block_rep (E := E) _ _ _ H0 c b _ hash Hr Hc) as (s' & Hs & Hr'); [lia|].
    exists (with_state m s'). split; [|by split]. cbn. by rewrite Hs.
  - intros m0 b c (H0 & Hc & Hb). inversion Hc; subst. cbn [length] in Hb. split; [done|].
    split; [done|lia].
  - intros m0 b c o (H0 & Hc & Hb) Ho b' Hb' Ho'. inversion Hc as [|? ? _ Hok]; subst.
    apply monitor_adds_outpoint in Ho as [_ Hf], Ho' as [_ Hf'].
    pose proof (Monitor.ok_funding_fresh (base_height m0) _ _ c b Hok Hf) as Hn.
    by rewrite (proj1 (Monitor.first_height_None _ _ c) Hn b' Hb') in Hf'.
Defined.

Lemma monitor_adds_funding m0 b : Monitor.has_funding (cm_funding_outpoint m0) b = true ->
  cm_funding_outpoint m0 ∈ Monitor.adds_of (monitor_changes m0 b).
Proof.
  rewrite <- (Monitor.has_funding_changes _ (known m0)). intros (ch & Hch & Hf)%existsb_exists.
  destruct ch as [o| |]; try done.
  assert (Ho : o ∈ Monitor.adds_of (monitor_changes m0 b)).
  { apply list_elem_of_bind. exists (Monitor.FundingConfirmed o).
    split; [by apply list_elem_of_singleton|]. by apply list_elem_of_In. }
  by destruct (monitor_adds_outpoint m0 b o Ho) as [-> _].
Qed.

(** A monitor that has just been created. *)
Definition fresh_monitor (m0 : ChainMonitor) (s0 : ListenSlot) : Prop :=
  exists h0 ftx, 0 <= h0 < 2 ^ 32 - 1
    /\ Monitor.start (E := unit) h0 (cm_funding_outpoint m0) ftx = Ok (cm_state m0)
    /\ cm_funding_outpoint m0 ∉ watches s0.

Lemma fresh_monitor_rep m0 s0 : fresh_monitor m0 s0 ->
  monitor_rep m0 [] m0 /\ monitor_ok m0 [] /\ fresh_start (m0, s0).
Proof.
  intros (h0 & ftx & Hh & Hs & Hw).
  destruct (Monitor.start_rep (E := unit) h0 (cm_funding_outpoint m0) ftx) as (s & Hs' & Hr).
  rewrite Hs in Hs'. injection Hs' as <-. destruct (Monitor.rep_follows _ _ _ _ _ Hr) as (_ & _ & Hin).
  pose proof (Monitor.rep_height _ _ _ _ _ Hr) as Hh0. cbn in Hh0.
  unfold monitor_rep, monitor_ok, base_height, known. rewrite Hin, Hh0, Z.add_0_r.
  split; [by split|]. split; [split; [lia|]; split; [constructor|cbn; lia]|].
  intros b o Ho. by destruct (monitor_adds_outpoint m0 b o Ho) as [-> _].
Qed.

(** C15: the tracker follows the chain and its monitors report it.  From any
    tracker whose listeners are new monitors, and over every sequence of
    blocks added and removed with proofs that carry their transactions, valid
    or refused, of a chain that the monitors can follow (no output is spent
    twice, the funding transaction spends the funding inputs, the funding
    output is spent in a later block than the one that funds, by a transaction
    with one input and few outputs, and no block without the funding
    transaction spends more than one funding input; [Monitor.block_ok]): the
    accepted headers are linked and meet their targets, the
    tip and the kept headers are the last ones accepted, at most
    [MAX_REORG_SIZE] of them, and the height counts them.  Each monitor
    reports the depths of the accepted chain, everything it ever had to watch
    is in the watches that the proof of a removal is checked against, and a
    valid block is never refused. *)
Theorem tracker_reports_chain {E : Type} (t0 t : ChainTracker ChainMonitor)
  (c : list (Headers * list Transaction))
  (Hidle : decode_state t0 = None) (Hlen : (length (headers t0) <= MAX_REORG_SIZE)%nat)
  (Hheight : 0 <= height t0 < 2 ^ 32)
  (Hmon : forall k m0 s0, listeners t0 !! k = Some (m0, s0) -> fresh_monitor m0 s0)
  (Hr : reach t0 t c) :
  linked (c.*1 ++ [tip t0])
  /\ (tip t :: headers t) `prefix_of` (c.*1 ++ tip t0 :: headers t0)
  /\ (length (headers t) <= MAX_REORG_SIZE)%nat
  /\ height t = height t0 + Z.of_nat (length c)
  /\ (forall k m0 s0, listeners t0 !! k = Some (m0, s0) ->
        let F := cm_funding_outpoint m0 in
        exists m s, listeners t !! k = Some (m, s)
          /\ Monitor.as_chain_state (E := E) (cm_state m)
             = Ok (Monitor.chain_state (base_height m0) F (known m0) c.*2)
          /\ (forall o, o ∈ watches s0 -> o ∈ watches s ∪ seen s)
          /\ (forall b, b ∈ c.*2 -> Monitor.has_funding F b = true -> F ∈ watches s ∪ seen s))
  /\ (forall header prf txs, proof prf = ProofFilter txs -> all_ok t0 (txs :: c.*2) ->
        height t0 + Z.of_nat (length c) < 2 ^ 32 - 1 ->
        validate_block t (height t) None (tip t) (header, proof_filter_header prf) prf false
          = Ok tt ->
        exists t', add_block t header prf = Ok (t', tt)).
Proof.
  assert (Hs : start_ok t0).
  { split; [done|done|lia|]. intros k [m0 s0] Hk.
    destruct (fresh_monitor_rep m0 s0 (Hmon k m0 s0 Hk)) as (? & ? & ?). done. }
  pose proof (reach_trep t0 t c Hs (proj2 Hheight) Hr) as [Hh Hb Hht Hlk Hls Hst Hd] .
  split; [done|]. split; [done|]. split; [done|]. split; [done|]. split.
  - intros k m0 s0 Hk F. specialize (Hls k). rewrite Hk in Hls.
    destruct (listeners t !! k) as [[m s]|] eqn:Hkt; [|by inversion Hls].
    apply Some_Forall2_inv in Hls as [[Hkey Hrep] (H0 & _ & Hbd) Hw]. exists m, s.
    split; [done|]. split; [by apply (Monitor.rep_chain_state _ _ _ H0)|].
    split; [intros o Ho; apply Hw; by left|].
    intros b Hb' Hf. apply Hw. right. exists b. split; [done|]. by apply monitor_adds_funding.
  - intros header prf txs Hp Hok Hbd Hv.
    destruct (add_block_trep t0 c t header prf txs) as (t' & He & _); [lia|done|by split|done|done|done|].
    by exists t'.
Qed.
End monitors.

(** Removing a streamed block always panics.  A block that is removed by
    streaming it is checked against the hash of the block before the tip: with
    the decoder fed the block at the tip, as for adding it, the request never
    succeeds. *)
Theorem streamed_removal_panics `{CL : ChainLib, Prof : Profile} {Lst : Type}
  `{!ChainListener Lst} (t : ChainTracker Lst) (prf : TxoProof) (d : BlockDecodeState)
  (prev : Headers) (rest : list Headers)
  (Hprf : proof prf = ProofExternalBlock) (Hheaders : headers t = prev :: rest)
  (Hstream : decode_state t = Some d) (Htip : block_hash d = header_hash (tip t).1)
  (Hdiff : header_hash (tip t).1 <> header_hash prev.1) :
  remove_block t prf = Panic.
Proof.
  unfold remove_block, maybe_finish_decoding_block. rewrite Hheaders, Hprf, Hstream.
  cbn [is_external]. rewrite (bool_decide_true (is_Some _)) by (by eexists). cbn [Bool.eqb assert_]. rewrite Ok_bind.
  destruct (decoder_finish (decoder d)); [|done]. cbn [assert_]. rewrite Ok_bind.
  by rewrite bool_decide_false by congruence.
Qed.

(** ** Witnesses *)

Definition example_chain_lib : ChainLib := {|
  header_hash h := [nonce h]; target h := bits h; validate_pow _ _ := true;
  compact_target_from_u256 t := t; u256_from_compact_target t := t;
  TxoProof := ProofType; proof p := p; proof_filter_header _ := [1];
  verify _ _ _ _ _ _ := None; BlockDecoder := unit; decoder_new := tt;
  decode_next _ _ := Some (tt, []); decoder_finish _ := true |}.

Definition example_header (n : Z) : BlockHeader := {|
  header_version := 2; prev_blockhash := [n - 1]; merkle_root := []; time := 600 * n; bits := 1000;
  nonce := n |}.

Definition example_monitor : ChainMonitor := {|
  cm_funding_outpoint := Monitor.example_funding;
  cm_state := Monitor.add_funding_inputs
    (Monitor.set_watched (Monitor.new 7) [op_txid Monitor.example_funding] [0] ∅)
    Monitor.example_funding_tx |}.

Definition example_tracker (hs : list Headers) (n : Z)
  (d : option (@BlockDecodeState example_chain_lib))
  : @ChainTracker example_chain_lib ChainMonitor :=
  @set_decode_state example_chain_lib ChainMonitor
    (@restore example_chain_lib ChainMonitor hs (example_header n, [1]) n Bitcoin
       {[ Monitor.example_funding := (example_monitor,
            {| txid_watches := ∅; watches := known example_monitor; seen := ∅ |}) ]}
       (simple_policy (make_simple_policy Bitcoin))) d.

Lemma example_lookup hs n d k v :
  @listeners example_chain_lib ChainMonitor (example_tracker hs n d) !! k = Some v
  <-> k = Monitor.example_funding
      /\ v = (example_monitor, {| txid_watches := ∅; watches := known example_monitor; seen := ∅ |}).
Proof.
  unfold example_tracker, set_decode_state, restore. cbn [listeners].
  rewrite lookup_singleton_Some. naive_solver.
Qed.

Lemma example_fresh : fresh_monitor example_monitor
  {| txid_watches := ∅; watches := known example_monitor; seen := ∅ |}.
Proof.
  exists 7, (Some Monitor.example_funding_tx). split; [lia|]. split; [by vm_compute|].
  apply (bool_decide_unpack _). by vm_compute.
Qed.

Lemma example_monitor_ok :
  @monitor_ok example_lib example_monitor [[Monitor.example_funding_tx]].
Proof.
  split; [by vm_compute|]. split; [|by vm_compute]. constructor; [constructor|].
  apply Monitor.example_block_ok. by left.
Qed.

Lemma tracker_reports_chain_witness :
  exists t, (@height example_chain_lib ChainMonitor t = 8)
    /\ exists m s, @listeners example_chain_lib ChainMonitor t !! Monitor.example_funding = Some (m, s)
      /\ (cs ← @Monitor.as_chain_state false unit (cm_state m); Ok (funding_depth cs)) = Ok 1.
Proof.
  set (t0 := example_tracker [] 7 None). set (c := [((example_header 8, [1]), [Monitor.example_funding_tx])]).
  assert (Hmon : forall k m0 s0, @listeners example_chain_lib ChainMonitor t0 !! k = Some (m0, s0) ->
    fresh_monitor m0 s0).
  { intros k m0 s0 Hk. apply example_lookup in Hk as [_ [= -> ->]]. apply example_fresh. }
  assert (Hok : @all_ok example_chain_lib ChainMonitor (@monitor_listener example_lib example_chain_lib false)
    (@monitor_laws example_lib example_chain_lib false) t0 [[Monitor.example_funding_tx]]).
  { intros k [m0 s0] Hk. apply example_lookup in Hk as [_ [= -> ->]]. apply example_monitor_ok. }
  assert (Hadd : exists t, @add_block example_chain_lib false ChainMonitor
    (@monitor_listener example_lib example_chain_lib false) t0 (example_header 8)
    (ProofFilter [Monitor.example_funding_tx]) = Ok (t, tt)).
  { apply (@tracker_reports_chain example_lib example_chain_lib false unit t0 t0 [])
      with (txs := [Monitor.example_funding_tx]); try done; [cbn; lia|apply reach_start]. }
  destruct Hadd as (t & Ht). exists t.
  assert (Hr : @reach example_chain_lib false ChainMonitor _ (@monitor_laws example_lib example_chain_lib false)
    t0 t c).
  { eapply (@reach_add example_chain_lib false ChainMonitor _
      (@monitor_laws example_lib example_chain_lib false) t0 t0 [] (example_header 8)
      (ProofFilter [Monitor.example_funding_tx])); [apply reach_start|done|exact Hok|done|exact Ht]. }
  assert (Hb : 0 <= @height example_chain_lib ChainMonitor t0 < 2 ^ 32) by (by split).
  destruct (@tracker_reports_chain example_lib example_chain_lib false unit t0 t c eq_refl
    (Nat.le_0_l _) Hb Hmon Hr) as (_ & _ & _ & Hh & Hl & _).
  split; [exact Hh|]. destruct (Hl Monitor.example_funding example_monitor
    {| txid_watches := ∅; watches := known example_monitor; seen := ∅ |}) as (m & s & Hm & Hcs & _);
    [apply (proj2 (example_lookup _ _ _ _ _)); split; reflexivity|].
  exists m, s. split; [exact Hm|]. rewrite Hcs. by vm_compute.
Defined.

Lemma streamed_removal_panics_witness :
  @remove_block example_chain_lib false ChainMonitor
    (@monitor_listener example_lib example_chain_lib false)
    (example_tracker [(example_header 7, [1])] 8
       (Some (@Build_BlockDecodeState example_chain_lib tt 80 [8]))) ProofExternalBlock = Panic.
Proof.
  by apply (@streamed_removal_panics example_chain_lib false ChainMonitor
    (@monitor_listener example_lib example_chain_lib false)
    (example_tracker [(example_header 7, [1])] 8
       (Some (@Build_BlockDecodeState example_chain_lib tt 80 [8]))) ProofExternalBlock
    (@Build_BlockDecodeState example_chain_lib tt 80 [8]) (example_header 7, [1]) []).
Defined.
End Tracker.
