(* ===== verification/Persist.v ===== *)
(** * Persisters

    The trait of vls-core/src/persist/mod.rs and its entries (persist/model.rs),
    and the implementations of the vls-persist crate: the key-value store with
    JSON values (kv_json.rs), the in-memory persister that records changes
    (thread_memo_persister.rs) and the composite of a main persister and a
    backup (backup_persister.rs).  The entries are those of
    vls-persist/src/model.rs.

    A write returns the store it leaves behind with its outcome. *)

From S2P Require Import Prelude Velocity Policy Order Extern Crypto Setup Tx Keys Script Secrets.
From S2P Require Import Enforcement Validator NodeState Monitor Tracker.

(** ** Data *)

Record NodeConfig := {
  cfg_network : Network;
  cfg_key_derivation_style : KeyDerivationStyle;
  use_checkpoints : bool
}.

(** [persist::Error]. *)
Inductive PersistError :=
| Unavailable (s : string)
| NotFound (s : string)
| AlreadyExists (s : string)
| PersistInternal (s : string).

(** persist/model.rs *)
Record NodeEntry := {
  ne_key_derivation_style : Z;
  ne_network : string;
  ne_state : NodeState
}.

Record ChannelEntry := {
  channel_value_satoshis : Z;
  channel_setup : option ChannelSetup;
  ce_id : option ChannelId;
  ce_enforcement_state : EnforcementState;
  ce_blockheight : option Z
}.

(** vls-persist/src/model.rs *)
Record NodeStateEntry := {
  nse_invoices : list (bytes * PaymentState);
  nse_issued_invoices : list (bytes * PaymentState);
  nse_velocity_control : VelocityControl;
  nse_fee_velocity_control : VelocityControl;
  nse_preimages : list bytes
}.

Record ChainTrackerEntry := {
  cte_headers : list bytes;
  cte_tip : bytes;
  cte_height : Z;
  cte_network : Network;
  cte_listeners : gmap OutPoint (Monitor.State * ListenSlot)
}.

(** Consensus encoding of headers, and the names of networks. *)
Class SerLib := {
  serialize_headers : Headers -> bytes;
  deserialize_headers : bytes -> option Headers;
  deserialize_header : bytes -> option BlockHeader;
  network_to_string : Network -> string;
  network_from_str : string -> option Network
}.

Notation NodeTracker := (ChainTracker Tracker.ChainMonitor).

(** ** The trait *)

Class Persist `{L : Lib, CL : ChainLib} (P : Type) := {
  persist_new_node : P -> PublicKey -> NodeConfig -> NodeState -> P * outcome PersistError unit;
  persist_update_node : P -> PublicKey -> NodeState -> P * outcome PersistError unit;
  persist_delete_node : P -> PublicKey -> P * outcome PersistError unit;
  persist_new_channel : P -> PublicKey -> ChannelStub -> P * outcome PersistError unit;
  persist_delete_channel : P -> PublicKey -> ChannelId -> P * outcome PersistError unit;
  persist_new_chain_tracker : P -> PublicKey -> NodeTracker -> P * outcome PersistError unit;
  persist_update_tracker : P -> PublicKey -> NodeTracker -> P * outcome PersistError unit;
  persist_get_tracker : P -> PublicKey -> Policy -> outcome PersistError NodeTracker;
  persist_update_channel : P -> PublicKey -> Channel -> P * outcome PersistError unit;
  persist_get_channel : P -> PublicKey -> ChannelId -> outcome PersistError ChannelEntry;
  persist_get_node_channels : P -> PublicKey ->
    outcome PersistError (list (ChannelId * ChannelEntry));
  persist_update_node_allowlist : P -> PublicKey -> list string -> P * outcome PersistError unit;
  persist_get_node_allowlist : P -> PublicKey -> outcome PersistError (list string);
  persist_get_nodes : P -> outcome PersistError (list (PublicKey * NodeEntry));
  persist_clear_database : P -> P * outcome PersistError unit;
  persist_on_initial_restore : P -> P * bool;
  persist_recovery_required : P -> bool
}.

(** ** Entries (vls-persist/src/model.rs) *)

Section entries.
Context `{L : Lib, CL : ChainLib, SL : SerLib}.

Definition NodeStateEntry_from (state : NodeState) : NodeStateEntry := {|
  nse_invoices := map_to_list (invoices state);
  nse_issued_invoices := map_to_list (issued_invoices state);
  nse_velocity_control := velocity_control state;
  nse_fee_velocity_control := ns_fee_velocity_control state;
  nse_preimages := omap preimage (map_to_list (payments state)).*2 |}.

(** [NodeState::restore] of vls-core/src/node.rs. *)
Definition decode_hashes {E} (l : list (bytes * PaymentState))
  : outcome E (gmap PaymentHash PaymentState) :=
  foldM (fun (m : gmap PaymentHash PaymentState) kv =>
    assert_ (length kv.1 =? 32)%nat;; Ok (<[kv.1 := kv.2]> m)) ∅ l.

Definition restore_preimages (preimages : list bytes) : gmap PaymentHash RoutedPayment :=
  foldl (fun (m : gmap PaymentHash RoutedPayment) p =>
    <[sha256 p := set_preimage RoutedPayment_new p]> m) ∅ preimages.

Definition NodeState_restore {E} (invoices_v issued_invoices_v : list (bytes * PaymentState))
  (preimages : list bytes) (excess : Z) (vc fvc : VelocityControl) : outcome E NodeState :=
  inv ← decode_hashes invoices_v;
  issued ← decode_hashes issued_invoices_v;
  Ok {| invoices := inv; issued_invoices := issued; payments := restore_preimages preimages;
        excess_amount := excess; velocity_control := vc; ns_fee_velocity_control := fvc |}.

Definition stub_entry (stub : ChannelStub) : ChannelEntry := {|
  channel_value_satoshis := 0;
  channel_setup := None;
  ce_id := None;
  ce_enforcement_state := EnforcementState_new 0;
  ce_blockheight := Some (stub_blockheight stub) |}.

Definition channel_entry (channel : Channel) : ChannelEntry := {|
  channel_value_satoshis := channel_value_sat (setup channel);
  channel_setup := Some (setup channel);
  ce_id := chan_id channel;
  ce_enforcement_state := enforcement_state channel;
  ce_blockheight := None |}.

Definition ChainTrackerEntry_from (t : NodeTracker) : ChainTrackerEntry := {|
  cte_headers := serialize_headers <$> headers t;
  cte_tip := serialize_headers (tip t);
  cte_height := height t;
  cte_network := network t;
  cte_listeners := (fun ls => (Tracker.cm_state ls.1, ls.2)) <$> listeners t |}.

(** The decode state of a monitor is not serialized ([#[serde(skip)]]). *)
Definition serde_skip (e : ChainTrackerEntry) : ChainTrackerEntry := {|
  cte_headers := cte_headers e; cte_tip := cte_tip e; cte_height := cte_height e;
  cte_network := cte_network e;
  cte_listeners := (fun ls => (Monitor.set_decode_state ls.1 (Monitor.saw_block ls.1) None, ls.2))
                     <$> cte_listeners e |}.

Definition into_tracker {E} (e : ChainTrackerEntry) (p : Policy) : outcome E NodeTracker :=
  t ← match deserialize_headers (cte_tip e) with
      | Some t => Ok t
      | None => h ← unwrap (deserialize_header (cte_tip e)); Ok (h, replicate 32 0)
      end;
  hs ← foldM (fun acc b => h ← unwrap (deserialize_headers b); Ok (acc ++ [h])) [] (cte_headers e);
  Ok (Tracker.restore hs t (cte_height e) (cte_network e)
        (map_imap (fun o ls => Some ({| Tracker.cm_funding_outpoint := o; Tracker.cm_state := ls.1 |}, ls.2))
           (cte_listeners e)) p).

(** [NodeChannelId]: the node's key and the channel's id. *)
Definition NodeChannelId_new (node_id : PublicKey) (channel_id : ChannelId) : bytes :=
  node_id ++ channel_id.
Definition NodeChannelId_channel_id (k : bytes) : ChannelId := drop 33 k.
End entries.

(** ** The key-value store (kv_json.rs)

    A bucket of the kv crate is an ordered map whose values are serialized;
    a transaction on it that aborts makes the caller panic. *)

Module KVJson.

Record KVJsonPersister := {
  node_bucket : gmap PublicKey (Z * string);
  node_state_bucket : gmap PublicKey NodeStateEntry;
  channel_bucket : gmap bytes ChannelEntry;
  allowlist_bucket : gmap PublicKey (list string);
  chain_tracker_bucket : gmap PublicKey ChainTrackerEntry
}.

Definition empty : KVJsonPersister := {|
  node_bucket := ∅; node_state_bucket := ∅; channel_bucket := ∅; allowlist_bucket := ∅;
  chain_tracker_bucket := ∅ |}.

Definition set_node (self : KVJsonPersister) (b : gmap PublicKey (Z * string)) := {|
  node_bucket := b; node_state_bucket := node_state_bucket self;
  channel_bucket := channel_bucket self; allowlist_bucket := allowlist_bucket self;
  chain_tracker_bucket := chain_tracker_bucket self |}.
Definition set_node_state (self : KVJsonPersister) (b : gmap PublicKey NodeStateEntry) := {|
  node_bucket := node_bucket self; node_state_bucket := b;
  channel_bucket := channel_bucket self; allowlist_bucket := allowlist_bucket self;
  chain_tracker_bucket := chain_tracker_bucket self |}.
Definition set_channel (self : KVJsonPersister) (b : gmap bytes ChannelEntry) := {|
  node_bucket := node_bucket self; node_state_bucket := node_state_bucket self;
  channel_bucket := b; allowlist_bucket := allowlist_bucket self;
  chain_tracker_bucket := chain_tracker_bucket self |}.
Definition set_allowlist (self : KVJsonPersister) (b : gmap PublicKey (list string)) := {|
  node_bucket := node_bucket self; node_state_bucket := node_state_bucket self;
  channel_bucket := channel_bucket self; allowlist_bucket := b;
  chain_tracker_bucket := chain_tracker_bucket self |}.
Definition set_chain_tracker (self : KVJsonPersister) (b : gmap PublicKey ChainTrackerEntry) := {|
  node_bucket := node_bucket self; node_state_bucket := node_state_bucket self;
  channel_bucket := channel_bucket self; allowlist_bucket := allowlist_bucket self;
  chain_tracker_bucket := b |}.

(** The keys of a bucket, in order. *)
Definition keys_of {A} (m : gmap bytes A) : list bytes := sort (map_to_list m).*1.

Section kv.
Context `{L : Lib, CL : ChainLib, SL : SerLib}.
Implicit Types self : KVJsonPersister.

Definition new_node self (node_id : PublicKey) (config : NodeConfig) (state : NodeState)
  : KVJsonPersister * outcome PersistError unit :=
  if bool_decide (is_Some (node_bucket self !! node_id)) then (self, Panic)
  else
    let self := set_node_state self
      (<[node_id := NodeStateEntry_from state]> (node_state_bucket self)) in
    (set_node self (<[node_id := (KeyDerivationStyle_as_u8 (cfg_key_derivation_style config),
                                  network_to_string (cfg_network config))]> (node_bucket self)),
     Ok tt).

Definition update_node self (node_id : PublicKey) (state : NodeState)
  : KVJsonPersister * outcome PersistError unit :=
  (set_node_state self (<[node_id := NodeStateEntry_from state]> (node_state_bucket self)), Ok tt).

(** [iter_prefix]. *)
Definition node_channel_keys self (node_id : PublicKey) : list bytes :=
  base.filter (fun k => take (length node_id) k = node_id) (keys_of (channel_bucket self)).

Definition delete_node self (node_id : PublicKey) : KVJsonPersister * outcome PersistError unit :=
  let self := set_channel self
    (foldl (fun m k => delete k m) (channel_bucket self) (node_channel_keys self node_id)) in
  let self := set_node self (delete node_id (node_bucket self)) in
  (set_chain_tracker self (delete node_id (chain_tracker_bucket self)), Ok tt).

Definition new_channel self (node_id : PublicKey) (stub : ChannelStub)
  : KVJsonPersister * outcome PersistError unit :=
  let id := NodeChannelId_new node_id (stub_id0 stub) in
  if bool_decide (is_Some (channel_bucket self !! id)) then (self, Panic)
  else (set_channel self (<[id := stub_entry stub]> (channel_bucket self)), Ok tt).

Definition delete_channel self (node_id : PublicKey) (channel_id : ChannelId)
  : KVJsonPersister * outcome PersistError unit :=
  (set_channel self (delete (NodeChannelId_new node_id channel_id) (channel_bucket self)), Ok tt).

Definition put_tracker self (node_id : PublicKey) (tracker : NodeTracker) : KVJsonPersister :=
  set_chain_tracker self
    (<[node_id := serde_skip (ChainTrackerEntry_from tracker)]> (chain_tracker_bucket self)).

Definition new_chain_tracker self (node_id : PublicKey) (tracker : NodeTracker)
  : KVJsonPersister * outcome PersistError unit :=
  if bool_decide (is_Some (chain_tracker_bucket self !! node_id)) then (self, Panic)
  else (put_tracker self node_id tracker, Ok tt).

Definition update_tracker self (node_id : PublicKey) (tracker : NodeTracker)
  : KVJsonPersister * outcome PersistError unit := (put_tracker self node_id tracker, Ok tt).

Definition get_tracker self (node_id : PublicKey) (p : Policy) : outcome PersistError NodeTracker :=
  value ← ok_or (chain_tracker_bucket self !! node_id) (NotFound "tracker");
  into_tracker value p.

Definition update_channel self (node_id : PublicKey) (channel : Channel)
  : KVJsonPersister * outcome PersistError unit :=
  let node_channel_id := NodeChannelId_new node_id (id0 channel) in
  if bool_decide (channel_bucket self !! node_channel_id = None) then (self, Panic)
  else (set_channel self (<[node_channel_id := channel_entry channel]> (channel_bucket self)), Ok tt).

Definition get_channel self (node_id : PublicKey) (channel_id : ChannelId)
  : outcome PersistError ChannelEntry :=
  ok_or (channel_bucket self !! NodeChannelId_new node_id channel_id) (NotFound "channel").

Definition get_node_channels self (node_id : PublicKey)
  : outcome PersistError (list (ChannelId * ChannelEntry)) :=
  foldM (fun res k =>
    entry ← unwrap (channel_bucket self !! k);
    Ok (res ++ [(NodeChannelId_channel_id k, entry)])) [] (node_channel_keys self node_id).

Definition update_node_allowlist self (node_id : PublicKey) (allowlist : list string)
  : KVJsonPersister * outcome PersistError unit :=
  (set_allowlist self (<[node_id := allowlist]> (allowlist_bucket self)), Ok tt).

Definition get_node_allowlist self (node_id : PublicKey) : outcome PersistError (list string) :=
  Ok (default [] (allowlist_bucket self !! node_id)).

Definition get_nodes self : outcome PersistError (list (PublicKey * NodeEntry)) :=
  foldM (fun res k =>
    e ← unwrap (node_bucket self !! k);
    state_e ← unwrap (node_state_bucket self !! k);
    state ← NodeState_restore (nse_invoices state_e) (nse_issued_invoices state_e)
              (nse_preimages state_e) 0 (nse_velocity_control state_e)
              (nse_fee_velocity_control state_e);
    node_id ← unwrap (pubkey_from_slice k);
    Ok (res ++ [(node_id, {| ne_key_derivation_style := e.1; ne_network := e.2;
                             ne_state := state |})]))
    [] (keys_of (node_bucket self)).

Definition clear_database self : KVJsonPersister * outcome PersistError unit :=
  (set_node (set_channel self ∅) ∅, Ok tt).

Definition recovery_required self : bool := bool_decide (node_bucket self = ∅).

#[global] Instance kv_persist : Persist KVJsonPersister := {
  persist_new_node := new_node;
  persist_update_node := update_node;
  persist_delete_node := delete_node;
  persist_new_channel := new_channel;
  persist_delete_channel := delete_channel;
  persist_new_chain_tracker := new_chain_tracker;
  persist_update_tracker := update_tracker;
  persist_get_tracker := get_tracker;
  persist_update_channel := update_channel;
  persist_get_channel := get_channel;
  persist_get_node_channels := get_node_channels;
  persist_update_node_allowlist := update_node_allowlist;
  persist_get_node_allowlist := get_node_allowlist;
  persist_get_nodes := get_nodes;
  persist_clear_database := clear_database;
  persist_on_initial_restore self := (self, false);
  persist_recovery_required := recovery_required
}.
End kv.
End KVJson.

(** ** The memorizing persister (thread_memo_persister.rs)

    Inside a context the persister works on a store of versioned values and
    remembers the keys it changed; the caller gets the changes when it exits
    the context, and stores them elsewhere. *)

(** serde_json for the entries. *)
Class JsonLib := {
  json_node_entry : Z * string -> bytes;
  json_node_entry_from : bytes -> option (Z * string);
  json_node_state : NodeStateEntry -> bytes;
  json_node_state_from : bytes -> option NodeStateEntry;
  json_channel : ChannelEntry -> bytes;
  json_channel_from : bytes -> option ChannelEntry;
  json_allowlist : list string -> bytes;
  json_allowlist_from : bytes -> option (list string);
  json_tracker : ChainTrackerEntry -> bytes;
  json_tracker_from : bytes -> option ChainTrackerEntry
}.

Notation VersionedStore := (gmap string (Z * bytes)).

(** [persist::Mutations]. *)
Notation Mutations := (list (string * (Z * bytes))).

Module Memo.

Record State := { store : VersionedStore; dirty : gset string }.

Definition State_new (s : VersionedStore) : State := {| store := s; dirty := ∅ |}.

Fixpoint drop_while {A} (p : A -> bool) (l : list A) : list A :=
  match l with
  | [] => []
  | x :: l' => if p x then drop_while p l' else l
  end.

Fixpoint take_while {A} (p : A -> bool) (l : list A) : list A :=
  match l with
  | [] => []
  | x :: l' => if p x then x :: take_while p l' else []
  end.

Section memo.
Context `{L : Lib, CL : ChainLib, SL : SerLib, HL : HexLib, JL : JsonLib, Prof : Profile}.
Implicit Types self : State.

Definition make_key (prefix : string) (k : bytes) : string := prefix +:+ "/" +:+ hex_encode k.
Definition make_key2 (prefix : string) (k1 k2 : bytes) : string :=
  prefix +:+ "/" +:+ hex_encode k1 +:+ "/" +:+ hex_encode k2.

Definition do_insert {E} self (value : bytes) (full_key : string) : outcome E State :=
  match store self !! full_key with
  | Some (revision, existing_value) =>
      if bool_decide (existing_value = value) then Ok self
      else
        new_revision ← add64 revision 1;
        Ok {| store := <[full_key := (new_revision, value)]> (store self);
              dirty := {[full_key]} ∪ dirty self |}
  | None =>
      assert_ (negb (bool_decide (full_key ∈ dirty self)));;
      Ok {| store := <[full_key := (0, value)]> (store self);
            dirty := {[full_key]} ∪ dirty self |}
  end.

Definition insert {E} self (prefix : string) (k value : bytes) : outcome E State :=
  do_insert self value (make_key prefix k).
Definition insert2 {E} self (prefix : string) (k1 k2 value : bytes) : outcome E State :=
  do_insert self value (make_key2 prefix k1 k2).

Definition get self (prefix : string) (k : bytes) : option bytes :=
  snd <$> store self !! make_key prefix k.
Definition get2 self (prefix : string) (k1 k2 : bytes) : option bytes :=
  snd <$> store self !! make_key2 prefix k1 k2.

(** [range(prefix2..).take_while(starts_with)], with the rest of the key decoded. *)
Definition get_range {E} self (prefix2 : string) : outcome E (list (bytes * (Z * bytes))) :=
  let keys := sort (map_to_list (store self)).*1 in
  let keys := drop_while (fun k => lt_ k prefix2) keys in
  let keys := take_while (fun k => String.prefix prefix2 k) keys in
  foldM (fun acc k =>
    rv ← unwrap (store self !! k);
    key ← unwrap (hex_decode (String.substring (String.length prefix2)
                    (String.length k - String.length prefix2) k));
    Ok (acc ++ [(key, rv)])) [] keys.

Definition get_prefix {E} self (prefix : string) : outcome E (list (bytes * (Z * bytes))) :=
  get_range self (make_key prefix []).
Definition get_prefix2 {E} self (prefix : string) (k1 : bytes)
  : outcome E (list (bytes * (Z * bytes))) := get_range self (make_key2 prefix k1 []).

Definition do_remove {E} self (full_key : string) : outcome E State :=
  revision ← match store self !! full_key with
             | Some (r, _) => add64 r 1
             | None => Ok 0
             end;
  Ok {| store := <[full_key := (revision, [])]> (store self);
        dirty := {[full_key]} ∪ dirty self |}.

Definition remove {E} self (prefix : string) (k : bytes) : outcome E State :=
  do_remove self (make_key prefix k).
Definition remove2 {E} self (prefix : string) (k1 k2 : bytes) : outcome E State :=
  do_remove self (make_key2 prefix k1 k2).

Definition get_dirty {E} self : outcome E Mutations :=
  foldM (fun res k => v ← unwrap (store self !! k); Ok (res ++ [(k, v)])) []
    (sort (elements (dirty self))).

(** *** The persister: the context the thread is in, if any *)

Notation ThreadMemoPersister := (option State).

Definition NODE_ENTRY_PREFIX : string := "node/entry".
Definition NODE_STATE_PREFIX : string := "node/state".
Definition NODE_TRACKER_PREFIX : string := "node/tracker".
Definition ALLOWLIST_PREFIX : string := "node/allowlist".
Definition CHANNEL_PREFIX : string := "channel".

Definition enter {E} (m : ThreadMemoPersister) (s : VersionedStore)
  : outcome E ThreadMemoPersister :=
  match m with Some _ => Panic | None => Ok (Some (State_new s)) end.

(** [Context::exit]: the changes, and the store with them. *)
Definition exit {E} (m : ThreadMemoPersister) : outcome E (ThreadMemoPersister * Mutations) :=
  state ← unwrap m;
  d ← get_dirty state;
  Ok (None, d).

(** A write in a context; it panics outside of one. *)
Definition write (m : ThreadMemoPersister) (f : State -> outcome PersistError State)
  : ThreadMemoPersister * outcome PersistError unit :=
  match m with
  | None => (m, Panic)
  | Some s =>
      match f s with
      | Ok s' => (Some s', Ok tt)
      | Err e => (m, Err e)
      | Panic => (m, Panic)
      end
  end.

Definition update_node (m : ThreadMemoPersister) (node_id : PublicKey) (state : NodeState) :=
  write m (fun s => insert s NODE_STATE_PREFIX node_id
                      (json_node_state (NodeStateEntry_from state))).

Definition new_node (m : ThreadMemoPersister) (node_id : PublicKey) (config : NodeConfig)
  (state : NodeState) : ThreadMemoPersister * outcome PersistError unit :=
  match update_node m node_id state with
  | (m, Ok _) =>
      write m (fun s => insert s NODE_ENTRY_PREFIX node_id
        (json_node_entry (KeyDerivationStyle_as_u8 (cfg_key_derivation_style config),
                          network_to_string (cfg_network config))))
  | (m, _) => (m, Panic)
  end.

Definition delete_node (m : ThreadMemoPersister) (node_id : PublicKey) :=
  write m (fun s => s ← remove s NODE_ENTRY_PREFIX node_id; remove s NODE_STATE_PREFIX node_id).

Definition new_channel (m : ThreadMemoPersister) (node_id : PublicKey) (stub : ChannelStub) :=
  write m (fun s => insert2 s CHANNEL_PREFIX node_id (stub_id0 stub) (json_channel (stub_entry stub))).

Definition delete_channel (m : ThreadMemoPersister) (node_id : PublicKey) (channel_id : ChannelId) :=
  write m (fun s => remove2 s CHANNEL_PREFIX node_id channel_id).

Definition update_tracker (m : ThreadMemoPersister) (node_id : PublicKey) (tracker : NodeTracker) :=
  write m (fun s => insert s NODE_TRACKER_PREFIX node_id
                      (json_tracker (ChainTrackerEntry_from tracker))).

Definition new_chain_tracker (m : ThreadMemoPersister) (node_id : PublicKey)
  (tracker : NodeTracker) := update_tracker m node_id tracker.

Definition get_tracker (m : ThreadMemoPersister) (node_id : PublicKey) (p : Policy)
  : outcome PersistError NodeTracker :=
  s ← unwrap m;
  value ← unwrap (get s NODE_TRACKER_PREFIX node_id);
  model ← unwrap (json_tracker_from value);
  into_tracker model p.

Definition update_channel (m : ThreadMemoPersister) (node_id : PublicKey) (channel : Channel) :=
  write m (fun s => insert2 s CHANNEL_PREFIX node_id (id0 channel)
                      (json_channel (channel_entry channel))).

Definition get_channel (m : ThreadMemoPersister) (node_id : PublicKey) (channel_id : ChannelId)
  : outcome PersistError ChannelEntry :=
  s ← unwrap m;
  value ← unwrap (get2 s NODE_ENTRY_PREFIX node_id channel_id);
  unwrap (json_channel_from value).

Definition get_node_channels (m : ThreadMemoPersister) (node_id : PublicKey)
  : outcome PersistError (list (ChannelId * ChannelEntry)) :=
  s ← unwrap m;
  kvs ← get_prefix2 s CHANNEL_PREFIX node_id;
  foldM (fun res (kv : bytes * (Z * bytes)) =>
    entry ← unwrap (json_channel_from kv.2.2);
    Ok (res ++ [(kv.1, entry)])) [] kvs.

Definition update_node_allowlist (m : ThreadMemoPersister) (node_id : PublicKey)
  (allowlist : list string) :=
  write m (fun s => insert s ALLOWLIST_PREFIX node_id (json_allowlist allowlist)).

Definition get_node_allowlist (m : ThreadMemoPersister) (node_id : PublicKey)
  : outcome PersistError (list string) :=
  s ← unwrap m;
  value ← unwrap (get s ALLOWLIST_PREFIX node_id);
  unwrap (json_allowlist_from value).

Definition get_nodes (m : ThreadMemoPersister)
  : outcome PersistError (list (PublicKey * NodeEntry)) :=
  s ← unwrap m;
  kvs ← get_prefix s NODE_ENTRY_PREFIX;
  foldM (fun res (kv : bytes * (Z * bytes)) =>
    node_id ← unwrap (pubkey_from_slice kv.1);
    entry ← unwrap (json_node_entry_from kv.2.2);
    state_value ← unwrap (get s NODE_STATE_PREFIX kv.1);
    state_e ← unwrap (json_node_state_from state_value);
    state ← NodeState_restore (nse_invoices state_e) (nse_issued_invoices state_e)
              (nse_preimages state_e) 0 (nse_velocity_control state_e)
              (nse_fee_velocity_control state_e);
    Ok (res ++ [(node_id, {| ne_key_derivation_style := entry.1; ne_network := entry.2;
                             ne_state := state |})]))
    [] (base.filter (fun kv => kv.2.2 <> []) kvs).

(** [unimplemented!]. *)
Definition clear_database (m : ThreadMemoPersister)
  : ThreadMemoPersister * outcome PersistError unit := (m, Panic).

#[global] Instance memo_persist : Persist ThreadMemoPersister := {
  persist_new_node := new_node;
  persist_update_node := update_node;
  persist_delete_node := delete_node;
  persist_new_channel := new_channel;
  persist_delete_channel := delete_channel;
  persist_new_chain_tracker := new_chain_tracker;
  persist_update_tracker := update_tracker;
  persist_get_tracker := get_tracker;
  persist_update_channel := update_channel;
  persist_get_channel := get_channel;
  persist_get_node_channels := get_node_channels;
  persist_update_node_allowlist := update_node_allowlist;
  persist_get_node_allowlist := get_node_allowlist;
  persist_get_nodes := get_nodes;
  persist_clear_database := clear_database;
  persist_on_initial_restore m := (m, false);
  persist_recovery_required _ := false
}.
End memo.
End Memo.

(** ** The composite persister (backup_persister.rs) *)

Module Backup.

Record BackupPersister (M B : Type) := {
  main : M;
  backup : B;
  initial_restore_complete : bool
}.
Arguments main {M B}.
Arguments backup {M B}.
Arguments initial_restore_complete {M B}.

Definition new {M B} (m : M) (b : B) : BackupPersister M B :=
  {| main := m; backup := b; initial_restore_complete := false |}.

Section backup.
Context `{L : Lib, CL : ChainLib} {M B : Type} `{!Persist M, !Persist B}.
Notation Self := (BackupPersister M B).
Implicit Types self : Self.

Definition main_is_ready self : bool :=
  negb (persist_recovery_required (main self)) || initial_restore_complete self.

Definition set_main self (m : M) : Self :=
  {| main := m; backup := backup self; initial_restore_complete := initial_restore_complete self |}.
Definition set_backup self (b : B) : Self :=
  {| main := main self; backup := b; initial_restore_complete := initial_restore_complete self |}.

(** A write goes to the main persister when it is ready, then to the backup. *)
Definition write self (f : M -> M * outcome PersistError unit)
  (g : B -> B * outcome PersistError unit) : Self * outcome PersistError unit :=
  let '(self, r) :=
    if main_is_ready self then let '(m, r) := f (main self) in (set_main self m, r)
    else (self, Ok tt) in
  match r with
  | Ok _ => let '(b, r) := g (backup self) in (set_backup self b, r)
  | r => (self, r)
  end.

Definition read {A} self (f : M -> A) (g : B -> A) : A :=
  if main_is_ready self then f (main self) else g (backup self).

Definition clear_database self : Self * outcome PersistError unit :=
  match persist_clear_database (main self) with
  | (m, Ok _) =>
      let '(b, r) := persist_clear_database (backup self) in (set_backup (set_main self m) b, r)
  | (m, r) => (set_main self m, r)
  end.

Definition on_initial_restore self : Self * bool :=
  ({| main := main self; backup := backup self; initial_restore_complete := true |}, true).

#[global] Instance backup_persist : Persist Self := {
  persist_new_node self i c s :=
    write self (fun m => persist_new_node m i c s) (fun b => persist_new_node b i c s);
  persist_update_node self i s :=
    write self (fun m => persist_update_node m i s) (fun b => persist_update_node b i s);
  persist_delete_node self i :=
    write self (fun m => persist_delete_node m i) (fun b => persist_delete_node b i);
  persist_new_channel self i s :=
    write self (fun m => persist_new_channel m i s) (fun b => persist_new_channel b i s);
  persist_delete_channel self i c :=
    write self (fun m => persist_delete_channel m i c) (fun b => persist_delete_channel b i c);
  persist_new_chain_tracker self i t :=
    write self (fun m => persist_new_chain_tracker m i t)
      (fun b => persist_new_chain_tracker b i t);
  persist_update_tracker self i t :=
    write self (fun m => persist_update_tracker m i t) (fun b => persist_update_tracker b i t);
  persist_get_tracker self i p :=
    read self (fun m => persist_get_tracker m i p) (fun b => persist_get_tracker b i p);
  persist_update_channel self i c :=
    write self (fun m => persist_update_channel m i c) (fun b => persist_update_channel b i c);
  persist_get_channel self i c :=
    read self (fun m => persist_get_channel m i c) (fun b => persist_get_channel b i c);
  persist_get_node_channels self i :=
    read self (fun m => persist_get_node_channels m i) (fun b => persist_get_node_channels b i);
  persist_update_node_allowlist self i l :=
    write self (fun m => persist_update_node_allowlist m i l)
      (fun b => persist_update_node_allowlist b i l);
  persist_get_node_allowlist self i :=
    read self (fun m => persist_get_node_allowlist m i) (fun b => persist_get_node_allowlist b i);
  persist_get_nodes self := read self persist_get_nodes persist_get_nodes;
  persist_clear_database := clear_database;
  persist_on_initial_restore := on_initial_restore;
  persist_recovery_required _ := false
}.
End backup.
End Backup.

(** ** A concrete instance of the crates' encodings *)

Definition example_serialize (h : Headers) : bytes :=
  [header_version h.1; time h.1; bits h.1; nonce h.1; Z.of_nat (length (prev_blockhash h.1));
   Z.of_nat (length (merkle_root h.1))] ++ prev_blockhash h.1 ++ merkle_root h.1 ++ h.2.

Definition example_deserialize (b : bytes) : option Headers :=
  match b with
  | v :: t :: bs :: n :: lp :: lm :: r =>
      let r' := drop (Z.to_nat lp) r in
      Some ({| header_version := v; prev_blockhash := take (Z.to_nat lp) r;
               merkle_root := take (Z.to_nat lm) r'; time := t; bits := bs; nonce := n |},
            drop (Z.to_nat lm) r')
  | _ => None
  end.

Definition example_ser : SerLib := {|
  serialize_headers := example_serialize;
  deserialize_headers := example_deserialize;
  deserialize_header _ := None;
  network_to_string n := match n with Bitcoin => "bitcoin" | Testnet => "testnet"
                                    | Signet => "signet" | Regtest => "regtest" end;
  network_from_str s := if String.eqb s "bitcoin" then Some Bitcoin
    else if String.eqb s "testnet" then Some Testnet
    else if String.eqb s "signet" then Some Signet
    else if String.eqb s "regtest" then Some Regtest else None |}.
