(* ===== verification/PersistSpec.v ===== *)
(** * What a persister promises

    An abstract store keeps one record per node.  The class [PersistLaws]
    says how the operations of the trait [Persist] act on it when they succeed,
    and what they read; the key-value store of kv_json.rs fulfils it, and so
    does the composite persister of backup_persister.rs over two persisters
    that hold the same records.  Node ids are public keys, of 33 bytes: the
    store of channels is searched by the prefix of its keys. *)

From S2P Require Import Prelude Velocity Policy Order Extern Crypto Setup Tx Keys Script Secrets.
From S2P Require Import Enforcement Validator NodeState Monitor Tracker Persist.

(** ** The abstract store *)

Record NodeRecord := {
  r_entry : option (Z * string);
  r_state : option NodeStateEntry;
  r_channels : gmap ChannelId ChannelEntry;
  r_allowlist : list string;
  r_tracker : option ChainTrackerEntry
}.

Definition with_entry (r : NodeRecord) (e : Z * string) : NodeRecord := {|
  r_entry := Some e; r_state := r_state r; r_channels := r_channels r;
  r_allowlist := r_allowlist r; r_tracker := r_tracker r |}.
Definition with_node_state (r : NodeRecord) (s : NodeStateEntry) : NodeRecord := {|
  r_entry := r_entry r; r_state := Some s; r_channels := r_channels r;
  r_allowlist := r_allowlist r; r_tracker := r_tracker r |}.
Definition with_channels (r : NodeRecord) (m : gmap ChannelId ChannelEntry) : NodeRecord := {|
  r_entry := r_entry r; r_state := r_state r; r_channels := m;
  r_allowlist := r_allowlist r; r_tracker := r_tracker r |}.
Definition with_allowlist (r : NodeRecord) (l : list string) : NodeRecord := {|
  r_entry := r_entry r; r_state := r_state r; r_channels := r_channels r;
  r_allowlist := l; r_tracker := r_tracker r |}.
Definition with_tracker (r : NodeRecord) (t : ChainTrackerEntry) : NodeRecord := {|
  r_entry := r_entry r; r_state := r_state r; r_channels := r_channels r;
  r_allowlist := r_allowlist r; r_tracker := Some t |}.

Definition is_node_id (id : PublicKey) : Prop := length id = 33%nat.

(** The record of [nid] becomes [r]; the others stay. *)
Definition changes {P} (view : P -> PublicKey -> NodeRecord) (p p' : P) (nid : PublicKey)
  (r : NodeRecord) : Prop :=
  view p' nid = r /\ forall o, is_node_id o -> o <> nid -> view p' o = view p o.

(** ** The contract *)

(** The writes of the trait that act on a record in the same way in every
    persister.  The other one is [delete_node], of which each persister leaves
    other traces: see [AnyWrite]. *)
Inductive Write `{Lib, ChainLib} :=
| NewNode (nid : PublicKey) (config : NodeConfig) (state : NodeState)
| UpdateNode (nid : PublicKey) (state : NodeState)
| NewChannel (nid : PublicKey) (stub : ChannelStub)
| DeleteChannel (nid : PublicKey) (id : ChannelId)
| UpdateChannel (nid : PublicKey) (chan : Channel)
| NewChainTracker (nid : PublicKey) (t : NodeTracker)
| UpdateTracker (nid : PublicKey) (t : NodeTracker)
| UpdateAllowlist (nid : PublicKey) (l : list string).

Section contract.
Context `{L : Lib, CL : ChainLib, SL : SerLib}.

Definition written_node (w : Write) : PublicKey :=
  match w with
  | NewNode nid _ _ | UpdateNode nid _ | NewChannel nid _ | DeleteChannel nid _
  | UpdateChannel nid _ | NewChainTracker nid _ | UpdateTracker nid _
  | UpdateAllowlist nid _ => nid
  end.

Definition perform {P} `{!Persist P} (w : Write) (p : P) : P * outcome PersistError unit :=
  match w with
  | NewNode nid config state => persist_new_node p nid config state
  | UpdateNode nid state => persist_update_node p nid state
  | NewChannel nid stub => persist_new_channel p nid stub
  | DeleteChannel nid id => persist_delete_channel p nid id
  | UpdateChannel nid chan => persist_update_channel p nid chan
  | NewChainTracker nid t => persist_new_chain_tracker p nid t
  | UpdateTracker nid t => persist_update_tracker p nid t
  | UpdateAllowlist nid l => persist_update_node_allowlist p nid l
  end.

(** What a write does to the record of its node. *)
Definition effect (w : Write) (r : NodeRecord) : NodeRecord :=
  match w with
  | NewNode _ config state =>
      with_entry (with_node_state r (NodeStateEntry_from state))
        (KeyDerivationStyle_as_u8 (cfg_key_derivation_style config),
         network_to_string (cfg_network config))
  | UpdateNode _ state => with_node_state r (NodeStateEntry_from state)
  | NewChannel _ stub => with_channels r (<[stub_id0 stub := stub_entry stub]> (r_channels r))
  | DeleteChannel _ id => with_channels r (delete id (r_channels r))
  | UpdateChannel _ chan => with_channels r (<[id0 chan := channel_entry chan]> (r_channels r))
  | NewChainTracker _ t | UpdateTracker _ t => with_tracker r (serde_skip (ChainTrackerEntry_from t))
  | UpdateAllowlist _ l => with_allowlist r l
  end.

Class PersistLaws (P : Type) `{!Persist P} (view : P -> PublicKey -> NodeRecord) : Prop := {
  law_write w p p' : is_node_id (written_node w) -> perform w p = (p', Ok tt) ->
    changes view p p' (written_node w) (effect w (view p (written_node w)));
  law_get_tracker p nid pol e : is_node_id nid -> r_tracker (view p nid) = Some e ->
    persist_get_tracker p nid pol = into_tracker e pol;
  law_get_channel p nid id e : is_node_id nid -> r_channels (view p nid) !! id = Some e ->
    persist_get_channel p nid id = Ok e;
  law_get_channels p nid : is_node_id nid ->
    exists l, persist_get_node_channels p nid = Ok l /\ l ≡ₚ map_to_list (r_channels (view p nid));
  law_get_allowlist p nid : is_node_id nid ->
    persist_get_node_allowlist p nid = Ok (r_allowlist (view p nid))
}.

(** Writes until one fails. *)
Definition perform_all {P} `{!Persist P} (ws : list Write) (p : P) : outcome PersistError P :=
  foldM (fun p w => match perform w p with (p', Ok _) => Ok p' | (_, Err e) => Err e
                                         | (_, Panic) => Panic end) p ws.

(** Every write of the trait. *)
Inductive AnyWrite :=
| Ordinary (w : Write)
| DeleteNode (nid : PublicKey).

Definition perform_any {P} `{!Persist P} (w : AnyWrite) (p : P) : P * outcome PersistError unit :=
  match w with
  | Ordinary w => perform w p
  | DeleteNode nid => persist_delete_node p nid
  end.

Definition perform_any_all {P} `{!Persist P} (ws : list AnyWrite) (p : P) : outcome PersistError P :=
  foldM (fun p w => match perform_any w p with (p', Ok _) => Ok p' | (_, Err e) => Err e
                                             | (_, Panic) => Panic end) p ws.

Lemma perform_any_ordinary {P} `{!Persist P} (ws : list Write) (p : P) :
  perform_any_all (Ordinary <$> ws) p = perform_all ws p.
Proof.
  revert p. induction ws as [|w ws IH]; intros p; [done|]. cbn.
  destruct (perform w p) as [p' [[]| |]]; cbn; [apply IH|done..].
Qed.

(** What a sequence of writes leaves in the record of [nid]. *)
Definition effects (nid : PublicKey) (ws : list Write) (r : NodeRecord) : NodeRecord :=
  foldl (fun r w => if bool_decide (written_node w = nid) then effect w r else r) r ws.

Lemma perform_all_effects {P} `{!Persist P} (view : P -> PublicKey -> NodeRecord) `{!PersistLaws P view}
  ws (p p' : P) nid : Forall (fun w => is_node_id (written_node w)) ws -> is_node_id nid ->
  perform_all ws p = Ok p' -> view p' nid = effects nid ws (view p nid).
Proof.
  intros Hids Hn. revert p. induction Hids as [|w ws Hw Hids IH]; intros p H; cbn in H.
  { by injection H as <-. }
  destruct (perform w p) as [p1 [[]| |]] eqn:Hp; cbn in H; [|done..].
  apply law_write in Hp as [H1 H2]; [|done]. rewrite (IH p1 H). cbn.
  case_bool_decide as Hd; [by subst nid; rewrite H1|by rewrite H2].
Qed.
End contract.

(** ** The key-value store *)

Module KVSpec.
Import KVJson.

Section kv.
Context `{L : Lib, CL : ChainLib, SL : SerLib}.
Implicit Types self : KVJsonPersister.

(** The channels of a node, under the ids that their keys hold. *)
Definition channels_of (b : gmap bytes ChannelEntry) (nid : PublicKey)
  : gmap ChannelId ChannelEntry :=
  list_to_map (omap (fun ke : bytes * ChannelEntry =>
    if bool_decide (take 33 ke.1 = nid) then Some (drop 33 ke.1, ke.2) else None) (map_to_list b)).

Definition view self (nid : PublicKey) : NodeRecord := {|
  r_entry := node_bucket self !! nid;
  r_state := node_state_bucket self !! nid;
  r_channels := channels_of (channel_bucket self) nid;
  r_allowlist := default [] (allowlist_bucket self !! nid);
  r_tracker := chain_tracker_bucket self !! nid |}.

Lemma take_drop_key nid k : is_node_id nid -> take 33 k = nid -> k = nid ++ drop 33 k.
Proof. intros _ <-. by rewrite take_drop. Qed.

Lemma channels_of_elem b nid id e : is_node_id nid ->
  (id, e) ∈ omap (fun ke : bytes * ChannelEntry =>
    if bool_decide (take 33 ke.1 = nid) then Some (drop 33 ke.1, ke.2) else None) (map_to_list b)
  <-> b !! (nid ++ id) = Some e.
Proof.
  intros Hn. rewrite list_elem_of_omap. split.
  - intros ([k e'] & Hin & Hk). cbn in Hk. case_bool_decide as Ht; [|done].
    injection Hk as <- <-. apply elem_of_map_to_list in Hin. by rewrite <- Ht, take_drop.
  - intros Hb. exists (nid ++ id, e). split; [by apply elem_of_map_to_list|]. cbn.
    rewrite <- Hn, take_app_length, drop_app_length. by rewrite bool_decide_true.
Qed.

Lemma channels_of_lookup b nid id : is_node_id nid ->
  channels_of b nid !! id = b !! (nid ++ id).
Proof.
  intros Hn. apply option_eq. intros e. rewrite <- (channels_of_elem b nid id e Hn).
  unfold channels_of. symmetry. apply elem_of_list_to_map.
  assert (Hnd : NoDup (map_to_list b).*1) by apply NoDup_fst_map_to_list.
  induction (map_to_list b) as [|[k x] l IH]; [constructor|]. cbn in Hnd |- *.
  apply NoDup_cons in Hnd as [Hk Hnd]. case_bool_decide as Ht; [|by apply IH].
  cbn. constructor; [|by apply IH]. intros ([id' e'] & Hid & Hin)%list_elem_of_fmap.
  cbn in Hid. subst id'. apply list_elem_of_omap in Hin as ([k' y] & Hin & Hk').
  cbn in Hk'. case_bool_decide as Ht'; [|done]. injection Hk' as Hd _. apply Hk.
  apply list_elem_of_fmap. exists (k', y). split; [|done]. cbn.
  by rewrite (take_drop_key nid k), (take_drop_key nid k'), Hd.
Qed.

(** Keys of different nodes differ. *)
Lemma key_inj nid o id id' : is_node_id nid -> is_node_id o -> nid ++ id = o ++ id' ->
  nid = o /\ id = id'.
Proof. intros Hn Ho Heq. apply app_inj_1 in Heq; [done|]. by rewrite Hn, Ho. Qed.

Lemma channels_of_insert b nid id e : is_node_id nid ->
  channels_of (<[nid ++ id := e]> b) nid = <[id := e]> (channels_of b nid).
Proof.
  intros Hn. apply map_eq. intros id'. rewrite channels_of_lookup by done.
  destruct (decide (id = id')) as [<-|Hid]; [by rewrite !lookup_insert_eq|].
  rewrite !lookup_insert_ne, channels_of_lookup; [done|done|done|].
  intros Heq. by apply key_inj in Heq as [_ ?].
Qed.

Lemma channels_of_delete b nid id : is_node_id nid ->
  channels_of (delete (nid ++ id) b) nid = delete id (channels_of b nid).
Proof.
  intros Hn. apply map_eq. intros id'. rewrite channels_of_lookup by done.
  destruct (decide (id = id')) as [<-|Hid]; [by rewrite !lookup_delete_eq|].
  rewrite !lookup_delete_ne, channels_of_lookup; [done|done|done|].
  intros Heq. by apply key_inj in Heq as [_ ?].
Qed.

Lemma channels_of_other (b b' : gmap bytes ChannelEntry) nid o id : is_node_id nid ->
  is_node_id o -> o <> nid -> (forall k, k <> nid ++ id -> b' !! k = b !! k) ->
  channels_of b' o = channels_of b o.
Proof.
  intros Hn Ho Hne Hb. apply map_eq. intros id'. rewrite !channels_of_lookup by done.
  apply Hb. intros Heq. by apply key_inj in Heq as [? _].
Qed.

(** A write to the channels: the new map holds [f] of the old one. *)
Lemma set_channel_changes self b nid id m : is_node_id nid ->
  channels_of b nid = m -> (forall k, k <> nid ++ id -> b !! k = channel_bucket self !! k) ->
  changes view self (set_channel self b) nid (with_channels (view self nid) m).
Proof.
  intros Hn <- Hb. split; [done|]. intros o Ho Hne. unfold view, set_channel.
  cbn [node_bucket node_state_bucket channel_bucket allowlist_bucket chain_tracker_bucket].
  by rewrite (channels_of_other (channel_bucket self) b nid o id).
Qed.

Ltac kv_write :=
  split; [unfold view; cbn; by rewrite ?lookup_insert_eq
         |intros o Ho Hne; unfold view; cbn; by rewrite ?lookup_insert_ne by done].

Lemma node_channel_keys_elem self nid k : is_node_id nid ->
  k ∈ node_channel_keys self nid <->
  take 33 k = nid /\ is_Some (channel_bucket self !! k).
Proof.
  intros Hn. unfold node_channel_keys, keys_of. rewrite list_elem_of_filter, Hn.
  rewrite (sort_perm (map_to_list _).*1). rewrite list_elem_of_fmap. split.
  - intros [Ht ([k' e] & -> & Hin%elem_of_map_to_list)]. by split; [|exists e].
  - intros [Ht [e He]]. split; [done|]. exists (k, e). split; [done|]. by apply elem_of_map_to_list.
Qed.

Lemma get_channels_loop self keys acc :
  Forall (fun k => is_Some (channel_bucket self !! k)) keys ->
  foldM (E := PersistError) (fun res k =>
    entry ← unwrap (channel_bucket self !! k);
    Ok (res ++ [(NodeChannelId_channel_id k, entry)])) acc keys
  = Ok (acc ++ omap (fun k => (NodeChannelId_channel_id k,.) <$> channel_bucket self !! k) keys).
Proof.
  intros Hk. revert acc. induction Hk as [|k keys [e He] _ IH]; intros acc; cbn;
    [by rewrite app_nil_r|]. rewrite He. step. rewrite IH. by rewrite <- app_assoc.
Qed.

Lemma listed_ids self keys : Forall (fun k => is_Some (channel_bucket self !! k)) keys ->
  (omap (fun k => (NodeChannelId_channel_id k,.) <$> channel_bucket self !! k) keys).*1
  = NodeChannelId_channel_id <$> keys.
Proof. induction 1 as [|k keys [e He] _ IH]; cbn; [done|]. rewrite He. cbn. by rewrite IH. Qed.

Lemma node_channel_keys_NoDup self nid : is_node_id nid ->
  NoDup (NodeChannelId_channel_id <$> node_channel_keys self nid).
Proof.
  intros Hn. apply NoDup_fmap_2_strong.
  - intros k k' [Hk _]%node_channel_keys_elem [Hk' _]%node_channel_keys_elem Hd; [|done..].
    unfold NodeChannelId_channel_id in Hd.
    by rewrite (take_drop_key nid k), (take_drop_key nid k'), Hd.
  - apply NoDup_filter. unfold keys_of. rewrite (sort_perm (map_to_list _).*1).
    apply NoDup_fst_map_to_list.
Qed.

Lemma get_channels_law self nid : is_node_id nid ->
  exists l, get_node_channels self nid = Ok l
    /\ l ≡ₚ map_to_list (r_channels (view self nid)).
Proof.
  intros Hn. assert (Hsome : Forall (fun k => is_Some (channel_bucket self !! k))
                       (node_channel_keys self nid)).
  { apply Forall_forall. intros k Hk. by apply node_channel_keys_elem in Hk as [_ ?]. }
  unfold get_node_channels. rewrite get_channels_loop by done. eexists. split; [done|]. cbn [app].
  set (l := omap _ _). assert (Hnd : NoDup l.*1).
  { unfold l. rewrite listed_ids by done. by apply node_channel_keys_NoDup. }
  rewrite <- (map_to_list_to_map l) by done.
  replace (list_to_map l) with (r_channels (view self nid)); [done|].
  apply map_eq. intros id. cbn [r_channels view]. symmetry.
  rewrite channels_of_lookup by done. apply option_eq. intros e.
  rewrite <- elem_of_list_to_map by done. unfold l. rewrite list_elem_of_omap. split.
  - intros (k & [Ht _]%node_channel_keys_elem & Hk); [|done].
    apply fmap_Some in Hk as (e' & He & [= -> ->]). unfold NodeChannelId_channel_id.
    by rewrite <- (take_drop_key nid k).
  - intros He. exists (nid ++ id). split.
    + apply node_channel_keys_elem; [done|]. split; [|by exists e].
      by rewrite <- Hn, take_app_length.
    + rewrite He. unfold NodeChannelId_channel_id. cbn. by rewrite <- Hn, drop_app_length.
Qed.

Lemma kv_write_law w self self' : is_node_id (written_node w) ->
  perform w self = (self', Ok tt) ->
  changes view self self' (written_node w) (effect w (view self (written_node w))).
Proof.
  destruct w as [nid config st|nid st|nid stub|nid id|nid chan|nid t|nid t|nid l];
    cbn [written_node effect perform]; intros Hn Hw; cbn in Hw.
  - unfold new_node in Hw. case_bool_decide; [done|]. injection Hw as <-. kv_write.
  - injection Hw as <-. kv_write.
  - unfold new_channel in Hw. case_bool_decide; [done|]. injection Hw as <-.
    apply (set_channel_changes _ _ _ (stub_id0 stub)); [done|by apply channels_of_insert|].
    intros k Hk. by rewrite lookup_insert_ne.
  - injection Hw as <-. apply (set_channel_changes _ _ _ id); [done|by apply channels_of_delete|].
    intros k Hk. by rewrite lookup_delete_ne.
  - unfold update_channel in Hw. case_bool_decide; [done|]. injection Hw as <-.
    apply (set_channel_changes _ _ _ (id0 chan)); [done|by apply channels_of_insert|].
    intros k Hk. by rewrite lookup_insert_ne.
  - unfold new_chain_tracker in Hw. case_bool_decide; [done|]. injection Hw as <-. kv_write.
  - injection Hw as <-. kv_write.
  - injection Hw as <-. kv_write.
Qed.

#[global] Instance kv_laws : PersistLaws KVJsonPersister view.
Proof.
  split.
  - intros w p p'. apply kv_write_law.
  - intros p nid pol e Hn He. cbn in He |- *. unfold get_tracker. by rewrite He.
  - intros p nid id e Hn He. cbn [r_channels view] in He. rewrite channels_of_lookup in He by done.
    cbn. unfold get_channel, NodeChannelId_new. by rewrite He.
  - intros p nid Hn. by apply get_channels_law.
  - done.
Qed.
End kv.
End KVSpec.

(** ** The composite persister *)

Module BackupSpec.
Import Backup.

Section backup.
Context `{L : Lib, CL : ChainLib, SL : SerLib} {M B : Type} `{!Persist M, !Persist B}.
Notation Self := (BackupPersister M B).
Implicit Types self : Self.

(** Main and backup hold the same record of every node. *)
Definition mirrors (vm : M -> PublicKey -> NodeRecord) (vb : B -> PublicKey -> NodeRecord) self : Prop :=
  forall nid, is_node_id nid -> vm (main self) nid = vb (backup self) nid.

Lemma write_Ok self self' f g : main_is_ready self = true -> write self f g = (self', Ok tt) ->
  f (main self) = (main self', Ok tt) /\ g (backup self) = (backup self', Ok tt)
  /\ initial_restore_complete self' = initial_restore_complete self.
Proof.
  intros Hr. unfold write. rewrite Hr. destruct self as [m b c]. cbn.
  destruct (f m) as [m' [[]|e|]]; [|done..]. cbn. destruct (g b) as [b' r].
  intros Hw. injection Hw as <- ->. done.
Qed.

(** A successful write is a write to each of the two. *)
Lemma perform_both w self self' : main_is_ready self = true ->
  perform_any w self = (self', Ok tt) ->
  perform_any w (main self) = (main self', Ok tt)
  /\ perform_any w (backup self) = (backup self', Ok tt)
  /\ initial_restore_complete self' = initial_restore_complete self.
Proof.
  intros Hr Hw. destruct w as [[]|]; cbn [perform_any perform] in *; by apply write_Ok in Hw.
Qed.

Lemma perform_all_both ws self self' : initial_restore_complete self = true ->
  perform_any_all ws self = Ok self' ->
  perform_any_all ws (main self) = Ok (main self')
  /\ perform_any_all ws (backup self) = Ok (backup self').
Proof.
  revert self. induction ws as [|w ws IH]; intros self Hready Hrun; cbn in Hrun.
  { by injection Hrun as <-. }
  destruct (perform_any w self) as [self1 [[]| |]] eqn:Hw; cbn in Hrun; [|done..].
  apply perform_both in Hw as (Hm & Hb & Hc); [|unfold main_is_ready; rewrite Hready; apply orb_true_r].
  cbn. rewrite Hm, Hb. cbn. apply IH; [congruence|done].
Qed.

(** C29: the composite persister is one store.  Once the initial restore is
    complete, any sequence of successful writes, [delete_node] among them, is
    the same sequence of successful writes to the main store and to the backup.
    If both fulfil [PersistLaws] (the key-value store does; the store kept in
    memory for a remote backup does not, as it fails to list its channels once
    one was deleted and looks channels up under a wrong prefix) and hold the
    same record of every node, then after any writes other than
    [delete_node] both hold the old records changed by the writes of each node
    in order. *)
Theorem backup_keeps_mirror ws self self' (Hready : initial_restore_complete self = true)
  (Hrun : perform_any_all ws self = Ok self') :
  perform_any_all ws (main self) = Ok (main self')
  /\ perform_any_all ws (backup self) = Ok (backup self')
  /\ forall vm vb ws', PersistLaws M vm -> PersistLaws B vb -> mirrors vm vb self ->
       ws = Ordinary <$> ws' -> Forall (fun w => is_node_id (written_node w)) ws' ->
       forall nid, is_node_id nid ->
         vm (main self') nid = effects nid ws' (vm (main self) nid)
         /\ vb (backup self') nid = effects nid ws' (vm (main self) nid).
Proof.
  destruct (perform_all_both ws self self' Hready Hrun) as [Hm Hb]. split; [done|]. split; [done|].
  intros vm vb ws' Lm Lb Hmir -> Hids nid Hn. rewrite perform_any_ordinary in Hm.
  rewrite perform_any_ordinary in Hb.
  rewrite (Hmir nid Hn) at 2. split; by apply perform_all_effects.
Qed.
End backup.
End BackupSpec.

(** ** Witnesses *)

#[local] Existing Instances example_lib Tracker.example_chain_lib example_ser.

Definition example_writes : list Write :=
  [ NewNode (replicate 33 2) {| cfg_network := Testnet; cfg_key_derivation_style := Native;
                                use_checkpoints := false |}
      (NodeState_new {| start_sec := 0; bucket_interval := 300; buckets := replicate 12 0; limit := 5 |}
                     {| start_sec := 0; bucket_interval := 300; buckets := replicate 12 0; limit := 5 |});
    NewChainTracker (replicate 33 2) (Tracker.example_tracker [] 7 None);
    NewChannel (replicate 33 2) {| stub_keys := 5 : @InMemorySigner example_lib; stub_id0 := [7];
                                   stub_blockheight := 0 |};
    UpdateAllowlist (replicate 33 2) ["payee:ab"] ].

Lemma backup_keeps_mirror_witness : exists self' : Backup.BackupPersister KVJson.KVJsonPersister KVJson.KVJsonPersister,
  perform_any_all (Ordinary <$> example_writes)
    (Backup.on_initial_restore (Backup.new KVJson.empty KVJson.empty)).1 = Ok self'
  /\ r_allowlist (KVSpec.view (Backup.backup self') (replicate 33 2)) = ["payee:ab"].
Proof.
  assert (Hrun : exists self', perform_any_all (Ordinary <$> example_writes)
    (Backup.on_initial_restore (Backup.new KVJson.empty KVJson.empty)).1 = Ok self')
    by (eexists; reflexivity).
  destruct Hrun as [self' Hrun]. exists self'. split; [exact Hrun|].
  destruct (BackupSpec.backup_keeps_mirror (Ordinary <$> example_writes)
    (Backup.on_initial_restore (Backup.new KVJson.empty KVJson.empty)).1 self' eq_refl Hrun)
    as (_ & _ & H).
  rewrite (proj2 (H KVSpec.view KVSpec.view example_writes _ _
    ltac:(by intros nid _) eq_refl ltac:(by repeat constructor) (replicate 33 2) eq_refl)).
  by vm_compute.
Defined.
