(* ===== verification/Node.v ===== *)
(** * The node (vls-core/src/node.rs, invoice.rs)

    A node owns the channels, the wallet keys, the allowlist, the payments and
    the chain tracker, and writes them to a persister.  Its operations are
    functions of a state and error monad over the node and the store; as in the
    source an error leaves the changes made before it in place.

    Channel slots are shared: the map of channels holds pointers, so that a
    channel known under two ids is one slot.  The monitor of a channel is the
    listener that the tracker has under its funding outpoint, until another
    channel with the same outpoint replaces the listener; the old channel then
    keeps a monitor of its own that no longer follows the chain. *)

From S2P Require Import Prelude Velocity Policy Order Extern Crypto Setup Tx Keys Allowlist Script.
From S2P Require Import Secrets Enforcement Validator NodeState ChannelOps Monitor Tracker Persist.

(** ** Invoices (invoice.rs): the two invoice crates are parameters *)

Class InvoiceLib := {
  Bolt11 : Type;
  bolt11_signable_hash : Bolt11 -> bytes;
  bolt11_payment_hash : Bolt11 -> PaymentHash;
  bolt11_amount_milli_satoshis : Bolt11 -> option Z;
  bolt11_payee_pub_key : Bolt11 -> option PublicKey;
  bolt11_recover_payee_pub_key : Bolt11 -> PublicKey;
  bolt11_duration_since_epoch : Bolt11 -> Z;
  bolt11_expiry_time : Bolt11 -> Z;
  Bolt12 : Type;
  bolt12_signable_hash : Bolt12 -> bytes;
  bolt12_payment_hash : Bolt12 -> PaymentHash;
  bolt12_amount_msats : Bolt12 -> Z;
  bolt12_signing_pubkey : Bolt12 -> PublicKey;
  bolt12_created_at : Bolt12 -> Z;
  bolt12_relative_expiry : Bolt12 -> Z;
  (** parsing and signing of BOLT-11 invoices *)
  RawHrp : Type;
  RawDataPart : Type;
  SignedRawInvoice : Type;
  string_from_utf8 : bytes -> option string;
  hrp_parse : string -> option RawHrp;
  data_from_base32 : list Z -> option RawDataPart;
  raw_invoice_signed : RawHrp -> RawDataPart -> Signature -> SignedRawInvoice;
  bolt11_from_signed : SignedRawInvoice -> option Bolt11
}.

Inductive AnyInvoice `{InvoiceLib} := InvBolt11 (i : Bolt11) | InvBolt12 (i : Bolt12).

Section invoices.
Context `{IL : InvoiceLib}.

Definition inv_invoice_hash (i : AnyInvoice) : bytes :=
  match i with InvBolt11 b => bolt11_signable_hash b | InvBolt12 b => bolt12_signable_hash b end.

Definition inv_payment_hash (i : AnyInvoice) : PaymentHash :=
  match i with InvBolt11 b => bolt11_payment_hash b | InvBolt12 b => bolt12_payment_hash b end.

Definition inv_amount_milli_satoshis (i : AnyInvoice) : Z :=
  match i with
  | InvBolt11 b => default 0 (bolt11_amount_milli_satoshis b)
  | InvBolt12 b => bolt12_amount_msats b
  end.

Definition inv_payee_pub_key (i : AnyInvoice) : PublicKey :=
  match i with
  | InvBolt11 b => default (bolt11_recover_payee_pub_key b) (bolt11_payee_pub_key b)
  | InvBolt12 b => bolt12_signing_pubkey b
  end.

Definition inv_duration_since_epoch (i : AnyInvoice) : Z :=
  match i with
  | InvBolt11 b => bolt11_duration_since_epoch b
  | InvBolt12 b => bolt12_created_at b
  end.

Definition inv_expiry_duration (i : AnyInvoice) : Z :=
  match i with
  | InvBolt11 b => bolt11_expiry_time b
  | InvBolt12 b => bolt12_relative_expiry b
  end.

Definition inv_times (i : AnyInvoice) : InvoiceTimes :=
  {| duration_since_epoch := inv_duration_since_epoch i; expiry_duration := inv_expiry_duration i |}.
End invoices.

(** ** Data *)

(** The trait [ValidatorFactory] of policy/validator.rs. *)
Record ValidatorFactory `{Lib} := {
  make_validator : Network -> PublicKey -> option ChannelId -> Validator;
  factory_policy : Network -> Policy
}.

(** A channel slot, and its own monitor once the tracker has replaced it. *)
Record Slot `{Lib} := { slot : ChannelSlot; detached : option Monitor.State }.

Record Node `{L : Lib, !KeyLib, CL : ChainLib} := {
  node_config : NodeConfig;
  keys_manager : Keys.MyKeysManager;
  channels : gmap ChannelId nat;
  slots : gmap nat Slot;
  node_validator_factory : ValidatorFactory;
  allowlist : gset Allowable;
  tracker : NodeTracker;
  state : NodeState;
  node_id : PublicKey
}.
Arguments Node {_ _ _}.

(** Spend types (node.rs). *)
Inductive SpendType := Invalid | P2pkh | P2wpkh | P2shP2wpkh | P2wsh.

#[global] Instance SpendType_eq_dec : EqDecision SpendType.
Proof. solve_decision. Defined.

Definition SpendType_try_from (i : Z) : outcome unit SpendType :=
  if i =? 0 then Ok Invalid
  else if i =? 1 then Ok P2pkh
  else if i =? 3 then Ok P2wpkh
  else if i =? 4 then Ok P2shP2wpkh
  else if i =? 5 then Ok P2wsh
  else Err tt.

Definition CHANNEL_STUB_PRUNE_BLOCKS : Z := 6.

Module NodeOps.

Record NSt `{L : Lib, !KeyLib, CL : ChainLib} (P : Type) := { node : Node; store : P }.
Arguments node {_ _ _ P}.
Arguments store {_ _ _ P}.

Definition M `{L : Lib, !KeyLib, CL : ChainLib} (P A : Type) : Type :=
  NSt P -> NSt P * outcome Status A.

Section monad.
Context `{L : Lib, !KeyLib, CL : ChainLib} {P : Type}.

#[global] Instance M_ret : MRet (M P) := fun A a s => (s, Ok a).
#[global] Instance M_bind : MBind (M P) := fun A B f m s =>
  match m s with
  | (s', Ok a) => f a s'
  | (s', Err e) => (s', Err e)
  | (s', Panic) => (s', Panic)
  end.

Definition lift {A} (m : outcome Status A) : M P A := fun s => (s, m).
Definition lift_v {A} (m : result A) : M P A := lift (map_err status_from m).
Definition get_node : M P Node := fun s => (s, Ok (node s)).
Definition put_node (n : Node) : M P unit := fun s => ({| node := n; store := store s |}, Ok tt).

(** A call of the persister; its error is a value. *)
Definition persist_call (f : P -> P * outcome PersistError unit) : M P (outcome PersistError unit) :=
  fun s =>
    match f (store s) with
    | (p, Panic) => ({| node := node s; store := p |}, Panic)
    | (p, r) => ({| node := node s; store := p |}, Ok r)
    end.

(** [.map_err(|_| internal_error(msg))?] *)
Definition persist_or (msg : string) (f : P -> P * outcome PersistError unit) : M P unit :=
  r ← persist_call f;
  lift (map_err (fun _ => internal_error msg) r).

(** [.expect(..)] *)
Definition persist_expect (f : P -> P * outcome PersistError unit) : M P unit :=
  r ← persist_call f;
  lift (unwrap_ok r).
End monad.

Section fields.
Context `{L : Lib, !KeyLib, CL : ChainLib}.
Implicit Types n : Node.

Definition set_keys_manager n (km : Keys.MyKeysManager) : Node := {|
  node_config := node_config n; keys_manager := km; channels := channels n; slots := slots n;
  node_validator_factory := node_validator_factory n; allowlist := allowlist n;
  tracker := tracker n; state := state n; node_id := node_id n |}.

Definition set_channels n (cs : gmap ChannelId nat) (sl : gmap nat Slot) : Node := {|
  node_config := node_config n; keys_manager := keys_manager n; channels := cs; slots := sl;
  node_validator_factory := node_validator_factory n; allowlist := allowlist n;
  tracker := tracker n; state := state n; node_id := node_id n |}.

Definition set_validator_factory n (vf : ValidatorFactory) : Node := {|
  node_config := node_config n; keys_manager := keys_manager n; channels := channels n;
  slots := slots n; node_validator_factory := vf; allowlist := allowlist n;
  tracker := tracker n; state := state n; node_id := node_id n |}.

Definition set_allowlist_field n (al : gset Allowable) : Node := {|
  node_config := node_config n; keys_manager := keys_manager n; channels := channels n;
  slots := slots n; node_validator_factory := node_validator_factory n; allowlist := al;
  tracker := tracker n; state := state n; node_id := node_id n |}.

Definition set_tracker n (t : NodeTracker) : Node := {|
  node_config := node_config n; keys_manager := keys_manager n; channels := channels n;
  slots := slots n; node_validator_factory := node_validator_factory n; allowlist := allowlist n;
  tracker := t; state := state n; node_id := node_id n |}.

Definition set_state n (st : NodeState) : Node := {|
  node_config := node_config n; keys_manager := keys_manager n; channels := channels n;
  slots := slots n; node_validator_factory := node_validator_factory n; allowlist := allowlist n;
  tracker := tracker n; state := st; node_id := node_id n |}.

Definition node_network n : Network := cfg_network (node_config n).

(** [Node::validator] and [Node::policy]. *)
Definition validator n : Validator :=
  make_validator (node_validator_factory n) (node_network n) (node_id n) None.
Definition node_policy n : Policy := factory_policy (node_validator_factory n) (node_network n).

(** The ids of the channels, in the order of the map. *)
Definition channel_ids n : list ChannelId := sort (map_to_list (channels n)).*1.

(** The slots in the order of the map. *)
Definition channel_slots n : list (ChannelId * nat) :=
  omap (fun id => (id,.) <$> channels n !! id) (channel_ids n).
End fields.

(** The chain's genesis block and checkpoints, with their filter headers
    (bitcoin and txoo). *)
Class CheckpointLib := {
  genesis_headers : Network -> Headers;
  get_latest_checkpoint : Network -> option (Z * Headers)
}.

(** What the node calls besides: the hash of a legacy input, the compact form
    of a recoverable signature, Schnorr signatures, and the serde_bolt encoding
    of a heartbeat. *)
Class NodeLib := {
  legacy_signature_hash : Transaction -> nat -> Script -> Z -> bytes;
  serialize_compact : Signature -> Z * bytes;
  schnorr_from_slice : bytes -> option Signature;
  verify_schnorr : Signature -> bytes -> PublicKey -> bool;
  serde_bolt_heartbeat : BlockHash -> Z -> Z -> Z -> bytes
}.

Section ops.
Context `{L : Lib, CrL : CryptoLib, !KeyLib, CL : ChainLib, AL : AddressLib, IL : InvoiceLib}.
Context `{CkL : CheckpointLib, NL : NodeLib, SL : SerLib, Prof : Profile} {P : Type} `{!Persist P}.
Notation M := (M P).
Implicit Types n : Node.

(** ** Creation *)

Definition tracker_from_genesis {E} (net : Network) (p : Policy) : outcome E NodeTracker :=
  let '(header, filter_header) := genesis_headers net in
  unwrap_ok (Tracker.from_checkpoint net header filter_header 0 p).

Definition tracker_for_network {E} (net : Network) (p : Policy) : outcome E NodeTracker :=
  match get_latest_checkpoint net with
  | Some (h, (header, filter_header)) =>
      unwrap_ok (Tracker.from_checkpoint net header filter_header h p)
  | None => tracker_from_genesis net p
  end.

Definition make_velocity_control {E} (p : Policy) : outcome E VelocityControl :=
  Velocity.new (global_velocity_control p).
Definition make_fee_velocity_control {E} (p : Policy) : outcome E VelocityControl :=
  Velocity.new (fee_velocity_control p).

(** [with_log_prefix]: the velocity controls are replaced. *)
Definition with_log_prefix (self : NodeState) (vc fvc : VelocityControl) : NodeState := {|
  invoices := invoices self; issued_invoices := issued_invoices self; payments := payments self;
  excess_amount := excess_amount self; velocity_control := vc; ns_fee_velocity_control := fvc |}.

Definition new_full {E} (config : NodeConfig) (al : list Allowable) (vf : ValidatorFactory)
  (st : NodeState) (km : Keys.MyKeysManager) (nid : PublicKey) (t : NodeTracker)
  : outcome E Node :=
  let p := factory_policy vf (cfg_network config) in
  vc ← make_velocity_control p;
  fvc ← make_fee_velocity_control p;
  Ok {| node_config := config; keys_manager := km; channels := ∅; slots := ∅;
        node_validator_factory := vf; allowlist := list_to_set al; tracker := t;
        state := with_log_prefix st vc fvc; node_id := nid |}.

Definition make_keys_manager {E} (config : NodeConfig) (seed : bytes) (starting_time : Z * Z)
  : outcome E (Keys.MyKeysManager * PublicKey) :=
  km ← Keys.new (cfg_key_derivation_style config) seed (cfg_network config) starting_time;
  Ok (km, Keys.get_node_id km).

(** The policy that the tracker's validator enforces. *)
Definition chain_policy (vf : ValidatorFactory) (net : Network) (nid : PublicKey) : Policy :=
  policy (make_validator vf net nid None).

Definition new {E} (config : NodeConfig) (seed : bytes) (al : list Allowable)
  (vf : ValidatorFactory) (starting_time : Z * Z) : outcome E Node :=
  let p := factory_policy vf (cfg_network config) in
  vc ← make_velocity_control p;
  fvc ← make_fee_velocity_control p;
  '(km, nid) ← make_keys_manager config seed starting_time;
  let cp := chain_policy vf (cfg_network config) nid in
  t ← (if use_checkpoints config then tracker_for_network (cfg_network config) cp
       else tracker_from_genesis (cfg_network config) cp);
  new_full config al vf (NodeState_new vc fvc) km nid t.

Definition new_from_persistence {E} (config : NodeConfig) (seed : bytes) (al : list Allowable)
  (vf : ValidatorFactory) (starting_time : Z * Z) (st : NodeState) (p : P) : outcome E Node :=
  '(km, nid) ← make_keys_manager config seed starting_time;
  t ← unwrap_ok (persist_get_tracker p nid (chain_policy vf (cfg_network config) nid));
  new_full config al vf st km nid t.

Definition update_velocity_controls : M unit :=
  self ← get_node;
  let p := node_policy self in
  put_node (set_state self (with_log_prefix (state self)
    (update_spec (velocity_control (state self)) (global_velocity_control p))
    (update_spec (ns_fee_velocity_control (state self)) (fee_velocity_control p)))).

(** ** The wallet *)

Definition get_wallet_privkey n (child_path : path) : outcome Status SecretKey :=
  if negb (length child_path =? get_key_path_len (cfg_key_derivation_style (node_config n)))%nat
  then Err (invalid_argument "get_wallet_key: bad child_path len : {}")
  else
    xkey ← foldM (fun xkey elem =>
        c ← unwrap (from_normal_idx elem);
        ok_or (ckd_priv xkey c) (internal_error "derive child_path failed: {}"))
      (Keys.account_extended_key (keys_manager n)) child_path;
    Ok (private_key xkey).

Definition get_wallet_pubkey n (child_path : path) : outcome Status PublicKey :=
  key ← get_wallet_privkey n child_path;
  Ok (pubkey_from_secret_key key).

Definition check_wallet_pubkey n (child_path : path) (pubkey : PublicKey) : outcome Status bool :=
  k ← get_wallet_pubkey n child_path;
  Ok (bool_decide (k = pubkey)).

Definition can_spend n (child_path : path) (script : Script) : outcome Status bool :=
  if (length child_path =? 0)%nat then Ok false
  else
    pubkey ← get_wallet_pubkey n child_path;
    native_addr ← unwrap (p2wpkh pubkey (node_network n));
    wrapped_addr ← unwrap (p2shwpkh pubkey (node_network n));
    Ok (bool_decide (script = address_script_pubkey native_addr)
        || bool_decide (script = address_script_pubkey wrapped_addr)).

Definition get_native_address n (child_path : path) : outcome Status Address :=
  if (length child_path =? 0)%nat then Err (invalid_argument "empty child path")
  else pubkey ← get_wallet_pubkey n child_path; unwrap (p2wpkh pubkey (node_network n)).

Definition get_wrapped_address n (child_path : path) : outcome Status Address :=
  if (length child_path =? 0)%nat then Err (invalid_argument "empty child path")
  else pubkey ← get_wallet_pubkey n child_path; unwrap (p2shwpkh pubkey (node_network n)).

Definition allowlist_contains_payee n (payee : PublicKey) : bool :=
  bool_decide (AllowPayee payee ∈ allowlist n).

(** Whether the script pays to the key of [xp] at the path. *)
Definition xpub_pays {E} n (script : Script) (child_path : list ChildNumber) (xp : ExtendedPubKey)
  : outcome E bool :=
  pubkey ← unwrap (derive_pub xp child_path);
  a ← unwrap (p2wpkh pubkey (node_network n));
  Ok (bool_decide (script = address_script_pubkey a)
      || bool_decide (script = address_script_pubkey (p2pkh pubkey (node_network n)))).

Definition allowlist_contains {E} n (script : Script) (p : path) : outcome E bool :=
  if bool_decide (AllowScript script ∈ allowlist n) then Ok true
  else if (length p =? 0)%nat then Ok false
  else
    child_path ← foldM (fun acc i => c ← unwrap (from_normal_idx i); Ok (acc ++ [c])) [] p;
    foldM (fun (found : bool) a =>
      if found then Ok true
      else match a with
           | AllowXPub xp => xpub_pays n script child_path xp
           | _ => Ok false
           end) false (elements (allowlist n)).

Definition wallet_of n : Wallet := {|
  Validator.can_spend := can_spend n;
  Validator.allowlist_contains_payee := allowlist_contains_payee n;
  Validator.allowlist_contains := allowlist_contains n;
  wallet_network := node_network n |}.

(** ** The allowlist *)

Definition update_allowlist (al : gset Allowable) : M unit :=
  self ← get_node;
  let wlvec := (fun a => to_string a (node_network self)) <$> elements al in
  persist_or "persist failed" (fun p => persist_update_node_allowlist p (node_id self) wlvec).

Definition get_allowlist n : list string :=
  (fun a => to_string a (node_network n)) <$> elements (allowlist n).

Definition parse_allowables (l : list string) : M (list Allowable) :=
  self ← get_node;
  lift (map_err (fun s => invalid_argument ("could not parse {}"))
          (parse_list l (node_network self))).

Definition change_allowlist (l : list string)
  (f : gset Allowable -> list Allowable -> gset Allowable) : M unit :=
  allowables ← parse_allowables l;
  self ← get_node;
  let al := f (allowlist self) allowables in
  put_node (set_allowlist_field self al);;
  update_allowlist al.

Definition add_allowlist (addlist : list string) : M unit :=
  change_allowlist addlist (fun al l => foldl (fun al a => {[a]} ∪ al) al l).

Definition set_allowlist (l : list string) : M unit :=
  change_allowlist l (fun _ l => foldl (fun al a => {[a]} ∪ al) ∅ l).

Definition remove_allowlist (rmlist : list string) : M unit :=
  change_allowlist rmlist (fun al l => foldl (fun al a => al ∖ {[a]}) al l).

(** ** Channels *)

Definition channel_setup_to_channel_transaction_parameters (setup : ChannelSetup)
  (holder_pubkeys : ChannelPublicKeys) : ChannelTransactionParameters := {|
  Extern.holder_pubkeys := holder_pubkeys;
  ctp_holder_selected_contest_delay := holder_selected_contest_delay setup;
  is_outbound_from_holder := is_outbound setup;
  counterparty_parameters :=
    Some (counterparty_points setup, counterparty_selected_contest_delay setup);
  (** the index is a [u16] *)
  ctp_funding_outpoint := Some {| op_txid := op_txid (funding_outpoint setup);
                                  vout := as_u 16 (vout (funding_outpoint setup)) |};
  opt_anchors := is_anchors setup;
  opt_non_zero_fee_anchors := is_zero_fee_htlc setup |}.

(** [ChannelStub::channel_keys_with_channel_value] of channel.rs. *)
Definition channel_keys_with_channel_value (stub : ChannelStub) (channel_value_sat : Z)
  : InMemorySigner :=
  let ks := stub_keys stub in
  InMemorySigner_new (funding_key ks) (revocation_base_key ks) (payment_key ks)
    (delayed_payment_base_key ks) (htlc_base_key ks) (commitment_seed ks) channel_value_sat
    (channel_keys_id ks) (signer_random_bytes ks).

(** The pointer of a channel. *)
Definition get_channel (channel_id : ChannelId) : M nat :=
  self ← get_node;
  lift (ok_or (channels self !! channel_id) (invalid_argument "no such channel: {}")).

Definition get_slot (ptr : nat) : M Slot :=
  self ← get_node;
  lift (unwrap (slots self !! ptr)).

Definition with_channel_base {A} (channel_id : ChannelId) (f : ChannelSlot -> outcome Status A)
  : M A :=
  ptr ← get_channel channel_id;
  sl ← get_slot ptr;
  lift (f (slot sl)).

(** [f] works on the channel, and on the node and the store through it. *)
Definition with_ready_channel {A} (channel_id : ChannelId)
  (f : Channel -> NSt P -> NSt P * Channel * outcome Status A) : M A :=
  ptr ← get_channel channel_id;
  sl ← get_slot ptr;
  match slot sl with
  | Stub _ => lift (Err (invalid_argument "channel not ready: {}"))
  | Ready chan => fun s =>
      let '(s, chan', r) := f chan s in
      let n := node s in
      ({| node := set_channels n (channels n)
            (<[ptr := {| slot := Ready chan'; detached := detached sl |}]> (slots n));
          store := store s |}, r)
  end.

(** A pointer that is not in use. *)
Definition fresh_slot n : nat := fresh (dom (slots n)).

(** [channels.insert(id, slot)] for each of the ids. *)
Definition insert_slot n (ids : list ChannelId) (sl : Slot) : Node :=
  let ptr := fresh_slot n in
  set_channels n (foldl (fun m id => <[id := ptr]> m) (channels n) ids) (<[ptr := sl]> (slots n)).

Definition new_channel (opt_channel_id : option ChannelId) : M (ChannelId * option ChannelSlot) :=
  self ← get_node;
  '(self, channel_id) ← lift
     match opt_channel_id with
     | Some id => Ok (self, id)
     | None => '(km, id) ← Keys.get_channel_id (keys_manager self);
               Ok (set_keys_manager self km, id)
     end;
  put_node self;;
  if max_channels (node_policy self) <=? Z.of_nat (size (channels self)) then
    lift (Err (failed_precondition "too many channels ({} >= {})"))
  else
    match channels self !! channel_id with
    | Some ptr => sl ← get_slot ptr; mret (channel_id, Some (slot sl))
    | None =>
        '(km, ks) ← lift (Keys.get_channel_keys_with_id (keys_manager self) channel_id 0);
        let stub := {| stub_keys := ks; stub_id0 := channel_id;
                       stub_blockheight := height (tracker self) |} in
        let self := set_keys_manager self km in
        put_node (insert_slot self [channel_id] {| slot := Stub stub; detached := None |});;
        persist_expect (fun p => persist_new_channel p (node_id self) stub);;
        mret (channel_id, Some (Stub stub))
    end.

(** [find_channel_with_funding_outpoint]: the first in the order of the map. *)
Definition slot_funds n (outpoint : OutPoint) (ip : ChannelId * nat) : bool :=
  match slots n !! ip.2 with
  | Some {| slot := Ready chan |} => bool_decide (funding_outpoint (setup chan) = outpoint)
  | _ => false
  end.

Definition find_channel_with_funding_outpoint n (outpoint : OutPoint) : option nat :=
  snd <$> List.find (slot_funds n outpoint) (channel_slots n).

(** The monitors that the tracker's new listener for [outpoint] replaces: the
    channels that used the old listener keep its state. *)
Definition detach (outpoint : OutPoint) (old : option (Tracker.ChainMonitor * ListenSlot))
  (sl : Slot) : Slot :=
  match slot sl, detached sl, old with
  | Ready chan, None, Some (m, _) =>
      if bool_decide (funding_outpoint (setup chan) = outpoint)
      then {| slot := slot sl; detached := Some (Tracker.cm_state m) |} else sl
  | _, _, _ => sl
  end.

Definition ready_channel (channel_id0 : ChannelId) (opt_channel_id : option ChannelId)
  (the_setup : ChannelSetup) (holder_shutdown_key_path : path) : M Channel :=
  self ← get_node;
  let v := make_validator (node_validator_factory self) (node_network self) (node_id self)
             (Some channel_id0) in
  ptr ← lift (ok_or (channels self !! channel_id0) (invalid_argument "channel does not exist: {}"));
  sl ← get_slot ptr;
  match slot sl with
  | Ready c =>
      if bool_decide (setup c <> the_setup) then
        lift (Err (invalid_argument "channel already ready with different setup: {}"))
      else mret c
  | Stub stub =>
      let ks := channel_keys_with_channel_value stub (channel_value_sat the_setup) in
      let ks := provide_channel_parameters ks
        (channel_setup_to_channel_transaction_parameters the_setup (pubkeys ks)) in
      let outpoint := funding_outpoint the_setup in
      monitor ← lift (Monitor.add_funding_outpoint (Monitor.new (height (tracker self))) outpoint);
      to_holder_msat ← lift
        (if is_outbound the_setup then
           value_msat ← mul64 (channel_value_sat the_setup) 1000;
           ok_or (checked_sub64 value_msat (push_value_msat the_setup))
             (status_from (policy_error_value "beneficial channel value underflow: {} - {}"))
         else Ok (push_value_msat the_setup));
      let chan := {| keys := ks;
        enforcement_state := EnforcementState_new (minimum_initial_balance v to_holder_msat);
        setup := the_setup; id0 := channel_id0; chan_id := opt_channel_id |} in
      lift_v (validate_ready_channel v (wallet_of self) the_setup holder_shutdown_key_path);;
      let chan_id := default channel_id0 opt_channel_id in
      let ids := if bool_decide (channel_id0 <> chan_id) then [chan_id; channel_id0]
                 else [chan_id] in
      let old := listeners (tracker self) !! outpoint in
      let self := set_channels self (channels self) (detach outpoint old <$> slots self) in
      let self := insert_slot self ids {| slot := Ready chan; detached := None |} in
      let t := Tracker.add_listener (tracker self)
        {| Tracker.cm_funding_outpoint := outpoint; Tracker.cm_state := monitor |}
        {[op_txid outpoint]} in
      put_node (set_tracker self t);;
      persist_or "tracker persist failed" (fun p => persist_update_tracker p (node_id self) t);;
      persist_or "persist failed" (fun p => persist_update_channel p (node_id self) chan);;
      mret chan
  end.

(** *** Pruning of stubs *)

Definition prunable_stub n (current_blockheight : Z) (ip : ChannelId * nat) : bool :=
  match slots n !! ip.2 with
  | Some {| slot := Stub stub |} =>
      CHANNEL_STUB_PRUNE_BLOCKS <? saturating_sub32 current_blockheight (stub_blockheight stub)
  | _ => false
  end.

Definition prune_channels (current_blockheight : Z) : M unit :=
  self ← get_node;
  let keys_to_remove :=
    fst <$> base.filter (fun ip => prunable_stub self current_blockheight ip = true)
              (channel_slots self) in
  foldl (fun (m : M unit) channel_id0 =>
    m;;
    self ← get_node;
    put_node (set_channels self (delete channel_id0 (channels self)) (slots self));;
    persist_expect (fun p => persist_delete_channel p (node_id self) channel_id0))
    (mret tt) keys_to_remove.

(** ** Restart *)

Definition restore_channel (channel_id0 : ChannelId) (channel_id : option ChannelId)
  (channel_value_sat : Z) (channel_setup : option ChannelSetup) (es : EnforcementState)
  (blockheight : Z) : M ChannelSlot :=
  self ← get_node;
  lift (assert_ (bool_decide (channels self !! channel_id0 = None)));;
  '(km, ks) ← lift (Keys.get_channel_keys_with_id (keys_manager self) channel_id0 channel_value_sat);
  sl ← lift
    match channel_setup with
    | None => Ok (Stub {| stub_keys := ks; stub_id0 := channel_id0;
                          stub_blockheight := blockheight |})
    | Some the_setup =>
        let ks := provide_channel_parameters ks
          (channel_setup_to_channel_transaction_parameters the_setup (pubkeys ks)) in
        unwrap (listeners (tracker self) !! funding_outpoint the_setup);;
        Ok (Ready {| keys := ks; enforcement_state := es; setup := the_setup;
                     id0 := channel_id0; chan_id := channel_id |})
    end;
  let self := insert_slot self (channel_id0 :: option_list channel_id)
                {| slot := sl; detached := None |} in
  put_node (set_keys_manager self (Keys.increment_channel_id_child_index km).1);;
  mret sl.

(** A channel's operation on the payments of the node. *)
Definition on_payments (m : Chan.M unit) (chan : Channel) : M unit := fun s =>
  let '(cs, r) := m {| Chan.chan := chan; Chan.node_state := state (node s);
                       Chan.persisted := chan |} in
  ({| node := set_state (node s) (Chan.node_state cs); store := store s |}, r).

Definition restore_entry (blockheight : Z) (ie : ChannelId * ChannelEntry) : M unit :=
  let '(channel_id0, e) := ie in
  sl ← restore_channel channel_id0 (ce_id e) (channel_value_satoshis e) (channel_setup e)
         (ce_enforcement_state e) (default blockheight (ce_blockheight e));
  match sl with
  | Ready chan => on_payments Chan.restore_payments chan
  | Stub _ => mret tt
  end.

Definition restore_entries (blockheight : Z) (l : list (ChannelId * ChannelEntry)) : M unit :=
  foldl (fun (m : M unit) e => m;; restore_entry blockheight e) (mret tt) l.

(** [node.channels] entries that are ready are written again. *)
Definition sync_slot (ip : ChannelId * nat) : M unit :=
  sl ← get_slot ip.2;
  self ← get_node;
  match slot sl with
  | Ready c => persist_or "sync persist failed" (fun p => persist_update_channel p (node_id self) c)
  | Stub _ => mret tt
  end.

Definition on_initial_restore : M bool := fun s =>
  let '(p, b) := persist_on_initial_restore (store s) in
  ({| node := node s; store := p |}, Ok b).

Definition maybe_sync_persister : M unit :=
  initial ← on_initial_restore;
  if initial : bool then
    self ← get_node;
    persist_or "sync persist failed"
      (fun p => persist_new_node p (node_id self) (node_config self) (state self));;
    (fun s => match update_allowlist (allowlist self) s with
              | (s, Err _) => (s, Err (internal_error "sync persist failed"))
              | r => r
              end);;
    persist_or "tracker persist failed"
      (fun p => persist_update_tracker p (node_id self) (tracker self));;
    foldl (fun (m : M unit) ip => m;; sync_slot ip) (mret tt) (channel_slots self)
  else mret tt.

(** The tracker of a node that never saw a block starts at the checkpoint. *)
Definition fast_forward (net : Network) (t : NodeTracker) : NodeTracker :=
  match get_latest_checkpoint net with
  | Some (h, tip) => if height t =? 0 then Tracker.set_chain t [] tip h else t
  | None => t
  end.

(** [restore_node] up to its loop: the node without channels, and the entries
    of its channels. *)
Definition restore_start (the_node_id : PublicKey) (node_entry : NodeEntry) (seed : bytes)
  (vf : ValidatorFactory) (starting_time : Z * Z) (p : P)
  : outcome Status (Node * list (ChannelId * ChannelEntry)) :=
  net ← unwrap (network_from_str (ne_network node_entry));
  style ← unwrap_ok (KeyDerivationStyle_try_from (ne_key_derivation_style node_entry));
  let config := {| cfg_network := net; cfg_key_derivation_style := style;
                   use_checkpoints := true |} in
  al ← unwrap_ok (persist_get_node_allowlist p the_node_id);
  al ← unwrap_ok (parse_list al net);
  let st := ne_state node_entry in
  let st := set_payments st
    (foldl (fun (m : gmap PaymentHash RoutedPayment) h => <[h := RoutedPayment_new]> m)
       (payments st) (map_to_list (invoices st)).*1) (excess_amount st) in
  n ← new_from_persistence config seed al vf starting_time st p;
  assert_ (bool_decide (node_id n = the_node_id));;
  let n := set_tracker n (fast_forward net (tracker n)) in
  entries ← unwrap_ok (persist_get_node_channels p the_node_id);
  Ok (n, entries).

(** [restore_node] returns the node and the store. *)
Definition restore_node (the_node_id : PublicKey) (node_entry : NodeEntry) (seed : bytes)
  (vf : ValidatorFactory) (starting_time : Z * Z) (p : P) : P * outcome Status Node :=
  match restore_start the_node_id node_entry seed vf starting_time p with
  | Ok (n, entries) =>
      let '(s, r) := (restore_entries (height (tracker n)) entries;; maybe_sync_persister)
                       {| node := n; store := p |} in
      (store s, r ≫= (fun _ => Ok (node s)))
  | Err e => (p, Err e)
  | Panic => (p, Panic)
  end.

(** [restore_nodes]: the seeds are looked up by the node's id. *)
Fixpoint restore_nodes_loop (get_seed : PublicKey -> option bytes) (vf : ValidatorFactory)
  (starting_time : Z * Z) (l : list (PublicKey * NodeEntry)) (nodes : gmap PublicKey Node) (p : P)
  : P * outcome Status (gmap PublicKey Node) :=
  match l with
  | [] => (p, Ok nodes)
  | (nid, e) :: l' =>
      match get_seed nid with
      | None => (p, Panic)
      | Some seed =>
          match restore_node nid e seed vf starting_time p with
          | (p, Ok n) => restore_nodes_loop get_seed vf starting_time l' (<[nid := n]> nodes) p
          | (p, Err e) => (p, Err e)
          | (p, Panic) => (p, Panic)
          end
      end
  end.

Definition restore_nodes (get_seed : PublicKey -> option bytes) (vf : ValidatorFactory)
  (starting_time : Z * Z) (p : P) : P * outcome Status (gmap PublicKey Node) :=
  match persist_get_nodes p with
  | Ok l => restore_nodes_loop get_seed vf starting_time l ∅ p
  | _ => (p, Panic)
  end.

(** ** Heartbeats *)

Record Heartbeat := {
  chain_tip : BlockHash;
  chain_height : Z;
  chain_timestamp : Z;
  current_timestamp : Z
}.

Definition heartbeat_encode (h : Heartbeat) : bytes :=
  serde_bolt_heartbeat (chain_tip h) (chain_height h) (chain_timestamp h) (current_timestamp h).

Record SignedHeartbeat := { hb_signature : Signature; hb_heartbeat : Heartbeat }.

Definition heartbeat_sighash {E} (self : SignedHeartbeat) : outcome E bytes :=
  sighash_from_heartbeat (heartbeat_encode (hb_heartbeat self)).

Definition heartbeat_verify {E} (self : SignedHeartbeat) (pubkey : PublicKey) : outcome E bool :=
  signature ← unwrap (schnorr_from_slice (hb_signature self));
  msg ← heartbeat_sighash self;
  Ok (verify_schnorr signature msg pubkey).

(** The clock is read when the invoices are pruned and for the heartbeat. *)
Definition get_heartbeat (tw : bool) (now now' : Z) : M SignedHeartbeat :=
  self ← get_node;
  '(st, _) ← lift (prune_invoices tw (state self) now);
  '(st, _) ← lift (prune_issued_invoices tw st now);
  '(st, _) ← lift (prune_forwarded_payments st);
  put_node (set_state self st);;
  prune_channels (height (tracker self));;
  let tip := tip (tracker self) in
  let heartbeat := {| chain_tip := header_hash tip.1; chain_height := height (tracker self);
    chain_timestamp := time tip.1; current_timestamp := as_u 32 (now' / secs 1) |} in
  self ← get_node;
  sig ← lift (Keys.sign_heartbeat (keys_manager self) (heartbeat_encode heartbeat));
  mret {| hb_signature := sig; hb_heartbeat := heartbeat |}.

(** ** On-chain transactions *)

(** The slot that each output of the transaction funds. *)
Definition funded_slots n (tx : Transaction) : list (option nat) :=
  (fun ndx => find_channel_with_funding_outpoint n
                {| op_txid := txid tx; vout := as_u 32 (Z.of_nat ndx) |})
    <$> seq 0 (length (output tx)).

(** A unilateral close key with the suffix of its witness. *)
Notation UniCloseKey := (option (SecretKey * list bytes)).

(** The witness of an input. *)
Definition sign_input n (tx : Transaction) (ipaths : list path) (values_sat : list Z)
  (spendtypes : list SpendType) (iu : nat * UniCloseKey) : outcome Status (list bytes) :=
  let '(idx, uck) := iu in
  spendtype ← unwrap (spendtypes !! idx);
  if bool_decide (spendtype = Invalid) then Ok []
  else
    value_sat ← unwrap (values_sat !! idx);
    '(privkey, witness) ←
      match uck with
      | Some (key, stack) => Ok (key, stack)
      | None =>
          ipath ← unwrap (ipaths !! idx);
          key ← get_wallet_privkey n ipath;
          Ok (key, [pubkey_from_secret_key key])
      end;
    let script_code := p2pkh_script (pubkey_from_secret_key privkey) in
    sighash ←
      match spendtype with
      | P2pkh => Ok (legacy_signature_hash tx 0 script_code 0x01)
      | P2wpkh | P2shP2wpkh => unwrap (segwit_signature_hash tx idx script_code value_sat All)
      | P2wsh =>
          script ← unwrap (last witness);
          unwrap (segwit_signature_hash tx idx script value_sat All)
      | Invalid => Err (invalid_argument "unsupported spend_type={:?}")
      end;
    msg ← ok_or (message_from_slice sighash) (internal_error "sighash {:?} failed: {}");
    Ok (signature_to_bitcoin_vec (sign_ecdsa msg privkey) :: witness).

(** [chan.funding_signed(tx, vout)] with the tracker: the channel's monitor
    is the tracker's listener, or its own when it has been replaced. *)
Definition funding_signed {E} (tx : Transaction) (n : Node) (ptr : option nat) : outcome E Node :=
  match ptr with
  | None => Ok n
  | Some ptr =>
      sl ← unwrap (slots n !! ptr);
      match slot sl with
      | Stub _ => Panic
      | Ready chan =>
          let key := funding_outpoint (setup chan) in
          t ← unwrap_ok (Tracker.add_listener_watches (tracker n) key
                (list_to_set (previous_output <$> input tx)));
          match detached sl with
          | Some ms =>
              Ok (set_tracker (set_channels n (channels n)
                    (<[ptr := {| slot := slot sl;
                                 detached := Some (Monitor.add_funding_inputs ms tx) |}]> (slots n))) t)
          | None =>
              '(m, ls) ← unwrap (listeners t !! key);
              let m := Tracker.with_state m (Monitor.add_funding_inputs (Tracker.cm_state m) tx) in
              Ok (set_tracker n (Tracker.set_listeners t (<[key := (m, ls)]> (listeners t))))
          end
      end
  end.

Definition unchecked_sign_onchain_tx (tx : Transaction) (ipaths : list path) (values_sat : list Z)
  (spendtypes : list SpendType) (uniclosekeys : list UniCloseKey) : M (list (list bytes)) :=
  self ← get_node;
  let channels := funded_slots self tx in
  witvec ← lift (foldM (fun witvec iu =>
      w ← sign_input self tx ipaths values_sat spendtypes iu; Ok (witvec ++ [w]))
    [] (imap pair uniclosekeys));
  self ← lift (foldM (funding_signed tx) self channels);
  put_node self;;
  persist_or "tracker persist failed"
    (fun p => persist_update_tracker p (node_id self) (tracker self));;
  mret witvec.

(** The weight of the witness of an input that we sign. *)
Definition witness_weight (uck : UniCloseKey) : Z :=
  2 + 1 + 1 + 72 + 1
  + match uck with
    | Some (_, stack) => sum_list_Z ((fun v => 1 + Z.of_nat (length v)) <$> stack)
    | None => 33
    end.

Definition weight_lower_bound {E} (tx : Transaction) (spendtypes : list SpendType)
  (uniclosekeys : list UniCloseKey) : outcome E Z :=
  foldM (fun w (iu : nat * UniCloseKey) =>
      spendtype ← unwrap (spendtypes !! iu.1);
      Ok (if bool_decide (spendtype = Invalid) then w else w + witness_weight iu.2))
    (tx_weight tx) (imap pair uniclosekeys).

Definition set_fee_velocity (st : NodeState) (fvc : VelocityControl) : NodeState := {|
  invoices := invoices st; issued_invoices := issued_invoices st; payments := payments st;
  excess_amount := excess_amount st; velocity_control := velocity_control st;
  ns_fee_velocity_control := fvc |}.

(** What the transaction spends without benefit to the node. *)
Definition non_beneficial_sat n (tx : Transaction) (input_txs : list Transaction)
  (values_sat : list Z) (spendtypes : list SpendType) (uniclosekeys : list UniCloseKey)
  (opaths : list path) : result Z :=
  weight ← weight_lower_bound tx spendtypes uniclosekeys;
  let slot_of ptr := slot <$> slots n !! ptr in
  validate_onchain_tx (validator n) (wallet_of n)
    ((fun o => o ≫= slot_of) <$> funded_slots n tx) tx input_txs values_sat opaths weight.

(** [check_onchain_tx] returns the node it leaves behind with its outcome. *)
Definition check_onchain_tx n (tx : Transaction) (input_txs : list Transaction)
  (values_sat : list Z) (spendtypes : list SpendType) (uniclosekeys : list UniCloseKey)
  (opaths : list path) (now : Z) : Node * result unit :=
  let checked : result (VelocityControl * bool) :=
    sat ← non_beneficial_sat n tx input_txs values_sat spendtypes uniclosekeys opaths;
    msat ← mul64 sat 1000;
    Velocity.insert (ns_fee_velocity_control (state n)) (now / secs 1) msat in
  match checked with
  | Ok (fvc, ok) =>
      (set_state n (set_fee_velocity (state n) fvc),
       whenb (negb ok) (policy_err (policy (validator n)) "policy-onchain-fee-range"
         "check_onchain_tx" "fee velocity would be exceeded {} + {} > {}"))
  | Err e => (n, Err e)
  | Panic => (n, Panic)
  end.

(** ** Messages *)

Definition do_sign_gossip_message n (encoded : bytes) : outcome Status Signature :=
  encmsg ← ok_or (message_from_slice (sha256d encoded)) (internal_error "encmsg failed: {}");
  Ok (sign_ecdsa encmsg (Keys.node_secret (keys_manager n))).

Definition sign_message n (message : bytes) : outcome Status bytes :=
  let buffer := as_bytes "Lightning Signed Message:" ++ message in
  encmsg ← ok_or (message_from_slice (sha256d buffer)) (internal_error "encmsg failed: {}");
  let '(rid, sig) := serialize_compact
    (sign_ecdsa_recoverable encmsg (Keys.node_secret (keys_manager n))) in
  Ok (sig ++ [as_u 8 rid]).

Definition ecdh n (other_key : PublicKey) : bytes :=
  shared_secret other_key (Keys.node_secret (keys_manager n)).

(** ** Invoices and payments *)

Definition payment_state_from_invoice (i : AnyInvoice) : PaymentHash * PaymentState * bytes :=
  (inv_payment_hash i,
   {| invoice_hash := inv_invoice_hash i; invoice_amount_msat := inv_amount_milli_satoshis i;
      payee := inv_payee_pub_key i; ps_duration_since_epoch := inv_duration_since_epoch i;
      ps_expiry_duration := inv_expiry_duration i; ps_is_fulfilled := false;
      payment_type := Invoice |},
   inv_invoice_hash i).

Definition payment_state_from_keysend (payee : PublicKey) (payment_hash : PaymentHash)
  (amount_msat now : Z) : PaymentState * bytes :=
  ({| invoice_hash := payment_hash; invoice_amount_msat := amount_msat;
      NodeState.payee := payee; ps_duration_since_epoch := now; ps_expiry_duration := secs 60;
      ps_is_fulfilled := false; payment_type := Keysend |},
   payment_hash).

Definition set_invoices (st : NodeState) (inv issued : gmap PaymentHash PaymentState)
  (pays : gmap PaymentHash RoutedPayment) (vc : VelocityControl) : NodeState := {|
  invoices := inv; issued_invoices := issued; payments := pays; excess_amount := excess_amount st;
  velocity_control := vc; ns_fee_velocity_control := ns_fee_velocity_control st |}.

(** What [add_invoice] and [add_keysend] have in common: the payment is
    recorded when the velocity allows it, and the node is written. *)
Definition track_payment (differs : string) (hash : PaymentHash) (payment_state : PaymentState)
  (the_invoice_hash : bytes) (now_secs : Z) : M bool :=
  self ← get_node;
  let st := state self in
  if max_invoices (node_policy self) <=? Z.of_nat (size (invoices st)) then
    lift (Err (failed_precondition "too many invoices ({} >= {})"))
  else
    match invoices st !! hash with
    | Some ps =>
        if bool_decide (invoice_hash ps = the_invoice_hash) then mret true
        else lift (Err (failed_precondition differs))
    | None =>
        '(vc, ok) ← lift (Velocity.insert (velocity_control st) now_secs
                            (invoice_amount_msat payment_state));
        if negb ok then
          put_node (set_state self
            (set_invoices st (invoices st) (issued_invoices st) (payments st) vc));;
          mret false
        else
          let st := set_invoices st (<[hash := payment_state]> (invoices st)) (issued_invoices st)
            (<[hash := default RoutedPayment_new (payments st !! hash)]> (payments st)) vc in
          put_node (set_state self st);;
          persist_expect (fun p => persist_update_node p (node_id self) st);;
          mret true
    end.

Definition add_invoice (tw : bool) (invoice : AnyInvoice) (now : Z) : M bool :=
  self ← get_node;
  lift_v (validate_invoice tw (validator self) (inv_times invoice) now);;
  let '(hash, payment_state, the_invoice_hash) := payment_state_from_invoice invoice in
  track_payment "add_invoice: already have a different invoice for same payment_hash"
    hash payment_state the_invoice_hash (now / secs 1).

(** The clock is read for the expiry and for the velocity. *)
Definition add_keysend (payee : PublicKey) (payment_hash : PaymentHash) (amount_msat now now' : Z)
  : M bool :=
  let '(payment_state, the_invoice_hash) :=
    payment_state_from_keysend payee payment_hash amount_msat now in
  track_payment "add_keysend: already have a different keysend for same payment_hash"
    payment_hash payment_state the_invoice_hash (now' / secs 1).

Definition has_payment n (hash : PaymentHash) (the_invoice_hash : bytes) : outcome Status bool :=
  match invoices (state n) !! hash with
  | Some ps =>
      if bool_decide (invoice_hash ps = the_invoice_hash) then Ok true
      else Err (failed_precondition "has_payment: already have a different invoice for same secret")
  | None => Ok false
  end.

(** The signature and the signed invoice. *)
Definition do_sign_invoice n (hrp_bytes : bytes) (invoice_data : list Z)
  : outcome Status (Signature * SignedRawInvoice) :=
  s ← ok_or (string_from_utf8 hrp_bytes) (invalid_argument "invoice hrp not utf-8");
  hrp ← ok_or (hrp_parse s) (invalid_argument "parse error: {}");
  data ← ok_or (data_from_base32 invoice_data) (invalid_argument "parse error: {}");
  message ← unwrap (message_from_slice
    (sha256 (construct_invoice_preimage hrp_bytes invoice_data)));
  let sig := sign_ecdsa_recoverable message (Keys.node_secret (keys_manager n)) in
  Ok (sig, raw_invoice_signed hrp data sig).

Definition sign_invoice (hrp_bytes : bytes) (invoice_data : list Z) : M Signature :=
  self ← get_node;
  '(sig, signed) ← lift (do_sign_invoice self hrp_bytes invoice_data);
  invoice ← lift (ok_or (bolt11_from_signed signed) (invalid_argument "{}"));
  let '(hash, payment_state, the_invoice_hash) :=
    payment_state_from_invoice (InvBolt11 invoice) in
  let st := state self in
  if max_invoices (node_policy self) <=? Z.of_nat (size (issued_invoices st)) then
    lift (Err (failed_precondition "too many invoices {} (max {})"))
  else
    match issued_invoices st !! hash with
    | Some ps =>
        if bool_decide (invoice_hash ps = the_invoice_hash) then mret sig
        else lift (Err (failed_precondition
               "sign_invoice: already have a different invoice for same secret"))
    | None =>
        put_node (set_state self (set_invoices st (invoices st)
          (<[hash := payment_state]> (issued_invoices st)) (payments st) (velocity_control st)));;
        mret sig
    end.

(** ** Balance *)

(** [NodeMonitor::channel_balance]: every entry of the map counts. *)
Definition channel_balance n : outcome Status ChannelBalance :=
  foldM (fun sum (ip : ChannelId * nat) =>
      sl ← unwrap (slots n !! ip.2);
      match slot sl with
      | Ready chan =>
          b ← balance (enforcement_state chan) (has_preimage (state n)) (setup chan);
          accumulate sum b
      | Stub _ => Ok sum
      end) ChannelBalance_zero (channel_slots n).

(** ** The signer's use of a node (vls-protocol-signer/src/handler.rs) *)

(** [RootHandlerBuilder::do_build] without persisted nodes: the new node is
    written after its allowlist. *)
Definition create_node (config : NodeConfig) (seed : bytes) (vf : ValidatorFactory)
  (starting_time : Z * Z) (initial_allowlist : list string) (p : P) : P * outcome Status Node :=
  match new config seed [] vf starting_time with
  | Ok n =>
      let '(s, r) :=
        ((fun s => let '(s, r) := add_allowlist initial_allowlist s in (s, unwrap_ok r));;
         self ← get_node;
         persist_expect (fun p => persist_new_node p (node_id self) config (state self));;
         persist_expect (fun p => persist_new_chain_tracker p (node_id self) (tracker self)))
          {| node := n; store := p |} in
      (store s, r ≫= (fun _ => Ok (node s)))
  | Err e => (p, Err e)
  | Panic => (p, Panic)
  end.

(** The messages [AddBlock] and [RemoveBlock], with the decoded header and
    proof; a message may lack the proof. *)
Definition handle_add_block (header : BlockHeader) (unspent_proof : option TxoProof) : M unit :=
  self ← get_node;
  prf ← lift (ok_or unspent_proof (invalid_argument "could not deserialize proof"));
  '(t, _) ← lift (unwrap_ok (Tracker.add_block (tracker self) header prf));
  put_node (set_tracker self t);;
  persist_expect (fun p => persist_update_tracker p (node_id self) t).

Definition handle_remove_block (unspent_proof : option TxoProof) : M unit :=
  self ← get_node;
  prf ← lift (ok_or unspent_proof (invalid_argument "could not deserialize proof"));
  '(t, _) ← lift (unwrap_ok (Tracker.remove_block (tracker self) prf));
  put_node (set_tracker self t);;
  persist_expect (fun p => persist_update_tracker p (node_id self) t).
End ops.
End NodeOps.

(** ** Example crates, for the witnesses *)

Definition example_string (b : bytes) : string :=
  String.string_of_list_ascii ((fun z => Ascii.ascii_of_N (Z.to_N z)) <$> b).

(** No address and no extended key is valid; the key of a payee is any string. *)
Definition example_addresses : AddressLib := {|
  Address := Script;
  address_from_script s _ := Some s;
  address_to_string s := example_string s;
  address_from_str _ := None;
  address_network _ := Testnet;
  address_script_pubkey s := s;
  p2wpkh k _ := Some (0 :: 20 :: k);
  p2shwpkh k _ := Some (0xa9 :: k);
  p2pkh k _ := 0x76 :: k;
  to_hex := example_string;
  pubkey_from_str s := Some (as_bytes s);
  xpub_to_string x := example_string x;
  xpub_from_str _ := None;
  xpub_network _ := Testnet;
  derive_pub x _ := Some x |}.

Lemma example_string_bytes s : example_string (as_bytes s) = s.
Proof.
  unfold example_string, as_bytes. rewrite <- list_fmap_compose.
  rewrite (list_fmap_ext _ id).
  - by rewrite list_fmap_id, String.string_of_list_ascii_of_string.
  - intros i c _. cbn. by rewrite N2Z.id, Ascii.ascii_N_embedding.
Qed.

Lemma example_address_laws : @AddressLaws example_addresses.
Proof. split; [done..|]. intros s p [= <-]. cbn. by rewrite example_string_bytes. Qed.

(** An invoice is its amount. *)
Definition example_invoices : InvoiceLib := {|
  Bolt11 := Z;
  bolt11_signable_hash a := [a];
  bolt11_payment_hash a := a :: replicate 31 0;
  bolt11_amount_milli_satoshis a := Some a;
  bolt11_payee_pub_key _ := None;
  bolt11_recover_payee_pub_key _ := [2];
  bolt11_duration_since_epoch _ := 0;
  bolt11_expiry_time _ := secs 3600;
  Bolt12 := Z;
  bolt12_signable_hash a := [a];
  bolt12_payment_hash a := a :: replicate 31 0;
  bolt12_amount_msats a := a;
  bolt12_signing_pubkey _ := [2];
  bolt12_created_at _ := 0;
  bolt12_relative_expiry _ := secs 3600;
  RawHrp := string;
  RawDataPart := list Z;
  SignedRawInvoice := list Z;
  string_from_utf8 b := Some (example_string b);
  hrp_parse s := Some s;
  data_from_base32 d := Some d;
  raw_invoice_signed _ d _ := d;
  bolt11_from_signed d := head d |}.

Definition example_checkpoints : NodeOps.CheckpointLib := {|
  NodeOps.genesis_headers _ := (Tracker.example_header 0, []);
  NodeOps.get_latest_checkpoint _ := None |}.

Definition example_node_lib : NodeOps.NodeLib := {|
  NodeOps.legacy_signature_hash tx _ _ _ := [version tx];
  NodeOps.serialize_compact s := (0, s);
  NodeOps.schnorr_from_slice b := Some b;
  NodeOps.verify_schnorr _ _ _ := true;
  NodeOps.serde_bolt_heartbeat h a b c := h ++ [a; b; c] |}.

Definition example_factory : @ValidatorFactory example_lib := {|
  make_validator _ _ _ := Chan.example_validator;
  factory_policy _ := @policy example_lib Chan.example_validator |}.

(** A node on testnet without channels. *)
#[local] Existing Instances example_lib example_crypto example_keys Tracker.example_chain_lib
  example_addresses example_invoices Chan.release.

Definition example_hourly : VelocityControl :=
  {| start_sec := 0; bucket_interval := 300; buckets := replicate 12 0; limit := 100000 |}.

Definition example_node : Node := {|
  node_config := {| cfg_network := Testnet; cfg_key_derivation_style := Ldk;
                    use_checkpoints := false |};
  keys_manager := example_manager; channels := ∅; slots := ∅;
  node_validator_factory := example_factory; allowlist := ∅;
  tracker := Tracker.example_tracker [] 7 None;
  state := NodeState_new example_hourly example_hourly; node_id := replicate 33 2 |}.

Definition example_state : NodeOps.NSt KVJson.KVJsonPersister :=
  {| NodeOps.node := example_node; NodeOps.store := KVJson.empty |}.
