(* ===== verification/NodeInv.v ===== *)
(** * Invariants of a node

    The map of channels is well formed: the ids of a slot are exactly the ids
    that lead to it, and the chain tracker listens for every ready channel.
    The store is in sync: what a restart needs is on disk.  Every operation of
    the node that succeeds keeps both. *)

From S2P Require Import Prelude Velocity Policy Order Extern Crypto Setup Tx Keys Allowlist Script.
From S2P Require Import Secrets Enforcement Validator NodeState ChannelOps Monitor Tracker Persist.
From S2P Require Import PersistSpec Node.

Import NodeOps.

(** ** The monad *)

Section monad.
Context `{L : Lib, !KeyLib, CL : ChainLib} {P : Type}.

Lemma M_bind_Ok {A B} (m : M P A) (f : A -> M P B) s s' b :
  (m ≫= f) s = (s', Ok b) <-> exists s1 a, m s = (s1, Ok a) /\ f a s1 = (s', Ok b).
Proof.
  unfold mbind, M_bind. split.
  - destruct (m s) as [s1 [a|e|]]; [|done..]. eauto.
  - by intros (s1 & a & -> & Hf).
Qed.

Lemma lift_Ok {A} (m : outcome Status A) s s' a :
  lift (P := P) m s = (s', Ok a) <-> s' = s /\ m = Ok a.
Proof. unfold lift. split; [by intros [= <- ->]|by intros [-> ->]]. Qed.

Lemma lift_v_Ok {A} (m : result A) s s' a :
  lift_v (P := P) m s = (s', Ok a) <-> s' = s /\ m = Ok a.
Proof. unfold lift_v. rewrite lift_Ok, map_err_Ok. done. Qed.

Lemma persist_call_Ok f s s' r : persist_call (P := P) f s = (s', Ok r) ->
  exists p, f (store s) = (p, r) /\ s' = {| node := node s; store := p |}.
Proof. unfold persist_call. destruct (f (store s)) as [p [u|e|]]; intros [= <- <-]; eauto. Qed.

Lemma persist_or_Ok msg f s s' u : persist_or (P := P) msg f s = (s', Ok u) ->
  exists p, f (store s) = (p, Ok tt) /\ s' = {| node := node s; store := p |}.
Proof.
  unfold persist_or. intros (s1 & r & Hc & Hl)%M_bind_Ok. apply lift_Ok in Hl as [-> Hr].
  apply map_err_Ok in Hr as ->. destruct u. by apply persist_call_Ok.
Qed.

Lemma persist_expect_Ok f s s' u : persist_expect (P := P) f s = (s', Ok u) ->
  exists p, f (store s) = (p, Ok tt) /\ s' = {| node := node s; store := p |}.
Proof.
  unfold persist_expect. intros (s1 & r & Hc & Hl)%M_bind_Ok. apply lift_Ok in Hl as [-> Hr].
  apply unwrap_ok_Ok in Hr as ->. destruct u. by apply persist_call_Ok.
Qed.
End monad.

(** [inv_M H] is [inv_ok] for programs of the node's monad. *)
Ltac inv_M H :=
  lazymatch type of H with
  | mbind _ _ _ = (_, Ok _) =>
      let s := fresh "s" in let x := fresh "x" in let Hx := fresh "Hx" in
      apply M_bind_Ok in H as (s & x & Hx & H); try inv_M Hx; cbv beta in H; inv_M H
  | get_node _ = (_, Ok _) => injection H as ? ?; subst
  | put_node _ _ = (_, Ok _) => injection H as ? ?; subst; cbn [node store] in *
  | mret _ _ = (_, Ok _) => injection H as ? ?; subst
  | lift_v _ _ = (_, Ok _) => apply lift_v_Ok in H as [? H]; subst
  | lift _ _ = (_, Ok _) => apply lift_Ok in H as [? H]; subst; inv_ok H
  | persist_or _ _ _ = (_, Ok _) =>
      let p := fresh "p" in apply persist_or_Ok in H as (p & H & ?); subst; cbn [node store] in *
  | persist_expect _ _ = (_, Ok _) =>
      let p := fresh "p" in apply persist_expect_Ok in H as (p & H & ?); subst; cbn [node store] in *
  | _ => idtac
  end.

(** ** The map of channels *)

Section maps.
Context `{L : Lib, !KeyLib, CL : ChainLib}.
Implicit Types n : Node.

(** The ids of a channel. *)
Definition slot_ids (sl : ChannelSlot) : list ChannelId :=
  match sl with
  | Stub stub => [stub_id0 stub]
  | Ready chan => id0 chan :: option_list (chan_id chan)
  end.

Definition slot_entry (sl : ChannelSlot) : ChannelEntry :=
  match sl with Stub stub => stub_entry stub | Ready chan => channel_entry chan end.

(** [id] leads to the slot [sl] at [ptr]. *)
Definition leads n (id : ChannelId) (ptr : nat) (sl : ChannelSlot) : Prop :=
  channels n !! id = Some ptr /\ exists d, slots n !! ptr = Some {| slot := sl; detached := d |}.

Record wf_node n : Prop := {
  wf_slot id ptr : channels n !! id = Some ptr -> exists sl, leads n id ptr sl;
  wf_ids id ptr sl : leads n id ptr sl ->
    forall i, channels n !! i = Some ptr <-> i ∈ slot_ids sl;
  wf_listener id ptr chan : leads n id ptr (Ready chan) ->
    is_Some (listeners (tracker n) !! funding_outpoint (setup chan))
}.

Lemma elem_of_option_list {A} (o : option A) x : x ∈ option_list o <-> o = Some x.
Proof. destruct o; cbn; set_solver. Qed.

Lemma slot_id_in sl : slot_id sl ∈ slot_ids sl.
Proof. destruct sl; set_solver. Qed.

Lemma leads_fun n id id' ptr sl sl' : leads n id ptr sl -> leads n id' ptr sl' -> sl = sl'.
Proof. intros [_ [d Hd]] [_ [d' Hd']]. rewrite Hd in Hd'. by injection Hd'. Qed.

Lemma leads_ptr n id ptr ptr' sl sl' : leads n id ptr sl -> leads n id ptr' sl' ->
  ptr = ptr' /\ sl = sl'.
Proof.
  intros Ha Hb. assert (ptr = ptr') as ->.
  { destruct Ha as [Ha _], Hb as [Hb _]. rewrite Ha in Hb. by injection Hb. }
  split; [done|]. by eapply leads_fun.
Qed.

(** A slot is led to by its own id. *)
Lemma leads_slot_id n id ptr sl : wf_node n -> leads n id ptr sl -> leads n (slot_id sl) ptr sl.
Proof.
  intros Hwf Hl. split; [|by destruct Hl].
  apply (wf_ids n Hwf id ptr sl Hl), slot_id_in.
Qed.

(** Wellformedness reads the channels, the slots and the listeners only. *)
Lemma wf_frame n n' : channels n' = channels n ->
  (slot <$> slots n') = (slot <$> slots n) ->
  (forall o, is_Some (listeners (tracker n) !! o) -> is_Some (listeners (tracker n') !! o)) ->
  wf_node n -> wf_node n' /\ (forall id ptr sl, leads n' id ptr sl <-> leads n id ptr sl).
Proof.
  intros Hc Hs Hl Hwf.
  assert (Hlead : forall id ptr sl, leads n' id ptr sl <-> leads n id ptr sl).
  { intros id ptr sl. unfold leads. rewrite Hc.
    assert (Hp : (slot <$> slots n') !! ptr = (slot <$> slots n) !! ptr) by by rewrite Hs.
    rewrite !lookup_fmap in Hp. split; intros [Hid [d Hd]]; (split; [done|]).
    - rewrite Hd in Hp. destruct (slots n !! ptr) as [[sl' d']|]; [|done].
      injection Hp as <-. eauto.
    - rewrite Hd in Hp. destruct (slots n' !! ptr) as [[sl' d']|]; [|done].
      injection Hp as ->. eauto. }
  split; [|done]. split.
  - intros id ptr Hid. rewrite Hc in Hid. destruct (wf_slot n Hwf id ptr Hid) as [sl Hsl].
    exists sl. by apply Hlead.
  - intros id ptr sl Hsl i. rewrite Hc. apply Hlead in Hsl. by apply (wf_ids n Hwf id).
  - intros id ptr chan Hsl%Hlead. eapply Hl, wf_listener; done.
Qed.

Lemma insert_ids_lookup (m : gmap ChannelId nat) ptr ids i :
  foldl (fun m id => <[id := ptr]> m) m ids !! i = if decide (i ∈ ids) then Some ptr else m !! i.
Proof.
  revert m. induction ids as [|id ids IH]; intros m; cbn [foldl].
  - by destruct (decide _) as [?%elem_of_nil|].
  - rewrite IH. destruct (decide (i ∈ ids)) as [Hi|Hi].
    + rewrite decide_True; [done|]. set_solver.
    + destruct (decide (i = id)) as [->|Hne].
      * rewrite lookup_insert_eq, decide_True; [done|]. set_solver.
      * rewrite lookup_insert_ne by done. rewrite decide_False; [done|]. set_solver.
Qed.

Lemma fresh_slot_None n : slots n !! fresh_slot n = None.
Proof. apply not_elem_of_dom. unfold fresh_slot. apply is_fresh. Qed.

(** Pointers in use are not fresh. *)
Lemma wf_not_fresh n id : wf_node n -> channels n !! id <> Some (fresh_slot n).
Proof.
  intros Hwf Hid. destruct (wf_slot n Hwf _ _ Hid) as (sl & _ & d & Hd).
  by rewrite fresh_slot_None in Hd.
Qed.

Lemma leads_insert n ids sl id ptr s : wf_node n ->
  leads (insert_slot n ids sl) id ptr s <->
  id ∈ ids /\ ptr = fresh_slot n /\ s = slot sl \/ id ∉ ids /\ leads n id ptr s.
Proof.
  intros Hwf. unfold leads, insert_slot. cbn [channels slots set_channels].
  rewrite insert_ids_lookup. split.
  - intros [Hid [d Hd]]. destruct (decide (id ∈ ids)) as [Hin|Hin].
    + injection Hid as <-. rewrite lookup_insert_eq in Hd. injection Hd as ->. by left.
    + right. split; [done|]. split; [done|]. exists d.
      rewrite lookup_insert_ne in Hd; [done|]. intros <-. by apply (wf_not_fresh n id Hwf).
  - intros [(Hin & -> & ->)|(Hin & Hid & d & Hd)].
    + rewrite decide_True by done. split; [done|]. exists (detached sl).
      rewrite lookup_insert_eq. by destruct sl.
    + rewrite decide_False by done. split; [done|]. exists d. rewrite lookup_insert_ne; [done|].
      intros <-. by rewrite fresh_slot_None in Hd.
Qed.

(** A new slot under its ids; a slot that loses one of its ids loses all. *)
Lemma insert_slot_wf n ids sl : wf_node n ->
  (forall i, i ∈ ids <-> i ∈ slot_ids (slot sl)) ->
  (forall i j ptr, i ∈ ids -> channels n !! i = Some ptr -> channels n !! j = Some ptr -> j ∈ ids) ->
  (forall chan, slot sl = Ready chan ->
     is_Some (listeners (tracker n) !! funding_outpoint (setup chan))) ->
  wf_node (insert_slot n ids sl).
Proof.
  intros Hwf Hids Hrep Hlis. split.
  - intros id ptr. cbn [channels insert_slot set_channels]. rewrite insert_ids_lookup.
    destruct (decide (id ∈ ids)) as [Hin|Hin].
    + intros [= <-]. exists (slot sl). apply leads_insert; [done|]. by left.
    + intros [s Hs]%(wf_slot n Hwf). exists s. apply leads_insert; [done|]. by right.
  - intros id ptr s Hs i. apply leads_insert in Hs; [|done].
    cbn [channels insert_slot set_channels]. rewrite insert_ids_lookup.
    destruct Hs as [(Hin & -> & ->)|(Hin & Hs)]; destruct (decide (i ∈ ids)) as [Hi|Hi].
    + by rewrite <- Hids.
    + rewrite <- Hids. split; [|done]. by intros ?%wf_not_fresh.
    + split.
      * intros [= <-]. destruct Hs as [Hid _]. by apply wf_not_fresh in Hid.
      * intros Hi'. exfalso. apply Hin. apply (wf_ids n Hwf id ptr s Hs) in Hi'.
        destruct Hs as [Hid _]. by apply (Hrep i id ptr).
    + by apply (wf_ids n Hwf id).
  - intros id ptr chan Hs. apply leads_insert in Hs; [|done].
    destruct Hs as [(_ & _ & Hs)|(_ & Hs)]; [by apply Hlis|by apply (wf_listener n Hwf id ptr)].
Qed.
End maps.

(** ** The store *)

Section sync.
Context `{L : Lib, !KeyLib, CL : ChainLib, AL : AddressLib, SL : SerLib}.
Implicit Types n : Node.

(** Payment hashes are 32 bytes. *)
Definition hashes_ok (st : NodeState) : Prop :=
  (forall h, is_Some (invoices st !! h) -> length h = 32%nat)
  /\ (forall h, is_Some (issued_invoices st !! h) -> length h = 32%nat).

(** What a restart needs is in the record [r]: the invoices of the node are
    among those of the last state written. *)
Record in_sync n (r : NodeRecord) : Prop := {
  sync_entry : r_entry r = Some (KeyDerivationStyle_as_u8 (cfg_key_derivation_style (node_config n)),
                                 network_to_string (node_network n));
  sync_state : exists st, r_state r = Some (NodeStateEntry_from st) /\ hashes_ok st
                 /\ invoices (state n) ⊆ invoices st;
  sync_allowlist : r_allowlist r = get_allowlist n;
  sync_tracker : r_tracker r = Some (serde_skip (ChainTrackerEntry_from (tracker n)));
  sync_channels id e : r_channels r !! id = Some e <->
    exists ptr sl, leads n id ptr sl /\ slot_id sl = id /\ e = slot_entry sl
}.

Record node_ok n (r : NodeRecord) : Prop := {
  ok_wf : wf_node n;
  ok_sync : in_sync n r;
  ok_hashes : hashes_ok (state n);
  ok_allowlist : Forall (parsed (node_network n)) (elements (allowlist n))
}.
End sync.

(** ** The operations *)

Section operations.
Context `{L : Lib, CrL : CryptoLib, !KeyLib, CL : ChainLib, AL : AddressLib, IL : InvoiceLib}.
Context `{CkL : CheckpointLib, NL : NodeLib, SL : SerLib, Prof : Profile}.
Context {P : Type} `{!Persist P} (view : P -> PublicKey -> NodeRecord) `{!PersistLaws P view}.
Implicit Types (n : Node) (s : NSt P).

Definition record_of s : NodeRecord := view (store s) (node_id (node s)).

Definition good s : Prop := is_node_id (node_id (node s)) /\ node_ok (node s) (record_of s).

(** The record of the node after a write. *)
Lemma view_write w p p' nid : is_node_id nid -> written_node w = nid ->
  perform w p = (p', Ok tt) -> view p' nid = effect w (view p nid).
Proof. intros Hn <- Hw. by apply law_write in Hw as [Hw _]. Qed.

(** The node's fields that the invariants read, the state apart. *)
Definition same_fields n n' : Prop :=
  node_config n' = node_config n /\ node_id n' = node_id n /\ allowlist n' = allowlist n
  /\ tracker n' = tracker n /\ channels n' = channels n /\ slots n' = slots n.

Lemma same_fields_ok n n' r : same_fields n n' -> hashes_ok (state n') ->
  invoices (state n') ⊆ invoices (state n) -> node_ok n r -> node_ok n' r.
Proof.
  intros (Hc & Hi & Ha & Ht & Hch & Hs) Hh Hinv [Hwf [He Hst Hal Htr Hcs] _ Hpar].
  destruct (wf_frame n n') as [Hwf' Hlead]; [done|by rewrite Hs|by rewrite Ht|done|].
  split; [done| |done|].
  - unfold get_allowlist, node_network in *. split; unfold get_allowlist, node_network;
      rewrite ?Hc, ?Ht, ?Ha; [done| |done|done|].
    + destruct Hst as (st & Hr & Hok & Hsub). exists st. split; [done|]. split; [done|]. by etrans.
    + intros id e. rewrite Hcs. by setoid_rewrite Hlead.
  - unfold node_network. by rewrite Hc, Ha.
Qed.

(** The keys manager is not part of the invariants. *)
Lemma keys_manager_ok n km r : node_ok n r -> node_ok (set_keys_manager n km) r.
Proof. intros Hok. apply (same_fields_ok n); [done|apply Hok|done|done]. Qed.

(** *** New channels *)

Lemma insert_stub_ok n id stub r : channels n !! id = None -> stub_id0 stub = id -> node_ok n r ->
  node_ok (insert_slot n [id] {| slot := Stub stub; detached := None |})
    (effect (NewChannel (node_id n) stub) r).
Proof.
  intros Hid Hst [Hwf [He Hs Hal Htr Hcs] Hh Hpar]. split; [| |done|done].
  - apply insert_slot_wf; cbn [slot slot_ids]; [done|by rewrite Hst| |done].
    intros i j ptr ->%list_elem_of_singleton Hi. by rewrite Hid in Hi.
  - split; [done|done|done|done|]. intros i e. cbn [effect r_channels with_channels].
    rewrite lookup_insert_Some, Hcs, Hst. setoid_rewrite leads_insert; [|done]. split.
    + intros [[<- <-]|[Hne (ptr & sl & Hl & Hi & ->)]].
      * eexists _, _. split; [left; split; [by apply list_elem_of_singleton|done]|]. done.
      * exists ptr, sl. split; [right|done]. split; [|done]. by intros ?%list_elem_of_singleton.
    + intros (ptr & sl & [(->%list_elem_of_singleton & -> & ->)|(Hne & Hl)] & Hi & ->); [by left|].
      right. split; [|by eauto]. intros <-. by apply Hne, list_elem_of_singleton.
Qed.

(** The node after the choice of an id. *)
Lemma chosen_id_ok (opt : option ChannelId) n n1 id r :
  match opt with
  | Some id => Ok (n, id)
  | None => '(km, id) ← Keys.get_channel_id (E := Status) (keys_manager n);
            Ok (set_keys_manager n km, id)
  end = Ok (n1, id) -> node_ok n r -> node_ok n1 r /\ node_id n1 = node_id n.
Proof.
  destruct opt as [i|]; intros Hid Hok; [by injection Hid as <- <-|].
  inv_ok Hid. destruct x as [km i]. injection Hid as <- <-. split; [|done].
  by apply keys_manager_ok.
Qed.

Lemma get_slot_Ok ptr s s' sl : get_slot ptr s = (s', Ok sl) ->
  s' = s /\ slots (node s) !! ptr = Some sl.
Proof. intros Hg. unfold get_slot in Hg. inv_M Hg. done. Qed.

Lemma new_channel_good s opt s' r : new_channel opt s = (s', Ok r) -> good s -> good s'.
Proof.
  intros Hop [Hid Hok]. unfold new_channel in Hop. inv_M Hop. destruct x as [n1 id].
  apply (chosen_id_ok _ _ _ _ _ Hx) in Hok as [Hok Hnid]. unfold record_of in Hok. inv_M Hop.
  destruct (_ <=? _); [by inv_M Hop|]. destruct (channels n1 !! id) as [ptr|] eqn:Hch.
  - inv_M Hop. apply get_slot_Ok in Hx0 as [-> _]. unfold good, record_of. cbn. by rewrite Hnid.
  - inv_M Hop. destruct x as [km ks]. inv_M Hop. unfold good, record_of.
    cbn [node store node_id insert_slot set_channels set_keys_manager] in *. rewrite Hnid in *.
    split; [done|]. match goal with Hp : persist_new_channel _ _ _ = _ |- _ =>
      rewrite (view_write (NewChannel _ _) _ _ _ Hid eq_refl Hp) end.
    rewrite <- Hnid. apply (insert_stub_ok (set_keys_manager n1 km)); [done|done|].
    rewrite Hnid. by apply keys_manager_ok.
Qed.

(** *** Ready channels *)

(** The permanent id does not belong to another channel. *)
Definition fresh_id n (cid : ChannelId) (opt : option ChannelId) : Prop :=
  forall pid, opt = Some pid -> pid = cid \/ channels n !! pid = None.

Lemma insert_ready_ok n ids chan ptr stub d nid r : node_ok n r ->
  leads n (id0 chan) ptr (Stub stub) -> fresh_id n (id0 chan) (chan_id chan) ->
  (forall i, i ∈ ids <-> i ∈ slot_ids (Ready chan)) ->
  is_Some (listeners (tracker n) !! funding_outpoint (setup chan)) ->
  node_ok (insert_slot n ids {| slot := Ready chan; detached := d |})
    (effect (UpdateChannel nid chan) r).
Proof.
  intros [Hwf [He Hs Hal Htr Hcs] Hh Hpar] Hl Hfr Hids Hlis.
  assert (Hold : forall i ptr', i ∈ ids -> channels n !! i = Some ptr' -> i = id0 chan /\ ptr' = ptr).
  { intros i ptr' [->|Hi%elem_of_option_list]%Hids%elem_of_cons Hc.
    - destruct Hl as [Hl _]. rewrite Hl in Hc. by injection Hc.
    - destruct (Hfr i Hi) as [->|Hn]; [|by rewrite Hn in Hc].
      destruct Hl as [Hl _]. rewrite Hl in Hc. by injection Hc. }
  assert (H0 : id0 chan ∈ ids) by (apply Hids; cbn; set_solver).
  split; [| |done|done].
  - apply insert_slot_wf; [done|done| |by intros c [= <-]].
    intros i j ptr' Hi Hc Hj. destruct (Hold _ _ Hi Hc) as [-> ->].
    apply (wf_ids n Hwf _ _ _ Hl) in Hj as ->%list_elem_of_singleton.
    destruct Hl as [Hl Hd]. assert (Hin : id0 chan ∈ slot_ids (Stub stub)).
    { by apply (wf_ids n Hwf (id0 chan) ptr (Stub stub)). }
    by apply list_elem_of_singleton in Hin as <-.
  - split; [done|done|done|done|]. intros i e. cbn [effect r_channels with_channels].
    rewrite lookup_insert_Some, Hcs. setoid_rewrite leads_insert; [|done]. split.
    + intros [[<- <-]|[Hne (p & sl & Hli & Hi & ->)]].
      * eexists _, (Ready chan). split; [by left|]. done.
      * exists p, sl. split; [right|done]. split; [|done]. intros Hin.
        destruct Hli as [Hc _]. by destruct (Hold _ _ Hin Hc) as [-> _].
    + intros (p & sl & [(Hin & -> & ->)|(Hin & Hli)] & Hi & ->); [by left|].
      right. split; [by intros <-|eauto].
Qed.

Lemma slot_detach o old sl : slot (detach o old sl) = slot sl.
Proof.
  unfold detach. destruct (slot sl) eqn:Hs; [done|]. destruct (detached sl); [done|].
  destruct old as [[]|]; [|done]. by case_bool_decide.
Qed.

(** Only the tracker and the replaced monitors change. *)
Record tracker_frame n n' : Prop := {
  tf_factory : node_validator_factory n' = node_validator_factory n;
  tf_config : node_config n' = node_config n;
  tf_id : node_id n' = node_id n;
  tf_allowlist : allowlist n' = allowlist n;
  tf_state : state n' = state n;
  tf_channels : channels n' = channels n;
  tf_slots : (slot <$> slots n') = (slot <$> slots n);
  tf_listeners o : is_Some (listeners (tracker n) !! o) -> is_Some (listeners (tracker n') !! o)
}.

#[global] Instance tracker_frame_PreOrder : PreOrder tracker_frame.
Proof.
  split; [by intros n|]. intros n1 n2 n3 [] []. split; try congruence. auto.
Qed.

(** Such a change is in sync once the tracker is written. *)
Lemma tracker_ok n n' nid r : tracker_frame n n' -> node_ok n r ->
  node_ok n' (effect (UpdateTracker nid (tracker n')) r).
Proof.
  intros [_ Hc Hi Ha Hst Hch Hsl Hlis] [Hwf [He Hs Hal Htr Hcs] Hh Hpar].
  destruct (wf_frame n n') as [Hwf' Hlead]; [done..|]. unfold get_allowlist, node_network in *.
  split; [done| |by rewrite Hst|unfold node_network; by rewrite Hc, Ha].
  split; unfold get_allowlist, node_network; rewrite ?Hc, ?Ha, ?Hst; [done..|].
  intros i e. cbn [effect r_channels with_tracker]. rewrite Hcs. by setoid_rewrite Hlead.
Qed.

(** The tracker listens for a new channel; the monitors it replaces are kept. *)
Lemma listen_frame n o m w old :
  tracker_frame n (set_tracker (set_channels n (channels n) (detach o old <$> slots n))
                     (Tracker.add_listener (tracker n) m w)).
Proof.
  split; try done.
  - cbn [slots set_tracker set_channels]. rewrite <- map_fmap_compose. apply map_fmap_ext.
    intros ptr sl _. apply slot_detach.
  - intros o' Ho. cbn [tracker set_tracker]. unfold Tracker.add_listener, Tracker.set_listeners.
    cbn [listeners]. destruct (decide (key m = o')) as [<-|Hne];
      [by rewrite lookup_insert_eq|by rewrite lookup_insert_ne].
Qed.

Lemma ready_ids cid opt c : id0 c = cid -> chan_id c = opt -> forall i,
  i ∈ (if bool_decide (cid <> default cid opt) then [default cid opt; cid] else [default cid opt])
  <-> i ∈ slot_ids (Ready c).
Proof.
  intros <- <- i. cbn [slot_ids]. destruct (chan_id c) as [pid|]; cbn [default option_list from_option id].
  - case_bool_decide as Hd; [set_solver|]. subst pid. set_solver.
  - rewrite bool_decide_false; [done|]. by intros [].
Qed.

Lemma ready_channel_good s cid opt stp path s' c : fresh_id (node s) cid opt ->
  ready_channel cid opt stp path s = (s', Ok c) -> good s -> good s'.
Proof.
  intros Hfr Hop [Hid Hok]. unfold ready_channel in Hop. inv_M Hop.
  apply get_slot_Ok in Hx0 as [-> Hsl]. destruct x0 as [[stub|c0] d]; cbn [slot] in Hop.
  2:{ destruct (bool_decide _); by inv_M Hop. }
  inv_M Hop.
  match goal with Hp : persist_update_channel _ _ ?ch = _, Ht : persist_update_tracker _ _ ?t = _ |- _ =>
    pose proof (view_write (UpdateTracker (node_id (node s0)) t) _ _ _ Hid eq_refl Ht) as Vt;
    pose proof (view_write (UpdateChannel (node_id (node s0)) ch) _ _ _ Hid eq_refl Hp) as Vc;
    set (chan := ch) in *; clear Hp Ht end.
  split; [done|]. unfold record_of. cbn [node store].
  match goal with |- node_ok (set_tracker (insert_slot ?m ?ids ?sl) ?t) _ =>
    change (node_ok (insert_slot (set_tracker m t) ids sl) (view p0 (node_id (node s0)))) end.
  rewrite Vc, Vt. eapply (insert_ready_ok _ _ chan x stub None).
  - exact (tracker_ok _ _ _ _ (listen_frame (node s0) _ _ _ _) Hok).
  - split; [done|]. cbn [slots set_tracker set_channels]. rewrite lookup_fmap, Hsl. cbn.
    unfold detach. cbn. eauto.
  - done.
  - by apply ready_ids.
  - cbn [tracker set_tracker]. unfold Tracker.add_listener, Tracker.set_listeners. cbn [listeners].
    cbn [key Tracker.monitor_listener Tracker.cm_funding_outpoint]. by rewrite lookup_insert_eq.
Qed.

(** *** Pruning *)

(** A loop of the node's monad; the invariant speaks of what is left to do. *)
Lemma loop_inv {A} (I : list A -> NSt P -> Prop) (f : A -> M P unit) l m s s' u :
  foldl (fun m x => m;; f x) m l s = (s', Ok u) ->
  (forall s1, m s = (s1, Ok tt) -> I l s1) ->
  (forall x l s1 s2, I (x :: l) s1 -> f x s1 = (s2, Ok tt) -> I l s2) -> I [] s'.
Proof.
  revert m. induction l as [|x l IH]; intros m Hf Hm Hstep; cbn [foldl] in Hf.
  - destruct u. by apply Hm.
  - eapply IH; [exact Hf| |exact Hstep]. intros s2 (s1 & [] & H1 & H2)%M_bind_Ok.
    eapply Hstep; [by apply Hm|done].
Qed.

Lemma delete_stub_ok n id ptr stub nid r : node_ok n r -> leads n id ptr (Stub stub) ->
  node_ok (set_channels n (delete id (channels n)) (slots n)) (effect (DeleteChannel nid id) r).
Proof.
  intros [Hwf [He Hs Hal Htr Hcs] Hh Hpar] Hl.
  set (n' := set_channels _ _ _).
  assert (Hlead : forall i p sl, leads n' i p sl <-> i <> id /\ leads n i p sl).
  { intros i p sl. unfold leads, n'. cbn [channels slots set_channels].
    rewrite lookup_delete_Some. naive_solver. }
  split; [| |done|done].
  - split.
    + intros i p Hi. unfold n' in Hi. cbn [channels set_channels] in Hi.
      apply lookup_delete_Some in Hi as [Hne Hi]. destruct (wf_slot n Hwf i p Hi) as [sl Hsl].
      exists sl. by apply Hlead.
    + intros i p sl [Hne Hi]%Hlead j. unfold n'. cbn [channels set_channels].
      rewrite lookup_delete_Some, (wf_ids n Hwf i p sl Hi). split; [by intros [_ ?]|].
      intros Hj. split; [|done]. intros <-. apply Hne.
      apply (wf_ids n Hwf i p sl Hi) in Hj. assert (p = ptr) as ->.
      { destruct Hl as [Hl _]. rewrite Hl in Hj. by injection Hj. }
      pose proof (leads_fun _ _ _ _ _ _ Hi Hl) as ->.
      destruct Hi as [Hi Hd]. apply (wf_ids n Hwf id ptr _ Hl) in Hi, Hj.
      cbn in Hi, Hj. set_solver.
    + intros i p chan [Hne Hi]%Hlead. by apply (wf_listener n Hwf i p).
  - split; [done|done|done|done|]. intros i e. cbn [effect r_channels with_channels].
    rewrite lookup_delete_Some, Hcs. setoid_rewrite Hlead. naive_solver.
Qed.

Lemma channel_slots_elem n id ptr : (id, ptr) ∈ channel_slots n <-> channels n !! id = Some ptr.
Proof.
  unfold channel_slots. rewrite list_elem_of_omap. split.
  - intros (i & _ & Hi). apply fmap_Some in Hi as (p & Hp & [= -> ->]). done.
  - intros Hid. exists id. rewrite Hid. split; [|done]. unfold channel_ids. rewrite sort_perm.
    apply list_elem_of_fmap. exists (id, ptr). split; [done|]. by apply elem_of_map_to_list.
Qed.

Lemma channel_slots_NoDup n : NoDup (channel_slots n).*1.
Proof.
  unfold channel_slots. assert (Hnd : NoDup (channel_ids n)).
  { unfold channel_ids. rewrite sort_perm. apply NoDup_fst_map_to_list. }
  induction Hnd as [|id l Hid Hnd IH]; [constructor|]. cbn.
  destruct (channels n !! id); [|done]. cbn. constructor; [|done].
  intros ([i p] & Hi & Hin)%list_elem_of_fmap. cbn in Hi. subst i.
  apply list_elem_of_omap in Hin as (j & Hj & Hp).
  apply fmap_Some in Hp as (q & _ & [= -> _]). done.
Qed.

Lemma prunable_leads n h id ptr : (id, ptr) ∈ channel_slots n ->
  prunable_stub n h (id, ptr) = true -> exists stub, leads n id ptr (Stub stub)
    /\ CHANNEL_STUB_PRUNE_BLOCKS < saturating_sub32 h (stub_blockheight stub).
Proof.
  intros Hin%channel_slots_elem Hp. unfold prunable_stub in Hp. cbn [snd] in Hp.
  destruct (slots n !! ptr) as [[[stub|c] d]|] eqn:Hsl; [|done..].
  exists stub. b2p. split; [|done]. split; [done|]. by exists d.
Qed.

Lemma prune_channels_good s h s' u : prune_channels h s = (s', Ok u) -> good s -> good s'.
Proof.
  intros Hop Hg. unfold prune_channels in Hop. apply M_bind_Ok in Hop as (s1 & n & [= <- <-] & Hop).
  refine (proj1 (loop_inv (fun rest s => good s /\ NoDup rest
    /\ Forall (fun id => exists ptr stub, leads (node s) id ptr (Stub stub)) rest)
    _ _ _ _ _ _ Hop _ _)).
  - intros s1 [= <-]. split; [done|]. split.
    + apply (sublist_NoDup _ (channel_slots (node s)).*1); [apply channel_slots_NoDup|].
      apply fmap_sublist, sublist_filter.
    + apply Forall_fmap, Forall_forall. intros [id ptr] [Hp Hin]%list_elem_of_filter.
      destruct (prunable_leads _ _ _ _ Hin Hp) as (stub & Hl & _). by exists ptr, stub.
  - intros id rest s1 s2 ([Hid Hok] & [Hni Hnd]%NoDup_cons & [(ptr & stub & Hl) Hrest]%Forall_cons) Hf.
    inv_M Hf. match goal with Hp : persist_delete_channel _ _ _ = _ |- _ =>
      pose proof (view_write (DeleteChannel _ _) _ _ _ Hid eq_refl Hp) as Vp end.
    split; [split; [done|]|split; [done|]].
    + unfold record_of. cbn [node store node_id set_channels]. rewrite Vp.
      by apply (delete_stub_ok _ _ ptr stub).
    + apply Forall_forall. intros i Hi.
      destruct (proj1 (Forall_forall _ _) Hrest i Hi) as (p' & stub' & Hl' & Hd').
      exists p', stub'. split; [|done]. cbn [node channels set_channels].
      rewrite lookup_delete_ne; [done|]. by intros ->.
Qed.

(** *** The allowlist *)

Lemma change_allowlist_good s l f s' u :
  (forall al r, Forall (parsed (node_network (node s))) r ->
     Forall (parsed (node_network (node s))) (elements al) ->
     Forall (parsed (node_network (node s))) (elements (f al r))) ->
  change_allowlist l f s = (s', Ok u) -> good s -> good s'.
Proof.
  intros Hf Hop [Hid [Hwf [He Hs Hal Htr Hcs] Hh Hpar]].
  unfold change_allowlist, parse_allowables, update_allowlist in Hop. inv_M Hop.
  match goal with Hp : persist_update_node_allowlist _ _ _ = _ |- _ =>
    pose proof (view_write (UpdateAllowlist _ _) _ _ _ Hid eq_refl Hp) as Vp end.
  split; [done|]. unfold record_of. cbn [node store node_id set_allowlist_field]. rewrite Vp.
  match goal with Hp : parse_list _ _ = Ok _ |- _ => apply parse_list_parsed in Hp as Hparse end.
  match goal with |- node_ok ?n _ => destruct (wf_frame (node s) n) as [Hwf' Hlead]; [done..|] end.
  split; [done| |done|by apply Hf]. split; [done..|]. intros i e.
  setoid_rewrite Hlead. apply Hcs.
Qed.

Lemma Forall_elements_fold (Q : Allowable -> Prop) (g : gset Allowable -> Allowable -> gset Allowable)
  al l : (forall al a, Q a -> Forall Q (elements al) -> Forall Q (elements (g al a))) ->
  Forall Q l -> Forall Q (elements al) -> Forall Q (elements (foldl g al l)).
Proof. intros Hg Hl. revert al. induction Hl; intros al Hal; cbn; auto. Qed.

Lemma insert_parsed (Q : Allowable -> Prop) (al : gset Allowable) a : Q a ->
  Forall Q (elements al) -> Forall Q (elements ({[a]} ∪ al)).
Proof.
  rewrite !Forall_forall. intros Ha Hal x. rewrite elem_of_elements.
  intros [->%elem_of_singleton|Hx]%elem_of_union; [done|]. by apply Hal, elem_of_elements.
Qed.

Lemma remove_parsed (Q : Allowable -> Prop) (al : gset Allowable) a :
  Forall Q (elements al) -> Forall Q (elements (al ∖ {[a]})).
Proof.
  rewrite !Forall_forall. intros Hal x. rewrite elem_of_elements.
  intros [Hx _]%elem_of_difference. by apply Hal, elem_of_elements.
Qed.

Lemma add_allowlist_good s l s' u : add_allowlist l s = (s', Ok u) -> good s -> good s'.
Proof.
  apply change_allowlist_good. intros al r Hr Hal. apply Forall_elements_fold; [|done..].
  intros. by apply insert_parsed.
Qed.

Lemma set_allowlist_good s l s' u : set_allowlist l s = (s', Ok u) -> good s -> good s'.
Proof.
  apply change_allowlist_good. intros al r Hr Hal. apply Forall_elements_fold; [|done|].
  - intros. by apply insert_parsed.
  - rewrite elements_empty. constructor.
Qed.

Lemma remove_allowlist_good s l s' u : remove_allowlist l s = (s', Ok u) -> good s -> good s'.
Proof.
  apply change_allowlist_good. intros al r Hr Hal. apply Forall_elements_fold; [|done..].
  intros. by apply remove_parsed.
Qed.

(** *** Payments *)

Lemma hashes_subset st st' : invoices st' ⊆ invoices st ->
  issued_invoices st' ⊆ issued_invoices st -> hashes_ok st -> hashes_ok st'.
Proof.
  intros Hi Hs [Ho1 Ho2]. split; intros h [x Hx].
  - apply Ho1. exists x. by apply (lookup_weaken _ _ _ _ Hx).
  - apply Ho2. exists x. by apply (lookup_weaken _ _ _ _ Hx).
Qed.

(** A change of the state that forgets invoices at most. *)
Lemma set_state_ok n st r : invoices st ⊆ invoices (state n) ->
  issued_invoices st ⊆ issued_invoices (state n) -> node_ok n r -> node_ok (set_state n st) r.
Proof.
  intros Hi Hs Hok. apply (same_fields_ok n); [done| |done|done].
  cbn [state set_state]. eapply hashes_subset; [done..|]. apply Hok.
Qed.

(** A new state that is written. *)
Lemma update_node_ok n st nid r : hashes_ok st -> node_ok n r ->
  node_ok (set_state n st) (effect (UpdateNode nid st) r).
Proof.
  intros Hst [Hwf [He Hs Hal Htr Hcs] Hh Hpar].
  destruct (wf_frame n (set_state n st)) as [Hwf' Hlead]; [done..|].
  split; [done| |done|done]. split; [done| |done|done|].
  - by exists st.
  - intros i e. setoid_rewrite Hlead. apply Hcs.
Qed.

Lemma hashes_insert st h ps pays vc : length h = 32%nat -> hashes_ok st ->
  hashes_ok (set_invoices st (<[h := ps]> (invoices st)) (issued_invoices st) pays vc).
Proof.
  intros Hh [Ho1 Ho2]. split; [|done]. intros h'. cbn [invoices set_invoices].
  intros [x [[<- _]|[_ Hx]]%lookup_insert_Some]; [done|]. by apply Ho1.
Qed.

Lemma track_payment_good s msg h ps ih now s' b : length h = 32%nat ->
  track_payment msg h ps ih now s = (s', Ok b) -> good s -> good s'.
Proof.
  intros Hh Hop [Hid Hok]. unfold track_payment in Hop. inv_M Hop.
  destruct (_ <=? _); [by inv_M Hop|]. destruct (invoices _ !! h) as [ps'|].
  { destruct (bool_decide _); by inv_M Hop. }
  inv_M Hop. destruct x as [vc ok]. destruct ok; cbn [negb] in Hop; inv_M Hop; (split; [done|]).
  - match goal with Hp : persist_update_node _ _ _ = _ |- _ =>
      pose proof (view_write (UpdateNode _ _) _ _ _ Hid eq_refl Hp) as Vp end.
    unfold record_of. cbn [node store node_id set_state]. rewrite Vp.
    apply update_node_ok; [|done]. apply hashes_insert; [done|apply Hok].
  - by apply set_state_ok.
Qed.

Lemma add_invoice_good s tw i now s' b : length (inv_payment_hash i) = 32%nat ->
  add_invoice tw i now s = (s', Ok b) -> good s -> good s'.
Proof.
  intros Hh Hop Hg. unfold add_invoice in Hop. inv_M Hop.
  unfold payment_state_from_invoice in Hop. cbv beta iota in Hop.
  by eapply track_payment_good; [|exact Hop|].
Qed.

Lemma add_keysend_good s payee h v now now' s' b : length h = 32%nat ->
  add_keysend payee h v now now' s = (s', Ok b) -> good s -> good s'.
Proof. intros Hh Hop Hg. by eapply track_payment_good; [|exact Hop|]. Qed.

Lemma sign_invoice_good s hrp data s' sig :
  (forall i, length (inv_payment_hash (InvBolt11 i)) = 32%nat) ->
  sign_invoice hrp data s = (s', Ok sig) -> good s -> good s'.
Proof.
  intros Hh Hop [Hid Hok]. unfold sign_invoice in Hop. inv_M Hop. destruct x as [sg signed].
  inv_M Hop. unfold payment_state_from_invoice in Hop. cbv beta iota in Hop.
  destruct (_ <=? _); [by inv_M Hop|].
  destruct (issued_invoices _ !! _) as [ps'|]; [destruct (bool_decide _); by inv_M Hop|].
  inv_M Hop. split; [done|]. apply (same_fields_ok (node s0)); [done| |done|done].
  destruct Hok as [_ _ [Ho1 Ho2] _]. split; [done|]. intros h'.
  cbn [node state set_state issued_invoices set_invoices].
  intros [y [[<- _]|[_ Hy]]%lookup_insert_Some]; [apply Hh|]. by apply Ho2.
Qed.

(** *** On-chain transactions *)

Lemma check_onchain_good s tx itxs vals types ucks opaths now n' r :
  check_onchain_tx (node s) tx itxs vals types ucks opaths now = (n', r) -> good s ->
  good {| node := n'; store := store s |}.
Proof.
  intros Hop [Hid Hok]. unfold check_onchain_tx in Hop.
  destruct (_ ≫= _) as [[fvc ok]|e|]; injection Hop as <- <-; (split; [done|]); [|done..].
  by apply set_state_ok.
Qed.

Lemma watches_listeners t k ws t' : Tracker.add_listener_watches (Lst := Tracker.ChainMonitor) t k ws = Ok t' ->
  forall o, is_Some (listeners t !! o) -> is_Some (listeners t' !! o).
Proof.
  intros Hop o Ho. unfold Tracker.add_listener_watches in Hop. inv_ok Hop. destruct x as [l sl].
  injection Hop as <-. unfold Tracker.set_listeners. cbn [listeners].
  destruct (decide (k = o)) as [<-|Hne]; [by rewrite lookup_insert_eq|by rewrite lookup_insert_ne].
Qed.

Lemma funding_signed_frame {E} tx n ptr n' : funding_signed (E := E) tx n ptr = Ok n' ->
  tracker_frame n n'.
Proof.
  intros Hop. destruct ptr as [ptr|]; cbn [funding_signed] in Hop; [|by injection Hop as <-].
  apply bind_Ok in Hop as (sl & Hsl & Hop). apply unwrap_Ok in Hsl.
  destruct sl as [[stub|chan] d]; cbn [slot detached] in Hop; [done|].
  apply bind_Ok in Hop as (t & Ht%(proj1 (unwrap_ok_Ok _ _)) & Hop).
  pose proof (watches_listeners _ _ _ _ Ht) as Hlis. destruct d as [ms|].
  - injection Hop as <-. split; [done..| |done]. cbn [slots set_tracker set_channels].
    rewrite fmap_insert. cbn [slot]. apply insert_id. by rewrite lookup_fmap, Hsl.
  - inv_ok Hop. destruct x as [m ls]. injection Hop as <-. split; [done..|].
    intros o Ho%Hlis. cbn [tracker set_tracker]. unfold Tracker.set_listeners. cbn [listeners].
    destruct (decide (funding_outpoint (setup chan) = o)) as [<-|Hne];
      [by rewrite lookup_insert_eq|by rewrite lookup_insert_ne].
Qed.

Lemma unchecked_sign_good s tx ipaths vals types ucks s' w :
  unchecked_sign_onchain_tx tx ipaths vals types ucks s = (s', Ok w) -> good s -> good s'.
Proof.
  intros Hop [Hid Hok]. unfold unchecked_sign_onchain_tx in Hop. inv_M Hop.
  assert (Hfr : tracker_frame (node s0) x0).
  { refine (foldM_inv (fun _ n => tracker_frame (node s0) n) _ _ _ _ _ _ Hx0); [done|].
    intros pre ptr n n' Hn Hf. etrans; [exact Hn|]. by eapply funding_signed_frame. }
  pose proof (tf_id _ _ Hfr) as Hnid. rewrite Hnid in *.
  pose proof (view_write (UpdateTracker _ _) _ _ _ Hid eq_refl Hx1) as Vp.
  unfold good, record_of. cbn [node store]. rewrite Hnid, Vp. split; [done|].
  by apply (tracker_ok (node s0)).
Qed.

(** *** Heartbeats *)

Lemma prune_invoices_subset {E} tw st now st' b : prune_invoices (E := E) tw st now = Ok (st', b) ->
  invoices st' ⊆ invoices st /\ issued_invoices st' = issued_invoices st.
Proof.
  intros Hop. unfold prune_invoices in Hop. inv_ok Hop. split; [|done]. cbn [invoices].
  apply map_filter_subseteq.
Qed.

Lemma prune_issued_subset {E} tw st now st' b :
  prune_issued_invoices (E := E) tw st now = Ok (st', b) ->
  invoices st' = invoices st /\ issued_invoices st' ⊆ issued_invoices st.
Proof.
  intros Hop. unfold prune_issued_invoices in Hop.
  apply bind_Ok in Hop as (m & Hm & [= <- _]). split; [done|]. cbn [issued_invoices].
  refine (foldM_inv (fun _ m => m ⊆ issued_invoices st) _ _ _ _ _ _ Hm); [done|].
  intros pre kv m1 m2 Hsub Hstep. inv_ok Hstep. destruct (now <? x); [done|].
  etrans; [apply delete_subseteq|done].
Qed.

Lemma prune_forwarded_same {E} st st' b : prune_forwarded_payments (E := E) st = Ok (st', b) ->
  invoices st' = invoices st /\ issued_invoices st' = issued_invoices st.
Proof. intros Hop. unfold prune_forwarded_payments in Hop. inv_ok Hop. done. Qed.

Lemma get_heartbeat_good s tw now now' s' h :
  get_heartbeat tw now now' s = (s', Ok h) -> good s -> good s'.
Proof.
  intros Hop [Hid Hok]. unfold get_heartbeat in Hop. inv_M Hop.
  destruct x as [st1 b1]. inv_M Hop. destruct x as [st2 b2]. inv_M Hop. destruct x as [st3 b3].
  inv_M Hop. apply prune_invoices_subset in Hx as [Hi1 Hs1].
  apply prune_issued_subset in Hx0 as [Hi2 Hs2]. apply prune_forwarded_same in Hx1 as [Hi3 Hs3].
  match goal with Hp : prune_channels _ _ = _ |- _ => apply prune_channels_good in Hp end; [done|].
  split; [done|]. apply set_state_ok; [by rewrite Hi3, Hi2|by rewrite Hs3, <- Hs1|done].
Qed.

(** *** Operations of a channel *)

(** A channel with a new enforcement state, written to the store. *)
Lemma update_channel_ok n id ptr chan chan' d nid r : node_ok n r -> leads n id ptr (Ready chan) ->
  setup chan' = setup chan -> id0 chan' = id0 chan -> chan_id chan' = chan_id chan ->
  node_ok (set_channels n (channels n) (<[ptr := {| slot := Ready chan'; detached := d |}]> (slots n)))
    (effect (UpdateChannel nid chan') r).
Proof.
  intros [Hwf [He Hs Hal Htr Hcs] Hh Hpar] Hl Hsetup Hid0 Hcid. set (n' := set_channels _ _ _).
  assert (Hlead : forall i p sl, leads n' i p sl <->
    channels n !! i = Some ptr /\ p = ptr /\ sl = Ready chan' \/ p <> ptr /\ leads n i p sl).
  { intros i p sl. unfold leads, n'. cbn [channels slots set_channels].
    destruct (decide (p = ptr)) as [->|Hne].
    - rewrite lookup_insert_eq. naive_solver.
    - rewrite lookup_insert_ne by done. naive_solver. }
  assert (Hids : forall i, channels n !! i = Some ptr <-> i ∈ slot_ids (Ready chan')).
  { intros i. rewrite (wf_ids n Hwf id ptr _ Hl). cbn [slot_ids]. by rewrite Hid0, Hcid. }
  split; [| |done|done].
  - split.
    + intros i p Hi. destruct (decide (p = ptr)) as [->|Hne].
      * exists (Ready chan'). apply Hlead. by left.
      * destruct (wf_slot n Hwf i p Hi) as [sl Hsl]. exists sl. apply Hlead. by right.
    + intros i p sl [(Hi & -> & ->)|[Hne Hi]]%Hlead j; [apply Hids|]. by apply (wf_ids n Hwf i).
    + intros i p c [(Hi & -> & [= ->])|[Hne Hi]]%Hlead.
      * rewrite Hsetup. by apply (wf_listener n Hwf id ptr).
      * by apply (wf_listener n Hwf i p).
  - split; [done..|]. intros i e. cbn [effect r_channels with_channels].
    rewrite lookup_insert_Some, Hcs. setoid_rewrite Hlead. split.
    + intros [[<- <-]|[Hne (p & sl & Hi & Hsl & ->)]].
      * exists ptr, (Ready chan'). split; [left|done]. split; [|done]. apply Hids. cbn. set_solver.
      * exists p, sl. split; [right|done]. split; [|done]. intros ->.
        pose proof (leads_fun _ _ _ _ _ _ Hi Hl) as ->. apply Hne. by rewrite Hid0.
    + intros (p & sl & [(Hi & -> & ->)|[Hne Hi]] & Hsl & ->); [by left|]. right. split; [|eauto].
      intros <-. destruct Hi as [Hi Hd]. apply Hne.
      assert (Hp : channels n !! id0 chan' = Some ptr) by (apply Hids; cbn; set_solver).
      rewrite Hp in Hi. by injection Hi.
Qed.

(** An operation of a ready channel that succeeded and wrote the channel. *)
Inductive channel_step {A} (id : ChannelId) (m : Chan.M A) s s' : Prop :=
| channel_step_intro ptr chan d cs a p
    (Hslot : channels (node s) !! id = Some ptr)
    (Hready : slots (node s) !! ptr = Some {| slot := Ready chan; detached := d |})
    (Hrun : m {| Chan.chan := chan; Chan.node_state := state (node s); Chan.persisted := chan |}
            = (cs, Ok a))
    (Hchan : setup (Chan.chan cs) = setup chan /\ id0 (Chan.chan cs) = id0 chan
             /\ chan_id (Chan.chan cs) = chan_id chan)
    (Hstate : invoices (Chan.node_state cs) = invoices (state (node s))
              /\ issued_invoices (Chan.node_state cs) = issued_invoices (state (node s)))
    (Hwrite : persist_update_channel (store s) (node_id (node s)) (Chan.chan cs) = (p, Ok tt))
    (Hnext : s' = {| node := set_state (set_channels (node s) (channels (node s))
                       (<[ptr := {| slot := Ready (Chan.chan cs); detached := d |}]>
                          (slots (node s)))) (Chan.node_state cs);
                     store := p |}).

Lemma channel_step_good {A} id (m : Chan.M A) s s' : channel_step id m s s' -> good s -> good s'.
Proof.
  intros [ptr chan d cs a p Hslot Hready Hrun (Hc1 & Hc2 & Hc3) (Hi & Hs) Hwrite ->] [Hid Hok].
  pose proof (view_write (UpdateChannel _ _) _ _ _ Hid eq_refl Hwrite) as Vp.
  split; [done|]. unfold record_of. cbn [node store node_id set_state set_channels]. rewrite Vp.
  apply set_state_ok; cbn [state set_channels]; [by rewrite Hi|by rewrite Hs|].
  apply (update_channel_ok _ id ptr chan); [done| |done..]. split; [done|]. by exists d.
Qed.

(** *** Blocks *)

Lemma for_each_listeners {E} (t t' : NodeTracker) f : Tracker.for_each_listener (E := E) t f = Ok t' ->
  forall o, is_Some (listeners t !! o) -> is_Some (listeners t' !! o).
Proof.
  intros Hop. unfold Tracker.for_each_listener in Hop. apply bind_Ok in Hop as (ls & Hls & [= <-]).
  cbn [listeners Tracker.set_listeners].
  refine (foldM_inv (fun _ (ls : gmap OutPoint (Tracker.ChainMonitor * ListenSlot)) => forall o,
    is_Some (listeners t !! o) -> is_Some (ls !! o)) _ _ _ _ _ _ Hls); [done|].
  intros pre kv m m' IH Hstep o Ho. inv_ok Hstep.
  destruct (decide (kv.1 = o)) as [<-|Hne]; [by rewrite lookup_insert_eq|].
  rewrite lookup_insert_ne by done. by apply IH.
Qed.

Lemma finish_listeners {E} (t t' : NodeTracker) prf h :
  Tracker.maybe_finish_decoding_block (E := E) t prf h = Ok t' -> listeners t' = listeners t.
Proof.
  intros Hop. unfold Tracker.maybe_finish_decoding_block in Hop. inv_ok Hop.
  destruct (decode_state t) as [d|]; inv_ok Hop; done.
Qed.

Lemma notify_proof_listeners (t t' : NodeTracker) prf notify :
  (forall txs t', notify txs = Ok t' ->
     forall o, is_Some (listeners t !! o) -> is_Some (listeners t' !! o)) ->
  Tracker.notify_proof prf notify = Ok t' ->
  forall o, is_Some (listeners t !! o) -> is_Some (listeners t' !! o).
Proof. unfold Tracker.notify_proof. destruct (proof prf); [|done|]; eauto. Qed.

Lemma add_block_listeners (t t' : NodeTracker) header prf u :
  Tracker.add_block t header prf = Ok (t', u) ->
  forall o, is_Some (listeners t !! o) -> is_Some (listeners t' !! o).
Proof.
  intros Hop o Ho. unfold Tracker.add_block in Hop.
  apply bind_Ok in Hop as (t1 & Hf & Hop). apply bind_Ok in Hop as (? & _ & Hop).
  apply bind_Ok in Hop as (t2 & Hn & Hop). apply bind_Ok in Hop as (h & _ & [= <-]).
  cbn [listeners Tracker.set_chain]. revert o Ho. rewrite <- (finish_listeners _ _ _ _ Hf).
  eapply notify_proof_listeners; [|exact Hn]. intros txs t''. apply for_each_listeners.
Qed.

Lemma remove_block_listeners (t t' : NodeTracker) prf u :
  Tracker.remove_block t prf = Ok (t', u) ->
  forall o, is_Some (listeners t !! o) -> is_Some (listeners t' !! o).
Proof.
  intros Hop o Ho. unfold Tracker.remove_block in Hop. destruct (headers t) as [|ph rest]; [done|].
  apply bind_Ok in Hop as (t1 & Hf & Hop). apply bind_Ok in Hop as (? & _ & Hop).
  apply bind_Ok in Hop as (? & _ & Hop). apply bind_Ok in Hop as (t2 & Hn & Hop).
  apply bind_Ok in Hop as (h & _ & [= <- _]).
  cbn [listeners Tracker.set_chain]. revert o Ho. rewrite <- (finish_listeners _ _ _ _ Hf).
  eapply notify_proof_listeners; [|exact Hn]. intros txs t''. apply for_each_listeners.
Qed.

(** A new tracker that is written. *)
Lemma new_tracker_good s t p :
  (forall o, is_Some (listeners (tracker (node s)) !! o) -> is_Some (listeners t !! o)) ->
  persist_update_tracker (store s) (node_id (node s)) t = (p, Ok tt) -> good s ->
  good {| node := set_tracker (node s) t; store := p |}.
Proof.
  intros Hlis Hp [Hid Hok].
  pose proof (view_write (UpdateTracker _ _) _ _ _ Hid eq_refl Hp) as Vp.
  split; [done|]. unfold record_of. cbn [node store node_id set_tracker]. rewrite Vp.
  by apply (tracker_ok (node s) (set_tracker (node s) t)).
Qed.

Lemma handle_add_block_good s header prf s' u :
  handle_add_block header prf s = (s', Ok u) -> good s -> good s'.
Proof.
  intros Hop Hg. unfold handle_add_block in Hop. inv_M Hop. destruct x0 as [t []]. inv_M Hop.
  apply new_tracker_good; [|done..].
  by eapply add_block_listeners.
Qed.

Lemma handle_remove_block_good s prf s' u :
  handle_remove_block prf s = (s', Ok u) -> good s -> good s'.
Proof.
  intros Hop Hg. unfold handle_remove_block in Hop. inv_M Hop. destruct x0 as [t hd]. inv_M Hop.
  apply new_tracker_good; [|done..].
  by eapply remove_block_listeners.
Qed.

(** ** Creation *)

Lemma empty_ok (n : Node) : channels n = ∅ -> wf_node n.
Proof.
  intros Hc. split.
  - intros id ptr. by rewrite Hc, lookup_empty.
  - intros id ptr sl [Hid _]. by rewrite Hc, lookup_empty in Hid.
  - intros id ptr chan [Hid _]. by rewrite Hc, lookup_empty in Hid.
Qed.

Lemma new_fields {E} config seed al vf st n : new (E := E) config seed al vf st = Ok n ->
  node_config n = config /\ channels n = ∅ /\ slots n = ∅ /\ allowlist n = list_to_set al
  /\ invoices (state n) = ∅ /\ issued_invoices (state n) = ∅.
Proof.
  intros Hn. unfold new in Hn. inv_ok Hn. destruct x1 as [km nid]. unfold new_full in Hn.
  inv_ok Hn. done.
Qed.

Lemma add_allowlist_fields s l s' u : add_allowlist l s = (s', Ok u) ->
  exists al, node s' = set_allowlist_field (node s) al
    /\ perform (UpdateAllowlist (node_id (node s))
         ((fun a => to_string a (node_network (node s))) <$> elements al)) (store s)
       = (store s', Ok tt)
    /\ (Forall (parsed (node_network (node s))) (elements (allowlist (node s))) ->
        Forall (parsed (node_network (node s))) (elements al)).
Proof.
  intros Hop. unfold add_allowlist, change_allowlist, parse_allowables, update_allowlist in Hop.
  inv_M Hop. eexists. split; [done|]. split; [exact Hop|].
  match goal with Hp : parse_list _ _ = Ok _ |- _ => apply parse_list_parsed in Hp as Hparse end.
  intros Hal. apply Forall_elements_fold; [|done..]. intros. by apply insert_parsed.
Qed.

(** A new node whose id the store does not know is in sync once it is created. *)
Lemma create_node_good config seed vf st l p p' n :
  create_node config seed vf st l p = (p', Ok n) -> is_node_id (node_id n) ->
  r_channels (view p (node_id n)) = ∅ -> good {| node := n; store := p' |}.
Proof.
  intros Hop Hid Hnone. unfold create_node in Hop.
  destruct (new _ _ _ _ _) as [n0|e|] eqn:Hn; [|done..].
  apply new_fields in Hn as (Hc & Hch & Hsl & Hal & Hi & Hs).
  match type of Hop with (let '(s, r) := ?m in _) = _ => destruct m as [s [[]|e|]] eqn:Hrun end;
    [|done..]. injection Hop as <- <-.
  apply M_bind_Ok in Hrun as (s1 & [] & Hadd & Hrun).
  destruct (add_allowlist l _) as [s2 [[]|e|]] eqn:Hal2; injection Hadd as <-; try done.
  apply add_allowlist_fields in Hal2 as (al & Hnode & Hw & Hpar). cbn [node store] in *.
  inv_M Hrun. rewrite Hnode in *. cbn [node_id set_allowlist_field tracker state] in *.
  match goal with Hp : persist_new_node _ _ _ _ = _, Ht : persist_new_chain_tracker _ _ _ = _ |- _ =>
    pose proof (view_write (NewNode _ _ _) _ _ _ Hid eq_refl Hp) as Vn;
    pose proof (view_write (NewChainTracker _ _) _ _ _ Hid eq_refl Ht) as Vt end.
  pose proof (view_write (UpdateAllowlist _ _) _ _ _ Hid eq_refl Hw) as Va.
  split; [done|]. unfold record_of. cbn [node store node_id set_allowlist_field].
  rewrite Vt, Vn, Va. split.
  - by apply empty_ok.
  - split; cbn [effect r_entry r_state r_channels r_allowlist r_tracker with_entry with_tracker
      with_node_state with_allowlist].
    + done.
    + eexists. split; [done|]. split; [|done]. split; rewrite ?Hi, ?Hs; intros h [y Hy];
        by rewrite lookup_empty in Hy.
    + done.
    + done.
    + intros id e. rewrite Hnone, lookup_empty. split; [done|].
      intros (ptr & sl & [Hl _] & _). cbn in Hl. by rewrite Hch, lookup_empty in Hl.
  - split; cbn; rewrite ?Hi, ?Hs; intros h [y Hy]; by rewrite lookup_empty in Hy.
  - apply Hpar. rewrite Hal. change (list_to_set []) with (∅ : gset Allowable).
    rewrite elements_empty. constructor.
Qed.

(** ** Runs of a node *)

(** A successful operation.  Payment hashes are 32 bytes by their type; the
    permanent id of a channel is not one of another channel. *)
Inductive node_step s s' : Prop :=
| step_new_channel opt r : new_channel opt s = (s', Ok r) -> node_step s s'
| step_ready_channel cid opt stp path c : fresh_id (node s) cid opt ->
    ready_channel cid opt stp path s = (s', Ok c) -> node_step s s'
| step_channel A id (m : Chan.M A) : channel_step id m s s' -> node_step s s'
| step_add_allowlist l : add_allowlist l s = (s', Ok tt) -> node_step s s'
| step_set_allowlist l : set_allowlist l s = (s', Ok tt) -> node_step s s'
| step_remove_allowlist l : remove_allowlist l s = (s', Ok tt) -> node_step s s'
| step_add_invoice tw i now b : length (inv_payment_hash i) = 32%nat ->
    add_invoice tw i now s = (s', Ok b) -> node_step s s'
| step_add_keysend payee h v now now' b : length h = 32%nat ->
    add_keysend payee h v now now' s = (s', Ok b) -> node_step s s'
| step_sign_invoice hrp data sig : (forall i, length (inv_payment_hash (InvBolt11 i)) = 32%nat) ->
    sign_invoice hrp data s = (s', Ok sig) -> node_step s s'
| step_check_onchain tx itxs vals types ucks opaths now r :
    check_onchain_tx (node s) tx itxs vals types ucks opaths now = (node s', r) ->
    store s' = store s -> node_step s s'
| step_sign_onchain tx ipaths vals types ucks w :
    unchecked_sign_onchain_tx tx ipaths vals types ucks s = (s', Ok w) -> node_step s s'
| step_heartbeat tw now now' h : get_heartbeat tw now now' s = (s', Ok h) -> node_step s s'
| step_add_block header prf : handle_add_block header prf s = (s', Ok tt) -> node_step s s'
| step_remove_block prf : handle_remove_block prf s = (s', Ok tt) -> node_step s s'.

Lemma node_step_good s s' : node_step s s' -> good s -> good s'.
Proof.
  intros Hstep. destruct Hstep; eauto using new_channel_good, ready_channel_good,
    channel_step_good, add_allowlist_good, set_allowlist_good, remove_allowlist_good,
    add_invoice_good, add_keysend_good, sign_invoice_good, unchecked_sign_good,
    get_heartbeat_good, handle_add_block_good, handle_remove_block_good.
  intros Hg. destruct s' as [n' p']. cbn [node store] in *. subst p'. by eapply check_onchain_good.
Qed.

Lemma node_steps_good s s' : rtc node_step s s' -> good s -> good s'.
Proof. induction 1; eauto using node_step_good. Qed.

(** ** The identity of a node never changes *)

Definition same_ident n n' : Prop := node_config n' = node_config n /\ node_id n' = node_id n.

#[global] Instance same_ident_PreOrder : PreOrder same_ident.
Proof. split; [by intros n|]. intros n1 n2 n3 [] []. split; congruence. Qed.

Lemma change_allowlist_ident s l f s' u : change_allowlist l f s = (s', Ok u) ->
  same_ident (node s) (node s').
Proof.
  intros Hop. unfold change_allowlist, parse_allowables, update_allowlist in Hop. by inv_M Hop.
Qed.

Lemma new_channel_ident s opt s' r : new_channel opt s = (s', Ok r) ->
  same_ident (node s) (node s').
Proof.
  intros Hop. unfold new_channel in Hop. inv_M Hop. destruct x as [n1 id].
  assert (Hn : same_ident (node s0) n1).
  { destruct opt; [by injection Hx as <- <-|]. inv_ok Hx. destruct x as [km i].
    by injection Hx as <- <-. }
  inv_M Hop. destruct (_ <=? _); [by inv_M Hop|]. destruct (channels n1 !! id) as [ptr|].
  - inv_M Hop. by apply get_slot_Ok in Hx0 as [-> _].
  - inv_M Hop. destruct x as [km ks]. by inv_M Hop.
Qed.

Lemma ready_channel_ident s cid opt stp path s' c :
  ready_channel cid opt stp path s = (s', Ok c) -> same_ident (node s) (node s').
Proof.
  intros Hop. unfold ready_channel in Hop. inv_M Hop. apply get_slot_Ok in Hx0 as [-> Hsl].
  destruct x0 as [[stub|c0] d]; cbn [slot] in Hop; [by inv_M Hop|].
  destruct (bool_decide _); by inv_M Hop.
Qed.

Lemma track_payment_ident s msg h ps ih now s' b : track_payment msg h ps ih now s = (s', Ok b) ->
  same_ident (node s) (node s').
Proof.
  intros Hop. unfold track_payment in Hop. inv_M Hop. destruct (_ <=? _); [by inv_M Hop|].
  destruct (invoices _ !! h) as [ps'|]; [destruct (bool_decide _); by inv_M Hop|].
  inv_M Hop. destruct x as [vc ok]. destruct ok; cbn [negb] in Hop; by inv_M Hop.
Qed.

Lemma sign_invoice_ident s hrp data s' sig : sign_invoice hrp data s = (s', Ok sig) ->
  same_ident (node s) (node s').
Proof.
  intros Hop. unfold sign_invoice in Hop. inv_M Hop. destruct x as [sg signed]. inv_M Hop.
  unfold payment_state_from_invoice in Hop. cbv beta iota in Hop.
  destruct (_ <=? _); [by inv_M Hop|].
  destruct (issued_invoices _ !! _); [destruct (bool_decide _)|]; by inv_M Hop.
Qed.

Lemma unchecked_sign_ident s tx ipaths vals types ucks s' w :
  unchecked_sign_onchain_tx tx ipaths vals types ucks s = (s', Ok w) ->
  same_ident (node s) (node s').
Proof.
  intros Hop. unfold unchecked_sign_onchain_tx in Hop. inv_M Hop.
  refine (foldM_inv (fun _ n => same_ident (node s0) n) _ _ _ _ _ _ Hx0); [done|].
  intros pre ptr n n' Hn [_ Hc Hi _ _ _ _ _]%funding_signed_frame. by etrans.
Qed.

Lemma prune_channels_ident s h s' u : prune_channels h s = (s', Ok u) ->
  same_ident (node s) (node s').
Proof.
  intros Hop. unfold prune_channels in Hop. apply M_bind_Ok in Hop as (s1 & n & [= <- <-] & Hop).
  refine (loop_inv (fun _ s1 => same_ident (node s) (node s1)) _ _ _ _ _ _ Hop _ _).
  - by intros s1 [= <-].
  - intros id rest s1 s2 Hs1 Hf. by inv_M Hf.
Qed.

Lemma get_heartbeat_ident s tw now now' s' h : get_heartbeat tw now now' s = (s', Ok h) ->
  same_ident (node s) (node s').
Proof.
  intros Hop. unfold get_heartbeat in Hop. inv_M Hop. destruct x as [st1 b1]. inv_M Hop.
  destruct x as [st2 b2]. inv_M Hop. destruct x as [st3 b3]. inv_M Hop.
  match goal with Hp : prune_channels _ _ = _ |- _ => by apply prune_channels_ident in Hp end.
Qed.

Lemma check_onchain_ident n tx itxs vals types ucks opaths now n' r :
  check_onchain_tx n tx itxs vals types ucks opaths now = (n', r) -> same_ident n n'.
Proof.
  intros Hop. unfold check_onchain_tx in Hop.
  by destruct (_ ≫= _) as [[fvc ok]|e|]; injection Hop as <- <-.
Qed.

Lemma node_step_ident s s' : node_step s s' -> same_ident (node s) (node s').
Proof.
  intros Hstep. destruct Hstep; eauto using new_channel_ident, ready_channel_ident,
    change_allowlist_ident, sign_invoice_ident, unchecked_sign_ident, get_heartbeat_ident,
    check_onchain_ident, track_payment_ident.
  - by destruct H0 as [? ? ? ? ? ? _ _ _ _ _ _ ->].
  - unfold add_invoice in H1. inv_M H1. unfold payment_state_from_invoice in H1.
    cbv beta iota in H1. by eapply track_payment_ident, H1.
  - by eapply track_payment_ident, H1.
  - unfold handle_add_block in H0. inv_M H0. destruct x0 as [t []]. by inv_M H0.
  - unfold handle_remove_block in H0. inv_M H0. destruct x0 as [t hd]. by inv_M H0.
Qed.

Lemma node_steps_ident s s' : rtc node_step s s' -> same_ident (node s) (node s').
Proof. induction 1 as [|s1 s2 s3 Hs _ IH]; [done|]. etrans; [by apply node_step_ident|done]. Qed.
End operations.
