(* ===== verification/NodeRestart.v ===== *)
(** * Restart of a node

    A node that was created and then ran any sequence of successful operations
    is restored from the store: its channels with their enforcement states, its
    allowlist, its approved invoices and its chain tracker are back. *)

From S2P Require Import Prelude Velocity Policy Order Extern Crypto Setup Tx Keys Allowlist Script.
From S2P Require Import Secrets Enforcement Validator NodeState ChannelOps Monitor Tracker Persist.
From S2P Require Import PersistSpec Node NodeInv.

Import NodeOps.

(** ** Decoding what was encoded *)

Section decode.
Context `{L : Lib, CL : ChainLib, SL : SerLib}.

(** Consensus encoding and network names are read back. *)
Class SerLaws : Prop := {
  law_headers h : deserialize_headers (serialize_headers h) = Some h;
  law_network n : network_from_str (network_to_string n) = Some n
}.

Lemma style_roundtrip s : KeyDerivationStyle_try_from (KeyDerivationStyle_as_u8 s) = Ok s.
Proof. by destruct s. Qed.

(** The tracker as it is read back: the monitors lose the state of a block
    that is being streamed. *)
Definition reload_monitor (o : OutPoint) (ls : Tracker.ChainMonitor * ListenSlot)
  : Tracker.ChainMonitor * ListenSlot :=
  let st := Tracker.cm_state ls.1 in
  ({| Tracker.cm_funding_outpoint := o;
      Tracker.cm_state := Monitor.set_decode_state st (Monitor.saw_block st) None |}, ls.2).

Definition reload_tracker (t : NodeTracker) (p : Policy) : NodeTracker :=
  Tracker.restore (headers t) (tip t) (height t) (network t)
    (map_imap (fun o ls => Some (reload_monitor o ls)) (listeners t)) p.

Context `{!SerLaws}.

Lemma headers_loop {E} hs acc :
  foldM (E := E) (fun acc b => h ← unwrap (deserialize_headers b); Ok (acc ++ [h])) acc
    (serialize_headers <$> hs) = Ok (acc ++ hs).
Proof.
  revert acc. induction hs as [|h hs IH]; intros acc; [cbn; by rewrite app_nil_r|].
  rewrite fmap_cons. cbn [foldM]. rewrite law_headers. step. rewrite IH. by rewrite <- app_assoc.
Qed.

Lemma into_tracker_reload {E} t p :
  into_tracker (E := E) (serde_skip (ChainTrackerEntry_from t)) p = Ok (reload_tracker t p).
Proof.
  unfold into_tracker. cbn [cte_tip cte_headers serde_skip ChainTrackerEntry_from].
  rewrite law_headers, Ok_bind, headers_loop, Ok_bind. f_equal.
  unfold reload_tracker. f_equal. apply map_eq. intros o. rewrite !map_lookup_imap. cbn [cte_listeners serde_skip ChainTrackerEntry_from].
  rewrite !lookup_fmap. by destruct (listeners t !! o) as [[]|].
Qed.

Lemma decode_loop {E} l acc : Forall (fun kv : bytes * PaymentState => length kv.1 = 32%nat) l ->
  foldM (E := E) (fun (m : gmap PaymentHash PaymentState) kv =>
    assert_ (length kv.1 =? 32)%nat;; Ok (<[kv.1 := kv.2]> m)) acc l
  = Ok (foldl (fun m kv => <[kv.1 := kv.2]> m) acc l).
Proof.
  intros Hl. revert acc. induction Hl as [|kv l Hk _ IH]; intros acc; [done|]. cbn [foldM foldl].
  rewrite (proj2 (Nat.eqb_eq _ _) Hk). cbn [assert_]. rewrite !Ok_bind. by rewrite IH.
Qed.

Lemma foldl_insert_list (l : list (bytes * PaymentState)) (acc : gmap PaymentHash PaymentState) :
  NoDup l.*1 -> forall k, foldl (fun m kv => <[kv.1 := kv.2]> m) acc l !! k
    = match (list_to_map l : gmap PaymentHash PaymentState) !! k with
      | Some x => Some x | None => acc !! k end.
Proof.
  revert acc. induction l as [|[k0 x0] l IH]; intros acc Hnd k; cbn in *; [by rewrite lookup_empty|].
  apply NoDup_cons in Hnd as [Hk0 Hnd]. rewrite IH by done.
  destruct (decide (k0 = k)) as [->|Hne].
  - rewrite !lookup_insert_eq. by rewrite not_elem_of_list_to_map_1.
  - by rewrite !lookup_insert_ne.
Qed.

Lemma decode_hashes_list {E : Type} (m : gmap PaymentHash PaymentState) :
  (forall h, is_Some (m !! h) -> length h = 32%nat) ->
  decode_hashes (E := E) (map_to_list m) = Ok m.
Proof.
  intros Hm. unfold decode_hashes. rewrite decode_loop.
  - f_equal. apply map_eq. intros k. rewrite foldl_insert_list by apply NoDup_fst_map_to_list.
    rewrite list_to_map_to_list. by destruct (m !! k); rewrite ?lookup_empty.
  - apply Forall_forall. intros [h x] Hin. apply elem_of_map_to_list in Hin. apply Hm. by exists x.
Qed.

(** The node's entry, as [get_nodes] makes it from the record. *)
Definition entry_of {E} (r : NodeRecord) : outcome E NodeEntry :=
  e ← unwrap (r_entry r);
  se ← unwrap (r_state r);
  st ← NodeState_restore (nse_invoices se) (nse_issued_invoices se) (nse_preimages se) 0
         (nse_velocity_control se) (nse_fee_velocity_control se);
  Ok {| ne_key_derivation_style := e.1; ne_network := e.2; ne_state := st |}.

Lemma entry_of_sync `{!KeyLib, AL : AddressLib} (n : Node) r : in_sync n r -> exists e,
  (forall E, entry_of (E := E) r = Ok e)
  /\ ne_key_derivation_style e = KeyDerivationStyle_as_u8 (cfg_key_derivation_style (node_config n))
  /\ ne_network e = network_to_string (node_network n)
  /\ invoices (state n) ⊆ invoices (ne_state e).
Proof.
  intros [He (st & Hs & [Ho1 Ho2] & Hsub) _ _ _]. eexists. split.
  - intros E. unfold entry_of. rewrite He, Hs. step.
    unfold NodeState_restore. cbn [nse_invoices nse_issued_invoices NodeStateEntry_from].
    rewrite !decode_hashes_list by done. rewrite !Ok_bind. reflexivity.
  - done.
Qed.
End decode.

(** ** Restoring the channels *)

Section restart.
Context `{L : Lib, CrL : CryptoLib, !KeyLib, CL : ChainLib, AL : AddressLib, IL : InvoiceLib}.
Context `{CkL : CheckpointLib, NL : NodeLib, SL : SerLib, Prof : Profile}.
Context {P : Type} `{!Persist P} (view : P -> PublicKey -> NodeRecord) `{!PersistLaws P view}.
Context `{!Keys.KeyLaws, !AddressLaws, !SerLaws}.
Implicit Types (n : Node) (s : NSt P).

(** Slots that agree on all that is not derived again: the keys are, from the
    seed and the channel's id. *)
Definition same_slot (a b : ChannelSlot) : Prop :=
  match a, b with
  | Stub s, Stub s' => stub_id0 s = stub_id0 s' /\ stub_blockheight s = stub_blockheight s'
  | Ready c, Ready c' => setup c = setup c' /\ enforcement_state c = enforcement_state c'
                         /\ id0 c = id0 c' /\ chan_id c = chan_id c'
  | _, _ => False
  end.

Lemma same_slot_ids a b : same_slot a b -> slot_ids a = slot_ids b.
Proof.
  destruct a, b; cbn; [by intros [-> _]|done|done|]. by intros (_ & _ & -> & ->).
Qed.

(** The payments of a channel's current commitments can be summed up. *)
Definition payments_sum (c : Channel) : Prop :=
  exists inc out, incoming_payments_summary (E := Status) (enforcement_state c) None None = Ok inc
    /\ payments_summary (E := Status) (enforcement_state c) None None = Ok out.

(** The channels of [n] whose ids are in [done] have been restored in [n']. *)
Record restored n (done : list ChannelId) n' : Prop := {
  rs_wf : wf_node n';
  rs_back id ptr sl : leads n' id ptr sl -> exists ptr0 sl0, leads n id ptr0 sl0
    /\ slot_id sl0 ∈ done /\ same_slot sl0 sl;
  rs_all id ptr sl : leads n id ptr sl -> slot_id sl ∈ done -> is_Some (channels n' !! id)
}.

(** The ids of a channel that has not been restored are free. *)
Lemma restored_free n done n' id ptr sl i : wf_node n -> restored n done n' ->
  leads n id ptr sl -> slot_id sl = id -> id ∉ done -> i ∈ slot_ids sl -> channels n' !! i = None.
Proof.
  intros Hwf [Hwf' Hback Hall] Hl Hid Hnew Hi.
  destruct (channels n' !! i) as [p|] eqn:Hc; [|done]. exfalso.
  destruct (wf_slot n' Hwf' i p Hc) as [sl1 Hsl1].
  destruct (Hback _ _ _ Hsl1) as (ptr0 & sl0 & Hl0 & Hin & _). apply Hnew.
  apply (wf_ids n Hwf id ptr sl Hl) in Hi.
  assert (leads n i ptr sl) as Hli by (split; [done|by destruct Hl]).
  destruct (leads_ptr _ _ _ _ _ _ Hl0 Hli) as [_ ->]. by rewrite <- Hid.
Qed.

Lemma restored_insert n done n' id ptr sl sl' : wf_node n -> restored n done n' ->
  leads n id ptr sl -> slot_id sl = id -> id ∉ done -> same_slot sl sl' ->
  (forall chan, sl' = Ready chan ->
     is_Some (listeners (tracker n') !! funding_outpoint (setup chan))) ->
  restored n (done ++ [id]) (insert_slot n' (slot_ids sl') {| slot := sl'; detached := None |}).
Proof.
  intros Hwf Hrest Hl Hid Hnew Hsame Hlis.
  assert (Hfree : forall i, i ∈ slot_ids sl' -> channels n' !! i = None).
  { intros i Hi. apply (restored_free n done n' id ptr sl); try done.
    by rewrite (same_slot_ids _ _ Hsame). }
  destruct Hrest as [Hwf' Hback Hall].
  split.
  - apply insert_slot_wf; [done|done| |done]. intros i j p Hi Hc. by rewrite Hfree in Hc.
  - intros i p sl1 [(Hi & -> & ->)|[_ Hi]]%leads_insert; [| |done].
    + exists ptr, sl. rewrite <- (same_slot_ids _ _ Hsame) in Hi. cbn [slot].
      split; [split; [by apply (wf_ids n Hwf id ptr sl Hl)|by destruct Hl]|].
      split; [|done]. rewrite Hid. set_solver.
    + destruct (Hback _ _ _ Hi) as (p0 & sl0 & Hl0 & Hin & Hs0). exists p0, sl0. set_solver.
  - intros i p sl1 Hl1 Hin. cbn [channels insert_slot set_channels]. rewrite insert_ids_lookup.
    destruct (decide (i ∈ slot_ids sl')) as [|Hni]; [done|].
    apply elem_of_app in Hin as [Hin|Hin%list_elem_of_singleton]; [by apply (Hall i p sl1)|].
    exfalso. apply Hni. rewrite <- (same_slot_ids _ _ Hsame).
    pose proof (leads_slot_id _ _ _ _ Hwf Hl1) as Hl1'. rewrite Hin in Hl1'.
    destruct (leads_ptr _ _ _ _ _ _ Hl1' Hl) as [-> ->].
    apply (wf_ids n Hwf i ptr sl Hl1). by destruct Hl1.
Qed.

Lemma restored_frame n done n1 n2 : channels n2 = channels n1 -> slots n2 = slots n1 ->
  tracker n2 = tracker n1 -> restored n done n1 -> restored n done n2.
Proof.
  intros Hc Hs Ht [Hwf Hback Hall].
  destruct (wf_frame n1 n2) as [Hwf' Hlead]; [done|by rewrite Hs|by rewrite Ht|done|]. split; [done| |].
  - intros id ptr sl Hl%Hlead. by apply Hback in Hl.
  - intros id ptr sl Hl Hin. rewrite Hc. by apply (Hall id ptr sl).
Qed.

(** *** Keys *)

Notation derived := (Keys.derived (E := Status)).

Lemma random_index km km' b : Keys.get_secure_random_bytes (E := Status) km = Ok (km', b) ->
  Keys.rand_bytes_child_index km' = as_u 64 (Keys.rand_bytes_child_index km + 1).
Proof. intros Hr. unfold Keys.get_secure_random_bytes in Hr. by inv_ok Hr. Qed.

Lemma keys_advance style sd net km cid v : style <> Lnd -> derived style sd net km ->
  0 <= Keys.rand_bytes_child_index km < 2 ^ 31 -> exists km' ks,
  Keys.get_channel_keys_with_id (E := Status) km cid v = Ok (km', ks)
  /\ derived style sd net km'
  /\ Keys.rand_bytes_child_index km' = Keys.rand_bytes_child_index km + 1.
Proof.
  intros Hst Hd Hr.
  destruct (Keys.style_keys_total (E := Status) style net sd cid (Keys.channel_seed_base km)
    (Keys.km_master_key km) Hst) as (kid & [[[[[fk rk] hk] pk] dk] cs] & Hkid & Hks).
  destruct (Keys.channel_keys_of style sd net km cid kid fk rk hk pk dk cs v Hd Hr Hkid (Hks _))
    as (km' & r & Hok).
  exists km'. eexists. split; [exact Hok|]. split.
  - eapply Keys.derived_counters; [exact Hd|].
    unfold Keys.get_channel_keys_with_id in Hok. inv_ok Hok. by eapply Keys.keys_counters.
  - unfold Keys.get_channel_keys_with_id in Hok. inv_ok Hok.
    unfold Keys.get_channel_keys_with_keys_id in Hok. inv_ok Hok.
    destruct x0 as [[[[[? ?] ?] ?] ?] ?]. inv_ok Hok. destruct x0 as [km1 b].
    injection Hok as <- _. apply random_index in Hx1 as ->.
    cbn [Keys.rand_bytes_child_index Keys.set_counters]. apply Z.mod_small. lia.
Qed.

(** *** One channel *)

(** What the loop leaves as it was when it started at [n1], and the state of
    the keys manager. *)
Record resumed style sd net n1 (k : nat) n' : Prop := {
  re_ident : same_ident n1 n';
  re_tracker : tracker n' = tracker n1;
  re_allowlist : allowlist n' = allowlist n1;
  re_keys : derived style sd net (keys_manager n');
  re_rand : Keys.rand_bytes_child_index (keys_manager n') = 1 + Z.of_nat k;
  re_invoices : invoices (state n') = invoices (state n1);
  re_payments h : is_Some (payments (state n1) !! h) -> is_Some (payments (state n') !! h)
}.

Lemma M_bind_step {A B} (m : M P A) (f : A -> M P B) s s1 a : m s = (s1, Ok a) ->
  (m ≫= f) s = f a s1.
Proof. unfold mbind, M_bind. by intros ->. Qed.

Lemma restore_channel_total style sd net n1 k n' id e (p : P) sl : style <> Lnd ->
  resumed style sd net n1 k n' -> Z.of_nat k < 2 ^ 31 - 1 -> channels n' !! id = None ->
  e = slot_entry sl -> slot_id sl = id ->
  (forall chan, sl = Ready chan -> is_Some (listeners (tracker n1) !! funding_outpoint (setup chan))) ->
  forall bh, exists km' sl',
    restore_channel id (ce_id e) (channel_value_satoshis e) (channel_setup e)
      (ce_enforcement_state e) (default bh (ce_blockheight e)) {| node := n'; store := p |}
    = ({| node := set_keys_manager (insert_slot n' (slot_ids sl') {| slot := sl'; detached := None |})
                    km'; store := p |}, Ok sl')
    /\ same_slot sl sl' /\ derived style sd net km'
    /\ Keys.rand_bytes_child_index km' = 1 + Z.of_nat (S k).
Proof.
  intros Hst [Hid Htr Hal Hd Hr _ _] Hk Hfree -> Hsid Hlis bh.
  destruct (keys_advance style sd net (keys_manager n') id (channel_value_satoshis (slot_entry sl))
    Hst Hd) as (km' & ks & Hks & Hd' & Hr'); [lia|].
  exists (Keys.increment_channel_id_child_index km').1.
  unfold restore_channel. unfold get_node. erewrite M_bind_step by reflexivity. cbn [node].
  rewrite Hfree. erewrite M_bind_step by reflexivity. unfold lift.
  erewrite M_bind_step by (rewrite Hks; reflexivity). cbv beta iota.
  assert (Hinc : derived style sd net (Keys.increment_channel_id_child_index km').1
    /\ Keys.rand_bytes_child_index (Keys.increment_channel_id_child_index km').1 = 1 + Z.of_nat (S k)).
  { split; [by destruct Hd'; split|]. cbn [Keys.increment_channel_id_child_index fst
      Keys.rand_bytes_child_index Keys.set_counters]. rewrite Hr', Hr. lia. }
  destruct sl as [stub|chan]; cbn [slot_entry channel_setup stub_entry channel_entry ce_id].
  - exists (Stub {| stub_keys := ks; stub_id0 := id; stub_blockheight := stub_blockheight stub |}).
    split; [done|]. by split.
  - rewrite Htr. destruct (Hlis chan eq_refl) as [ls ->].
    exists (Ready {| keys := provide_channel_parameters ks
                     (channel_setup_to_channel_transaction_parameters (setup chan) (pubkeys ks));
                   enforcement_state := enforcement_state chan; setup := setup chan; id0 := id;
                   chan_id := chan_id chan |}).
    split; [done|]. by split.
Qed.

(** The payments of the restored channel are added to those of the node. *)
Lemma restore_payments_total chan n (p : P) : payments_sum chan -> exists st,
  on_payments Chan.restore_payments chan {| node := n; store := p |}
  = ({| node := set_state n st; store := p |}, Ok tt)
  /\ invoices st = invoices (state n)
  /\ forall h, is_Some (payments (state n) !! h) -> is_Some (payments st !! h).
Proof.
  intros (inc & out & Hinc & Hout). unfold on_payments. cbn [node store].
  unfold Chan.restore_payments, mbind, Chan.M_bind, Chan.get_chan, Chan.lift.
  cbn [Chan.chan]. rewrite Hinc, Hout. cbn. eexists. split; [reflexivity|]. split; [done|].
  intros h Hh. cbn [payments set_payments]. generalize (summary_hashes inc out). intros l.
  revert Hh. generalize (payments (state n)). induction l as [|x l IH]; intros m Hm; [done|].
  cbn [foldl]. apply IH. destruct (decide (x = h)) as [->|Hne];
    [by rewrite lookup_insert_eq|by rewrite lookup_insert_ne].
Qed.

Lemma same_slot_sum sl chan : same_slot sl (Ready chan) ->
  (forall c, sl = Ready c -> payments_sum c) -> payments_sum chan.
Proof.
  destruct sl as [|c]; [done|]. intros (_ & Hes & _) Hc. unfold payments_sum. rewrite <- Hes.
  by apply Hc.
Qed.

Lemma restore_entry_total style sd net n n1 done n' id ptr sl (p : P) : style <> Lnd ->
  wf_node n -> restored n done n' -> resumed style sd net n1 (length done) n' ->
  Z.of_nat (length done) < 2 ^ 31 - 1 ->
  leads n id ptr sl -> slot_id sl = id -> id ∉ done ->
  (forall c, sl = Ready c -> payments_sum c
     /\ is_Some (listeners (tracker n1) !! funding_outpoint (setup c))) ->
  forall bh, exists n'', restore_entry bh (id, slot_entry sl) {| node := n'; store := p |}
      = ({| node := n''; store := p |}, Ok tt)
    /\ restored n (done ++ [id]) n'' /\ resumed style sd net n1 (length (done ++ [id])) n''.
Proof.
  intros Hst Hwf Hrs Hre Hlen Hl Hid Hnew Hc bh.
  assert (Hfree : channels n' !! id = None).
  { apply (restored_free n done n' id ptr sl); try done. rewrite <- Hid. apply slot_id_in. }
  destruct (restore_channel_total style sd net n1 (length done) n' id _ p sl Hst Hre Hlen Hfree
    eq_refl Hid (fun c Hsl => proj2 (Hc c Hsl)) bh) as (km & sl' & Hrun & Hsame & Hd & Hr).
  unfold restore_entry. erewrite M_bind_step by exact Hrun.
  set (m := insert_slot n' _ _) in *.
  assert (Hrs' : restored n (done ++ [id]) m).
  { apply (restored_insert n done n' id ptr sl); try done. intros c ->.
    destruct sl as [|c0]; [done|]. destruct Hsame as (<- & _). destruct Hre as [_ -> _ _ _ _ _].
    by apply Hc. }
  assert (Hre' : forall st, invoices st = invoices (state n') ->
    (forall h, is_Some (payments (state n') !! h) -> is_Some (payments st !! h)) ->
    resumed style sd net n1 (length (done ++ [id])) (set_state (set_keys_manager m km) st)).
  { destruct Hre as [Hi Ht Ha _ _ Hinv Hpay]. intros st Hst1 Hst2. rewrite length_app, Nat.add_comm.
    split; [done..| |]; cbn [state set_state]; [congruence|auto]. }
  destruct sl' as [stub|chan].
  - exists (set_keys_manager m km). split; [done|]. split; [by apply (restored_frame n _ m)|].
    exact (Hre' (state n') eq_refl (fun _ h => h)).
  - destruct (restore_payments_total chan (set_keys_manager m km) p) as (st & -> & Hi & Hp).
    { apply (same_slot_sum sl); [done|]. intros c Hsl. by apply Hc. }
    exists (set_state (set_keys_manager m km) st). split; [done|].
    split; [by apply (restored_frame n _ m)|by apply Hre'].
Qed.

(** *** The loop *)

Lemma loop_total {A} (I : list A -> NSt P -> Prop) (f : A -> M P unit) l s : I [] s ->
  (forall pre x post s1, l = pre ++ x :: post -> I pre s1 ->
     exists s2, f x s1 = (s2, Ok tt) /\ I (pre ++ [x]) s2) ->
  exists s', foldl (fun m x => m;; f x) (mret tt) l s = (s', Ok tt) /\ I l s'.
Proof.
  intros Hnil Hstep. induction l as [|x l IH] using rev_ind; [by exists s|].
  destruct IH as (s1 & Hs1 & Hi).
  { intros pre y post s1 ->. apply (Hstep pre y (post ++ [x])). by rewrite <- app_assoc. }
  destruct (Hstep l x [] s1 eq_refl Hi) as (s2 & Hs2 & Hi2). exists s2. split; [|done].
  rewrite foldl_app. cbn [foldl]. by erewrite M_bind_step by exact Hs1.
Qed.

(** All the channels of a node are restored from the entries of its record. *)
Lemma restore_entries_total style sd net n n1 l r (p : P) : style <> Lnd -> node_ok n r ->
  restored n [] n1 -> resumed style sd net n1 0 n1 -> l ≡ₚ map_to_list (r_channels r) ->
  Z.of_nat (size (channels n)) < 2 ^ 31 - 1 ->
  (forall id ptr c, leads n id ptr (Ready c) -> payments_sum c
     /\ is_Some (listeners (tracker n1) !! funding_outpoint (setup c))) ->
  forall bh, exists n', restore_entries bh l {| node := n1; store := p |}
      = ({| node := n'; store := p |}, Ok tt)
    /\ restored n l.*1 n' /\ resumed style sd net n1 (length l) n'.
Proof.
  intros Hst [Hwf [_ _ _ _ Hcs] _ _] Hrs Hre Hperm Hsize Hc bh.
  assert (Hnd : NoDup l.*1) by (rewrite Hperm; apply NoDup_fst_map_to_list).
  assert (Hlen : (length l <= size (channels n))%nat).
  { rewrite <- (length_fmap fst l), <- (length_map_to_list (channels n)),
      <- (length_fmap fst (map_to_list (channels n))).
    apply submseteq_length, NoDup_submseteq; [done|]. intros id (kv & -> & Hin)%list_elem_of_fmap.
    rewrite Hperm in Hin. destruct kv as [id e]. apply elem_of_map_to_list, Hcs in Hin.
    destruct Hin as (ptr & sl & [Hl _] & _). apply list_elem_of_fmap. exists (id, ptr).
    split; [done|]. by apply elem_of_map_to_list. }
  destruct (loop_total (fun pre s => exists n', s = {| node := n'; store := p |}
    /\ restored n pre.*1 n' /\ resumed style sd net n1 (length pre) n') (restore_entry bh) l
    {| node := n1; store := p |}) as (s' & Hs' & n' & -> & Hrs' & Hre').
  - by exists n1.
  - intros pre [id e] post s1 -> (n' & -> & Hrs' & Hre').
    assert (Hin : (id, e) ∈ map_to_list (r_channels r)) by (rewrite <- Hperm; set_solver).
    apply elem_of_map_to_list, Hcs in Hin as (ptr & sl & Hl & Hid & ->).
    rewrite fmap_app, fmap_cons in Hnd. apply NoDup_app in Hnd as (_ & Hdisj & _).
    rewrite length_app in Hlen. cbn [length] in Hlen.
    destruct (restore_entry_total style sd net n n1 pre.*1 n' id ptr sl p Hst Hwf Hrs')
      with (bh := bh) as (n'' & Hrun & Hrs'' & Hre''); try done.
    + by rewrite length_fmap.
    + rewrite length_fmap. lia.
    + intros Hin. apply (Hdisj id Hin). cbn. set_solver.
    + intros c ->. by apply (Hc id ptr).
    + eexists. split; [exact Hrun|]. exists n''. rewrite fmap_app. split; [done|]. split; [done|].
      rewrite length_app, length_fmap in Hre''. by rewrite length_app.
  - by exists n'.
Qed.

(** ** The start of a restart *)

Lemma velocity_new_total {E} spec : exists c, Velocity.new (E := E) spec = Ok c.
Proof.
  unfold Velocity.new, spec_to_triple. destruct (interval_type spec); cbn; eauto.
Qed.

Lemma new_full_total {E} config al vf st km nid t : exists n,
  new_full (E := E) config al vf st km nid t = Ok n
  /\ node_config n = config /\ keys_manager n = km /\ channels n = ∅
  /\ allowlist n = list_to_set al /\ tracker n = t /\ node_id n = nid
  /\ invoices (state n) = invoices st /\ payments (state n) = payments st.
Proof.
  unfold new_full, make_velocity_control, make_fee_velocity_control.
  destruct (velocity_new_total (E := E) (global_velocity_control (factory_policy vf (cfg_network config))))
    as [vc ->].
  destruct (velocity_new_total (E := E) (fee_velocity_control (factory_policy vf (cfg_network config))))
    as [fvc ->].
  rewrite !Ok_bind. eexists. split; [reflexivity|]. done.
Qed.

(** Every invoice gets a payment. *)
Lemma payments_of_invoices (l : list PaymentHash) (m : gmap PaymentHash RoutedPayment) h : h ∈ l ->
  is_Some (foldl (fun (m : gmap PaymentHash RoutedPayment) h => <[h := RoutedPayment_new]> m) m l !! h).
Proof.
  assert (Hmono : forall (l : list PaymentHash) (m : gmap PaymentHash RoutedPayment), is_Some (m !! h) ->
    is_Some (foldl (fun (m : gmap PaymentHash RoutedPayment) h => <[h := RoutedPayment_new]> m) m l !! h)).
  { clear. induction l as [|x l IH]; intros m Hm; [done|]. cbn [foldl]. apply IH.
    destruct (decide (x = h)) as [->|Hne]; [by rewrite lookup_insert_eq|by rewrite lookup_insert_ne]. }
  revert m. induction l as [|x l IH]; intros m Hin; [by apply elem_of_nil in Hin|]. cbn [foldl].
  apply elem_of_cons in Hin as [<-|Hin]; [apply Hmono; by rewrite lookup_insert_eq|by apply IH].
Qed.

(** The id of the node is derived from the seed. *)
Definition seeded sd n : Prop := exists km,
  derived (cfg_key_derivation_style (node_config n)) sd (node_network n) km
  /\ node_id n = Keys.get_node_id km.

Lemma seeded_ident sd n n' : same_ident n n' -> seeded sd n -> seeded sd n'.
Proof.
  intros [Hc Hi] (km & Hd & Hk). exists km. unfold node_network. by rewrite Hc, Hi.
Qed.

Definition restart_config n : NodeConfig := {|
  cfg_network := node_network n;
  cfg_key_derivation_style := cfg_key_derivation_style (node_config n);
  use_checkpoints := true |}.

(** The tracker after the restart. *)
Definition restart_tracker n (vf : ValidatorFactory) : NodeTracker :=
  fast_forward (node_network n)
    (reload_tracker (tracker n) (chain_policy vf (node_network n) (node_id n))).

Lemma restore_start_total n (p : P) e sd vf st :
  is_node_id (node_id n) -> node_ok n (view p (node_id n)) -> seeded sd n ->
  ne_key_derivation_style e = KeyDerivationStyle_as_u8 (cfg_key_derivation_style (node_config n)) ->
  ne_network e = network_to_string (node_network n) ->
  exists n1 l, restore_start (node_id n) e sd vf st p = Ok (n1, l)
    /\ l ≡ₚ map_to_list (r_channels (view p (node_id n)))
    /\ channels n1 = ∅ /\ node_config n1 = restart_config n /\ node_id n1 = node_id n
    /\ allowlist n1 = allowlist n /\ tracker n1 = restart_tracker n vf
    /\ derived (cfg_key_derivation_style (node_config n)) sd (node_network n) (keys_manager n1)
    /\ Keys.rand_bytes_child_index (keys_manager n1) = 1
    /\ invoices (state n1) = invoices (ne_state e)
    /\ forall h, is_Some (invoices (state n1) !! h) -> is_Some (payments (state n1) !! h).
Proof.
  intros Hid [_ [_ _ Hal Htr _] _ Hpar] (km0 & Hd0 & Hnid) Hstyle Hnet.
  destruct (law_get_channels p (node_id n) Hid) as (l & Hl & Hperm).
  unfold restore_start. rewrite Hnet, law_network, Hstyle, style_roundtrip. step.
  rewrite (law_get_allowlist p (node_id n) Hid), Hal. step. unfold parse_list, get_allowlist.
  rewrite (parse_printed _ _ Hpar []). step. unfold new_from_persistence, make_keys_manager.
  cbn [cfg_network cfg_key_derivation_style].
  destruct (Keys.new_total (E := Status) (cfg_key_derivation_style (node_config n)) (node_network n) sd st)
    as (km & Hkm & Hrand & _). rewrite Hkm. rewrite !Ok_bind.
  pose proof (Keys.new_derived _ _ _ _ _ Hkm) as Hd.
  assert (Keys.get_node_id km = node_id n) as Hkid.
  { rewrite Hnid. unfold Keys.get_node_id. f_equal. by destruct (Keys.derived_agree _ _ _ _ _ Hd Hd0) as (_ & _ & ? & _). }
  rewrite Hkid. rewrite (law_get_tracker p (node_id n) _ _ Hid Htr), into_tracker_reload. step.
  match goal with |- context [new_full ?c ?al ?vf ?st ?km ?nid ?t] =>
    destruct (new_full_total (E := Status) c al vf st km nid t)
      as (n1 & -> & Hc & Hk & Hch & Ha & Ht & Hi & Hinv & Hpay) end.
  rewrite Ok_bind, bool_decide_true by done. cbn [assert_]. rewrite Ok_bind, Hl. step.
  eexists _, l. split; [reflexivity|]. cbn [channels node_config node_id allowlist tracker
    keys_manager state set_tracker]. split; [done|]. split; [done|]. split; [done|].
  split; [done|]. split; [rewrite Ha; cbn [app]; apply list_to_set_elements_L|].
  split; [unfold restart_tracker; by rewrite Ht|]. rewrite Hk. split; [done|]. split; [done|].
  rewrite Hinv, Hpay. cbn [invoices payments set_payments]. split; [done|].
  intros h [x Hx]. apply payments_of_invoices, list_elem_of_fmap. exists (h, x). split; [done|].
  by apply elem_of_map_to_list.
Qed.

(** ** The restart *)

Lemma restart_listeners n vf o : is_Some (listeners (tracker n) !! o) ->
  is_Some (listeners (restart_tracker n vf) !! o).
Proof.
  intros [ls Hls]. unfold restart_tracker, fast_forward.
  assert (Hr : is_Some (listeners (reload_tracker (tracker n)
    (chain_policy vf (node_network n) (node_id n))) !! o)).
  { unfold reload_tracker, Tracker.restore. cbn [listeners]. rewrite map_lookup_imap, Hls. by cbn. }
  destruct (get_latest_checkpoint _) as [[h tp]|]; [|done].
  by destruct (height _ =? 0).
Qed.

Lemma no_sync s : persist_on_initial_restore (store s) = (store s, false) ->
  maybe_sync_persister s = (s, Ok tt).
Proof.
  intros Hi. unfold maybe_sync_persister. rewrite (M_bind_step _ _ _ s false); [done|].
  unfold on_initial_restore. rewrite Hi. by destruct s.
Qed.

(** The slot that an id leads to. *)
Definition slot_at n (id : ChannelId) : option ChannelSlot :=
  channels n !! id ≫= (fun ptr => slot <$> slots n !! ptr).

Lemma slot_at_leads n id sl : slot_at n id = Some sl <-> exists ptr, leads n id ptr sl.
Proof.
  unfold slot_at, leads. destruct (channels n !! id) as [ptr|] eqn:Hc; cbn.
  - rewrite fmap_Some. split.
    + intros ([s d] & Hs & ->). exists ptr. split; [done|]. by exists d.
    + intros (p & [= <-] & d & Hd). eexists. split; [exact Hd|]. done.
  - split; [done|]. by intros (p & ? & _).
Qed.

(** What a restart keeps. *)
Record same_node n n' (vf : ValidatorFactory) : Prop := {
  sn_id : node_id n' = node_id n;
  sn_config : node_config n' = restart_config n;
  sn_allowlist : allowlist n' = allowlist n;
  sn_tracker : tracker n' = restart_tracker n vf;
  sn_channels id : option_Forall2 same_slot (slot_at n id) (slot_at n' id);
  sn_shared id id' ptr : channels n !! id = Some ptr -> channels n !! id' = Some ptr ->
    is_Some (channels n' !! id) /\ channels n' !! id = channels n' !! id';
  sn_invoices : invoices (state n) ⊆ invoices (state n');
  sn_payments h : is_Some (invoices (state n') !! h) -> is_Some (payments (state n') !! h)
}.

Lemma restored_same n l n' r : node_ok n r -> l ≡ₚ map_to_list (r_channels r) ->
  restored n l.*1 n' ->
  (forall id, option_Forall2 same_slot (slot_at n id) (slot_at n' id))
  /\ forall id id' ptr, channels n !! id = Some ptr -> channels n !! id' = Some ptr ->
       is_Some (channels n' !! id) /\ channels n' !! id = channels n' !! id'.
Proof.
  intros [Hwf [_ _ _ _ Hcs] _ _] Hperm [Hwf' Hback Hall].
  assert (Hin : forall id ptr sl, leads n id ptr sl -> slot_id sl ∈ l.*1).
  { intros id ptr sl Hl. rewrite Hperm. apply list_elem_of_fmap.
    exists (slot_id sl, slot_entry sl). split; [done|]. apply elem_of_map_to_list, Hcs.
    exists ptr, sl. split; [by eapply leads_slot_id|done]. }
  assert (Hlead : forall id ptr sl, leads n id ptr sl ->
    exists ptr' sl', leads n' id ptr' sl' /\ same_slot sl sl').
  { intros id ptr sl Hl. destruct (Hall id ptr sl Hl (Hin _ _ _ Hl)) as [ptr' Hp].
    destruct (wf_slot n' Hwf' id ptr' Hp) as [sl' Hl']. exists ptr', sl'. split; [done|].
    destruct (Hback _ _ _ Hl') as (p0 & sl0 & Hl0 & _ & Hs).
    by destruct (leads_ptr _ _ _ _ _ _ Hl0 Hl) as [_ ->]. }
  split.
  - intros id. destruct (slot_at n id) as [sl|] eqn:Hs.
    + apply slot_at_leads in Hs as [ptr Hl]. destruct (Hlead _ _ _ Hl) as (ptr' & sl' & Hl' & Hss).
      rewrite (proj2 (slot_at_leads n' id sl')) by by exists ptr'. by constructor.
    + destruct (slot_at n' id) as [sl'|] eqn:Hs'; [|constructor]. exfalso.
      apply slot_at_leads in Hs' as [ptr' Hl']. destruct (Hback _ _ _ Hl') as (p0 & sl0 & Hl0 & _).
      by rewrite (proj2 (slot_at_leads n id sl0)) in Hs by by exists p0.
  - intros id id' ptr Hid Hid'. destruct (wf_slot n Hwf id ptr Hid) as [sl Hl].
    destruct (Hlead _ _ _ Hl) as (ptr' & sl' & Hl' & Hss).
    assert (channels n' !! id = Some ptr') as -> by by destruct Hl'. split; [done|]. symmetry.
    apply (wf_ids n' Hwf' id ptr' sl' Hl'). rewrite <- (same_slot_ids _ _ Hss).
    by apply (wf_ids n Hwf id ptr sl Hl).
Qed.

(** A node that is in sync is restored, whatever validators and time it is
    restarted with. *)
Lemma good_restart s sd vf st : good view s -> seeded sd (node s) ->
  cfg_key_derivation_style (node_config (node s)) <> Lnd ->
  persist_on_initial_restore (store s) = (store s, false) ->
  Z.of_nat (size (channels (node s))) < 2 ^ 31 - 1 ->
  (forall id c, slot_at (node s) id = Some (Ready c) -> payments_sum c) ->
  exists e n', (forall E, entry_of (E := E) (record_of view s) = Ok e)
    /\ restore_node (node_id (node s)) e sd vf st (store s) = (store s, Ok n')
    /\ same_node (node s) n' vf.
Proof.
  intros [Hid Hok] Hseed Hstyle Hinit Hsize Hsum.
  destruct (entry_of_sync (node s) (record_of view s)) as (e & He & Hk & Hn & Hinv);
    [apply Hok|].
  destruct (restore_start_total (node s) (store s) e sd vf st Hid Hok Hseed Hk Hn)
    as (n1 & l & Hstart & Hperm & Hch & Hc & Hi & Hal & Htr & Hd & Hr & Hinv1 & Hpay).
  destruct (restore_entries_total (cfg_key_derivation_style (node_config (node s))) sd
    (node_network (node s)) (node s) n1 l (record_of view s) (store s))
    with (bh := height (tracker n1)) as (n' & Hrun & Hrs & Hre); try done.
  - split; [by apply empty_ok| |].
    + intros id ptr sl [Hl _]. by rewrite Hch, lookup_empty in Hl.
    + intros id ptr sl _ ?%elem_of_nil. done.
  - intros id ptr c Hl. split; [apply (Hsum id), slot_at_leads; by exists ptr|].
    rewrite Htr. apply restart_listeners. by apply (wf_listener (node s) (ok_wf _ _ Hok) id ptr).
  - exists e, n'. split; [done|]. destruct Hre as [[Hc' Hi'] Ht' Ha' _ _ Hinv' Hpay'].
    destruct (restored_same _ _ _ _ Hok Hperm Hrs) as [Hslots Hshare]. split.
    + unfold restore_node. rewrite Hstart.
      rewrite (M_bind_step _ _ _ {| node := n'; store := store s |} tt Hrun).
      by rewrite no_sync.
    + split; try congruence; try done; [by rewrite Hinv', Hinv1|]. intros h Hh. apply Hpay', Hpay. by rewrite <- Hinv'.
Qed.

Lemma create_seeded config seed vf st l (p p' : P) n :
  create_node config seed vf st l p = (p', Ok n) -> seeded seed n /\ node_config n = config.
Proof.
  intros Hop. unfold create_node in Hop. destruct (new _ _ _ _ _) as [n0|e|] eqn:Hn; [|done..].
  match type of Hop with (let '(s, r) := ?m in _) = _ => destruct m as [s [[]|e|]] eqn:Hrun end;
    [|done..]. injection Hop as <- <-.
  apply M_bind_Ok in Hrun as (s1 & [] & Hadd & Hrun).
  destruct (add_allowlist l _) as [s2 [[]|e|]] eqn:Hal; injection Hadd as <-; try done.
  apply add_allowlist_fields in Hal as (al & Hnode & _ & _). cbn [node] in Hnode.
  inv_M Hrun. rewrite Hnode. unfold new in Hn. inv_ok Hn. destruct x2 as [km nid].
  apply bind_Ok in Hx2 as (km1 & Hkm & [= -> <-]). apply Keys.new_derived in Hkm.
  apply bind_Ok in Hn as (t & _ & Hn). unfold new_full in Hn. inv_ok Hn.
  split; [|done]. by exists km.
Qed.

(** A restart gives the node back.  A node that was created, and then ran
    any sequence of successful operations (new and ready channels, channel
    operations, allowlist changes, invoices and keysends, on-chain signing,
    heartbeats, blocks), is restored from the store by [restore_node], which
    cannot fail: under every id it finds the same channel with the same
    enforcement state, the two ids of a channel still share one, and the
    allowlist, the chain tracker and all the approved invoices are back, each
    invoice with a payment. *)
Theorem restart_restores_node config seed vf st0 l p0 s0 s vf' st
  (Hcreate : create_node config seed vf st0 l p0 = (store s0, Ok (node s0)))
  (Hid : is_node_id (node_id (node s0)))
  (Hnew : r_channels (view p0 (node_id (node s0))) = ∅)
  (Hrun : rtc node_step s0 s)
  (Hstyle : cfg_key_derivation_style config <> Lnd)
  (Hinit : persist_on_initial_restore (store s) = (store s, false))
  (Hsize : Z.of_nat (size (channels (node s))) < 2 ^ 31 - 1)
  (Hsum : forall id c, slot_at (node s) id = Some (Ready c) -> payments_sum c) :
  exists e n', entry_of (E := Status) (record_of view s) = Ok e
    /\ restore_node (node_id (node s)) e seed vf' st (store s) = (store s, Ok n')
    /\ same_node (node s) n' vf'.
Proof.
  destruct (create_seeded _ _ _ _ _ _ _ _ Hcreate) as [Hseed Hc].
  pose proof (create_node_good view _ _ _ _ _ _ _ _ Hcreate Hid Hnew) as Hg.
  destruct s0 as [n0 q0]. cbn [node store] in *.
  pose proof (node_steps_ident _ _ Hrun) as Hsame. cbn [node] in *.
  destruct (good_restart s seed vf' st) as (e & n' & He & Hr & Hs);
    [by eapply node_steps_good|by eapply seeded_ident|by rewrite (proj1 Hsame), Hc|done..|by exists e, n'].
Qed.
End restart.

(** ** Witnesses *)

#[local] Existing Instances example_lib example_crypto example_keys Tracker.example_chain_lib
  example_addresses example_invoices example_checkpoints example_node_lib example_ser
  Chan.release example_key_laws example_address_laws.

Lemma example_ser_laws : SerLaws.
Proof.
  split.
  - intros [h f]. cbn. unfold example_serialize. cbn.
    rewrite !Nat2Z.id, take_app_length, drop_app_length, take_app_length, drop_app_length.
    by destruct h.
  - by intros [].
Qed.
#[local] Existing Instance example_ser_laws.

Notation ExampleState := (NSt KVJson.KVJsonPersister).

Definition example_config : NodeConfig :=
  {| cfg_network := Testnet; cfg_key_derivation_style := Native; use_checkpoints := false |}.

Lemma example_node_id_length km :
  Keys.derived (E := Status) Native example_seed Testnet km ->
  length (Keys.get_node_id km) = 33%nat.
Proof.
  intros [_ _ _ _ _ [pk Hn] _]. cbn [key_derive NativeKeyDerive node_keys] in Hn.
  unfold native_node_keys in Hn. rewrite Keys.hkdf_one, Ok_bind in Hn. cbn [unwrap
    secretkey_from_slice example_lib] in Hn.
  unfold Keys.get_node_id. apply bind_Ok in Hn as (k & Hk & [= _ <-]).
  destruct (Keys.law_hmac (hmac_sha256 [] example_seed) (as_bytes "nodeid" ++ [1])) as [Hl _].
  destruct (hmac_sha256 _ _) as [|b bs] in Hk, Hl; [done|]. injection Hk as <-.
  cbn in Hl |- *. by rewrite Hl.
Qed.

(** A new node with one allowed payee. *)
Lemma example_created : exists s0 : ExampleState,
  create_node example_config example_seed example_factory (1, 2) ["payee:ab"] KVJson.empty
  = (store s0, Ok (node s0))
  /\ is_node_id (node_id (node s0)) /\ channels (node s0) = ∅
  /\ Keys.derived (E := Status) Native example_seed Testnet (keys_manager (node s0))
  /\ Keys.rand_bytes_child_index (keys_manager (node s0)) = 1
  /\ KVJson.channel_bucket (store s0) = ∅
  /\ node_validator_factory (node s0) = example_factory.
Proof.
  destruct (Keys.new_total (E := Status) Native Testnet example_seed (1, 2)) as (km & Hkm & Hr & _).
  pose proof (Keys.new_derived _ _ _ _ _ Hkm) as Hd.
  destruct (velocity_new_total (E := Status)
    (global_velocity_control (factory_policy example_factory Testnet))) as [vc Hvc].
  destruct (velocity_new_total (E := Status)
    (fee_velocity_control (factory_policy example_factory Testnet))) as [fvc Hfvc].
  unfold create_node, new, new_full, make_velocity_control, make_fee_velocity_control,
    make_keys_manager. cbn [cfg_network cfg_key_derivation_style example_config use_checkpoints].
  rewrite Hvc, Hfvc, Hkm. rewrite !Ok_bind.
  assert (exists t, tracker_from_genesis (E := Status) Testnet
    (chain_policy example_factory Testnet (Keys.get_node_id km)) = Ok t) as [t ->]
    by (eexists; reflexivity).
  rewrite !Ok_bind. set (n0 := {| node_config := _ |}).
  set (s0 := {| node := n0; store := KVJson.empty |}).
  assert (Hal : exists al, add_allowlist ["payee:ab"] s0
    = ({| node := set_allowlist_field n0 al;
          store := (persist_update_node_allowlist KVJson.empty (node_id n0)
             ((fun a => to_string a Testnet) <$> elements al)).1 |}, Ok tt)).
  { exists ({[AllowPayee (as_bytes "ab")]} ∪ list_to_set []). unfold add_allowlist, change_allowlist.
    by rewrite (M_bind_step _ _ s0 s0 [AllowPayee (as_bytes "ab")]). }
  destruct Hal as [al Hal].
  rewrite (M_bind_step _ _ _ _ tt ltac:(rewrite Hal; reflexivity)).
  set (s1 := {| node := set_allowlist_field n0 al; store := _ |}).
  eexists {| node := _; store := _ |}.
  split; [reflexivity|]. split; [|done].
  change (length (Keys.get_node_id km) = 33%nat). by apply example_node_id_length.
Qed.

(** It gets a channel. *)
Lemma example_run : exists s0 s : ExampleState,
  create_node example_config example_seed example_factory (1, 2) ["payee:ab"] KVJson.empty
  = (store s0, Ok (node s0))
  /\ is_node_id (node_id (node s0)) /\ rtc node_step s0 s
  /\ exists stub, slot_at (node s) [7] = Some (Stub stub)
  /\ (forall id sl, slot_at (node s) id = Some sl -> sl = Stub stub)
  /\ size (channels (node s)) = 1%nat.
Proof.
  destruct example_created as (s0 & Hc & Hid & Hch & Hd & Hr & Hb & Hvf).
  destruct (keys_advance Native example_seed Testnet (keys_manager (node s0)) [7] 0)
    as (km & ks & Hks & _ & _); [done|done|lia|].
  set (stub := {| stub_keys := ks; stub_id0 := [7]; stub_blockheight := height (tracker (node s0)) |}).
  set (n1 := insert_slot (set_keys_manager (node s0) km) [[7]] {| slot := Stub stub; detached := None |}).
  set (p1 := KVJson.set_channel (store s0) (<[NodeChannelId_new (node_id (node s0)) [7]
               := stub_entry stub]> (KVJson.channel_bucket (store s0)))).
  exists s0, {| node := n1; store := p1 |}. split; [done|]. split; [done|]. split.
  - apply rtc_once, (step_new_channel _ _ (Some [7]) ([7], Some (Stub stub))).
    unfold new_channel. rewrite (M_bind_step _ _ s0 s0 (node s0)) by done.
    rewrite (M_bind_step _ _ s0 s0 (node s0, [7])) by done.
    rewrite (M_bind_step _ _ s0 s0 tt) by by destruct s0.
    unfold node_policy. rewrite Hvf, Hch, map_size_empty.
    replace (max_channels _ <=? _) with false by reflexivity. rewrite lookup_empty.
    rewrite (M_bind_step _ _ s0 s0 (km, ks)) by (unfold lift; by rewrite Hks).
    rewrite (M_bind_step _ _ s0 {| node := n1; store := store s0 |} tt) by done.
    rewrite (M_bind_step _ _ _ {| node := n1; store := p1 |} tt); [done|].
    unfold persist_expect, persist_call. cbn. unfold mbind, M_bind, KVJson.new_channel. cbn.
    rewrite bool_decide_false; [done|]. rewrite Hb, lookup_empty. by intros [].
  - exists stub. unfold slot_at, n1. cbn [node channels slots insert_slot set_channels
      set_keys_manager]. rewrite Hch. cbn [foldl]. rewrite lookup_insert_eq. cbn. rewrite lookup_insert_eq.
    split; [done|]. split; [|by rewrite map_size_insert_None, map_size_empty].
    intros id sl Hs. destruct (decide ([7] = id)) as [<-|Hne].
    + rewrite lookup_insert_eq in Hs. cbn in Hs. rewrite lookup_insert_eq in Hs. by injection Hs.
    + by rewrite lookup_insert_ne, lookup_empty in Hs.
Qed.

Lemma restart_restores_node_witness : exists (s0 s : ExampleState) e n' stub,
  create_node example_config example_seed example_factory (1, 2) ["payee:ab"] KVJson.empty
  = (store s0, Ok (node s0))
  /\ rtc node_step s0 s /\ slot_at (node s) [7] = Some (Stub stub)
  /\ restore_node (node_id (node s)) e example_seed example_factory (3, 4) (store s)
     = (store s, Ok n')
  /\ same_node (node s) n' example_factory.
Proof.
  destruct example_run as (s0 & s & Hc & Hid & Hrun & stub & Hs & Hall & Hsize).
  destruct (restart_restores_node KVSpec.view example_config example_seed example_factory (1, 2)
    ["payee:ab"] KVJson.empty s0 s example_factory (3, 4) Hc Hid) as (e & n' & _ & Hr & Hsame);
    [reflexivity|done|done|done|rewrite Hsize; lia| |].
  - intros id c Hi. by apply Hall in Hi.
  - by exists s0, s, e, n', stub.
Defined.
