(* ===== verification/NodeChannels.v ===== *)
(** * Channels of a node

    How channels come and go: a stub becomes a ready channel once, stale stubs
    are pruned, and signing a funding transaction makes the chain tracker watch
    for double spends. *)

From S2P Require Import Prelude Velocity Policy Order Extern Crypto Setup Tx Keys Allowlist Script.
From S2P Require Import Secrets Enforcement Validator NodeState ChannelOps Monitor Tracker Persist.
From S2P Require Import PersistSpec Node NodeInv NodeRestart.

Import NodeOps.

Section channels.
Context `{L : Lib, CrL : CryptoLib, !KeyLib, CL : ChainLib, AL : AddressLib, IL : InvoiceLib}.
Context `{CkL : CheckpointLib, NL : NodeLib, SL : SerLib, Prof : Profile}.
Context {P : Type} `{!Persist P}.
Implicit Types (n : Node) (s : NSt P).

(** ** Pruning *)

(** A stub that is older than [CHANNEL_STUB_PRUNE_BLOCKS] blocks at [h]. *)
Definition stale n (h : Z) (id : ChannelId) : bool :=
  match slot_at n id with
  | Some (Stub stub) => CHANNEL_STUB_PRUNE_BLOCKS <? saturating_sub32 h (stub_blockheight stub)
  | _ => false
  end.

Lemma prunable_stale n h id ptr : channels n !! id = Some ptr ->
  prunable_stub n h (id, ptr) = stale n h id.
Proof.
  intros Hid. unfold prunable_stub, stale, slot_at. rewrite Hid. cbn.
  by destruct (slots n !! ptr) as [[[stub|c] d]|].
Qed.

Lemma prunable_ids n h id :
  id ∈ fst <$> base.filter (fun ip => prunable_stub n h ip = true) (channel_slots n)
  <-> stale n h id = true.
Proof.
  rewrite list_elem_of_fmap. split.
  - intros ([i ptr] & -> & [Hp Hin%channel_slots_elem]%list_elem_of_filter).
    cbn [fst]. by rewrite <- (prunable_stale n h i ptr).
  - intros Hs. destruct (channels n !! id) as [ptr|] eqn:Hid.
    + exists (id, ptr). split; [done|]. apply list_elem_of_filter.
      rewrite (prunable_stale n h id ptr) by done. split; [done|]. by apply channel_slots_elem.
    + unfold stale, slot_at in Hs. by rewrite Hid in Hs.
Qed.

(** C35: pruning makes progress and is exact.  With a persister that deletes
    what it is told to, [prune_channels], which every heartbeat runs, succeeds;
    afterwards the stubs that are more than six blocks old are gone, and every
    other id leads to the channel it led to before. *)
Theorem prune_channels_exact s h
  (Hdelete : forall p nid id, exists p', persist_delete_channel (P := P) p nid id = (p', Ok tt)) :
  exists s', prune_channels h s = (s', Ok tt)
    /\ forall id, slot_at (node s') id = if stale (node s) h id then None else slot_at (node s) id.
Proof.
  unfold prune_channels. rewrite (M_bind_step _ _ s s (node s)) by done.
  set (l := fst <$> _).
  destruct (loop_total (fun pre s1 => slots (node s1) = slots (node s)
    /\ forall id, channels (node s1) !! id = if decide (id ∈ pre) then None else channels (node s) !! id)
    (fun channel_id0 => self ← get_node;
       put_node (set_channels self (delete channel_id0 (channels self)) (slots self));;
       persist_expect (fun p => persist_delete_channel p (node_id self) channel_id0)) l s)
    as (s' & Hs' & Hsl & Hch).
  - split; [done|]. intros id. by rewrite decide_False by apply not_elem_of_nil.
  - intros pre id post s1 _ [Hsl Hch].
    destruct (Hdelete (store s1) (node_id (node s1)) id) as [p' Hp].
    exists {| node := set_channels (node s1) (delete id (channels (node s1))) (slots (node s1));
              store := p' |}.
    split; [|split; [done|]].
    + rewrite (M_bind_step _ _ s1 s1 (node s1)) by done.
      rewrite (M_bind_step _ _ s1 {| node := set_channels (node s1) (delete id (channels (node s1)))
        (slots (node s1)); store := store s1 |} tt) by done.
      unfold persist_expect, persist_call, mbind, M_bind. cbn [store node]. by rewrite Hp.
    + intros i. cbn [node channels set_channels]. destruct (decide (id = i)) as [->|Hne].
      * rewrite lookup_delete_eq, decide_True; [done|]. set_solver.
      * rewrite lookup_delete_ne, Hch by done. destruct (decide (i ∈ pre)) as [Hi|Hi].
        -- rewrite decide_True; [done|]. set_solver.
        -- rewrite decide_False; [done|]. set_solver.
  - exists s'. split; [exact Hs'|]. intros id. unfold slot_at at 1. rewrite Hch, Hsl.
    pose proof (prunable_ids (node s) h id) as Hl. fold l in Hl.
    destruct (decide (id ∈ l)) as [Hin|Hin]; rewrite Hl in Hin.
    + by rewrite Hin.
    + by destruct (stale (node s) h id).
Qed.

(** ** Readying a channel *)

Lemma ready_channel_slot s cid opt stp path s' c : ready_channel cid opt stp path s = (s', Ok c) ->
  setup c = stp /\ exists ptr d, channels (node s') !! cid = Some ptr
    /\ slots (node s') !! ptr = Some {| slot := Ready c; detached := d |}.
Proof.
  intros Hop. unfold ready_channel in Hop. inv_M Hop.
  apply get_slot_Ok in Hx0 as [-> Hsl]. destruct x0 as [[stub|c0] d]; cbn [slot] in Hop.
  - inv_M Hop. split; [done|]. eexists (fresh_slot _), None.
    cbn [node channels slots set_tracker insert_slot set_channels]. rewrite lookup_insert_eq.
    split; [|reflexivity]. rewrite insert_ids_lookup, decide_True; [done|].
    case_bool_decide as Hd; [set_solver|]. apply list_elem_of_singleton.
    by destruct (decide (cid = default cid opt)).
  - case_bool_decide as Hd; inv_M Hop. split; [done|]. eauto.
Qed.

(** A channel is set up once.  When [ready_channel] succeeds, the id leads
    to the returned channel, which has the requested setup.  From then on the
    same request returns the same channel and changes nothing, and a request
    with any other setup is refused without any effect. *)
Theorem ready_channel_once s cid opt stp path s' c
  (Hop : ready_channel cid opt stp path s = (s', Ok c)) :
  setup c = stp /\ slot_at (node s') cid = Some (Ready c)
  /\ (forall opt' path', ready_channel cid opt' stp path' s' = (s', Ok c))
  /\ (forall opt' stp' path', stp' <> stp -> ready_channel cid opt' stp' path' s'
        = (s', Err (invalid_argument "channel already ready with different setup: {}"))).
Proof.
  destruct (ready_channel_slot _ _ _ _ _ _ _ Hop) as (Hset & ptr & d & Hc & Hs).
  assert (Hread : forall opt' stp' path', ready_channel cid opt' stp' path' s'
    = (if bool_decide (setup c <> stp')
       then lift (Err (invalid_argument "channel already ready with different setup: {}"))
       else mret c) s').
  { intros opt' stp' path'. unfold ready_channel.
    rewrite (M_bind_step _ _ s' s' (node s')) by done. rewrite Hc.
    rewrite (M_bind_step _ _ s' s' ptr) by done.
    rewrite (M_bind_step _ _ s' s' {| slot := Ready c; detached := d |}); [done|].
    unfold get_slot. rewrite (M_bind_step _ _ s' s' (node s')) by done. by rewrite Hs. }
  split; [done|]. split; [unfold slot_at; rewrite Hc; cbn; by rewrite Hs|]. split.
  - intros opt' path'. rewrite Hread, bool_decide_false; [done|]. intros Hn. by apply Hn.
  - intros opt' stp' path' Hne. rewrite Hread, bool_decide_true; [done|]. congruence.
Qed.

(** ** Funding transactions *)

Notation inputs tx := (list_to_set (C := gset OutPoint) (previous_output <$> input tx)).

(** The tracker looks for [ws] on behalf of the channel funded by [o]; with
    [att] its monitor takes a spend of one of them for a double spend. *)
Definition watched (att : Prop) n (o : OutPoint) (ws : gset OutPoint) : Prop :=
  exists m ls, listeners (tracker n) !! o = Some (m, ls) /\ ws ⊆ watches ls
    /\ (att -> ws ⊆ Monitor.funding_inputs (Tracker.cm_state m)).

(** Slots stay attached. *)
Definition attached n (ptr : nat) : Prop := detached <$> slots n !! ptr = Some None.

Lemma funding_signed_total {E} tx n ptr chan d :
  slots n !! ptr = Some {| slot := Ready chan; detached := d |} ->
  is_Some (listeners (tracker n) !! funding_outpoint (setup chan)) ->
  exists n', funding_signed (E := E) tx n (Some ptr) = Ok n'
    /\ watched (d = None) n' (funding_outpoint (setup chan)) (inputs tx)
    /\ (forall att o ws, watched att n o ws -> watched att n' o ws)
    /\ (forall p, attached n p -> attached n' p).
Proof.
  intros Hs [[m ls] Hl]. cbn [funding_signed]. rewrite Hs. cbn [unwrap]. rewrite Ok_bind.
  cbn [slot detached]. unfold Tracker.add_listener_watches. rewrite Hl. cbn [unwrap unwrap_ok]. rewrite !Ok_bind. cbn [unwrap_ok].
  destruct d as [ms|].
  - rewrite Ok_bind.
    eexists. split; [reflexivity|]. split; [|split].
    + eexists m, _. cbn. rewrite lookup_insert_eq. split; [done|]. cbn [watches]. set_solver.
    + intros att o ws (m' & ls' & Hl' & Hw & Ha). unfold watched. cbn.
      destruct (decide (funding_outpoint (setup chan) = o)) as [<-|Hne].
      * rewrite Hl in Hl'. injection Hl' as <- <-. rewrite lookup_insert_eq. eexists m, _.
        split; [done|]. cbn [watches]. split; [set_solver|done].
      * rewrite lookup_insert_ne by done. by exists m', ls'.
    + intros p Hp. unfold attached in *. cbn. destruct (decide (ptr = p)) as [<-|Hne].
      * by rewrite Hs in Hp.
      * by rewrite lookup_insert_ne.
  - rewrite Ok_bind. cbn. rewrite lookup_insert_eq. cbn.
    eexists. split; [reflexivity|]. split; [|split; [|done]].
    + eexists _, _. cbn. rewrite lookup_insert_eq. split; [done|]. cbn. set_solver.
    + intros att o ws (m' & ls' & Hl' & Hw & Ha). unfold watched. cbn.
      destruct (decide (funding_outpoint (setup chan) = o)) as [<-|Hne].
      * rewrite Hl in Hl'. injection Hl' as <- <-. rewrite lookup_insert_eq. eexists _, _.
        split; [done|]. cbn. split; [set_solver|]. intros Hat. specialize (Ha Hat). set_solver.
      * rewrite !lookup_insert_ne by done. by exists m', ls'.
Qed.

Lemma funded_slots_elem n tx ptr : Some ptr ∈ funded_slots n tx ->
  exists id chan, leads n id ptr (Ready chan).
Proof.
  intros (ndx & Hf & _)%list_elem_of_fmap. unfold find_channel_with_funding_outpoint in Hf.
  destruct (List.find _ _) as [[id ptr']|] eqn:He; [|done]. injection Hf as ->.
  apply List.find_some in He as [Hin Hs]. apply list_elem_of_In, channel_slots_elem in Hin.
  unfold slot_funds in Hs. cbn [snd] in Hs.
  destruct (slots n !! ptr') as [[[stub|chan] d]|] eqn:Hp; [done| |done].
  exists id, chan. split; eauto.
Qed.

(** The channel of an output is found, or another one with the same outpoint. *)
Lemma find_funded n o id chan : slot_at n id = Some (Ready chan) ->
  funding_outpoint (setup chan) = o -> exists id' ptr chan',
    find_channel_with_funding_outpoint n o = Some ptr /\ leads n id' ptr (Ready chan')
    /\ funding_outpoint (setup chan') = o.
Proof.
  intros [ptr [Hid [d Hd]]]%slot_at_leads Ho. unfold find_channel_with_funding_outpoint.
  destruct (List.find _ _) as [[id' ptr']|] eqn:He.
  - apply List.find_some in He as [Hin Hs]. apply list_elem_of_In, channel_slots_elem in Hin.
    unfold slot_funds in Hs. cbn [snd] in Hs.
    destruct (slots n !! ptr') as [[[stub|chan'] d']|] eqn:Hp; [done| |done].
    exists id', ptr', chan'. split; [done|]. split; [|by apply bool_decide_eq_true in Hs].
    split; eauto.
  - pose proof (List.find_none _ _ He (id, ptr)) as Hn. unfold slot_funds in Hn. cbn [snd] in Hn.
    rewrite Hd, Ho, bool_decide_true in Hn by done. exfalso.
    assert (true = false) by (apply Hn, list_elem_of_In; by apply channel_slots_elem). done.
Qed.

(** The bookkeeping of a signed transaction. *)
Lemma funding_signed_all {E} tx n : wf_node n ->
  exists n', foldM (funding_signed (E := E) tx) n (funded_slots n tx) = Ok n'
    /\ forall ptr id chan, Some ptr ∈ funded_slots n tx -> leads n id ptr (Ready chan) ->
       watched (attached n ptr) n' (funding_outpoint (setup chan)) (inputs tx).
Proof.
  intros Hwf.
  destruct (foldM_total (fun pre n1 => tracker_frame n n1
    /\ (forall p, attached n p -> attached n1 p)
    /\ forall ptr id chan, Some ptr ∈ pre -> leads n id ptr (Ready chan) ->
       watched (attached n ptr) n1 (funding_outpoint (setup chan)) (inputs tx))
    (funding_signed (E := E) tx) (funded_slots n tx) n) as (n' & Hf & _ & _ & Hw);
    [|intros pre [ptr|] post n1 Hl (Hfr & Hat & Hw)|by exists n'].
  - split; [done|]. split; [done|]. set_solver.
  - destruct (funded_slots_elem n tx ptr) as (id & chan & Hlead); [rewrite Hl; set_solver|].
    destruct (wf_frame n n1) as [Hwf1 Hiff]; [by destruct Hfr..|done|].
    pose proof (proj2 (Hiff id ptr (Ready chan)) Hlead) as Hlead1.
    pose proof (wf_listener n1 Hwf1 _ _ _ Hlead1) as Hlis. destruct Hlead1 as [_ [d Hd]].
    destruct (funding_signed_total (E := E) tx n1 ptr chan d Hd Hlis) as (n2 & Hn2 & Hnew & Hkeep & Hatt).
    exists n2. split; [done|]. split; [etrans; [done|by eapply funding_signed_frame]|].
    split; [auto|]. intros p i ch [Hin|Hin%list_elem_of_singleton]%elem_of_app Hl2.
    + apply Hkeep. by apply (Hw p i ch).
    + injection Hin as ->. assert (ch = chan) as -> by
        (pose proof (leads_fun _ _ _ _ _ _ Hl2 Hlead) as Heq; by injection Heq).
      destruct Hnew as (m & ls & Hm & Hws & Ha). exists m, ls. split; [done|]. split; [done|].
      intros Hap%Hat. unfold attached in Hap. rewrite Hd in Hap. cbn in Hap. apply Ha. by injection Hap.
  - exists n1. split; [done|]. split; [done|]. split; [done|].
    intros p i ch [Hin|Hin%list_elem_of_singleton]%elem_of_app Hl2; [by eapply Hw|done].
Qed.

(** C28: signing a funding transaction arms the double-spend watch.  On a
    wellformed node the bookkeeping after the signatures cannot panic, a
    successful [unchecked_sign_onchain_tx] leaves the node in the state it
    computes, and there, for every ready channel that an output of the
    transaction funds, the tracker watches every input of the transaction; the
    monitor of the channel counts their spends as double spends, if no channel
    with that funding outpoint lost its listener to a later one with the same
    outpoint. *)
Theorem sign_onchain_watches_inputs s tx (Hwf : wf_node (node s))
  (Hout : Z.of_nat (length (output tx)) <= 2 ^ 32) :
  exists n', foldM (funding_signed (E := Status) tx) (node s) (funded_slots (node s) tx) = Ok n'
  /\ (forall ipaths vals types ucks s' w,
        unchecked_sign_onchain_tx tx ipaths vals types ucks s = (s', Ok w) -> node s' = n')
  /\ forall id chan ndx, slot_at (node s) id = Some (Ready chan) -> (ndx < length (output tx))%nat ->
     funding_outpoint (setup chan) = {| op_txid := txid tx; vout := Z.of_nat ndx |} ->
     watched (forall ptr chan' d, slots (node s) !! ptr = Some {| slot := Ready chan'; detached := d |} ->
                funding_outpoint (setup chan') = funding_outpoint (setup chan) -> d = None) n'
       (funding_outpoint (setup chan)) (list_to_set (previous_output <$> input tx)).
Proof.
  destruct (funding_signed_all (E := Status) tx (node s) Hwf) as (n' & Hf & Hw).
  exists n'. split; [done|]. split.
  { intros ipaths vals types ucks s' w Hop. unfold unchecked_sign_onchain_tx in Hop. inv_M Hop.
    match goal with Hx : foldM _ _ (funded_slots _ _) = _ |- _ => rewrite Hf in Hx; by injection Hx end. }
  intros id chan ndx Hs Hn Ho.
  destruct (find_funded (node s) _ id chan Hs Ho) as (id' & ptr & chan' & Hfind & Hl & Ho').
  destruct (Hw ptr id' chan') as (m & ls & Hm & Hws & Ha); [|done|].
  - apply list_elem_of_fmap. exists ndx. split; [|apply elem_of_seq; lia].
    unfold as_u. rewrite Z.mod_small by lia. done.
  - exists m, ls. rewrite Ho, <- Ho'. split; [done|]. split; [done|]. intros Hall. apply Ha.
    destruct Hl as [_ [d Hd]]. unfold attached. rewrite Hd. cbn. f_equal.
    apply (Hall ptr chan' d Hd). congruence.
Qed.
End channels.

(** ** Witnesses *)

#[local] Existing Instances example_lib example_crypto example_keys Tracker.example_chain_lib
  example_addresses example_invoices example_checkpoints example_node_lib example_ser Chan.release.

(** A node with a stub, and the transaction that will fund the channel. *)
Definition example_stub_node : Node :=
  insert_slot example_node [[7]]
    {| slot := Stub {| stub_keys := 5 : @InMemorySigner example_lib; stub_id0 := [7];
                       stub_blockheight := 0 |}; detached := None |}.

Definition example_stub_store : KVJson.KVJsonPersister :=
  (KVJson.new_channel KVJson.empty (node_id example_node)
     {| stub_keys := 5 : @InMemorySigner example_lib; stub_id0 := [7]; stub_blockheight := 0 |}).1.

Definition example_stub_state : NSt KVJson.KVJsonPersister :=
  {| node := example_stub_node; store := example_stub_store |}.

Definition example_channel_tx : Transaction := {|
  version := 2; lock_time := 0;
  input := [{| previous_output := {| op_txid := [6]; vout := 1 |}; script_sig := []; sequence := 0;
               witness := [] |}];
  output := [{| out_value := 1000000; script_pubkey := [0; 32] |}] |}.

Definition example_channel_setup : ChannelSetup := {|
  is_outbound := true; channel_value_sat := 1000000; push_value_msat := 0;
  funding_outpoint := {| op_txid := txid example_channel_tx; vout := 0 |};
  holder_selected_contest_delay := 144; holder_shutdown_script := None;
  counterparty_points := example_signer_keys 101;
  counterparty_selected_contest_delay := 144; counterparty_shutdown_script := None;
  commitment_type := StaticRemoteKey |}.

(** The stub is ten blocks old. *)
Lemma prune_channels_exact_witness : exists s' : NSt KVJson.KVJsonPersister,
  prune_channels 10 example_stub_state = (s', Ok tt)
  /\ slot_at (node example_stub_state) [7] <> None /\ slot_at (node s') [7] = None.
Proof.
  destruct (prune_channels_exact example_stub_state 10) as (s' & Hop & Hs).
  - intros p nid id. by eexists.
  - exists s'. split; [done|]. split; [by vm_compute|]. rewrite Hs. by vm_compute.
Defined.

(** It becomes a channel with a permanent id. *)
Lemma ready_channel_once_witness : exists (s' : NSt KVJson.KVJsonPersister) c,
  ready_channel [7] (Some [8]) example_channel_setup [] example_stub_state = (s', Ok c)
  /\ ready_channel [7] None example_channel_setup [] s' = (s', Ok c).
Proof.
  destruct (is_ok_pair (ready_channel [7] (Some [8]) example_channel_setup [] example_stub_state))
    as (s' & c & Hop); [by vm_compute|].
  exists s', c. split; [exact Hop|].
  apply (ready_channel_once example_stub_state [7] (Some [8]) example_channel_setup [] s' c Hop).
Defined.

(** The channel of [example_channel_tx], with its listener. *)
Definition example_ready : Channel := {|
  keys := 5 : @InMemorySigner example_lib; enforcement_state := EnforcementState_new 0;
  setup := example_channel_setup; id0 := [7]; chan_id := None |}.

Definition example_ready_node : Node :=
  set_tracker
    (set_channels example_node {[ [7] := 0%nat ]}
       {[ 0%nat := {| slot := Ready example_ready; detached := None |} ]})
    (Tracker.add_listener (tracker example_node)
       {| Tracker.cm_funding_outpoint := funding_outpoint example_channel_setup;
          Tracker.cm_state := Monitor.new 7 |} {[ txid example_channel_tx ]}).

Lemma example_ready_wf : wf_node example_ready_node.
Proof.
  split; unfold leads; cbn [channels slots example_ready_node set_tracker set_channels].
  - intros id ptr [<- <-]%lookup_singleton_Some. exists (Ready example_ready).
    rewrite !lookup_singleton_eq. by eauto.
  - intros id ptr sl [[<- <-]%lookup_singleton_Some [d [_ [= <- <-]]%lookup_singleton_Some]] i.
    rewrite lookup_singleton_Some. cbn. set_solver.
  - intros id ptr chan [_ [d [_ [= <- <-]]%lookup_singleton_Some]]. by eexists.
Qed.

Lemma sign_onchain_watches_inputs_witness : exists n',
  foldM (funding_signed (E := Status) example_channel_tx) example_ready_node
    (funded_slots example_ready_node example_channel_tx) = Ok n'
  /\ watched True n' (funding_outpoint example_channel_setup) {[ {| op_txid := [6]; vout := 1 |} ]}.
Proof.
  destruct (sign_onchain_watches_inputs
    {| node := example_ready_node; store := KVJson.empty |} example_channel_tx example_ready_wf)
    as (n' & Hf & _ & Hw); [cbn; lia|].
  exists n'. split; [exact Hf|].
  destruct (Hw [7] example_ready 0%nat) as (m & ls & Hm & Hws & Ha); [reflexivity|cbn; lia|reflexivity|].
  exists m, ls. split; [exact Hm|]. split; [set_solver|]. intros _. 
  apply (elem_of_subseteq_singleton (C := gset OutPoint)). apply Ha; [|cbn; set_solver].
  cbn [node slots example_ready_node set_tracker set_channels].
  by intros ptr chan' d [_ [= _ <-]]%lookup_singleton_Some.
Defined.
