(* ===== verification/Approver.v ===== *)
(** * Payment approval (vls-protocol-signer/src/approver.rs)

    The trait [Approve] is a class over the approver's state: its three
    methods are the questions put to the user or to an automatic rule, and its
    default methods, which record an approved payment in the node, are the
    definitions [handle_proposed_invoice], [handle_proposed_keysend] and
    [handle_proposed_onchain].  A reading of a clock is an argument. *)

From S2P Require Import Prelude Velocity Policy Order Extern Crypto Setup Tx Keys Allowlist Script.
From S2P Require Import Secrets Enforcement Validator SimpleValidator NodeState ChannelOps Monitor.
From S2P Require Import Tracker Persist PersistSpec Node NodeInv.

Import NodeOps.

(** ** The trait *)

Class Approve `{IL : InvoiceLib} (A : Type) := {
  approve_invoice : Z -> AnyInvoice -> A -> outcome Status (A * bool);
  approve_keysend : Z -> PaymentHash -> Z -> A -> outcome Status (A * bool);
  approve_onchain : Transaction -> list Z -> list nat -> A -> outcome Status (A * bool)
}.

Section trait.
Context `{L : Lib, CrL : CryptoLib, !KeyLib, CL : ChainLib, AL : AddressLib, IL : InvoiceLib}.
Context `{CkL : CheckpointLib, NL : NodeLib, SL : SerLib, Prof : Profile}.
Context {P : Type} `{!Persist P} {A : Type} `{!Approve A}.

(** A question to the approver, and what the node does when it is approved. *)
Definition on_approval (ask : A -> outcome Status (A * bool)) (yes : M P bool) (a : A) (s : NSt P)
  : A * NSt P * outcome Status bool :=
  match ask a with
  | Ok (a', true) => (a', (yes s).1, (yes s).2)
  | Ok (a', false) => (a', s, Ok false)
  | Err e => (a, s, Err e)
  | Panic => (a, s, Panic)
  end.

(** [now_a] is the approver's clock, [now] the node's. *)
Definition handle_proposed_invoice (tw : bool) (invoice : AnyInvoice) (now_a now : Z)
  (a : A) (s : NSt P) : A * NSt P * outcome Status bool :=
  let '(payment_hash, _, invoice_hash) := payment_state_from_invoice invoice in
  match has_payment (node s) payment_hash invoice_hash with
  | Ok true => (a, s, Ok true)
  | Ok false =>
      if allowlist_contains_payee (node s) (inv_payee_pub_key invoice) then
        (a, (add_invoice tw invoice now s).1, (add_invoice tw invoice now s).2)
      else on_approval (approve_invoice now_a invoice) (add_invoice tw invoice now) a s
  | Err e => (a, s, Err e)
  | Panic => (a, s, Panic)
  end.

Definition handle_proposed_keysend (payee : PublicKey) (payment_hash : PaymentHash)
  (amount_msat now_a now now' now'' : Z) (a : A) (s : NSt P) : A * NSt P * outcome Status bool :=
  let '(_, invoice_hash) := payment_state_from_keysend payee payment_hash amount_msat now in
  match has_payment (node s) payment_hash invoice_hash with
  | Ok true => (a, s, Ok true)
  | Ok false => on_approval (approve_keysend now_a payment_hash amount_msat)
                  (add_keysend payee payment_hash amount_msat now' now'') a s
  | Err e => (a, s, Err e)
  | Panic => (a, s, Panic)
  end.

Definition handle_proposed_onchain (tx : Transaction) (input_txs : list Transaction)
  (values_sat : list Z) (spendtypes : list SpendType) (uniclosekeys : list (option (SecretKey * list bytes)))
  (opaths : list path) (now : Z) (a : A) (s : NSt P) : A * NSt P * outcome Status bool :=
  let '(n, check_result) :=
    check_onchain_tx (node s) tx input_txs values_sat spendtypes uniclosekeys opaths now in
  let s := {| node := n; store := store s |} in
  match check_result with
  | Ok tt => (a, s, Ok true)
  | Err ve =>
      match kind ve with
      | UnknownDestinations _ indices =>
          on_approval (approve_onchain tx values_sat indices) (mret true) a s
      | _ => (a, s, Err (failed_precondition (into_string ve)))
      end
  | Panic => (a, s, Panic)
  end.
End trait.

(** ** The approvers *)

Section approvers.
Context `{IL : InvoiceLib, Prof : Profile}.

Inductive PositiveApprover := Positive.
#[export] Instance positive_approve : Approve PositiveApprover := {|
  approve_invoice _ _ a := Ok (a, true);
  approve_keysend _ _ _ a := Ok (a, true);
  approve_onchain _ _ _ a := Ok (a, true) |}.

(** As the positive one, with a warning in the log. *)
Inductive WarningPositiveApprover := WarningPositive.
#[export] Instance warning_positive_approve : Approve WarningPositiveApprover := {|
  approve_invoice _ _ a := Ok (a, true);
  approve_keysend _ _ _ a := Ok (a, true);
  approve_onchain _ _ _ a := Ok (a, true) |}.

Inductive NegativeApprover := Negative.
#[export] Instance negative_approve : Approve NegativeApprover := {|
  approve_invoice _ _ a := Ok (a, false);
  approve_keysend _ _ _ a := Ok (a, false);
  approve_onchain _ _ _ a := Ok (a, false) |}.

Record VelocityApprover (D : Type) := { control : VelocityControl; va_delegate : D }.
#[global] Arguments control {D}.
#[global] Arguments va_delegate {D}.

Definition set_control {D} (a : VelocityApprover D) (c : VelocityControl) : VelocityApprover D :=
  {| control := c; va_delegate := va_delegate a |}.

(** The common part of [approve_invoice] and [approve_keysend]. *)
Definition velocity_approve {D} (now amount_msat : Z) (ask : D -> outcome Status (D * bool))
  (a : VelocityApprover D) : outcome Status (VelocityApprover D * bool) :=
  '(c, success) ← Velocity.insert (control a) (now / secs 1) amount_msat;
  if success : bool then Ok (set_control a c, true)
  else
    '(d, success) ← ask (va_delegate a);
    Ok ({| control := if success : bool then Velocity.clear c else c; va_delegate := d |}, success).

#[export] Instance velocity_approver {D} `{!Approve D} : Approve (VelocityApprover D) := {|
  approve_invoice now i :=
    velocity_approve now (inv_amount_milli_satoshis i) (approve_invoice now i);
  approve_keysend now h amount := velocity_approve now amount (approve_keysend now h amount);
  approve_onchain tx values unknown a :=
    '(d, b) ← approve_onchain tx values unknown (va_delegate a);
    Ok ({| control := control a; va_delegate := d |}, b) |}.

Inductive Approval :=
| AInvoice (i : AnyInvoice)
| AKeySend (h : PaymentHash) (amount_msat : Z)
| AOnchain (tx : Transaction).

Record MemoApprover (D : Type) := { ma_delegate : D; approvals : list Approval }.
#[global] Arguments ma_delegate {D}.
#[global] Arguments approvals {D}.

Definition memo_new {D} (d : D) : MemoApprover D := {| ma_delegate := d; approvals := [] |}.

Definition memo_approve {D} (a : MemoApprover D) (l : list Approval) : MemoApprover D :=
  {| ma_delegate := ma_delegate a; approvals := l |}.

(** The loop over [approvals.drain(..)]: dropping the iterator empties the
    vector, also when the loop returns early. *)
Definition memo_drain {D} (matches : Approval -> bool) (ask : D -> outcome Status (D * bool))
  (a : MemoApprover D) : outcome Status (MemoApprover D * bool) :=
  if existsb matches (approvals a) then Ok (memo_new (ma_delegate a), true)
  else '(d, b) ← ask (ma_delegate a); Ok (memo_new d, b).

Definition invoice_memo (i : AnyInvoice) (ap : Approval) : bool :=
  match ap with
  | AInvoice i' => bool_decide (inv_invoice_hash i' = inv_invoice_hash i)
  | _ => false
  end.

Definition keysend_memo (h : PaymentHash) (amount_msat : Z) (ap : Approval) : bool :=
  match ap with
  | AKeySend h' amount' => bool_decide (h' = h) && (amount' =? amount_msat)
  | _ => false
  end.

Definition onchain_memo (tx : Transaction) (ap : Approval) : bool :=
  match ap with AOnchain tx' => bool_decide (tx' = tx) | _ => false end.

#[export] Instance memo_approver {D} `{!Approve D} : Approve (MemoApprover D) := {|
  approve_invoice now i := memo_drain (invoice_memo i) (approve_invoice now i);
  approve_keysend now h amount :=
    memo_drain (keysend_memo h amount) (approve_keysend now h amount);
  approve_onchain tx values unknown :=
    memo_drain (onchain_memo tx) (approve_onchain tx values unknown) |}.
End approvers.

(** ** What a node tracks *)

Section tracking.
Context `{L : Lib, CrL : CryptoLib, !KeyLib, CL : ChainLib, AL : AddressLib, IL : InvoiceLib}.
Context `{CkL : CheckpointLib, NL : NodeLib, SL : SerLib, Prof : Profile}.
Context {P : Type} `{!Persist P} {A : Type} `{!Approve A}.
Implicit Types (n : Node) (s : NSt P) (a : A).

Notation invoices_of s := (invoices (state (node s))).

(** The answer to a request to pay [ps] under the payment hash [h].  A payment
    that is tracked already is told by its invoice hash only. *)
Inductive answered s s' (h : PaymentHash) (ps : PaymentState) : bool -> Prop :=
| answered_known ps0 : invoices_of s !! h = Some ps0 -> invoice_hash ps0 = invoice_hash ps ->
    invoices_of s' = invoices_of s -> answered s s' h ps true
| answered_new : invoices_of s !! h = None -> invoices_of s' = <[h := ps]> (invoices_of s) ->
    answered s s' h ps true
| answered_no : invoices_of s' = invoices_of s -> answered s s' h ps false.

Lemma track_payment_answered s msg h ps ih now s' b : invoice_hash ps = ih ->
  track_payment msg h ps ih now s = (s', Ok b) -> answered s s' h ps b.
Proof.
  intros Hih Hop. unfold track_payment in Hop. inv_M Hop. destruct (_ <=? _); [by inv_M Hop|].
  destruct (invoices _ !! h) as [ps'|] eqn:Hps.
  { destruct (bool_decide _) eqn:Hd; inv_M Hop. apply bool_decide_eq_true in Hd.
    eapply answered_known; [done|congruence|done]. }
  inv_M Hop. destruct x as [vc ok].
  destruct ok; cbn [negb] in Hop; inv_M Hop; [by apply answered_new|by apply answered_no].
Qed.

Lemma add_invoice_answered s tw i now s' b : add_invoice tw i now s = (s', Ok b) ->
  answered s s' (inv_payment_hash i) (payment_state_from_invoice i).1.2 b.
Proof.
  intros Hop. unfold add_invoice in Hop. inv_M Hop. unfold payment_state_from_invoice in Hop.
  cbv beta iota in Hop. by eapply track_payment_answered in Hop.
Qed.

Lemma add_keysend_answered s payee h v now now' s' b : add_keysend payee h v now now' s = (s', Ok b) ->
  answered s s' h (payment_state_from_keysend payee h v now).1 b.
Proof. by apply track_payment_answered. Qed.

Lemma has_payment_answered s h ps : has_payment (node s) h (invoice_hash ps) = Ok true ->
  answered s s h ps true.
Proof.
  unfold has_payment. destruct (invoices _ !! h) as [ps0|] eqn:Hps; [|done].
  destruct (bool_decide _) eqn:Hd; [|done]. apply bool_decide_eq_true in Hd. intros _. by eapply answered_known.
Qed.

(** The approver has the last word on a payment that it is asked about. *)
Lemma on_approval_answered ask (yes : M P bool) a s a' s' b h ps :
  (forall s'' b', yes s = (s'', Ok b') -> answered s s'' h ps b') ->
  on_approval ask yes a s = (a', s', Ok b) ->
  answered s s' h ps b /\ (invoices_of s' <> invoices_of s -> ask a = Ok (a', true)).
Proof.
  intros Hyes. unfold on_approval. destruct (ask a) as [[a1 []]|e|]; [| |done..].
  - destruct (yes s) as [s1 r]. intros [= <- <- ->]. split; [by apply Hyes|done].
  - intros [= <- <- <-]. split; [by apply answered_no|done].
Qed.

(** C26: nothing is tracked without approval, whatever the approver.  When the
    signer answers a proposed invoice or keysend with yes and the node had no
    payment of that hash, it now tracks one more payment, which is exactly the
    proposed one (amount, payee, hash and times).  When it had one, the answer
    is yes only if the invoice hash is the same (that of a keysend is the
    payment hash, so neither the amount nor the payee is compared), and nothing
    changes.  When the answer is no, nothing changes.  A payment that becomes
    tracked was approved by the approver, unless it is an invoice of an
    allowlisted payee. *)
Theorem approval_required a a' s s' b :
  (forall tw i now_a now, handle_proposed_invoice tw i now_a now a s = (a', s', Ok b) ->
     answered s s' (inv_payment_hash i) (payment_state_from_invoice i).1.2 b
     /\ (invoices_of s' <> invoices_of s ->
         allowlist_contains_payee (node s) (inv_payee_pub_key i) = true
         \/ approve_invoice now_a i a = Ok (a', true)))
  /\ (forall payee h v now_a t t' t'',
        handle_proposed_keysend payee h v now_a t t' t'' a s = (a', s', Ok b) ->
        answered s s' h (payment_state_from_keysend payee h v t').1 b
        /\ (invoices_of s' <> invoices_of s -> approve_keysend now_a h v a = Ok (a', true))).
Proof.
  split.
  - intros tw i now_a now. unfold handle_proposed_invoice.
    change (payment_state_from_invoice i) with (inv_payment_hash i, (payment_state_from_invoice i).1.2,
      inv_invoice_hash i). cbn [fst snd].
    destruct (has_payment _ _ _) as [[]|e|] eqn:Hp; [| |done..].
    { intros [= <- <- <-]. split; [by apply has_payment_answered|done]. }
    destruct (allowlist_contains_payee _ _) eqn:Hal.
    + destruct (add_invoice _ _ _ _) as [s1 r] eqn:Hop. intros [= <- <- ->].
      split; [by eapply add_invoice_answered|by left].
    + intros Hop. eapply on_approval_answered in Hop as [Ha Hask];
        [|intros; by eapply add_invoice_answered]. split; [done|]. intros Hne. right. by apply Hask.
  - intros payee h v now_a t t' t''. unfold handle_proposed_keysend.
    cbn [payment_state_from_keysend].
    destruct (has_payment _ _ _) as [[]|e|] eqn:Hp; [| |done..].
    { intros [= <- <- <-]. split; [by apply has_payment_answered|done]. }
    apply on_approval_answered. intros s1 b1. apply add_keysend_answered.
Qed.
End tracking.

(** ** The velocity approver *)

Lemma clear_inv lim iv k vc log : control_inv lim iv k vc log -> control_inv lim iv k (clear vc) [].
Proof.
  intros [[[Hiv Hne Hu Hst] Hb Hp] Hl Hi Hk Hok]. split; cbn; try done.
  - split; [split; cbn; try done|..].
    + by destruct (buckets vc).
    + apply Forall_map, Forall_forall. done.
    + cbn. intros i b. rewrite list_lookup_fmap. by destruct (buckets vc !! i) as [x|]; intros [= <-].
    + constructor.
  - by rewrite length_map.
  - apply log_ok_nil.
Qed.

Section velocity.
Context `{IL : InvoiceLib, Prof : Profile} {D : Type} `{!Approve D}.
Implicit Types (a : VelocityApprover D).

Inductive Request := RInvoice (i : AnyInvoice) | RKeysend (h : PaymentHash) (amount_msat : Z).

Definition amount_of (r : Request) : Z :=
  match r with RInvoice i => inv_amount_milli_satoshis i | RKeysend _ v => v end.

Definition approve_request {A} `{!Approve A} (now : Z) (r : Request) (a : A)
  : outcome Status (A * bool) :=
  match r with
  | RInvoice i => approve_invoice now i a
  | RKeysend h v => approve_keysend now h v a
  end.

(** How a request was answered: by the control alone, by the delegate, or
    with a no. *)
Inductive Verdict := Auto | Manual | Refused.

Definition verdict a (now : Z) (r : Request) (b : bool) : Verdict :=
  match b, Velocity.insert (E := Status) (control a) (now / secs 1) (amount_of r) with
  | true, Ok (_, true) => Auto
  | true, _ => Manual
  | false, _ => Refused
  end.

(** A run of requests with its history. *)
Fixpoint run_requests a (reqs : list (Z * Request))
  : outcome Status (VelocityApprover D * list (Z * Z * Verdict)) :=
  match reqs with
  | [] => Ok (a, [])
  | (now, r) :: reqs =>
      '(a', b) ← approve_request now r a;
      '(a'', hist) ← run_requests a' reqs;
      Ok (a'', (now / secs 1, amount_of r, verdict a now r b) :: hist)
  end.

(** The payments approved without the delegate since it last approved one. *)
Definition since_manual (log : list (Z * Z)) (hist : list (Z * Z * Verdict)) : list (Z * Z) :=
  foldl (fun log (e : Z * Z * Verdict) =>
    match e.2 with Auto => log ++ [e.1] | Manual => [] | Refused => log end) log hist.

Definition timed (reqs : list (Z * Request)) : list (Z * Z) :=
  (fun e : Z * Request => (e.1 / secs 1, amount_of e.2)) <$> reqs.

(** The delegate answers every request. *)
Definition answers_all : Prop := forall now r (d : D), is_ok (approve_request now r d) = true.

Lemma approve_request_inv lim iv k a log now r : lim < U64_MAX -> answers_all ->
  control_inv lim iv k (control a) log -> clock_at (control a) (now / secs 1) -> 0 <= amount_of r ->
  exists a' b, approve_request now r a = Ok (a', b)
    /\ start_sec (control a') = now / secs 1 - (now / secs 1) mod iv
    /\ control_inv lim iv k (control a')
         (match verdict a now r b with
          | Auto => log ++ [(now / secs 1, amount_of r)] | Manual => [] | Refused => log end).
Proof.
  intros Hlim Hall Hinv Hck Hv. pose proof Hinv as [Hrep Hl Hi Hk _].
  assert (Happ : approve_request now r a
    = velocity_approve now (amount_of r) (approve_request now r) a) by by destruct r.
  destruct (insert_simulates (E := Status) (control a) log (now / secs 1) (amount_of r) Hrep Hck Hv)
    as (c & Hins & _ & _ & _ & _ & Hst); [lia|].
  rewrite Happ. unfold velocity_approve, verdict. revert Hins. set (ok := (spec_insert _ _ _ _ _ _).2).
  intros Hins. rewrite Hins, Ok_bind. pose proof (insert_inv _ _ _ _ _ _ _ _ _ Hlim Hinv Hck Hv Hins) as Hc.
  rewrite Hi in Hst. destruct ok.
  - by exists (set_control a c), true.
  - specialize (Hall now r (va_delegate a)). destruct (approve_request now r (va_delegate a)) as [[d b]|e|];
      [|done..]. rewrite Ok_bind. eexists _, b. split; [done|]. cbn [control].
    destruct b; [split; [done|by eapply clear_inv]|done].
Qed.

Lemma run_requests_inv lim iv k a log reqs : lim < U64_MAX -> answers_all ->
  control_inv lim iv k (control a) log -> clock_ok iv (start_sec (control a)) (timed reqs) ->
  exists a' hist, run_requests a reqs = Ok (a', hist)
    /\ control_inv lim iv k (control a') (since_manual log hist)
    /\ (fun e : Z * Z * Verdict => e.1) <$> hist = timed reqs.
Proof.
  intros Hlim Hall. revert a log. induction reqs as [|[now r] reqs IH]; intros a log Hinv Hck.
  - by exists a, [].
  - destruct Hck as (Ht & Hv & Hck). cbn [fst snd] in *.
    destruct (approve_request_inv lim iv k a log now r) as (a1 & b & Hop & Hst & Hinv1); [done..|].
    rewrite <- Hst in Hck. destruct (IH a1 _ Hinv1 Hck) as (a2 & hist & Hrun & Hinv2 & Htimes).
    exists a2, ((now / secs 1, amount_of r, verdict a now r b) :: hist).
    cbn [run_requests]. rewrite Hop, Ok_bind, Hrun, Ok_bind. split; [done|]. split; [done|].
    cbn. by rewrite Htimes.
Qed.

(** C38: the velocity approver bounds what it approves on its own.  Start it with a
    fresh control and any delegate that answers, and let it serve any
    sequence of invoices and keysends whose clock does not go back before the
    current bucket: it answers them all, and at every later time [T] the
    payments that passed without the delegate since the delegate last
    approved one, within the window of the control, are within its limit. *)
Theorem velocity_approver_bounds spec lim iv k (d : D) c reqs T
  (Hspec : spec_to_triple spec = (lim, iv, k)) (Hlim : 0 <= lim < U64_MAX)
  (Hnew : Velocity.new (E := Status) spec = Ok c) (Hall : answers_all)
  (Hck : clock_ok iv 0 (timed reqs)) (HT : Forall (fun e => e.1 <= T) (timed reqs)) :
  exists a hist, run_requests {| control := c; va_delegate := d |} reqs = Ok (a, hist)
    /\ vsum (fun t => T - (Z.of_nat k - 1) * iv <? t) (since_manual [] hist) <= lim.
Proof.
  pose proof (new_inv _ _ Hnew) as Hinv. rewrite Hspec in Hinv.
  assert (Hst : start_sec c = 0).
  { unfold Velocity.new in Hnew. rewrite Hspec in Hnew. unfold new_with_intervals in Hnew. by inv_ok Hnew. }
  destruct (run_requests_inv lim iv k {| control := c; va_delegate := d |} [] reqs)
    as (a & hist & Hrun & Hinv' & Htimes); [lia|done|done|by cbn [control]; rewrite Hst|].
  exists a, hist. split; [done|]. eapply inv_window; [lia|done|].
  apply Forall_forall. intros e He. rewrite <- Htimes in HT.
  assert (Hsub : forall log h, e ∈ since_manual log h -> e ∈ log \/ e ∈ (fun e : Z * Z * Verdict => e.1) <$> h).
  { intros log h. revert log. induction h as [|[p v] h IH]; intros log; [by left|].
    cbn [since_manual foldl snd fst fmap list_fmap]. intros He1%IH. destruct v; set_solver. }
  apply Hsub in He as [He|He]; [by apply elem_of_nil in He|]. rewrite Forall_forall in HT. by apply HT.
Qed.
End velocity.

(** ** The memo approver *)

Section memo.
Context `{IL : InvoiceLib} {D : Type} `{!Approve D}.
Implicit Types (a : MemoApprover D).

(** The three questions. *)
Inductive Ask :=
| AskInvoice (now : Z) (i : AnyInvoice)
| AskKeysend (now : Z) (h : PaymentHash) (amount_msat : Z)
| AskOnchain (tx : Transaction) (values_sat : list Z) (unknown_indices : list nat).

Definition ask {A} `{!Approve A} (q : Ask) (a : A) : outcome Status (A * bool) :=
  match q with
  | AskInvoice now i => approve_invoice now i a
  | AskKeysend now h v => approve_keysend now h v a
  | AskOnchain tx values unknown => approve_onchain tx values unknown a
  end.

Definition covers (q : Ask) : Approval -> bool :=
  match q with
  | AskInvoice _ i => invoice_memo i
  | AskKeysend _ h v => keysend_memo h v
  | AskOnchain tx _ _ => onchain_memo tx
  end.

Fixpoint ask_all {A} `{!Approve A} (qs : list Ask) (a : A) : outcome Status (list bool) :=
  match qs with
  | [] => Ok []
  | q :: qs => '(a', b) ← ask q a; bs ← ask_all qs a'; Ok (b :: bs)
  end.

Lemma ask_memo q a : ask q a =
  if existsb (covers q) (approvals a) then Ok (memo_new (ma_delegate a), true)
  else '(d, b) ← ask q (ma_delegate a); Ok (memo_new d, b).
Proof. by destruct q. Qed.

(** Without approvals in memory it is the delegate. *)
Lemma ask_all_memo_new qs (d : D) : ask_all qs (memo_new d) = ask_all qs d.
Proof.
  revert d. induction qs as [|q qs IH]; intros d; [done|]. cbn [ask_all]. rewrite ask_memo.
  cbn [approvals memo_new existsb ma_delegate].
  destruct (ask q d) as [[d' b]|e|]; [rewrite !Ok_bind; by rewrite IH|done..].
Qed.

(** A memorized approval is used at most once.  After [approve] with a list of
    approvals, whatever was memorized before, the answers to any sequence of
    questions are those of the delegate, except that the first question is
    answered with yes, without asking the delegate, when the list has an
    approval for it. *)
Theorem memo_approves_once a l q qs :
  ask_all (q :: qs) (memo_approve a l) =
  if existsb (covers q) l then bs ← ask_all qs (ma_delegate a); Ok (true :: bs)
  else ask_all (q :: qs) (ma_delegate a).
Proof.
  cbn [ask_all]. rewrite ask_memo. cbn [approvals memo_approve ma_delegate].
  destruct (existsb _ _); [by rewrite Ok_bind, ask_all_memo_new|].
  destruct (ask q (ma_delegate a)) as [[d b]|e|]; [rewrite !Ok_bind; by rewrite ask_all_memo_new|done..].
Qed.
End memo.

(** ** Approved transactions *)

Section onchain.
Context `{L : Lib, CrL : CryptoLib, !KeyLib, CL : ChainLib, AL : AddressLib, IL : InvoiceLib}.
Context `{CkL : CheckpointLib, NL : NodeLib, SL : SerLib, Prof : Profile}.
Context {P : Type} `{!Persist P} {A : Type} `{!Approve A}.

Definition is_unknown (e : ValidationError) : Prop :=
  exists msg indices, kind e = UnknownDestinations msg indices.

Lemma beneficial_value_known pol i o w e :
  map_err (fun ve => prepend_msg ve "validate_onchain_tx: ")
    (Simple.validate_beneficial_value pol i o w) = Err e -> ~ is_unknown e.
Proof.
  intros He (msg & indices & Hk). unfold Simple.validate_beneficial_value in He.
  destruct (ok_or _ _) as [nb|e1|] eqn:H1; cbn [mbind outcome_bind map_err] in He; [| |done].
  2:{ destruct (checked_sub64 i o); [done|]. injection H1 as <-. injection He as <-. done. }
  destruct (estimate_feerate_per_kw nb w) as [fr|e1|] eqn:H2; cbn [mbind outcome_bind map_err] in He;
    [| |done].
  2:{ unfold estimate_feerate_per_kw in H2. revert H2. unfold mul64, add64, wrapping.
      repeat (cbn [mbind outcome_bind]; case_match); done. }
  destruct (_ <? fr); [|done]. unfold whenb in He. destruct (disable_beneficial_balance_checks _); [done|].
  revert He. unfold policy_err. cbn. unfold policy_error_with_filter.
  case_decide; [|done]. cbn. intros [= <-]. done.
Qed.

(** The search for unknown outputs does not look at the inputs' values. *)
Lemma unknown_any_values pol w chans tx itxs vals opaths weight e :
  is_unknown e -> Simple.validate_onchain_tx pol w chans tx itxs vals opaths weight = Err e ->
  forall vals', Simple.validate_onchain_tx pol w chans tx itxs vals' opaths weight = Err e.
Proof.
  intros Hu He vals'. revert He. unfold Simple.validate_onchain_tx. cbv zeta.
  do 3 (match goal with |- context [whenb ?b ?m ≫= _] =>
    destruct (whenb b m) as [[]|?|]; cbn [mbind outcome_bind]; [|done..] end).
  destruct (foldM _ _ (imap pair _)) as [[unknowns sum]|?|]; cbn [mbind outcome_bind]; [|done..].
  destruct (bool_decide (unknowns = [])); cbn [negb whenb mbind outcome_bind]; [|done].
  destruct (foldM _ 0 vals) as [sum_in|e1|] eqn:Hsum; cbn [mbind outcome_bind]; [| |done].
  - intros He. by apply beneficial_value_known in He.
  - intros [= ->]. exfalso. destruct Hu as (msg & indices & Hk). revert Hsum. generalize 0.
    induction vals as [|v vals IH]; intros acc; [done|]. cbn.
    destruct (checked_add64 acc v); cbn; [apply IH|]. intros [= <-]. done.
Qed.

(** An approved transaction with an unknown output skips every limit on fees.
    The validator reports the unknown outputs before it looks at the inputs,
    and the approver's yes is final: for whatever values the inputs have, so
    for whatever fee, the transaction passes; the maximum feerate is not
    checked and nothing is charged to the fee velocity of the node. *)
Theorem unknown_outputs_skip_fee_limits pol (s : NSt P) (a a' : A) tx itxs vals types ucks opaths
  msg indices
  (Hval : Validator.validate_onchain_tx (validator (node s)) = Simple.validate_onchain_tx pol)
  (Hunknown : non_beneficial_sat (node s) tx itxs vals types ucks opaths
              = Err {| kind := UnknownDestinations msg indices |})
  (vals' : list Z) (Hask : approve_onchain tx vals' indices a = Ok (a', true)) now :
  handle_proposed_onchain tx itxs vals' types ucks opaths now a s = (a', s, Ok true).
Proof.
  assert (Hany : non_beneficial_sat (node s) tx itxs vals' types ucks opaths
    = Err {| kind := UnknownDestinations msg indices |}).
  { revert Hunknown. unfold non_beneficial_sat. rewrite Hval.
    destruct (weight_lower_bound _ _ _) as [w|e|]; cbn [mbind outcome_bind]; [|done..].
    intros He. eapply unknown_any_values; [by eexists _, _|exact He]. }
  unfold handle_proposed_onchain, check_onchain_tx. rewrite Hany. cbn [mbind outcome_bind kind].
  unfold on_approval. rewrite Hask. by destruct s.
Qed.
End onchain.

(** ** Witnesses *)

#[local] Existing Instances example_lib example_crypto example_keys Tracker.example_chain_lib
  example_addresses example_invoices example_checkpoints example_node_lib example_ser Chan.release.

(** With a positive approver a keysend is tracked, with a negative one it is not. *)
Lemma approval_required_witness : exists s1 s2 : NSt KVJson.KVJsonPersister,
  handle_proposed_keysend [2] [1] 60000 0 (secs 600) (secs 600) (secs 600) Positive example_state
    = (Positive, s1, Ok true)
  /\ invoices (state (node s1)) !! [1] = Some (payment_state_from_keysend [2] [1] 60000 (secs 600)).1
  /\ handle_proposed_keysend [2] [2] 60000 0 (secs 600) (secs 600) (secs 600) Negative s1
    = (Negative, s2, Ok false)
  /\ invoices (state (node s2)) = invoices (state (node s1)).
Proof.
  assert (H1 : exists x, handle_proposed_keysend (P := KVJson.KVJsonPersister) [2] [1] 60000 0
    (secs 600) (secs 600) (secs 600) Positive example_state = (x, Ok true)
    /\ exists y, handle_proposed_keysend [2] [2] 60000 0 (secs 600) (secs 600) (secs 600) Negative
         x.2 = (y, Ok false)).
  { eexists. split; [apply (pair_eta _ (Ok true)); by vm_compute|].
    eexists. apply (pair_eta _ (Ok false)). by vm_compute. }
  destruct H1 as ([[] s1] & H1 & [[] s2] & H2). exists s1, s2. split; [done|].
  apply (approval_required Positive Positive example_state s1 true) in H1 as [Hy _].
  split; [inversion Hy as [ps0 Hk _ _|_ Hn|]; [by vm_compute in Hk|rewrite Hn; apply lookup_insert_eq]|].
  split; [done|].
  apply (approval_required Negative Negative s1 s2 false) in H2 as [Hn _]. by inversion Hn.
Defined.

(** A node that may pay 100000 msat an hour. *)
Definition example_spec : VelocityControlSpec := {| limit_msat := 100000; interval_type := Hourly |}.

(** Two payments of 60000 msat within the hour: the second one is refused. *)
Lemma velocity_approver_bounds_witness : exists a hist,
  run_requests {| control := example_hourly; va_delegate := Negative |}
    [(secs 600, RKeysend [1] 60000); (secs 700, RKeysend [2] 60000)] = Ok (a, hist)
  /\ hist = [(600, 60000, Auto); (700, 60000, Refused)]
  /\ vsum (fun t => 900 - (12 - 1) * 300 <? t) (since_manual [] hist) <= 100000.
Proof.
  destruct (velocity_approver_bounds example_spec 100000 300 12 Negative example_hourly
    [(secs 600, RKeysend [1] 60000); (secs 700, RKeysend [2] 60000)] 900) as (a & hist & Hrun & Hb);
    [done|unfold U64_MAX; lia|done|by intros now [] []|by repeat split; vm_compute|by repeat constructor|].
  exists a, hist. split; [done|]. split; [|done]. vm_compute in Hrun. by injection Hrun.
Defined.

Definition example_spend : Transaction := {| version := 2; lock_time := 0; input := [];
  output := [{| out_value := 1000; script_pubkey := [9; 9] |}] |}.

(** 21 million bitcoins of fees for an output of 1000 satoshis. *)
Lemma unknown_outputs_skip_fee_limits_witness : exists now,
  handle_proposed_onchain example_spend [] [2100000000000000] [] [] [[]] now Positive example_state
  = (Positive, example_state, Ok true).
Proof.
  exists 0. apply (unknown_outputs_skip_fee_limits (make_simple_policy Testnet) example_state
    Positive Positive example_spend [] [1000] [] [] [[]] EmptyString [0%nat]);
    [reflexivity|by vm_compute|reflexivity].
Defined.
