(* ===== verification/Msgs.v ===== *)
(** * Protocol messages (vls-protocol/src/{model,msgs,io,error}.rs, bolt-derive/src/lib.rs)

    The messages between a node and its signer, their encoding and their
    framing on a stream.  The encodings of the primitive types are those of
    the serde_bolt crate, a parameter (class [SerdeBolt]); a struct is encoded
    field by field, as derived by serde; the code that bolt-derive generates
    is written out.  Bytes are [Z]s in [[0, 256)]. *)

From S2P Require Import Prelude.

#[local] Notation bytes := (list Z).

(** ** The serde_bolt crate *)

(** How a type is written and read.  Reading takes what it needs from the
    front of the bytes. *)
Record Format (Err A : Type) := {
  ser : A -> outcome Err bytes;
  de : bytes -> outcome Err (A * bytes)
}.
Arguments ser {Err A}.
Arguments de {Err A}.

Class SerdeBolt := {
  BoltError : Type;
  bolt_int : nat -> Format BoltError Z;
  bolt_bool : Format BoltError bool;
  bolt_octets : Format BoltError bytes;
  bolt_large_octets : Format BoltError bytes;
  bolt_wire_string : Format BoltError bytes;
  bolt_option : forall A, Format BoltError A -> Format BoltError (option A);
  bolt_vec : forall A, Format BoltError A -> Format BoltError (list A)
}.

(** A format with the values that it can represent. *)
Record Codec `{SerdeBolt} (A : Type) := {
  format : Format BoltError A;
  valid : A -> Prop
}.
Arguments format {_ A}.
Arguments valid {_ A}.

Definition is_byte (b : Z) : Prop := 0 <= b < 256.

Section codecs.
Context `{SB : SerdeBolt}.

Definition serde_int (n : nat) : Codec Z :=
  {| format := bolt_int n; valid := fun x => 0 <= x < 256 ^ Z.of_nat n |}.
Definition serde_u8 := serde_int 1.
Definition serde_u16 := serde_int 2.
Definition serde_u32 := serde_int 4.
Definition serde_u64 := serde_int 8.

Definition serde_bool : Codec bool := {| format := bolt_bool; valid := fun _ => True |}.

(** Bytes with a length of two or four bytes, and bytes up to a zero. *)
Definition serde_octets : Codec bytes :=
  {| format := bolt_octets;
     valid := fun b => Forall is_byte b /\ Z.of_nat (length b) < 256 ^ 2 |}.
Definition serde_large_octets : Codec bytes :=
  {| format := bolt_large_octets;
     valid := fun b => Forall is_byte b /\ Z.of_nat (length b) < 256 ^ 4 |}.
Definition serde_wire_string : Codec bytes :=
  {| format := bolt_wire_string; valid := Forall (fun b => 0 < b < 256) |}.

Definition serde_option {A} (c : Codec A) : Codec (option A) :=
  {| format := bolt_option A (format c);
     valid := fun o => match o with Some x => valid c x | None => True end |}.
Definition serde_vec {A} (c : Codec A) : Codec (list A) :=
  {| format := bolt_vec A (format c);
     valid := fun l => Forall (valid c) l /\ Z.of_nat (length l) < 256 ^ 2 |}.

(** Structs: field after field. *)
Definition serde_unit : Codec unit :=
  {| format := {| ser _ := Ok []; de b := Ok (tt, b) |}; valid := fun _ => True |}.

Definition serde_pair {A B} (c : Codec A) (d : Codec B) : Codec (A * B) :=
  {| format := {| ser p := b1 ← ser (format c) p.1; b2 ← ser (format d) p.2; Ok (b1 ++ b2);
                  de b := '(x, b) ← de (format c) b; '(y, b) ← de (format d) b; Ok ((x, y), b) |};
     valid := fun p => valid c p.1 /\ valid d p.2 |}.

Definition serde_record {A B} (to : A -> B) (from : B -> A) (c : Codec B) : Codec A :=
  {| format := {| ser x := ser (format c) (to x);
                  de b := '(y, b) ← de (format c) b; Ok (from y, b) |};
     valid := fun x => valid c (to x) |}.

(** The macro [array_impl] of model.rs: the elements one after the other. *)
Fixpoint ser_array (a : bytes) : outcome BoltError bytes :=
  match a with
  | [] => Ok []
  | x :: a => b1 ← ser (format serde_u8) x; b2 ← ser_array a; Ok (b1 ++ b2)
  end.

Fixpoint de_array (len : nat) (b : bytes) : outcome BoltError (bytes * bytes) :=
  match len with
  | O => Ok ([], b)
  | S len => '(x, b) ← de (format serde_u8) b; '(a, b) ← de_array len b; Ok (x :: a, b)
  end.

Definition array_impl (len : nat) : Codec bytes :=
  {| format := {| ser := ser_array; de := de_array len |};
     valid := fun a => Forall is_byte a /\ length a = len |}.
End codecs.

Infix "&+" := serde_pair (at level 40, left associativity).

(** ** model.rs *)

Module Model.

Record Bip32KeyVersion := { pubkey_version : Z; privkey_version : Z }.
Record OutPoint := { txid : bytes; vout : Z }.
Record Basepoints := {
  revocation : bytes; payment : bytes; htlc : bytes; delayed_payment : bytes }.
Record BitcoinSignature := { signature : bytes; sighash : Z }.
Record Htlc := { side : Z; amount : Z; payment_hash : bytes; ctlv_expiry : Z }.
Definition LOCAL : Z := 0.
Definition REMOTE : Z := 1.
Record CloseInfo := {
  channel_id : Z; peer_id : bytes; commitment_point : option bytes; is_anchors : bool; csv : Z }.
Record Utxo := {
  utxo_txid : bytes; outnum : Z; utxo_amount : Z; keyindex : Z; is_p2sh : bool; script : bytes;
  close_info : option CloseInfo; is_in_coinbase : bool }.

Section formats.
Context `{SB : SerdeBolt}.

Definition BlockId := array_impl 32.
Definition Secret := array_impl 32.
Definition DisclosedSecret := array_impl 32.
Definition DevSecret := array_impl 32.
Definition DevPrivKey := array_impl 32.
Definition PubKey := array_impl 33.
Definition ExtKey := array_impl 78.
Definition Sha256 := array_impl 32.
Definition BlockHash := array_impl 32.
Definition Signature := array_impl 64.
Definition RecoverableSignature := array_impl 65.
Definition TxId := array_impl 32.

Definition Bip32KeyVersion_serde : Codec Bip32KeyVersion :=
  serde_record (fun v => (pubkey_version v, privkey_version v))
    (fun '(a, b) => {| pubkey_version := a; privkey_version := b |}) (serde_u32 &+ serde_u32).

Definition OutPoint_serde : Codec OutPoint :=
  serde_record (fun o => (txid o, vout o)) (fun '(a, b) => {| txid := a; vout := b |})
    (TxId &+ serde_u32).

Definition Basepoints_serde : Codec Basepoints :=
  serde_record (fun p => (revocation p, payment p, htlc p, delayed_payment p))
    (fun '(a, b, c, d) => {| revocation := a; payment := b; htlc := c; delayed_payment := d |})
    (PubKey &+ PubKey &+ PubKey &+ PubKey).

Definition BitcoinSignature_serde : Codec BitcoinSignature :=
  serde_record (fun s => (signature s, sighash s))
    (fun '(a, b) => {| signature := a; sighash := b |}) (Signature &+ serde_u8).

Definition Htlc_serde : Codec Htlc :=
  serde_record (fun h => (side h, amount h, payment_hash h, ctlv_expiry h))
    (fun '(a, b, c, d) => {| side := a; amount := b; payment_hash := c; ctlv_expiry := d |})
    (serde_u8 &+ serde_u64 &+ Sha256 &+ serde_u32).

Definition CloseInfo_serde : Codec CloseInfo :=
  serde_record (fun c => (channel_id c, peer_id c, commitment_point c, is_anchors c, csv c))
    (fun '(a, b, c, d, e) => {| channel_id := a; peer_id := b; commitment_point := c;
                                is_anchors := d; csv := e |})
    (serde_u64 &+ PubKey &+ serde_option PubKey &+ serde_bool &+ serde_u32).

Definition Utxo_serde : Codec Utxo :=
  serde_record (fun u => (utxo_txid u, outnum u, utxo_amount u, keyindex u, is_p2sh u, script u,
                          close_info u, is_in_coinbase u))
    (fun '(a, b, c, d, e, f, g, h) =>
       {| utxo_txid := a; outnum := b; utxo_amount := c; keyindex := d; is_p2sh := e; script := f;
          close_info := g; is_in_coinbase := h |})
    (TxId &+ serde_u32 &+ serde_u64 &+ serde_u32 &+ serde_bool &+ serde_octets &+
     serde_option CloseInfo_serde &+ serde_bool).
End formats.
End Model.

(** ** Structs with a message id *)

Record Struct `{SerdeBolt} (A : Type) := { TYPE : Z; struct_name : string; fields : Codec A }.
Arguments TYPE {_ A}.
Arguments struct_name {_ A}.
Arguments fields {_ A}.

(** A value of a struct, of whichever one: [dyn SerBolt]. *)
Record SerBolt `{SerdeBolt} := { sb_type : Type; sb_struct : Struct sb_type; sb_value : sb_type }.

Section derived.
Context `{SB : SerdeBolt}.

Definition bolt {A} (id : Z) (name : string) (c : Codec A) : Struct A :=
  {| TYPE := id; struct_name := name; fields := c |}.

Definition pack {A} (t : Struct A) (x : A) : SerBolt :=
  {| sb_type := A; sb_struct := t; sb_value := x |}.

Inductive Error :=
| UnexpectedType (t : Z)
| BadFraming
| BoltErr (e : BoltError)
| TrailingBytes (n : nat) (t : Z)
| ShortRead
| MessageTooLarge
| Eof.

(** [uN::to_be_bytes] and [uN::from_be_bytes], on [n] bytes. *)
Fixpoint to_be_bytes (n : nat) (x : Z) : bytes :=
  match n with O => [] | S n => to_be_bytes n (x / 256) ++ [x mod 256] end.
Definition from_be_bytes (b : bytes) : Z := foldl (fun x d => x * 256 + d) 0 b.

(** The derived [SerBolt]. *)
Definition as_vec (self : SerBolt) : outcome Error bytes :=
  val_buf ← unwrap_ok (ser (format (fields (sb_struct self))) (sb_value self));
  Ok (to_be_bytes 2 (TYPE (sb_struct self)) ++ val_buf).
Definition name (self : SerBolt) : string := struct_name (sb_struct self).

Definition from_vec_no_trailing {A} (t : Struct A) (s : bytes) : outcome Error A :=
  '(res, s) ← map_err BoltErr (de (format (fields t)) s);
  if (0 <? length s)%nat then Err (TrailingBytes (length s) (TYPE t)) else Ok res.

(** An arm of the derived [read_message]. *)
Definition arm {A M} (t : Struct A) (f : A -> M) : Z * (bytes -> outcome Error M) :=
  (TYPE t, fun data => x ← from_vec_no_trailing t data; Ok (f x)).
End derived.

(** The arguments of a constructor from the fields of a struct. *)
Notation args2 f := (uncurry f).
Notation args3 f := (uncurry (args2 f)).
Notation args4 f := (uncurry (args3 f)).
Notation args5 f := (uncurry (args4 f)).
Notation args6 f := (uncurry (args5 f)).
Notation args7 f := (uncurry (args6 f)).
Notation args8 f := (uncurry (args7 f)).
Notation args9 f := (uncurry (args8 f)).
Notation args13 f := (uncurry (uncurry (uncurry (uncurry (args9 f))))).

(** ** The messages (vls-protocol/src/msgs.rs) *)

Module Msgs.
Import Model.

Section structs.
Context `{SB : SerdeBolt}.

Definition HsmdInit := bolt 11 "HsmdInit"
  (Bip32KeyVersion_serde &+ BlockId &+ serde_option DevSecret &+ serde_option DevPrivKey &+
   serde_option DevSecret &+ serde_option (serde_vec DevSecret) &+ serde_option Sha256 &+
   serde_u32 &+ serde_u32).
Definition HsmdInitReplyV2 := bolt 113 "HsmdInitReplyV2" (PubKey &+ ExtKey &+ PubKey).
Definition HsmdInitReplyV4 := bolt 114 "HsmdInitReplyV4"
  (serde_u32 &+ serde_vec serde_u32 &+ PubKey &+ ExtKey &+ PubKey).
Definition HsmdInit2 := bolt 1011 "HsmdInit2"
  (serde_u8 &+ serde_wire_string &+ serde_option DevSecret &+ serde_vec serde_wire_string).
Definition HsmdInit2Reply := bolt 1111 "HsmdInit2Reply" (PubKey &+ ExtKey &+ PubKey).
Definition NodeInfo := bolt 1012 "NodeInfo" serde_unit.
Definition NodeInfoReply := bolt 1112 "NodeInfoReply" (serde_wire_string &+ PubKey &+ ExtKey).
Definition ClientHsmFd := bolt 9 "ClientHsmFd" (PubKey &+ serde_u64 &+ serde_u64).
Definition ClientHsmFdReply := bolt 109 "ClientHsmFdReply" serde_unit.
Definition SignInvoice := bolt 8 "SignInvoice" (serde_octets &+ serde_octets).
Definition SignInvoiceReply := bolt 108 "SignInvoiceReply" RecoverableSignature.
Definition SignWithdrawal := bolt 7 "SignWithdrawal" (serde_vec Utxo_serde &+ serde_large_octets).
Definition SignWithdrawalReply := bolt 107 "SignWithdrawalReply" serde_large_octets.
Definition Ecdh := bolt 1 "Ecdh" PubKey.
Definition EcdhReply := bolt 100 "EcdhReply" Secret.
Definition Memleak := bolt 33 "Memleak" serde_unit.
Definition MemleakReply := bolt 133 "MemleakReply" serde_bool.
Definition CheckFutureSecret := bolt 22 "CheckFutureSecret" (serde_u64 &+ DisclosedSecret).
Definition CheckFutureSecretReply := bolt 122 "CheckFutureSecretReply" serde_bool.
Definition SignMessage := bolt 23 "SignMessage" serde_octets.
Definition SignMessageReply := bolt 123 "SignMessageReply" RecoverableSignature.
Definition SignBolt12 := bolt 25 "SignBolt12"
  (serde_wire_string &+ serde_wire_string &+ Sha256 &+ serde_octets).
Definition SignBolt12Reply := bolt 125 "SignBolt12Reply" Signature.
Definition PreapproveInvoice := bolt 38 "PreapproveInvoice" serde_wire_string.
Definition PreapproveInvoiceReply := bolt 138 "PreapproveInvoiceReply" serde_bool.
Definition PreapproveKeysend := bolt 39 "PreapproveKeysend" (PubKey &+ Sha256 &+ serde_u64).
Definition PreapproveKeysendReply := bolt 139 "PreapproveKeysendReply" serde_bool.
Definition DeriveSecret := bolt 27 "DeriveSecret" serde_octets.
Definition DeriveSecretReply := bolt 127 "DeriveSecretReply" Secret.
Definition CheckPubKey := bolt 28 "CheckPubKey" (serde_u32 &+ PubKey).
Definition CheckPubKeyReply := bolt 128 "CheckPubKeyReply" serde_bool.
Definition SignChannelUpdate := bolt 3 "SignChannelUpdate" serde_octets.
Definition SignChannelUpdateReply := bolt 103 "SignChannelUpdateReply" serde_octets.
Definition SignChannelAnnouncement := bolt 2 "SignChannelAnnouncement" serde_octets.
Definition SignChannelAnnouncementReply := bolt 102 "SignChannelAnnouncementReply"
  (Signature &+ Signature).
Definition SignNodeAnnouncement := bolt 6 "SignNodeAnnouncement" serde_octets.
Definition SignNodeAnnouncementReply := bolt 106 "SignNodeAnnouncementReply" Signature.
Definition GetPerCommitmentPoint := bolt 18 "GetPerCommitmentPoint" serde_u64.
Definition GetPerCommitmentPoint2 := bolt 1018 "GetPerCommitmentPoint2" serde_u64.
Definition GetPerCommitmentPointReply := bolt 118 "GetPerCommitmentPointReply"
  (PubKey &+ serde_option DisclosedSecret).
Definition GetPerCommitmentPoint2Reply := bolt 1118 "GetPerCommitmentPoint2Reply" PubKey.
Definition ReadyChannel := bolt 31 "ReadyChannel"
  (serde_bool &+ serde_u64 &+ serde_u64 &+ TxId &+ serde_u16 &+ serde_u16 &+ serde_octets &+
   serde_option serde_u32 &+ Basepoints_serde &+ PubKey &+ serde_u16 &+ serde_octets &+
   serde_octets).
Definition ReadyChannelReply := bolt 131 "ReadyChannelReply" serde_unit.
Definition ValidateCommitmentTx := bolt 35 "ValidateCommitmentTx"
  (serde_large_octets &+ serde_large_octets &+ serde_vec Htlc_serde &+ serde_u64 &+ serde_u32 &+
   BitcoinSignature_serde &+ serde_vec BitcoinSignature_serde).
Definition ValidateCommitmentTx2 := bolt 1035 "ValidateCommitmentTx2"
  (serde_u64 &+ serde_u32 &+ serde_u64 &+ serde_u64 &+ serde_vec Htlc_serde &+
   BitcoinSignature_serde &+ serde_vec BitcoinSignature_serde).
Definition ValidateCommitmentTxReply := bolt 135 "ValidateCommitmentTxReply"
  (serde_option DisclosedSecret &+ PubKey).
Definition ValidateRevocation := bolt 36 "ValidateRevocation" (serde_u64 &+ DisclosedSecret).
Definition ValidateRevocationReply := bolt 136 "ValidateRevocationReply" serde_unit.
Definition SignCommitmentTx := bolt 5 "SignCommitmentTx"
  (PubKey &+ serde_u64 &+ serde_large_octets &+ serde_large_octets &+ PubKey &+ serde_u64).
Definition SignLocalCommitmentTx2 := bolt 1005 "SignLocalCommitmentTx2" serde_u64.
Definition SignGossipMessage := bolt 1006 "SignGossipMessage" serde_octets.
Definition SignGossipMessageReply := bolt 1106 "SignGossipMessageReply" Signature.
Definition SignRemoteCommitmentTx := bolt 19 "SignRemoteCommitmentTx"
  (serde_large_octets &+ serde_large_octets &+ PubKey &+ PubKey &+ serde_bool &+ serde_u64 &+
   serde_vec Htlc_serde &+ serde_u32).
Definition Ping := bolt 1000 "Ping" (serde_u16 &+ serde_wire_string).
Definition Pong := bolt 1100 "Pong" (serde_u16 &+ serde_wire_string).
Definition SignRemoteCommitmentTx2 := bolt 1019 "SignRemoteCommitmentTx2"
  (PubKey &+ serde_u64 &+ serde_u32 &+ serde_u64 &+ serde_u64 &+ serde_vec Htlc_serde).
Definition SignCommitmentTxWithHtlcsReply := bolt 1119 "SignCommitmentTxWithHtlcsReply"
  (BitcoinSignature_serde &+ serde_vec BitcoinSignature_serde).
Definition SignDelayedPaymentToUs := bolt 12 "SignDelayedPaymentToUs"
  (serde_u64 &+ serde_large_octets &+ serde_large_octets &+ serde_octets).
Definition SignAnyDelayedPaymentToUs := bolt 142 "SignAnyDelayedPaymentToUs"
  (serde_u64 &+ serde_large_octets &+ serde_large_octets &+ serde_octets &+ serde_u32 &+ PubKey &+
   serde_u64).
Definition SignRemoteHtlcToUs := bolt 13 "SignRemoteHtlcToUs"
  (PubKey &+ serde_large_octets &+ serde_large_octets &+ serde_octets &+ serde_bool).
Definition SignAnyRemoteHtlcToUs := bolt 143 "SignAnyRemoteHtlcToUs"
  (PubKey &+ serde_large_octets &+ serde_large_octets &+ serde_octets &+ serde_bool &+
   serde_u32 &+ PubKey &+ serde_u64).
Definition SignLocalHtlcTx := bolt 16 "SignLocalHtlcTx"
  (serde_u64 &+ serde_large_octets &+ serde_large_octets &+ serde_octets &+ serde_bool).
Definition SignAnyLocalHtlcTx := bolt 146 "SignAnyLocalHtlcTx"
  (serde_u64 &+ serde_large_octets &+ serde_large_octets &+ serde_octets &+ serde_bool &+
   serde_u32 &+ PubKey &+ serde_u64).
Definition SignMutualCloseTx := bolt 21 "SignMutualCloseTx"
  (serde_large_octets &+ serde_large_octets &+ PubKey).
Definition SignMutualCloseTx2 := bolt 1021 "SignMutualCloseTx2"
  (serde_u64 &+ serde_u64 &+ serde_octets &+ serde_octets &+ serde_vec serde_u32).
Definition SignCommitmentTxReply := bolt 105 "SignCommitmentTxReply" BitcoinSignature_serde.
Definition SignTxReply := bolt 112 "SignTxReply" BitcoinSignature_serde.
Definition NewChannel := bolt 30 "NewChannel" (PubKey &+ serde_u64).
Definition NewChannelReply := bolt 130 "NewChannelReply" serde_unit.
Definition GetChannelBasepoints := bolt 10 "GetChannelBasepoints" (PubKey &+ serde_u64).
Definition GetChannelBasepointsReply := bolt 110 "GetChannelBasepointsReply"
  (Basepoints_serde &+ PubKey).
Definition SignRemoteHtlcTx := bolt 20 "SignRemoteHtlcTx"
  (serde_large_octets &+ serde_large_octets &+ serde_octets &+ PubKey &+ serde_bool).
Definition SignPenaltyToUs := bolt 14 "SignPenaltyToUs"
  (DisclosedSecret &+ serde_large_octets &+ serde_large_octets &+ serde_octets).
Definition SignAnyPenaltyToUs := bolt 144 "SignAnyPenaltyToUs"
  (DisclosedSecret &+ serde_large_octets &+ serde_large_octets &+ serde_octets &+ serde_u32 &+
   PubKey &+ serde_u64).
Definition TipInfo := bolt 2002 "TipInfo" serde_unit.
Definition TipInfoReply := bolt 2102 "TipInfoReply" (serde_u32 &+ BlockHash).
Definition ForwardWatches := bolt 2003 "ForwardWatches" serde_unit.
Definition ForwardWatchesReply := bolt 2103 "ForwardWatchesReply"
  (serde_vec TxId &+ serde_vec OutPoint_serde).
Definition ReverseWatches := bolt 2004 "ReverseWatches" serde_unit.
Definition ReverseWatchesReply := bolt 2104 "ReverseWatchesReply"
  (serde_vec TxId &+ serde_vec OutPoint_serde).
Definition AddBlock := bolt 2005 "AddBlock" (serde_octets &+ serde_option serde_large_octets).
Definition AddBlockReply := bolt 2105 "AddBlockReply" serde_unit.
Definition RemoveBlock := bolt 2006 "RemoveBlock" (serde_option serde_large_octets).
Definition RemoveBlockReply := bolt 2106 "RemoveBlockReply" serde_unit.
Definition GetHeartbeat := bolt 2008 "GetHeartbeat" serde_unit.
Definition GetHeartbeatReply := bolt 2108 "GetHeartbeatReply" serde_octets.
Definition BlockChunk := bolt 2009 "BlockChunk" (BlockHash &+ serde_u32 &+ serde_octets).
Definition BlockChunkReply := bolt 2109 "BlockChunkReply" serde_unit.
Definition UnknownPlaceholder := bolt 65535 "UnknownPlaceholder" serde_unit.
End structs.
End Msgs.

(** All messages that can be read and written. *)
Inductive Message :=
| MPing (id : Z) (message : bytes)
| MPong (id : Z) (message : bytes)
| MHsmdInit (key_version : Model.Bip32KeyVersion) (chain_params : bytes)
    (encryption_key dev_privkey dev_bip32_seed : option bytes)
    (dev_channel_secrets : option (list bytes)) (dev_channel_secrets_shaseed : option bytes)
    (hsm_wire_min_version hsm_wire_max_version : Z)
| MHsmdInitReplyV2 (node_id bip32 bolt12 : bytes)
| MHsmdInitReplyV4 (hsm_version : Z) (hsm_capabilities : list Z)
    (node_id bip32 bolt12 : bytes)
| MHsmdInit2 (derivation_style : Z) (network_name : bytes) (dev_seed : option bytes)
    (dev_allowlist : list bytes)
| MHsmdInit2Reply (node_id bip32 bolt12 : bytes)
| MClientHsmFd (peer_id : bytes) (dbid capabilities : Z)
| MClientHsmFdReply
| MSignInvoice (u5bytes hrp : bytes)
| MSignInvoiceReply (signature : bytes)
| MSignWithdrawal (utxos : list Model.Utxo) (psbt : bytes)
| MSignWithdrawalReply (psbt : bytes)
| MEcdh (point : bytes)
| MEcdhReply (secret : bytes)
| MMemleak
| MMemleakReply (result : bool)
| MCheckFutureSecret (commitment_number : Z) (secret : bytes)
| MCheckFutureSecretReply (result : bool)
| MSignBolt12 (message_name field_name merkle_root public_tweak : bytes)
| MSignBolt12Reply (signature : bytes)
| MPreapproveInvoice (invstring : bytes)
| MPreapproveInvoiceReply (result : bool)
| MPreapproveKeysend (destination payment_hash : bytes) (amount_msat : Z)
| MPreapproveKeysendReply (result : bool)
| MDeriveSecret (info : bytes)
| MDeriveSecretReply (secret : bytes)
| MCheckPubKey (index : Z) (pubkey : bytes)
| MCheckPubKeyReply (ok : bool)
| MSignMessage (message : bytes)
| MSignMessageReply (signature : bytes)
| MSignChannelUpdate (update : bytes)
| MSignChannelUpdateReply (update : bytes)
| MSignChannelAnnouncement (announcement : bytes)
| MSignChannelAnnouncementReply (node_signature bitcoin_signature : bytes)
| MSignNodeAnnouncement (announcement : bytes)
| MSignNodeAnnouncementReply (signature : bytes)
| MGetPerCommitmentPoint (commitment_number : Z)
| MGetPerCommitmentPointReply (point : bytes) (secret : option bytes)
| MGetPerCommitmentPoint2 (commitment_number : Z)
| MGetPerCommitmentPoint2Reply (point : bytes)
| MReadyChannel (is_outbound : bool) (channel_value push_value : Z) (funding_txid : bytes)
    (funding_txout to_self_delay : Z) (local_shutdown_script : bytes)
    (local_shutdown_wallet_index : option Z) (remote_basepoints : Model.Basepoints)
    (remote_funding_pubkey : bytes) (remote_to_self_delay : Z)
    (remote_shutdown_script channel_type : bytes)
| MReadyChannelReply
| MValidateCommitmentTx (tx psbt : bytes) (htlcs : list Model.Htlc)
    (commitment_number feerate : Z) (signature : Model.BitcoinSignature)
    (htlc_signatures : list Model.BitcoinSignature)
| MValidateCommitmentTx2
    (commitment_number feerate to_local_value_sat to_remote_value_sat : Z)
    (htlcs : list Model.Htlc) (signature : Model.BitcoinSignature)
    (htlc_signatures : list Model.BitcoinSignature)
| MValidateCommitmentTxReply (old_commitment_secret : option bytes)
    (next_per_commitment_point : bytes)
| MValidateRevocation (commitment_number : Z) (commitment_secret : bytes)
| MValidateRevocationReply
| MSignRemoteCommitmentTx (tx psbt remote_funding_key remote_per_commitment_point : bytes)
    (option_static_remotekey : bool) (commitment_number : Z) (htlcs : list Model.Htlc)
    (feerate : Z)
| MSignRemoteCommitmentTx2 (remote_per_commitment_point : bytes)
    (commitment_number feerate to_local_value_sat to_remote_value_sat : Z)
    (htlcs : list Model.Htlc)
| MSignCommitmentTxWithHtlcsReply (signature : Model.BitcoinSignature)
    (htlc_signatures : list Model.BitcoinSignature)
| MSignDelayedPaymentToUs (commitment_number : Z) (tx psbt wscript : bytes)
| MSignAnyDelayedPaymentToUs (commitment_number : Z) (tx psbt wscript : bytes) (input : Z)
    (peer_id : bytes) (dbid : Z)
| MSignRemoteHtlcToUs (remote_per_commitment_point tx psbt wscript : bytes)
    (option_anchors : bool)
| MSignAnyRemoteHtlcToUs (remote_per_commitment_point tx psbt wscript : bytes)
    (option_anchors : bool) (input : Z) (peer_id : bytes) (dbid : Z)
| MSignLocalHtlcTx (commitment_number : Z) (tx psbt wscript : bytes) (option_anchors : bool)
| MSignAnyLocalHtlcTx (commitment_number : Z) (tx psbt wscript : bytes)
    (option_anchors : bool) (input : Z) (peer_id : bytes) (dbid : Z)
| MSignCommitmentTx (peer_id : bytes) (dbid : Z) (tx psbt remote_funding_key : bytes)
    (commitment_number : Z)
| MSignLocalCommitmentTx2 (commitment_number : Z)
| MSignGossipMessage (message : bytes)
| MSignMutualCloseTx (tx psbt remote_funding_key : bytes)
| MSignMutualCloseTx2 (to_local_value_sat to_remote_value_sat : Z)
    (local_script remote_script : bytes) (local_wallet_path_hint : list Z)
| MSignTxReply (signature : Model.BitcoinSignature)
| MSignCommitmentTxReply (signature : Model.BitcoinSignature)
| MGetChannelBasepoints (node_id : bytes) (dbid : Z)
| MGetChannelBasepointsReply (basepoints : Model.Basepoints) (funding : bytes)
| MNewChannel (node_id : bytes) (dbid : Z)
| MNewChannelReply
| MSignRemoteHtlcTx (tx psbt wscript remote_per_commitment_point : bytes)
    (option_anchors : bool)
| MSignPenaltyToUs (revocation_secret tx psbt wscript : bytes)
| MSignAnyPenaltyToUs (revocation_secret tx psbt wscript : bytes) (input : Z)
    (peer_id : bytes) (dbid : Z)
| MTipInfo
| MTipInfoReply (height : Z) (block_hash : bytes)
| MForwardWatches
| MForwardWatchesReply (txids : list bytes) (outpoints : list Model.OutPoint)
| MReverseWatches
| MReverseWatchesReply (txids : list bytes) (outpoints : list Model.OutPoint)
| MAddBlock (header : bytes) (unspent_proof : option bytes)
| MAddBlockReply
| MRemoveBlock (unspent_proof : option bytes)
| MRemoveBlockReply
| MGetHeartbeat
| MGetHeartbeatReply (heartbeat : bytes)
| MNodeInfo
| MNodeInfoReply (network_name node_id bip32 : bytes)
| MBlockChunk (hash : bytes) (offset : Z) (content : bytes)
| MBlockChunkReply
| MUnknown (message_type : Z) (data : bytes).

Section messages.
Context `{SB : SerdeBolt}.

(** The derived [inner]: the struct of a message, as a trait object. *)
Definition inner (self : Message) : SerBolt :=
  match self with
  | MPing id message => pack Msgs.Ping (id, message)
  | MPong id message => pack Msgs.Pong (id, message)
  | MHsmdInit key_version chain_params encryption_key dev_privkey dev_bip32_seed
      dev_channel_secrets dev_channel_secrets_shaseed hsm_wire_min_version hsm_wire_max_version =>
      pack Msgs.HsmdInit
        (key_version, chain_params, encryption_key, dev_privkey, dev_bip32_seed,
        dev_channel_secrets, dev_channel_secrets_shaseed, hsm_wire_min_version,
        hsm_wire_max_version)
  | MHsmdInitReplyV2 node_id bip32 bolt12 => pack Msgs.HsmdInitReplyV2 (node_id, bip32, bolt12)
  | MHsmdInitReplyV4 hsm_version hsm_capabilities node_id bip32 bolt12 =>
      pack Msgs.HsmdInitReplyV4
        (hsm_version, hsm_capabilities, node_id, bip32, bolt12)
  | MHsmdInit2 derivation_style network_name dev_seed dev_allowlist =>
      pack Msgs.HsmdInit2
        (derivation_style, network_name, dev_seed, dev_allowlist)
  | MHsmdInit2Reply node_id bip32 bolt12 => pack Msgs.HsmdInit2Reply (node_id, bip32, bolt12)
  | MClientHsmFd peer_id dbid capabilities => pack Msgs.ClientHsmFd (peer_id, dbid, capabilities)
  | MClientHsmFdReply => pack Msgs.ClientHsmFdReply tt
  | MSignInvoice u5bytes hrp => pack Msgs.SignInvoice (u5bytes, hrp)
  | MSignInvoiceReply signature => pack Msgs.SignInvoiceReply signature
  | MSignWithdrawal utxos psbt => pack Msgs.SignWithdrawal (utxos, psbt)
  | MSignWithdrawalReply psbt => pack Msgs.SignWithdrawalReply psbt
  | MEcdh point => pack Msgs.Ecdh point
  | MEcdhReply secret => pack Msgs.EcdhReply secret
  | MMemleak => pack Msgs.Memleak tt
  | MMemleakReply result => pack Msgs.MemleakReply result
  | MCheckFutureSecret commitment_number secret =>
      pack Msgs.CheckFutureSecret
        (commitment_number, secret)
  | MCheckFutureSecretReply result => pack Msgs.CheckFutureSecretReply result
  | MSignBolt12 message_name field_name merkle_root public_tweak =>
      pack Msgs.SignBolt12
        (message_name, field_name, merkle_root, public_tweak)
  | MSignBolt12Reply signature => pack Msgs.SignBolt12Reply signature
  | MPreapproveInvoice invstring => pack Msgs.PreapproveInvoice invstring
  | MPreapproveInvoiceReply result => pack Msgs.PreapproveInvoiceReply result
  | MPreapproveKeysend destination payment_hash amount_msat =>
      pack Msgs.PreapproveKeysend
        (destination, payment_hash, amount_msat)
  | MPreapproveKeysendReply result => pack Msgs.PreapproveKeysendReply result
  | MDeriveSecret info => pack Msgs.DeriveSecret info
  | MDeriveSecretReply secret => pack Msgs.DeriveSecretReply secret
  | MCheckPubKey index pubkey => pack Msgs.CheckPubKey (index, pubkey)
  | MCheckPubKeyReply ok => pack Msgs.CheckPubKeyReply ok
  | MSignMessage message => pack Msgs.SignMessage message
  | MSignMessageReply signature => pack Msgs.SignMessageReply signature
  | MSignChannelUpdate update => pack Msgs.SignChannelUpdate update
  | MSignChannelUpdateReply update => pack Msgs.SignChannelUpdateReply update
  | MSignChannelAnnouncement announcement => pack Msgs.SignChannelAnnouncement announcement
  | MSignChannelAnnouncementReply node_signature bitcoin_signature =>
      pack Msgs.SignChannelAnnouncementReply
        (node_signature, bitcoin_signature)
  | MSignNodeAnnouncement announcement => pack Msgs.SignNodeAnnouncement announcement
  | MSignNodeAnnouncementReply signature => pack Msgs.SignNodeAnnouncementReply signature
  | MGetPerCommitmentPoint commitment_number => pack Msgs.GetPerCommitmentPoint commitment_number
  | MGetPerCommitmentPointReply point secret =>
      pack Msgs.GetPerCommitmentPointReply
        (point, secret)
  | MGetPerCommitmentPoint2 commitment_number =>
      pack Msgs.GetPerCommitmentPoint2
        (commitment_number)
  | MGetPerCommitmentPoint2Reply point => pack Msgs.GetPerCommitmentPoint2Reply point
  | MReadyChannel is_outbound channel_value push_value funding_txid funding_txout to_self_delay
      local_shutdown_script local_shutdown_wallet_index remote_basepoints remote_funding_pubkey
      remote_to_self_delay remote_shutdown_script channel_type =>
      pack Msgs.ReadyChannel
        (is_outbound, channel_value, push_value, funding_txid, funding_txout, to_self_delay,
        local_shutdown_script, local_shutdown_wallet_index, remote_basepoints,
        remote_funding_pubkey, remote_to_self_delay, remote_shutdown_script, channel_type)
  | MReadyChannelReply => pack Msgs.ReadyChannelReply tt
  | MValidateCommitmentTx tx psbt htlcs commitment_number feerate signature htlc_signatures =>
      pack Msgs.ValidateCommitmentTx
        (tx, psbt, htlcs, commitment_number, feerate, signature, htlc_signatures)
  | MValidateCommitmentTx2 commitment_number feerate to_local_value_sat to_remote_value_sat htlcs
      signature htlc_signatures =>
      pack Msgs.ValidateCommitmentTx2
        (commitment_number, feerate, to_local_value_sat, to_remote_value_sat, htlcs, signature,
        htlc_signatures)
  | MValidateCommitmentTxReply old_commitment_secret next_per_commitment_point =>
      pack Msgs.ValidateCommitmentTxReply
        (old_commitment_secret, next_per_commitment_point)
  | MValidateRevocation commitment_number commitment_secret =>
      pack Msgs.ValidateRevocation
        (commitment_number, commitment_secret)
  | MValidateRevocationReply => pack Msgs.ValidateRevocationReply tt
  | MSignRemoteCommitmentTx tx psbt remote_funding_key remote_per_commitment_point
      option_static_remotekey commitment_number htlcs feerate =>
      pack Msgs.SignRemoteCommitmentTx
        (tx, psbt, remote_funding_key, remote_per_commitment_point, option_static_remotekey,
        commitment_number, htlcs, feerate)
  | MSignRemoteCommitmentTx2 remote_per_commitment_point commitment_number feerate
      to_local_value_sat to_remote_value_sat htlcs =>
      pack Msgs.SignRemoteCommitmentTx2
        (remote_per_commitment_point, commitment_number, feerate, to_local_value_sat,
        to_remote_value_sat, htlcs)
  | MSignCommitmentTxWithHtlcsReply signature htlc_signatures =>
      pack Msgs.SignCommitmentTxWithHtlcsReply
        (signature, htlc_signatures)
  | MSignDelayedPaymentToUs commitment_number tx psbt wscript =>
      pack Msgs.SignDelayedPaymentToUs
        (commitment_number, tx, psbt, wscript)
  | MSignAnyDelayedPaymentToUs commitment_number tx psbt wscript input peer_id dbid =>
      pack Msgs.SignAnyDelayedPaymentToUs
        (commitment_number, tx, psbt, wscript, input, peer_id, dbid)
  | MSignRemoteHtlcToUs remote_per_commitment_point tx psbt wscript option_anchors =>
      pack Msgs.SignRemoteHtlcToUs
        (remote_per_commitment_point, tx, psbt, wscript, option_anchors)
  | MSignAnyRemoteHtlcToUs remote_per_commitment_point tx psbt wscript option_anchors input
      peer_id dbid =>
      pack Msgs.SignAnyRemoteHtlcToUs
        (remote_per_commitment_point, tx, psbt, wscript, option_anchors, input, peer_id, dbid)
  | MSignLocalHtlcTx commitment_number tx psbt wscript option_anchors =>
      pack Msgs.SignLocalHtlcTx
        (commitment_number, tx, psbt, wscript, option_anchors)
  | MSignAnyLocalHtlcTx commitment_number tx psbt wscript option_anchors input peer_id dbid =>
      pack Msgs.SignAnyLocalHtlcTx
        (commitment_number, tx, psbt, wscript, option_anchors, input, peer_id, dbid)
  | MSignCommitmentTx peer_id dbid tx psbt remote_funding_key commitment_number =>
      pack Msgs.SignCommitmentTx
        (peer_id, dbid, tx, psbt, remote_funding_key, commitment_number)
  | MSignLocalCommitmentTx2 commitment_number =>
      pack Msgs.SignLocalCommitmentTx2
        (commitment_number)
  | MSignGossipMessage message => pack Msgs.SignGossipMessage message
  | MSignMutualCloseTx tx psbt remote_funding_key =>
      pack Msgs.SignMutualCloseTx
        (tx, psbt, remote_funding_key)
  | MSignMutualCloseTx2 to_local_value_sat to_remote_value_sat local_script remote_script
      local_wallet_path_hint =>
      pack Msgs.SignMutualCloseTx2
        (to_local_value_sat, to_remote_value_sat, local_script, remote_script,
        local_wallet_path_hint)
  | MSignTxReply signature => pack Msgs.SignTxReply signature
  | MSignCommitmentTxReply signature => pack Msgs.SignCommitmentTxReply signature
  | MGetChannelBasepoints node_id dbid => pack Msgs.GetChannelBasepoints (node_id, dbid)
  | MGetChannelBasepointsReply basepoints funding =>
      pack Msgs.GetChannelBasepointsReply
        (basepoints, funding)
  | MNewChannel node_id dbid => pack Msgs.NewChannel (node_id, dbid)
  | MNewChannelReply => pack Msgs.NewChannelReply tt
  | MSignRemoteHtlcTx tx psbt wscript remote_per_commitment_point option_anchors =>
      pack Msgs.SignRemoteHtlcTx
        (tx, psbt, wscript, remote_per_commitment_point, option_anchors)
  | MSignPenaltyToUs revocation_secret tx psbt wscript =>
      pack Msgs.SignPenaltyToUs
        (revocation_secret, tx, psbt, wscript)
  | MSignAnyPenaltyToUs revocation_secret tx psbt wscript input peer_id dbid =>
      pack Msgs.SignAnyPenaltyToUs
        (revocation_secret, tx, psbt, wscript, input, peer_id, dbid)
  | MTipInfo => pack Msgs.TipInfo tt
  | MTipInfoReply height block_hash => pack Msgs.TipInfoReply (height, block_hash)
  | MForwardWatches => pack Msgs.ForwardWatches tt
  | MForwardWatchesReply txids outpoints => pack Msgs.ForwardWatchesReply (txids, outpoints)
  | MReverseWatches => pack Msgs.ReverseWatches tt
  | MReverseWatchesReply txids outpoints => pack Msgs.ReverseWatchesReply (txids, outpoints)
  | MAddBlock header unspent_proof => pack Msgs.AddBlock (header, unspent_proof)
  | MAddBlockReply => pack Msgs.AddBlockReply tt
  | MRemoveBlock unspent_proof => pack Msgs.RemoveBlock unspent_proof
  | MRemoveBlockReply => pack Msgs.RemoveBlockReply tt
  | MGetHeartbeat => pack Msgs.GetHeartbeat tt
  | MGetHeartbeatReply heartbeat => pack Msgs.GetHeartbeatReply heartbeat
  | MNodeInfo => pack Msgs.NodeInfo tt
  | MNodeInfoReply network_name node_id bip32 =>
      pack Msgs.NodeInfoReply
        (network_name, node_id, bip32)
  | MBlockChunk hash offset content => pack Msgs.BlockChunk (hash, offset, content)
  | MBlockChunkReply => pack Msgs.BlockChunkReply tt
  | MUnknown _ _ => pack Msgs.UnknownPlaceholder tt
  end.

(** The arms of the derived [read_message], in the order of the variants. *)
Definition variants : list (Z * (bytes -> outcome Error Message)) :=
  [
   arm Msgs.Ping (args2 MPing);
   arm Msgs.Pong (args2 MPong);
   arm Msgs.HsmdInit (args9 MHsmdInit);
   arm Msgs.HsmdInitReplyV2 (args3 MHsmdInitReplyV2);
   arm Msgs.HsmdInitReplyV4 (args5 MHsmdInitReplyV4);
   arm Msgs.HsmdInit2 (args4 MHsmdInit2);
   arm Msgs.HsmdInit2Reply (args3 MHsmdInit2Reply);
   arm Msgs.ClientHsmFd (args3 MClientHsmFd);
   arm Msgs.ClientHsmFdReply (fun _ => MClientHsmFdReply);
   arm Msgs.SignInvoice (args2 MSignInvoice);
   arm Msgs.SignInvoiceReply MSignInvoiceReply;
   arm Msgs.SignWithdrawal (args2 MSignWithdrawal);
   arm Msgs.SignWithdrawalReply MSignWithdrawalReply;
   arm Msgs.Ecdh MEcdh;
   arm Msgs.EcdhReply MEcdhReply;
   arm Msgs.Memleak (fun _ => MMemleak);
   arm Msgs.MemleakReply MMemleakReply;
   arm Msgs.CheckFutureSecret (args2 MCheckFutureSecret);
   arm Msgs.CheckFutureSecretReply MCheckFutureSecretReply;
   arm Msgs.SignBolt12 (args4 MSignBolt12);
   arm Msgs.SignBolt12Reply MSignBolt12Reply;
   arm Msgs.PreapproveInvoice MPreapproveInvoice;
   arm Msgs.PreapproveInvoiceReply MPreapproveInvoiceReply;
   arm Msgs.PreapproveKeysend (args3 MPreapproveKeysend);
   arm Msgs.PreapproveKeysendReply MPreapproveKeysendReply;
   arm Msgs.DeriveSecret MDeriveSecret;
   arm Msgs.DeriveSecretReply MDeriveSecretReply;
   arm Msgs.CheckPubKey (args2 MCheckPubKey);
   arm Msgs.CheckPubKeyReply MCheckPubKeyReply;
   arm Msgs.SignMessage MSignMessage;
   arm Msgs.SignMessageReply MSignMessageReply;
   arm Msgs.SignChannelUpdate MSignChannelUpdate;
   arm Msgs.SignChannelUpdateReply MSignChannelUpdateReply;
   arm Msgs.SignChannelAnnouncement MSignChannelAnnouncement;
   arm Msgs.SignChannelAnnouncementReply (args2 MSignChannelAnnouncementReply);
   arm Msgs.SignNodeAnnouncement MSignNodeAnnouncement;
   arm Msgs.SignNodeAnnouncementReply MSignNodeAnnouncementReply;
   arm Msgs.GetPerCommitmentPoint MGetPerCommitmentPoint;
   arm Msgs.GetPerCommitmentPointReply (args2 MGetPerCommitmentPointReply);
   arm Msgs.GetPerCommitmentPoint2 MGetPerCommitmentPoint2;
   arm Msgs.GetPerCommitmentPoint2Reply MGetPerCommitmentPoint2Reply;
   arm Msgs.ReadyChannel (args13 MReadyChannel);
   arm Msgs.ReadyChannelReply (fun _ => MReadyChannelReply);
   arm Msgs.ValidateCommitmentTx (args7 MValidateCommitmentTx);
   arm Msgs.ValidateCommitmentTx2 (args7 MValidateCommitmentTx2);
   arm Msgs.ValidateCommitmentTxReply (args2 MValidateCommitmentTxReply);
   arm Msgs.ValidateRevocation (args2 MValidateRevocation);
   arm Msgs.ValidateRevocationReply (fun _ => MValidateRevocationReply);
   arm Msgs.SignRemoteCommitmentTx (args8 MSignRemoteCommitmentTx);
   arm Msgs.SignRemoteCommitmentTx2 (args6 MSignRemoteCommitmentTx2);
   arm Msgs.SignCommitmentTxWithHtlcsReply (args2 MSignCommitmentTxWithHtlcsReply);
   arm Msgs.SignDelayedPaymentToUs (args4 MSignDelayedPaymentToUs);
   arm Msgs.SignAnyDelayedPaymentToUs (args7 MSignAnyDelayedPaymentToUs);
   arm Msgs.SignRemoteHtlcToUs (args5 MSignRemoteHtlcToUs);
   arm Msgs.SignAnyRemoteHtlcToUs (args8 MSignAnyRemoteHtlcToUs);
   arm Msgs.SignLocalHtlcTx (args5 MSignLocalHtlcTx);
   arm Msgs.SignAnyLocalHtlcTx (args8 MSignAnyLocalHtlcTx);
   arm Msgs.SignCommitmentTx (args6 MSignCommitmentTx);
   arm Msgs.SignLocalCommitmentTx2 MSignLocalCommitmentTx2;
   arm Msgs.SignGossipMessage MSignGossipMessage;
   arm Msgs.SignMutualCloseTx (args3 MSignMutualCloseTx);
   arm Msgs.SignMutualCloseTx2 (args5 MSignMutualCloseTx2);
   arm Msgs.SignTxReply MSignTxReply;
   arm Msgs.SignCommitmentTxReply MSignCommitmentTxReply;
   arm Msgs.GetChannelBasepoints (args2 MGetChannelBasepoints);
   arm Msgs.GetChannelBasepointsReply (args2 MGetChannelBasepointsReply);
   arm Msgs.NewChannel (args2 MNewChannel);
   arm Msgs.NewChannelReply (fun _ => MNewChannelReply);
   arm Msgs.SignRemoteHtlcTx (args5 MSignRemoteHtlcTx);
   arm Msgs.SignPenaltyToUs (args4 MSignPenaltyToUs);
   arm Msgs.SignAnyPenaltyToUs (args7 MSignAnyPenaltyToUs);
   arm Msgs.TipInfo (fun _ => MTipInfo);
   arm Msgs.TipInfoReply (args2 MTipInfoReply);
   arm Msgs.ForwardWatches (fun _ => MForwardWatches);
   arm Msgs.ForwardWatchesReply (args2 MForwardWatchesReply);
   arm Msgs.ReverseWatches (fun _ => MReverseWatches);
   arm Msgs.ReverseWatchesReply (args2 MReverseWatchesReply);
   arm Msgs.AddBlock (args2 MAddBlock);
   arm Msgs.AddBlockReply (fun _ => MAddBlockReply);
   arm Msgs.RemoveBlock MRemoveBlock;
   arm Msgs.RemoveBlockReply (fun _ => MRemoveBlockReply);
   arm Msgs.GetHeartbeat (fun _ => MGetHeartbeat);
   arm Msgs.GetHeartbeatReply MGetHeartbeatReply;
   arm Msgs.NodeInfo (fun _ => MNodeInfo);
   arm Msgs.NodeInfoReply (args3 MNodeInfoReply);
   arm Msgs.BlockChunk (args3 MBlockChunk);
   arm Msgs.BlockChunkReply (fun _ => MBlockChunkReply)].
Fixpoint lookup_arm (message_type : Z) (arms : list (Z * (bytes -> outcome Error Message)))
  : option (bytes -> outcome Error Message) :=
  match arms with
  | [] => None
  | (t, read) :: arms => if t =? message_type then Some read else lookup_arm message_type arms
  end.

(** The derived [Message::read_message]. *)
Definition read_message (data : bytes) (message_type : Z) : outcome Error Message :=
  match lookup_arm message_type variants with
  | Some read => read data
  | None => Ok (MUnknown message_type data)
  end.
End messages.

(** ** Reading from and writing to a stream (io.rs, msgs.rs) *)

(** The trait [Read]: up to [n] bytes. *)
Class Read `{SerdeBolt} (R : Type) := read : nat -> R -> outcome BoltError (bytes * R).

Definition MAX_MESSAGE_SIZE : Z := 128 * 1024.

Section streams.
Context `{SB : SerdeBolt} {R : Type} `{!Read R}.

Definition read_bytes (n : nat) (reader : R) : outcome Error (bytes * R) :=
  '(buf, reader) ← map_err BoltErr (read n reader);
  if (length buf =? 0)%nat then Err Eof
  else if (length buf <? n)%nat then Err ShortRead
  else Ok (buf, reader).

Definition read_uint (n : nat) (reader : R) : outcome Error (Z * R) :=
  '(buf, reader) ← read_bytes n reader; Ok (from_be_bytes buf, reader).
Definition read_u64 := read_uint 8.
Definition read_u32 := read_uint 4.
Definition read_u16 := read_uint 2.

(** [reader.read(&mut data)] into a buffer of [n] bytes that must be filled. *)
Definition fill (n : nat) (reader : R) : outcome Error (bytes * R) :=
  '(data, reader) ← map_err BoltErr (read n reader);
  if (length data <? n)%nat then Err ShortRead else Ok (data, reader).

Definition message_and_type_from_reader (reader : R) (len : Z) : outcome Error (bytes * Z * R) :=
  if len <? 2 then Err ShortRead
  else if MAX_MESSAGE_SIZE <? len then Err MessageTooLarge
  else
    '(message_type, reader) ← read_u16 reader;
    '(data, reader) ← fill (Z.to_nat (len - 2)) reader;
    Ok (data, message_type, reader).

Definition from_reader (reader : R) (len : Z) : outcome Error (Message * R) :=
  '(data, message_type, reader) ← message_and_type_from_reader reader len;
  m ← read_message data message_type;
  Ok (m, reader).

Definition msg_read (reader : R) : outcome Error (Message * R) :=
  '(len, reader) ← read_u32 reader;
  from_reader reader len.

Definition read_raw (reader : R) : outcome Error (bytes * R) :=
  '(len, reader) ← read_u32 reader;
  fill (Z.to_nat len) reader.
End streams.

Section vectors.
Context `{SB : SerdeBolt}.

(** A [Vec<u8>] as a reader. *)
#[export] Instance vec_read : Read bytes := fun n v => Ok (take n v, drop n v).

Definition from_vec (v : bytes) : outcome Error Message :=
  '(m, _) ← from_reader v (as_u 32 (Z.of_nat (length v)));
  Ok m.

(** [DeBolt::from_vec] of a struct. *)
Definition debolt_from_vec {A} (t : Struct A) (v : bytes) : outcome Error A :=
  '(message_type, v) ← read_u16 v;
  if negb (message_type =? TYPE t) then Err (UnexpectedType message_type)
  else from_vec_no_trailing t v.

Definition read_struct {R} `{!Read R} {A} (t : Struct A) (reader : R) : outcome Error (A * R) :=
  '(v, reader) ← read_raw reader;
  x ← debolt_from_vec t v;
  Ok (x, reader).

(** What [write_vec] and [write] append to the writer. *)
Definition write_vec (buf : bytes) : bytes :=
  to_be_bytes 4 (as_u 32 (Z.of_nat (length buf))) ++ buf.

Definition msg_write {A} (t : Struct A) (value : A) : outcome Error bytes :=
  val_buf ← map_err BoltErr (ser (format (fields t)) value);
  Ok (write_vec (to_be_bytes 2 (TYPE t) ++ val_buf)).

Record SerialRequestHeader := { srh_sequence : Z; srh_peer_id : bytes; srh_dbid : Z }.

Definition write_serial_request_header (srh : SerialRequestHeader) : bytes :=
  to_be_bytes 2 0xaa55 ++ to_be_bytes 2 (srh_sequence srh) ++ srh_peer_id srh
  ++ to_be_bytes 8 (srh_dbid srh).

Definition write_serial_response_header (sequence : Z) : bytes :=
  to_be_bytes 2 0x5aa5 ++ to_be_bytes 2 sequence.

Definition read_serial_request_header {R} `{!Read R} (reader : R)
  : outcome Error (SerialRequestHeader * R) :=
  '(magic, reader) ← read_u16 reader;
  if negb (magic =? 0xaa55) then Err BadFraming
  else
    '(sequence, reader) ← read_u16 reader;
    '(peer_id, reader) ← read_bytes 33 reader;
    '(dbid, reader) ← read_u64 reader;
    Ok ({| srh_sequence := sequence; srh_peer_id := peer_id; srh_dbid := dbid |}, reader).

Definition read_serial_response_header {R} `{!Read R} (reader : R) (expected_sequence : Z)
  : outcome Error R :=
  '(magic, reader) ← read_u16 reader;
  if negb (magic =? 0x5aa5) then Err BadFraming
  else
    '(sequence, reader) ← read_u16 reader;
    if negb (sequence =? expected_sequence) then Err BadFraming else Ok reader.
End vectors.

(** ** Round trips *)

(** Every valid value is written, and read back from the front of any bytes. *)
Class Lawful `{SerdeBolt} {A} (c : Codec A) : Prop :=
  lawful x : valid c x -> exists b, ser (format c) x = Ok b
    /\ forall rest, de (format c) (b ++ rest) = Ok (x, rest).

(** What the documentation of serde_bolt promises. *)
Class SerdeBoltLaws `{SB : SerdeBolt} : Prop := {
  int_lawful n :: Lawful (serde_int n);
  bool_lawful :: Lawful serde_bool;
  octets_lawful :: Lawful serde_octets;
  large_octets_lawful :: Lawful serde_large_octets;
  wire_string_lawful :: Lawful serde_wire_string;
  option_lawful A (c : Codec A) :: Lawful c -> Lawful (serde_option c);
  vec_lawful A (c : Codec A) :: Lawful c -> Lawful (serde_vec c)
}.

(** A reader that gives the bytes of its contents in order, as many as asked
    for while there are enough; [ready] is an invariant of its states. *)
Class ReadLaws `{SB : SerdeBolt} (R : Type) `{!Read R} := {
  ready : R -> Prop;
  contents : R -> bytes;
  read_spec n r : ready r -> (n <= length (contents r))%nat ->
    exists r', read n r = Ok (take n (contents r), r') /\ ready r'
      /\ contents r' = drop n (contents r)
}.

#[export] Instance vec_read_laws `{SB : SerdeBolt} : ReadLaws bytes.
Proof. exists (fun _ => True) id. intros n r _ _. by exists (drop n r). Defined.

Section laws.
Context `{SB : SerdeBolt, HL : !SerdeBoltLaws}.

#[export] Instance unit_lawful : Lawful serde_unit.
Proof. intros [] _. by exists []. Qed.

#[export] Instance pair_lawful {A B} (c : Codec A) (d : Codec B) :
  Lawful c -> Lawful d -> Lawful (c &+ d).
Proof.
  intros Hc Hd [x y] [Hx Hy]. destruct (Hc x Hx) as (b1 & Hs1 & Hd1), (Hd y Hy) as (b2 & Hs2 & Hd2).
  exists (b1 ++ b2). cbn. rewrite Hs1, Ok_bind, Hs2. split; [done|]. intros rest.
  by rewrite <- app_assoc, Hd1, Ok_bind, Hd2.
Qed.

Lemma record_lawful {A B} (to : A -> B) (from : B -> A) (c : Codec B) :
  (forall x, from (to x) = x) -> Lawful c -> Lawful (serde_record to from c).
Proof.
  intros Hft Hc x Hx. destruct (Hc (to x) Hx) as (b & Hs & Hd). exists b. split; [done|].
  intros rest. cbn. by rewrite Hd, Ok_bind, Hft.
Qed.

#[export] Instance array_lawful len : Lawful (array_impl len).
Proof.
  intros a [Ha <-]. cbn. induction Ha as [|x a Hx Ha (b & Hs & Hd)]; [by exists []|].
  destruct (int_lawful 1 x) as (b1 & Hs1 & Hd1); [done|]. exists (b1 ++ b). cbn [ser_array de_array length].
  unfold serde_u8.
  rewrite Hs1, Ok_bind, Hs. split; [done|]. intros rest.
  by rewrite <- app_assoc, Hd1, Ok_bind, Hd.
Qed.

#[export] Instance Bip32KeyVersion_lawful : Lawful Model.Bip32KeyVersion_serde.
Proof. apply record_lawful; [by intros []|apply _]. Qed.
#[export] Instance OutPoint_lawful : Lawful Model.OutPoint_serde.
Proof. apply record_lawful; [by intros []|apply _]. Qed.
#[export] Instance Basepoints_lawful : Lawful Model.Basepoints_serde.
Proof. apply record_lawful; [by intros []|apply _]. Qed.
#[export] Instance BitcoinSignature_lawful : Lawful Model.BitcoinSignature_serde.
Proof. apply record_lawful; [by intros []|apply _]. Qed.
#[export] Instance Htlc_lawful : Lawful Model.Htlc_serde.
Proof. apply record_lawful; [by intros []|apply _]. Qed.
#[export] Instance CloseInfo_lawful : Lawful Model.CloseInfo_serde.
Proof. apply record_lawful; [by intros []|apply _]. Qed.
#[export] Instance Utxo_lawful : Lawful Model.Utxo_serde.
Proof. apply record_lawful; [by intros []|apply _]. Qed.

(** A struct that is written is read back by its arm. *)
Definition readable (m : Message) : Prop :=
  valid (fields (sb_struct (inner m))) (sb_value (inner m)) ->
  exists b, ser (format (fields (sb_struct (inner m)))) (sb_value (inner m)) = Ok b
    /\ read_message b (TYPE (sb_struct (inner m))) = Ok m.

(** No two variants have the same type. *)
Lemma variants_NoDup : NoDup (variants.*1).
Proof. apply (bool_decide_unpack _). by vm_compute. Qed.

Lemma lookup_arm_at i arms t read : NoDup (arms.*1) -> arms !! i = Some (t, read) ->
  lookup_arm t arms = Some read.
Proof.
  revert i. induction arms as [|[t' read'] arms IH]; intros i Hnd Hi; [done|].
  apply NoDup_cons in Hnd as [Hnin Hnd]. destruct i as [|i]; cbn in *.
  - injection Hi as -> ->. by rewrite Z.eqb_refl.
  - destruct (t' =? t) eqn:Ht; [|by apply (IH i)]. apply Z.eqb_eq in Ht as ->. destruct Hnin.
    apply list_elem_of_fmap. exists (t, read). split; [done|]. by eapply list_elem_of_lookup_2.
Qed.

Lemma arm_readable {A} (i : nat) (t : Struct A) (f : A -> Message) m x : inner m = pack t x ->
  variants !! i = Some (arm t f) -> f x = m -> Lawful (fields t) -> readable m.
Proof.
  intros Hin Hi Hf Hl. unfold readable. rewrite Hin. cbn [sb_type sb_struct sb_value pack]. intros Hx.
  destruct (Hl x Hx) as (b & Hs & Hd). exists b. split; [done|]. unfold read_message.
  rewrite (lookup_arm_at i _ _ _ variants_NoDup Hi).
  unfold from_vec_no_trailing. specialize (Hd []). rewrite app_nil_r in Hd. rewrite Hd. cbn. by rewrite Hf.
Qed.

Definition position (t : Z) : nat := default 0%nat (fst <$> list_find (fun t' => t' = t) (variants.*1)).

Definition is_unknown_message (m : Message) : bool :=
  match m with MUnknown _ _ => true | _ => false end.

Lemma message_readable m : is_unknown_message m = false -> readable m.
Proof.
  intros Hm. destruct m; try discriminate Hm.
  all: lazymatch goal with |- readable ?m =>
    let i := eval vm_compute in (position (TYPE (sb_struct (inner m)))) in
    eapply (arm_readable i); [reflexivity|reflexivity|reflexivity|] end.
  all: lazymatch goal with |- Lawful (fields (?t _)) => unfold t; cbn [fields bolt] end.
  all: apply _.
Qed.

(** *** Bytes on a stream *)

Lemma length_to_be_bytes n x : length (to_be_bytes n x) = n.
Proof. revert x. induction n as [|n IH]; intros x; [done|]. cbn. rewrite length_app, IH. cbn. lia. Qed.

Lemma from_to_be_bytes n x : 0 <= x < 256 ^ Z.of_nat n -> from_be_bytes (to_be_bytes n x) = x.
Proof.
  revert x. induction n as [|n IH]; intros x Hx; [cbn in *; lia|].
  cbn [to_be_bytes]. unfold from_be_bytes in *. rewrite foldl_app, IH; cbn.
  - pose proof (Z.div_mod x 256). lia.
  - rewrite Nat2Z.inj_succ, Z.pow_succ_r in Hx by lia. split; [apply Z.div_pos; lia|].
    apply Z.div_lt_upper_bound; lia.
Qed.

End laws.

Section stream_laws.
Context `{SB : SerdeBolt, HL : !SerdeBoltLaws} {R : Type} `{!Read R, !ReadLaws R}.

(** The reader gives the bytes [rest] next. *)
Definition gives (r : R) (rest : bytes) : Prop := ready r /\ contents r = rest.

Lemma read_gives n b rest (r : R) : length b = n -> gives r (b ++ rest) ->
  exists r', read n r = Ok (b, r') /\ gives r' rest.
Proof.
  intros Hb [Hok Hr]. destruct (read_spec n r Hok) as (r' & Hread & Hok' & Hr'); [rewrite Hr, length_app; lia|].
  exists r'. rewrite Hr, take_app_length' in Hread by done. rewrite Hr, drop_app_length' in Hr' by done. done.
Qed.

Lemma read_bytes_spec n b rest (r : R) : length b = n -> (0 < n)%nat -> gives r (b ++ rest) ->
  exists r', read_bytes n r = Ok (b, r') /\ gives r' rest.
Proof.
  intros Hb Hn Hr. destruct (read_gives n b rest r Hb Hr) as (r' & Hread & Hr'). exists r'.
  unfold read_bytes. rewrite Hread. cbn [map_err]. rewrite Ok_bind.
  rewrite Hb, (proj2 (Nat.eqb_neq n 0)), Nat.ltb_irrefl by lia. done.
Qed.

Lemma fill_spec n b rest (r : R) : length b = n -> gives r (b ++ rest) ->
  exists r', fill n r = Ok (b, r') /\ gives r' rest.
Proof.
  intros Hb Hr. destruct (read_gives n b rest r Hb Hr) as (r' & Hread & Hr'). exists r'.
  unfold fill. rewrite Hread. cbn [map_err]. rewrite Ok_bind. by rewrite Hb, Nat.ltb_irrefl.
Qed.

Lemma read_uint_spec n x rest (r : R) : (0 < n)%nat -> 0 <= x < 256 ^ Z.of_nat n ->
  gives r (to_be_bytes n x ++ rest) -> exists r', read_uint n r = Ok (x, r') /\ gives r' rest.
Proof.
  intros Hn Hx Hr. destruct (read_bytes_spec n (to_be_bytes n x) rest r) as (r' & Hread & Hr');
    [apply length_to_be_bytes|done..|]. exists r'. unfold read_uint.
  by rewrite Hread, Ok_bind, from_to_be_bytes.
Qed.

(** What can be sent: a message of the enum whose fields are representable and
    that is not larger than the reader admits. *)
Definition sendable (m : Message) : Prop :=
  is_unknown_message m = false
  /\ valid (fields (sb_struct (inner m))) (sb_value (inner m))
  /\ forall b, as_vec (inner m) = Ok b -> Z.of_nat (length b) <= MAX_MESSAGE_SIZE.

Lemma sendable_intro m b : is_unknown_message m = false ->
  valid (fields (sb_struct (inner m))) (sb_value (inner m)) -> as_vec (inner m) = Ok b ->
  Z.of_nat (length b) <= MAX_MESSAGE_SIZE -> sendable m.
Proof. intros Hu Hv Hb Hl. split; [done|]. split; [done|]. intros b' Hb'. assert (b = b') as <- by congruence. done. Qed.

Lemma TYPE_u16 m : 0 <= TYPE (sb_struct (inner m)) < 256 ^ Z.of_nat 2.
Proof. destruct m; cbn; lia. Qed.

Lemma as_vec_readable m : sendable m -> exists b,
  as_vec (inner m) = Ok (to_be_bytes 2 (TYPE (sb_struct (inner m))) ++ b)
  /\ read_message b (TYPE (sb_struct (inner m))) = Ok m
  /\ Z.of_nat (length b) + 2 <= MAX_MESSAGE_SIZE.
Proof.
  intros (Hu & Hv & Hlen). destruct (message_readable m Hu Hv) as (b & Hs & Hr).
  exists b. assert (Hb : as_vec (inner m) = Ok (to_be_bytes 2 (TYPE (sb_struct (inner m))) ++ b)).
  { unfold as_vec. by rewrite Hs. }
  split; [done|]. split; [done|]. specialize (Hlen _ Hb). rewrite length_app, length_to_be_bytes in Hlen. lia.
Qed.

Lemma from_reader_spec m b rest (r : R) : sendable m -> as_vec (inner m) = Ok b ->
  gives r (b ++ rest) ->
  exists r', from_reader r (Z.of_nat (length b)) = Ok (m, r') /\ gives r' rest.
Proof.
  intros Hm Hb Hr. destruct (as_vec_readable m Hm) as (d & Hd & Hread & Hlen).
  assert (b = to_be_bytes 2 (TYPE (sb_struct (inner m))) ++ d) as -> by congruence.
  rewrite <- app_assoc in Hr.
  destruct (read_uint_spec 2 _ _ r ltac:(lia) (TYPE_u16 m) Hr) as (r1 & Hr1 & Hc1).
  rewrite length_app, length_to_be_bytes.
  destruct (fill_spec (length d) d rest r1 eq_refl Hc1) as (r2 & Hr2 & Hc2).
  exists r2. split; [|done]. unfold from_reader, message_and_type_from_reader, MAX_MESSAGE_SIZE in *.
  rewrite (proj2 (Z.ltb_ge _ _)), (proj2 (Z.ltb_ge _ _)) by lia. unfold read_u16.
  rewrite Hr1, Ok_bind. replace (Z.to_nat _) with (length d) by lia.
  by rewrite Hr2, !Ok_bind, Hread.
Qed.

Lemma msg_read_spec m b rest (r : R) : sendable m -> as_vec (inner m) = Ok b ->
  gives r (write_vec b ++ rest) ->
  exists r', msg_read r = Ok (m, r') /\ gives r' rest.
Proof.
  intros Hm Hb Hr. pose proof (proj2 (proj2 Hm) b Hb) as Hlen. unfold MAX_MESSAGE_SIZE in Hlen.
  unfold write_vec, as_u in Hr. rewrite Z.mod_small, <- app_assoc in Hr by lia.
  destruct (read_uint_spec 4 (Z.of_nat (length b)) (b ++ rest) r) as (r1 & Hr1 & Hc1); [lia|lia|done|].
  destruct (from_reader_spec m b rest r1 Hm Hb Hc1) as (r2 & Hr2 & Hc2).
  exists r2. split; [|done]. unfold msg_read, read_u32. by rewrite Hr1, Ok_bind, Hr2.
Qed.

Lemma from_vec_spec m b : sendable m -> as_vec (inner m) = Ok b -> from_vec b = Ok m.
Proof.
  intros Hm Hb. pose proof (proj2 (proj2 Hm) b Hb) as Hl. unfold MAX_MESSAGE_SIZE in Hl.
  unfold from_vec, as_u. rewrite Z.mod_small by lia.
  destruct (as_vec_readable m Hm) as (d & Hd & Hread & _).
  assert (b = to_be_bytes 2 (TYPE (sb_struct (inner m))) ++ d) as -> by congruence.
  unfold from_reader, message_and_type_from_reader, MAX_MESSAGE_SIZE.
  rewrite length_app, length_to_be_bytes in *.
  rewrite (proj2 (Z.ltb_ge _ _)), (proj2 (Z.ltb_ge _ _)) by lia.
  unfold read_u16, read_uint, read_bytes, fill, read, vec_read. cbn [map_err].
  rewrite Ok_bind, take_app_length', drop_app_length' by (by rewrite length_to_be_bytes).
  cbn [Nat.eqb andb]. rewrite length_to_be_bytes, Nat.ltb_irrefl. cbn [Nat.eqb]. rewrite !Ok_bind.
  rewrite from_to_be_bytes by apply TYPE_u16. replace (Z.to_nat _) with (length d) by lia.
  by rewrite firstn_all, Nat.ltb_irrefl, !Ok_bind, Hread.
Qed.

(** A struct that is written is read back where this struct is expected. *)
Lemma debolt_roundtrip {A} (t : Struct A) x : Lawful (fields t) -> valid (fields t) x ->
  0 <= TYPE t < 256 ^ Z.of_nat 2 ->
  exists b, as_vec (pack t x) = Ok b /\ debolt_from_vec t b = Ok x.
Proof.
  intros Hl Hx Ht. destruct (Hl x Hx) as (d & Hs & Hd). exists (to_be_bytes 2 (TYPE t) ++ d).
  split; [unfold as_vec; cbn; by rewrite Hs|].
  unfold debolt_from_vec, read_u16, read_uint, read_bytes, read, vec_read. cbn [map_err].
  rewrite Ok_bind, take_app_length', drop_app_length' by (by rewrite length_to_be_bytes).
  rewrite length_to_be_bytes, Nat.ltb_irrefl. cbn [Nat.eqb]. rewrite !Ok_bind, from_to_be_bytes by done.
  rewrite Z.eqb_refl. cbn [negb]. unfold from_vec_no_trailing.
  specialize (Hd []). rewrite app_nil_r in Hd. by rewrite Hd.
Qed.
End stream_laws.

Section claims.
Context `{SB : SerdeBolt, HL : !SerdeBoltLaws} {R : Type} `{!Read R, !ReadLaws R}.

(** The frames of a list of messages, and reading that many messages. *)
Fixpoint write_all (ms : list Message) : outcome Error bytes :=
  match ms with
  | [] => Ok []
  | m :: ms => b ← as_vec (inner m); bs ← write_all ms; Ok (write_vec b ++ bs)
  end.

Fixpoint read_all (n : nat) (r : R) : outcome Error (list Message * R) :=
  match n with
  | O => Ok ([], r)
  | S n => '(m, r) ← msg_read r; '(ms, r) ← read_all n r; Ok (m :: ms, r)
  end.

(** C30: messages survive the stream.  Any sequence of messages, of all 87 types of
    the enum, with representable fields and not above the maximal size, is
    written; and a reader that gives those bytes, followed by anything, reads
    back exactly these messages in their order and stops behind them.  The
    same bytes of one message are read back by [from_vec]. *)
Theorem message_stream_roundtrip ms rest (Hms : Forall sendable ms) :
  exists bs, write_all ms = Ok bs
    /\ (forall r : R, gives r (bs ++ rest) ->
          exists r', read_all (length ms) r = Ok (ms, r') /\ gives r' rest)
    /\ (forall m, m ∈ ms -> exists b, as_vec (inner m) = Ok b /\ from_vec b = Ok m).
Proof.
  induction Hms as [|m ms Hm Hms (bs & Hw & Hread & Hone)].
  - exists []. split; [done|]. split; [intros r Hr; by exists r|]. intros m Hm. by apply elem_of_nil in Hm.
  - destruct (as_vec_readable m Hm) as (d & Hd & _ & Hdl). set (b := _ ++ d) in Hd.
    exists (write_vec b ++ bs). cbn [write_all]. rewrite Hd, Ok_bind, Hw. split; [done|]. split.
    + intros r Hr. rewrite <- app_assoc in Hr.
      destruct (msg_read_spec m b (bs ++ rest) r Hm Hd Hr) as (r1 & Hr1 & Hc1).
      destruct (Hread r1 Hc1) as (r2 & Hr2 & Hc2). exists r2.
      cbn [read_all length]. by rewrite Hr1, Ok_bind, Hr2.
    + intros m' [->|Hin]%elem_of_cons; [|by apply Hone]. exists b. split; [done|].
      by apply from_vec_spec.
Qed.
End claims.

Section types.
Context `{SB : SerdeBolt}.

Lemma lookup_arm_elem t arms read : lookup_arm t arms = Some read -> (t, read) ∈ arms.
Proof.
  induction arms as [|[t' read'] arms IH]; [done|]. cbn. destruct (t' =? t) eqn:Ht.
  - intros [= ->]. apply Z.eqb_eq in Ht as ->. by left.
  - intros Hl. right. by apply IH.
Qed.

Lemma lookup_arm_None t arms : lookup_arm t arms = None -> t ∉ arms.*1.
Proof.
  induction arms as [|[t' read'] arms IH]; [by intros _ H%elem_of_nil|].
  cbn. destruct (t' =? t) eqn:Ht; [done|]. apply Z.eqb_neq in Ht.
  intros Hl [->|Hin]%elem_of_cons; [done|]. by apply IH.
Qed.

(** Every arm builds messages of its own type, from all the bytes. *)
Definition arm_typed (a : Z * (bytes -> outcome Error Message)) : Prop :=
  forall data m, a.2 data = Ok m ->
    TYPE (sb_struct (inner m)) = a.1 /\ is_unknown_message m = false
    /\ de (format (fields (sb_struct (inner m)))) data = Ok (sb_value (inner m), []).

Lemma from_vec_no_trailing_Ok {A} (t : Struct A) data x : from_vec_no_trailing t data = Ok x ->
  de (format (fields t)) data = Ok (x, []).
Proof.
  unfold from_vec_no_trailing. destruct (de _ data) as [[y rest]|e|]; [|done..]. cbn.
  destruct rest as [|b rest]; [|done]. by intros [= ->].
Qed.

Lemma arm_typed_intro {A} (t : Struct A) (f : A -> Message) :
  (forall x, inner (f x) = pack t x /\ is_unknown_message (f x) = false) ->
  arm_typed (arm t f).
Proof.
  intros Hf data m. cbn. destruct (from_vec_no_trailing t data) as [x|e|] eqn:Hx; [|done..].
  intros [= <-]. destruct (Hf x) as [-> Hu]. split; [done|]. split; [done|].
  by apply from_vec_no_trailing_Ok.
Qed.

Lemma variants_typed : Forall arm_typed variants.
Proof.
  unfold variants.
  repeat (apply Forall_cons_2; [apply arm_typed_intro; intros x;
    repeat match goal with p : _ * _ |- _ => destruct p | u : unit |- _ => destruct u end; by split|]).
  constructor.
Qed.

(** C31: decoding is typed.  Whatever the bytes, a message that is read has the type
    that was read in front of it; it is [Unknown], with the bytes kept as
    they are, exactly when the enum has no variant of that type.  Otherwise its
    fields are decoded from all the bytes: nothing is left over, so that bytes
    after the last field are an error. *)
Theorem decoded_message_typed data t m (Hread : read_message data t = Ok m) :
  (t ∈ variants.*1 /\ TYPE (sb_struct (inner m)) = t /\ is_unknown_message m = false
   /\ de (format (fields (sb_struct (inner m)))) data = Ok (sb_value (inner m), []))
  \/ (t ∉ variants.*1 /\ m = MUnknown t data).
Proof.
  unfold read_message in Hread. destruct (lookup_arm t variants) as [read|] eqn:Hl.
  - left. apply lookup_arm_elem in Hl. pose proof variants_typed as Hty.
    rewrite Forall_forall in Hty. destruct (Hty _ Hl data m Hread) as (Ht & Hu & Hd).
    split; [|done]. apply list_elem_of_fmap. by exists (t, read).
  - right. apply lookup_arm_None in Hl. by injection Hread as <-.
Qed.

(** The enum of all messages lacks the reply to [SignGossipMessage].  Its struct
    is written, and read back by the code that expects this struct, but
    [from_vec], which is to read any message, gives an unknown message. *)
Theorem gossip_reply_unreadable `{!SerdeBoltLaws} sig (Hsig : valid Model.Signature sig) :
  exists b data, as_vec (pack Msgs.SignGossipMessageReply sig) = Ok b
    /\ debolt_from_vec Msgs.SignGossipMessageReply b = Ok sig
    /\ read_message data 1106 = Ok (MUnknown 1106 data)
    /\ b = to_be_bytes 2 1106 ++ data.
Proof.
  destruct (array_lawful 64 sig Hsig) as (d & Hs & Hd). exists (to_be_bytes 2 1106 ++ d), d.
  split; [unfold as_vec; cbn in *; by rewrite Hs|]. split; [|done].
  unfold debolt_from_vec. change (read_u16 _) with (Ok (E := Error) (1106, d)). rewrite Ok_bind. cbn.
  unfold from_vec_no_trailing. specialize (Hd []). rewrite app_nil_r in Hd. cbn in *. by rewrite Hd.
Qed.
End types.

(** ** An instance of serde_bolt, for the witnesses *)

Section example.

Inductive ExampleError := TooShort | TooLarge.

Definition ex_int (n : nat) : Format ExampleError Z := {|
  ser x := if (0 <=? x) && (x <? 256 ^ Z.of_nat n) then Ok (to_be_bytes n x) else Err TooLarge;
  de b := if (length b <? n)%nat then Err TooShort
          else Ok (from_be_bytes (take n b), drop n b) |}.

Definition ex_octets (n : nat) : Format ExampleError bytes := {|
  ser b := l ← ser (ex_int n) (Z.of_nat (length b)); Ok (l ++ b);
  de b := '(l, b) ← de (ex_int n) b;
          if (length b <? Z.to_nat l)%nat then Err TooShort
          else Ok (take (Z.to_nat l) b, drop (Z.to_nat l) b) |}.

Fixpoint ex_string (b : bytes) : outcome ExampleError (bytes * bytes) :=
  match b with
  | [] => Err TooShort
  | x :: b => if x =? 0 then Ok ([], b) else '(s, b) ← ex_string b; Ok (x :: s, b)
  end.

Fixpoint ex_ser_list {A} (f : Format ExampleError A) (l : list A) : outcome ExampleError bytes :=
  match l with
  | [] => Ok []
  | x :: l => b1 ← ser f x; b2 ← ex_ser_list f l; Ok (b1 ++ b2)
  end.

Fixpoint ex_de_list {A} (f : Format ExampleError A) (n : nat) (b : bytes)
  : outcome ExampleError (list A * bytes) :=
  match n with
  | O => Ok ([], b)
  | S n => '(x, b) ← de f b; '(l, b) ← ex_de_list f n b; Ok (x :: l, b)
  end.

Definition example_serde : SerdeBolt := {|
  BoltError := ExampleError;
  bolt_int := ex_int;
  bolt_bool := {| ser b := Ok [if b : bool then 1 else 0];
                  de b := match b with x :: b => Ok (negb (x =? 0), b) | [] => Err TooShort end |};
  bolt_octets := ex_octets 2;
  bolt_large_octets := ex_octets 4;
  bolt_wire_string := {| ser b := Ok (b ++ [0]); de := ex_string |};
  bolt_option A f := {|
    ser o := match o with None => Ok [0] | Some x => b ← ser f x; Ok (1 :: b) end;
    de b := match b with
            | x :: b => if x =? 0 then Ok (None, b) else '(y, b) ← de f b; Ok (Some y, b)
            | [] => Err TooShort
            end |};
  bolt_vec A f := {|
    ser l := b1 ← ser (ex_int 2) (Z.of_nat (length l)); b2 ← ex_ser_list f l; Ok (b1 ++ b2);
    de b := '(n, b) ← de (ex_int 2) b; ex_de_list f (Z.to_nat n) b |}
|}.

Lemma ex_int_roundtrip n x : 0 <= x < 256 ^ Z.of_nat n ->
  ser (ex_int n) x = Ok (to_be_bytes n x)
  /\ forall rest, de (ex_int n) (to_be_bytes n x ++ rest) = Ok (x, rest).
Proof.
  intros Hx. cbn [ser de ex_int]. rewrite (proj2 (Z.leb_le _ _)), (proj2 (Z.ltb_lt _ _)) by lia. split; [done|].
  intros rest. rewrite length_app, length_to_be_bytes, (proj2 (Nat.ltb_ge _ _)) by lia.
  rewrite take_app_length', drop_app_length' by (by rewrite length_to_be_bytes). by rewrite from_to_be_bytes.
Qed.

Lemma ex_octets_roundtrip n b : Z.of_nat (length b) < 256 ^ Z.of_nat n ->
  exists s, ser (ex_octets n) b = Ok s /\ forall rest, de (ex_octets n) (s ++ rest) = Ok (b, rest).
Proof.
  intros Hb. destruct (ex_int_roundtrip n (Z.of_nat (length b))) as [Hs Hd]; [lia|].
  eexists. cbn [ser de ex_octets]. rewrite Hs. split; [done|]. intros rest.
  rewrite <- app_assoc, Hd, Ok_bind, Nat2Z.id, length_app, (proj2 (Nat.ltb_ge _ _)) by lia.
  by rewrite take_app_length, drop_app_length.
Qed.

#[local] Existing Instance example_serde.

Lemma example_serde_laws : SerdeBoltLaws.
Proof.
  split.
  - intros n x Hx. destruct (ex_int_roundtrip n x Hx). by eexists.
  - intros b _. exists [if b : bool then 1 else 0]. split; [done|]. intros rest. by destruct b.
  - intros b [_ Hb]. by apply ex_octets_roundtrip.
  - intros b [_ Hb]. by apply ex_octets_roundtrip.
  - intros b Hb. exists (b ++ [0]). split; [done|]. intros rest. rewrite <- app_assoc.
    induction Hb as [|x b Hx Hb IH]; [done|]. cbn in *.
    rewrite (proj2 (Z.eqb_neq x 0)) by lia. by rewrite IH.
  - intros A c Hc [x|] Hx; [|by exists [0]]. destruct (Hc x Hx) as (b & Hs & Hd).
    exists (1 :: b). cbn in *. rewrite Hs. split; [done|]. intros rest. by rewrite Hd.
  - intros A c Hc l [Hl Hlen]. destruct (ex_int_roundtrip 2 (Z.of_nat (length l))) as [Hs Hd]; [lia|].
    assert (Hb : exists b, ex_ser_list (format c) l = Ok b
      /\ forall rest, ex_de_list (format c) (length l) (b ++ rest) = Ok (l, rest)).
    { clear Hlen Hs Hd. induction Hl as [|x l Hx Hl (b & Hs & Hd)]; [by exists []|].
      destruct (Hc x Hx) as (b1 & Hs1 & Hd1). exists (b1 ++ b). cbn in *. rewrite Hs1, Ok_bind, Hs.
      split; [done|]. intros rest. by rewrite <- app_assoc, Hd1, Ok_bind, Hd. }
    destruct Hb as (b & Hbs & Hbd). exists (to_be_bytes 2 (Z.of_nat (length l)) ++ b).
    cbn [format serde_vec bolt_vec example_serde ser de]. rewrite Hs, Ok_bind, Hbs. split; [done|].
    intros rest. by rewrite <- app_assoc, Hd, Ok_bind, Nat2Z.id.
Qed.
End example.

(** A ping and a request to sign a gossip message, on one stream. *)
Definition example_messages : list Message := [MPing 7 [112; 105]; MSignGossipMessage [1; 2; 3]].

Lemma message_stream_roundtrip_witness :
  exists bs r', @write_all example_serde example_messages = Ok bs
    /\ @read_all example_serde (list Z) (@vec_read example_serde) 2 (bs ++ [9])
       = Ok (example_messages, r').
Proof.
  destruct (@message_stream_roundtrip example_serde example_serde_laws (list Z)
    (@vec_read example_serde) (@vec_read_laws example_serde) example_messages [9])
    as (bs & Hw & Hr & _).
  - repeat apply Forall_cons_2; [| |constructor].
    all: eapply sendable_intro; [done| |reflexivity|by vm_compute].
    + split; [cbn; lia|]. repeat (apply Forall_cons_2; [lia|]). constructor.
    + split; [|by vm_compute]. unfold is_byte. repeat (apply Forall_cons_2; [lia|]). constructor.
  - exists bs. destruct (Hr (bs ++ [9]) (conj I eq_refl)) as (r' & Hread & _). by exists r'.
Defined.

Lemma decoded_message_typed_witness :
  @TYPE example_serde _ (@sb_struct example_serde (@inner example_serde (MSignGossipMessage [5]))) = 1006
  /\ 1106 ∉ (@variants example_serde).*1.
Proof.
  destruct (@decoded_message_typed example_serde [0; 1; 5] 1006 (MSignGossipMessage [5]) eq_refl)
    as [(_ & H1 & _)|(_ & H1)]; [|done].
  destruct (@decoded_message_typed example_serde [5] 1106 (MUnknown 1106 [5]) eq_refl)
    as [(_ & _ & H2 & _)|(H2 & _)]; done.
Defined.

Lemma gossip_reply_unreadable_witness : exists b data,
  @as_vec example_serde (@pack example_serde _ (@Msgs.SignGossipMessageReply example_serde) (replicate 64 1)) = Ok b
  /\ @read_message example_serde data 1106 = Ok (MUnknown 1106 data)
  /\ b = to_be_bytes 2 1106 ++ data.
Proof.
  destruct (@gossip_reply_unreadable example_serde example_serde_laws (replicate 64 1))
    as (b & data & Hb & _ & Hr & Heq); [|by exists b, data].
  split; [|done]. apply Forall_forall. intros x Hx. apply elem_of_replicate in Hx as [-> _].
  unfold is_byte. lia.
Defined.
