(* ===== verification/Handler.v ===== *)
(** * The protocol handlers (vls-protocol-signer/src/{handler,util}.rs)

    The signer's side of the protocol: a message is decoded, the node or one
    of its channels serves it, and the answer is a reply or an error.  The
    [RootHandler] serves the node's messages, a [ChannelHandler] those of one
    channel.  The decoders of bitcoin objects are parameters (class
    [WireLib]).  The readings of the clocks during a request are arguments. *)

From S2P Require Import Prelude Velocity Policy Order Extern Crypto Setup Tx Keys Allowlist Script.
From S2P Require Import Secrets Enforcement Validator SimpleValidator NodeState ChannelOps Monitor.
From S2P Require Import Tracker Persist PersistSpec Node NodeInv Msgs Approver.

Import NodeOps.

(** ** Channel types (util.rs, vls-protocol/src/features.rs) *)

Definition OPT_STATIC_REMOTEKEY : nat := 12.
Definition OPT_ANCHOR_OUTPUTS : nat := 20.
Definition OPT_ANCHORS_ZERO_FEE_HTLC_TX : nat := 22.
Definition OPT_MAX : nat := 32.

(** The bits of a byte, and a byte from them, most significant first: a
    [BitVec] from and to bytes. *)
Definition byte_bits (b : Z) : list bool := (fun i => Z.testbit b (Z.of_nat i)) <$> [7; 6; 5; 4; 3; 2; 1; 0]%nat.
Definition bits_byte (l : list bool) : Z := foldl (fun x (d : bool) => 2 * x + Z.b2z d) 0 l.
Definition reverse_bits (b : Z) : Z := bits_byte (rev (byte_bits b)).

Definition bitvec_from_bytes (l : bytes) : list bool := concat (byte_bits <$> l).
Fixpoint bitvec_to_bytes (n : nat) (l : list bool) : bytes :=
  match n with O => [] | S n => bits_byte (take 8 l) :: bitvec_to_bytes n (drop 8 l) end.

Definition channel_type_to_commitment_type {E} (channel_type : bytes) : outcome E CommitmentType :=
  let features := bitvec_from_bytes (reverse_bits <$> rev channel_type) in
  let get i := default false (features !! i) in
  if get OPT_ANCHORS_ZERO_FEE_HTLC_TX then
    assert_ (get OPT_STATIC_REMOTEKEY);; Ok AnchorsZeroFeeHtlc
  else if get OPT_ANCHOR_OUTPUTS then
    assert_ (get OPT_STATIC_REMOTEKEY);; Ok Anchors
  else if get OPT_STATIC_REMOTEKEY then Ok StaticRemoteKey
  else Ok Legacy.

Definition commitment_type_to_channel_type (ct : CommitmentType) : bytes :=
  let channel_features := replicate OPT_MAX false in
  let channel_features := <[OPT_STATIC_REMOTEKEY := true]> channel_features in
  let channel_features :=
    if bool_decide (ct = Anchors) || bool_decide (ct = AnchorsZeroFeeHtlc)
    then <[OPT_ANCHOR_OUTPUTS := true]> channel_features else channel_features in
  let channel_features :=
    if bool_decide (ct = AnchorsZeroFeeHtlc)
    then <[OPT_ANCHORS_ZERO_FEE_HTLC_TX := true]> channel_features else channel_features in
  reverse_bits <$> rev (bitvec_to_bytes 4 channel_features).

(** ** The crates *)

(** What the handlers use of a PSBT. *)
Record PsbtInput := {
  witness_utxo : option TxOut;
  non_witness_utxo : option Transaction;
  redeem_script : option Script;
  final_script_sig : option Script;
  final_script_witness : option (list bytes)
}.
Record PsbtOutput := { witness_script : option Script; bip32_derivation : list (PublicKey * path) }.
Record Psbt := { unsigned_tx : Transaction; psbt_inputs : list PsbtInput; psbt_outputs : list PsbtOutput }.

Class WireLib `{L : Lib, !KeyLib, CL : ChainLib, IL : InvoiceLib} := {
  (** bitcoin::consensus *)
  tx_deserialize : bytes -> option Transaction;
  header_deserialize : bytes -> option BlockHeader;
  psbt_decode : bytes -> option Psbt;
  psbt_serialize : Psbt -> bytes;
  extract_tx : Psbt -> Transaction;
  script_deserialize : bytes -> option Script;
  (** txoo *)
  proof_deserialize : bytes -> option TxoProof;
  (** secp256k1 and bip32 *)
  signature_from_compact : bytes -> option Signature;
  xpub_from_priv_encode : ExtendedPrivKey -> bytes;
  (** lightning_invoice, lightning::offers *)
  bolt12_from_str : string -> option Bolt12;
  bolt11_raw_from_str : string -> option SignedRawInvoice;
  (** serde_bolt *)
  heartbeat_to_vec : SignedHeartbeat -> bytes
}.

(** ** Errors and the monad *)

Inductive HError `{SerdeBolt} :=
| HProtocol (e : Error)
| HSigning (s : Status)
| HTemporary (s : Status).

(** [impl From<Status> for Error]. *)
Definition from_status `{SerdeBolt} (e : Status) : HError :=
  match code e with Temporary => HTemporary e | _ => HSigning e end.

(** The handler's approver, and the node with its store. *)
Record HSt `{L : Lib, !KeyLib, CL : ChainLib} (P A : Type) := { h_approver : A; h_node : NSt P }.
Arguments h_approver {_ _ _ P A}.
Arguments h_node {_ _ _ P A}.

Definition HM `{L : Lib, !KeyLib, CL : ChainLib, SerdeBolt} (P A R : Type) : Type :=
  HSt P A -> HSt P A * outcome HError R.

Section monad.
Context `{L : Lib, !KeyLib, CL : ChainLib, SB : SerdeBolt} {P A : Type}.

#[global] Instance H_ret : MRet (HM P A) := fun R r h => (h, Ok r).
#[global] Instance H_bind : MBind (HM P A) := fun R R' f m h =>
  match m h with
  | (h', Ok r) => f r h'
  | (h', Err e) => (h', Err e)
  | (h', Panic) => (h', Panic)
  end.

(** A value that may be missing: [.expect(..)]. *)
Definition expect {R} (o : option R) : HM P A R := fun h => (h, unwrap o).

(** [?] on a [Status]. *)
Definition try {R} (m : outcome Status R) : HM P A R := fun h => (h, map_err from_status m).

(** An operation of the node, followed by [?]. *)
Definition on_node {R} (m : M P R) : HM P A R := fun h =>
  let '(s, r) := m (h_node h) in ({| h_approver := h_approver h; h_node := s |}, map_err from_status r).

(** A question that involves the approver, followed by [?]. *)
Definition on_approver {R} (m : A -> NSt P -> A * NSt P * outcome Status R) : HM P A R := fun h =>
  let '(a, s, r) := m (h_approver h) (h_node h) in
  ({| h_approver := a; h_node := s |}, map_err from_status r).

Definition the_node : HM P A Node := fun h => (h, Ok (node (h_node h))).

Definition reply {T} (t : Struct T) (x : T) : HM P A SerBolt := mret (pack t x).

(** [for x in l], collecting the results. *)
Fixpoint collect {X R} (f : X -> HM P A R) (l : list X) : HM P A (list R) :=
  match l with
  | [] => mret []
  | x :: l => r ← f x; rs ← collect f l; mret (r :: rs)
  end.
End monad.

(** ** Helpers *)

Section helpers.
Context `{L : Lib, CrL : CryptoLib, !KeyLib, CL : ChainLib, AL : AddressLib, IL : InvoiceLib}.
Context `{CkL : CheckpointLib, NL : NodeLib, SL : SerLib, SB : SerdeBolt, WL : !WireLib, Prof : Profile}.
Context {P : Type} `{!Persist P} {A : Type} `{!Approve A}.

(** *** Invoices (vls-core/src/util/invoice_utils.rs) *)

Definition invoice_try_from (bolt11_raw : SignedRawInvoice) : outcome Status AnyInvoice :=
  bolt11 ← ok_or (bolt11_from_signed bolt11_raw) (invalid_argument "{}");
  Ok (InvBolt11 bolt11).

Definition invoice_from_str (invstr : string) : outcome Status AnyInvoice :=
  match bolt12_from_str invstr with
  | Some bolt12 => Ok (InvBolt12 bolt12)
  | None =>
      bolt11_raw ← ok_or (bolt11_raw_from_str invstr)
        (invalid_argument "invoice not bolt12: {:?} and not bolt11: {:?}");
      invoice_try_from bolt11_raw
  end.

(** *** Signatures, scripts and keys *)

Definition SIGHASH_ALL : Z := 1.
Definition SIGHASH_SINGLE_ANYONECANPAY : Z := 0x83.

Definition sighash_u8 (t : EcdsaSighashType) : Z :=
  match t with
  | All => SIGHASH_ALL
  | SinglePlusAnyoneCanPay => SIGHASH_SINGLE_ANYONECANPAY
  end.

Definition to_bitcoin_sig (sig : Signature) : Model.BitcoinSignature :=
  {| Model.signature := sig; Model.sighash := SIGHASH_ALL |}.

Definition typed_to_bitcoin_sig (sig : Signature * EcdsaSighashType) : Model.BitcoinSignature :=
  {| Model.signature := sig.1; Model.sighash := sighash_u8 sig.2 |}.

Definition to_script (b : bytes) : option Script := match b with [] => None | _ => Some b end.

Definition extract_pubkey (key : bytes) : HM P A PublicKey := expect (pubkey_from_slice key).

(** [&v[n..]] *)
Definition slice_from (n : nat) (v : bytes) : HM P A bytes :=
  expect (if (n <=? length v)%nat then Some (drop n v) else None).

(** *** PSBTs *)

Definition extract_output_path (x : list (PublicKey * path)) : option path :=
  match x with
  | [] => Some []
  | [(_, p)] => Some p
  | _ => None
  end.

Definition extract_psbt_output_paths (psbt : Psbt) : HM P A (list path) :=
  collect (fun o => expect (extract_output_path (bip32_derivation o))) (psbt_outputs psbt).

Definition extract_psbt_witscripts (psbt : Psbt) : list bytes :=
  (fun o => default [] (witness_script o)) <$> psbt_outputs psbt.

(** The HTLCs that the other side offered, and those that we offered. *)
Definition htlc_info (h : Model.Htlc) : HTLCInfo2 :=
  {| value_sat := Model.amount h / 1000; payment_hash := Model.payment_hash h;
     cltv_expiry := Model.ctlv_expiry h |}.

Definition extract_htlcs (htlcs : list Model.Htlc) : list HTLCInfo2 * list HTLCInfo2 :=
  let offered_htlcs := htlc_info <$> List.filter (fun h => Model.side h =? Model.LOCAL) htlcs in
  let received_htlcs := htlc_info <$> List.filter (fun h => Model.side h =? Model.REMOTE) htlcs in
  (received_htlcs, offered_htlcs).

Definition channel_id (node_id : bytes) (dbid : Z) : ChannelId :=
  node_id ++ ByteUtils.le64_to_array dbid.

(** *** Operations of a channel *)

(** The channel's monitor: the tracker's listener, or its own when it has been
    replaced there. *)
Definition monitor_state (n : Node) (id : ChannelId) (chan : Channel) : option Monitor.State :=
  match channels n !! id ≫= fun ptr => slots n !! ptr with
  | Some sl =>
      match detached sl with
      | Some ms => Some ms
      | None => Tracker.cm_state ∘ fst <$> listeners (tracker n) !! funding_outpoint (setup chan)
      end
  | None => None
  end.

Definition channel_validator (n : Node) (id0 : ChannelId) : Validator :=
  make_validator (node_validator_factory n) (node_network n) (node_id n) (Some id0).

Definition channel_env (n : Node) (chan : Channel) (cstate : ChainState) (persists : bool) : Chan.Env := {|
  Chan.env_validator := channel_validator n (id0 chan);
  Chan.env_wallet := wallet_of n;
  Chan.env_chain_state := cstate;
  Chan.env_persists := persists |}.

(** [node.with_ready_channel(id, |chan| op)], where [op] ends with a call of
    [chan.persist()] when it succeeds, or ([writes = false]) never calls it.
    When the persister fails, [op] fails there. *)
Definition channel_op {R} (writes : bool) (op : Chan.Env -> Chan.M R) (id : ChannelId) : M P R :=
  with_ready_channel id (fun chan s =>
    let n := node s in
    match ms ← unwrap (monitor_state n id chan); Monitor.as_chain_state ms with
    | Ok cstate =>
        let run persists := op (channel_env n chan cstate persists)
          {| Chan.chan := chan; Chan.node_state := state n; Chan.persisted := chan |} in
        let finish cs (r : outcome Status R) p :=
          ({| node := set_state n (Chan.node_state cs); store := p |}, Chan.chan cs, r) in
        let '(cs, r) := run true in
        if writes && is_ok r then
          match persist_update_channel (store s) (node_id n) (Chan.chan cs) with
          | (p, Ok _) => finish cs r p
          | (p, Err _) => let '(cs, r) := run false in finish cs r p
          | (p, Panic) => finish cs Panic p
          end
        else finish cs r (store s)
    | Err e => (s, chan, Err e)
    | Panic => (s, chan, Panic)
    end).

(** An operation that only reads the channel. *)
Definition channel_read {R} (f : Chan.Env -> Channel -> outcome Status R) : Chan.Env -> Chan.M R :=
  fun env => chan ← Chan.get_chan; Chan.lift (f env chan).

(** [ChannelBase] of a stub or a channel. *)
Definition base_get_per_commitment_point (sl : ChannelSlot) (n : Z) : outcome Status PublicKey :=
  match sl with
  | Stub stub => Chan.stub_get_per_commitment_point stub n
  | Ready chan => Chan.get_per_commitment_point chan n
  end.

Definition base_get_per_commitment_secret (self : Node) (sl : ChannelSlot) (n : Z)
  : outcome Status SecretKey :=
  match sl with
  | Stub stub => Chan.stub_get_per_commitment_secret stub n
  | Ready chan => Chan.get_per_commitment_secret (channel_validator self (id0 chan)) chan n
  end.

Definition base_get_channel_basepoints (sl : ChannelSlot) : ChannelPublicKeys :=
  match sl with
  | Stub stub => pubkeys (stub_keys stub)
  | Ready chan => pubkeys (keys chan)
  end.
End helpers.

(** The readings of the approver's clock and of the node's clock, in order. *)
Record Clocks := { now_approver : Z; now0 : Z; now1 : Z; now2 : Z }.

(** ** Requests of both handlers *)

Section sweeps.
Context `{L : Lib, CrL : CryptoLib, !KeyLib, CL : ChainLib, AL : AddressLib, IL : InvoiceLib}.
Context `{CkL : CheckpointLib, NL : NodeLib, SL : SerLib, SB : SerdeBolt, WL : !WireLib, Prof : Profile}.
Context {P : Type} `{!Persist P} {A : Type} `{!Approve A}.

(** The value of the spent output, from the PSBT. *)
Definition input_amount (psbt : Psbt) (i : nat) : HM P A Z :=
  inp ← expect (psbt_inputs psbt !! i);
  utxo ← expect (witness_utxo inp);
  mret (out_value utxo).

Definition sign_delayed_payment_to_us (id : ChannelId) (commitment_number : Z)
  (tx psbt wscript : bytes) (input : Z) : HM P A SerBolt :=
  psbt ← expect (psbt_decode psbt);
  tx ← expect (tx_deserialize tx);
  htlc_amount_sat ← input_amount psbt (Z.to_nat input);
  wallet_paths ← extract_psbt_output_paths psbt;
  sig ← on_node (channel_op true (fun env =>
    path ← Chan.lift (unwrap (wallet_paths !! 0%nat));
    Chan.sign_delayed_sweep env tx (Z.to_nat input) commitment_number wscript htlc_amount_sat path) id);
  reply Msgs.SignTxReply (to_bitcoin_sig sig).

Definition sign_remote_htlc_to_us (id : ChannelId) (remote_per_commitment_point tx psbt wscript : bytes)
  (_option_anchors : bool) (input : Z) : HM P A SerBolt :=
  psbt ← expect (psbt_decode psbt);
  tx ← expect (tx_deserialize tx);
  point ← expect (pubkey_from_slice remote_per_commitment_point);
  htlc_amount_sat ← input_amount psbt (Z.to_nat input);
  wallet_paths ← extract_psbt_output_paths psbt;
  sig ← on_node (channel_op true (fun env =>
    path ← Chan.lift (unwrap (wallet_paths !! 0%nat));
    Chan.sign_counterparty_htlc_sweep env tx (Z.to_nat input) point wscript htlc_amount_sat path) id);
  reply Msgs.SignTxReply (to_bitcoin_sig sig).

Definition sign_local_htlc_tx (id : ChannelId) (commitment_number : Z) (tx psbt wscript : bytes)
  (_option_anchors : bool) (input : Z) : HM P A SerBolt :=
  psbt ← expect (psbt_decode psbt);
  tx ← expect (tx_deserialize tx);
  htlc_amount_sat ← input_amount psbt (Z.to_nat input);
  out ← expect (psbt_outputs psbt !! 0%nat);
  output_witscript ← expect (witness_script out);
  sig ← on_node (channel_op false (channel_read (fun env chan =>
    Chan.sign_holder_htlc_tx env chan tx commitment_number None wscript htlc_amount_sat
      output_witscript)) id);
  reply Msgs.SignTxReply (typed_to_bitcoin_sig sig).

Definition sign_penalty_to_us (id : ChannelId) (revocation_secret tx psbt wscript : bytes) (input : Z)
  : HM P A SerBolt :=
  psbt ← expect (psbt_decode psbt);
  tx ← expect (tx_deserialize tx);
  secret ← expect (secretkey_from_slice revocation_secret);
  htlc_amount_sat ← input_amount psbt (Z.to_nat input);
  wallet_paths ← extract_psbt_output_paths psbt;
  sig ← on_node (channel_op true (fun env =>
    path ← Chan.lift (unwrap (wallet_paths !! 0%nat));
    Chan.sign_justice_sweep env tx (Z.to_nat input) secret wscript htlc_amount_sat path) id);
  reply Msgs.SignTxReply (to_bitcoin_sig sig).

Definition handle_ecdh (point : bytes) : HM P A SerBolt :=
  pubkey ← expect (pubkey_from_slice point);
  self ← the_node;
  reply Msgs.EcdhReply (ecdh self pubkey).
End sweeps.

(** ** [RootHandler] *)

Section root.
Context `{L : Lib, CrL : CryptoLib, !KeyLib, CL : ChainLib, AL : AddressLib, IL : InvoiceLib}.
Context `{CkL : CheckpointLib, NL : NodeLib, SL : SerLib, SB : SerdeBolt, WL : !WireLib, Prof : Profile}.
Context {P : Type} `{!Persist P} {A : Type} `{!Approve A}.

Definition handle_preapprove_invoice (tw : bool) (t : Clocks) (invstring : bytes) : HM P A SerBolt :=
  invstr ← try (ok_or (string_from_utf8 invstring) (invalid_argument "{}"));
  invoice ← try (map_err (fun _ => invalid_argument "{}") (invoice_from_str invstr));
  result ← on_approver (handle_proposed_invoice tw invoice (now_approver t) (now0 t));
  reply Msgs.PreapproveInvoiceReply result.

Definition handle_preapprove_keysend (t : Clocks) (destination payment_hash : bytes) (amount_msat : Z)
  : HM P A SerBolt :=
  payee ← try (ok_or (pubkey_from_slice destination) (invalid_argument "{}"));
  result ← on_approver (handle_proposed_keysend payee payment_hash amount_msat (now_approver t)
                          (now0 t) (now1 t) (now2 t));
  reply Msgs.PreapproveKeysendReply result.

(** The keys that the init messages return. *)
Definition init_keys : HM P A (bytes * bytes * bytes) :=
  self ← the_node;
  mret (node_id self, xpub_from_priv_encode (Keys.account_extended_key (keys_manager self)),
        Keys.get_bolt12_pubkey (keys_manager self)).

Definition handle_hsmd_init (hsm_wire_min_version hsm_wire_max_version : Z) : HM P A SerBolt :=
  '(node_id, bip32, bolt12) ← init_keys;
  if hsm_wire_max_version <? 4 then reply Msgs.HsmdInitReplyV2 (node_id, bip32, bolt12)
  else
    try (assert_ (hsm_wire_min_version <=? 4));;
    try (assert_ (4 <=? hsm_wire_max_version));;
    reply Msgs.HsmdInitReplyV4
      (4, [as_u 32 (TYPE Msgs.CheckPubKey); as_u 32 (TYPE Msgs.SignAnyDelayedPaymentToUs)],
       node_id, bip32, bolt12).

Definition handle_hsmd_init2 (dev_allowlist : list bytes) : HM P A SerBolt :=
  '(node_id, bip32, bolt12) ← init_keys;
  allowlist ← collect (fun ws => expect (string_from_utf8 ws)) dev_allowlist;
  on_node (add_allowlist allowlist);;
  reply Msgs.HsmdInit2Reply (node_id, bip32, bolt12).

Definition handle_get_channel_basepoints (id : ChannelId) : HM P A SerBolt :=
  bps ← on_node (with_channel_base id (fun base => Ok (base_get_channel_basepoints base)));
  reply Msgs.GetChannelBasepointsReply
    ({| Model.revocation := revocation_basepoint bps; Model.payment := payment_point bps;
        Model.htlc := htlc_basepoint bps; Model.delayed_payment := delayed_payment_basepoint bps |},
     funding_pubkey bps).

(** *** [SignWithdrawal] *)

Definition utxo_spendtype (u : Model.Utxo) : SpendType :=
  if Model.is_p2sh u then P2shP2wpkh
  else match Model.close_info u with
       | Some ci => if bool_decide (is_Some (Model.commitment_point ci)) then P2wsh else P2wpkh
       | None => P2wpkh
       end.

(** The key of an output of a closed channel. *)
Definition utxo_close_key (u : Model.Utxo) : HM P A (option (SecretKey * list bytes)) :=
  match Model.close_info u with
  | None => mret None
  | Some ci =>
      per_commitment_point ←
        match Model.commitment_point ci with
        | None => mret None
        | Some p => k ← expect (pubkey_from_slice p); mret (Some k)
        end;
      ck ← on_node (channel_op false (channel_read (fun _ chan =>
        let revocation_pubkey := (fun p => derive_public_revocation_key p
          (revocation_basepoint (counterparty_pubkeys (keys chan)))) <$> per_commitment_point in
        Chan.get_unilateral_close_key chan per_commitment_point revocation_pubkey))
        (channel_id (Model.peer_id ci) (Model.channel_id ci)));
      mret (Some ck)
  end.

(** The script of an input that spends P2SH-P2WPKH, in the transaction. *)
Definition populate_script_sig (pt : PsbtInput * TxIn) : HM P A (PsbtInput * TxIn) :=
  let '(psbt_in, tx_in) := pt in
  match redeem_script psbt_in with
  | None => mret pt
  | Some script =>
      try (assert_ (bool_decide (final_script_sig psbt_in = None)));;
      try (assert_ (bool_decide (script_sig tx_in = [])));;
      let sig := push_slice script in
      mret ({| witness_utxo := witness_utxo psbt_in; non_witness_utxo := non_witness_utxo psbt_in;
               redeem_script := redeem_script psbt_in; final_script_sig := Some sig;
               final_script_witness := final_script_witness psbt_in |},
            {| previous_output := previous_output tx_in; script_sig := sig;
               sequence := sequence tx_in; witness := witness tx_in |})
  end.

Definition with_inputs (tx : Transaction) (ins : list TxIn) : Transaction :=
  {| version := version tx; lock_time := lock_time tx; input := ins; output := output tx |}.

(** [psbt.inputs[i].final_script_witness = Some(stack)] for the stacks that are not empty. *)
Definition set_witness (ins : list PsbtInput) (is_ : nat * list bytes) : HM P A (list PsbtInput) :=
  let '(i, stack) := is_ in
  match stack with
  | [] => mret ins
  | _ =>
      inp ← expect (ins !! i);
      mret (<[i := {| witness_utxo := witness_utxo inp; non_witness_utxo := non_witness_utxo inp;
                      redeem_script := redeem_script inp; final_script_sig := final_script_sig inp;
                      final_script_witness := Some stack |}]> ins)
  end.

Fixpoint set_witnesses (ins : list PsbtInput) (l : list (nat * list bytes)) : HM P A (list PsbtInput) :=
  match l with
  | [] => mret ins
  | x :: l => ins ← set_witness ins x; set_witnesses ins l
  end.

Definition handle_sign_withdrawal (t : Clocks) (utxos : list Model.Utxo) (psbt : bytes)
  : HM P A SerBolt :=
  psbt ← expect (psbt_decode psbt);
  let tx := extract_tx psbt in
  let ipaths := (fun u => [Model.keyindex u]) <$> utxos in
  let values_sat := Model.utxo_amount <$> utxos in
  let spendtypes := utxo_spendtype <$> utxos in
  uniclosekeys ← collect utxo_close_key utxos;
  opaths ← extract_psbt_output_paths psbt;
  zipped ← collect populate_script_sig (zip (psbt_inputs psbt) (input tx));
  let tx := with_inputs tx (zipped.*2 ++ drop (length zipped) (input tx)) in
  let inputs := zipped.*1 ++ drop (length zipped) (psbt_inputs psbt) in
  let input_txs := omap non_witness_utxo inputs in
  approved ← on_approver (handle_proposed_onchain tx input_txs values_sat spendtypes uniclosekeys
                            opaths (now0 t));
  if negb approved then try (Err (failed_precondition "unapproved destination"))
  else
    witvec ← on_node (unchecked_sign_onchain_tx tx ipaths values_sat spendtypes uniclosekeys);
    inputs ← set_witnesses inputs (imap pair witvec);
    reply Msgs.SignWithdrawalReply
      (psbt_serialize {| unsigned_tx := unsigned_tx psbt; psbt_inputs := inputs;
                         psbt_outputs := psbt_outputs psbt |}).

(** *** The other messages *)

Definition handle_sign_invoice (u5bytes hrp : bytes) : HM P A SerBolt :=
  hrp_string ← expect (string_from_utf8 hrp);
  data ← collect (fun b => expect (if b <? 32 then Some b else None)) u5bytes;
  sig ← on_node (sign_invoice (as_bytes hrp_string) data);
  let '(rid, ser) := serialize_compact sig in
  reply Msgs.SignInvoiceReply (ser ++ [as_u 8 rid]).

Definition handle_sign_message (message : bytes) : HM P A SerBolt :=
  self ← the_node;
  sig ← try (sign_message self message);
  try (assert_ (length sig =? 65)%nat);;
  reply Msgs.SignMessageReply sig.

(** A mutual close is told from a commitment by its lock time. *)
Definition handle_sign_commitment_tx (id : ChannelId) (tx psbt : bytes) (commitment_number : Z)
  : HM P A SerBolt :=
  tx ← expect (tx_deserialize tx);
  sig ← (if lock_time tx =? 0 then
           psbt ← expect (psbt_decode psbt);
           opaths ← extract_psbt_output_paths psbt;
           on_node (channel_op true (fun env => Chan.sign_mutual_close_tx env tx opaths) id)
         else
           sigs ← on_node (channel_op true (fun env =>
             Chan.sign_holder_commitment_tx_phase2 env commitment_number) id);
           mret sigs.1);
  reply Msgs.SignCommitmentTxReply (to_bitcoin_sig sig).

Definition watches_reply (w : gset Txid * gset OutPoint) : list bytes * list Model.OutPoint :=
  (elements w.1,
   (fun op => {| Model.txid := op_txid op; Model.vout := vout op |}) <$> elements w.2).

Definition handle_block_chunk (hash : bytes) (offset : Z) (content : bytes) : HM P A SerBolt :=
  self ← the_node;
  t ← try (unwrap_ok (E := unit) (Tracker.block_chunk (tracker self) hash offset content));
  on_node (put_node (set_tracker self t));;
  reply Msgs.BlockChunkReply tt.

(** The proof of a message, if there is one. *)
Definition decode_proof (unspent_proof : option bytes) : HM P A (option TxoProof) :=
  match unspent_proof with
  | None => mret None
  | Some prf => p ← expect (proof_deserialize prf); mret (Some p)
  end.

Definition handle_sign_channel_update (update : bytes) : HM P A SerBolt :=
  message ← slice_from (2 + 64) update;
  self ← the_node;
  sig ← try (do_sign_gossip_message self message);
  reply Msgs.SignChannelUpdateReply (take 2 update ++ sig ++ drop (2 + 64) update).

Definition handle_tip_info : HM P A SerBolt :=
  self ← the_node;
  reply Msgs.TipInfoReply (height (tracker self), header_hash (tip (tracker self)).1).

Definition handle_forward_watches : HM P A SerBolt :=
  self ← the_node;
  reply Msgs.ForwardWatchesReply (watches_reply (Tracker.get_all_forward_watches (tracker self))).

Definition handle_reverse_watches : HM P A SerBolt :=
  self ← the_node;
  reply Msgs.ReverseWatchesReply (watches_reply (Tracker.get_all_reverse_watches (tracker self))).

Definition handle_add_block_msg (header : bytes) (unspent_proof : option bytes) : HM P A SerBolt :=
  prf ← decode_proof unspent_proof;
  prf ← try (ok_or prf (invalid_argument "could not deserialize proof"));
  header ← expect (header_deserialize header);
  on_node (handle_add_block header (Some prf));;
  reply Msgs.AddBlockReply tt.

Definition handle_remove_block_msg (unspent_proof : option bytes) : HM P A SerBolt :=
  prf ← decode_proof unspent_proof;
  on_node (handle_remove_block prf);;
  reply Msgs.RemoveBlockReply tt.

Definition handle_node_info : HM P A SerBolt :=
  self ← the_node;
  '(node_id, bip32, _) ← init_keys;
  reply Msgs.NodeInfoReply (as_bytes (network_to_string (node_network self)), node_id, bip32).

Definition handle_sign_node_announcement (announcement : bytes) : HM P A SerBolt :=
  message ← slice_from (64 + 2) announcement;
  self ← the_node;
  sig ← try (do_sign_gossip_message self message);
  reply Msgs.SignNodeAnnouncementReply sig.

Definition handle_sign_gossip_message (message : bytes) : HM P A SerBolt :=
  self ← the_node;
  sig ← try (do_sign_gossip_message self message);
  reply Msgs.SignGossipMessageReply sig.

Definition handle_check_pub_key (index : Z) (pubkey : bytes) : HM P A SerBolt :=
  self ← the_node;
  pubkey ← try (ok_or (pubkey_from_slice pubkey) (invalid_argument "bad public key"));
  ok ← try (check_wallet_pubkey self [index] pubkey);
  reply Msgs.CheckPubKeyReply ok.

Definition root_do_handle (tw : bool) (t : Clocks) (msg : Message) : HM P A SerBolt :=
  match msg with
  | MPing id message =>
      expect (string_from_utf8 message);;
      reply Msgs.Pong (id, as_bytes "pong")
  | MMemleak => reply Msgs.MemleakReply false
  | MSignBolt12 message_name field_name merkle_root public_tweak =>
      let tweak := match public_tweak with [] => None | _ => Some public_tweak end in
      self ← the_node;
      sig ← try (map_err (fun _ => internal_error "signature operation failed")
              (Keys.sign_bolt12 (keys_manager self) message_name field_name merkle_root tweak));
      reply Msgs.SignBolt12Reply sig
  | MPreapproveInvoice invstring => handle_preapprove_invoice tw t invstring
  | MPreapproveKeysend destination payment_hash amount_msat =>
      handle_preapprove_keysend t destination payment_hash amount_msat
  | MDeriveSecret info =>
      self ← the_node;
      secret ← try (Keys.derive_secret (keys_manager self) info);
      reply Msgs.DeriveSecretReply secret
  | MSignMessage message => handle_sign_message message
  | MHsmdInit _ _ _ _ _ _ _ hsm_wire_min_version hsm_wire_max_version =>
      handle_hsmd_init hsm_wire_min_version hsm_wire_max_version
  | MHsmdInit2 _ _ _ dev_allowlist => handle_hsmd_init2 dev_allowlist
  | MEcdh point => handle_ecdh point
  | MNewChannel node_id dbid =>
      on_node (new_channel (Some (channel_id node_id dbid)));;
      reply Msgs.NewChannelReply tt
  | MGetChannelBasepoints node_id dbid => handle_get_channel_basepoints (channel_id node_id dbid)
  | MSignWithdrawal utxos psbt => handle_sign_withdrawal t utxos psbt
  | MSignInvoice u5bytes hrp => handle_sign_invoice u5bytes hrp
  | MSignCommitmentTx peer_id dbid tx psbt _ commitment_number =>
      handle_sign_commitment_tx (channel_id peer_id dbid) tx psbt commitment_number
  | MTipInfo => handle_tip_info
  | MForwardWatches => handle_forward_watches
  | MReverseWatches => handle_reverse_watches
  | MAddBlock header unspent_proof => handle_add_block_msg header unspent_proof
  | MRemoveBlock unspent_proof => handle_remove_block_msg unspent_proof
  | MBlockChunk hash offset content => handle_block_chunk hash offset content
  | MGetHeartbeat =>
      heartbeat ← on_node (get_heartbeat tw (now0 t) (now1 t));
      reply Msgs.GetHeartbeatReply (heartbeat_to_vec heartbeat)
  | MNodeInfo => handle_node_info
  | MSignNodeAnnouncement announcement => handle_sign_node_announcement announcement
  | MSignChannelUpdate update => handle_sign_channel_update update
  | MSignGossipMessage message => handle_sign_gossip_message message
  | MCheckPubKey index pubkey => handle_check_pub_key index pubkey
  | MSignAnyDelayedPaymentToUs commitment_number tx psbt wscript input peer_id dbid =>
      sign_delayed_payment_to_us (channel_id peer_id dbid) commitment_number tx psbt wscript input
  | MSignAnyRemoteHtlcToUs point tx psbt wscript option_anchors input peer_id dbid =>
      sign_remote_htlc_to_us (channel_id peer_id dbid) point tx psbt wscript option_anchors input
  | MSignAnyPenaltyToUs revocation_secret tx psbt wscript input peer_id dbid =>
      sign_penalty_to_us (channel_id peer_id dbid) revocation_secret tx psbt wscript input
  | MSignAnyLocalHtlcTx commitment_number tx psbt wscript option_anchors input peer_id dbid =>
      sign_local_htlc_tx (channel_id peer_id dbid) commitment_number tx psbt wscript option_anchors input
  | _ => expect None
  end.
End root.

(** ** [ChannelHandler] *)

Section channel.
Context `{L : Lib, CrL : CryptoLib, !KeyLib, CL : ChainLib, AL : AddressLib, IL : InvoiceLib}.
Context `{CkL : CheckpointLib, NL : NodeLib, SL : SerLib, SB : SerdeBolt, WL : !WireLib, Prof : Profile}.
Context {P : Type} `{!Persist P} {A : Type} `{!Approve A}.

(** The handler is for this channel. *)
Context (id : ChannelId).

Definition handle_check_future_secret (commitment_number : Z) (secret : bytes) : HM P A SerBolt :=
  secret_key ← try (ok_or (secretkey_from_slice secret) (invalid_argument "bad secret key"));
  result ← on_node (channel_op false (channel_read (fun _ chan =>
    Chan.check_future_secret chan commitment_number secret_key)) id);
  reply Msgs.CheckFutureSecretReply result.

Definition handle_get_per_commitment_point (commitment_number : Z) : HM P A SerBolt :=
  self ← the_node;
  '(point, old_secret) ← on_node (with_channel_base id (fun base =>
    point ← base_get_per_commitment_point base commitment_number;
    secret ← (if 2 <=? commitment_number then
                s ← base_get_per_commitment_secret self base (commitment_number - 2); Ok (Some s)
              else Ok None);
    Ok (point, secret)));
  reply Msgs.GetPerCommitmentPointReply (point, old_secret).

Definition handle_get_per_commitment_point2 (commitment_number : Z) : HM P A SerBolt :=
  point ← on_node (with_channel_base id (fun base =>
    base_get_per_commitment_point base commitment_number));
  reply Msgs.GetPerCommitmentPoint2Reply point.

Definition shutdown_script (b : bytes) : HM P A (option Script) :=
  match b with
  | [] => mret None
  | _ => s ← expect (script_deserialize b); mret (Some s)
  end.

Definition handle_ready_channel (outbound : bool) (channel_value push_value : Z) (funding_txid : bytes)
  (funding_txout to_self_delay : Z) (local_shutdown_script : bytes) (points : Model.Basepoints)
  (remote_funding_pubkey : bytes) (remote_to_self_delay : Z) (remote_shutdown_script channel_type : bytes)
  : HM P A SerBolt :=
  let outpoint := {| op_txid := funding_txid; vout := funding_txout |} in
  holder_script ← shutdown_script local_shutdown_script;
  funding ← extract_pubkey remote_funding_pubkey;
  revocation ← extract_pubkey (Model.revocation points);
  payment ← extract_pubkey (Model.payment points);
  delayed_payment ← extract_pubkey (Model.delayed_payment points);
  htlc ← extract_pubkey (Model.htlc points);
  counterparty_script ← shutdown_script remote_shutdown_script;
  ctype ← try (channel_type_to_commitment_type channel_type);
  let the_setup := {|
    is_outbound := outbound; channel_value_sat := channel_value; push_value_msat := push_value;
    funding_outpoint := outpoint; holder_selected_contest_delay := as_u 16 to_self_delay;
    holder_shutdown_script := holder_script;
    counterparty_points := {| funding_pubkey := funding; revocation_basepoint := revocation;
      payment_point := payment; delayed_payment_basepoint := delayed_payment; htlc_basepoint := htlc |};
    counterparty_selected_contest_delay := as_u 16 remote_to_self_delay;
    counterparty_shutdown_script := counterparty_script; commitment_type := ctype |} in
  on_node (ready_channel id None the_setup []);;
  reply Msgs.ReadyChannelReply tt.

Definition handle_sign_remote_htlc_tx (tx psbt wscript remote_per_commitment_point : bytes)
  : HM P A SerBolt :=
  psbt ← expect (psbt_decode psbt);
  point ← expect (pubkey_from_slice remote_per_commitment_point);
  tx ← expect (tx_deserialize tx);
  try (assert_ (length (psbt_outputs psbt) =? 1)%nat);;
  try (assert_ (length (psbt_inputs psbt) =? 1)%nat);;
  try (assert_ (length (output tx) =? 1)%nat);;
  try (assert_ (length (input tx) =? 1)%nat);;
  htlc_amount_sat ← input_amount psbt 0;
  out ← expect (psbt_outputs psbt !! 0%nat);
  output_witscript ← expect (witness_script out);
  sig ← on_node (channel_op false (channel_read (fun env chan =>
    Chan.sign_counterparty_htlc_tx env chan tx point wscript htlc_amount_sat output_witscript)) id);
  reply Msgs.SignTxReply (typed_to_bitcoin_sig sig).

Definition handle_sign_remote_commitment_tx (tx psbt remote_per_commitment_point : bytes)
  (commit_num : Z) (htlcs : list Model.Htlc) (feerate_sat_per_kw : Z) : HM P A SerBolt :=
  psbt ← expect (psbt_decode psbt);
  let witscripts := extract_psbt_witscripts psbt in
  tx ← expect (tx_deserialize tx);
  point ← expect (pubkey_from_slice remote_per_commitment_point);
  let '(offered_htlcs, received_htlcs) := extract_htlcs htlcs in
  sig ← on_node (channel_op true (fun env => Chan.sign_counterparty_commitment_tx env tx witscripts
    point commit_num feerate_sat_per_kw offered_htlcs received_htlcs) id);
  reply Msgs.SignTxReply (to_bitcoin_sig sig).

Definition handle_sign_remote_commitment_tx2 (remote_per_commitment_point : bytes)
  (commit_num feerate_sat_per_kw to_local_value_sat to_remote_value_sat : Z) (htlcs : list Model.Htlc)
  : HM P A SerBolt :=
  point ← expect (pubkey_from_slice remote_per_commitment_point);
  let '(offered_htlcs, received_htlcs) := extract_htlcs htlcs in
  '(sig, htlc_sigs) ← on_node (channel_op true (fun env =>
    Chan.sign_counterparty_commitment_tx_phase2 env point commit_num feerate_sat_per_kw
      to_local_value_sat to_remote_value_sat offered_htlcs received_htlcs) id);
  reply Msgs.SignCommitmentTxWithHtlcsReply (to_bitcoin_sig sig, to_bitcoin_sig <$> htlc_sigs).

Definition handle_sign_mutual_close_tx (tx psbt : bytes) : HM P A SerBolt :=
  psbt ← expect (psbt_decode psbt);
  tx ← expect (tx_deserialize tx);
  opaths ← extract_psbt_output_paths psbt;
  sig ← on_node (channel_op true (fun env => Chan.sign_mutual_close_tx env tx opaths) id);
  reply Msgs.SignTxReply (to_bitcoin_sig sig).

(** The signatures of the counterparty in a message. *)
Definition commit_signature (s : Model.BitcoinSignature) : HM P A Signature :=
  sig ← expect (signature_from_compact (Model.signature s));
  try (assert_ (Model.sighash s =? SIGHASH_ALL));;
  mret sig.

Definition htlc_signature (s : Model.BitcoinSignature) : HM P A Signature :=
  try (assert_ ((Model.sighash s =? SIGHASH_ALL)
                || (Model.sighash s =? SIGHASH_SINGLE_ANYONECANPAY)));;
  expect (signature_from_compact (Model.signature s)).

Definition commitment_validated (res : PublicKey * option SecretKey) : HM P A SerBolt :=
  reply Msgs.ValidateCommitmentTxReply (res.2, res.1).

Definition handle_validate_commitment_tx (tx psbt : bytes) (htlcs : list Model.Htlc)
  (commit_num feerate_sat_per_kw : Z) (signature : Model.BitcoinSignature)
  (htlc_signatures : list Model.BitcoinSignature) : HM P A SerBolt :=
  psbt ← expect (psbt_decode psbt);
  let witscripts := extract_psbt_witscripts psbt in
  tx ← expect (tx_deserialize tx);
  let '(received_htlcs, offered_htlcs) := extract_htlcs htlcs in
  commit_sig ← commit_signature signature;
  htlc_sigs ← collect htlc_signature htlc_signatures;
  res ← on_node (channel_op true (fun env => Chan.validate_holder_commitment_tx env tx witscripts
    commit_num feerate_sat_per_kw offered_htlcs received_htlcs commit_sig htlc_sigs) id);
  commitment_validated res.

Definition handle_validate_commitment_tx2
  (commit_num feerate_sat_per_kw to_local_value_sat to_remote_value_sat : Z) (htlcs : list Model.Htlc)
  (signature : Model.BitcoinSignature) (htlc_signatures : list Model.BitcoinSignature) : HM P A SerBolt :=
  let '(received_htlcs, offered_htlcs) := extract_htlcs htlcs in
  commit_sig ← commit_signature signature;
  htlc_sigs ← collect htlc_signature htlc_signatures;
  res ← on_node (channel_op true (fun env => Chan.validate_holder_commitment_tx_phase2 env commit_num
    feerate_sat_per_kw to_local_value_sat to_remote_value_sat offered_htlcs received_htlcs commit_sig
    htlc_sigs) id);
  commitment_validated res.

Definition handle_sign_channel_announcement (announcement : bytes) : HM P A SerBolt :=
  message ← slice_from (256 + 2) announcement;
  bitcoin_sig ← on_node (channel_op false (channel_read (fun _ chan =>
    Chan.sign_channel_announcement_with_funding_key chan message)) id);
  self ← the_node;
  node_sig ← try (do_sign_gossip_message self message);
  reply Msgs.SignChannelAnnouncementReply (node_sig, bitcoin_sig).

Definition channel_do_handle (msg : Message) : HM P A SerBolt :=
  match msg with
  | MMemleak => reply Msgs.MemleakReply false
  | MCheckFutureSecret commitment_number secret => handle_check_future_secret commitment_number secret
  | MEcdh point => handle_ecdh point
  | MGetPerCommitmentPoint commitment_number => handle_get_per_commitment_point commitment_number
  | MGetPerCommitmentPoint2 commitment_number => handle_get_per_commitment_point2 commitment_number
  | MReadyChannel is_outbound channel_value push_value funding_txid funding_txout to_self_delay
      local_shutdown_script _ remote_basepoints remote_funding_pubkey remote_to_self_delay
      remote_shutdown_script channel_type =>
      handle_ready_channel is_outbound channel_value push_value funding_txid funding_txout to_self_delay
        local_shutdown_script remote_basepoints remote_funding_pubkey remote_to_self_delay
        remote_shutdown_script channel_type
  | MSignRemoteHtlcTx tx psbt wscript remote_per_commitment_point _ =>
      handle_sign_remote_htlc_tx tx psbt wscript remote_per_commitment_point
  | MSignRemoteCommitmentTx tx psbt _ remote_per_commitment_point _ commitment_number htlcs feerate =>
      handle_sign_remote_commitment_tx tx psbt remote_per_commitment_point commitment_number htlcs feerate
  | MSignRemoteCommitmentTx2 remote_per_commitment_point commitment_number feerate to_local_value_sat
      to_remote_value_sat htlcs =>
      handle_sign_remote_commitment_tx2 remote_per_commitment_point commitment_number feerate
        to_local_value_sat to_remote_value_sat htlcs
  | MSignDelayedPaymentToUs commitment_number tx psbt wscript =>
      sign_delayed_payment_to_us id commitment_number tx psbt wscript 0
  | MSignRemoteHtlcToUs remote_per_commitment_point tx psbt wscript option_anchors =>
      sign_remote_htlc_to_us id remote_per_commitment_point tx psbt wscript option_anchors 0
  | MSignLocalHtlcTx commitment_number tx psbt wscript option_anchors =>
      sign_local_htlc_tx id commitment_number tx psbt wscript option_anchors 0
  | MSignMutualCloseTx tx psbt _ => handle_sign_mutual_close_tx tx psbt
  | MSignMutualCloseTx2 to_local_value_sat to_remote_value_sat local_script remote_script
      local_wallet_path_hint =>
      sig ← on_node (channel_op true (fun env => Chan.sign_mutual_close_tx_phase2 env to_local_value_sat
        to_remote_value_sat (to_script local_script) (to_script remote_script) local_wallet_path_hint) id);
      reply Msgs.SignTxReply (to_bitcoin_sig sig)
  | MValidateCommitmentTx tx psbt htlcs commitment_number feerate signature htlc_signatures =>
      handle_validate_commitment_tx tx psbt htlcs commitment_number feerate signature htlc_signatures
  | MValidateCommitmentTx2 commitment_number feerate to_local_value_sat to_remote_value_sat htlcs
      signature htlc_signatures =>
      handle_validate_commitment_tx2 commitment_number feerate to_local_value_sat to_remote_value_sat
        htlcs signature htlc_signatures
  | MSignLocalCommitmentTx2 commitment_number =>
      '(sig, htlc_sigs) ← on_node (channel_op true (fun env =>
        Chan.sign_holder_commitment_tx_phase2 env commitment_number) id);
      reply Msgs.SignCommitmentTxWithHtlcsReply (to_bitcoin_sig sig, to_bitcoin_sig <$> htlc_sigs)
  | MValidateRevocation commitment_number commitment_secret =>
      old_secret ← expect (secretkey_from_slice commitment_secret);
      on_node (channel_op true (fun env =>
        Chan.validate_counterparty_revocation env commitment_number old_secret) id);;
      reply Msgs.ValidateRevocationReply tt
  | MSignPenaltyToUs revocation_secret tx psbt wscript =>
      sign_penalty_to_us id revocation_secret tx psbt wscript 0
  | MSignChannelAnnouncement announcement => handle_sign_channel_announcement announcement
  | _ => expect None
  end.
End channel.

(** ** Handling in a persistence context *)

(** The context of a persister ([Persist::enter], [Context::exit] and the drop
    of a context): [ctx_shared] is the map of values shared with the caller. *)
Class PersistContext (P : Type) := {
  ctx_enter {E} : P -> VersionedStore -> outcome E P;
  ctx_shared : P -> VersionedStore -> VersionedStore;
  ctx_exit {E} : P -> outcome E (P * Mutations);
  ctx_drop {E} : P -> outcome E P
}.

(** The default of the trait: no context. *)
Definition dummy_context {P} : PersistContext P := {|
  ctx_enter _ p _ := Ok p;
  ctx_shared _ s := s;
  ctx_exit _ p := Ok (p, []);
  ctx_drop _ p := Ok p |}.

#[export] Instance kv_context `{L : Lib, CL : ChainLib, SL : SerLib}
  : PersistContext KVJson.KVJsonPersister := dummy_context.

(** Dropping a context that was not exited panics. *)
#[export] Instance memo_context `{Prof : Profile} : PersistContext (option Memo.State) := {|
  ctx_enter _ := Memo.enter;
  ctx_shared m s := from_option Memo.store s m;
  ctx_exit _ := Memo.exit;
  ctx_drop _ m := match m with Some _ => Panic | None => Ok None end |}.

(** A backup persister has the context of its backup. *)
#[export] Instance backup_context {M B} `{!PersistContext B} : PersistContext (Backup.BackupPersister M B) := {|
  ctx_enter E self s := b ← ctx_enter (Backup.backup self) s; Ok (Backup.set_backup self b);
  ctx_shared self := ctx_shared (Backup.backup self);
  ctx_exit E self := '(b, muts) ← ctx_exit (Backup.backup self); Ok (Backup.set_backup self b, muts);
  ctx_drop E self := b ← ctx_drop (Backup.backup self); Ok (Backup.set_backup self b) |}.

Section handle.
Context `{L : Lib, CrL : CryptoLib, !KeyLib, CL : ChainLib, AL : AddressLib, IL : InvoiceLib}.
Context `{CkL : CheckpointLib, NL : NodeLib, SL : SerLib, SB : SerdeBolt, WL : !WireLib, Prof : Profile}.
Context {P : Type} `{!Persist P, !PersistContext P} {A : Type} `{!Approve A}.

(** The handler's state with the shared map [lss_state]. *)
Notation State := (VersionedStore * HSt P A)%type.

Definition with_store (h : HSt P A) (p : P) : HSt P A :=
  {| h_approver := h_approver h; h_node := {| node := node (h_node h); store := p |} |}.

(** Leave the context with [exit]; what it returns is judged by [check]. *)
Definition exiting {R} (s : State) (k : Mutations -> outcome HError R) : State * outcome HError R :=
  let '(lss, h) := s in
  match ctx_exit (store (h_node h)) with
  | Ok (p, muts) => ((lss, with_store h p), k muts)
  | Err e => (s, Err e)
  | Panic => (s, Panic)
  end.

Definition stranded (muts : Mutations) (e : HError) {R} : outcome HError R :=
  match muts with [] => Err e | _ => Panic end.

(** [Handler::handle]. *)
Definition handle (do_handle : HM P A SerBolt) (s : State)
  : State * outcome HError (SerBolt * Mutations) :=
  let '(lss, h) := s in
  match ctx_enter (store (h_node h)) lss with
  | Ok p =>
      let '(h, result) := do_handle (with_store h p) in
      let s := (ctx_shared (store (h_node h)) lss, h) in
      match result with
      | Ok reply => exiting s (fun muts => Ok (reply, muts))
      | Err (HTemporary e) => exiting s (fun muts => stranded muts (HTemporary e))
      | Err e =>
          match ctx_drop (store (h_node h)) with
          | Ok p => ((s.1, with_store h p), Err e)
          | Err e' => (s, Err e')
          | Panic => (s, Panic)
          end
      | Panic => (s, Panic)
      end
  | Err e => (s, Err e)
  | Panic => (s, Panic)
  end.

(** [Handler::with_persist]. *)
Definition with_persist (f : HM P A unit) (s : State) : State * outcome HError Mutations :=
  let '(lss, h) := s in
  match ctx_enter (store (h_node h)) lss with
  | Ok p =>
      let '(h, result) := f (with_store h p) in
      let s := (ctx_shared (store (h_node h)) lss, h) in
      match result with
      | Ok _ => exiting s Ok
      | Err e => exiting s (fun muts => stranded muts e)
      | Panic => (s, Panic)
      end
  | Err e => (s, Err e)
  | Panic => (s, Panic)
  end.

(** ** Building the handler *)

(** [NodeConfig::new]. *)
Definition NodeConfig_new (net : Network) : NodeConfig :=
  {| cfg_network := net; cfg_key_derivation_style := Native; use_checkpoints := true |}.

Definition do_build (net : Network) (seed : bytes) (initial_allowlist : list string)
  (vf : ValidatorFactory) (starting_time : Z * Z) (approver : A) (p : P) : P * outcome HError (HSt P A) :=
  let finish '(p, r) :=
    (p, n ← map_err from_status r; Ok {| h_approver := approver; h_node := {| node := n; store := p |} |}) in
  match persist_get_nodes p with
  | Ok [] => finish (create_node (NodeConfig_new net) seed vf starting_time initial_allowlist p)
  | Ok [(nid, entry)] => finish (restore_node nid entry seed vf starting_time p)
  | _ => (p, Panic)
  end.

(** [RootHandlerBuilder::build]. *)
Definition build (net : Network) (seed : bytes) (initial_allowlist : list string)
  (vf : ValidatorFactory) (starting_time : Z * Z) (approver : A) (lss : VersionedStore) (p : P)
  : outcome HError (State * Mutations) :=
  p ← ctx_enter p lss;
  match do_build net seed initial_allowlist vf starting_time approver p with
  | (p, Ok h) =>
      let lss := ctx_shared p lss in
      '(p, muts) ← ctx_exit p;
      Ok ((lss, with_store h p), muts)
  | (p, Err e) => ctx_drop p;; Err e
  | (_, Panic) => Panic
  end.
End handle.
