(* ===== verification/HandlerSafety.v ===== *)
(** * Safety of the protocol handlers

    The guarantees of a channel (ChannelSafety.v) hold of the whole signer:
    over any run of messages to its root handler and its channel handlers, on
    a node with any number of channels, in terms of the messages and the
    replies alone. *)

From Stdlib Require Import Eqdep.
From S2P Require Import Prelude Velocity Policy Order Extern Crypto Setup Tx Keys Allowlist Script.
From S2P Require Import Secrets Enforcement Validator SimpleValidator NodeState ChannelOps ChannelSafety.
From S2P Require Import Monitor Tracker Persist PersistSpec Node NodeInv NodeChannels Msgs Approver Handler.

Import NodeOps Safety.

(** ** Programs of the node that keep an invariant

    [nwp I m Q s]: run from [s], [m] ends in a state with [Q] when it succeeds
    and in a node with [I] when it returns an error.  A panic ends the run of
    the signer. *)

Section nwp.
Context `{L : Lib, !KeyLib, CL : ChainLib} {P : Type} (I : Node -> Prop).
Implicit Types (s : NSt P).

Definition nwp {A} (m : M P A) (Q : A -> NSt P -> Prop) s : Prop :=
  match m s with
  | (s', Ok a) => Q a s'
  | (s', Err _) => I (node s')
  | (_, Panic) => True
  end.

Lemma nwp_ret {A} (a : A) Q s : Q a s -> nwp (mret a) Q s.
Proof. done. Qed.

Lemma nwp_bind {A B} (m : M P A) (f : A -> M P B) Q s :
  nwp m (fun a => nwp (f a) Q) s -> nwp (m ≫= f) Q s.
Proof. unfold nwp, mbind, M_bind. destruct (m s) as [s' [a|e|]]; auto. Qed.

Lemma nwp_mono {A} (m : M P A) (Q Q' : A -> NSt P -> Prop) s :
  nwp m Q s -> (forall a s', Q a s' -> Q' a s') -> nwp m Q' s.
Proof. unfold nwp. destruct (m s) as [s' [a|e|]]; auto. Qed.

Lemma nwp_get Q s : Q (node s) s -> nwp get_node Q s.
Proof. done. Qed.

Lemma nwp_put n Q s : Q tt {| node := n; store := store s |} -> nwp (put_node n) Q s.
Proof. done. Qed.

Lemma nwp_lift {A} (o : outcome Status A) Q s :
  I (node s) -> (forall a, o = Ok a -> Q a s) -> nwp (lift o) Q s.
Proof. unfold nwp, lift. destruct o; auto. Qed.

Lemma nwp_lift_Ok {A} (a : A) Q s : Q a s -> nwp (lift (Ok a)) Q s.
Proof. done. Qed.

Lemma nwp_lift_v {A} (o : result A) Q s :
  I (node s) -> (forall a, Q a s) -> nwp (lift_v o) Q s.
Proof. unfold nwp, lift_v, lift. destruct o; cbn; auto. Qed.

Lemma nwp_persist_call f Q s : I (node s) ->
  (forall r p, Q r {| node := node s; store := p |}) -> nwp (persist_call f) Q s.
Proof. unfold nwp, persist_call. destruct (f (store s)) as [p [u|e|]]; auto. Qed.

Lemma nwp_persist_or msg f Q s : I (node s) ->
  (forall p, Q tt {| node := node s; store := p |}) -> nwp (persist_or msg f) Q s.
Proof.
  intros Hi Hq. unfold persist_or. apply nwp_bind, nwp_persist_call; [done|]. intros r p.
  apply nwp_lift; [done|]. intros []. auto.
Qed.

Lemma nwp_persist_expect f Q s : I (node s) ->
  (forall p, Q tt {| node := node s; store := p |}) -> nwp (persist_expect f) Q s.
Proof.
  intros Hi Hq. unfold persist_expect. apply nwp_bind, nwp_persist_call; [done|]. intros r p.
  apply nwp_lift; [done|]. intros []. auto.
Qed.

Lemma nwp_loop {A} (f : A -> M P unit) l s : I (node s) ->
  (forall x s, x ∈ l -> I (node s) -> nwp (f x) (fun _ s' => I (node s')) s) ->
  nwp (foldl (fun (m : M P unit) x => m;; f x) (mret tt) l) (fun _ s' => I (node s')) s.
Proof.
  intros Hi Hf. assert (Hg : forall m, nwp m (fun _ s' => I (node s')) s ->
    nwp (foldl (fun (m : M P unit) x => m;; f x) m l) (fun _ s' => I (node s')) s); [|by apply Hg].
  induction l as [|x l IH]; intros m Hm; [done|]. cbn [foldl].
  apply IH; [intros y s' Hy; apply Hf; set_solver|]. apply nwp_bind.
  eapply nwp_mono; [exact Hm|]. intros a s' Hs'. apply Hf; [set_solver|done].
Qed.
End nwp.

(** One step forwards; where the program may fail, [I] of the current node is
    looked for. *)
Ltac nwp1 :=
  lazymatch goal with
  | |- nwp _ (mbind _ _) _ _ => apply nwp_bind
  | |- nwp _ (mret _) _ _ => apply nwp_ret
  | |- nwp _ get_node _ _ => apply nwp_get
  | |- nwp _ (put_node _) _ _ => apply nwp_put
  | |- nwp _ (lift_v _) _ _ => apply nwp_lift_v; [solve [eauto with nwp_inv]|intros ?]
  | |- nwp _ (lift (Ok _)) _ _ => apply nwp_lift_Ok
  | |- nwp _ (lift _) _ _ => apply nwp_lift; [solve [eauto with nwp_inv]|intros ? ?]
  | |- nwp _ (persist_or _ _) _ _ => apply nwp_persist_or; [solve [eauto with nwp_inv]|intros ?]
  | |- nwp _ (persist_expect _) _ _ => apply nwp_persist_expect; [solve [eauto with nwp_inv]|intros ?]
  | |- nwp _ (match ?x with _ => _ end) _ _ => destruct x eqn:?
  end; cbv beta match zeta; cbn [node store].
Ltac nwps := repeat nwp1.
Create HintDb nwp_inv discriminated.

(** ** The invariant of the channels *)

Section invariant.
Context `{L : Lib, CrL : CryptoLib, !KeyLib, CL : ChainLib, AL : AddressLib, IL : InvoiceLib}.
Context `{CkL : CheckpointLib, NL : NodeLib, SL : SerLib, Prof : Profile} {P : Type} `{!Persist P}.
Implicit Types (n : Node) (s : NSt P) (hist : ChannelId -> list Event).

(** What the history of a channel says of its slot. *)
Definition slot_safe (h : list Event) (sl : ChannelSlot) : Prop :=
  match sl with
  | Stub _ => h = []
  | Ready c => chan_inv h c
  end.

Record safe hist n : Prop := {
  safe_slot id : match channels n !! id with
                 | None => hist id = []
                 | Some ptr => exists sl, slot <$> slots n !! ptr = Some sl /\ slot_safe (hist id) sl
                 end;
  safe_inj i j ptr : channels n !! i = Some ptr -> channels n !! j = Some ptr -> i = j;
  safe_validator net nid cid : SafeValidator (make_validator (node_validator_factory n) net nid cid)
}.

Lemma safe_frame hist n n' : channels n' = channels n ->
  (forall ptr, slot <$> slots n' !! ptr = slot <$> slots n !! ptr) ->
  node_validator_factory n' = node_validator_factory n -> safe hist n -> safe hist n'.
Proof.
  intros Hc Hs Hv [Hi Hinj Hsv]. split; [|by rewrite Hc|by rewrite Hv].
  intros id. specialize (Hi id). rewrite Hc. destruct (channels n !! id) as [ptr|]; [|done]. by rewrite Hs.
Qed.

Lemma safe_same hist n n' : channels n' = channels n -> slots n' = slots n ->
  node_validator_factory n' = node_validator_factory n -> safe hist n -> safe hist n'.
Proof. intros Hc Hs. apply safe_frame; [done|]. by rewrite Hs. Qed.

(** A slot of an id under a fresh pointer. *)
Lemma safe_insert hist n id sl d : slot_safe (hist id) sl -> safe hist n ->
  safe hist (insert_slot n [id] {| slot := sl; detached := d |}).
Proof.
  intros Hsl [Hi Hinj Hv]. assert (Hf : forall j, channels n !! j <> Some (fresh_slot n)).
  { intros j Hj. specialize (Hi j). rewrite Hj, fresh_slot_None in Hi. by destruct Hi as (? & ? & _). }
  split; [intros j; specialize (Hi j)|intros i j ptr|done];
    cbn [insert_slot foldl channels slots set_channels].
  - destruct (decide (j = id)) as [->|Hne].
    + rewrite lookup_insert_eq. exists sl. rewrite lookup_insert_eq. done.
    + rewrite lookup_insert_ne by done. destruct (channels n !! j) as [ptr|] eqn:Hj; [|done].
      destruct Hi as (sl' & Hp & Hs'). exists sl'. split; [|done].
      rewrite lookup_insert_ne; [done|]. intros <-. by apply (Hf j).
  - rewrite !lookup_insert_Some. intros [[<- <-]|[Hne Hp]] [[<- Hq]|[Hne' Hq]]; [done| | |eauto].
    + by apply Hf in Hq.
    + subst. by apply Hf in Hp.
Qed.

(** New events of one channel. *)
Definition extend hist (id : ChannelId) (evs : list Event) : ChannelId -> list Event :=
  fun i => if decide (i = id) then hist i ++ evs else hist i.

(** A channel that may have changed, with its events. *)
Lemma safe_update hist n n' id ptr c evs : safe hist n -> channels n !! id = Some ptr ->
  channels n' = channels n -> slot <$> slots n' !! ptr = Some (Ready c) ->
  (forall p, p <> ptr -> slots n' !! p = slots n !! p) ->
  node_validator_factory n' = node_validator_factory n ->
  chan_inv (hist id ++ evs) c -> safe (extend hist id evs) n'.
Proof.
  intros [Hi Hinj Hv] Hptr Hch Hc Ho Hf Hinv. split; [|by rewrite Hch|by rewrite Hf].
  intros j. rewrite Hch. unfold extend. destruct (decide (j = id)) as [->|Hne].
  - rewrite Hptr. by exists (Ready c).
  - specialize (Hi j). destruct (channels n !! j) as [p|] eqn:Hp; [|done].
    rewrite Ho; [done|]. intros ->. by eapply Hne, Hinj.
Qed.

Lemma safe_lookup hist n id ptr sl : safe hist n -> channels n !! id = Some ptr ->
  slots n !! ptr = Some sl -> slot_safe (hist id) (slot sl).
Proof.
  intros [Hi _ _] Hp Hs. specialize (Hi id). rewrite Hp, Hs in Hi. by destruct Hi as (sl' & [= <-] & Hsl).
Qed.

Lemma extend_nil hist id n : safe (extend hist id []) n <-> safe hist n.
Proof.
  split; intros [Hi Hinj Hv]; (split; [|done..]); intros j; specialize (Hi j); unfold extend in *;
    (destruct (decide (j = id)); [|done]); by rewrite app_nil_r in *.
Qed.
End invariant.

#[export] Hint Extern 1 (safe _ _) =>
  match goal with Hi : safe _ ?n |- _ => refine (safe_same _ n _ _ _ _ Hi); reflexivity end : nwp_inv.

Ltac safe_done := solve [eauto with nwp_inv].

(** ** Operations of the node keep the invariant *)

Section node_ops.
Context `{L : Lib, CrL : CryptoLib, !KeyLib, CL : ChainLib, AL : AddressLib, IL : InvoiceLib}.
Context `{CkL : CheckpointLib, NL : NodeLib, SL : SerLib, Prof : Profile} {P : Type} `{!Persist P}.
Context (hist : ChannelId -> list Event) (s : NSt P) (Hi : safe hist (node s)).

Notation keeps m := (nwp (safe hist) m (fun _ s' => safe hist (node s')) s).

Lemma add_allowlist_keeps l : keeps (add_allowlist l).
Proof.
  unfold add_allowlist, change_allowlist, parse_allowables, update_allowlist. nwps; safe_done.
Qed.

Lemma track_payment_keeps msg h ps ih now : keeps (track_payment msg h ps ih now).
Proof. unfold track_payment. nwps; safe_done. Qed.

Lemma add_invoice_keeps tw i now : keeps (add_invoice tw i now).
Proof.
  unfold add_invoice, payment_state_from_invoice. nwps. apply track_payment_keeps.
Qed.

Lemma sign_invoice_keeps hrp data : keeps (sign_invoice hrp data).
Proof. unfold sign_invoice, payment_state_from_invoice. nwps; safe_done. Qed.

Lemma add_block_keeps header prf : keeps (handle_add_block header prf).
Proof. unfold handle_add_block. nwps; safe_done. Qed.

Lemma remove_block_keeps prf : keeps (handle_remove_block prf).
Proof. unfold handle_remove_block. nwps; safe_done. Qed.

Lemma new_channel_keeps id : keeps (new_channel (Some id)).
Proof.
  unfold new_channel, get_slot. nwps; try safe_done.
  pose proof (safe_slot _ _ Hi id) as Hh. rewrite Heqo in Hh.
  match goal with |- nwp _ _ _ {| node := ?n |} =>
    assert (Hn : safe hist n) by (apply safe_insert; [done|safe_done]) end.
  nwps. safe_done.
Qed.

Lemma detached_keeps n o old t : safe hist n ->
  safe hist (set_tracker (set_channels n (channels n) (detach o old <$> slots n)) t).
Proof.
  apply safe_frame; [done| |done]. intros ptr. cbn. rewrite lookup_fmap, <- option_fmap_compose.
  destruct (slots n !! ptr) as [sl|]; [|done]. cbn. by rewrite slot_detach.
Qed.

Lemma ready_channel_keeps id stp path : keeps (ready_channel id None stp path).
Proof.
  unfold ready_channel, get_slot. cbn [default]. rewrite bool_decide_false by (intros Hn; by apply Hn).
  nwps; try safe_done.
  assert (Hnil : hist id = []).
  { destruct (channels (node s) !! id) as [ptr|] eqn:Hp; [|done]. injection H0 as ->.
    destruct (slots (node s) !! a) as [sl|] eqn:Hs; [|done]. injection H1 as ->.
    pose proof (safe_lookup _ _ _ _ _ Hi Hp Hs) as Hsl. by rewrite Heqc in Hsl. }
  match goal with |- nwp _ _ _ {| node := set_tracker ?n _ |} => assert (Hn : safe hist n) end.
  { apply safe_insert.
    - cbn [slot_safe]. rewrite Hnil. by eapply chan_inv_initial.
    - apply (detached_keeps _ _ _ (tracker (node s))), Hi. }
  nwps; safe_done.
Qed.

Lemma safe_delete n id : hist id = [] -> safe hist n ->
  safe hist (set_channels n (delete id (channels n)) (slots n)).
Proof.
  intros Hnil [Hn Hinj Hv]. split; [intros j; specialize (Hn j)|intros i j ptr|done];
    cbn [channels slots set_channels].
  - destruct (decide (j = id)) as [->|Hne]; [by rewrite lookup_delete_eq|]. by rewrite lookup_delete_ne.
  - intros [_ Hp]%lookup_delete_Some [_ Hq]%lookup_delete_Some. eauto.
Qed.

Lemma prune_channels_keeps h : keeps (prune_channels h).
Proof.
  unfold prune_channels. nwps. apply nwp_loop; [done|]. intros id s' Hid Hs'.
  assert (Hnil : hist id = []).
  { apply list_elem_of_fmap in Hid as ([id' ptr] & -> & Hip). apply list_elem_of_filter in Hip as [Hp Hip].
    apply channel_slots_elem in Hip. unfold prunable_stub in Hp. cbn [fst snd] in *.
    destruct (slots (node s) !! ptr) as [[[stub|c] d]|] eqn:Hs; [|done..].
    apply (safe_lookup _ _ _ _ _ Hi Hip Hs). }
  nwps. all: pose proof (safe_delete _ _ Hnil Hs'). nwps. safe_done.
Qed.
End node_ops.

Section node_ops_more.
Context `{L : Lib, CrL : CryptoLib, !KeyLib, CL : ChainLib, AL : AddressLib, IL : InvoiceLib}.
Context `{CkL : CheckpointLib, NL : NodeLib, SL : SerLib, Prof : Profile} {P : Type} `{!Persist P}.
Context (hist : ChannelId -> list Event) (s : NSt P) (Hi : safe hist (node s)).

Notation keeps m := (nwp (safe hist) m (fun _ s' => safe hist (node s')) s).

Lemma get_heartbeat_keeps tw now now' : keeps (get_heartbeat tw now now').
Proof.
  unfold get_heartbeat. nwps. eapply nwp_mono; [apply prune_channels_keeps; safe_done|].
  cbn. intros _ s' Hs'. nwps; safe_done.
Qed.

Lemma add_keysend_keeps payee h amount now now' : keeps (add_keysend payee h amount now now').
Proof. unfold add_keysend, payment_state_from_keysend. by apply track_payment_keeps. Qed.

Lemma check_onchain_tx_safe n tx input_txs values spendtypes keys opaths now : safe hist n ->
  safe hist (check_onchain_tx n tx input_txs values spendtypes keys opaths now).1.
Proof. intros Hn. unfold check_onchain_tx. destruct (x ← _; _) as [[]| |]; safe_done. Qed.

Lemma safe_tracker_frame n n' : tracker_frame n n' -> safe hist n -> safe hist n'.
Proof.
  intros []. apply safe_frame; [done| |done]. intros ptr. by rewrite <- !lookup_fmap, tf_slots.
Qed.

Lemma unchecked_sign_onchain_tx_keeps tx ipaths values spendtypes keys :
  keeps (unchecked_sign_onchain_tx tx ipaths values spendtypes keys).
Proof.
  unfold unchecked_sign_onchain_tx. nwps. assert (safe hist a0).
  { refine (foldM_inv (fun _ n => safe hist n) _ _ _ _ Hi _ H1). intros _ ptr n1 n2 Hn1 Hn2.
    by apply (safe_tracker_frame _ _ (funding_signed_frame _ _ _ _ Hn2)). }
  nwps; safe_done.
Qed.

Lemma with_channel_base_keeps {A} id (f : ChannelSlot -> outcome Status A) : keeps (with_channel_base id f).
Proof. unfold with_channel_base, get_channel, get_slot. nwps; safe_done. Qed.
End node_ops_more.

(** ** Requests on a channel *)

Section channel_op.
Context `{L : Lib, CrL : CryptoLib, !KeyLib, CL : ChainLib, AL : AddressLib, IL : InvoiceLib}.
Context `{CkL : CheckpointLib, NL : NodeLib, SL : SerLib, SB : SerdeBolt, WL : !WireLib, Prof : Profile}.
Context {P : Type} `{!Persist P}.

(** A persister that never refuses to store a channel (it may panic): that it
    can refuse is what breaks the guarantee ([persist_failure_then_revoked_signed]). *)
Class Reliable : Prop :=
  stores_channels p nid c e : (persist_update_channel p nid c).2 <> Err e.

(** [m] keeps the channel safe; what it returns tells its events. *)
Definition chan_keeps {R} (m : Chan.Env -> Chan.M R) (reveals : R -> list Event -> Prop) : Prop :=
  forall env h s, SafeValidator (Chan.env_validator env) -> J h s ->
    wp (m env) (fun r s' => exists evs, reveals r evs /\ J (h ++ evs) s') (failed h env s) s.

(** The slot of the channel after a request. *)
Lemma safe_store hist n id ptr c d evs st : safe hist n -> channels n !! id = Some ptr ->
  chan_inv (hist id ++ evs) c ->
  safe (extend hist id evs) (set_channels (set_state n st) (channels (set_state n st))
    (<[ptr := {| slot := Ready c; detached := d |}]> (slots (set_state n st)))).
Proof.
  intros Hi Hp Hc. apply (safe_update hist n _ id ptr c evs); cbn [channels slots set_state set_channels];
    [done..| | |done|done].
  - by rewrite lookup_insert_eq.
  - intros p Hne. by rewrite lookup_insert_ne.
Qed.

Lemma channel_op_keeps {R} writes (m : Chan.Env -> Chan.M R) reveals id hist s :
  Reliable -> chan_keeps m reveals -> safe hist (node s) ->
  nwp (safe hist) (channel_op (P := P) writes m id)
    (fun r s' => exists evs, reveals r evs /\ safe (extend hist id evs) (node s')) s.
Proof.
  intros Hrel Hm Hi. unfold channel_op, with_ready_channel, get_channel, get_slot. nwps; [done|].
  destruct (channels (node s) !! id) as [ptr|] eqn:Hp; [|done]. injection H0 as ->.
  destruct (slots (node s) !! a) as [sl|] eqn:Hs; [|done]. injection H1 as ->.
  pose proof (safe_lookup _ _ _ _ _ Hi Hp Hs) as Hc. rewrite Heqc in Hc. cbn [slot_safe] in Hc.
  assert (Hsame : safe hist (set_channels (node s) (channels (node s))
    (<[a := {| slot := Ready chan; detached := detached a0 |}]> (slots (node s))))).
  { apply (extend_nil hist id), (safe_store hist (node s) id a chan _ [] (state (node s))); [done..|].
    by rewrite app_nil_r. }
  unfold nwp. destruct (_ ≫= _) as [cstate|e|]; [|done..].
  pose proof (Hm (channel_env (node s) chan cstate true) (hist id)
    {| Chan.chan := chan; Chan.node_state := state (node s); Chan.persisted := chan |}
    (safe_validator _ _ Hi _ _ _) (J_persisted _ _ _ Hc)) as Hw. unfold wp in Hw.
  destruct (m _ _) as [cs [r|e|]]; cbn [is_ok].
  - destruct Hw as (evs & Hr & [Hcs _]). pose proof (Hrel (store s) (node_id (node s)) (Chan.chan cs)) as Hst.
    destruct writes; cbn [andb].
    + destruct (persist_update_channel _ _ _) as [p [u|e|]]; [|by destruct (Hst e)|done].
      exists evs. split; [done|]. by apply safe_store.
    + exists evs. split; [done|]. by apply safe_store.
  - rewrite andb_false_r. destruct Hw as [_ [Hcs _]]; [done..|]. cbn [node].
    apply (extend_nil hist id), safe_store; [done..|]. by rewrite app_nil_r.
  - by rewrite andb_false_r.
Qed.
End channel_op.

#[global] Instance kv_reliable `{L : Lib, CL : ChainLib, SL : SerLib}
  : Reliable (P := KVJson.KVJsonPersister).
Proof. intros p nid c e. cbn. unfold KVJson.update_channel. by destruct (bool_decide _). Qed.

(** *** The requests that a handler makes *)

Section requests.
Context `{L : Lib, Prof : Profile, HK : !KeysLaws}.
Import Chan.

Lemma keeps_exec {R} op (m : Env -> Chan.M R) (f : R -> list Event) : op_ok op ->
  (forall env s, exec env op s = (m env ≫= fun r => mret (f r)) s) ->
  chan_keeps m (fun r evs => evs = f r).
Proof.
  intros Hop He env h s Hv HJ. pose proof (op_holds env h s HJ op Hop) as Hw. unfold wp in *.
  rewrite He in Hw. unfold mbind, M_bind in Hw. destruct (m env s) as [s' [r|e|]]; eauto.
Qed.

Lemma keeps_read {R} (f : Env -> Channel -> outcome Status R) :
  chan_keeps (channel_read f) (fun _ evs => evs = []).
Proof.
  intros env h s Hv HJ. unfold channel_read. wps. exists []. by rewrite app_nil_r.
Qed.

Lemma keeps_lift {X R} (o : outcome Status X) (m : X -> Env -> Chan.M R) reveals :
  (forall x, chan_keeps (m x) reveals) -> chan_keeps (fun env => x ← lift o; m x env) reveals.
Proof. intros Hm env h s Hv HJ. wps. by apply Hm. Qed.

(** A signature on the counterparty's commitment: the contents are known once
    it is given. *)
Lemma wp_contents {R} (m : Chan.M R) (o : outcome Status CommitmentInfo2)
  (E : CommitmentInfo2 -> Event) Q Rf s :
  wp m (fun _ _ => exists i, o = Ok i) (fun _ _ => True) s ->
  wp (m;; i ← lift o; mret [E i]) Q Rf s ->
  wp m (fun _ s' => exists i, o = Ok i /\ Q [E i] s') Rf s.
Proof.
  unfold wp, mbind, M_bind. destruct (m s) as [s' [r|e|]]; [|done..].
  intros (i & ->) Hq. eauto.
Qed.

(** What a commitment signed for the counterparty holds. *)
Definition contents (i : CommitmentInfo2) (to_holder to_counterparty feerate : Z)
  (offered received : list HTLCInfo2) : Prop :=
  to_countersigner_value_sat i = to_holder /\ to_broadcaster_value_sat i = to_counterparty
  /\ feerate_per_kw i = feerate /\ offered_htlcs i = sort offered /\ received_htlcs i = sort received.

Lemma build_contents c point th tc off rec feerate i :
  build_counterparty_commitment_info c point th tc off rec feerate = Ok i ->
  contents i th tc feerate off rec.
Proof. intros H. unfold build_counterparty_commitment_info in H. by inv_ok H. Qed.

Lemma keeps_sign_counterparty_phase2 point n feerate th tc off rec : 0 <= n < 2 ^ 63 ->
  chan_keeps (fun env => sign_counterparty_commitment_tx_phase2 env point n feerate th tc off rec)
    (fun _ evs => exists i, evs = [ECpSigned n point i] /\ contents i th tc feerate off rec).
Proof.
  intros Hn env h s Hv HJ. pose proof (sign_counterparty_phase2_holds env h s HJ point n feerate th tc
    off rec Hn) as Hw. apply (wp_contents _ _ (ECpSigned n point)) in Hw.
  - eapply wp_mono; [exact Hw| |done]. intros r s' (i & Hi & Hq). eexists. split; [|exact Hq].
    exists i. split; [done|]. by eapply build_contents.
  - unfold sign_counterparty_commitment_tx_phase2. wps. eauto.
Qed.

Lemma keeps_sign_counterparty tx ws point n feerate off rec : 0 <= n < 2 ^ 63 ->
  chan_keeps (fun env => sign_counterparty_commitment_tx env tx ws point n feerate off rec)
    (fun _ evs => exists i th tc, evs = [ECpSigned n point i] /\ contents i th tc feerate off rec).
Proof.
  intros Hn env h s Hv HJ.
  set (o := ci ← map_err status_from (Validator.decode_commitment_tx (env_validator env) (keys (chan s))
              (setup (chan s)) true tx ws);
    build_counterparty_commitment_info (chan s) point (ci_to_countersigner_value_sat ci)
      (ci_to_broadcaster_value_sat ci) off rec feerate).
  assert (Hw : wp (sign_counterparty_commitment_tx env tx ws point n feerate off rec;;
      i ← lift o; mret [ECpSigned n point i]) (fun evs s' => J (h ++ evs) s') (failed h env s) s).
  { pose proof (sign_counterparty_holds env h s HJ tx ws point n feerate off rec Hn) as Hw.
    revert Hw. subst o. unfold exec, lift_v, lift, wp, mbind, M_bind, outcome_bind. cbn [get_chan].
    destruct (sign_counterparty_commitment_tx _ _ _ _ _ _ _ _ s) as [s' [r|e|]]; [|done..].
    by destruct (map_err _ _). }
  apply wp_contents in Hw.
  - eapply wp_mono; [exact Hw| |done]. intros r s' (i & Hi & Hq). eexists. split; [|exact Hq].
    apply bind_Ok in Hi as (ci & _ & Hi). exists i, (ci_to_countersigner_value_sat ci),
      (ci_to_broadcaster_value_sat ci). split; [done|]. by eapply build_contents.
  - unfold sign_counterparty_commitment_tx. wps. subst o.
    match goal with H : Validator.decode_commitment_tx _ _ _ _ _ _ = _ |- _ => rewrite H end. eauto.
Qed.

Lemma keeps_validate_holder tx ws n feerate off rec sig htlc_sigs : 0 <= n < 2 ^ 63 ->
  chan_keeps (fun env => validate_holder_commitment_tx env tx ws n feerate off rec sig htlc_sigs)
    (fun res evs => evs = released_by n res).
Proof.
  intros Hn. by apply (keeps_exec (ValidateHolder tx ws n feerate off rec sig htlc_sigs) _ (released_by n)).
Qed.

Lemma keeps_validate_holder_phase2 n feerate th tc off rec sig htlc_sigs : 0 <= n < 2 ^ 63 ->
  chan_keeps (fun env => validate_holder_commitment_tx_phase2 env n feerate th tc off rec sig htlc_sigs)
    (fun res evs => evs = released_by n res).
Proof.
  intros Hn.
  by apply (keeps_exec (ValidateHolderPhase2 n feerate th tc off rec sig htlc_sigs) _ (released_by n)).
Qed.

(** A secret of the channel, outside an operation. *)
Lemma chan_inv_secret env (ns : NodeState) h c n secret : SafeValidator (env_validator env) -> chan_inv h c ->
  0 <= n < 2 ^ 64 - 2 -> get_per_commitment_secret (env_validator env) c n = Ok secret ->
  chan_inv (h ++ [EReleased n]) c.
Proof.
  intros Hv Hc Hn Hg. pose proof (get_secret_holds env h _ (J_persisted h c ns Hc) n Hn) as Hw.
  unfold exec, wp, mbind, M_bind, lift in Hw. cbn [get_chan chan] in Hw. rewrite Hg in Hw. apply Hw.
Qed.
End requests.

(** ** Programs of the handlers *)

Section hwp.
Context `{L : Lib, CrL : CryptoLib, !KeyLib, CL : ChainLib, AL : AddressLib, IL : InvoiceLib}.
Context `{CkL : CheckpointLib, NL : NodeLib, SL : SerLib, SB : SerdeBolt, WL : !WireLib, Prof : Profile}.
Context {P A : Type} (I : Node -> Prop).
Implicit Types (h : HSt P A).

Definition hwp {R} (m : HM P A R) (Q : R -> HSt P A -> Prop) h : Prop :=
  match m h with
  | (h', Ok r) => Q r h'
  | (h', Err _) => I (node (h_node h'))
  | (_, Panic) => True
  end.

Lemma hwp_ret {R} (r : R) Q h : Q r h -> hwp (mret r) Q h.
Proof. done. Qed.

Lemma hwp_bind {R R'} (m : HM P A R) (f : R -> HM P A R') Q h :
  hwp m (fun r => hwp (f r) Q) h -> hwp (m ≫= f) Q h.
Proof. unfold hwp, mbind, H_bind. destruct (m h) as [h' [r|e|]]; auto. Qed.

Lemma hwp_mono {R} (m : HM P A R) (Q Q' : R -> HSt P A -> Prop) h :
  hwp m Q h -> (forall r h', Q r h' -> Q' r h') -> hwp m Q' h.
Proof. unfold hwp. destruct (m h) as [h' [r|e|]]; auto. Qed.

Lemma hwp_expect {R} (o : option R) Q h : (forall r, o = Some r -> Q r h) -> hwp (expect o) Q h.
Proof. unfold hwp, expect. destruct o; cbn; auto. Qed.

Lemma hwp_try {R} (o : outcome Status R) Q h :
  I (node (h_node h)) -> (forall r, o = Ok r -> Q r h) -> hwp (try o) Q h.
Proof. unfold hwp, try. destruct o; cbn; auto. Qed.

Lemma hwp_the_node Q h : Q (node (h_node h)) h -> hwp the_node Q h.
Proof. done. Qed.

Lemma hwp_reply {T} (t : Struct T) x Q h : Q (pack t x) h -> hwp (reply t x) Q h.
Proof. done. Qed.

Lemma hwp_on_node {R} (m : M P R) Q h :
  nwp I m (fun r s => Q r {| h_approver := h_approver h; h_node := s |}) (h_node h) -> hwp (on_node m) Q h.
Proof. unfold hwp, on_node, nwp. destruct (m (h_node h)) as [s [r|e|]]; auto. Qed.

Lemma hwp_collect {X R} (f : X -> HM P A R) l Q h :
  (forall x h, I (node (h_node h)) -> hwp (f x) (fun _ h' => I (node (h_node h'))) h) ->
  I (node (h_node h)) -> (forall rs h', I (node (h_node h')) -> Q rs h') -> hwp (collect f l) Q h.
Proof.
  intros Hf. revert Q h. induction l as [|x l IH]; intros Q h Hi HQ; [by apply HQ|].
  cbn [collect]. apply hwp_bind. eapply hwp_mono; [by apply Hf|]. intros r h' Hi'.
  apply hwp_bind, IH; [done|]. intros rs h'' Hi''. by apply HQ.
Qed.
End hwp.

Ltac hwp1 :=
  lazymatch goal with
  | |- hwp _ (mbind _ _) _ _ => apply hwp_bind
  | |- hwp _ (mret _) _ _ => apply hwp_ret
  | |- hwp _ (expect _) _ _ => apply hwp_expect; intros ? ?
  | |- hwp _ (extract_pubkey _) _ _ => apply hwp_expect; intros ? ?
  | |- hwp _ (slice_from _ _) _ _ => apply hwp_expect; intros ? ?
  | |- hwp _ (try _) _ _ => apply hwp_try; [solve [eauto with nwp_inv]|intros ? ?]
  | |- hwp _ the_node _ _ => apply hwp_the_node
  | |- hwp _ (reply _ _) _ _ => apply hwp_reply
  | |- hwp _ (match ?x with _ => _ end) _ _ => destruct x eqn:?
  end; cbv beta match zeta; cbn [h_node h_approver node store].
Ltac hwps := repeat hwp1.

(** ** What messages and replies reveal *)

Section reveal.
Context `{L : Lib, CrL : CryptoLib, !KeyLib, CL : ChainLib, AL : AddressLib, IL : InvoiceLib}.
Context `{CkL : CheckpointLib, NL : NodeLib, SL : SerLib, SB : SerdeBolt, WL : !WireLib, Prof : Profile}.

(** A message to the root handler, with what it reads of its clocks, or to the
    handler of a channel. *)
Inductive Request :=
| ToRoot (tw : bool) (t : Clocks) (msg : Message)
| ToChannel (id : ChannelId) (msg : Message).

(** A signature on the holder's commitment [n]; the secret that revokes it; a
    signature on the counterparty's commitment, whose values are in the
    message if they are given; an accepted revocation. *)
Inductive Reveal :=
| HolderSigned (n : Z)
| Released (n : Z)
| CounterpartySigned (n : Z) (point : PublicKey) (to_local_to_remote : option (Z * Z))
    (feerate : Z) (htlcs : list Model.Htlc)
| Revoked (n : Z) (secret : SecretKey).

Inductive reveals : Request -> SerBolt -> ChannelId -> Reveal -> Prop :=
| reveals_local_commitment id n rep :
    reveals (ToChannel id (MSignLocalCommitmentTx2 n)) rep id (HolderSigned n)
| reveals_commitment tw t peer_id dbid tx tx' psbt fk n rep :
    tx_deserialize tx = Some tx' -> lock_time tx' <> 0 ->
    reveals (ToRoot tw t (MSignCommitmentTx peer_id dbid tx psbt fk n)) rep
      (channel_id peer_id dbid) (HolderSigned n)
| reveals_validated id tx psbt htlcs n feerate sig htlc_sigs secret point :
    reveals (ToChannel id (MValidateCommitmentTx tx psbt htlcs n feerate sig htlc_sigs))
      (pack Msgs.ValidateCommitmentTxReply (Some secret, point)) id (Released (n - 1))
| reveals_validated2 id n feerate to_local to_remote htlcs sig htlc_sigs secret point :
    reveals (ToChannel id (MValidateCommitmentTx2 n feerate to_local to_remote htlcs sig htlc_sigs))
      (pack Msgs.ValidateCommitmentTxReply (Some secret, point)) id (Released (n - 1))
| reveals_point id n point secret :
    reveals (ToChannel id (MGetPerCommitmentPoint n))
      (pack Msgs.GetPerCommitmentPointReply (point, Some secret)) id (Released (n - 2))
| reveals_remote_commitment id tx psbt fk point point' stat n htlcs feerate rep :
    pubkey_from_slice point = Some point' ->
    reveals (ToChannel id (MSignRemoteCommitmentTx tx psbt fk point stat n htlcs feerate)) rep id
      (CounterpartySigned n point' None feerate htlcs)
| reveals_remote_commitment2 id point point' n feerate to_local to_remote htlcs rep :
    pubkey_from_slice point = Some point' ->
    reveals (ToChannel id (MSignRemoteCommitmentTx2 point n feerate to_local to_remote htlcs)) rep id
      (CounterpartySigned n point' (Some (to_local, to_remote)) feerate htlcs)
| reveals_revocation id n secret secret' rep :
    secretkey_from_slice secret = Some secret' ->
    reveals (ToChannel id (MValidateRevocation n secret)) rep id (Revoked n secret').

Lemma pack_inj {T} (t : Struct T) (x y : T) : pack t x = pack t y -> x = y.
Proof. intros H'. injection H' as H'. by apply inj_pair2 in H'. Qed.

(** The event of the channel that a reveal is. *)
Definition event_of (rv : Reveal) (e : Event) : Prop :=
  match rv, e with
  | HolderSigned n, EHolderSigned m => m = n
  | Released n, EReleased m => m = n
  | CounterpartySigned n p v feerate htlcs, ECpSigned m q i =>
      m = n /\ q = p /\ exists to_local to_remote,
        contents i to_local to_remote feerate (extract_htlcs htlcs).1 (extract_htlcs htlcs).2
        /\ (v = None \/ v = Some (to_local, to_remote))
  | Revoked n s, ECpRevoked m s' => m = n /\ s' = s
  | _, _ => False
  end.

(** Commitment numbers that the arithmetic can hold; those of the protocol
    have 48 bits. *)
Definition numbers_ok (r : Request) : Prop :=
  match r with
  | ToRoot _ _ (MSignCommitmentTx _ _ _ _ _ n) => 0 <= n < 2 ^ 63
  | ToChannel _ (MSignLocalCommitmentTx2 n)
  | ToChannel _ (MValidateCommitmentTx _ _ _ n _ _ _)
  | ToChannel _ (MValidateCommitmentTx2 n _ _ _ _ _ _)
  | ToChannel _ (MSignRemoteCommitmentTx _ _ _ _ _ n _ _)
  | ToChannel _ (MSignRemoteCommitmentTx2 _ n _ _ _ _) => 0 <= n < 2 ^ 63
  | ToChannel _ (MGetPerCommitmentPoint n) => 0 <= n < 2 ^ 64
  | ToChannel _ (MValidateRevocation n _) => 0 <= n < 2 ^ 48
  | _ => True
  end.
End reveal.

(** ** Messages that reveal nothing *)

Create HintDb silent discriminated.
Create HintDb silent_steps discriminated.

Section silent.
Context `{L : Lib, CrL : CryptoLib, !KeyLib, CL : ChainLib, AL : AddressLib, IL : InvoiceLib}.
Context `{CkL : CheckpointLib, NL : NodeLib, SL : SerLib, SB : SerdeBolt, WL : !WireLib, Prof : Profile}.
Context {P : Type} `{!Persist P, !Reliable} {A : Type} `{!Approve A} `{!KeysLaws}.
Context (hist : ChannelId -> list Event).
Implicit Types (h : HSt P A).

Notation silent m h := (hwp (safe hist) m (fun _ h' => safe hist (node (h_node h'))) h).
Notation keeps m s := (nwp (safe hist) m (fun _ s' => safe hist (node s')) s).

Lemma channel_op_silent {R} writes (m : Chan.Env -> Chan.M R) id s : safe hist (node s) ->
  chan_keeps m (fun _ evs => evs = []) -> keeps (channel_op (P := P) writes m id) s.
Proof.
  intros Hi Hm. eapply nwp_mono; [by apply channel_op_keeps|]. cbn. intros r s' (evs & -> & Hs').
  by apply extend_nil in Hs'.
Qed.

Lemma mutual_close_silent tx opaths :
  chan_keeps (fun env => Chan.sign_mutual_close_tx env tx opaths) (fun _ evs => evs = []).
Proof. by apply (keeps_exec (MutualClose tx opaths) _ (fun _ => [])). Qed.

Lemma mutual_close2_silent th tc hs cs hint :
  chan_keeps (fun env => Chan.sign_mutual_close_tx_phase2 env th tc hs cs hint) (fun _ evs => evs = []).
Proof. by apply (keeps_exec (MutualClosePhase2 th tc hs cs hint) _ (fun _ => [])). Qed.

Lemma delayed_sweep_silent tx i n ws amount path :
  chan_keeps (fun env => Chan.sign_delayed_sweep env tx i n ws amount path) (fun _ evs => evs = []).
Proof. by apply (keeps_exec (DelayedSweep tx i n ws amount path) _ (fun _ => [])). Qed.

Lemma htlc_sweep_silent tx i point ws amount path :
  chan_keeps (fun env => Chan.sign_counterparty_htlc_sweep env tx i point ws amount path)
    (fun _ evs => evs = []).
Proof. by apply (keeps_exec (CounterpartyHtlcSweep tx i point ws amount path) _ (fun _ => [])). Qed.

Lemma justice_sweep_silent tx i secret ws amount path :
  chan_keeps (fun env => Chan.sign_justice_sweep env tx i secret ws amount path) (fun _ evs => evs = []).
Proof. by apply (keeps_exec (JusticeSweep tx i secret ws amount path) _ (fun _ => [])). Qed.

(** A question to the approver. *)
Definition asks {R} (m : A -> NSt P -> A * NSt P * outcome Status R) a s : Prop :=
  match m a s with
  | (_, _, Panic) => True
  | (_, s', _) => safe hist (node s')
  end.

Lemma on_approver_silent {R} (m : A -> NSt P -> A * NSt P * outcome Status R) Q h :
  asks m (h_approver h) (h_node h) -> (forall r h', safe hist (node (h_node h')) -> Q r h') ->
  hwp (safe hist) (on_approver m) Q h.
Proof. unfold hwp, on_approver, asks. destruct (m _ _) as [[a s] [r|e|]]; cbn; auto. Qed.

Lemma keeps_asks {R} (m : M P R) a s : keeps m s -> asks (fun a s => (a, (m s).1, (m s).2)) a s.
Proof. unfold nwp, asks. by destruct (m s) as [s' [r|e|]]. Qed.

Lemma on_approval_asks ask yes a s : safe hist (node s) -> keeps yes s -> asks (on_approval ask yes) a s.
Proof.
  intros Hs Hk. unfold asks, on_approval. destruct (ask a) as [[a' [|]]|e|]; [|done..].
  apply (keeps_asks yes a' s Hk).
Qed.

Lemma proposed_invoice_asks tw invoice now_a now a s : safe hist (node s) ->
  asks (handle_proposed_invoice tw invoice now_a now) a s.
Proof.
  intros Hs. unfold asks, handle_proposed_invoice. destruct (payment_state_from_invoice _) as [[ph ps] ih].
  destruct (has_payment _ _ _) as [[|]|e|]; [done| |done..]. destruct (allowlist_contains_payee _ _).
  - by apply (keeps_asks (add_invoice tw invoice now) a s), add_invoice_keeps.
  - by apply on_approval_asks, add_invoice_keeps.
Qed.

Lemma proposed_keysend_asks payee ph amount now_a now now' now'' a s : safe hist (node s) ->
  asks (handle_proposed_keysend payee ph amount now_a now now' now'') a s.
Proof.
  intros Hs. unfold asks, handle_proposed_keysend. destruct (payment_state_from_keysend _ _ _ _) as [ps ih].
  destruct (has_payment _ _ _) as [[|]|e|]; [done| |done..]. by apply on_approval_asks, add_keysend_keeps.
Qed.

Lemma proposed_onchain_asks tx input_txs values spendtypes keys opaths now a s : safe hist (node s) ->
  asks (handle_proposed_onchain tx input_txs values spendtypes keys opaths now) a s.
Proof.
  intros Hs. unfold asks, handle_proposed_onchain.
  pose proof (check_onchain_tx_safe hist (node s) tx input_txs values spendtypes keys opaths now Hs) as Hc.
  destruct (check_onchain_tx _ _ _ _ _ _ _ _) as [n [[]|ve|]]; cbn [fst] in Hc; [done| |done].
  destruct (kind ve); try done. by apply on_approval_asks.
Qed.

#[local] Hint Resolve add_allowlist_keeps new_channel_keeps add_block_keeps remove_block_keeps
  get_heartbeat_keeps unchecked_sign_onchain_tx_keeps with_channel_base_keeps ready_channel_keeps
  sign_invoice_keeps : silent.
#[local] Hint Resolve keeps_read keeps_lift mutual_close_silent mutual_close2_silent delayed_sweep_silent
  htlc_sweep_silent justice_sweep_silent : silent.
#[local] Hint Resolve proposed_invoice_asks proposed_keysend_asks proposed_onchain_asks : silent.

(** *** Steps of the handlers *)

Lemma on_node_silent {R} (m : M P R) Q h : keeps m (h_node h) ->
  (forall r h', safe hist (node (h_node h')) -> Q r h') -> hwp (safe hist) (on_node m) Q h.
Proof. intros Hm HQ. apply hwp_on_node. eapply nwp_mono; [exact Hm|]. intros r s' Hs'. by apply HQ. Qed.

Lemma collect_silent {X R} (f : X -> HM P A R) l Q h :
  safe hist (node (h_node h)) -> (forall x h, safe hist (node (h_node h)) -> silent (f x) h) ->
  (forall rs h', safe hist (node (h_node h')) -> Q rs h') -> hwp (safe hist) (collect f l) Q h.
Proof. intros Hs Hf HQ. by apply hwp_collect. Qed.

Lemma seq_silent {X} (m : HM P A X) (Q : X -> HSt P A -> Prop) h : silent m h ->
  (forall x h', safe hist (node (h_node h')) -> Q x h') -> hwp (safe hist) m Q h.
Proof. intros Hm HQ. eapply hwp_mono; [exact Hm|]. auto. Qed.

Ltac quiet :=
  repeat first
    [ hwp1
    | apply on_node_silent;
      [solve [apply channel_op_silent; eauto with silent|eauto with silent]|intros ? ? ?]
    | apply on_approver_silent; [solve [eauto with silent]|intros ? ? ?]
    | apply collect_silent; [solve [eauto with nwp_inv]|intros ? ? ?|intros ? ? ?]
    | apply seq_silent; [solve [eauto with silent_steps]|intros ? ? ?] ].

Lemma output_paths_silent psbt h : safe hist (node (h_node h)) -> silent (extract_psbt_output_paths psbt) h.
Proof. intros Hs. unfold extract_psbt_output_paths. quiet; done. Qed.

Lemma decode_proof_silent o h : safe hist (node (h_node h)) -> silent (decode_proof o) h.
Proof. intros Hs. unfold decode_proof. quiet; done. Qed.

Lemma set_witnesses_silent ins l h : safe hist (node (h_node h)) -> silent (set_witnesses ins l) h.
Proof.
  intros Hs. revert ins. induction l as [|[i stack] l IH]; intros ins; [done|]. cbn [set_witnesses].
  unfold set_witness. destruct stack; hwps; apply IH.
Qed.

Lemma utxo_close_key_silent u h : safe hist (node (h_node h)) -> silent (utxo_close_key u) h.
Proof. intros Hs. unfold utxo_close_key. quiet; done. Qed.

Lemma populate_script_sig_silent pt h : safe hist (node (h_node h)) -> silent (populate_script_sig pt) h.
Proof. intros Hs. unfold populate_script_sig. quiet; done. Qed.

#[local] Hint Resolve output_paths_silent decode_proof_silent set_witnesses_silent utxo_close_key_silent
  populate_script_sig_silent : silent_steps.

(** *** The messages of both handlers *)

Lemma sign_delayed_silent id n tx psbt ws i h : safe hist (node (h_node h)) ->
  silent (sign_delayed_payment_to_us id n tx psbt ws i) h.
Proof. intros Hs. unfold sign_delayed_payment_to_us, input_amount. quiet; done. Qed.

Lemma sign_remote_htlc_silent id point tx psbt ws anchors i h : safe hist (node (h_node h)) ->
  silent (sign_remote_htlc_to_us id point tx psbt ws anchors i) h.
Proof. intros Hs. unfold sign_remote_htlc_to_us, input_amount. quiet; done. Qed.

Lemma sign_local_htlc_silent id n tx psbt ws anchors i h : safe hist (node (h_node h)) ->
  silent (sign_local_htlc_tx id n tx psbt ws anchors i) h.
Proof. intros Hs. unfold sign_local_htlc_tx, input_amount. quiet; done. Qed.

Lemma sign_penalty_silent id secret tx psbt ws i h : safe hist (node (h_node h)) ->
  silent (sign_penalty_to_us id secret tx psbt ws i) h.
Proof. intros Hs. unfold sign_penalty_to_us, input_amount. quiet; done. Qed.

#[local] Hint Resolve sign_delayed_silent sign_remote_htlc_silent sign_local_htlc_silent sign_penalty_silent
  : silent_steps.

(** *** The root handler *)

Lemma sign_withdrawal_silent t utxos psbt h : safe hist (node (h_node h)) ->
  silent (handle_sign_withdrawal t utxos psbt) h.
Proof. intros Hs. unfold handle_sign_withdrawal. quiet; done. Qed.

Lemma hsmd_init_silent lo hi h : safe hist (node (h_node h)) -> silent (handle_hsmd_init lo hi) h.
Proof. intros Hs. unfold handle_hsmd_init, init_keys. quiet; done. Qed.

Lemma hsmd_init2_silent l h : safe hist (node (h_node h)) -> silent (handle_hsmd_init2 l) h.
Proof. intros Hs. unfold handle_hsmd_init2, init_keys. quiet; done. Qed.

Lemma block_chunk_silent hash offset content h : safe hist (node (h_node h)) ->
  silent (handle_block_chunk hash offset content) h.
Proof.
  intros Hs. unfold handle_block_chunk. quiet. apply hwp_on_node, nwp_put. cbn. safe_done.
Qed.

#[local] Hint Resolve sign_withdrawal_silent hsmd_init_silent hsmd_init2_silent block_chunk_silent
  : silent_steps.

Lemma root_silent tw t msg h : safe hist (node (h_node h)) ->
  (forall peer_id dbid tx psbt fk n, msg <> MSignCommitmentTx peer_id dbid tx psbt fk n) ->
  silent (root_do_handle tw t msg) h.
Proof.
  intros Hs Hne. destruct msg; cbn [root_do_handle]; try (by destruct (Hne _ _ _ _ _ _ eq_refl)).
  all: unfold handle_sign_invoice, handle_ecdh, handle_preapprove_invoice, handle_preapprove_keysend,
    handle_sign_message, handle_sign_channel_update, handle_get_channel_basepoints, handle_tip_info,
    handle_forward_watches, handle_reverse_watches, handle_add_block_msg, handle_remove_block_msg,
    handle_node_info, handle_sign_node_announcement, handle_sign_gossip_message, handle_check_pub_key,
    init_keys.
  all: quiet; try done.
Qed.
(** *** The handler of a channel *)

Definition speaks (msg : Message) : bool :=
  match msg with
  | MGetPerCommitmentPoint _ | MSignRemoteCommitmentTx _ _ _ _ _ _ _ _ | MSignRemoteCommitmentTx2 _ _ _ _ _ _
  | MValidateCommitmentTx _ _ _ _ _ _ _ | MValidateCommitmentTx2 _ _ _ _ _ _ _
  | MSignLocalCommitmentTx2 _ | MValidateRevocation _ _ => true
  | _ => false
  end.

Lemma shutdown_script_silent b h : safe hist (node (h_node h)) -> silent (shutdown_script b) h.
Proof. intros Hs. unfold shutdown_script. quiet; done. Qed.
#[local] Hint Resolve shutdown_script_silent : silent_steps.

Lemma channel_silent id msg h : safe hist (node (h_node h)) -> speaks msg = false ->
  silent (channel_do_handle id msg) h.
Proof.
  intros Hs Hne. destruct msg; try done; cbn [channel_do_handle].
  all: unfold handle_check_future_secret, handle_ecdh, handle_get_per_commitment_point2,
    handle_ready_channel, handle_sign_remote_htlc_tx, input_amount, handle_sign_mutual_close_tx,
    handle_sign_channel_announcement.
  all: quiet; try done.
Qed.
End silent.

(** ** Runs of the handlers *)

Section serve.
Context `{L : Lib, CrL : CryptoLib, !KeyLib, CL : ChainLib, AL : AddressLib, IL : InvoiceLib}.
Context `{CkL : CheckpointLib, NL : NodeLib, SL : SerLib, SB : SerdeBolt, WL : !WireLib, Prof : Profile}.
Context {P : Type} `{!Persist P} {A : Type} `{!Approve A}.
Implicit Types (h : HSt P A).

Definition serve (r : Request) : HM P A SerBolt :=
  match r with
  | ToRoot tw t msg => root_do_handle tw t msg
  | ToChannel id msg => channel_do_handle id msg
  end.

(** A run: the requests that were answered with success and their replies, the
    latest first.  Requests that return an error are part of the run. *)
Inductive run (h0 : HSt P A) : list (Request * SerBolt) -> HSt P A -> Prop :=
| run_start : run h0 [] h0
| run_reply tr h r h' rep : run h0 tr h -> numbers_ok r -> serve r h = (h', Ok rep) ->
    run h0 ((r, rep) :: tr) h'
| run_error tr h r h' e : run h0 tr h -> numbers_ok r -> serve r h = (h', Err e) -> run h0 tr h'.

Context `{!Reliable, !KeysLaws}.

(** The events of channel [id] are what the reply reveals. *)
Definition tells (r : Request) (rep : SerBolt) (id : ChannelId) (evs : list Event) : Prop :=
  (forall j rv, reveals r rep j rv -> j = id /\ exists e, e ∈ evs /\ event_of rv e)
  /\ (forall e, e ∈ evs -> exists rv, reveals r rep id rv /\ event_of rv e).

Definition told hist r rep h' : Prop :=
  exists id evs, tells r rep id evs /\ safe (extend hist id evs) (node (h_node h')).

Lemma tells_one r rep id rv e : reveals r rep id rv -> event_of rv e ->
  (forall j rv', reveals r rep j rv' -> j = id /\ rv' = rv) -> tells r rep id [e].
Proof.
  intros Hr He Hu. split.
  - intros j rv' [-> ->]%Hu. split; [done|]. exists e. set_solver.
  - intros e' ->%list_elem_of_singleton. eauto.
Qed.

Lemma told_silent hist r rep h' : (forall j rv, ~ reveals r rep j rv) ->
  safe hist (node (h_node h')) -> told hist r rep h'.
Proof.
  intros Hn Hs. exists [], []. split; [|by apply extend_nil]. split.
  - intros j rv Hr. by apply Hn in Hr.
  - by intros e ?%elem_of_nil.
Qed.

Lemma silent_told hist r h : (forall rep j rv, ~ reveals r rep j rv) ->
  hwp (safe hist) (serve r) (fun _ h' => safe hist (node (h_node h'))) h ->
  hwp (safe hist) (serve r) (fun rep h' => told hist r rep h') h.
Proof. intros Hn Hh. eapply hwp_mono; [exact Hh|]. intros rep h'. by apply told_silent. Qed.

Ltac one_reveal :=
  let Hr := fresh "Hr" in
  intros ? ? Hr; cbv zeta in Hr; inversion Hr; subst; split; congruence.

Lemma local_commitment_told hist id n h : safe hist (node (h_node h)) -> 0 <= n < 2 ^ 63 ->
  let r := ToChannel id (MSignLocalCommitmentTx2 n) in
  hwp (safe hist) (serve r) (fun rep h' => told hist r rep h') h.
Proof.
  intros Hs Hn r. cbn. hwps. apply hwp_on_node. eapply nwp_mono.
  { apply channel_op_keeps; [done| |done].
    by apply (keeps_exec (SignHolderPhase2 n) _ (fun _ => [EHolderSigned n])). }
  cbn. intros [sig sigs] s' (evs & -> & Hs'). hwps. exists id, [EHolderSigned n]. split; [|done].
  eapply tells_one; [constructor|done|one_reveal].
Qed.

Lemma commitment_told hist tw t peer_id dbid tx psbt fk n h : safe hist (node (h_node h)) -> 0 <= n < 2 ^ 63 ->
  let r := ToRoot tw t (MSignCommitmentTx peer_id dbid tx psbt fk n) in
  hwp (safe hist) (serve r) (fun rep h' => told hist r rep h') h.
Proof.
  intros Hs Hn r. cbn. unfold handle_sign_commitment_tx. hwps.
  - apply (seq_silent hist); [by apply output_paths_silent|]. intros opaths h' Hs'.
    apply on_node_silent; [apply channel_op_silent; [done|apply mutual_close_silent]|].
    intros sig h'' Hs''. hwps. apply told_silent; [|done].
    intros j rv Hr. inversion Hr; subst. b2p. congruence.
  - apply hwp_on_node. eapply nwp_mono.
    { apply channel_op_keeps; [done| |done].
      by apply (keeps_exec (SignHolderPhase2 n) _ (fun _ => [EHolderSigned n])). }
    cbn. intros [sig sigs] s' (evs & -> & Hs'). hwps. exists (channel_id peer_id dbid), [EHolderSigned n].
    split; [|done]. b2p. eapply tells_one; [by econstructor|done|one_reveal].
Qed.

Lemma revocation_told hist id n secret h : safe hist (node (h_node h)) -> 0 <= n < 2 ^ 48 ->
  let r := ToChannel id (MValidateRevocation n secret) in
  hwp (safe hist) (serve r) (fun rep h' => told hist r rep h') h.
Proof.
  intros Hs Hn r. cbn. hwps. apply hwp_on_node. eapply nwp_mono.
  { apply channel_op_keeps; [done| |done].
    by apply (keeps_exec (Revocation n r0) _ (fun _ => [ECpRevoked n r0])). }
  cbn. intros _ s' (evs & -> & Hs'). hwps. exists id, [ECpRevoked n r0]. split; [|done].
  eapply tells_one; [by econstructor|done|one_reveal].
Qed.

Lemma remote_commitment2_told hist id point n feerate to_local to_remote htlcs h :
  safe hist (node (h_node h)) -> 0 <= n < 2 ^ 63 ->
  let r := ToChannel id (MSignRemoteCommitmentTx2 point n feerate to_local to_remote htlcs) in
  hwp (safe hist) (serve r) (fun rep h' => told hist r rep h') h.
Proof.
  intros Hs Hn r. cbn. unfold handle_sign_remote_commitment_tx2. hwps. apply hwp_on_node. eapply nwp_mono.
  { apply channel_op_keeps; [done| |done]. by apply keeps_sign_counterparty_phase2. }
  cbn. intros [sig sigs] s' (evs & (i & -> & Hi) & Hs'). hwps. exists id, [ECpSigned n r0 i]. split; [|done].
  eapply tells_one; [by econstructor| |one_reveal]. split_and!; [done..|].
  exists to_local, to_remote. rewrite Heqp. auto.
Qed.

Lemma remote_commitment_told hist id tx psbt fk point stat n htlcs feerate h :
  safe hist (node (h_node h)) -> 0 <= n < 2 ^ 63 ->
  let r := ToChannel id (MSignRemoteCommitmentTx tx psbt fk point stat n htlcs feerate) in
  hwp (safe hist) (serve r) (fun rep h' => told hist r rep h') h.
Proof.
  intros Hs Hn r. cbn. unfold handle_sign_remote_commitment_tx. hwps. apply hwp_on_node. eapply nwp_mono.
  { apply channel_op_keeps; [done| |done]. by apply keeps_sign_counterparty. }
  cbn. intros sig s' (evs & (i & th & tc & -> & Hi) & Hs'). hwps. exists id, [ECpSigned n r2 i].
  split; [|done]. eapply tells_one; [by econstructor| |one_reveal]. split_and!; [done..|].
  exists th, tc. rewrite Heqp. auto.
Qed.

Lemma validated_tells r id n point (secret : option SecretKey) :
  (forall rep j rv, reveals r rep j rv <-> j = id /\ rv = Released (n - 1)
     /\ exists s p, rep = pack Msgs.ValidateCommitmentTxReply (Some s, p)) ->
  tells r (pack Msgs.ValidateCommitmentTxReply (secret, point)) id (released_by n (point, secret)).
Proof.
  intros Hr. unfold released_by. destruct secret as [sec|]; cbn.
  - eapply tells_one; [apply Hr; eauto 10|done|]. intros j rv Hj%Hr. naive_solver.
  - split; [|by intros e ?%elem_of_nil]. intros j rv (-> & -> & s & p & Hp%pack_inj)%Hr. done.
Qed.
(** The end of both messages that validate a commitment. *)
Lemma validated_end hist r id n (m : Chan.Env -> Chan.M (PublicKey * option SecretKey)) h :
  safe hist (node (h_node h)) -> chan_keeps m (fun res evs => evs = released_by n res) ->
  (forall rep j rv, reveals r rep j rv <-> j = id /\ rv = Released (n - 1)
     /\ exists s p, rep = pack Msgs.ValidateCommitmentTxReply (Some s, p)) ->
  hwp (safe hist) (res ← on_node (channel_op true m id); commitment_validated res)
    (fun rep h' => told hist r rep h') h.
Proof.
  intros Hs Hm Hr. apply hwp_bind, hwp_on_node. eapply nwp_mono; [by apply channel_op_keeps|].
  cbn. intros [point secret] s' (evs & -> & Hs''). unfold commitment_validated. hwps.
  exists id, (released_by n (point, secret)). split; [|done]. by apply validated_tells.
Qed.

Ltac validates :=
  intros ? ? ?; split; [intros Hr; inversion Hr; subst; eauto 10|intros (-> & -> & ? & ? & ->); constructor].

Lemma validated_told hist id tx psbt htlcs n feerate sig htlc_sigs h : safe hist (node (h_node h)) ->
  0 <= n < 2 ^ 63 -> let r := ToChannel id (MValidateCommitmentTx tx psbt htlcs n feerate sig htlc_sigs) in
  hwp (safe hist) (serve r) (fun rep h' => told hist r rep h') h.
Proof.
  intros Hs Hn r. cbn. unfold handle_validate_commitment_tx, commit_signature. hwps.
  apply (collect_silent hist); [done|unfold htlc_signature; intros; by hwps|]. intros sigs h' Hs'.
  apply (validated_end _ _ _ n); [done|by apply keeps_validate_holder|validates].
Qed.

Lemma validated2_told hist id n feerate to_local to_remote htlcs sig htlc_sigs h :
  safe hist (node (h_node h)) -> 0 <= n < 2 ^ 63 ->
  let r := ToChannel id (MValidateCommitmentTx2 n feerate to_local to_remote htlcs sig htlc_sigs) in
  hwp (safe hist) (serve r) (fun rep h' => told hist r rep h') h.
Proof.
  intros Hs Hn r. cbn. unfold handle_validate_commitment_tx2, commit_signature. hwps.
  apply (collect_silent hist); [done|unfold htlc_signature; intros; by hwps|]. intros sigs h' Hs'.
  apply (validated_end _ _ _ n); [done|by apply keeps_validate_holder_phase2|validates].
Qed.

Lemma point_inv id n rep j rv : reveals (ToChannel id (MGetPerCommitmentPoint n)) rep j rv ->
  exists p s, rep = pack Msgs.GetPerCommitmentPointReply (p, Some s).
Proof. inversion 1. eauto. Qed.

Lemma point_told hist id n h : safe hist (node (h_node h)) -> 0 <= n < 2 ^ 64 ->
  let r := ToChannel id (MGetPerCommitmentPoint n) in
  hwp (safe hist) (serve r) (fun rep h' => told hist r rep h') h.
Proof.
  intros Hs Hn r. cbn. unfold handle_get_per_commitment_point. hwps. apply hwp_on_node.
  unfold with_channel_base, get_channel, get_slot. nwps. hwps.
  destruct (channels (node (h_node h)) !! id) as [ptr|] eqn:Hp; [|done]. injection H2 as ->.
  destruct (slots (node (h_node h)) !! a) as [sl|] eqn:Hsl; [|done]. injection H3 as ->.
  pose proof (safe_lookup _ _ _ _ _ Hs Hp Hsl) as Hc. inv_ok H4. destruct (2 <=? n) eqn:H2n.
  - inv_ok Hx0. destruct (slot a0) as [stub|c] eqn:Hslot; [done|]. b2p.
    exists id, [EReleased (n - 2)]. split.
    + eapply tells_one; [constructor|done|one_reveal].
    + apply (safe_update hist (node (h_node h)) _ id a c); 
        [done|done|done|by cbn [h_node]; rewrite Hsl; cbn; rewrite Hslot|done|done|].
      eapply (chan_inv_secret (channel_env (node (h_node h)) c {| current_height := 0; funding_depth := 0;
        funding_double_spent_depth := 0; closing_depth := 0 |} true) (state (node (h_node h))));
        [apply (safe_validator _ _ Hs)|done|lia|done].
  - inv_ok Hx0. apply told_silent; [|done]. intros j rv Hr.
    apply point_inv in Hr as (? & ? & Hrep). by apply pack_inj in Hrep.
Qed.
Lemma serve_told hist r h : safe hist (node (h_node h)) -> numbers_ok r ->
  hwp (safe hist) (serve r) (fun rep h' => told hist r rep h') h.
Proof.
  intros Hs Hok. destruct r as [tw t msg|id msg].
  - destruct msg; try (apply silent_told; [intros rep j rv Hr; by inversion Hr|by apply root_silent]).
    by apply commitment_told.
  - destruct msg; try (apply silent_told; [intros rep j rv Hr; by inversion Hr|by apply channel_silent]).
    all: eauto using point_told, remote_commitment_told, remote_commitment2_told, validated_told,
      validated2_told, local_commitment_told, revocation_told.
Qed.

(** The history of each channel is what the replies of the run revealed. *)
Definition accounts (tr : list (Request * SerBolt)) (hist : ChannelId -> list Event) : Prop :=
  (forall r rep id rv, (r, rep) ∈ tr -> reveals r rep id rv -> exists e, e ∈ hist id /\ event_of rv e)
  /\ (forall id e, e ∈ hist id -> exists r rep rv, (r, rep) ∈ tr /\ reveals r rep id rv /\ event_of rv e).

Lemma accounts_extend tr hist r rep id evs : accounts tr hist -> tells r rep id evs ->
  accounts ((r, rep) :: tr) (extend hist id evs).
Proof.
  intros [Ha Hb] [Ht Hu]. unfold extend. split.
  - intros r' rep' j rv [[= -> ->]|Hin]%elem_of_cons Hr.
    + destruct (Ht _ _ Hr) as (-> & e & He & Hev). rewrite decide_True by done. exists e. set_solver.
    + destruct (Ha _ _ _ _ Hin Hr) as (e & He & Hev). exists e. split; [|done].
      destruct (decide (j = id)); set_solver.
  - intros j e. destruct (decide (j = id)) as [->|].
    + intros [He|He]%elem_of_app.
      * destruct (Hb _ _ He) as (r' & rep' & rv & Hin & ?). exists r', rep', rv. set_solver.
      * destruct (Hu _ He) as (rv & ?). exists r, rep, rv. set_solver.
    + intros He. destruct (Hb _ _ He) as (r' & rep' & rv & Hin & ?). exists r', rep', rv. set_solver.
Qed.

(** A signer that starts without channels. *)
Definition fresh_signer h : Prop :=
  channels (node (h_node h)) = ∅
  /\ forall net nid cid,
       SafeValidator (make_validator (node_validator_factory (node (h_node h))) net nid cid).

Lemma run_safe h0 tr h : fresh_signer h0 -> run h0 tr h ->
  exists hist, accounts tr hist /\ safe hist (node (h_node h)).
Proof.
  intros [Hc Hv]. induction 1 as [|tr h r h' rep Hrun (hist & Hacc & Hs) Hok Hserve|
    tr h r h' e Hrun (hist & Hacc & Hs) Hok Hserve].
  - exists (fun _ => []). split; [split; set_solver|]. split; [intros id|intros i j ptr|done]; by rewrite Hc.
  - pose proof (serve_told hist r h Hs Hok) as Hw. unfold hwp in Hw. rewrite Hserve in Hw.
    destruct Hw as (id & evs & Ht & Hs'). exists (extend hist id evs). split; [|done].
    by apply accounts_extend.
  - pose proof (serve_told hist r h Hs Hok) as Hw. unfold hwp in Hw. rewrite Hserve in Hw. eauto.
Qed.
End serve.

Section claims.
Context `{L : Lib, CrL : CryptoLib, !KeyLib, CL : ChainLib, AL : AddressLib, IL : InvoiceLib}.
Context `{CkL : CheckpointLib, NL : NodeLib, SL : SerLib, SB : SerdeBolt, WL : !WireLib, Prof : Profile}.
Context {P : Type} `{!Persist P} {A : Type} `{!Approve A} `{!Reliable, !KeysLaws}.
Implicit Types (h : HSt P A) (tr : list (Request * SerBolt)).

Definition revealed tr (id : ChannelId) (rv : Reveal) : Prop :=
  exists r rep, (r, rep) ∈ tr /\ reveals r rep id rv.

Lemma accounts_event tr hist id rv : accounts tr hist -> revealed tr id rv ->
  exists e, e ∈ hist id /\ event_of rv e.
Proof. intros [Ha _] (r & rep & Hin & Hr). eauto. Qed.

Lemma accounts_revealed tr hist id e : accounts tr hist -> e ∈ hist id ->
  exists rv, revealed tr id rv /\ event_of rv e.
Proof. intros [_ Hb] (r & rep & rv & Hin & Hr & He)%Hb. exists rv. split; [|done]. by exists r, rep. Qed.

Lemma safe_ready hist n id e : safe hist n -> e ∈ hist id -> exists c, chan_inv (hist id) c.
Proof.
  intros [Hi _ _] He. specialize (Hi id). destruct (channels n !! id) as [ptr|].
  - destruct Hi as ([stub|c] & _ & Hsl); [|by exists c]. cbn in Hsl. rewrite Hsl in He. set_solver.
  - rewrite Hi in He. set_solver.
Qed.

Lemma sort_inj (l1 l2 : list HTLCInfo2) : sort l1 = sort l2 -> l1 ≡ₚ l2.
Proof. intros Hs. by rewrite <- (sort_perm l1), <- (sort_perm l2), Hs. Qed.

(** C5: over every run of messages to the root handler and the channel
    handlers of a signer that starts without channels, with any number of
    channels, with requests that succeed and requests that fail, whose filter
    enforces every tag, whose persister never refuses to store a channel, and
    whose commitment numbers are in range ([numbers_ok]); the run ends with
    the first panic and does not cover restarts: if a reply
    gave a signature on the holder's commitment [n] of a channel and a reply,
    before or after, gave the secret that revokes commitment [m] of that
    channel, then [m] is older than [n].  Only messages and replies are
    looked at. *)
Theorem replies_never_revoke_signed h0 tr h id n m (Hf : fresh_signer h0) (Hrun : run h0 tr h)
  (Hsigned : revealed tr id (HolderSigned n)) (Hreleased : revealed tr id (Released m)) : m < n.
Proof.
  destruct (run_safe h0 tr h Hf Hrun) as (hist & Hacc & Hs).
  destruct (accounts_event _ _ _ _ Hacc Hsigned) as ([] & Hin & He); try done. cbn in He. subst.
  destruct (accounts_event _ _ _ _ Hacc Hreleased) as ([] & Hin' & He'); try done. cbn in He'. subst.
  destruct (safe_ready _ _ _ _ Hs Hin) as (c & [[_ H1' H2'] _]).
  destruct (H1' _ Hin) as [_ ?]. specialize (H2' _ Hin'). lia.
Qed.

End claims.

(** ** Witnesses *)

Section play.
Context `{L : Lib, CrL : CryptoLib, !KeyLib, CL : ChainLib, AL : AddressLib, IL : InvoiceLib}.
Context `{CkL : CheckpointLib, NL : NodeLib, SL : SerLib, SB : SerdeBolt, WL : !WireLib, Prof : Profile}.
Context {P : Type} `{!Persist P} {A : Type} `{!Approve A}.
Implicit Types (h : HSt P A).

(** Serve requests that all succeed. *)
Fixpoint play (rs : list Request) h (tr : list (Request * SerBolt))
  : option (HSt P A * list (Request * SerBolt)) :=
  match rs with
  | [] => Some (h, tr)
  | r :: rs =>
      match serve r h with
      | (h', Ok rep) => play rs h' ((r, rep) :: tr)
      | _ => None
      end
  end.

Lemma play_run h0 rs h tr h' tr' : Forall numbers_ok rs -> run h0 tr h ->
  play rs h tr = Some (h', tr') -> run h0 tr' h'.
Proof.
  intros Hok. revert h tr. induction Hok as [|r rs Hr Hok IH]; intros h tr Hrun Hp; cbn in Hp.
  - by injection Hp as <- <-.
  - destruct (serve r h) as [h1 [rep|e|]] eqn:Hs; try done. eapply IH; [|exact Hp]. by eapply run_reply.
Qed.

Lemma play_served rs h tr h' tr' r : play rs h tr = Some (h', tr') ->
  r ∈ rs \/ (exists rep, (r, rep) ∈ tr) -> exists rep, (r, rep) ∈ tr'.
Proof.
  revert h tr. induction rs as [|r' rs IH]; intros h tr Hp Hin; cbn in Hp.
  - injection Hp as <- <-. destruct Hin as [?%elem_of_nil|]; done.
  - destruct (serve r' h) as [h1 [rep|e|]]; try done. eapply IH; [exact Hp|].
    destruct Hin as [[->|Hin]%elem_of_cons|[rep' Hin]]; [right; exists rep; set_solver|by left|].
    right. exists rep'. set_solver.
Qed.
End play.

#[local] Existing Instances example_lib example_crypto example_keys Tracker.example_chain_lib
  example_addresses example_invoices example_checkpoints example_node_lib example_ser Chan.release
  example_serde.

(** The first byte of a transaction is its lock time, of a header its number;
    a proof shows the funding transaction. *)
Definition example_tx (b : bytes) : Transaction :=
  {| version := 2; lock_time := default 0 (head b); input := []; output := [] |}.

Definition example_wire : WireLib := {|
  tx_deserialize b := Some (example_tx b);
  header_deserialize b := Some (Tracker.example_header (default 0 (head b)));
  psbt_decode b := Some {| unsigned_tx := example_tx b; psbt_inputs := []; psbt_outputs := [] |};
  psbt_serialize _ := [];
  extract_tx := unsigned_tx;
  script_deserialize b := Some b;
  proof_deserialize _ := Some (ProofFilter [Monitor.example_funding_tx]);
  signature_from_compact b := Some b;
  xpub_from_priv_encode k := k;
  bolt12_from_str _ := None;
  bolt11_raw_from_str s := Some (as_bytes s);
  heartbeat_to_vec h := hb_signature h |}.
#[local] Existing Instance example_wire.

Definition example_clocks : Clocks := {| now_approver := 0; now0 := 0; now1 := 0; now2 := 0 |}.
Definition example_peer : bytes := replicate 33 2.
Definition example_id : ChannelId := channel_id example_peer 1.

(** The key that the node derives for the channel. *)
Definition example_key : Z := 1002372.

Definition example_ready : Message :=
  MReadyChannel true 1000000 0 (op_txid Monitor.example_funding) 0 144 [] None
    {| Model.revocation := [2; example_key + 100; 2]; Model.payment := [2; example_key + 100; 3];
       Model.htlc := [2; example_key + 100; 5]; Model.delayed_payment := [2; example_key + 100; 4] |}
    [2; example_key + 100; 1] 144 [] (commitment_type_to_channel_type StaticRemoteKey).

(** The counterparty's signature on the holder's commitment [n]. *)
Definition example_commit_sig (n to_holder to_counterparty : Z) : Model.BitcoinSignature :=
  {| Model.signature := [example_key + 100; 1; 2; INITIAL_COMMITMENT_NUMBER - n; 1000000; to_holder;
       to_counterparty; 2; example_key; 1; 2; example_key + 100; 1];
     Model.sighash := SIGHASH_ALL |}.

Definition example_validate (n to_holder to_counterparty : Z) : Request :=
  ToChannel example_id (MValidateCommitmentTx2 n 1000 to_holder to_counterparty []
    (example_commit_sig n to_holder to_counterparty) []).

Definition example_sign (point : bytes) (n to_holder to_counterparty : Z) : Request :=
  ToChannel example_id (MSignRemoteCommitmentTx2 point n 1000 to_holder to_counterparty []).

(** Open and fund a channel, move to its second commitment on both sides. *)
Definition example_requests : list Request :=
  [ToRoot false example_clocks (MNewChannel example_peer 1); ToChannel example_id example_ready;
   ToRoot false example_clocks (MAddBlock [8] (Some [1])); example_validate 0 999000 0;
   example_sign [2; 7] 0 999000 0; example_sign [2; 8] 1 899000 100000;
   ToChannel example_id (MValidateRevocation 0 [7]); example_sign [2; 9] 2 899000 100000].

Definition example_signer : HSt KVJson.KVJsonPersister PositiveApprover :=
  {| h_approver := Positive; h_node := example_state |}.

Definition example_opened := default (example_signer, []) (play example_requests example_signer []).

Lemma example_opened_play : play example_requests example_signer [] = Some example_opened.
Proof.
  assert (Hp : (if play example_requests example_signer [] then true else false) = true)
    by (vm_compute; reflexivity).
  unfold example_opened. by destruct (play _ _ _).
Qed.

Lemma example_fresh_signer : fresh_signer example_signer.
Proof. split; [done|]. intros net nid cid. apply example_validator_safe. Qed.

Lemma example_opened_run : run example_signer example_opened.2 example_opened.1.
Proof.
  eapply (play_run _ example_requests); [|apply run_start|rewrite example_opened_play; by destruct example_opened].
  repeat (apply Forall_cons; split; [by vm_compute|]). by apply Forall_nil.
Qed.

Definition example_second : Request := example_validate 1 899000 100000.
Definition example_broadcast : Request := ToChannel example_id (MSignLocalCommitmentTx2 1).
Definition example_secret_reply : SerBolt := pack Msgs.ValidateCommitmentTxReply
  (Some [example_key; INITIAL_COMMITMENT_NUMBER], [2; example_key; INITIAL_COMMITMENT_NUMBER - 2]).

Lemma example_second_ok : numbers_ok example_second.
Proof. unfold example_second. cbn. lia. Qed.

Lemma example_broadcast_number : numbers_ok example_broadcast.
Proof. cbn. lia. Qed.

Lemma example_second_reply : (serve example_second example_opened.1).2 = Ok example_secret_reply.
Proof. vm_cast_no_check (eq_refl (Ok example_secret_reply : outcome HError SerBolt)). Qed.

Lemma example_broadcast_ok :
  is_ok (serve example_broadcast (serve example_second example_opened.1).1).2 = true.
Proof. vm_compute. reflexivity. Qed.

(** The holder's second commitment is validated, which reveals the secret of
    the first; then it is signed for broadcast. *)
Lemma replies_never_revoke_signed_witness : exists tr h, run example_signer tr h
  /\ revealed tr example_id (HolderSigned 1) /\ revealed tr example_id (Released 0) /\ 0 < 1.
Proof.
  pose proof (run_reply _ _ _ _ _ _ example_opened_run example_second_ok
    (pair_eta _ _ example_second_reply)) as Hrun1.
  pose proof example_broadcast_ok as Hok.
  destruct (serve example_broadcast _) as [h2 [rep2| |]] eqn:Hs2; [|discriminate Hok..].
  pose proof (run_reply _ _ _ _ _ _ Hrun1 example_broadcast_number Hs2) as Hrun2.
  match type of Hrun2 with run _ ?tr _ =>
    assert (Hsig : revealed tr example_id (HolderSigned 1)) by
      (exists example_broadcast, rep2; split; [apply elem_of_cons; left; reflexivity|constructor]);
    assert (Hrel : revealed tr example_id (Released 0)) by
      (exists example_second, example_secret_reply;
       split; [apply elem_of_cons; right; apply elem_of_cons; left; reflexivity|apply (reveals_validated2 _ 1)])
  end.
  eexists _, h2. split; [exact Hrun2|]. split; [exact Hsig|]. split; [exact Hrel|].
  exact (replies_never_revoke_signed example_signer _ h2 example_id 1 0 example_fresh_signer Hrun2 Hsig Hrel).
Defined.

