(* ===== verification/NodeSpending.v ===== *)
(** * Spending limits of a node

    The payments that a node approves, and the fees of the on-chain
    transactions it approves, go through two velocity controls.  Over any run
    of requests to the node and to its channels, served or refused, the totals
    within the window of a control are bounded by its limit. *)

From S2P Require Import Prelude Velocity Policy Order Extern Crypto Setup Tx Keys Allowlist Script.
From S2P Require Import Secrets Enforcement Validator NodeState ChannelOps ChannelSafety Monitor Tracker.
From S2P Require Import Persist PersistSpec Node NodeInv NodeChannels Msgs Approver Handler HandlerSafety.

Import NodeOps Safety.

(** ** Requests to a channel leave the controls alone *)

Definition controls (ns : NodeState) : VelocityControl * VelocityControl :=
  (velocity_control ns, ns_fee_velocity_control ns).

Section calm.
Context `{L : Lib, Prof : Profile} (c : VelocityControl * VelocityControl).
Notation CM := Chan.M.

(** [m] keeps the controls of the node, whatever its outcome. *)
Definition calm {A} (m : CM A) : Prop := forall s,
  controls (Chan.node_state s) = c -> controls (Chan.node_state (m s).1) = c.

Lemma calm_bind {A B} (m : CM A) (f : A -> CM B) :
  calm m -> (forall a, calm (f a)) -> calm (m ≫= f).
Proof.
  intros Hm Hf s Hs. specialize (Hm s Hs). unfold mbind, Chan.M_bind.
  destruct (m s) as [s' [a|e|]]; [by apply Hf|done..].
Qed.

Lemma calm_lift {A} (o : outcome Status A) : calm (Chan.lift o).
Proof. by intros s. Qed.

Lemma calm_lift_bind {A B} (o : outcome Status A) (f : A -> CM B) :
  (forall a, o = Ok a -> calm (f a)) -> calm (Chan.lift o ≫= f).
Proof. intros Hf s Hs. unfold mbind, Chan.M_bind, Chan.lift. destruct o; [by apply Hf|done..]. Qed.

Lemma calm_get_state {A} (f : NodeState -> CM A) :
  (forall ns, controls ns = c -> calm (f ns)) -> calm (Chan.get_node_state ≫= f).
Proof. intros Hf s Hs. by apply (Hf (Chan.node_state s)). Qed.

Lemma calm_put_state ns : controls ns = c -> calm (Chan.put_node_state ns).
Proof. by intros Hns s. Qed.

Lemma calm_ret {A} (a : A) : calm (mret a).
Proof. by intros s. Qed.

Lemma calm_get_chan : calm Chan.get_chan.
Proof. by intros s. Qed.

Lemma calm_put_es es : calm (Chan.put_es es).
Proof. by intros s. Qed.

Lemma calm_persist env : calm (Chan.persist env).
Proof. intros s Hs. unfold Chan.persist. by destruct (Chan.env_persists env). Qed.
End calm.

Create HintDb calm discriminated.
#[export] Hint Resolve calm_lift calm_ret calm_get_chan calm_put_es calm_persist : calm.

Ltac calms := repeat
  lazymatch goal with
  | |- calm _ (mbind _ Chan.get_node_state) => apply calm_get_state; intros ? ?
  | |- calm _ (mbind _ (Chan.lift _)) => apply calm_lift_bind; intros ? ?
  | |- calm _ (mbind _ (Chan.lift_v _)) => apply calm_lift_bind; intros ? ?
  | |- calm _ (mbind _ _) => apply calm_bind; [|intros ?]
  | |- calm _ (Chan.lift_v _) => apply calm_lift
  | |- calm _ (match ?x with _ => _ end) => destruct x
  | |- calm _ (Chan.put_node_state _) => apply calm_put_state
  | |- calm _ _ => solve [eauto with calm]
  end.

Section channel_requests.
Context `{L : Lib, Prof : Profile}.

Lemma apply_payments_controls {E} ns id inc out delta v ns' :
  apply_payments (E := E) ns id inc out delta v = Ok ns' -> controls ns' = controls ns.
Proof.
  unfold apply_payments. intros H. inv_ok H. destruct x as [pays ful]. inv_ok H.
  destruct x as [pays' excess]. by inv_ok H.
Qed.

Lemma htlcs_fulfilled_controls {E} ns pre v ns' :
  NodeState.htlcs_fulfilled (E := E) ns pre v = Ok ns' -> controls ns' = controls ns.
Proof.
  intros H. refine (foldM_inv (fun _ n => controls n = controls ns) _ _ _ _ eq_refl _ H).
  intros _ p n1 n2 Hn1 Hstep. inv_ok Hstep. destruct x as [n b]. injection Hstep as <-.
  rewrite <- Hn1. unfold htlc_fulfilled in Hx. destruct (payments n1 !! _) as [pay|]; [|by simplify_eq].
  destruct (is_fulfilled pay); [by simplify_eq|]. inv_ok Hx. destruct x as [i o]. by inv_ok Hx.
Qed.

Lemma closed_calm c : calm c Chan.set_channel_closed.
Proof. unfold Chan.set_channel_closed. calms. Qed.
#[local] Hint Resolve closed_calm : calm.

Lemma finish_calm c env n f p ks tx info delta inc sig sigs :
  calm c (Chan.finish_holder_commitment env n f p ks tx info delta inc sig sigs).
Proof.
  unfold Chan.finish_holder_commitment, Chan.advance_holder_commitment_state. calms.
  erewrite apply_payments_controls; done.
Qed.
#[local] Hint Resolve finish_calm : calm.

(** Every request to a channel. *)
Lemma exec_calm c env op : calm c (exec env op).
Proof.
  destruct op; unfold exec, Chan.sign_counterparty_commitment_tx_phase2,
    Chan.sign_counterparty_commitment_tx, Chan.validate_holder_commitment_tx_phase2,
    Chan.validate_holder_commitment_tx, Chan.sign_holder_commitment_tx_phase2,
    Chan.sign_holder_commitment_tx_for_recovery, Chan.sign_holder_commitment_tx_phase2_redundant,
    Chan.validate_counterparty_revocation, Chan.sign_mutual_close_tx_phase2,
    Chan.sign_mutual_close_tx, Chan.sign_delayed_sweep, Chan.sign_counterparty_htlc_sweep,
    Chan.sign_justice_sweep, Chan.htlcs_fulfilled, Chan.restore_payments; cbv zeta; calms;
    try (erewrite apply_payments_controls; done).
  - erewrite htlcs_fulfilled_controls; done.
  - done.
Qed.
End channel_requests.

(** ** Requests that leave the controls alone *)

Section frozen.
Context `{L : Lib, CrL : CryptoLib, !KeyLib, CL : ChainLib, AL : AddressLib, IL : InvoiceLib}.
Context `{CkL : CheckpointLib, NL : NodeLib, SL : SerLib, Prof : Profile} {P : Type} `{!Persist P}.
Implicit Types (n : Node).

Definition same_policy n n' : Prop :=
  node_config n' = node_config n /\ node_id n' = node_id n
  /\ node_validator_factory n' = node_validator_factory n.

(** A node with the controls and the policy of [n0]. *)
Definition frozen (n0 n : Node) : Prop :=
  controls (state n) = controls (state n0) /\ same_policy n0 n.

Lemma frozen_refl n : frozen n n.
Proof. done. Qed.

Lemma frozen_same n0 n n' : controls (state n') = controls (state n) ->
  node_config n' = node_config n -> node_id n' = node_id n ->
  node_validator_factory n' = node_validator_factory n -> frozen n0 n -> frozen n0 n'.
Proof. intros Hs Hc Hi Hv (? & ? & ? & ?). repeat split; congruence. Qed.

Lemma frozen_trans n1 n2 n3 : frozen n1 n2 -> frozen n2 n3 -> frozen n1 n3.
Proof. intros Hf (? & ? & ? & ?). by eapply frozen_same. Qed.
End frozen.

#[export] Hint Resolve frozen_refl : nwp_inv.
#[export] Hint Extern 1 (frozen _ _) =>
  match goal with Hi : frozen _ ?n |- _ => refine (frozen_same _ n _ _ _ _ _ Hi); reflexivity end : nwp_inv.

Section frozen_ops.
Context `{L : Lib, CrL : CryptoLib, !KeyLib, CL : ChainLib, AL : AddressLib, IL : InvoiceLib}.
Context `{CkL : CheckpointLib, NL : NodeLib, SL : SerLib, SB : SerdeBolt, WL : !WireLib, Prof : Profile}.
Context {P : Type} `{!Persist P}.
Context (n0 : Node) (s : NSt P) (Hi : frozen n0 (node s)).

Notation freezes m := (nwp (frozen n0) m (fun _ s' => frozen n0 (node s')) s).
Ltac frozen_done := solve [eauto with nwp_inv].

Lemma change_allowlist_freezes l f : freezes (change_allowlist l f).
Proof. unfold change_allowlist, parse_allowables, update_allowlist. nwps; frozen_done. Qed.

Lemma sign_invoice_freezes hrp data : freezes (sign_invoice hrp data).
Proof. unfold sign_invoice, payment_state_from_invoice. nwps; frozen_done. Qed.

Lemma add_block_freezes header prf : freezes (handle_add_block header prf).
Proof. unfold handle_add_block. nwps; frozen_done. Qed.

Lemma remove_block_freezes prf : freezes (handle_remove_block prf).
Proof. unfold handle_remove_block. nwps; frozen_done. Qed.

Lemma new_channel_freezes opt : freezes (new_channel opt).
Proof.
  unfold new_channel, get_slot. nwp1. nwp1. nwp1. nwp1. assert (frozen n0 a.1).
  { destruct opt; [by simplify_eq|]. inv_ok H0. destruct x. simplify_eq. frozen_done. }
  destruct a as [n1 id]. cbn [fst] in *. nwps; frozen_done.
Qed.

Lemma ready_channel_freezes id opt stp path : freezes (ready_channel id opt stp path).
Proof. unfold ready_channel, get_slot. nwps; frozen_done. Qed.

Lemma prune_channels_freezes h : freezes (prune_channels h).
Proof.
  unfold prune_channels. nwps. apply nwp_loop; [done|]. intros id s' _ Hs'. nwps; frozen_done.
Qed.

Lemma unchecked_sign_freezes tx ipaths values types ucks :
  freezes (unchecked_sign_onchain_tx tx ipaths values types ucks).
Proof.
  unfold unchecked_sign_onchain_tx. nwps.
  match goal with Hf : foldM (funding_signed _) _ _ = Ok ?n |- _ => assert (frozen n0 n) end.
  { refine (foldM_inv (fun _ n => frozen n0 n) _ _ _ _ Hi _ H1). intros _ ptr n1 n2 Hn1 Hf.
    destruct (funding_signed_frame _ _ _ _ Hf) as [Hv Hc Hid _ Hst _ _ _].
    apply (frozen_same _ n1); [by rewrite Hst|done..]. }
  nwps; frozen_done.
Qed.

End frozen_ops.

(** ** Runs *)

Section runs.
Context `{L : Lib, CrL : CryptoLib, !KeyLib, CL : ChainLib, AL : AddressLib, IL : InvoiceLib}.
Context `{CkL : CheckpointLib, NL : NodeLib, SL : SerLib, Prof : Profile}.
Context {P : Type} `{!Persist P}.
Implicit Types (n : Node) (s : NSt P).

Notation pay_control s := (velocity_control (state (node s))).
Notation fee_control s := (ns_fee_velocity_control (state (node s))).

Lemma get_heartbeat_freezes n0 s tw now now' : frozen n0 (node s) ->
  nwp (frozen n0) (get_heartbeat tw now now') (fun _ s' => frozen n0 (node s')) s.
Proof.
  intros Hi. unfold get_heartbeat. nwps.
  match goal with |- nwp _ _ _ {| node := set_state _ ?st |} =>
    assert (Hst : controls st = controls (state (node s))) end.
  { repeat match goal with
      | Hp : prune_invoices _ _ _ = Ok _ |- _ => unfold prune_invoices in Hp; inv_ok Hp
      | Hp : prune_issued_invoices _ _ _ = Ok _ |- _ => unfold prune_issued_invoices in Hp; inv_ok Hp
      | Hp : prune_forwarded_payments _ = Ok _ |- _ => unfold prune_forwarded_payments in Hp; inv_ok Hp
      end. done. }
  eapply nwp_mono; [apply prune_channels_freezes; by apply (frozen_same _ (node s))|].
  cbn. intros _ s' Hs'. nwps; eauto with nwp_inv.
Qed.

(** A request to a channel, through the node. *)
Lemma channel_op_freezes {R} n0 s writes (m : Chan.Env -> Chan.M R) id :
  (forall env, calm (controls (state n0)) (m env)) -> frozen n0 (node s) ->
  nwp (frozen n0) (channel_op writes m id) (fun _ s' => frozen n0 (node s')) s.
Proof.
  intros Hm Hi. unfold channel_op, with_ready_channel, get_channel, get_slot. nwps; [done|].
  assert (Hcalm : forall env cs r ptr sl, m env {| Chan.chan := chan; Chan.node_state := state (node s);
      Chan.persisted := chan |} = (cs, r) ->
    let n := set_state (node s) (Chan.node_state cs) in
    frozen n0 (set_channels n (channels n) (<[ptr := sl]> (slots n)))).
  { intros env cs r ptr sl Hx. destruct Hi as [Hc Hp]. split; [|done].
    pose proof (Hm env {| Chan.chan := chan; Chan.node_state := state (node s);
      Chan.persisted := chan |} Hc) as Hcs. by rewrite Hx in Hcs. }
  unfold nwp. destruct (_ ≫= _) as [cstate|e|]; [|by destruct Hi|done].
  destruct (m _ _) as [cs r] eqn:Hx. destruct (writes && is_ok r); [|destruct r; eauto].
  destruct (persist_update_channel _ _ _) as [p [u|e|]]; [destruct r; eauto| |done].
  destruct (m _ _) as [cs' r'] eqn:Hx' in |- *. destruct r'; eauto.
Qed.

(** The requests that a node serves. *)
Inductive NodeRequest :=
| AddInvoice (tw : bool) (i : AnyInvoice) (now : Z)
| AddKeysend (payee : PublicKey) (h : PaymentHash) (amount_msat now now' : Z)
| CheckOnchain (tx : Transaction) (itxs : list Transaction) (vals : list Z) (types : list SpendType)
    (ucks : list (option (SecretKey * list bytes))) (opaths : list path) (now : Z)
| SignOnchain (tx : Transaction) (ipaths : list path) (vals : list Z) (types : list SpendType)
    (ucks : list (option (SecretKey * list bytes)))
| NewChannelRequest (opt : option ChannelId)
| ReadyChannel (id : ChannelId) (opt : option ChannelId) (stp : ChannelSetup) (path : path)
| ChannelRequest (writes : bool) (op : Op) (id : ChannelId)
| AddAllowlist (l : list string)
| SetAllowlist (l : list string)
| RemoveAllowlist (l : list string)
| SignInvoiceRequest (hrp : bytes) (data : list Z)
| GetHeartbeat (tw : bool) (now now' : Z)
| AddBlockRequest (header : BlockHeader) (prf : option TxoProof)
| RemoveBlockRequest (prf : option TxoProof).

(** A payment that the node now tracks for the first time. *)
Definition approved n (b : bool) (h : PaymentHash) (t v : Z) : list (Z * Z) :=
  if b && bool_decide (invoices (state n) !! h = None) then [(t, v)] else [].

(** Serve a request; what it approved is its payments and its fees, each with
    the second at which it was approved. *)
Definition serve (r : NodeRequest) : M P (list (Z * Z) * list (Z * Z)) :=
  self ← get_node;
  let nothing {A} (m : M P A) : M P (list (Z * Z) * list (Z * Z)) := m;; mret ([], []) in
  match r with
  | AddInvoice tw i now =>
      b ← add_invoice tw i now;
      mret (approved self b (inv_payment_hash i) (now / secs 1) (inv_amount_milli_satoshis i), [])
  | AddKeysend payee h v now now' =>
      b ← add_keysend payee h v now now';
      mret (approved self b h (now' / secs 1) v, [])
  | CheckOnchain tx itxs vals types ucks opaths now =>
      let '(n, res) := check_onchain_tx self tx itxs vals types ucks opaths now in
      put_node n;;
      lift_v res;;
      sat ← lift_v (non_beneficial_sat self tx itxs vals types ucks opaths);
      mret ([], [(now / secs 1, sat * 1000)])
  | SignOnchain tx ipaths vals types ucks =>
      nothing (unchecked_sign_onchain_tx tx ipaths vals types ucks)
  | NewChannelRequest opt => nothing (new_channel opt)
  | ReadyChannel id opt stp path => nothing (ready_channel id opt stp path)
  | ChannelRequest writes op id => nothing (channel_op writes (fun env => exec env op) id)
  | AddAllowlist l => nothing (add_allowlist l)
  | SetAllowlist l => nothing (set_allowlist l)
  | RemoveAllowlist l => nothing (remove_allowlist l)
  | SignInvoiceRequest hrp data => nothing (sign_invoice hrp data)
  | GetHeartbeat tw now now' => nothing (get_heartbeat tw now now')
  | AddBlockRequest header prf => nothing (handle_add_block header prf)
  | RemoveBlockRequest prf => nothing (handle_remove_block prf)
  end.

(** The clock is not before the current bucket of the control that the request
    uses, and amounts are unsigned; a fee is of less than 2^54 satoshi. *)
Definition request_ok n (r : NodeRequest) : Prop :=
  match r with
  | AddInvoice _ i now => clock_at (velocity_control (state n)) (now / secs 1)
      /\ 0 <= inv_amount_milli_satoshis i
  | AddKeysend _ _ v _ now' => clock_at (velocity_control (state n)) (now' / secs 1) /\ 0 <= v
  | CheckOnchain tx itxs vals types ucks opaths now =>
      clock_at (ns_fee_velocity_control (state n)) (now / secs 1)
      /\ forall sat, non_beneficial_sat n tx itxs vals types ucks opaths = Ok sat -> 0 <= sat < 2 ^ 54
  | _ => True
  end.

(** A run: requests that are served and requests that are refused, with the
    payments and the fees that were approved. *)
Inductive spend_run s0 : list (Z * Z) -> list (Z * Z) -> NSt P -> Prop :=
| run_start : spend_run s0 [] [] s0
| run_served pays fees s r s' p f : spend_run s0 pays fees s -> request_ok (node s) r ->
    serve r s = (s', Ok (p, f)) -> spend_run s0 (pays ++ p) (fees ++ f) s'
| run_refused pays fees s r s' e : spend_run s0 pays fees s -> request_ok (node s) r ->
    serve r s = (s', Err e) -> spend_run s0 pays fees s'.

(** The policy of the node as its validator has it. *)
Definition fee_strict n : Prop := strict_on (policy (validator n)) "policy-onchain-fee-range".

Lemma same_policy_strict n n' : same_policy n n' -> fee_strict n -> fee_strict n'.
Proof.
  intros (Hc & Hi & Hv). unfold fee_strict, validator, node_network. by rewrite Hc, Hi, Hv.
Qed.

Section limits.
Context (s0 : NSt P) (lim iv : Z) (k : nat) (flim fiv : Z) (fk : nat).
Hypothesis Hlim : 0 <= lim < U64_MAX.
Hypothesis Hflim : 0 <= flim < U64_MAX.
Hypothesis Hstrict : fee_strict (node s0).
Hypothesis Hpay0 : control_inv lim iv k (pay_control s0) [].
Hypothesis Hfee0 : control_inv flim fiv fk (fee_control s0) [].

Definition run_ok pays fees s : Prop :=
  control_inv lim iv k (pay_control s) pays /\ control_inv flim fiv fk (fee_control s) fees
  /\ same_policy (node s0) (node s).

Lemma run_ok_frozen pays fees s s' : run_ok pays fees s -> frozen (node s) (node s') ->
  run_ok pays fees s'.
Proof.
  intros (Hp & Hf & (? & ? & ?)) ([= Hc1 Hc2] & ? & ? & ?). unfold run_ok. rewrite Hc1, Hc2.
  split; [done|]. split; [done|]. repeat split; congruence.
Qed.

(** The two outcomes of a request. *)
Notation keeps_run pays fees m s :=
  (nwp (fun n => run_ok pays fees {| node := n; store := store s |}) m
     (fun pf s' => run_ok (pays ++ pf.1) (fees ++ pf.2) s') s).

Lemma frozen_keeps_run {A} pays fees s (m : M P A) : run_ok pays fees s ->
  nwp (frozen (node s)) m (fun _ s' => frozen (node s) (node s')) s ->
  keeps_run pays fees (m;; mret ([], [])) s.
Proof.
  intros Hr Hm. apply nwp_bind. unfold nwp in *. destruct (m s) as [s' [a|e|]]; [| |done].
  - cbn. rewrite !app_nil_r. by eapply run_ok_frozen.
  - by eapply run_ok_frozen.
Qed.

Lemma track_payment_run pays fees s msg h ps ih t : clock_at (pay_control s) t ->
  0 <= invoice_amount_msat ps -> run_ok pays fees s ->
  nwp (fun n => run_ok pays fees {| node := n; store := store s |}) (track_payment msg h ps ih t)
    (fun b s' => run_ok (pays ++ approved (node s) b h t (invoice_amount_msat ps)) fees s') s.
Proof.
  intros Hck Hv Hr. destruct s as [n p]. unfold track_payment, approved. apply nwp_bind, nwp_get.
  cbn [node store] in *. destruct (_ <=? _); [done|].
  destruct (invoices (state n) !! h) as [ps0|].
  { destruct (bool_decide (invoice_hash ps0 = ih)); [|done]. apply nwp_ret.
    by rewrite bool_decide_false, andb_false_r, app_nil_r. }
  apply nwp_bind, nwp_lift; [done|]. intros [vc ok] Hins. destruct Hr as (Hp & Hf & Hs).
  apply (insert_inv lim iv k _ pays) in Hins; [|lia|done..]. rewrite bool_decide_true by done.
  destruct ok; cbn [negb].
  - apply nwp_bind, nwp_put, nwp_bind. unfold nwp, persist_expect, persist_call, lift, mbind, M_bind.
    cbn [node store]. destruct (persist_update_node _ _ _) as [p' [u|e|]]; [|done..].
    by split; [exact Hins|].
  - apply nwp_bind, nwp_put, nwp_ret. cbn [andb]. rewrite app_nil_r. by split; [exact Hins|].
Qed.

(** A transaction that passes the check has its fee recorded; one that is
    refused may have moved the control to the current time. *)
Lemma check_onchain_run pays fees s tx itxs vals types ucks opaths now : run_ok pays fees s ->
  request_ok (node s) (CheckOnchain tx itxs vals types ucks opaths now) ->
  keeps_run pays fees (serve (CheckOnchain tx itxs vals types ucks opaths now)) s.
Proof.
  intros Hr [Hck Hsat]. unfold serve. apply nwp_bind, nwp_get. unfold check_onchain_tx.
  assert (Hsame : run_ok pays fees {| node := node s; store := store s |}) by (by destruct s).
  destruct (non_beneficial_sat _ _ _ _ _ _ _) as [sat|e|] eqn:Hnb; [|done..].
  specialize (Hsat sat eq_refl). rewrite Ok_bind, mul64_in, Ok_bind by lia.
  destruct Hr as (Hp & Hf & Hs).
  destruct (Velocity.insert _ _ _) as [[fvc ok]|e|] eqn:Hins; [|done..].
  apply (insert_inv flim fiv fk _ fees) in Hins; [|lia|done|done|lia].
  apply nwp_bind, nwp_put, nwp_bind. unfold nwp, lift_v, lift. cbn [node store].
  destruct ok.
  - unfold mbind, M_bind, mret, M_ret. cbn [negb whenb map_err fst snd]. rewrite app_nil_r.
    by split; [|split].
  - destruct (whenb _ _) as [u|e|] eqn:Hw; cbn [map_err]; [exfalso|by split; [|split]|done].
    apply strict_when in Hw; [done|]. by eapply same_policy_strict.
Qed.

Lemma request_keeps_run pays fees s r : run_ok pays fees s -> request_ok (node s) r ->
  keeps_run pays fees (serve r) s.
Proof.
  intros Hr Hok. pose proof (frozen_refl (node s)) as Hfr.
  assert (Hsame : run_ok pays fees {| node := node s; store := store s |}) by (by destruct s).
  destruct r; [| |by apply check_onchain_run|..]; unfold serve; apply nwp_bind, nwp_get;
    try (apply frozen_keeps_run; [done|]).
  - destruct Hok as [Hck Hv]. apply nwp_bind. unfold add_invoice, payment_state_from_invoice.
    apply nwp_bind, nwp_get, nwp_bind, nwp_lift_v; [done|]. intros _.
    eapply nwp_mono; [by apply track_payment_run|]. cbn. intros b s' Hs'. by rewrite app_nil_r.
  - destruct Hok as [Hck Hv]. apply nwp_bind. unfold add_keysend, payment_state_from_keysend.
    eapply nwp_mono; [by apply track_payment_run|]. cbn. intros b s' Hs'. by rewrite app_nil_r.
  - by apply unchecked_sign_freezes.
  - by apply new_channel_freezes.
  - by apply ready_channel_freezes.
  - apply channel_op_freezes; [|done]. intros env. apply exec_calm.
  - by apply change_allowlist_freezes.
  - by apply change_allowlist_freezes.
  - by apply change_allowlist_freezes.
  - by apply sign_invoice_freezes.
  - by apply get_heartbeat_freezes.
  - by apply add_block_freezes.
  - by apply remove_block_freezes.
Qed.

Lemma run_inv pays fees s : spend_run s0 pays fees s -> run_ok pays fees s.
Proof.
  induction 1 as [|pays fees s r s' p f _ IH Hok Hop|pays fees s r s' e _ IH Hok Hop]; [done| |];
    pose proof (request_keeps_run pays fees s r IH Hok) as Hk; unfold nwp in Hk; rewrite Hop in Hk.
  - exact Hk.
  - by destruct s'.
Qed.
End limits.

(** C10: what a node approves is bounded.  Start with the controls that [Node]
    makes from the policy, with a filter that enforces the tag of the fee
    velocity, and let the node serve any run of requests to it and to its
    channels, served or refused (a transaction refused for its fee included),
    until a panic, a restart or a change of the policy.  The clocks do not go
    back before the current bucket, and no fee is of 2^54 satoshi or more.  At
    any later time [T], the payments approved in the last [(k - 1) * iv]
    seconds are within the limit of the payment velocity, and the fees of the
    approved transactions are so with the limit of the fee velocity. *)
Theorem node_spending_bounded s0 s spec fspec lim iv k flim fiv fk pays fees T
  (Hspec : spec_to_triple spec = (lim, iv, k)) (Hfspec : spec_to_triple fspec = (flim, fiv, fk))
  (Hlim : 0 <= lim < U64_MAX) (Hflim : 0 <= flim < U64_MAX)
  (Hpay : Velocity.new (E := Status) spec = Ok (pay_control s0))
  (Hfee : Velocity.new (E := Status) fspec = Ok (fee_control s0))
  (Hstrict : fee_strict (node s0))
  (Hrun : spend_run s0 pays fees s)
  (HT : Forall (fun e => e.1 <= T) (pays ++ fees)) :
  vsum (fun t => T - (Z.of_nat k - 1) * iv <? t) pays <= lim
  /\ vsum (fun t => T - (Z.of_nat fk - 1) * fiv <? t) fees <= flim.
Proof.
  apply new_inv in Hpay, Hfee. rewrite Hspec in Hpay. rewrite Hfspec in Hfee.
  destruct (run_inv s0 lim iv k flim fiv fk Hlim Hflim Hstrict Hpay Hfee _ _ _ Hrun) as (Hp & Hf & _).
  apply Forall_app in HT as [HTp HTf].
  split; [eapply inv_window|eapply inv_window]; try done; lia.
Qed.
End runs.

(** ** Witnesses *)

#[local] Existing Instances example_lib example_crypto example_keys Tracker.example_chain_lib
  example_addresses example_invoices example_checkpoints example_node_lib example_ser Chan.release.

(** A transaction from the wallet to the wallet with a fee of 60 satoshi. *)
Definition example_self_spend : Transaction := {|
  version := 2; lock_time := 0;
  input := [{| previous_output := {| op_txid := [6]; vout := 1 |}; script_sig := []; sequence := 0;
               witness := [] |}];
  output := [{| out_value := 999940; script_pubkey := [0; 20; 2; 3] |}] |}.

Definition example_check (now : Z) : NodeRequest :=
  CheckOnchain example_self_spend [] [1000000] [] [] [[3]] now.

(** The answer of a request, without the state. *)
Lemma serve_eta (r : NodeRequest) (s : NSt KVJson.KVJsonPersister) (o : outcome Status (list (Z * Z) * list (Z * Z))) :
  (serve r s).2 = o -> serve r s = ((serve r s).1, o).
Proof. destruct (serve r s) as [s' o']. cbn. by intros ->. Qed.

(** On a node that may pay 100000 msat an hour, and as much in fees, a keysend
    and a transaction are approved after ten minutes; the same transaction is
    refused later, as its fee would exceed the fee velocity. *)
Lemma node_spending_bounded_witness : exists s1 s2 s3 : NSt KVJson.KVJsonPersister, exists e,
  serve (AddKeysend [2] [1] 60000 (secs 600) (secs 600)) example_state = (s1, Ok ([(600, 60000)], []))
  /\ serve (example_check (secs 600)) s1 = (s2, Ok ([], [(600, 60000)]))
  /\ serve (example_check (secs 700)) s2 = (s3, Err e)
  /\ vsum (fun t => 900 - (12 - 1) * 300 <? t) [(600, 60000)] <= 100000.
Proof.
  assert (H1 : exists s1 s2 : NSt KVJson.KVJsonPersister, exists s3 e,
    serve (AddKeysend [2] [1] 60000 (secs 600) (secs 600)) example_state = (s1, Ok ([(600, 60000)], []))
    /\ serve (example_check (secs 600)) s1 = (s2, Ok ([], [(600, 60000)]))
    /\ serve (example_check (secs 700)) s2 = (s3, Err e)
    /\ request_ok (node s1) (example_check (secs 600)) /\ request_ok (node s2) (example_check (secs 700))).
  { do 4 eexists. split; [apply serve_eta; by vm_compute|]. split; [apply serve_eta; by vm_compute|].
    split; [apply serve_eta; by vm_compute|].
    split; (split; [by split; vm_compute|]); intros sat Hs; vm_compute in Hs; injection Hs as <-; lia. }
  destruct H1 as (s1 & s2 & s3 & e & H1 & H2 & H3 & Hok2 & Hok3). exists s1, s2, s3, e.
  split; [exact H1|]. split; [exact H2|]. split; [exact H3|].
  refine (proj2 (node_spending_bounded example_state s3 example_spec example_spec 100000 300 12
    100000 300 12 [(600, 60000)] [(600, 60000)] 900 eq_refl eq_refl _ _ _ _ _ _ _));
    [unfold U64_MAX; lia|unfold U64_MAX; lia|reflexivity|reflexivity| | |by repeat constructor].
  - apply make_simple_policy_strict.
  - apply (run_refused _ _ _ s2 (example_check (secs 700)) s3 e); [|exact Hok3|exact H3].
    apply (run_served _ [(600, 60000)] [] s1 (example_check (secs 600)) s2 [] [(600, 60000)]);
      [|exact Hok2|exact H2].
    apply (run_served _ [] [] example_state (AddKeysend [2] [1] 60000 (secs 600) (secs 600)) s1 [(600, 60000)] [] (run_start _)); [|exact H1].
    split; [by split; vm_compute|lia].
Defined.
