(* ===== verification/Client.v ===== *)
(** * The protocol client (vls-protocol-client/src/lib.rs)

    The node's side of the protocol: a [SignerClient] per channel and a
    [KeysManagerClient] turn the calls of the lightning library into messages.
    The transport is a class over its state; a client's method passes that
    state.  The error of a method that returns [Result<_, ()>] is [unit]. *)

From S2P Require Import Prelude Velocity Policy Order Extern Crypto Setup Tx Keys Allowlist Script.
From S2P Require Import Secrets Enforcement Validator SimpleValidator NodeState ChannelOps Monitor.
From S2P Require Import Tracker Persist PersistSpec Node Msgs Approver Handler.

(** ** Transport *)

Inductive ClientError `{SerdeBolt} :=
| CProtocol (e : Error)
| CTransport.

Class Transport `{SerdeBolt} (T : Type) := {
  transport_node_call : bytes -> T -> T * outcome ClientError bytes;
  transport_call : Z -> bytes -> bytes -> T -> T * outcome ClientError bytes
}.

(** A computation on the transport's state. *)
Definition CM (T E R : Type) : Type := T -> T * outcome E R.

#[global] Instance C_ret {T E} : MRet (CM T E) | 100 := fun R r s => (s, Ok r).
#[global] Instance C_bind {T E} : MBind (CM T E) | 100 := fun R R' f m s =>
  match m s with
  | (s', Ok r) => f r s'
  | (s', Err e) => (s', Err e)
  | (s', Panic) => (s', Panic)
  end.

Lemma C_bind_Ok {X E R R'} (m : CM X E R) (f : R -> CM X E R') s s' r :
  (m ≫= f) s = (s', Ok r) -> exists s1 a, m s = (s1, Ok a) /\ f a s1 = (s', Ok r).
Proof. unfold mbind, C_bind. destruct (m s) as [s1 [a|e|]]; [|done..]. eauto. Qed.

Section calls.
Context `{SB : SerdeBolt} {T : Type} `{!Transport T}.

Definition c_lift {E R} (o : outcome E R) : CM T E R := fun s => (s, o).
Definition c_map_err {E E' R} (f : E -> E') (m : CM T E R) : CM T E' R :=
  fun s => ((m s).1, map_err f (m s).2).
(** [.expect(..)] on a [Result]. *)
Definition c_expect {E E' R} (m : CM T E R) : CM T E' R := fun s => ((m s).1, unwrap_ok (m s).2).

Definition call {X R} (t : Struct X) (r : Struct R) (dbid : Z) (peer_id : bytes) (message : X)
  : CM T ClientError R :=
  c_lift (assert_ (negb (dbid =? 0)));;
  message_ser ← c_lift (map_err CProtocol (as_vec (pack t message)));
  result_ser ← transport_call dbid peer_id message_ser;
  c_lift (map_err CProtocol (debolt_from_vec r result_ser)).

Definition node_call {X R} (t : Struct X) (r : Struct R) (message : X) : CM T ClientError R :=
  message_ser ← c_lift (map_err CProtocol (as_vec (pack t message)));
  result_ser ← transport_node_call message_ser;
  c_lift (map_err CProtocol (debolt_from_vec r result_ser)).
End calls.

(** ** Helpers *)

Definition to_le_bytes (n : nat) (x : Z) : bytes := rev (to_be_bytes n x).
Definition from_le_bytes (b : bytes) : Z := from_be_bytes (rev b).

Definition to_htlcs (htlcs : list HTLCOutputInCommitment) (is_remote : bool) : list Model.Htlc :=
  (fun h => {| Model.side := if negb (Bool.eqb (offered h) is_remote) then Model.LOCAL else Model.REMOTE;
               Model.amount := amount_msat h; Model.payment_hash := oic_payment_hash h;
               Model.ctlv_expiry := oic_cltv_expiry h |}) <$> htlcs.

Definition dest_wallet_path : path := [1].

Definition dbid_to_channel_id (dbid : Z) : bytes := to_le_bytes 8 dbid ++ replicate 24 0.
Definition channel_id_to_dbid (slice : bytes) : Z := from_le_bytes (take 8 slice).

(** ** [SignerClient] *)

Record SignerClient := {
  sc_peer_id : bytes;
  sc_dbid : Z;
  sc_channel_keys : ChannelPublicKeys;
  sc_channel_value : Z
}.

Section signer_client.
Context `{L : Lib, !KeyLib, CL : ChainLib, IL : InvoiceLib, SB : SerdeBolt, WL : !WireLib, Prof : Profile}.
Context {T : Type} `{!Transport T}.
Implicit Types (self : SignerClient).

(** A client's message, whose error is dropped. *)
Definition sc_call {X R} self (t : Struct X) (r : Struct R) (message : X) : CM T unit R :=
  c_map_err (fun _ => tt) (call t r (sc_dbid self) (sc_peer_id self) message).

(** [Signature::from_compact(..).map_err(|_| ())?] of a signature and of a list. *)
Definition compact_signature (s : Model.BitcoinSignature) : outcome unit Signature :=
  ok_or (signature_from_compact (Model.signature s)) tt.

Fixpoint compact_signatures (l : list Model.BitcoinSignature) : outcome unit (list Signature) :=
  match l with
  | [] => Ok []
  | s :: l => x ← compact_signature s; xs ← compact_signatures l; Ok (x :: xs)
  end.

Definition sc_sign_counterparty_commitment self (tx : CommitmentTransaction)
  : CM T unit (Signature * list Signature) :=
  commitment_number ← c_lift (sub64 INITIAL_COMMITMENT_NUMBER (ct_commitment_number tx));
  '(signature, htlc_signatures) ←
    sc_call self Msgs.SignRemoteCommitmentTx2 Msgs.SignCommitmentTxWithHtlcsReply
      (per_commitment_point (ct_keys tx), commitment_number, ct_feerate_per_kw tx,
       ct_to_countersignatory_value_sat tx, ct_to_broadcaster_value_sat tx,
       to_htlcs (ct_htlcs tx) true);
  sig ← c_lift (compact_signature signature);
  sigs ← c_lift (compact_signatures htlc_signatures);
  mret (sig, sigs).

Definition sc_validate_counterparty_revocation self (idx : Z) (secret : SecretKey) : CM T unit unit :=
  commitment_number ← c_lift (sub64 INITIAL_COMMITMENT_NUMBER idx);
  sc_call self Msgs.ValidateRevocation Msgs.ValidateRevocationReply (commitment_number, secret);;
  mret tt.

Definition sc_sign_holder_commitment_and_htlcs self (commitment_tx : HolderCommitmentTransaction)
  : CM T unit (Signature * list Signature) :=
  commitment_number ← c_lift (sub64 INITIAL_COMMITMENT_NUMBER
                                (ct_commitment_number (hct_tx commitment_tx)));
  '(signature, htlc_signatures) ←
    sc_call self Msgs.SignLocalCommitmentTx2 Msgs.SignCommitmentTxWithHtlcsReply commitment_number;
  sig ← c_lift (compact_signature signature);
  sigs ← c_lift (compact_signatures htlc_signatures);
  mret (sig, sigs).

Definition sc_sign_closing_transaction self (tx : ClosingTransaction) : CM T unit Signature :=
  sig ← sc_call self Msgs.SignMutualCloseTx2 Msgs.SignTxReply
    (to_holder_value_sat tx, to_counterparty_value_sat tx, to_holder_script tx,
     to_counterparty_script tx, dest_wallet_path);
  c_lift (unwrap (signature_from_compact (Model.signature sig))).

(** [msg] is the encoded announcement. *)
Definition sc_sign_channel_announcement_with_funding_key self (msg : bytes) : CM T unit Signature :=
  '(_, bitcoin_signature) ← sc_call self Msgs.SignChannelAnnouncement Msgs.SignChannelAnnouncementReply
    (replicate 258 0 ++ msg);
  c_lift (unwrap (signature_from_compact bitcoin_signature)).

Definition sc_get_per_commitment_point {E} self (idx : Z) : CM T E PublicKey :=
  commitment_number ← c_lift (sub64 INITIAL_COMMITMENT_NUMBER idx);
  point ← c_expect (sc_call self Msgs.GetPerCommitmentPoint2 Msgs.GetPerCommitmentPoint2Reply
                      commitment_number);
  c_lift (unwrap (pubkey_from_slice point)).

Definition sc_release_commitment_secret {E} self (idx : Z) : CM T E bytes :=
  n ← c_lift (sub64 INITIAL_COMMITMENT_NUMBER idx);
  commitment_number ← c_lift (add64 n 2);
  '(_, secret) ← c_expect (sc_call self Msgs.GetPerCommitmentPoint Msgs.GetPerCommitmentPointReply
                             commitment_number);
  c_lift (unwrap secret).

Definition sc_validate_holder_commitment self (holder_tx : HolderCommitmentTransaction) : CM T unit unit :=
  let tx := hct_tx holder_tx in
  commitment_number ← c_lift (sub64 INITIAL_COMMITMENT_NUMBER (ct_commitment_number tx));
  sc_call self Msgs.ValidateCommitmentTx2 Msgs.ValidateCommitmentTxReply
    (commitment_number, ct_feerate_per_kw tx, ct_to_broadcaster_value_sat tx,
     ct_to_countersignatory_value_sat tx, to_htlcs (ct_htlcs tx) false,
     to_bitcoin_sig (hct_counterparty_sig holder_tx),
     to_bitcoin_sig <$> hct_counterparty_htlc_sigs holder_tx);;
  mret tt.

Definition sc_channel_keys_id self : bytes := dbid_to_channel_id (sc_dbid self).

Definition sc_commitment_type (p : ChannelTransactionParameters) : CommitmentType :=
  if opt_anchors p then if opt_non_zero_fee_anchors p then Anchors else AnchorsZeroFeeHtlc
  else StaticRemoteKey.

Definition sc_provide_channel_parameters {E} self (p : ChannelTransactionParameters) : CM T E unit :=
  funding ← c_lift (unwrap (ctp_funding_outpoint p));
  '(cp_pubkeys, cp_delay) ← c_lift (unwrap (counterparty_parameters p));
  c_expect (sc_call self Msgs.ReadyChannel Msgs.ReadyChannelReply
    (is_outbound_from_holder p, sc_channel_value self, 0, op_txid funding, vout funding,
     ctp_holder_selected_contest_delay p, [], None,
     {| Model.revocation := revocation_basepoint cp_pubkeys; Model.payment := payment_point cp_pubkeys;
        Model.htlc := htlc_basepoint cp_pubkeys;
        Model.delayed_payment := delayed_payment_basepoint cp_pubkeys |},
     funding_pubkey cp_pubkeys, cp_delay, [],
     commitment_type_to_channel_type (sc_commitment_type p)));;
  mret tt.
End signer_client.

(** ** [KeysManagerClient] *)

Class ClientLib `{L : Lib} := {
  (** bitcoin::util::bip32 *)
  xpub_decode : bytes -> option ExtendedPubKey;
  xpub_ckd : ExtendedPubKey -> Z -> option ExtendedPubKey;
  xpub_public_key : ExtendedPubKey -> PublicKey;
  new_v0_p2wpkh : PublicKey -> Script;
  shutdown_script_try_from : Script -> option Script;
  (** bitcoin::util::psbt *)
  psbt_from_unsigned_tx : Transaction -> option Psbt;
  (** secp256k1 *)
  recovery_id_from_i32 : Z -> option Z;
  recoverable_from_compact : bytes -> Z -> option Signature
}.

(** What the client reads of a [SpendableOutputDescriptor]. *)
Inductive ClientDescriptor :=
| CStaticOutput (value : Z)
| CDelayedPaymentOutput (value : Z) (channel_keys_id : bytes) (per_commitment_point : PublicKey)
    (to_self_delay : Z)
| CStaticPaymentOutput (value : Z) (channel_keys_id : bytes).

Inductive ClientRecipient := CNode | CPhantomNode.

Record KeysManagerClient := {
  next_dbid : Z;
  key_material : bytes;
  kmc_xpub : ExtendedPubKey;
  kmc_node_id : PublicKey
}.

Section keys_client.
Context `{L : Lib, !KeyLib, CL : ChainLib, IL : InvoiceLib, SB : SerdeBolt, WL : !WireLib, ClL : !ClientLib}.
Context `{Prof : Profile} {T : Type} `{!Transport T}.
Implicit Types (self : KeysManagerClient).

(** [KeyDerivationStyle::Native as u8]. *)
Definition NATIVE_STYLE : Z := 1.

(** The key material is 32 random bytes. *)
Definition kmc_new {E} (key_material : bytes) (network : bytes) : CM T E KeysManagerClient :=
  '(node_id, bip32, _) ← c_expect (node_call Msgs.HsmdInit2 Msgs.HsmdInit2Reply
                                    (NATIVE_STYLE, network, None, []));
  xpub ← c_lift (unwrap (xpub_decode bip32));
  node_id ← c_lift (unwrap (pubkey_from_slice node_id));
  mret {| next_dbid := 1; key_material := key_material; kmc_xpub := xpub; kmc_node_id := node_id |}.

Definition kmc_get_channel_basepoints {E} (dbid : Z) (peer_id : bytes) : CM T E ChannelPublicKeys :=
  '(basepoints, funding) ← c_expect (node_call Msgs.GetChannelBasepoints Msgs.GetChannelBasepointsReply
                                      (peer_id, dbid));
  let from_pubkey k : CM T E PublicKey := c_lift (unwrap (pubkey_from_slice k)) in
  funding_pubkey ← from_pubkey funding;
  revocation_basepoint ← from_pubkey (Model.revocation basepoints);
  payment_point ← from_pubkey (Model.payment basepoints);
  delayed_payment_basepoint ← from_pubkey (Model.delayed_payment basepoints);
  htlc_basepoint ← from_pubkey (Model.htlc basepoints);
  mret {| funding_pubkey := funding_pubkey; revocation_basepoint := revocation_basepoint;
          payment_point := payment_point; delayed_payment_basepoint := delayed_payment_basepoint;
          htlc_basepoint := htlc_basepoint |}.

Definition descriptor_close_info (channel_keys_id : bytes) (point : option PublicKey) (csv : Z)
  : Model.CloseInfo :=
  {| Model.channel_id := channel_id_to_dbid channel_keys_id; Model.peer_id := replicate 33 0;
     Model.commitment_point := point; Model.is_anchors := false; Model.csv := csv |}.

Definition descriptor_to_utxo (d : ClientDescriptor) : Model.Utxo :=
  let '(amount, keyindex, close_info) :=
    match d with
    | CStaticOutput value => (value, default 0 (head dest_wallet_path), None)
    | CDelayedPaymentOutput value id point delay =>
        (value, 0, Some (descriptor_close_info id (Some point) delay))
    | CStaticPaymentOutput value id => (value, 0, Some (descriptor_close_info id None 0))
    end in
  {| Model.utxo_txid := replicate 32 0; Model.outnum := 0; Model.utxo_amount := amount;
     Model.keyindex := keyindex; Model.is_p2sh := false; Model.script := [];
     Model.close_info := close_info; Model.is_in_coinbase := false |}.

(** [i.final_script_witness.unwrap()] of every input. *)
Fixpoint final_witnesses {E} (l : list PsbtInput) : outcome E (list (list bytes)) :=
  match l with
  | [] => Ok []
  | i :: l => w ← unwrap (final_script_witness i); ws ← final_witnesses l; Ok (w :: ws)
  end.

Definition kmc_sign_onchain_tx {E} (tx : Transaction) (descriptors : list ClientDescriptor)
  : CM T E (list (list bytes)) :=
  psbt ← c_lift (unwrap (psbt_from_unsigned_tx tx));
  result ← c_expect (node_call Msgs.SignWithdrawal Msgs.SignWithdrawalReply
                       (descriptor_to_utxo <$> descriptors, psbt_serialize psbt));
  result_psbt ← c_lift (unwrap (psbt_decode result));
  c_lift (final_witnesses (psbt_inputs result_psbt)).

Definition kmc_get_node_id self (recipient : ClientRecipient) : outcome unit PublicKey :=
  match recipient with CNode => Ok (kmc_node_id self) | CPhantomNode => Panic end.

Definition kmc_ecdh (recipient : ClientRecipient) (other_key : PublicKey) (tweak : option bytes)
  : CM T unit bytes :=
  match recipient, tweak with
  | CNode, None => c_expect (node_call Msgs.Ecdh Msgs.EcdhReply other_key)
  | _, _ => c_lift Panic
  end.

Definition kmc_sign_invoice (hrp_bytes invoice_data : bytes) (recipient : ClientRecipient)
  : CM T unit Signature :=
  match recipient with
  | CPhantomNode => c_lift Panic
  | CNode =>
      signature ← c_expect (node_call Msgs.SignInvoice Msgs.SignInvoiceReply (invoice_data, hrp_bytes));
      rid ← c_lift (b ← unwrap (signature !! 64%nat); unwrap (recovery_id_from_i32 b));
      c_lift (ok_or (recoverable_from_compact (take 64 signature) rid) tt)
  end.

(** [msg] is the encoded gossip message. *)
Definition kmc_sign_gossip_message (msg : bytes) : CM T unit Signature :=
  signature ← c_expect (node_call Msgs.SignGossipMessage Msgs.SignGossipMessageReply msg);
  c_lift (unwrap (signature_from_compact signature)).

(** [fetch_add] wraps. *)
Definition generate_channel_keys_id self : KeysManagerClient * bytes :=
  let dbid := next_dbid self in
  ({| next_dbid := (dbid + 1) mod 2 ^ 64; key_material := key_material self; kmc_xpub := kmc_xpub self;
      kmc_node_id := kmc_node_id self |},
   to_be_bytes 8 dbid ++ replicate 24 0).

Definition derive_channel_signer {E} (channel_value_satoshis : Z) (channel_keys_id : bytes)
  : CM T E SignerClient :=
  let peer_id := replicate 33 0 in
  let dbid := from_be_bytes (take 8 channel_keys_id) in
  c_expect (node_call Msgs.NewChannel Msgs.NewChannelReply (peer_id, dbid));;
  channel_keys ← kmc_get_channel_basepoints dbid peer_id;
  mret {| sc_peer_id := peer_id; sc_dbid := dbid; sc_channel_keys := channel_keys;
          sc_channel_value := channel_value_satoshis |}.

Definition kmc_get_destination_script {E} self : outcome E Script :=
  key ← foldM (fun k i => unwrap (xpub_ckd k i)) (kmc_xpub self) dest_wallet_path;
  Ok (new_v0_p2wpkh (xpub_public_key key)).

Definition kmc_get_shutdown_scriptpubkey {E} self : outcome E Script :=
  s ← kmc_get_destination_script self;
  unwrap (shutdown_script_try_from s).
End keys_client.
