(* ===== verification/ClientExample.v ===== *)
(** * Instances for the client

    A signer with one channel whose signatures, points and secrets have the
    sizes that the messages carry, to run the client against it. *)

From S2P Require Import Prelude Velocity Policy Order Extern Crypto Setup Tx Keys Allowlist Script.
From S2P Require Import Secrets Enforcement Validator SimpleValidator NodeState ChannelOps Monitor.
From S2P Require Import Tracker Persist PersistSpec Node Msgs Approver Handler Client.

Import NodeOps.

(** The example crates, with signatures of 64 bytes, secrets of 32 and points
    of 33. *)
Definition sized_lib : Lib := {|
  txid := @txid example_lib; tx_weight := @tx_weight example_lib; tx_size := @tx_size example_lib;
  is_witness_program := @is_witness_program example_lib; is_v0_p2wpkh := @is_v0_p2wpkh example_lib;
  is_v0_p2wsh := @is_v0_p2wsh example_lib; to_v0_p2wsh := @to_v0_p2wsh example_lib;
  dust_value := @dust_value example_lib; txout_encoded_len := @txout_encoded_len example_lib;
  varint_len := @varint_len example_lib; payload_from_script := @payload_from_script example_lib;
  instructions := @instructions example_lib; push_num := @push_num example_lib;
  read_scriptint := @read_scriptint example_lib; sha256 := @sha256 example_lib;
  sha256d := @sha256d example_lib; pubkey_from_slice := @pubkey_from_slice example_lib;
  pubkey_from_secret_key := @pubkey_from_secret_key example_lib;
  secretkey_from_slice := @secretkey_from_slice example_lib;
  message_from_slice := @message_from_slice example_lib; sign_ecdsa := @sign_ecdsa example_lib;
  verify_ecdsa _ _ _ := true; serialize_der := @serialize_der example_lib; InMemorySigner := Z;
  pubkeys := @pubkeys example_lib; counterparty_pubkeys := @counterparty_pubkeys example_lib;
  signer_per_commitment_point _ _ := 2 :: replicate 32 9;
  release_commitment_secret _ _ := replicate 32 5; funding_key := @funding_key example_lib;
  payment_key := @payment_key example_lib; revocation_base_key := @revocation_base_key example_lib;
  delayed_payment_base_key := @delayed_payment_base_key example_lib;
  htlc_base_key := @htlc_base_key example_lib;
  sign_counterparty_commitment _ _ := Some (replicate 64 1, []);
  sign_holder_commitment_and_htlcs _ _ := Some (replicate 64 1, []);
  sign_closing_transaction := @sign_closing_transaction example_lib;
  htlc_timeout_tx_weight := @htlc_timeout_tx_weight example_lib;
  htlc_success_tx_weight := @htlc_success_tx_weight example_lib;
  make_funding_redeemscript := @make_funding_redeemscript example_lib;
  closing_built_transaction := @closing_built_transaction example_lib;
  build_htlc_transaction := @build_htlc_transaction example_lib;
  derive_public_key := @derive_public_key example_lib;
  derive_public_revocation_key := @derive_public_revocation_key example_lib;
  derive_private_key := @derive_private_key example_lib;
  derive_private_revocation_key := @derive_private_revocation_key example_lib;
  derive_new := @derive_new example_lib;
  commitment_built_transaction := @commitment_built_transaction example_lib;
  commitment_htlcs := @commitment_htlcs example_lib;
  get_htlc_redeemscript := @get_htlc_redeemscript example_lib;
  get_revokeable_redeemscript := @get_revokeable_redeemscript example_lib;
  segwit_signature_hash := @segwit_signature_hash example_lib |}.

Definition sized_keys : @KeyLib sized_lib := @Build_KeyLib sized_lib
  (@ExtendedPrivKey example_lib example_keys) (@from_normal_idx example_lib example_keys)
  (@from_hardened_idx example_lib example_keys) (@new_master example_lib example_keys)
  (@ckd_priv example_lib example_keys) (@private_key example_lib example_keys)
  (@hash160 example_lib example_keys) (@push_slice example_lib example_keys)
  (@p2pkh_script example_lib example_keys) (@shared_secret example_lib example_keys)
  (@scalar_from_be_bytes example_lib example_keys) (@add_tweak example_lib example_keys)
  (@mul_tweak example_lib example_keys) (@sign_schnorr_no_aux_rand example_lib example_keys)
  (@sign_ecdsa_recoverable example_lib example_keys) (@InMemorySigner_new example_lib example_keys)
  (@commitment_seed example_lib example_keys) (@channel_keys_id example_lib example_keys)
  (@signer_random_bytes example_lib example_keys)
  (@provide_channel_parameters example_lib example_keys)
  (@sign_counterparty_payment_input example_lib example_keys)
  (@sign_dynamic_p2wsh_input example_lib example_keys)
  (@STATIC_MAX_WITNESS_LENGTH example_lib example_keys)
  (@DELAYED_MAX_WITNESS_LENGTH example_lib example_keys)
  (@construct_invoice_preimage example_lib example_keys).

#[local] Existing Instances sized_lib example_crypto sized_keys Tracker.example_chain_lib
  example_addresses example_invoices example_checkpoints example_node_lib example_ser Chan.release
  example_serde.

Definition sized_wire : WireLib := {|
  tx_deserialize _ := None; header_deserialize _ := None; psbt_decode _ := None;
  psbt_serialize _ := []; extract_tx := unsigned_tx; script_deserialize b := Some b;
  proof_deserialize _ := None; signature_from_compact b := Some b; xpub_from_priv_encode _ := [];
  bolt12_from_str _ := None; bolt11_raw_from_str _ := None; heartbeat_to_vec _ := [] |}.
#[local] Existing Instance sized_wire.

Definition sized_factory : ValidatorFactory := {|
  make_validator _ _ _ := Simple.make_validator None Testnet;
  factory_policy _ := simple_policy (make_simple_policy Testnet) |}.

Definition sized_peer : bytes := replicate 33 0.
Definition sized_id : ChannelId := channel_id sized_peer 1.

Definition sized_channel : Channel := {|
  keys := 1; enforcement_state := EnforcementState_new 999000; setup := example_setup;
  id0 := sized_id; chan_id := None |}.

Definition sized_node : Node := {|
  node_config := {| cfg_network := Testnet; cfg_key_derivation_style := Ldk; use_checkpoints := false |};
  keys_manager := {|
    Keys.seed := example_seed; Keys.key_derivation_style := Native; Keys.km_network := Testnet;
    Keys.km_master_key := []; Keys.node_secret := [1]; Keys.bolt12_secret := [2];
    Keys.persistence_secret := [3]; Keys.inbound_payment_key := []; Keys.channel_seed_base := [];
    Keys.account_extended_key := []; Keys.destination_script := [7];
    Keys.ldk_shutdown_pubkey := []; Keys.channel_master_key := []; Keys.channel_id_master_key := [];
    Keys.channel_id_child_index := 0; Keys.rand_bytes_master_key := [];
    Keys.rand_bytes_child_index := 0; Keys.rand_bytes_unique_start := [];
    Keys.lnd_basepoint_index := 0; Keys.unique_start := [] |};
  channels := {[ sized_id := 0%nat ]};
  slots := {[ 0%nat := {| slot := Ready sized_channel; detached := Some (Monitor.new 7) |} ]};
  node_validator_factory := sized_factory; allowlist := ∅;
  tracker := Tracker.example_tracker [] 7 None;
  state := NodeState_new example_hourly example_hourly; node_id := replicate 33 2 |}.

Definition sized_signer : HSt KVJson.KVJsonPersister PositiveApprover := {|
  h_approver := Positive;
  h_node := {| node := sized_node;
               store := KVJson.set_channel KVJson.empty
                 {[ NodeChannelId_new (replicate 33 2) sized_id := channel_entry sized_channel ]} |} |}.

Definition sized_client : SignerClient := {|
  sc_peer_id := sized_peer; sc_dbid := 1; sc_channel_keys := example_signer_keys 1;
  sc_channel_value := 1000000 |}.

Definition sized_clocks : Clocks := {| now_approver := 0; now0 := 0; now1 := 0; now2 := 0 |}.

(** The first commitment of the channel, for either side. *)
Definition sized_commitment (to_broadcaster to_countersignatory : Z) : CommitmentTransaction := {|
  ct_commitment_number := INITIAL_COMMITMENT_NUMBER; ct_to_broadcaster_value_sat := to_broadcaster;
  ct_to_countersignatory_value_sat := to_countersignatory; ct_opt_anchors := false;
  ct_broadcaster_funding_key := [2]; ct_countersignatory_funding_key := [2];
  ct_keys := {| per_commitment_point := 2 :: replicate 32 8; revocation_key := [2];
                broadcaster_htlc_key := [2]; countersignatory_htlc_key := [2];
                broadcaster_delayed_payment_key := [2] |};
  ct_feerate_per_kw := 1000; ct_htlcs := [];
  ct_parameters := {| holder_pubkeys := example_signer_keys 1; ctp_holder_selected_contest_delay := 144;
    is_outbound_from_holder := true; counterparty_parameters := None; ctp_funding_outpoint := None;
    opt_anchors := false; opt_non_zero_fee_anchors := false |};
  ct_holder_broadcastable := true; ct_non_zero_fee_anchors := false |}.

Definition sized_holder_commitment : HolderCommitmentTransaction := {|
  hct_tx := sized_commitment 999000 0; hct_counterparty_sig := replicate 64 1;
  hct_counterparty_htlc_sigs := []; hct_holder_funding_key := [2]; hct_counterparty_funding_key := [2] |}.
