(* ===== verification/ClientHandler.v ===== *)
(** * The client and the handler together

    A [SignerClient] whose transport carries its messages, as bytes, to the
    handlers of a signer and their replies back: what the lightning library
    asks of the client is what the channel is asked to do. *)

From S2P Require Import Prelude Velocity Policy Order Extern Crypto Setup Tx Keys Allowlist Script.
From S2P Require Import Secrets Enforcement Validator SimpleValidator NodeState ChannelOps Monitor.
From S2P Require Import Tracker Persist PersistSpec Node Msgs Approver Handler Client ClientExample.

Import NodeOps.

Section transport.
Context `{L : Lib, CrL : CryptoLib, !KeyLib, CL : ChainLib, AL : AddressLib, IL : InvoiceLib}.
Context `{CkL : CheckpointLib, NL : NodeLib, SL : SerLib, SB : SerdeBolt, WL : !WireLib, Prof : Profile}.
Context {P : Type} `{!Persist P} {A : Type} `{!Approve A}.
Implicit Types (h : HSt P A).

(** The bytes of a message are decoded, the handler serves it, and the bytes
    of its reply go back. *)
Definition serve_bytes (do_handle : Message -> HM P A SerBolt) (b : bytes) h
  : HSt P A * outcome ClientError bytes :=
  match from_vec b with
  | Ok msg =>
      match do_handle msg h with
      | (h', Ok rep) => (h', map_err CProtocol (as_vec rep))
      | (h', Err _) => (h', Err CTransport)
      | (h', Panic) => (h', Panic)
      end
  | Err e => (h, Err (CProtocol e))
  | Panic => (h, Panic)
  end.

(** A transport to the handlers in the same process.  The root handler reads
    its clocks as [t]. *)
Definition local_transport (tw : bool) (t : Clocks) : Transport (HSt P A) := {|
  transport_node_call := serve_bytes (root_do_handle tw t);
  transport_call dbid peer_id := serve_bytes (channel_do_handle (channel_id peer_id dbid)) |}.
End transport.

Section composed.
Context `{L : Lib, CrL : CryptoLib, !KeyLib, CL : ChainLib, AL : AddressLib, IL : InvoiceLib}.
Context `{CkL : CheckpointLib, NL : NodeLib, SL : SerLib, SB : SerdeBolt, WL : !WireLib, Prof : Profile}.
Context {P : Type} `{!Persist P} {A : Type} `{!Approve A} `{!SerdeBoltLaws} (tw : bool) (t : Clocks).
#[local] Existing Instance local_transport.
Implicit Types (h : HSt P A) (self : SignerClient).

Notation served dbid peer_id := (channel_do_handle (channel_id peer_id dbid)).

(** What the client sees of an answer. *)
Lemma call_reply {X R} (s : Struct X) (r : Struct R) dbid peer_id m x h h' y :
  dbid <> 0 -> inner m = pack s x -> sendable m -> served dbid peer_id m h = (h', Ok (pack r y)) ->
  Lawful (fields r) -> valid (fields r) y -> 0 <= TYPE r < 256 ^ Z.of_nat 2 ->
  call (Transport0 := local_transport tw t) s r dbid peer_id x h = (h', Ok y).
Proof.
  intros Hd Hm Hs Hh Hl Hy Ht. unfold call. rewrite <- Hm.
  destruct (as_vec_readable m Hs) as (b & Hb & _). destruct (debolt_roundtrip r y Hl Hy Ht) as (b' & Hb' & Hr).
  unfold mbind, C_bind, c_lift. rewrite (proj2 (Z.eqb_neq dbid 0) Hd), Hb. cbn [negb assert_ map_err].
  unfold transport_call, local_transport, serve_bytes.
  rewrite (from_vec_spec m _ Hs Hb), Hh, Hb'. cbn [map_err]. by rewrite Hr.
Qed.

Lemma call_failure {X R} (s : Struct X) (r : Struct R) dbid peer_id m x h h' e :
  dbid <> 0 -> inner m = pack s x -> sendable m -> served dbid peer_id m h = (h', Err e) ->
  call (Transport0 := local_transport tw t) s r dbid peer_id x h = (h', Err CTransport).
Proof.
  intros Hd Hm Hs Hh. unfold call. rewrite <- Hm. destruct (as_vec_readable m Hs) as (b & Hb & _).
  unfold mbind, C_bind, c_lift. rewrite (proj2 (Z.eqb_neq dbid 0) Hd), Hb. cbn [negb assert_ map_err].
  unfold transport_call, local_transport, serve_bytes. by rewrite (from_vec_spec m _ Hs Hb), Hh.
Qed.

Lemma call_panic {X R} (s : Struct X) (r : Struct R) dbid peer_id m x h h' :
  dbid <> 0 -> inner m = pack s x -> sendable m -> served dbid peer_id m h = (h', Panic) ->
  call (Transport0 := local_transport tw t) s r dbid peer_id x h = (h', Panic).
Proof.
  intros Hd Hm Hs Hh. unfold call. rewrite <- Hm. destruct (as_vec_readable m Hs) as (b & Hb & _).
  unfold mbind, C_bind, c_lift. rewrite (proj2 (Z.eqb_neq dbid 0) Hd), Hb. cbn [negb assert_ map_err].
  unfold transport_call, local_transport, serve_bytes. by rewrite (from_vec_spec m _ Hs Hb), Hh.
Qed.

(** *** HTLCs *)

Definition oic_info (x : HTLCOutputInCommitment) : HTLCInfo2 :=
  {| value_sat := amount_msat x / 1000; payment_hash := oic_payment_hash x;
     cltv_expiry := oic_cltv_expiry x |}.

(** The HTLCs that the broadcaster of a commitment offers, and those that it
    receives. *)
Definition ct_offered (tx : CommitmentTransaction) : list HTLCInfo2 :=
  oic_info <$> List.filter offered (ct_htlcs tx).
Definition ct_received (tx : CommitmentTransaction) : list HTLCInfo2 :=
  oic_info <$> List.filter (fun x => negb (offered x)) (ct_htlcs tx).

Lemma extract_to_htlcs l remote : extract_htlcs (to_htlcs l remote)
  = (oic_info <$> List.filter (fun x => Bool.eqb (offered x) remote) l,
     oic_info <$> List.filter (fun x => negb (Bool.eqb (offered x) remote)) l).
Proof.
  unfold extract_htlcs, to_htlcs. induction l as [|x l IH]; [done|].
  injection IH as IH1 IH2. cbn [fmap list_fmap List.filter Model.side].
  destruct (Bool.eqb (offered x) remote); cbn; f_equal; unfold fmap in *; try (by rewrite ?IH1, ?IH2);
    f_equal; done.
Qed.

Lemma extract_remote tx : extract_htlcs (to_htlcs (ct_htlcs tx) true) = (ct_offered tx, ct_received tx).
Proof.
  rewrite extract_to_htlcs. unfold ct_offered, ct_received.
  f_equal; f_equal; apply filter_ext; intros x; by destruct (offered x).
Qed.

Lemma extract_local tx : extract_htlcs (to_htlcs (ct_htlcs tx) false) = (ct_received tx, ct_offered tx).
Proof.
  rewrite extract_to_htlcs. unfold ct_offered, ct_received.
  f_equal; f_equal; apply filter_ext; intros x; by destruct (offered x).
Qed.

(** *** Requests *)

Definition client_channel self : ChannelId := channel_id (sc_peer_id self) (sc_dbid self).

Definition with_node h (s : NSt P) : HSt P A := {| h_approver := h_approver h; h_node := s |}.

(** A signature in its compact form. *)
Definition compact (sig : Signature) : Prop :=
  valid Model.Signature sig /\ signature_from_compact sig = Some sig.

Lemma compact_signatures_all sigs : Forall compact sigs -> compact_signatures (to_bitcoin_sig <$> sigs) = Ok sigs.
Proof.
  induction 1 as [|sig sigs [_ Hs] _ IH]; [done|]. cbn. unfold compact_signature. cbn. rewrite Hs. cbn.
  unfold fmap in *. by rewrite IH.
Qed.

Lemma bitcoin_sig_valid sig : compact sig -> valid Model.BitcoinSignature_serde (to_bitcoin_sig sig).
Proof. intros [Hv _]. split; [exact Hv|]. cbn. unfold SIGHASH_ALL. lia. Qed.

(** The counterparty's commitment [tx], as a request to the channel. *)
Definition counterparty_message (tx : CommitmentTransaction) : Message :=
  MSignRemoteCommitmentTx2 (per_commitment_point (ct_keys tx))
    (INITIAL_COMMITMENT_NUMBER - ct_commitment_number tx) (ct_feerate_per_kw tx)
    (ct_to_countersignatory_value_sat tx) (ct_to_broadcaster_value_sat tx) (to_htlcs (ct_htlcs tx) true).

Definition counterparty_request self (tx : CommitmentTransaction) : M P (Signature * list Signature) :=
  channel_op true (fun env => Chan.sign_counterparty_commitment_tx_phase2 env
    (per_commitment_point (ct_keys tx)) (INITIAL_COMMITMENT_NUMBER - ct_commitment_number tx)
    (ct_feerate_per_kw tx) (ct_to_countersignatory_value_sat tx) (ct_to_broadcaster_value_sat tx)
    (ct_offered tx) (ct_received tx)) (client_channel self).

Lemma served_counterparty self tx h :
  pubkey_from_slice (per_commitment_point (ct_keys tx)) = Some (per_commitment_point (ct_keys tx)) ->
  channel_do_handle (client_channel self) (counterparty_message tx) h
  = match counterparty_request self tx (h_node h) with
    | (s, Ok (sig, sigs)) => (with_node h s, Ok (pack Msgs.SignCommitmentTxWithHtlcsReply
                                (to_bitcoin_sig sig, to_bitcoin_sig <$> sigs)))
    | (s, Err e) => (with_node h s, Err (from_status e))
    | (s, Panic) => (with_node h s, Panic)
    end.
Proof.
  intros Hp. cbn [channel_do_handle counterparty_message]. unfold handle_sign_remote_commitment_tx2, expect.
  rewrite Hp, extract_remote. unfold mbind, H_bind, on_node, counterparty_request. cbn [unwrap].
  destruct (channel_op _ _ _ _) as [s [[sig sigs]|e|]]; done.
Qed.

(** A client whose transport reaches the signer's handlers signs what it is
    asked to.  The call of the lightning library for a signature on the
    counterparty's commitment is, through the bytes of the message and of the
    reply, the request to the client's channel with the same point, number
    (counted up), fee rate and values, in which the HTLCs that the
    counterparty offers are its offered ones; the answer is the channel's
    answer, and the signer's state is the one the request leaves. *)
Theorem client_signs_counterparty self tx h (Hdbid : sc_dbid self <> 0)
  (Hnum : 0 <= ct_commitment_number tx <= INITIAL_COMMITMENT_NUMBER)
  (Hpoint : pubkey_from_slice (per_commitment_point (ct_keys tx)) = Some (per_commitment_point (ct_keys tx)))
  (Hsend : sendable (counterparty_message tx))
  (Hsigs : forall s sig sigs, counterparty_request self tx (h_node h) = (s, Ok (sig, sigs)) ->
     compact sig /\ Forall compact sigs /\ Z.of_nat (length sigs) < 256 ^ 2) :
  sc_sign_counterparty_commitment (Transport0 := local_transport tw t) self tx h
  = match counterparty_request self tx (h_node h) with
    | (s, Ok sigs) => (with_node h s, Ok sigs)
    | (s, Err _) => (with_node h s, Err tt)
    | (s, Panic) => (with_node h s, Panic)
    end.
Proof.
  pose proof (served_counterparty self tx h Hpoint) as Hserve.
  unfold sc_sign_counterparty_commitment, sc_call, c_map_err. unfold mbind, C_bind, c_lift.
  rewrite sub64_in by (unfold INITIAL_COMMITMENT_NUMBER in *; lia).
  destruct (counterparty_request self tx (h_node h)) as [s [[sig sigs]|e|]] eqn:Hreq.
  - destruct (Hsigs s sig sigs eq_refl) as (Hsig & Hsigs' & Hlen).
    erewrite (call_reply _ _ _ _ (counterparty_message tx)); [|done|done|done|exact Hserve|apply _| |by split].
    + cbn [map_err fst snd]. unfold compact_signature at 1. cbn [Model.signature to_bitcoin_sig].
      rewrite (proj2 Hsig). cbn [ok_or]. by rewrite compact_signatures_all.
    + split; [by apply bitcoin_sig_valid|]. split; [|cbn [snd]; by rewrite length_fmap].
      apply Forall_fmap. eapply Forall_impl; [exact Hsigs'|]. apply bitcoin_sig_valid.
  - by erewrite (call_failure _ _ _ _ (counterparty_message tx)); [|done|done|done|exact Hserve].
  - by erewrite (call_panic _ _ _ _ (counterparty_message tx)); [|done|done|done|exact Hserve].
Qed.

(** The holder's commitment with the counterparty's signatures, as a request. *)
Definition holder_message (htx : HolderCommitmentTransaction) : Message :=
  let tx := hct_tx htx in
  MValidateCommitmentTx2 (INITIAL_COMMITMENT_NUMBER - ct_commitment_number tx) (ct_feerate_per_kw tx)
    (ct_to_broadcaster_value_sat tx) (ct_to_countersignatory_value_sat tx) (to_htlcs (ct_htlcs tx) false)
    (to_bitcoin_sig (hct_counterparty_sig htx)) (to_bitcoin_sig <$> hct_counterparty_htlc_sigs htx).

Definition holder_request self (htx : HolderCommitmentTransaction) : M P (PublicKey * option SecretKey) :=
  let tx := hct_tx htx in
  channel_op true (fun env => Chan.validate_holder_commitment_tx_phase2 env
    (INITIAL_COMMITMENT_NUMBER - ct_commitment_number tx) (ct_feerate_per_kw tx)
    (ct_to_broadcaster_value_sat tx) (ct_to_countersignatory_value_sat tx)
    (ct_offered tx) (ct_received tx) (hct_counterparty_sig htx) (hct_counterparty_htlc_sigs htx))
    (client_channel self).

Lemma htlc_signatures_all sigs h : Forall compact sigs ->
  collect htlc_signature (to_bitcoin_sig <$> sigs) h = (h, Ok sigs).
Proof.
  induction 1 as [|sig sigs [_ Hs] _ IH]; [done|]. change (fmap to_bitcoin_sig (sig :: sigs))
    with (to_bitcoin_sig sig :: (to_bitcoin_sig <$> sigs)). cbn [collect].
  unfold mbind at 1, H_bind at 1, htlc_signature at 1, expect, try, mbind at 1, H_bind at 1.
  cbn [Model.sighash Model.signature to_bitcoin_sig]. rewrite Z.eqb_refl, Hs.
  cbn [orb assert_ map_err unwrap]. unfold mbind, H_bind. by rewrite IH.
Qed.

Lemma served_holder self htx h : compact (hct_counterparty_sig htx) ->
  Forall compact (hct_counterparty_htlc_sigs htx) ->
  channel_do_handle (client_channel self) (holder_message htx) h
  = match holder_request self htx (h_node h) with
    | (s, Ok (point, secret)) =>
        (with_node h s, Ok (pack Msgs.ValidateCommitmentTxReply (secret, point)))
    | (s, Err e) => (with_node h s, Err (from_status e))
    | (s, Panic) => (with_node h s, Panic)
    end.
Proof.
  intros [_ Hsig] Hsigs. cbn [channel_do_handle holder_message].
  unfold handle_validate_commitment_tx2, commit_signature. rewrite extract_local.
  unfold mbind, H_bind, expect, try. cbn [Model.signature Model.sighash to_bitcoin_sig]. rewrite Hsig.
  cbn [unwrap]. rewrite Z.eqb_refl. cbn [assert_ map_err mret H_ret]. rewrite htlc_signatures_all by done.
  unfold on_node, holder_request. destruct (channel_op _ _ _ _) as [s [[point secret]|e|]]; done.
Qed.

(** And it has validated what it is asked to: the call of the lightning library
    to validate the holder's commitment is, through the bytes, the request to
    the client's channel with the same number, values, HTLCs in their
    directions and signatures; it succeeds exactly when the channel accepts
    the commitment. *)
Theorem client_validates_holder self htx h (Hdbid : sc_dbid self <> 0)
  (Hnum : 0 <= ct_commitment_number (hct_tx htx) <= INITIAL_COMMITMENT_NUMBER)
  (Hsig : compact (hct_counterparty_sig htx)) (Hsigs : Forall compact (hct_counterparty_htlc_sigs htx))
  (Hsend : sendable (holder_message htx))
  (Hreply : forall s point secret, holder_request self htx (h_node h) = (s, Ok (point, secret)) ->
     valid Model.PubKey point /\ forall x, secret = Some x -> valid Model.DisclosedSecret x) :
  sc_validate_holder_commitment (Transport0 := local_transport tw t) self htx h
  = match holder_request self htx (h_node h) with
    | (s, Ok _) => (with_node h s, Ok tt)
    | (s, Err _) => (with_node h s, Err tt)
    | (s, Panic) => (with_node h s, Panic)
    end.
Proof.
  pose proof (served_holder self htx h Hsig Hsigs) as Hserve.
  unfold sc_validate_holder_commitment, sc_call, c_map_err. unfold mbind, C_bind, c_lift.
  rewrite sub64_in by (unfold INITIAL_COMMITMENT_NUMBER in *; lia).
  destruct (holder_request self htx (h_node h)) as [s [[point secret]|e|]] eqn:Hreq.
  - destruct (Hreply s point secret eq_refl) as [Hp Hs].
    erewrite (call_reply _ _ _ _ (holder_message htx)); [done|done|done|done|exact Hserve|apply _| |by split].
    split; [|exact Hp]. cbn. destruct secret; [by apply Hs|done].
  - by erewrite (call_failure _ _ _ _ (holder_message htx)); [|done|done|done|exact Hserve].
  - by erewrite (call_panic _ _ _ _ (holder_message htx)); [|done|done|done|exact Hserve].
Qed.
End composed.

(** ** Channel ids of the client *)

Section ids.
Context `{L : Lib, !KeyLib, CL : ChainLib, IL : InvoiceLib, SB : SerdeBolt, WL : !WireLib, ClL : !ClientLib}.
Context `{Prof : Profile} {T : Type} `{!Transport T}.

Lemma derived_dbid {E} value id (s s' : T) sc :
  derive_channel_signer (E := E) value id s = (s', Ok sc) ->
  sc_dbid sc = from_be_bytes (take 8 id) /\ sc_peer_id sc = replicate 33 0.
Proof.
  unfold derive_channel_signer, mbind, C_bind. intros H'.
  destruct (c_expect _ s) as [s1 [u|e|]]; [|done..].
  destruct (kmc_get_channel_basepoints _ _ s1) as [s2 [ks|e|]]; [|done..]. by injection H' as <- <-.
Qed.

Lemma le_id dbid : 0 <= dbid < 2 ^ 64 -> channel_id_to_dbid (dbid_to_channel_id dbid) = dbid.
Proof.
  intros Hd. unfold channel_id_to_dbid, dbid_to_channel_id, from_le_bytes, to_le_bytes.
  rewrite take_app_length' by (by rewrite length_rev, length_to_be_bytes).
  rewrite rev_involutive. by apply from_to_be_bytes.
Qed.

(** The big-endian reading of a small number's little-endian bytes is large. *)
Lemma be_of_le dbid : 0 < dbid < 2 ^ 32 -> 2 ^ 32 <= from_be_bytes (take 8 (dbid_to_channel_id dbid)).
Proof.
  intros Hd. unfold dbid_to_channel_id, to_le_bytes.
  rewrite take_app_length' by (by rewrite length_rev, length_to_be_bytes).
  cbn [to_be_bytes app rev]. unfold from_be_bytes. cbn [foldl].
  change (2 ^ 32) with 4294967296 in *. Z.to_euclidean_division_equations. lia.
Qed.

(** The ids by which the client names its channel.  A signer derived for a
    generated id is for the number generated, and the outputs of its channel
    that it asks the node to sweep are looked up, by the id that it reports
    for them, in its own channel.  But the id it reports is not the id it was
    derived from: one is little-endian, the other big-endian, so that deriving
    a signer again from the id that a signer reports gives a signer of
    another channel. *)
Theorem client_channel_ids {E} (k : KeysManagerClient) value value' (s s' s1 s2 : T) sc sc' delay point
  (Hdbid : 0 < next_dbid k < 2 ^ 32)
  (Hderive : derive_channel_signer (E := E) value (generate_channel_keys_id k).2 s = (s', Ok sc))
  (Hagain : derive_channel_signer (E := E) value' (sc_channel_keys_id sc) s1 = (s2, Ok sc')) :
  sc_dbid sc = next_dbid k
  /\ (forall v ci, Model.close_info (descriptor_to_utxo
        (CDelayedPaymentOutput v (sc_channel_keys_id sc) point delay)) = Some ci ->
        channel_id (Model.peer_id ci) (Model.channel_id ci) = client_channel sc)
  /\ sc_dbid sc' <> sc_dbid sc.
Proof.
  apply derived_dbid in Hderive as [Hd Hp], Hagain as [Hd' _]. cbn [snd generate_channel_keys_id] in Hd.
  rewrite take_app_length', from_to_be_bytes in Hd by (rewrite ?length_to_be_bytes; lia).
  split; [done|]. split.
  - intros v ci [= <-]. unfold client_channel, sc_channel_keys_id.
    cbn [Model.peer_id Model.channel_id descriptor_close_info].
    rewrite le_id by lia. by rewrite Hp.
  - rewrite Hd'. unfold sc_channel_keys_id. pose proof (be_of_le (sc_dbid sc)). lia.
Qed.
End ids.

(** ** Witnesses *)

#[local] Existing Instances sized_lib example_crypto sized_keys Tracker.example_chain_lib
  example_addresses example_invoices example_checkpoints example_node_lib example_ser Chan.release
  example_serde sized_wire example_serde_laws.

Lemma ones_compact : compact (replicate 64 1).
Proof. split; [|done]. split; [|done]. apply Forall_replicate. unfold is_byte. lia. Qed.

(** A commitment of each side that the signer of the example accepts. *)
Lemma sized_counterparty_sendable : sendable (counterparty_message (sized_commitment 0 999000)).
Proof.
  eapply sendable_intro; [done| |reflexivity|by vm_compute].
  split; [split; [split; [split; [split|]|]|]|].
  - split; [repeat constructor; unfold is_byte; lia|reflexivity].
  - split; vm_compute; congruence.
  - split; vm_compute; congruence.
  - split; vm_compute; congruence.
  - split; vm_compute; congruence.
  - split; [constructor|by vm_compute].
Qed.

Lemma sized_counterparty_answer : exists s, counterparty_request sized_client (sized_commitment 0 999000)
  (h_node sized_signer) = (s, Ok (replicate 64 1, [])).
Proof. eexists. apply pair_eta. by vm_compute. Qed.

Lemma sized_holder_sendable : sendable (holder_message sized_holder_commitment).
Proof.
  eapply sendable_intro; [done| |reflexivity|by vm_compute].
  split; [split; [split; [split; [split; [split|]|]|]|]|].
  - split; vm_compute; congruence.
  - split; vm_compute; congruence.
  - split; vm_compute; congruence.
  - split; vm_compute; congruence.
  - split; [constructor|by vm_compute].
  - apply bitcoin_sig_valid, ones_compact.
  - split; [constructor|by vm_compute].
Qed.

Lemma sized_holder_answer : exists s, holder_request sized_client sized_holder_commitment
  (h_node sized_signer) = (s, Ok (2 :: replicate 32 9, None)).
Proof. eexists. apply pair_eta. by vm_compute. Qed.

Lemma sized_point_valid : valid Model.PubKey (2 :: replicate 32 9).
Proof. split; [repeat constructor; lia|done]. Qed.

(** A signer that only announces channels, with keys of 33 bytes. *)
Definition announcing_transport : Transport unit := {|
  transport_node_call b _ :=
    (tt, map_err CProtocol
      match from_vec b with
      | Ok (MNewChannel _ _) => as_vec (pack Msgs.NewChannelReply tt)
      | Ok _ =>
          let key := 2 :: replicate 32 7 in
          as_vec (pack Msgs.GetChannelBasepointsReply
            ({| Model.revocation := key; Model.payment := key; Model.htlc := key;
                Model.delayed_payment := key |}, key))
      | Err e => Err e
      | Panic => Panic
      end);
  transport_call _ _ _ s := (s, Err CTransport) |}.

Definition first_channel : KeysManagerClient :=
  {| next_dbid := 1; key_material := []; kmc_xpub := []; kmc_node_id := [] |}.

Definition announced (dbid : Z) : SignerClient :=
  let key := 2 :: replicate 32 7 in
  {| sc_peer_id := replicate 33 0; sc_dbid := dbid;
     sc_channel_keys := {| funding_pubkey := key; revocation_basepoint := key; payment_point := key;
                           delayed_payment_basepoint := key; htlc_basepoint := key |};
     sc_channel_value := 1000 |}.

Lemma client_channel_ids_witness : sc_dbid (announced (2 ^ 56)) <> sc_dbid (announced 1).
Proof.
  pose proof (client_channel_ids (Transport0 := announcing_transport) (E := ClientError) first_channel
    1000 1000 tt tt tt tt (announced 1) (announced (2 ^ 56)) 6 [2]) as Hids.
  apply Hids.
  - split; reflexivity.
  - vm_cast_no_check (eq_refl (tt, @Ok ClientError _ (announced 1))).
  - vm_cast_no_check (eq_refl (tt, @Ok ClientError _ (announced (2 ^ 56)))).
Defined.
