(* ===== verification/External.v ===== *)
(** * External persistence (vls-core/src/persist/mod.rs, vls-frontend/src/external_persist,
      vls-proxy/src/persist.rs and vls-proxy/src/nodefront.rs)

    A signer that keeps its state on a lightning storage server: every request
    runs in a context of the memorizing persister, its mutations are put to
    the server under HMACs that both sides check, and a restarted signer gets
    them back. *)

From stdpp Require Import sorting.
From S2P Require Import Prelude Velocity Policy Order Extern Crypto ChaCha20 Setup Tx Keys Lss Allowlist Script.
From S2P Require Import Secrets Enforcement Validator SimpleValidator NodeState ChannelOps Monitor.
From S2P Require Import Tracker Persist PersistSpec Node NodeInv Msgs Approver Handler.

Import NodeOps.

(** ** The HMACs of the signer (persist/mod.rs) *)

Record ExternalPersistHelper := { helper_secret : bytes; last_nonce : bytes }.

Section helper.
Context `{L : Lib, CrL : CryptoLib}.

Definition mutation_bytes (kv : string * (Z * bytes)) : bytes :=
  as_bytes kv.1 ++ ByteUtils.be64_to_array kv.2.1 ++ kv.2.2.

Definition mutations_hmac (secret nonce : bytes) (kvs : Mutations) : bytes :=
  hmac_sha256 secret (secret ++ nonce ++ concat (mutation_bytes <$> kvs)).

Definition ExternalPersistHelper_new (shared_secret : bytes) : ExternalPersistHelper :=
  {| helper_secret := shared_secret; last_nonce := replicate 32 0 |}.

(** The nonce is drawn from the entropy source. *)
Definition new_nonce (self : ExternalPersistHelper) (random : bytes) : ExternalPersistHelper * bytes :=
  ({| helper_secret := helper_secret self; last_nonce := random |}, random).

Definition client_hmac (self : ExternalPersistHelper) (kvs : Mutations) : bytes :=
  mutations_hmac (helper_secret self) [0x01] kvs.
Definition server_hmac (self : ExternalPersistHelper) (kvs : Mutations) : bytes :=
  mutations_hmac (helper_secret self) [0x02] kvs.
Definition check_hmac (self : ExternalPersistHelper) (kvs : Mutations) (received_hmac : bytes) : bool :=
  bool_decide (received_hmac = mutations_hmac (helper_secret self) (last_nonce self) kvs).
End helper.

(** ** The interface of an external store (external_persist/mod.rs) *)

Inductive ExtError :=
| Conflicts (l : list (string * Z))
| NoConsensus
| NotAvailable
| NotAuthorized.

Class ExternalPersist (X : Type) := {
  ext_put : Mutations -> bytes -> X -> X * outcome ExtError bytes;
  ext_get : string -> bytes -> X -> outcome ExtError (Mutations * bytes)
}.

(** ** The storage server as an external store (external_persist/lss.rs) *)

(** The client of a server, with the server's key and database. *)
Record LssClient := { lss_auth : Lss.Auth; lss_server : SecretKey; lss_db : gmap string Lss.Value }.

(** [as i64] *)
Definition as_i64 (v : Z) : Z := if v <? 2 ^ 63 then v else v - 2 ^ 64.

Definition to_lss (kv : string * (Z * bytes)) : string * Lss.Value :=
  (kv.1, {| Lss.version := as_i64 kv.2.1; Lss.value := kv.2.2 |}).
Definition from_lss (kv : string * Lss.Value) : string * (Z * bytes) :=
  (kv.1, (as_u 64 (Lss.version kv.2), Lss.value kv.2)).

Definition from_client_error (e : Lss.ClientError) : ExtError :=
  match e with
  | Lss.Tonic _ => NotAvailable
  | Lss.InvalidHmac _ _ => NotAuthorized
  | Lss.InvalidServerHmac => NotAuthorized
  | Lss.PutConflict c => Conflicts ((fun kv => (kv.1, as_u 64 (Lss.version kv.2))) <$> c)
  end.

Section lss.
Context `{L : Lib, CrL : CryptoLib, !KeyLib, HL : HexLib, Prof : Profile}.

Definition lss_put (mutations : Mutations) (client_hmac : bytes) (self : LssClient)
  : LssClient * outcome ExtError bytes :=
  let kvs := map to_lss mutations in
  let '(db, r) := Lss.Client_put (lss_auth self) (lss_server self) (lss_db self) kvs client_hmac in
  ({| lss_auth := lss_auth self; lss_server := lss_server self; lss_db := db |},
   map_err from_client_error r).

Definition lss_get (key_prefix : string) (nonce : bytes) (self : LssClient)
  : outcome ExtError (Mutations * bytes) :=
  '(kvs, received_hmac) ← map_err from_client_error
    (Lss.Client_get (lss_auth self) (lss_server self) (lss_db self) key_prefix nonce);
  Ok (map from_lss kvs, received_hmac).

#[global] Instance lss_external : ExternalPersist LssClient := {|
  ext_put := lss_put;
  ext_get := lss_get |}.
End lss.

(** ** The store with its helper (vls-proxy/src/persist.rs) *)

Record ExternalPersistWithHelper (X : Type) := {
  persist_client : X;
  ep_state : VersionedStore;
  ep_helper : ExternalPersistHelper
}.
Arguments persist_client {_}.
Arguments ep_state {_}.
Arguments ep_helper {_}.

Section external.
Context `{L : Lib, CrL : CryptoLib, !KeyLib, CL : ChainLib} {X : Type} `{!ExternalPersist X}.
Implicit Types self : ExternalPersistWithHelper X.

Definition insert_all (kvs : Mutations) (local : VersionedStore) : VersionedStore :=
  foldl (fun (m : VersionedStore) kv => <[kv.1 := kv.2]> m) local kvs.

Definition init_state {E} self (random : bytes) : outcome E (ExternalPersistWithHelper X) :=
  let '(helper, nonce) := new_nonce (ep_helper self) random in
  '(muts, hmac) ← unwrap_ok (ext_get EmptyString nonce (persist_client self));
  assert_ (check_hmac helper muts hmac);;
  Ok {| persist_client := persist_client self; ep_state := insert_all muts (ep_state self);
        ep_helper := ep_helper self |}.

(** [NodeFront::with_persist_context] (nodefront.rs): the request runs in a
    context, and its mutations must be put and acknowledged. *)
Context {P : Type} `{!PersistContext P}.

Definition with_persist_context {E} self (f : M P unit) (s : NSt P)
  : ExternalPersistWithHelper X * NSt P * outcome E unit :=
  match ctx_enter (E := unit) (store s) (ep_state self) with
  | Ok p =>
      match f {| node := node s; store := p |} with
      | (s, Ok _) =>
          let lss := ctx_shared (store s) (ep_state self) in
          match ctx_exit (E := unit) (store s) with
          | Ok (p, muts) =>
              let '(client, r) := ext_put muts (client_hmac (ep_helper self) muts) (persist_client self) in
              ({| persist_client := client; ep_state := lss; ep_helper := ep_helper self |},
               {| node := node s; store := p |},
               received_server_hmac ← unwrap_ok r;
               assert_ (bool_decide (received_server_hmac = server_hmac (ep_helper self) muts)))
          | _ => (self, s, Panic)
          end
      | (s, _) => (self, s, Panic)
      end
  | _ => (self, s, Panic)
  end.
End external.

(** ** The server mirrors the signer's state *)

Section mirror.
Context `{L : Lib, CrL : CryptoLib, !KeyLib, HL : HexLib, Prof : Profile, LL : !Lss.LssLaws}.
Context (client_key server_key : SecretKey).
Context (Hclient : Lss.good_secret client_key) (Hserver : Lss.good_secret server_key).
Notation cid := (Lss.the_client_id client_key).
Notation me := (Lss.the_client client_key server_key).
Implicit Types (S : VersionedStore) (db : gmap string Lss.Value) (muts : Mutations).

Definition lss_client db : LssClient :=
  {| lss_auth := Lss.auth me; lss_server := server_key; lss_db := db |}.

Definition helper_of_client (h : ExternalPersistHelper) : Prop :=
  helper_secret h = Lss.the_shared_secret me.

(** Versions are far from the end of their range. *)
Definition sane S : Prop := map_Forall (fun _ v => 0 <= v.1 < 2 ^ 63 - 1) S.

(** The database has exactly the state [S] under the client's id. *)
Definition mirror db S : Prop := forall k, db !! Lss.full_key cid k = (fun v => (to_lss (k, v)).2) <$> S !! k.

(** The version that the next change of a key must have. *)
Definition next_revision S (k : string) : Z := from_option (fun v => v.1 + 1) 0 (S !! k).

Lemma as_i64_small v : 0 <= v < 2 ^ 63 -> as_i64 v = v.
Proof. intros Hv. unfold as_i64. destruct (Z.ltb_spec v (2 ^ 63)); lia. Qed.

Lemma as_u_i64 v : 0 <= v < 2 ^ 64 -> as_u 64 (as_i64 v) = v.
Proof.
  intros Hv. unfold as_i64, as_u. destruct (Z.ltb_spec v (2 ^ 63)).
  - by rewrite Z.mod_small.
  - symmetry. apply (Z.mod_unique _ _ (-1)); lia.
Qed.

(** Both sides compute the same HMAC of the mutations. *)
Lemma hmac_to_lss secret nonce muts : Forall (fun kv => 0 <= kv.2.1 < 2 ^ 64) muts ->
  Lss.compute_shared_hmac secret nonce (map to_lss muts) = mutations_hmac secret nonce muts.
Proof.
  intros Hv. unfold Lss.compute_shared_hmac, mutations_hmac. do 4 f_equal.
  induction Hv as [|kv muts Hkv _ IH]; [done|]. cbn [map fmap list_fmap]. f_equal; [|exact IH].
  unfold Lss.add_to_hmac, mutation_bytes, to_lss, Lss.be_bytes. cbn. by rewrite as_u_i64.
Qed.

Lemma hmac_from_lss secret nonce kvs :
  mutations_hmac secret nonce (map from_lss kvs) = Lss.compute_shared_hmac secret nonce kvs.
Proof.
  unfold Lss.compute_shared_hmac, mutations_hmac. do 4 f_equal.
  induction kvs as [|kv kvs IH]; [done|]. cbn [map fmap list_fmap]. by rewrite <- IH.
Qed.

Lemma conflict_mirror db S kv : sane S -> mirror db S ->
  Lss.conflict db cid kv = Ok (Lss.conflicting (next_revision S) db cid kv).
Proof.
  intros Hs Hm. unfold Lss.conflict, Lss.conflicting, next_revision. rewrite (Hm kv.1).
  destruct (S !! kv.1) as [v|] eqn:Hv; [|done]. cbn. pose proof (Hs _ _ Hv) as Hr. cbn in Hr.
  rewrite as_i64_small by lia. unfold Lss.next_i64.
  destruct (Z.ltb_spec (v.1 + 1) (2 ^ 63)); [done|lia].
Qed.

Lemma put_mirror db S muts h : sane S -> mirror db S -> helper_of_client h ->
  Lss.windows_sorted muts.*1 = true -> Forall (fun kv => 0 <= kv.2.1 < 2 ^ 64) muts ->
  lss_put muts (client_hmac h muts) (lss_client db)
  = match omap (Lss.conflicting (next_revision S) db cid) (map to_lss muts) with
    | [] => (lss_client (foldl (fun db kv => <[Lss.full_key cid kv.1 := kv.2]> db) db (map to_lss muts)),
             Ok (server_hmac h muts))
    | cs => (lss_client db, Err (from_client_error (Lss.PutConflict (Lss.conflict_into <$> cs))))
    end.
Proof.
  intros Hs Hm Hh Hsort Hv. unfold lss_put, Lss.Client_put, client_hmac, server_hmac.
  cbn [lss_auth lss_server lss_db lss_client]. rewrite Hh, <- !hmac_to_lss by done.
  assert (Hk : (map to_lss muts).*1 = muts.*1).
  { clear. induction muts as [|kv muts IH]; [done|]. cbn. by f_equal. }
  rewrite Lss.server_put_client by (done || by rewrite Hk).
  rewrite (Lss.db_put_fold (next_revision S)) by (intros kv; by apply conflict_mirror).
  by destruct (omap _ _).
Qed.

Lemma no_conflicts db S muts : Forall (fun kv => kv.2.1 = next_revision S kv.1 /\ 0 <= kv.2.1 < 2 ^ 63) muts ->
  omap (Lss.conflicting (next_revision S) db cid) (map to_lss muts) = [].
Proof.
  induction 1 as [|kv muts [Hv Hr] _ IH]; [done|]. cbn [map omap list_omap]. unfold Lss.conflicting at 1.
  cbn [to_lss fst snd Lss.version]. rewrite as_i64_small, Hv, Z.eqb_refl by lia. exact IH.
Qed.

Lemma some_conflict db S muts : Forall (fun kv => 0 <= kv.2.1 < 2 ^ 63) muts ->
  Exists (fun kv => kv.2.1 <> next_revision S kv.1) muts ->
  omap (Lss.conflicting (next_revision S) db cid) (map to_lss muts) <> [].
Proof.
  induction 1 as [|kv muts Hr _ IH]; intros He; [by apply Exists_nil in He|].
  cbn [map omap list_omap]. unfold Lss.conflicting at 1.
  cbn [to_lss fst snd Lss.version]. rewrite as_i64_small by lia.
  destruct (Z.eqb_spec kv.2.1 (next_revision S kv.1)); [|done].
  apply Exists_cons in He as [He|He]; [done|by apply IH].
Qed.

Lemma mirror_after db S muts : mirror db S -> NoDup muts.*1 ->
  mirror (foldl (fun db kv => <[Lss.full_key cid kv.1 := kv.2]> db) db (map to_lss muts))
    (list_to_map muts ∪ S).
Proof.
  intros Hm Hnd k. pose proof (Lss.pubkey_is_id client_key Hclient) as Hid.
  assert (Hk : (map to_lss muts).*1 = muts.*1).
  { clear. induction muts as [|kv muts IH]; [done|]. cbn. by f_equal. }
  rewrite Lss.put_lookup, decide_True by (done || by rewrite Hk). rewrite lookup_union.
  assert (Hl : (list_to_map (map to_lss muts) : gmap string Lss.Value) !! k
    = (fun v => (to_lss (k, v)).2) <$> (list_to_map muts : VersionedStore) !! k).
  { clear. induction muts as [|[k' v] muts IH]; [done|]. cbn [map list_to_map foldr to_lss fst snd].
    destruct (decide (k' = k)) as [->|Hne]; [by rewrite !lookup_insert_eq|].
    rewrite !lookup_insert_ne by done. exact IH. }
  rewrite Hl. destruct ((list_to_map muts : VersionedStore) !! k) as [v|]; cbn [fmap option_fmap option_map].
  - by rewrite union_Some_l.
  - rewrite (left_id_L None _). apply Hm.
Qed.

(** ** Reading the state back *)

Lemma scanned_mirror db S (ks : list string) : sane S -> mirror db S ->
  map from_lss (omap (fun key =>
      (String.substring (length cid * 2 + 1) (String.length key - (length cid * 2 + 1)) key,.)
        <$> db !! key) (Lss.full_key cid <$> ks))
  = omap (fun k => (k,.) <$> S !! k) ks.
Proof.
  intros Hs Hm. induction ks as [|k ks IH]; [done|]. cbn [fmap list_fmap omap list_omap].
  rewrite (Hm k), Lss.cut_full_key. destruct (S !! k) as [[v b]|] eqn:Hv; cbn [fmap option_fmap option_map];
    [|exact IH].
  cbn [map]. f_equal; [|exact IH]. unfold from_lss. cbn. rewrite as_u_i64; [done|].
  pose proof (Hs _ _ Hv) as Hr. cbn in Hr. lia.
Qed.

Lemma get_mirror db S nonce : sane S -> mirror db S -> exists l,
  lss_get EmptyString nonce (lss_client db) = Ok (l, mutations_hmac (Lss.the_shared_secret me) nonce l)
  /\ NoDup l.*1 /\ (list_to_map l : VersionedStore) = S.
Proof.
  intros Hs Hm. unfold lss_get. cbn [lss_auth lss_server lss_db lss_client].
  rewrite Lss.Client_get_eval by done. cbn [map_err]. rewrite Ok_bind.
  destruct (Lss.scanned_keys client_key db EmptyString) as (ks & HK & Hks & Hnd & _).
  unfold Lss.db_get_with_prefix. rewrite HK. eexists. split; [by rewrite <- hmac_from_lss|].
  rewrite (scanned_mirror db S ks Hs Hm).
  assert (Hkeys : (omap (fun k => (k,.) <$> S !! k) ks).*1 = ks).
  { assert (Hall : forall k, k ∈ ks -> is_Some (S !! k)).
    { intros k Hk%Hks. destruct Hk as [Hk _]. rewrite (Hm k) in Hk. by apply fmap_is_Some in Hk. }
    clear -Hall. induction ks as [|k ks IH]; [done|]. cbn [omap list_omap].
    destruct (Hall k) as [v ->]; [by left|]. cbn. f_equal. apply IH. intros k' ?. apply Hall. by right. }
  rewrite Hkeys. split; [done|]. apply map_eq. intros k.
  destruct (S !! k) as [v|] eqn:Hv.
  - apply elem_of_list_to_map_1; [by rewrite Hkeys|]. apply list_elem_of_omap. exists k. rewrite Hv.
    split; [|done]. apply Hks. rewrite (Hm k), Hv. split; [by eexists|by destruct k].
  - apply not_elem_of_list_to_map_1. rewrite Hkeys. intros [Hk _]%Hks. rewrite (Hm k), Hv in Hk.
    by destruct Hk.
Qed.

Lemma insert_all_empty (l : Mutations) : NoDup l.*1 -> insert_all l ∅ = list_to_map l.
Proof.
  intros Hnd. unfold insert_all.
  assert (Hg : forall m, foldl (fun (m : VersionedStore) kv => <[kv.1 := kv.2]> m) m l = list_to_map l ∪ m).
  { induction l as [|[k v] l IH]; intros m; cbn [foldl list_to_map foldr fst snd];
      [by rewrite (left_id_L ∅ _)|].
    cbn in Hnd. apply NoDup_cons in Hnd as [Hk Hnd]. rewrite IH by done.
    rewrite <- insert_union_l, insert_union_r; [done|]. by apply not_elem_of_list_to_map_1. }
  rewrite Hg. apply (right_id_L ∅ _).
Qed.

(** A new signer that asks the server gets the state. *)
Lemma init_mirror {E} db S h random : sane S -> mirror db S -> helper_of_client h ->
  init_state (E := E) {| persist_client := lss_client db; ep_state := ∅; ep_helper := h |} random
  = Ok {| persist_client := lss_client db; ep_state := S; ep_helper := h |}.
Proof.
  intros Hs Hm Hh. destruct (get_mirror db S random Hs Hm) as (l & Hget & Hnd & Hl).
  unfold init_state. cbn [new_nonce ep_helper persist_client ep_state ext_get lss_external].
  rewrite Hget. cbn [unwrap_ok]. rewrite Ok_bind. unfold check_hmac. cbn [helper_secret last_nonce].
  rewrite Hh, bool_decide_true by done. cbn [assert_]. rewrite Ok_bind.
  by rewrite insert_all_empty, Hl.
Qed.

(** ** Requests of a signer with the memorizing persister *)

(** In the context [st], every key that differs from [S] was changed once. *)
Definition changed_once S (st : Memo.State) : Prop :=
  (forall k, k ∉ Memo.dirty st -> Memo.store st !! k = S !! k)
  /\ forall k, k ∈ Memo.dirty st -> exists b, Memo.store st !! k = Some (next_revision S k, b).

Lemma get_dirty_spec (st : Memo.State) :
  (forall k, k ∈ Memo.dirty st -> is_Some (Memo.store st !! k)) ->
  exists muts, (forall E, Memo.get_dirty (E := E) st = Ok muts)
    /\ muts.*1 = sort (elements (Memo.dirty st))
    /\ Forall (fun kv => kv.1 ∈ Memo.dirty st /\ Memo.store st !! kv.1 = Some kv.2) muts.
Proof.
  intros Hd. unfold Memo.get_dirty.
  assert (Hks : Forall (fun k => k ∈ Memo.dirty st) (sort (elements (Memo.dirty st)))).
  { rewrite sort_perm. apply Forall_forall. intros k. by rewrite elem_of_elements. }
  assert (Hgen : exists muts, muts.*1 = sort (elements (Memo.dirty st))
    /\ Forall (fun kv => kv.1 ∈ Memo.dirty st /\ Memo.store st !! kv.1 = Some kv.2) muts
    /\ forall E acc, foldM (E := E) (fun res k => v ← unwrap (Memo.store st !! k); Ok (res ++ [(k, v)])) acc
         (sort (elements (Memo.dirty st))) = Ok (acc ++ muts)).
  { induction Hks as [|k ks Hk _ (muts & Hl & Hall & IH)].
    - exists []. split; [done|]. split; [constructor|]. intros E acc. cbn. by rewrite app_nil_r.
    - destruct (Hd k Hk) as [v Hv]. exists ((k, v) :: muts). split; [cbn; by rewrite Hl|].
      split; [by constructor|]. intros E acc. cbn [foldM]. rewrite Hv. cbn [unwrap]. rewrite !Ok_bind, IH.
      by rewrite <- app_assoc. }
  destruct Hgen as (muts & Hl & Hall & Hf). exists muts. split; [|done]. intros E. by rewrite Hf.
Qed.

Lemma sorted_windows (l : list string) : StronglySorted le_ l -> Lss.windows_sorted l = true.
Proof.
  induction 1 as [|k l Hl IH Hk]; [done|]. destruct l as [|k2 l]; [done|].
  cbn [Lss.windows_sorted]. apply Forall_cons in Hk as [Hk _].
  apply andb_true_intro. split; [|exact IH]. apply negb_true_iff.
  unfold lt_, le_ in *. destruct (cmp k2 k) eqn:Hc; try done. by apply cmp_gt_lt in Hc.
Qed.

(** The mutations of a context in which every key was changed at most once. *)
Lemma once_mutations S st : sane S -> changed_once S st -> exists muts,
  (forall E, Memo.get_dirty (E := E) st = Ok muts) /\ NoDup muts.*1 /\ Lss.windows_sorted muts.*1 = true
  /\ Forall (fun kv => kv.2.1 = next_revision S kv.1 /\ 0 <= kv.2.1 < 2 ^ 63) muts
  /\ list_to_map muts ∪ S = Memo.store st.
Proof.
  intros Hs [Hclean Hd].
  destruct (get_dirty_spec st) as (muts & Hm & Hkeys & Hall).
  { intros k Hk. destruct (Hd k Hk) as [b ->]. by eexists. }
  assert (Hnd : NoDup muts.*1) by (rewrite Hkeys, sort_perm; apply NoDup_elements).
  exists muts. split; [done|]. split; [done|]. split; [rewrite Hkeys; apply sorted_windows, sort_sorted|].
  split.
  - eapply Forall_impl; [exact Hall|]. intros [k v] [Hk Hv]. cbn in *. destruct (Hd k Hk) as [b Hb].
    rewrite Hb in Hv. injection Hv as <-. split; [done|]. unfold next_revision. cbn.
    destruct (S !! k) as [v|] eqn:Hv; cbn; [|lia]. pose proof (Hs _ _ Hv) as Hr. cbn in Hr. lia.
  - apply map_eq. intros k. rewrite lookup_union.
    destruct ((list_to_map muts : VersionedStore) !! k) as [v|] eqn:Hk.
    + apply elem_of_list_to_map_2 in Hk. rewrite Forall_forall in Hall.
      destruct (Hall _ Hk) as [_ Hv]. cbn in Hv. by rewrite Hv, union_Some_l.
    + rewrite (left_id_L None _). symmetry. apply Hclean. apply not_elem_of_list_to_map_2 in Hk.
      by rewrite Hkeys, sort_perm, elem_of_elements in Hk.
Qed.

Context `{CL : ChainLib}.
Notation MemoNode := (NSt (option Memo.State)).

(** C21: the external store never falls behind, and gives the state back.  When a
    request of a signer with the memorizing persister changes every key at
    most once, its mutations are accepted by the storage server, whose
    acknowledgement passes the check of the signer; then the server has
    exactly the new state, and a signer that starts with no state of its own
    reads exactly this state from it, whatever nonce it draws.  When some
    version is not the next one, as after two changes of one key in one
    request, the server refuses all the mutations, its state stays, and the
    signer panics. *)
Theorem external_store_mirrors {E} S db h (f : M (option Memo.State) unit) (s s1 : MemoNode) st
  (Hsane : sane S) (Hmirror : mirror db S) (Hhelper : helper_of_client h) (Hout : store s = None)
  (Hf : f {| node := node s; store := Some (Memo.State_new S) |} = (s1, Ok tt))
  (Hin : store s1 = Some st) :
  let self := {| persist_client := lss_client db; ep_state := S; ep_helper := h |} in
  (changed_once S st -> exists db',
     with_persist_context (E := E) self f s
     = ({| persist_client := lss_client db'; ep_state := Memo.store st; ep_helper := h |},
        {| node := node s1; store := None |}, Ok tt)
     /\ mirror db' (Memo.store st)
     /\ (sane (Memo.store st) -> forall random,
          init_state (E := E) {| persist_client := lss_client db'; ep_state := ∅; ep_helper := h |} random
          = Ok {| persist_client := lss_client db'; ep_state := Memo.store st; ep_helper := h |}))
  /\ (forall k v, (forall k, k ∈ Memo.dirty st -> exists v, Memo.store st !! k = Some v /\ 0 <= v.1 < 2 ^ 63) ->
       k ∈ Memo.dirty st -> Memo.store st !! k = Some v -> v.1 <> next_revision S k ->
       persist_client (with_persist_context (E := E) self f s).1.1 = lss_client db
       /\ (with_persist_context (E := E) self f s).2 = Panic).
Proof.
  intros self. unfold self, with_persist_context.
  cbn [ctx_enter memo_context ep_state ep_helper persist_client ext_put lss_external].
  rewrite Hout. cbn [Memo.enter]. rewrite Hf, Hin. cbn [ctx_exit ctx_shared memo_context from_option].
  unfold Memo.exit. cbn [unwrap]. split.
  - intros Honce. destruct (once_mutations S st Hsane Honce) as (muts & Hm & Hnd & Hsort & Hv & Hst).
    rewrite Ok_bind, Hm, Ok_bind, (put_mirror db S muts h) by
      (done || (eapply Forall_impl; [exact Hv|]; cbn; intros ? [_ ?]; lia)).
    rewrite no_conflicts by done. eexists. split.
    { cbn [unwrap_ok]. rewrite Ok_bind, bool_decide_true by done. done. }
    pose proof (mirror_after db S muts Hmirror Hnd) as Hm'. rewrite Hst in Hm'. split; [exact Hm'|].
    intros Hs' random. by apply init_mirror.
  - intros k v Hd Hk Hv Hne.
    destruct (get_dirty_spec st) as (muts & Hm & Hkeys & Hall).
    { intros k' Hk'. destruct (Hd k' Hk') as (? & -> & _). by eexists. }
    assert (Hb : Forall (fun kv => 0 <= kv.2.1 < 2 ^ 63) muts).
    { eapply Forall_impl; [exact Hall|]. intros [k' v'] [Hk' Hv']. cbn in *.
      destruct (Hd k' Hk') as (? & Hv2 & Hr). rewrite Hv' in Hv2. by injection Hv2 as <-. }
    rewrite Ok_bind, Hm, Ok_bind, (put_mirror db S muts h); [|done..| |].
    2: rewrite Hkeys; apply sorted_windows, sort_sorted.
    2: eapply Forall_impl; [exact Hb|]; cbn; lia.
    pose proof (some_conflict db S muts Hb) as Hc.
    destruct (omap _ (map to_lss muts)) as [|c cs]; [|done]. destruct Hc; [|done].
    apply Exists_exists. assert (Hin' : k ∈ muts.*1) by (by rewrite Hkeys, sort_perm, elem_of_elements).
    apply list_elem_of_fmap in Hin' as ([k' v'] & Hk' & Hin'). cbn in Hk'. subst k'. exists (k, v').
    split; [done|]. cbn. rewrite Forall_forall in Hall. destruct (Hall _ Hin') as [_ Hv'].
    cbn in Hv'. rewrite Hv in Hv'. by injection Hv' as <-.
Qed.
End mirror.

(** ** Witness *)

#[local] Existing Instances example_lib example_crypto example_keys example_hex example_profile
  example_lss_laws Tracker.example_chain_lib.

(** A request that writes one value. *)
Definition example_request : M (option Memo.State) unit := fun s =>
  let '(p, r) := Memo.write (store s) (fun st => Memo.insert st Memo.NODE_TRACKER_PREFIX [1] [7]) in
  ({| node := node s; store := p |}, map_err (fun _ => internal_error "persist") r).

Definition example_helper : ExternalPersistHelper :=
  ExternalPersistHelper_new (Lss.the_shared_secret (Lss.the_client (replicate 32 1) (replicate 32 2))).

Lemma external_store_mirrors_witness : exists db',
  (with_persist_context (E := unit)
     {| persist_client := lss_client (replicate 32 1) (replicate 32 2) ∅; ep_state := ∅;
        ep_helper := example_helper |}
     example_request {| node := example_node; store := None |}).2 = Ok tt
  /\ mirror (replicate 32 1) db' {[ "node/tracker/ab" := (0, [7]) ]}.
Proof.
  destruct (external_store_mirrors (E := unit) (replicate 32 1) (replicate 32 2)
    ltac:(by apply example_secret) ltac:(by apply example_secret) ∅ ∅ example_helper example_request
    {| node := example_node; store := None |}
    {| node := example_node; store := Some {| Memo.store := {[ "node/tracker/ab" := (0, [7]) ]};
                                              Memo.dirty := {[ "node/tracker/ab" ]} |} |}
    {| Memo.store := {[ "node/tracker/ab" := (0, [7]) ]}; Memo.dirty := {[ "node/tracker/ab" ]} |})
    as [Hok _].
  - apply map_Forall_empty.
  - by intros k.
  - reflexivity.
  - reflexivity.
  - reflexivity.
  - reflexivity.
  - destruct Hok as (db' & Hrun & Hm & _).
    + split; cbn; intros k Hk.
      * rewrite lookup_singleton_ne by set_solver. done.
      * apply elem_of_singleton in Hk as ->. by eexists.
    + exists db'. split; [by rewrite Hrun|exact Hm].
Defined.
