(* ===== verification/Frontend.v ===== *)
(** * The chain front end (vls-frontend, vls-proxy/src/nodefront.rs)

    The side of the signer that follows the bitcoin chain: a chain follower
    asks a tracker for its tip and feeds it the blocks that the source has
    beyond it, or removes the blocks that were reorganised away, until both
    agree; a heartbeat monitor watches that the signer stays alive.  The
    source of blocks (crate bitcoind_client) and the proofs (crate txoo) are
    parameters.  The tracker is used through the interface [ChainTrack], of
    which the node in the same process is an instance. *)

From S2P Require Import Prelude Velocity Policy Order Extern Crypto Setup Tx Keys Allowlist Script.
From S2P Require Import Secrets Enforcement Validator SimpleValidator NodeState ChannelOps Monitor.
From S2P Require Import Tracker Persist PersistSpec Node NodeInv Msgs Approver Handler Client.

Import NodeOps.

(** ** Heartbeats (heartbeat.rs) *)

Inductive HeartbeatStatus := Fresh | Stale | Missing | Future.

(** What a tick reports to the operator. *)
Inductive Alert := HeartbeatStale | NoHeartbeat | HeartbeatInFuture.

(** The monitor with its [State]. *)
Record HeartbeatMonitor := {
  hm_pubkey : PublicKey;
  notify_interval : Z;
  stale_interval : Z;
  last_timestamp : Z;
  last_heartbeat : option SignedHeartbeat
}.

Section heartbeat.
Context `{L : Lib, CrL : CryptoLib, NL : NodeLib, Prof : Profile} {E : Type}.
Implicit Types self : HeartbeatMonitor.

Definition HeartbeatMonitor_new (net : Network) (pubkey : PublicKey) : HeartbeatMonitor :=
  let '(notify_interval, stale_interval) :=
    match net with
    | Bitcoin => (60, 3600)
    | Testnet => (60, 3600)
    | Regtest => (5, 5)
    | Signet => (5, 5)
    end in
  {| hm_pubkey := pubkey; notify_interval := notify_interval; stale_interval := stale_interval;
     last_timestamp := 0; last_heartbeat := None |}.

Definition heartbeat_status (heartbeat_opt : option SignedHeartbeat) (now stale_interval : Z)
  : outcome E HeartbeatStatus :=
  match heartbeat_opt with
  | Some heartbeat =>
      let heartbeat_ts := current_timestamp (hb_heartbeat heartbeat) in
      if now <? heartbeat_ts then Ok Future
      else
        limit ← add64 heartbeat_ts stale_interval;
        Ok (if limit <? now then Stale else Fresh)
  | None => Ok Missing
  end.

Definition seen_at self (heartbeat : option SignedHeartbeat) (now : Z) : HeartbeatMonitor :=
  {| hm_pubkey := hm_pubkey self; notify_interval := notify_interval self;
     stale_interval := stale_interval self; last_timestamp := now; last_heartbeat := heartbeat |}.

Definition on_heartbeat (heartbeat : SignedHeartbeat) (now : Z) self : outcome E HeartbeatMonitor :=
  ok ← heartbeat_verify heartbeat (hm_pubkey self);
  Ok (if (ok : bool) then seen_at self (Some heartbeat) now else self).

(** A stale or missing heartbeat is reported once per interval. *)
Definition notify (now : Z) (a : Alert) self : outcome E (HeartbeatMonitor * option Alert) :=
  limit ← add64 (last_timestamp self) (notify_interval self);
  Ok (if limit <? now then (seen_at self (last_heartbeat self) now, Some a) else (self, None)).

Definition on_tick (now : Z) self : outcome E (HeartbeatMonitor * option Alert) :=
  status ← heartbeat_status (last_heartbeat self) now (stale_interval self);
  match status with
  | Fresh => Ok (self, None)
  | Stale => notify now HeartbeatStale self
  | Missing => notify now NoHeartbeat self
  | Future => Ok (self, Some HeartbeatInFuture)
  end.
End heartbeat.

(** ** The crates *)

Class FollowLib `{CL : ChainLib} := {
  (** bitcoin *)
  ChainBlock : Type;
  block_header : ChainBlock -> BlockHeader;
  block_serialize : ChainBlock -> bytes;
  (** txoo: a proof that holds a whole block instead, and the block taken out of a proof *)
  proof_of_block : TxoProof -> ChainBlock -> TxoProof;
  take_block : TxoProof -> TxoProof * option ChainBlock;
  (** bitcoind_client *)
  FollowError : Type
}.

Inductive FollowWithProofAction `{FollowLib} :=
| FollowNone
| BlockAdded (block : ChainBlock) (prf : TxoProof)
| BlockReorged (block : ChainBlock) (prf : TxoProof).

Notation Watches := (list Txid * list OutPoint)%type.

(** [SourceWithTxooProofFollower::follow_with_proof]: from the height and the
    hash of the tip, with the watches of the tracker to call for. *)
Class Follower `{FollowLib} :=
  follow_with_proof : forall T : Type, Z -> BlockHash -> CM T FollowError Watches ->
    CM T FollowError Watches -> CM T FollowError FollowWithProofAction.
Arguments follow_with_proof {_ _ _} {T}.

(** ** The interface of a tracker (lib.rs) *)

(** [beat] is given whether the node tracks its payments and the clocks. *)
Class ChainTrack `{L : Lib, CL : ChainLib} (T : Type) := {
  ct_network : T -> Network;
  ct_heartbeat_pubkey {E} : CM T E PublicKey;
  ct_tip_info {E} : CM T E (Z * BlockHash);
  ct_forward_watches {E} : CM T E Watches;
  ct_reverse_watches {E} : CM T E Watches;
  ct_add_block {E} : BlockHeader -> TxoProof -> CM T E unit;
  ct_remove_block {E} : TxoProof -> CM T E unit;
  ct_beat {E} : bool -> Z -> Z -> CM T E SignedHeartbeat
}.

(** ** The chain follower (chain_follower.rs) *)

Inductive State := Scanning | Synced.
Inductive ScheduleNext := Pause | Immediate.

(** The follower, with its tracker. *)
Record ChainFollower (T : Type) := {
  cf_tracker : T;
  heartbeat_monitor : option HeartbeatMonitor;
  cf_state : State;
  test_streaming : bool
}.
Arguments cf_tracker {_}.
Arguments heartbeat_monitor {_}.
Arguments cf_state {_}.
Arguments test_streaming {_}.

(** What an update reads of the outside: whether the node tracks payments, the
    clock of the monitor before and after, and the node's clock. *)
Record Readings := { track_payments : bool; tick_now : Z; beat_now : Z; node_now : Z; node_now' : Z }.

Section follower.
Context `{L : Lib, CrL : CryptoLib, NL : NodeLib, CL : ChainLib, FL : !FollowLib, FW : !Follower}.
Context `{Prof : Profile} {T : Type} `{!ChainTrack T}.
Notation FM := (CM (ChainFollower T) FollowError).

Definition with_tracker (cf : ChainFollower T) (s : T) : ChainFollower T :=
  {| cf_tracker := s; heartbeat_monitor := heartbeat_monitor cf; cf_state := cf_state cf;
     test_streaming := test_streaming cf |}.
Definition with_monitor (cf : ChainFollower T) (m : HeartbeatMonitor) : ChainFollower T :=
  {| cf_tracker := cf_tracker cf; heartbeat_monitor := Some m; cf_state := cf_state cf;
     test_streaming := test_streaming cf |}.
Definition with_state (cf : ChainFollower T) (st : State) : ChainFollower T :=
  {| cf_tracker := cf_tracker cf; heartbeat_monitor := heartbeat_monitor cf; cf_state := st;
     test_streaming := test_streaming cf |}.

Definition on_tracker {R} (m : CM T FollowError R) : FM R :=
  fun cf => let '(s, r) := m (cf_tracker cf) in (with_tracker cf s, r).
Definition set_state (st : State) : FM unit := fun cf => (with_state cf st, Ok tt).

Definition is_test_streaming : FM bool := fun cf => (cf, Ok (test_streaming cf)).

Definition init_monitor (pubkey : PublicKey) : FM HeartbeatMonitor := fun cf =>
  let m := HeartbeatMonitor_new (ct_network (cf_tracker cf)) pubkey in (with_monitor cf m, Ok m).

Definition get_heartbeat_monitor : FM HeartbeatMonitor := fun cf =>
  match heartbeat_monitor cf with
  | Some m => (cf, Ok m)
  | None => (pubkey ← on_tracker ct_heartbeat_pubkey; init_monitor pubkey) cf
  end.

Definition put_monitor (m : HeartbeatMonitor) : FM unit := fun cf => (with_monitor cf m, Ok tt).

Definition do_heartbeat (t : Readings) : FM unit :=
  heartbeat ← on_tracker (ct_beat (track_payments t) (node_now t) (node_now' t));
  m ← get_heartbeat_monitor;
  m ← c_lift (on_heartbeat heartbeat (beat_now t) m);
  put_monitor m.

(** The height of an added block is computed for the log. *)
Definition update (t : Readings) : FM ScheduleNext :=
  m ← get_heartbeat_monitor;
  '(m, _) ← c_lift (on_tick (tick_now t) m);
  put_monitor m;;
  '(height0, hash0) ← on_tracker ct_tip_info;
  action ← on_tracker (follow_with_proof height0 hash0 ct_forward_watches ct_reverse_watches);
  match action with
  | FollowNone =>
      set_state Synced;;
      do_heartbeat t;;
      mret Pause
  | BlockAdded block prf =>
      streaming ← is_test_streaming;
      let prf := if (streaming : bool) then proof_of_block prf block else prf in
      set_state Scanning;;
      c_lift (add32 height0 1);;
      on_tracker (ct_add_block (block_header block) prf);;
      mret Immediate
  | BlockReorged _ prf =>
      on_tracker (ct_remove_block prf);;
      mret Immediate
  end.

(** The inner loop of [run], which ends when an update asks to pause or fails:
    [None] when it takes more than [fuel] updates. *)
Fixpoint run_loop (fuel : nat) (readings : nat -> Readings) (cf : ChainFollower T)
  : option (ChainFollower T * outcome FollowError unit) :=
  match fuel with
  | O => None
  | S fuel =>
      match update (readings fuel) cf with
      | (cf, Ok Pause) => Some (cf, Ok tt)
      | (cf, Ok Immediate) => run_loop fuel readings cf
      | (cf, Err e) => Some (cf, Err e)
      | (cf, Panic) => Some (cf, Panic)
      end
  end.
End follower.

(** ** What trackers and sources promise *)

(** Chains by height; the hash of a block fixes the block before it. *)
Section chains.
Context `{CL : ChainLib}.

(** No two headers with one hash have different parents. *)
Class HashLinks (parent : BlockHash -> BlockHash) : Prop :=
  parent_hash h : parent (header_hash h) = prev_blockhash h.

Definition chain_ok (parent : BlockHash -> BlockHash) (c : list BlockHash) : Prop :=
  forall i x y, c !! i = Some x -> c !! S i = Some y -> parent y = x.

Lemma chain_ok_agree parent c c' : chain_ok parent c -> chain_ok parent c' ->
  forall n x, c !! n = Some x -> c' !! n = Some x -> take (S n) c = take (S n) c'.
Proof.
  intros Hc Hc' n. induction n as [|n IH]; intros x Hx Hx'.
  - destruct c, c'; try done. by injection Hx as ->; injection Hx' as ->.
  - rewrite (take_S_r _ _ x), (take_S_r _ (S n) x) by done. f_equal.
    destruct (lookup_lt_is_Some_2 c n) as [y Hy]; [apply lookup_lt_Some in Hx; lia|].
    destruct (lookup_lt_is_Some_2 c' n) as [y' Hy']; [apply lookup_lt_Some in Hx'; lia|].
    apply (IH y); [done|]. rewrite Hy'. f_equal.
    by rewrite <- (Hc _ _ _ Hy Hx), <- (Hc' _ _ _ Hy' Hx').
Qed.

Lemma chain_ok_snoc parent c x y : chain_ok parent c -> last c = Some x -> parent y = x ->
  chain_ok parent (c ++ [y]).
Proof.
  intros Hc Hl Hp i a b Ha Hb. apply lookup_snoc_Some in Hb as [[Hi Hb]|[Hi <-]].
  - rewrite lookup_app_l in Ha by lia. by eapply Hc.
  - rewrite lookup_app_l in Ha by lia. rewrite last_lookup in Hl.
    rewrite <- Hi in Hl. cbn in Hl. congruence.
Qed.

Lemma chain_ok_app parent c c' : chain_ok parent (c ++ c') -> chain_ok parent c.
Proof. intros Hc i x y Hx Hy. eapply (Hc i); by apply lookup_app_l_Some. Qed.
End chains.

Section laws.
Context `{L : Lib, CrL : CryptoLib, NL : NodeLib, CL : ChainLib, FL : !FollowLib, FW : !Follower}.
Context `{Prof : Profile} {T : Type} `{!ChainTrack T} (parent : BlockHash -> BlockHash).

(** A tracker whose chain, from the genesis block, [R] tells. *)
Class TrackLaws (R : T -> list BlockHash -> Prop) : Prop := {
  track_chain s c : R s c -> chain_ok parent c;
  track_pubkey E s c : R s c -> R (ct_heartbeat_pubkey (E := E) s).1 c;
  track_tip E s c : R s c -> R (ct_tip_info (E := E) s).1 c
    /\ forall h hash, (ct_tip_info (E := E) s).2 = Ok (h, hash) ->
       h = Z.of_nat (length c) - 1 /\ last c = Some hash;
  track_forward E s c : R s c -> R (ct_forward_watches (E := E) s).1 c;
  track_reverse E s c : R s c -> R (ct_reverse_watches (E := E) s).1 c;
  track_add E s c header prf s' : R s c -> Z.of_nat (length c) < 2 ^ 32 ->
    ct_add_block (E := E) header prf s = (s', Ok tt) ->
    R s' (c ++ [header_hash header]);
  track_remove E s c prf s' : R s c -> ct_remove_block (E := E) prf s = (s', Ok tt) ->
    exists c' x, c = c' ++ [x] /\ R s' c';
  track_beat E tw now now' s c s' b : R s c -> ct_beat (E := E) tw now now' s = (s', Ok b) -> R s' c
}.

(** What a source that has [chain] answers to a tracker whose tip is [hash] at
    height [h]. *)
Definition follows (chain : list BlockHash) (h : Z) (hash : BlockHash) (a : FollowWithProofAction) : Prop :=
  match a with
  | FollowNone => chain !! Z.to_nat h = Some hash /\ length chain = S (Z.to_nat h)
  | BlockAdded b _ => chain !! Z.to_nat h = Some hash
      /\ chain !! S (Z.to_nat h) = Some (header_hash (block_header b))
  | BlockReorged _ _ => chain !! Z.to_nat h <> Some hash
  end.

(** It only calls the tracker for its watches. *)
Class SourceLaws (chain : list BlockHash) : Prop :=
  source_follows (T' : Type) (I : T' -> Prop) h hash (fw rw : CM T' FollowError Watches) s :
    (forall s, I s -> I (fw s).1) -> (forall s, I s -> I (rw s).1) -> I s ->
    I (follow_with_proof h hash fw rw s).1
    /\ forall a, (follow_with_proof h hash fw rw s).2 = Ok a -> follows chain h hash a.
End laws.

(** ** The follower ends in sync *)

Section termination.
Context `{L : Lib, CrL : CryptoLib, NL : NodeLib, CL : ChainLib, FL : !FollowLib, FW : !Follower}.
Context `{Prof : Profile} {T : Type} `{!ChainTrack T} (parent : BlockHash -> BlockHash).
Context (R : T -> list BlockHash -> Prop) `{TL : !TrackLaws parent R}.
Context (chain : list BlockHash) `{SrL : !SourceLaws chain} (Hchain : chain_ok parent chain).
Context (Hsize : Z.of_nat (length chain) < 2 ^ 32).
Implicit Types cf : ChainFollower T.

Definition at_chain c cf : Prop := R (cf_tracker cf) c.

Lemma C_bind_inv {X A B} (m : CM X FollowError A) (f : A -> CM X FollowError B) s s' r :
  (m ≫= f) s = (s', r) ->
  (exists s1 a, m s = (s1, Ok a) /\ f a s1 = (s', r)) \/ (exists o, r = o /\ forall b, o <> Ok b).
Proof.
  unfold mbind, C_bind. destruct (m s) as [s1 [a|e|]]; intros Hb.
  - left. by exists s1, a.
  - right. injection Hb as <- <-. by eexists.
  - right. injection Hb as <- <-. by eexists.
Qed.

Lemma bind_ok {X A B} (m : CM X FollowError A) (f : A -> CM X FollowError B) s s' b :
  (m ≫= f) s = (s', Ok b) -> exists s1 a, m s = (s1, Ok a) /\ f a s1 = (s', Ok b).
Proof. intros [H'|(o & <- & Hn)]%C_bind_inv; [done|]. by destruct (Hn b). Qed.

Lemma on_tracker_ok {A} (m : CM T FollowError A) cf cf' a : on_tracker m cf = (cf', Ok a) ->
  m (cf_tracker cf) = (cf_tracker cf', Ok a) /\ cf_state cf' = cf_state cf.
Proof. unfold on_tracker. destruct (m _) as [s r] eqn:Hm. by intros [= <- ->]. Qed.

Lemma monitor_at c cf cf' m : at_chain c cf -> get_heartbeat_monitor cf = (cf', Ok m) ->
  at_chain c cf' /\ cf_state cf' = cf_state cf.
Proof.
  unfold get_heartbeat_monitor, at_chain. intros Hc.
  destruct (heartbeat_monitor cf); [by intros [= <- _]|].
  intros (cf1 & pk & [Hp Hst]%on_tracker_ok & [= <- _])%bind_ok. cbn [cf_tracker cf_state with_monitor].
  split; [|done]. pose proof (track_pubkey parent FollowError _ _ Hc) as Hr. by rewrite Hp in Hr.
Qed.

Lemma do_heartbeat_at t c cf cf' u : at_chain c cf -> do_heartbeat t cf = (cf', Ok u) ->
  at_chain c cf' /\ cf_state cf' = cf_state cf.
Proof.
  intros Hc (cf1 & hb & [Hb Hs1]%on_tracker_ok & H')%bind_ok.
  apply bind_ok in H' as (cf2 & m & Hm & H'). apply bind_ok in H' as (cf3 & m' & [= <- _] & [= <- <-]).
  apply (monitor_at c) in Hm as [Hc2 Hs2]; [|exact (track_beat parent _ _ _ _ _ _ _ _ Hc Hb)].
  split; [done|]. cbn. congruence.
Qed.

(** A chain whose tip the source has is a part of the source's. *)
Lemma tip_facts c h hash : chain_ok parent c -> h = Z.of_nat (length c) - 1 -> last c = Some hash ->
  c !! Z.to_nat h = Some hash /\ length c = S (Z.to_nat h)
  /\ (chain !! Z.to_nat h = Some hash -> c = take (S (Z.to_nat h)) chain).
Proof.
  intros Hc Hh Hl. assert (Hn : c <> []) by (by intros ->).
  assert (Hlast : c !! Z.to_nat h = Some hash).
  { rewrite <- Hl, last_lookup. f_equal. destruct c; [done|]. cbn in *. lia. }
  assert (Hlen : length c = S (Z.to_nat h)) by (destruct c; cbn in *; [done|lia]).
  split; [done|]. split; [done|]. intros Hch.
  rewrite <- (chain_ok_agree parent c chain Hc Hchain _ _ Hlast Hch). by rewrite firstn_all2 by lia.
Qed.

(** Where an update leaves the follower. *)
Lemma update_ok t c cf cf' next : at_chain c cf -> update t cf = (cf', Ok next) ->
  match next with
  | Pause => cf_state cf' = Synced /\ at_chain c cf' /\ c = chain
  | Immediate =>
      (exists x, at_chain (c ++ [x]) cf' /\ (c ++ [x]) `prefix_of` chain)
      \/ (exists c' x, c = c' ++ [x] /\ at_chain c' cf' /\ ~ c `prefix_of` chain)
  end.
Proof.
  intros Hc Hu. unfold update in Hu.
  apply bind_ok in Hu as (cf1 & m & Hm & Hu). apply (monitor_at c) in Hm as [Hc1 _]; [|done].
  apply bind_ok in Hu as (cf2 & [m' al] & [= <- _] & Hu).
  apply bind_ok in Hu as (cf3 & [] & [= <-] & Hu).
  apply bind_ok in Hu as (cf4 & [h hash] & [Ht _]%on_tracker_ok & Hu).
  cbn [cf_tracker with_monitor] in Ht.
  pose proof (track_tip parent FollowError _ _ Hc1) as [Hc4 Htip]. rewrite Ht in Hc4, Htip.
  destruct (Htip h hash eq_refl) as [Hh Hl]. cbn [fst] in Hc4.
  apply bind_ok in Hu as (cf5 & a & [Ha _]%on_tracker_ok & Hu).
  destruct (source_follows (chain := chain) T (fun s => R s c) h hash ct_forward_watches
    ct_reverse_watches (cf_tracker cf4)) as [Hc5 Hf];
    [intros s; apply (track_forward parent)|intros s; apply (track_reverse parent)|done|].
  rewrite Ha in Hc5, Hf. cbn [fst] in Hc5. specialize (Hf a eq_refl).
  destruct (tip_facts c h hash) as (Hlast & Hlen & Hpre); [by apply (track_chain parent _ _ Hc)|done..|].
  destruct a as [|b prf|b prf]; cbn [follows] in Hf.
  - destruct Hf as [Hch Hle]. apply bind_ok in Hu as (cf6 & [] & [= <-] & Hu).
    apply bind_ok in Hu as (cf7 & [] & Hd & [= <- <-]).
    apply (do_heartbeat_at _ c) in Hd as [Hc7 Hs7]; [|exact Hc5].
    split; [done|]. split; [done|]. rewrite Hpre, firstn_all2 by (done || lia). done.
  - destruct Hf as [Hch Hnext].
    apply bind_ok in Hu as (? & st & [= <- _] & Hu). apply bind_ok in Hu as (cf6 & [] & [= <-] & Hu).
    apply bind_ok in Hu as (? & ? & [= <- _] & Hu).
    apply bind_ok in Hu as (cf7 & [] & [Hadd _]%on_tracker_ok & [= <- <-]).
    left. exists (header_hash (block_header b)). split.
    { refine (track_add parent _ _ _ _ _ _ Hc5 _ Hadd). apply lookup_lt_Some in Hch. lia. }
    rewrite (Hpre Hch), <- (take_S_r _ _ _ Hnext). apply prefix_take.
  - apply bind_ok in Hu as (cf6 & [] & [Hrem _]%on_tracker_ok & [= <- <-]).
    destruct (track_remove parent _ _ _ _ _ Hc5 Hrem) as (c' & x & -> & Hc6).
    right. exists c', x. split; [done|]. split; [done|]. intros [k Hk]. apply Hf.
    rewrite Hk, lookup_app_l by (rewrite Hlen; lia). done.
Qed.

(** Once the tracker has only blocks of the source, every update adds one. *)
Lemma run_forward readings fuel c cf : at_chain c cf -> c `prefix_of` chain ->
  (length chain - length c < fuel)%nat ->
  exists cf' r, run_loop fuel readings cf = Some (cf', r)
    /\ (r = Ok tt -> cf_state cf' = Synced /\ at_chain chain cf').
Proof.
  revert c cf. induction fuel as [|fuel IH]; intros c cf Hc Hp Hf; [lia|]. cbn [run_loop].
  destruct (update (readings fuel) cf) as [cf' [[]|e|]] eqn:Hu; [| |by eexists _, _..].
  - apply (update_ok _ c) in Hu as (Hs & Hc' & ->); [|done]. by eexists _, _.
  - apply (update_ok _ c) in Hu as [(x & Hc' & Hp')|(c' & x & _ & _ & Hn)]; [|done..].
    apply (IH _ _ Hc' Hp'). pose proof (prefix_length _ _ Hp') as Hl. rewrite length_app in *. cbn in *. lia.
Qed.

(** C20: following the chain ends.  Whatever the tracker's chain, if all but its
    last [d] blocks are blocks of the source, the inner loop of [run] ends
    within [d] removals, one addition for every block of the source above the
    fork and one update that finds nothing to do; and unless the source or the
    tracker fails on the way, it ends in the state [Synced] with the tracker's
    chain equal to the source's. *)
Theorem chain_follower_syncs readings fuel d c cf (Hc : at_chain c cf)
  (Hfork : take (length c - d) c `prefix_of` chain)
  (Hfuel : (d + (length chain - (length c - d)) < fuel)%nat) :
  exists cf' r, run_loop fuel readings cf = Some (cf', r)
    /\ (r = Ok tt -> cf_state cf' = Synced /\ at_chain chain cf').
Proof.
  revert d c cf Hc Hfork Hfuel. induction fuel as [|fuel IH]; intros d c cf Hc Hfork Hfuel; [lia|].
  cbn [run_loop].
  destruct (update (readings fuel) cf) as [cf' [[]|e|]] eqn:Hu; [| |by eexists _, _..].
  - apply (update_ok _ c) in Hu as (Hs & Hc' & ->); [|done]. by eexists _, _.
  - apply (update_ok _ c) in Hu as [(x & Hc' & Hp')|(c' & x & -> & Hc' & Hn)]; [| |done].
    + apply (run_forward _ _ _ _ Hc' Hp'). pose proof (prefix_length _ _ Hp').
      rewrite length_app in *. cbn in *. lia.
    + destruct d as [|d].
      { destruct Hn. by rewrite Nat.sub_0_r, firstn_all in Hfork. }
      rewrite length_app in *. cbn [length] in *.
      replace (length c' + 1 - S d)%nat with (length c' - d)%nat in * by lia.
      rewrite take_app_le in Hfork by lia. apply (IH d c'); [done..|lia].
Qed.
End termination.
