(* ===== verification/NodeFront.v ===== *)
(** * The node behind the chain front end (vls-proxy/src/nodefront.rs)

    The tracker that the chain follower feeds when the node is in the same
    process: a block is streamed to the tracker when its proof holds it, then
    added or removed, and the tracker is persisted, through the external
    store when there is one. *)

From S2P Require Import Prelude Velocity Policy Order Extern Crypto Setup Tx Keys Lss Allowlist Script.
From S2P Require Import Secrets Enforcement Validator SimpleValidator NodeState ChannelOps Monitor.
From S2P Require Import Tracker Persist PersistSpec Node NodeInv Msgs Approver Handler Client External.
From S2P Require Import NodeRestart Frontend.

Import NodeOps.

Section stream.
Context `{CL : ChainLib, FL : !FollowLib, Prof : Profile} {Lst : Type} `{!ChainListener Lst} {E : Type}.
Notation Tracker := (ChainTracker Lst).

Definition stream_chunk (hash : BlockHash) (st : Tracker * Z) (chunk : bytes) : outcome E (Tracker * Z) :=
  let '(tracker, offset) := st in
  tracker ← unwrap_ok (Tracker.block_chunk (E := unit) tracker hash offset chunk);
  offset ← add32 offset (as_u 32 (Z.of_nat (length chunk)));
  Ok (tracker, offset).

(** [NodeFront::maybe_stream_block] *)
Definition maybe_stream_block (tracker : Tracker) (prf : TxoProof) : outcome E (Tracker * TxoProof) :=
  let '(prf, block_opt) := take_block prf in
  match block_opt with
  | Some block =>
      '(tracker, _) ← foldM (stream_chunk (header_hash (block_header block))) (tracker, 0)
                        (chunks 23 (block_serialize block));
      Ok (tracker, prf)
  | None => Ok (tracker, prf)
  end.
End stream.

Record NodeFront `{L : Lib, !KeyLib, CL : ChainLib} (P X : Type) := {
  nf_node : NSt P;
  nf_heartbeat_pubkey : PublicKey;
  nf_external : option (ExternalPersistWithHelper X)
}.
Arguments nf_node {_ _ _ P X}.
Arguments nf_heartbeat_pubkey {_ _ _ P X}.
Arguments nf_external {_ _ _ P X}.

Section front.
Context `{L : Lib, CrL : CryptoLib, !KeyLib, CL : ChainLib, AL : AddressLib, IL : InvoiceLib}.
Context `{CkL : CheckpointLib, NL : NodeLib, SL : SerLib, FL : !FollowLib, Prof : Profile}.
Context {P : Type} `{!Persist P, !PersistContext P} {X : Type} `{!ExternalPersist X}.
Implicit Types self : NodeFront P X.

Definition NodeFront_new (n : NSt P) (external_persist : option (ExternalPersistWithHelper X))
  : NodeFront P X :=
  {| nf_node := n;
     nf_heartbeat_pubkey :=
       pubkey_from_secret_key (private_key (Keys.account_extended_key (keys_manager (node n))));
     nf_external := external_persist |}.

Definition do_add_block (header : BlockHeader) (prf : TxoProof) : M P unit :=
  self ← get_node;
  '(t, prf) ← lift (maybe_stream_block (tracker self) prf);
  '(t, _) ← lift (unwrap_ok (Tracker.add_block t header prf));
  put_node (set_tracker self t);;
  persist_expect (fun p => persist_update_tracker p (node_id self) t).

Definition do_remove_block (prf : TxoProof) : M P unit :=
  self ← get_node;
  '(t, prf) ← lift (maybe_stream_block (tracker self) prf);
  '(t, _) ← lift (unwrap_ok (Tracker.remove_block t prf));
  put_node (set_tracker self t);;
  persist_expect (fun p => persist_update_tracker p (node_id self) t).

Definition with_node self (s : NSt P) (ext : option (ExternalPersistWithHelper X)) : NodeFront P X :=
  {| nf_node := s; nf_heartbeat_pubkey := nf_heartbeat_pubkey self; nf_external := ext |}.

(** A request of the node, in a context of the external store if there is one. *)
Definition nf_request {E} (f : M P unit) : CM (NodeFront P X) E unit := fun self =>
  match nf_external self with
  | Some external_persist =>
      let '(ext, s, r) := with_persist_context external_persist f (nf_node self) in
      (with_node self s (Some ext), r)
  | None => let '(s, r) := f (nf_node self) in (with_node self s None, unwrap_ok r)
  end.

Definition nf_tracker self : NodeTracker := tracker (node (nf_node self)).

Definition nf_watches (w : gset Txid * gset OutPoint) : Watches := (elements w.1, elements w.2).

#[global] Instance node_front : ChainTrack (NodeFront P X) := {|
  ct_network self := node_network (node (nf_node self));
  ct_heartbeat_pubkey E self := (self, Ok (nf_heartbeat_pubkey self));
  ct_tip_info E self := (self, Ok (height (nf_tracker self), header_hash (tip (nf_tracker self)).1));
  ct_forward_watches E self :=
    (self, Ok (nf_watches (Tracker.get_all_forward_watches (nf_tracker self))));
  ct_reverse_watches E self :=
    (self, Ok (nf_watches (Tracker.get_all_reverse_watches (nf_tracker self))));
  ct_add_block E header prf := nf_request (do_add_block header prf);
  ct_remove_block E prf := nf_request (do_remove_block prf);
  ct_beat E tw now now' self :=
    let '(s, r) := get_heartbeat tw now now' (nf_node self) in
    (with_node self s (nf_external self), unwrap_ok r) |}.
End front.

(** ** The tracker's chain *)

Section chain.
Context `{CL : ChainLib, FL : !FollowLib, Prof : Profile} {Lst : Type} `{!ChainListener Lst}.
Context (parent : BlockHash -> BlockHash) `{HP : !HashLinks parent}.
Notation Tracker := (ChainTracker Lst).
Implicit Types t : Tracker.

(** Only the listeners and the block being decoded differ. *)
Definition same_chain t t' : Prop := headers t' = headers t /\ tip t' = tip t /\ height t' = height t.

#[global] Instance same_chain_PreOrder : PreOrder same_chain.
Proof. split; [done|]. intros t1 t2 t3 (? & ? & ?) (? & ? & ?). repeat split; congruence. Qed.

Lemma for_each_same {E} t (f : Lst * ListenSlot -> outcome E (Lst * ListenSlot)) t' :
  Tracker.for_each_listener t f = Ok t' -> same_chain t t'.
Proof. intros Hf. unfold Tracker.for_each_listener in Hf. by apply bind_Ok in Hf as (ls & _ & [= <-]). Qed.

Lemma block_chunk_same {E} t hash off chunk t' :
  Tracker.block_chunk (E := E) t hash off chunk = Ok t' -> same_chain t t'.
Proof.
  intros Hb. unfold Tracker.block_chunk in Hb. apply bind_Ok in Hb as (t1 & Ht1 & Hb).
  assert (Hs1 : same_chain t t1).
  { destruct (off =? 0); [|by injection Ht1 as <-]. by apply bind_Ok in Ht1 as (? & _ & [= <-]). }
  destruct (decode_state t1) as [d|]; [|done].
  apply bind_Ok in Hb as (? & _ & Hb). apply bind_Ok in Hb as (? & _ & Hb).
  apply bind_Ok in Hb as ([dec evs] & _ & Hb). apply bind_Ok in Hb as (t2 & Ht2 & Hb).
  apply bind_Ok in Hb as (o & _ & [= <-]). etrans; [exact Hs1|].
  refine (foldM_inv (fun _ t2 => same_chain t1 t2) _ _ _ _ _ _ Ht2); [done|].
  intros pre ev t3 t4 H3 Hp. unfold Tracker.push_event in Hp. apply bind_Ok in Hp as (? & _ & Hp).
  etrans; [exact H3|]. by eapply for_each_same.
Qed.

Lemma stream_same {E} t prf t' prf' : maybe_stream_block (E := E) t prf = Ok (t', prf') -> same_chain t t'.
Proof.
  unfold maybe_stream_block. destruct (take_block prf) as [p [b|]]; [|by intros [= <- _]].
  intros ([t1 o] & Hf & [= <- _])%bind_Ok.
  refine (foldM_inv (fun _ st => same_chain t st.1) _ _ _ _ _ _ Hf); [done|].
  intros pre c [t2 o2] [t3 o3] H2 Hs. unfold stream_chunk in Hs.
  apply bind_Ok in Hs as (t4 & H4%(proj1 (unwrap_ok_Ok _ _)) & Hs). apply bind_Ok in Hs as (o4 & _ & [= <- _]).
  etrans; [exact H2|]. by eapply block_chunk_same.
Qed.

Lemma finish_same {E} t prf hash t' :
  Tracker.maybe_finish_decoding_block (E := E) t prf hash = Ok t' -> same_chain t t'.
Proof.
  unfold Tracker.maybe_finish_decoding_block. intros (? & _ & Hm)%bind_Ok.
  destruct (decode_state t) as [d|]; [|by injection Hm as <-].
  apply bind_Ok in Hm as (? & _ & Hm). by apply bind_Ok in Hm as (? & _ & [= <-]).
Qed.

Lemma notify_same t prf t' notify : (forall txs t', notify txs = Ok t' -> same_chain t t') ->
  Tracker.notify_proof prf notify = Ok t' -> same_chain t t'.
Proof. intros Hn. unfold Tracker.notify_proof. by destruct (proof prf); eauto. Qed.

(** What a tracker does to its chain. *)
Lemma add_block_chain t header prf t' : Tracker.add_block t header prf = Ok (t', tt) ->
  prev_blockhash header = header_hash (tip t).1 /\ (tip t').1 = header
  /\ headers t' = tip t :: take (MAX_REORG_SIZE - 1) (headers t)
  /\ (0 <= height t < 2 ^ 32 - 1 -> height t' = height t + 1).
Proof.
  intros Ha. unfold Tracker.add_block in Ha. apply bind_Ok in Ha as (t1 & (H1h & H1t & H1g)%finish_same & Ha).
  apply bind_Ok in Ha as ([] & Hv & Ha). apply bind_Ok in Ha as (t2 & Hn & Ha).
  apply bind_Ok in Ha as (h & Hh & [= <-]).
  apply (notify_same t1) in Hn as (H2h & H2t & H2g); [|intros txs t3; apply for_each_same].
  destruct (Tracker.validate_block _ _ _ _ _ _ _) as [[]|e|] eqn:Hval; try done.
  apply Tracker.validate_block_linked in Hval as [Hlink _]. cbn [fst] in Hlink.
  cbn [Tracker.set_chain tip headers height fst]. rewrite <- H1t, Hlink. split; [done|]. split; [done|].
  rewrite H2t, H2h, H1h. split; [done|]. intros Hr. rewrite H2g, H1g, add32_in in Hh by lia.
  by injection Hh as <-.
Qed.

Lemma remove_block_chain t prf t' h : Tracker.remove_block t prf = Ok (t', h) ->
  headers t = tip t' :: headers t' /\ (0 < height t < 2 ^ 32 -> height t' = height t - 1).
Proof.
  intros Ha. unfold Tracker.remove_block in Ha. destruct (headers t) as [|prev rest]; [done|].
  apply bind_Ok in Ha as (t1 & (_ & _ & H1g)%finish_same & Ha).
  apply bind_Ok in Ha as (h1 & _ & Ha). apply bind_Ok in Ha as ([] & _ & Ha).
  apply bind_Ok in Ha as (t2 & Hn & Ha). apply bind_Ok in Ha as (h2 & Hh & [= <- _]).
  apply (notify_same t1) in Hn as (_ & _ & H2g); [|intros txs t3; apply for_each_same].
  split; [done|]. intros Hr. rewrite H2g, H1g, sub32_in in Hh by lia. by injection Hh as <-.
Qed.

(** The tracker's headers are the top of the chain [c]. *)
Record tracks t (c : list BlockHash) : Prop := {
  tk_chain : chain_ok parent c;
  tk_top : reverse ((fun h : Headers => header_hash h.1) <$> tip t :: headers t) `suffix_of` c;
  tk_height : height t = Z.of_nat (length c) - 1;
  tk_size : Z.of_nat (length c) <= 2 ^ 32
}.

Lemma tracks_same t t' c : same_chain t t' -> tracks t c -> tracks t' c.
Proof. intros (Hh & Ht & Hg) [? ? ? ?]. split; by rewrite ?Hh, ?Ht, ?Hg. Qed.

Lemma tracks_last t c : tracks t c -> last c = Some (header_hash (tip t).1).
Proof.
  intros [_ [k ->] _ _]. cbn [fmap list_fmap]. rewrite reverse_cons, (assoc_L (++)). apply last_snoc.
Qed.

Lemma tracks_add t c header prf t' : tracks t c -> Z.of_nat (length c) < 2 ^ 32 ->
  Tracker.add_block t header prf = Ok (t', tt) -> tracks t' (c ++ [header_hash header]).
Proof.
  intros Ht Hs (Hp & Htip & Hh & Hg)%add_block_chain. pose proof (tracks_last _ _ Ht) as Hl.
  destruct Ht as [Hc [k Hk] Hht Hsz].
  assert (Hlen : (0 < length c)%nat) by (destruct c; [done|cbn; lia]). split.
  - apply (chain_ok_snoc parent _ (header_hash (tip t).1)); [done..|]. by rewrite (parent_hash header).
  - rewrite Hh, <- Htip. set (f := fun h : Headers => header_hash h.1) in *.
    exists (k ++ reverse (f <$> drop (MAX_REORG_SIZE - 1) (headers t))).
    rewrite Hk, <- (take_drop (MAX_REORG_SIZE - 1) (headers t)) at 1.
    rewrite !fmap_cons, fmap_app, !reverse_cons, reverse_app, <- !(assoc_L (++)). done.
  - rewrite Hg, Hht, length_app by lia. cbn. lia.
  - rewrite length_app. cbn. lia.
Qed.

Lemma tracks_remove t c prf t' h : tracks t c -> Tracker.remove_block t prf = Ok (t', h) ->
  exists c' x, c = c' ++ [x] /\ tracks t' c'.
Proof.
  intros [Hc [k Hk] Hht Hsz] [Hh Hg]%remove_block_chain.
  rewrite Hh in Hk. cbn [fmap list_fmap] in Hk. rewrite !reverse_cons, !(assoc_L (++)) in Hk.
  eexists _, _. split; [exact Hk|]. split.
  - by eapply chain_ok_app; rewrite <- Hk.
  - cbn [fmap list_fmap]. rewrite reverse_cons, <- (assoc_L (++)). by eexists.
  - rewrite Hk in *. rewrite !length_app in *. cbn in *. rewrite Hg; lia.
  - rewrite Hk in *. rewrite !length_app in *. cbn in *. lia.
Qed.
End chain.

(** ** The node is a tracker *)

Section laws.
Context `{L : Lib, CrL : CryptoLib, !KeyLib, CL : ChainLib, AL : AddressLib, IL : InvoiceLib}.
Context `{CkL : CheckpointLib, NL : NodeLib, SL : SerLib, FL : !FollowLib, Prof : Profile}.
Context {P : Type} `{!Persist P, !PersistContext P} {X : Type} `{!ExternalPersist X}.
Context (parent : BlockHash -> BlockHash) `{HP : !HashLinks parent}.
Implicit Types self : NodeFront P X.

Definition front_tracks self (c : list BlockHash) : Prop := tracks parent (nf_tracker self) c.

(** The node that a request that succeeds leaves. *)
Lemma request_ok {E} (f : M P unit) self self' : nf_request (E := E) f self = (self', Ok tt) ->
  exists p s', f {| node := node (nf_node self); store := p |} = (s', Ok tt)
    /\ node (nf_node self') = node s'.
Proof.
  unfold nf_request. destruct (nf_external self) as [ext|].
  - unfold with_persist_context. destruct (ctx_enter _ _) as [p|e|]; [|done..].
    destruct (f _) as [s' [[]|e|]] eqn:Hf; [|done..].
    destruct (ctx_exit _) as [[p' muts]|e|]; [|done..].
    destruct (ext_put _ _ _) as [client r]. intros [= <- _]. by eexists _, _.
  - destruct (f (nf_node self)) as [s' [[]|e|]] eqn:Hf; [|done..]. intros [= <-].
    exists (store (nf_node self)), s'. by destruct (nf_node self).
Qed.

Lemma do_add_block_ok header prf s s' : do_add_block header prf s = (s', Ok tt) -> exists t prf',
  same_chain (tracker (node s)) t
  /\ Tracker.add_block t header prf' = Ok (tracker (node s'), tt).
Proof.
  intros Hd. unfold do_add_block in Hd. inv_M Hd. destruct x as [t prf']. inv_M Hd.
  destruct x as [t' []]. inv_M Hd. exists t, prf'. by split; [eapply stream_same|].
Qed.

Lemma do_remove_block_ok prf s s' : do_remove_block prf s = (s', Ok tt) -> exists t prf' h,
  same_chain (tracker (node s)) t /\ Tracker.remove_block t prf' = Ok (tracker (node s'), h).
Proof.
  intros Hd. unfold do_remove_block in Hd. inv_M Hd. destruct x as [t prf']. inv_M Hd.
  destruct x as [t' h]. inv_M Hd. exists t, prf', h. by split; [eapply stream_same|].
Qed.

Lemma prune_channels_tracker (s s' : NSt P) h u : prune_channels h s = (s', Ok u) ->
  tracker (node s') = tracker (node s).
Proof.
  intros Hop. unfold prune_channels in Hop. apply M_bind_Ok in Hop as (s1 & n & [= <- <-] & Hop).
  refine (loop_inv (fun _ s1 => tracker (node s1) = tracker (node s)) _ _ _ _ _ _ Hop _ _).
  - by intros s1 [= <-].
  - intros id rest s1 s2 Hs1 Hf. by inv_M Hf.
Qed.

Lemma get_heartbeat_tracker s tw now now' s' h : get_heartbeat tw now now' s = (s', Ok h) ->
  tracker (node s') = tracker (node s).
Proof.
  intros Hop. unfold get_heartbeat in Hop. inv_M Hop. destruct x as [st1 b1]. inv_M Hop.
  destruct x as [st2 b2]. inv_M Hop. destruct x as [st3 b3]. inv_M Hop.
  match goal with Hp : prune_channels _ _ = _ |- _ => by apply prune_channels_tracker in Hp end.
Qed.

#[global] Instance node_front_laws : TrackLaws parent front_tracks.
Proof.
  split.
  - by intros s c [].
  - done.
  - intros E s c Hr. split; [done|]. intros h hash [= <- <-].
    split; [by apply (tk_height parent)|by apply (tracks_last parent)].
  - done.
  - done.
  - intros E s c header prf s' Hr Hb (p & s1 & Hf & Hn)%request_ok.
    apply do_add_block_ok in Hf as (t & prf' & Hs & Ha). unfold front_tracks, nf_tracker. rewrite Hn.
    eapply (tracks_add parent); [|done|exact Ha]. by eapply tracks_same.
  - intros E s c prf s' Hr (p & s1 & Hf & Hn)%request_ok.
    apply do_remove_block_ok in Hf as (t & prf' & h & Hs & Ha). unfold front_tracks, nf_tracker. rewrite Hn.
    eapply (tracks_remove parent); [|exact Ha]. by eapply tracks_same.
  - intros E tw now now' s c s' b Hr Hb. cbn in Hb.
    destruct (get_heartbeat tw now now' (nf_node s)) as [s1 [h|e|]] eqn:Hg; [|done..].
    injection Hb as <- _. unfold front_tracks, nf_tracker. cbn [nf_node with_node].
    by rewrite (get_heartbeat_tracker _ _ _ _ _ _ Hg).
Qed.
End laws.

(** ** Heartbeats outside of a context *)

Section heartbeat.
Context `{L : Lib, CrL : CryptoLib, !KeyLib, CL : ChainLib, AL : AddressLib, IL : InvoiceLib}.
Context `{CkL : CheckpointLib, NL : NodeLib, SL : SerLib, HL : HexLib, JL : JsonLib}.
Context `{FL : !FollowLib, Prof : Profile} {X : Type} `{!ExternalPersist X}.
Notation MemoNode := (NSt (option Memo.State)).

Lemma loop_panics {P : Type} {A} (f : A -> M P unit) l m s : (m s).2 = Panic ->
  (foldl (fun m x => m;; f x) m l s).2 = Panic.
Proof.
  revert m. induction l as [|x l IH]; intros m Hm; [done|]. cbn [foldl]. apply IH.
  unfold mbind, M_bind. destruct (m s) as [s' r]. cbn in Hm. by subst r.
Qed.

Lemma prune_channels_panics (s : MemoNode) h id ptr : store s = None ->
  (id, ptr) ∈ channel_slots (node s) -> prunable_stub (node s) h (id, ptr) = true ->
  (prune_channels h s).2 = Panic.
Proof.
  intros Hs Hin Hp. unfold prune_channels. rewrite (M_bind_step _ _ s s (node s)) by done.
  destruct (fst <$> _) as [|k ks] eqn:Hk.
  - apply fmap_nil_inv in Hk. exfalso. eapply (not_elem_of_nil (id, ptr)). rewrite <- Hk.
    by apply list_elem_of_filter.
  - cbn [foldl]. apply loop_panics.
    unfold mbind, M_bind, get_node, put_node, persist_expect, persist_call, mret, M_ret. cbn. by rewrite Hs.
Qed.

(** The heartbeat of the chain follower is asked for outside of a
    persistence context.  With the memorizing persister, as in the in-place
    signer that keeps its state on a storage server, the heartbeat panics as
    soon as some channel stub is old enough to be pruned. *)
Theorem heartbeat_outside_context_panics tw now now' (self : NodeFront (option Memo.State) X) id ptr
  (Hout : store (nf_node self) = None) (Hin : (id, ptr) ∈ channel_slots (node (nf_node self)))
  (Hstub : prunable_stub (node (nf_node self)) (height (nf_tracker self)) (id, ptr) = true) :
  (ct_beat (E := unit) tw now now' self).2 = Panic.
Proof.
  cbn. destruct (get_heartbeat tw now now' (nf_node self)) as [s' [h|e|]] eqn:Hg; [|done..].
  exfalso. unfold get_heartbeat in Hg. apply M_bind_Ok in Hg as (s1 & n & [= <- <-] & Hg).
  apply M_bind_Ok in Hg as (s2 & [st1 b1] & [= <- _] & Hg).
  apply M_bind_Ok in Hg as (s3 & [st2 b2] & [= <- _] & Hg).
  apply M_bind_Ok in Hg as (s4 & [st3 b3] & [= <- _] & Hg).
  apply M_bind_Ok in Hg as (s5 & [] & [= <-] & Hg). apply M_bind_Ok in Hg as (s6 & [] & Hp & _).
  pose proof (prune_channels_panics {| node := set_state (node (nf_node self)) st3;
    store := store (nf_node self) |} (height (nf_tracker self)) id ptr Hout Hin Hstub) as Hpanic.
  unfold nf_tracker in Hpanic. by rewrite Hp in Hpanic.
Qed.
End heartbeat.

(** ** Witnesses *)

(** The hash of a header shows the header's parent. *)
Definition linked_lib : ChainLib := {|
  header_hash h := nonce h :: prev_blockhash h; target h := bits h; validate_pow _ _ := true;
  compact_target_from_u256 t := t; u256_from_compact_target t := t;
  TxoProof := ProofType; proof p := p; proof_filter_header _ := [1];
  verify _ _ _ _ _ _ := None; BlockDecoder := unit; decoder_new := tt;
  decode_next _ _ := Some (tt, []); decoder_finish _ := true |}.

#[local] Existing Instances example_lib example_crypto example_keys linked_lib
  example_addresses example_invoices example_checkpoints example_node_lib example_ser example_hex
  Chan.release.

Lemma linked_hashes : HashLinks (@tail Z).
Proof. by intros h. Qed.
#[local] Existing Instance linked_hashes.

Definition linked_header (n : Z) (prev : BlockHash) : BlockHeader := {|
  header_version := 2; prev_blockhash := prev; merkle_root := []; time := 600 * n; bits := 1000;
  nonce := n |}.

Definition follow_lib : FollowLib := {|
  ChainBlock := BlockHeader; block_header h := h; block_serialize h := [nonce h];
  proof_of_block p _ := p; take_block p := (p, None); FollowError := unit |}.
#[local] Existing Instance follow_lib.

(** The source has three blocks. *)
Definition source_headers : list BlockHeader :=
  [linked_header 0 []; linked_header 11 [0]; linked_header 12 [11; 0]].
Definition source_chain : list BlockHash := [[0]; [11; 0]; [12; 11; 0]].

Definition example_follower : Follower := fun T h hash fw rw s =>
  (s, Ok (if bool_decide (source_chain !! Z.to_nat h = Some hash) then
            match source_headers !! S (Z.to_nat h) with
            | Some b => BlockAdded b (ProofFilter [])
            | None => FollowNone
            end
          else BlockReorged (linked_header 0 []) (ProofFilter []))).
#[local] Existing Instance example_follower.

Lemma example_source : SourceLaws source_chain.
Proof.
  intros T I h hash fw rw s _ _ Hs. split; [done|]. unfold follow_with_proof, example_follower. cbn [snd].
  intros a [= <-]. case_bool_decide as Hb; [|done].
  unfold follows. set (n := Z.to_nat h) in *. clearbody n.
  unfold source_chain, source_headers in *. destruct n as [|[|[|n]]]; cbn in Hb |- *; by split.
Qed.

Lemma source_chain_ok : chain_ok (@tail Z) source_chain.
Proof. intros i x y Hx Hy. destruct i as [|[|[|i]]]; cbn in *; try done; by simplify_eq. Qed.

(** A node whose last block the source does not have. *)
Definition forked_node : Node := {|
  node_config := {| cfg_network := Testnet; cfg_key_derivation_style := Ldk; use_checkpoints := false |};
  keys_manager := example_manager; channels := ∅; slots := ∅;
  node_validator_factory := example_factory; allowlist := ∅;
  tracker := Tracker.restore [(linked_header 0 [], [1])] (linked_header 21 [0], [1]) 1 Testnet ∅
               (simple_policy (make_simple_policy Testnet));
  state := NodeState_new example_hourly example_hourly; node_id := replicate 33 2 |}.

Definition forked_follower : ChainFollower (NodeFront KVJson.KVJsonPersister LssClient) := {|
  cf_tracker := NodeFront_new {| node := forked_node; store := KVJson.empty |} None;
  heartbeat_monitor := None; cf_state := Scanning; test_streaming := false |}.

Definition example_readings (n : nat) : Readings :=
  {| track_payments := false; tick_now := 1000; beat_now := 1000; node_now := 0; node_now' := 0 |}.

Lemma chain_follower_syncs_witness : exists cf',
  run_loop 4 example_readings forked_follower = Some (cf', Ok tt)
  /\ cf_state cf' = Synced /\ front_tracks (@tail Z) (cf_tracker cf') source_chain.
Proof.
  destruct (chain_follower_syncs (@tail Z) (front_tracks (@tail Z)) source_chain (SrL := example_source)
    source_chain_ok ltac:(done) example_readings 4 1 [[0]; [21; 0]] forked_follower)
    as (cf' & r & Hrun & Hr).
  - split; [|by exists []|done|done].
    intros i x y Hx Hy. destruct i as [|[|i]]; cbn in *; try done; by simplify_eq.
  - by exists [[11; 0]; [12; 11; 0]].
  - cbn. lia.
  - assert (Hok : match run_loop 4 example_readings forked_follower with
      | Some (_, Ok _) => True | _ => False end) by (vm_compute; exact I).
    rewrite Hrun in Hok. destruct r as [[]|e|]; [|destruct Hok..].
    exists cf'. destruct (Hr eq_refl) as [Hs Hc]. split; [exact Hrun|]. split; [exact Hs|exact Hc].
Defined.

(** A front of a signer whose state is on a storage server, with an old stub. *)
Definition stub_front : NodeFront (option Memo.State) LssClient := NodeFront_new
  {| node := insert_slot
       {| node_config := node_config forked_node; keys_manager := example_manager; channels := ∅;
          slots := ∅; node_validator_factory := example_factory; allowlist := ∅;
          tracker := Tracker.restore [] (linked_header 10 [], [1]) 10 Testnet ∅
                       (simple_policy (make_simple_policy Testnet));
          state := state forked_node; node_id := replicate 33 2 |} [[7]]
       {| slot := Stub {| stub_keys := 5 : @InMemorySigner example_lib; stub_id0 := [7];
                          stub_blockheight := 0 |}; detached := None |};
     store := None |} None.

Definition example_json : JsonLib := {|
  json_node_entry _ := []; json_node_entry_from _ := None; json_node_state _ := [];
  json_node_state_from _ := None; json_channel _ := []; json_channel_from _ := None;
  json_allowlist _ := []; json_allowlist_from _ := None; json_tracker _ := [];
  json_tracker_from _ := None |}.
#[local] Existing Instance example_json.

Lemma heartbeat_outside_context_panics_witness :
  (ct_beat (E := unit) false 0 0 stub_front).2 = Panic.
Proof.
  apply (heartbeat_outside_context_panics false 0 0 stub_front [7] 0%nat).
  - reflexivity.
  - vm_compute. constructor.
  - vm_compute. reflexivity.
Defined.
