(* ===== verification/PortFront.v ===== *)
(** * The chain front end of a remote signer (vls-proxy/src/portfront.rs)

    The tracker that the chain follower feeds when the signer is at the other
    end of a link: every operation is a message to the signer's root handler,
    and a block that a proof holds is streamed in chunks.  Waiting for the
    port to become ready is not modelled. *)

From S2P Require Import Prelude Velocity Policy Order Extern Crypto Setup Tx Keys Lss Allowlist Script.
From S2P Require Import Secrets Enforcement Validator SimpleValidator NodeState ChannelOps Monitor.
From S2P Require Import Tracker Persist PersistSpec Node NodeInv Msgs Approver Handler Client.
From S2P Require Import ClientHandler External NodeRestart Frontend NodeFront.

Import NodeOps.

(** The encoders of the front end's side. *)
Class PortLib `{CL : ChainLib} := {
  header_serialize : BlockHeader -> bytes;
  proof_serialize : TxoProof -> bytes;
  heartbeat_from_vec : bytes -> option SignedHeartbeat
}.

(** [SignerPort] *)
Class SignerPort `{SerdeBolt} (T : Type) := port_handle_message : bytes -> CM T ClientError bytes.

Record NodeKeys := { nk_node_id : PublicKey; nk_heartbeat_pubkey : PublicKey }.

Record NodePortFront (T : Type) := {
  signer_port : T;
  port_network : Network;
  node_keys : option NodeKeys;
  block_chunk_size : nat
}.
Arguments signer_port {_}.
Arguments port_network {_}.
Arguments node_keys {_}.
Arguments block_chunk_size {_}.

(** Blocks are streamed in chunks of this size, smaller ones for tests. *)
Definition BLOCK_CHUNK_SIZE : nat := Z.to_nat 8192.

Definition NodePortFront_new {T} (port : T) (net : Network) (test_streaming : bool) : NodePortFront T := {|
  signer_port := port; port_network := net; node_keys := None;
  block_chunk_size := if test_streaming then 23 else BLOCK_CHUNK_SIZE |}.

Section front.
Context `{L : Lib, !KeyLib, CL : ChainLib, IL : InvoiceLib, SB : SerdeBolt, ClL : !ClientLib}.
Context `{FL : !FollowLib, PL : !PortLib, Prof : Profile} {T : Type} `{!SignerPort T} {E : Type}.
Notation PM := (CM (NodePortFront T) E).

Definition on_port {R} (m : CM T E R) : PM R := fun self =>
  let '(p, r) := m (signer_port self) in
  ({| signer_port := p; port_network := port_network self; node_keys := node_keys self;
      block_chunk_size := block_chunk_size self |}, r).

(** Send a message and take the reply apart; anything unexpected panics. *)
Definition port_call {R} (m : Message) (take_reply : Message -> option R) : PM R :=
  b ← c_lift (unwrap_ok (as_vec (inner m)));
  reply ← on_port (c_expect (port_handle_message b));
  r ← c_lift (unwrap_ok (from_vec reply));
  c_lift (unwrap (take_reply r)).

Definition set_node_keys (keys : NodeKeys) : PM unit := fun self =>
  ({| signer_port := signer_port self; port_network := port_network self; node_keys := Some keys;
      block_chunk_size := block_chunk_size self |}, Ok tt).

Definition populate_keys : PM NodeKeys :=
  '(node_id, bip32) ← port_call MNodeInfo
    (fun r => match r with MNodeInfoReply _ node_id bip32 => Some (node_id, bip32) | _ => None end);
  xpubkey ← c_lift (unwrap (xpub_decode bip32));
  node_id ← c_lift (unwrap (pubkey_from_slice node_id));
  let keys := {| nk_node_id := node_id; nk_heartbeat_pubkey := xpub_public_key xpubkey |} in
  set_node_keys keys;;
  mret keys.

Definition get_node_keys : PM NodeKeys := fun self =>
  match node_keys self with
  | Some nk => (self, Ok nk)
  | None => populate_keys self
  end.

Definition port_id : PM bytes := keys ← get_node_keys; mret (nk_node_id keys).
Definition port_heartbeat_pubkey : PM PublicKey := keys ← get_node_keys; mret (nk_heartbeat_pubkey keys).

Fixpoint stream_chunks (hash : BlockHash) (offset : Z) (l : list bytes) : PM unit :=
  match l with
  | [] => mret tt
  | chunk :: l =>
      port_call (MBlockChunk hash offset chunk)
        (fun r => match r with MBlockChunkReply => Some tt | _ => None end);;
      offset ← c_lift (add32 offset (as_u 32 (Z.of_nat (length chunk))));
      stream_chunks hash offset l
  end.

Definition get_chunk_size : PM nat := fun self => (self, Ok (block_chunk_size self)).

Definition port_stream_block (prf : TxoProof) : PM TxoProof :=
  let '(prf, block_opt) := take_block prf in
  match block_opt with
  | Some block =>
      size ← get_chunk_size;
      stream_chunks (header_hash (block_header block)) 0 (chunks size (block_serialize block));;
      mret prf
  | None => mret prf
  end.

Definition port_tip_info : PM (Z * BlockHash) :=
  port_call MTipInfo (fun r => match r with MTipInfoReply h hash => Some (h, hash) | _ => None end).

Definition to_outpoint (op : Model.OutPoint) : OutPoint :=
  {| op_txid := Model.txid op; vout := Model.vout op |}.

Definition port_forward_watches : PM Watches :=
  port_call MForwardWatches (fun r => match r with
    | MForwardWatchesReply txids outpoints => Some (txids, to_outpoint <$> outpoints)
    | _ => None end).

Definition port_reverse_watches : PM Watches :=
  port_call MReverseWatches (fun r => match r with
    | MReverseWatchesReply txids outpoints => Some (txids, to_outpoint <$> outpoints)
    | _ => None end).

Definition port_add_block (header : BlockHeader) (prf : TxoProof) : PM unit :=
  prf ← port_stream_block prf;
  port_call (MAddBlock (header_serialize header) (Some (proof_serialize prf)))
    (fun r => match r with MAddBlockReply => Some tt | _ => None end).

Definition port_remove_block (prf : TxoProof) : PM unit :=
  prf ← port_stream_block prf;
  port_call (MRemoveBlock (Some (proof_serialize prf)))
    (fun r => match r with MRemoveBlockReply => Some tt | _ => None end).

Definition port_beat : PM SignedHeartbeat :=
  ser_hb ← port_call MGetHeartbeat (fun r => match r with MGetHeartbeatReply hb => Some hb | _ => None end);
  c_lift (unwrap (heartbeat_from_vec ser_hb)).
End front.

(** The clocks of a heartbeat are the signer's. *)
#[export] Instance port_front `{L : Lib, !KeyLib, CL : ChainLib, IL : InvoiceLib, SB : SerdeBolt, ClL : !ClientLib}
  `{FL : !FollowLib, PL : !PortLib, Prof : Profile} {T : Type} `{!SignerPort T}
  : ChainTrack (NodePortFront T) := {|
  ct_network := port_network;
  ct_heartbeat_pubkey _ := port_heartbeat_pubkey;
  ct_tip_info _ := port_tip_info;
  ct_forward_watches _ := port_forward_watches;
  ct_reverse_watches _ := port_reverse_watches;
  ct_add_block _ := port_add_block;
  ct_remove_block _ := port_remove_block;
  ct_beat _ _ _ _ := port_beat |}.

(** ** The signer's root handler behind the port *)

Section laws.
Context `{L : Lib, CrL : CryptoLib, !KeyLib, CL : ChainLib, AL : AddressLib, IL : InvoiceLib}.
Context `{CkL : CheckpointLib, NL : NodeLib, SL : SerLib, SB : SerdeBolt, WL : !WireLib, ClL : !ClientLib}.
Context `{FL : !FollowLib, PL : !PortLib, Prof : Profile}.
Context {P : Type} `{!Persist P} {A : Type} `{!Approve A} `{!SerdeBoltLaws} (tw : bool) (t : Clocks).

(** The encodings of headers and proofs are read back, hashes have 32 bytes,
    proofs are below two gigabytes, and the encodings of messages add little
    to the bytes that they carry. *)
Class PortLaws : Prop := {
  law_header h : header_deserialize (header_serialize h) = Some h;
  law_header_bytes h : Forall is_byte (header_serialize h) /\ length (header_serialize h) = 80%nat;
  law_proof p : proof_deserialize (proof_serialize p) = Some p;
  law_proof_bytes p : Forall is_byte (proof_serialize p) /\ Z.of_nat (length (proof_serialize p)) < 2 ^ 31;
  law_hash h : Forall is_byte (header_hash h) /\ length (header_hash h) = 32%nat;
  law_block b : Forall is_byte (block_serialize b);
  law_add_size h p b : as_vec (inner (MAddBlock (header_serialize h) (Some (proof_serialize p)))) = Ok b ->
    Z.of_nat (length b) < 2 ^ 32;
  law_remove_size p b : as_vec (inner (MRemoveBlock (Some (proof_serialize p)))) = Ok b ->
    Z.of_nat (length b) < 2 ^ 32;
  law_chunk_size hash off c b : Z.of_nat (length c) <= 8192 ->
    as_vec (inner (MBlockChunk hash off c)) = Ok b -> Z.of_nat (length b) < 2 ^ 32;
  law_tip_size h hd b : as_vec (inner (MTipInfoReply h (header_hash hd))) = Ok b ->
    Z.of_nat (length b) <= MAX_MESSAGE_SIZE
}.
Context `{PLaws : !PortLaws} (parent : BlockHash -> BlockHash) `{HP : !HashLinks parent}.

#[local] Instance handler_port : SignerPort (HSt P A) := serve_bytes (root_do_handle tw t).
Notation Front := (NodePortFront (HSt P A)).
Implicit Types self : Front.

(** A message that is valid but too large is refused, never misread. *)
Lemma from_vec_valid m b m' : is_unknown_message m = false ->
  valid (fields (sb_struct (inner m))) (sb_value (inner m)) -> as_vec (inner m) = Ok b ->
  Z.of_nat (length b) < 2 ^ 32 -> from_vec b = Ok m' -> m' = m.
Proof.
  intros Hu Hv Hb Hl Hf. destruct (decide (Z.of_nat (length b) <= MAX_MESSAGE_SIZE)) as [Hs|Hs].
  - rewrite (from_vec_spec m b) in Hf; [by injection Hf as <-| |done]. by eapply sendable_intro.
  - unfold from_vec, from_reader, message_and_type_from_reader, as_u in Hf.
    rewrite Z.mod_small in Hf by lia. unfold MAX_MESSAGE_SIZE in *.
    rewrite (proj2 (Z.ltb_ge _ _)), (proj2 (Z.ltb_lt _ _)) in Hf by lia. done.
Qed.

Definition good_message (m : Message) : Prop :=
  is_unknown_message m = false /\ valid (fields (sb_struct (inner m))) (sb_value (inner m))
  /\ forall b, as_vec (inner m) = Ok b -> Z.of_nat (length b) < 2 ^ 32.

Lemma port_call_ok {E R} m (k : Message -> option R) self self' x : good_message m ->
  port_call (E := E) m k self = (self', Ok x) -> exists rep b r,
  root_do_handle tw t m (signer_port self) = (signer_port self', Ok rep)
  /\ as_vec rep = Ok b /\ from_vec b = Ok r /\ k r = Some x.
Proof.
  intros (Hu & Hv & Hl) Hc. unfold port_call in Hc.
  apply C_bind_Ok in Hc as (s1 & b & [= <- Hb] & Hc). apply (proj1 (unwrap_ok_Ok _ _)) in Hb.
  apply C_bind_Ok in Hc as (s2 & rp & Hp & Hc). apply C_bind_Ok in Hc as (s3 & r & [= <- Hr] & [= <- Hk]).
  apply (proj1 (unwrap_ok_Ok _ _)) in Hr. apply unwrap_Ok in Hk.
  unfold on_port, c_expect, port_handle_message, handler_port, serve_bytes in Hp.
  destruct (from_vec b) as [m'|e|] eqn:Hf; [|done..].
  apply (from_vec_valid m) in Hf as ->; [|by auto..].
  destruct (root_do_handle tw t m (signer_port self)) as [h' [rep|e|]] eqn:Hh; [|done..].
  injection Hp as <- Hp. cbn [snd] in Hp. apply (proj1 (unwrap_ok_Ok _ _)) in Hp.
  exists rep, rp, r. split; [done|]. split; [|done]. by destruct (as_vec rep) as [?|?|]; [injection Hp as <-| |].
Qed.

(** A message that only reads leaves the signer as it is, whatever the answer. *)
Lemma port_call_reads {E R} m (k : Message -> option R) self : good_message m ->
  (forall h, (root_do_handle tw t m h).1 = h) ->
  signer_port (port_call (E := E) m k self).1 = signer_port self.
Proof.
  intros (Hu & Hv & Hl) Hreads. unfold port_call, mbind, C_bind, c_lift.
  destruct (as_vec (inner m)) as [b|e|] eqn:Hb; [|done..]. cbn [unwrap_ok].
  assert (Hp : signer_port (on_port (E := E) (c_expect (port_handle_message b)) self).1 = signer_port self).
  { unfold on_port, c_expect, port_handle_message, handler_port, serve_bytes.
    destruct (from_vec b) as [m'|e|] eqn:Hf; [|done..].
    apply (from_vec_valid m) in Hf as ->; [|by auto..].
    specialize (Hreads (signer_port self)).
    by destruct (root_do_handle tw t m (signer_port self)) as [h' [rep|e|]]. }
  destruct (on_port _ self) as [self' [rp|e|]]; [|done..].
  destruct (from_vec rp) as [r|e|]; [|done..]. cbn [unwrap_ok]. by destruct (k r).
Qed.

(** *** The messages *)

Lemma good_queries :
  Forall good_message [MTipInfo; MForwardWatches; MReverseWatches; MGetHeartbeat; MNodeInfo].
Proof. repeat constructor; by intros b [= <-]. Qed.

Lemma good_add h p : good_message (MAddBlock (header_serialize h) (Some (proof_serialize p))).
Proof.
  split; [done|]. split; [|apply law_add_size].
  destruct (law_header_bytes h) as [Hb Hl], (law_proof_bytes p) as [Hpb Hpl].
  split; cbn; split; [done|rewrite Hl; lia|done|lia].
Qed.

Lemma good_remove p : good_message (MRemoveBlock (Some (proof_serialize p))).
Proof.
  split; [done|]. split; [|apply law_remove_size].
  destruct (law_proof_bytes p) as [Hpb Hpl]. cbn. split; [done|lia].
Qed.

Lemma good_chunk hd off c : 0 <= off < 2 ^ 32 -> Forall is_byte c -> Z.of_nat (length c) <= 8192 ->
  good_message (MBlockChunk (header_hash hd) off c).
Proof.
  intros Ho Hc Hl. split; [done|]. split; [|intros b; by apply law_chunk_size].
  destruct (law_hash hd) as [Hb Hlen]. split; [split|]; cbn; [done|lia|split; [done|lia]].
Qed.

(** *** The tracker behind the port *)

Definition port_tracker self : NodeTracker := tracker (node (h_node (signer_port self))).

Record port_tracks self (c : list BlockHash) : Prop := {
  pt_tracks : tracks parent (port_tracker self) c;
  pt_chunks : Z.of_nat (block_chunk_size self) <= 8192
}.

Lemma port_call_size {E R} m (k : Message -> option R) self :
  block_chunk_size (port_call (E := E) m k self).1 = block_chunk_size self.
Proof.
  unfold port_call, mbind, C_bind, c_lift. destruct (unwrap_ok (as_vec (inner m))); [|done..].
  unfold on_port. destruct (c_expect _ _) as [p [rp|e|]]; [|done..]. by destruct (unwrap_ok (from_vec rp)).
Qed.

Lemma reads_tracks {E R} m (k : Message -> option R) self c : good_message m ->
  (forall h, (root_do_handle tw t m h).1 = h) -> port_tracks self c ->
  port_tracks (port_call (E := E) m k self).1 c.
Proof.
  intros Hm Hr [Ht Hs]. split; [|by rewrite port_call_size].
  unfold port_tracker. by rewrite port_call_reads.
Qed.

Lemma on_node_ok {R} (m : M P R) h h' r : on_node (A := A) m h = (h', Ok r) ->
  m (h_node h) = (h_node h', Ok r).
Proof.
  unfold on_node. destruct (m (h_node h)) as [s [x|e|]]; [|done..]. by intros [= <- <-].
Qed.

Lemma H_bind_ok {R R'} (m : HM P A R) (f : R -> HM P A R') h h' r :
  (m ≫= f) h = (h', Ok r) -> exists h1 a, m h = (h1, Ok a) /\ f a h1 = (h', Ok r).
Proof. unfold mbind, H_bind. destruct (m h) as [h1 [a|e|]]; [|done..]. eauto. Qed.

(** A chunk leaves the chain as it is. *)
Lemma chunk_message_same hash off c h h' rep :
  root_do_handle tw t (MBlockChunk hash off c) h = (h', Ok rep) ->
  same_chain (tracker (node (h_node h))) (tracker (node (h_node h'))).
Proof.
  cbn [root_do_handle]. unfold handle_block_chunk. intros (h1 & n & [= <- <-] & Hh)%H_bind_ok.
  apply H_bind_ok in Hh as (h1 & tr & [= <- Htr] & Hh). apply H_bind_ok in Hh as (h2 & [] & [= <-] & [= <- _]).
  cbn. destruct (Tracker.block_chunk _ _ _ _) as [t1|e|] eqn:Hb; [|done..]. injection Htr as <-.
  by eapply block_chunk_same.
Qed.

Lemma add_message_ok hd p h h' rep :
  root_do_handle tw t (MAddBlock (header_serialize hd) (Some (proof_serialize p))) h = (h', Ok rep) ->
  Tracker.add_block (tracker (node (h_node h))) hd p = Ok (tracker (node (h_node h')), tt).
Proof.
  cbn [root_do_handle]. unfold handle_add_block_msg, decode_proof. intros (h1 & po & Hp & Hh)%H_bind_ok.
  apply H_bind_ok in Hp as (h2 & p2 & [= <- Hp2] & [= <- <-]). rewrite law_proof in Hp2.
  injection Hp2 as <-. apply H_bind_ok in Hh as (h3 & p3 & [= <- <-] & Hh).
  apply H_bind_ok in Hh as (h3 & hd' & [= <- Hhd] & Hh). rewrite law_header in Hhd. injection Hhd as <-.
  apply H_bind_ok in Hh as (h4 & [] & Hn%on_node_ok & [= <- _]).
  destruct (h_node h4) as [n4 p4]. unfold handle_add_block in Hn. inv_M Hn. destruct x0 as [t' []].
  inv_M Hn. by simplify_eq.
Qed.

Lemma remove_message_ok p h h' rep :
  root_do_handle tw t (MRemoveBlock (Some (proof_serialize p))) h = (h', Ok rep) ->
  exists hd, Tracker.remove_block (tracker (node (h_node h))) p = Ok (tracker (node (h_node h')), hd).
Proof.
  cbn [root_do_handle]. unfold handle_remove_block_msg, decode_proof. intros (h1 & po & Hp & Hh)%H_bind_ok.
  apply H_bind_ok in Hp as (h2 & p2 & [= <- Hp2] & [= <- <-]). rewrite law_proof in Hp2.
  injection Hp2 as <-. apply H_bind_ok in Hh as (h4 & [] & Hn%on_node_ok & [= <- _]).
  destruct (h_node h4) as [n4 p4]. unfold handle_remove_block in Hn. inv_M Hn. destruct x0 as [t' hd].
  inv_M Hn. simplify_eq. by exists hd.
Qed.

Lemma chunks_small n (l : bytes) : Forall (fun c => (length c <= n)%nat) (chunks n l).
Proof.
  unfold chunks. generalize (length l). intros f. revert l.
  induction f as [|f IH]; intros [|x l]; cbn; try constructor; [|apply IH]. rewrite length_take. lia.
Qed.

Lemma chunks_bytes n (l : bytes) : Forall is_byte l -> Forall (Forall is_byte) (chunks n l).
Proof.
  unfold chunks. generalize (length l). intros f. revert l.
  induction f as [|f IH]; intros [|x l] Hl; cbn; try constructor;
    [by apply (Forall_take _ n (x :: l))|by apply IH, Forall_drop].
Qed.

Lemma stream_tracks {E} hd l off self self' c :
  Forall (fun c => Z.of_nat (length c) <= 8192) l -> Forall (Forall is_byte) l -> 0 <= off < 2 ^ 32 ->
  stream_chunks (E := E) (header_hash hd) off l self = (self', Ok tt) ->
  port_tracks self c -> port_tracks self' c.
Proof.
  intros Hl. revert off self. induction Hl as [|ch l Hch _ IH]; intros off self Hb Ho Hs Ht.
  - by injection Hs as <-.
  - apply Forall_cons in Hb as [Hcb Hb]. cbn [stream_chunks] in Hs.
    apply C_bind_Ok in Hs as (s1 & [] & Hc & Hs). apply C_bind_Ok in Hs as (s2 & off' & [= <- Ho'] & Hs).
    apply (IH off' s1); [done| |done|].
    + apply wrapping_range in Ho'; [|lia]. unfold in_u in Ho'. lia.
    + pose proof (port_call_size (E := E) (MBlockChunk (header_hash hd) off ch)
        (fun r => match r with MBlockChunkReply => Some tt | _ => None end) self) as Hsz.
      rewrite Hc in Hsz. cbn [fst] in Hsz. destruct Ht as [Ht Hsmall]. split; [|by rewrite Hsz].
      apply port_call_ok in Hc as (rep & b & r & Hh & _); [|by apply good_chunk].
      eapply (tracks_same parent); [|exact Ht]. by eapply chunk_message_same.
Qed.

Lemma port_stream_tracks {E} prf self self' prf' c :
  port_stream_block (E := E) prf self = (self', Ok prf') -> port_tracks self c -> port_tracks self' c.
Proof.
  unfold port_stream_block. destruct (take_block prf) as [p [bl|]]; [|by intros [= <- _]].
  intros Hs Ht. apply C_bind_Ok in Hs as (s1 & size & [= <- <-] & Hs).
  apply C_bind_Ok in Hs as (s2 & [] & Hs & [= <- _]).
  eapply stream_tracks; [| | |exact Hs|done]; [|apply chunks_bytes, law_block|lia].
  eapply Forall_impl; [apply chunks_small|]. intros ch Hch. cbn in Hch. pose proof (pt_chunks _ _ Ht). lia.
Qed.

Lemma query_good m : m ∈ [MTipInfo; MForwardWatches; MReverseWatches; MGetHeartbeat; MNodeInfo] ->
  good_message m.
Proof. intros Hm. pose proof good_queries as Hg. rewrite Forall_forall in Hg. by apply Hg. Qed.

(** The reply to [TipInfo] comes back as it was sent. *)
Lemma tip_ok {E} self self' h hash c : port_tracks self c ->
  port_tip_info (E := E) self = (self', Ok (h, hash)) ->
  h = Z.of_nat (length c) - 1 /\ last c = Some hash.
Proof.
  intros [Ht _] Hc. pose proof (tk_height parent _ _ Ht) as Hh. pose proof (tk_size parent _ _ Ht) as Hs.
  assert (Hlast := tracks_last parent _ _ Ht). unfold port_tip_info in Hc.
  apply port_call_ok in Hc as (rep & b & r & Hr & Hb & Hf & Hk); [|apply query_good; set_solver].
  cbn [root_do_handle] in Hr. unfold handle_tip_info in Hr.
  apply H_bind_ok in Hr as (h1 & n & [= <- <-] & [= _ <-]).
  fold (port_tracker self) in Hb. set (hd := (tip (port_tracker self)).1) in *.
  change (as_vec (inner (MTipInfoReply (height (port_tracker self)) (header_hash hd))) = Ok b) in Hb.
  assert (Hne : (0 < length c)%nat) by (destruct c; [done|cbn; lia]).
  rewrite (from_vec_spec (MTipInfoReply (height (port_tracker self)) (header_hash hd)) b) in Hf; [| |done].
  - injection Hf as <-. injection Hk as <- <-. by rewrite Hh.
  - split; [done|]. split; [|intros b'; apply law_tip_size]. split; cbn; [lia|apply law_hash].
Qed.

Lemma queries_tracks {E R} m (k : Message -> option R) self c :
  m ∈ [MTipInfo; MForwardWatches; MReverseWatches; MNodeInfo] -> port_tracks self c ->
  port_tracks (port_call (E := E) m k self).1 c.
Proof.
  intros Hm Ht. apply reads_tracks; [apply query_good; set_solver| |done].
  intros h. repeat (apply elem_of_cons in Hm as [->|Hm]; [done|]). by apply elem_of_nil in Hm.
Qed.

Lemma pubkey_tracks {E} self c : port_tracks self c -> port_tracks (port_heartbeat_pubkey (E := E) self).1 c.
Proof.
  intros Ht. unfold port_heartbeat_pubkey, get_node_keys, mbind, C_bind.
  destruct (node_keys self); [done|]. unfold populate_keys, mbind, C_bind, c_lift.
  pose proof (queries_tracks (E := E) MNodeInfo (fun r => match r with
    | MNodeInfoReply _ node_id bip32 => Some (node_id, bip32) | _ => None end) self c
    ltac:(set_solver) Ht) as Hq.
  destruct (port_call _ _ self) as [self' [[nid x]|e|]]; [|done..]. cbn [fst] in Hq.
  destruct (unwrap (xpub_decode x)) as [xp|e|]; [|done..].
  destruct (unwrap (pubkey_from_slice nid)) as [pk|e|]; [|done..]. by destruct Hq.
Qed.

Lemma add_tracks {E} header prf self self' c : port_tracks self c -> Z.of_nat (length c) < 2 ^ 32 ->
  port_add_block (E := E) header prf self = (self', Ok tt) -> port_tracks self' (c ++ [header_hash header]).
Proof.
  intros Ht Hl (s1 & p & Hs & Hc)%C_bind_Ok. pose proof (port_stream_tracks _ _ _ _ _ Hs Ht) as [Ht1 Hs1].
  split.
  - apply port_call_ok in Hc as (rep & b & r & Hr & _); [|apply good_add].
    apply add_message_ok in Hr. by eapply (tracks_add parent).
  - pose proof (f_equal (fun x => block_chunk_size x.1) Hc) as Hsz. cbn beta in Hsz.
    rewrite port_call_size in Hsz. cbn [fst] in Hsz. lia.
Qed.

Lemma remove_tracks {E} prf self self' c : port_tracks self c ->
  port_remove_block (E := E) prf self = (self', Ok tt) -> exists c' x, c = c' ++ [x] /\ port_tracks self' c'.
Proof.
  intros Ht (s1 & p & Hs & Hc)%C_bind_Ok. pose proof (port_stream_tracks _ _ _ _ _ Hs Ht) as [Ht1 Hs1].
  pose proof (f_equal (fun x => block_chunk_size x.1) Hc) as Hsz. cbn beta in Hsz.
  rewrite port_call_size in Hsz. cbn [fst] in Hsz.
  apply port_call_ok in Hc as (rep & b & r & Hr & _); [|apply good_remove].
  apply remove_message_ok in Hr as [hd Hr]. apply (tracks_remove parent _ c) in Hr as (c' & x & -> & Ht'); [|done].
  exists c', x. split; [done|]. split; [done|lia].
Qed.

Lemma beat_tracks {E} self self' c hb : port_tracks self c ->
  port_beat (E := E) self = (self', Ok hb) -> port_tracks self' c.
Proof.
  intros [Ht Hs] (s1 & ser & Hc & [= <- _])%C_bind_Ok.
  pose proof (f_equal (fun x => block_chunk_size x.1) Hc) as Hsz. cbn beta in Hsz.
  rewrite port_call_size in Hsz. cbn [fst] in Hsz. split; [|lia].
  apply port_call_ok in Hc as (rep & b & r & Hr & _); [|apply query_good; set_solver].
  cbn [root_do_handle] in Hr. apply H_bind_ok in Hr as (h1 & hb' & Hg%on_node_ok & [= -> _]).
  unfold port_tracker. by rewrite (get_heartbeat_tracker _ _ _ _ _ _ Hg).
Qed.

(** A remote signer is a tracker. *)
#[global] Instance port_front_laws : TrackLaws parent port_tracks.
Proof.
  split.
  - intros s c [Ht _]. by destruct Ht.
  - intros E self c. apply pubkey_tracks.
  - intros E self c Ht. split; [by apply queries_tracks; [set_solver|]|]. intros h hash He.
    eapply (tip_ok self); [done|]. apply pair_eta, He.
  - intros E self c Ht. by apply queries_tracks; [set_solver|].
  - intros E self c Ht. by apply queries_tracks; [set_solver|].
  - intros E self c header prf self' Ht Hl. by apply add_tracks.
  - intros E self c prf self' Ht. by apply remove_tracks.
  - intros E ? ? ? self c self' b Ht. by apply beat_tracks.
Qed.
End laws.
