(* ===== verification/Proxy.v ===== *)
(** * The gRPC proxy (vls-proxy/src/grpc/{adapter,signer,signer_loop}.rs)

    The proxy takes messages from the lightning node's processes, gives each a
    request id, streams them to the signer and routes the responses back by
    their ids.  The tasks of the proxy and the signer run concurrently: they
    are steps of a transition system, with the queues between them.  gRPC
    carries the two streams of a connection in order. *)

From S2P Require Import Prelude Velocity Policy Order Extern Crypto Setup Tx Keys Allowlist Script.
From S2P Require Import Secrets Enforcement Validator SimpleValidator NodeState ChannelOps Monitor.
From S2P Require Import Tracker Persist PersistSpec Node NodeInv Msgs Approver Handler Client ClientExample.

Import NodeOps.

(** ** Data *)

Record ClientId := { cl_peer_id : bytes; cl_dbid : Z }.

(** A message of the node; the reply is awaited on the oneshot channel [reply_tx]. *)
Record ChannelRequest := { cr_message : bytes; reply_tx : nat; cr_client_id : option ClientId }.
Record ChannelReply := { reply_bytes : bytes; reply_is_temporary_failure : bool }.

(** The messages of the gRPC service (hsmd.proto). *)
Record HsmRequestContext := { ctx_peer_id : bytes; ctx_dbid : Z; capabilities : Z }.
Record SignerRequest := { sr_request_id : Z; sr_message : bytes; sr_context : option HsmRequestContext }.
Record SignerResponse := {
  resp_request_id : Z;
  resp_message : bytes;
  resp_error : string;
  resp_is_temporary_failure : bool
}.

(** ** The adapter (adapter.rs) *)

Record Requests := { requests : gmap Z ChannelRequest; request_id : Z }.

Definition Requests_new : Requests := {| requests := ∅; request_id := 0 |}.

(** One request of [ProtocolAdapter::writer_stream]; the counter is an atomic
    of 64 bits, which wraps. *)
Definition write_request (reqs : Requests) (req : ChannelRequest) : Requests * SignerRequest :=
  let id := request_id reqs in
  let context := (fun c => {| ctx_peer_id := cl_peer_id c; ctx_dbid := cl_dbid c; capabilities := 0 |})
                   <$> cr_client_id req in
  ({| requests := <[id := req]> (requests reqs); request_id := as_u 64 (id + 1) |},
   {| sr_request_id := id; sr_message := cr_message req; sr_context := context |}).

(** One response of [ProtocolAdapter::start_stream_reader]: [None] when the
    process exits.  [alive] tells whether the receiver of a reply still waits. *)
Definition read_response (alive : nat -> bool) (reqs : Requests) (resp : SignerResponse)
  : option (Requests * nat * ChannelReply) :=
  if negb (bool_decide (resp_error resp = EmptyString)) && negb (resp_is_temporary_failure resp) then None
  else
    channel_req ← requests reqs !! resp_request_id resp;
    let reqs := {| requests := delete (resp_request_id resp) (requests reqs);
                   request_id := request_id reqs |} in
    if alive (reply_tx channel_req) then
      Some (reqs, reply_tx channel_req,
            {| reply_bytes := resp_message resp;
               reply_is_temporary_failure := resp_is_temporary_failure resp |})
    else None.

(** ** The signer's side (signer.rs) *)

Section signer.
Context `{L : Lib, CrL : CryptoLib, !KeyLib, CL : ChainLib, AL : AddressLib, IL : InvoiceLib}.
Context `{CkL : CheckpointLib, NL : NodeLib, SL : SerLib, SB : SerdeBolt, WL : !WireLib, Prof : Profile}.
Context {P : Type} `{!Persist P, !PersistContext P} {A : Type} `{!Approve A}.
Notation State := (VersionedStore * HSt P A)%type.

(** [handle]; the clocks of the request are [tw] and [t]. *)
Definition signer_handle (tw : bool) (t : Clocks) (request : SignerRequest) (s : State)
  : State * outcome HError SignerResponse :=
  let serve (do_handle : HM P A SerBolt) : State * outcome HError SignerResponse :=
    let '(s, r) := handle do_handle s in
    (s, '(res, _) ← r;
        message ← unwrap_ok (as_vec res);
        Ok {| resp_request_id := sr_request_id request; resp_message := message;
              resp_error := EmptyString; resp_is_temporary_failure := false |}) in
  match from_vec (sr_message request) with
  | Ok msg =>
      match sr_context request with
      | Some context =>
          if 0 <? ctx_dbid context then
            if (length (ctx_peer_id context) =? 33)%nat then
              serve (channel_do_handle (channel_id (ctx_peer_id context) (ctx_dbid context)) msg)
            else (s, Err (HSigning (invalid_argument "peer id")))
          else serve (root_do_handle tw t msg)
      | None => serve (root_do_handle tw t msg)
      end
  | Err e => (s, Err (HProtocol e))
  | Panic => (s, Panic)
  end.

(** One request of the loop of [connect]: the response, and whether the loop
    goes on.  A panic ends the signer without a response. *)
Definition signer_answer (tw : bool) (t : Clocks) (request : SignerRequest) (s : State)
  : option (State * SignerResponse * bool) :=
  match signer_handle tw t request s with
  | (s, Ok response) => Some (s, response, true)
  | (s, Err (HTemporary error)) =>
      Some (s, {| resp_request_id := sr_request_id request; resp_message := [];
                  resp_error := message error; resp_is_temporary_failure := true |}, true)
  | (s, Err _) =>
      Some (s, {| resp_request_id := sr_request_id request; resp_message := [];
                  resp_error := "{:?}"; resp_is_temporary_failure := false |}, false)
  | (_, Panic) => None
  end.

(** ** The system *)

(** The queue of requests, the adapter, the two streams, the signer and the
    replies that were delivered.  The requests that were sent and what the
    signer answered are recorded. *)
Record Sys := {
  queue : list ChannelRequest;
  adapter : Requests;
  to_signer : list SignerRequest;
  from_signer : list SignerResponse;
  signer : State;
  signer_running : bool;
  delivered : list (nat * ChannelReply);
  sent : list ChannelRequest;
  answered : list (SignerRequest * SignerResponse)
}.

Definition Sys_new (s : State) : Sys := {|
  queue := []; adapter := Requests_new; to_signer := []; from_signer := []; signer := s;
  signer_running := true; delivered := []; sent := []; answered := [] |}.

(** The clocks that the signer reads for a request. *)
Context (clocks : Z -> bool * Clocks).

Definition answer (request : SignerRequest) (s : State) : option (State * SignerResponse * bool) :=
  let '(tw, t) := clocks (sr_request_id request) in signer_answer tw t request s.

(** Any task may take its next step. *)
Inductive step (y : Sys) : Sys -> Prop :=
| step_send req :
    step y {| queue := queue y ++ [req]; adapter := adapter y; to_signer := to_signer y;
              from_signer := from_signer y; signer := signer y; signer_running := signer_running y;
              delivered := delivered y; sent := sent y ++ [req]; answered := answered y |}
| step_write req rest reqs sreq :
    queue y = req :: rest -> write_request (adapter y) req = (reqs, sreq) ->
    step y {| queue := rest; adapter := reqs; to_signer := to_signer y ++ [sreq];
              from_signer := from_signer y; signer := signer y; signer_running := signer_running y;
              delivered := delivered y; sent := sent y; answered := answered y |}
| step_answer sreq rest s resp go :
    signer_running y = true -> to_signer y = sreq :: rest ->
    answer sreq (signer y) = Some (s, resp, go) ->
    step y {| queue := queue y; adapter := adapter y; to_signer := rest;
              from_signer := from_signer y ++ [resp]; signer := s; signer_running := go;
              delivered := delivered y; sent := sent y; answered := answered y ++ [(sreq, resp)] |}
| step_read resp rest reqs tx rep :
    from_signer y = resp :: rest ->
    read_response (fun _ => true) (adapter y) resp = Some (reqs, tx, rep) ->
    step y {| queue := queue y; adapter := reqs; to_signer := to_signer y; from_signer := rest;
              signer := signer y; signer_running := signer_running y;
              delivered := delivered y ++ [(tx, rep)]; sent := sent y; answered := answered y |}.

(** ** The proxy is a sequence of calls *)

(** What the signer is sent for the request [req] with id [i]. *)
Definition as_request (i : nat) (req : ChannelRequest) : SignerRequest :=
  (write_request {| requests := ∅; request_id := Z.of_nat i |} req).2.

(** What the process that sent [req] gets for a response. *)
Definition deliver (req : ChannelRequest) (resp : SignerResponse) : nat * ChannelReply :=
  (reply_tx req, {| reply_bytes := resp_message resp;
                    reply_is_temporary_failure := resp_is_temporary_failure resp |}).

(** The signer called with one request after the other. *)
Inductive calls (s0 : State) : list (SignerRequest * SignerResponse) -> State -> Prop :=
| calls_nil : calls s0 [] s0
| calls_snoc l s q r s' go : calls s0 l s -> answer q s = Some (s', r, go) ->
    calls s0 (l ++ [(q, r)]) s'.

Lemma answer_id q s s' r go : answer q s = Some (s', r, go) -> resp_request_id r = sr_request_id q.
Proof.
  unfold answer, signer_answer. destruct (clocks _) as [tw t].
  destruct (signer_handle tw t q s) as [s1 [resp|[e|e|e]|]] eqn:Hh; [|by intros [= _ <- _]..|done].
  intros [= _ <- _]. unfold signer_handle in Hh.
  assert (Hserve : forall d, (let '(s, r) := handle d s in
     (s, '(res, _) ← r; message ← unwrap_ok (as_vec res);
         Ok {| resp_request_id := sr_request_id q; resp_message := message;
               resp_error := EmptyString; resp_is_temporary_failure := false |})) = (s1, Ok resp) ->
     resp_request_id resp = sr_request_id q).
  { intros d. destruct (handle d s) as [s2 [[res m]|e|]]; intros [= _ Hr]; [|done..].
    by apply bind_Ok in Hr as (b & _ & [= <-]). }
  destruct (from_vec _) as [msg|e|]; [|done..].
  destruct (sr_context q) as [c|]; [|by eapply Hserve].
  destruct (0 <? ctx_dbid c); [|by eapply Hserve].
  destruct (_ =? 33)%nat; [by eapply Hserve|done].
Qed.

(** The requests [wr] were given ids, the responses [rd] were read. *)
Record inv_with s0 y (wr : list ChannelRequest) (rd : list SignerResponse) : Prop := {
  iv_sent : sent y = wr ++ queue y;
  iv_next : request_id (adapter y) = Z.of_nat (length wr);
  iv_stream : (answered y).*1 ++ to_signer y = imap as_request wr;
  iv_responses : (answered y).*2 = rd ++ from_signer y;
  iv_delivered : delivered y = zip_with deliver wr rd;
  iv_outstanding i : requests (adapter y) !! Z.of_nat i = if (length rd <=? i)%nat then wr !! i else None;
  iv_calls : calls s0 (answered y) (signer y);
  iv_ids : Forall (fun qr => resp_request_id qr.2 = sr_request_id qr.1) (answered y)
}.

Definition inv s0 y : Prop := exists wr rd, inv_with s0 y wr rd.

Lemma inv_start s0 : inv s0 (Sys_new s0).
Proof. exists [], []. by split; try constructor. Qed.

Lemma imap_snoc {X Y} (f : nat -> X -> Y) l x : imap f (l ++ [x]) = imap f l ++ [f (length l) x].
Proof. rewrite imap_app. cbn. by rewrite Nat.add_0_r. Qed.

Lemma read_count s0 y wr rd : inv_with s0 y wr rd -> (length rd + length (from_signer y) <= length wr)%nat.
Proof.
  intros Hi. pose proof (f_equal length (iv_stream _ _ _ _ Hi)) as H1.
  pose proof (f_equal length (iv_responses _ _ _ _ Hi)) as H2.
  rewrite length_app, length_imap, length_fmap in H1. rewrite length_app, length_fmap in H2. lia.
Qed.

Lemma inv_write s0 y wr rd req rest reqs sreq : inv_with s0 y wr rd -> queue y = req :: rest ->
  Z.of_nat (length wr) + 1 < 2 ^ 64 -> write_request (adapter y) req = (reqs, sreq) ->
  inv_with s0 {| queue := rest; adapter := reqs; to_signer := to_signer y ++ [sreq];
              from_signer := from_signer y; signer := signer y; signer_running := signer_running y;
              delivered := delivered y; sent := sent y; answered := answered y |} (wr ++ [req]) rd.
Proof.
  intros Hi Hq Hb [= <- <-]. pose proof (read_count _ _ _ _ Hi) as Hc. destruct Hi as [H1 H2 H3 H4 H5 H6 H7 H8].
  split; cbn; try done.
  - by rewrite H1, Hq, <- app_assoc.
  - rewrite H2, length_app. cbn. unfold as_u. rewrite Z.mod_small by lia. lia.
  - rewrite (assoc_L (++)), H3, imap_snoc. by rewrite H2.
  - rewrite H5, <- (zip_with_take_l _ (wr ++ [req])), <- (zip_with_take_l _ wr).
    by rewrite take_app_le by lia.
  - intros i. rewrite H2. destruct (decide (i = length wr)) as [->|Hne].
    + rewrite lookup_insert_eq, lookup_app_r, Nat.sub_diag by lia.
      by rewrite (proj2 (Nat.leb_le _ _)) by lia.
    + rewrite lookup_insert_ne, H6 by lia. destruct (_ <=? i)%nat; [|done].
      destruct (decide (i < length wr)%nat); [by rewrite lookup_app_l|].
      rewrite lookup_app_r, !lookup_ge_None_2; [done|cbn; lia|lia|lia].
Qed.

(** The next response to read is for the first request without a reply. *)
Lemma next_response s0 y wr rd resp rest : inv_with s0 y wr rd -> from_signer y = resp :: rest ->
  exists req, wr !! length rd = Some req /\ resp_request_id resp = Z.of_nat (length rd).
Proof.
  intros Hi Hf. pose proof (read_count _ _ _ _ Hi) as Hc. rewrite Hf in Hc. cbn in Hc.
  destruct (lookup_lt_is_Some_2 wr (length rd)) as [req Hr]; [lia|]. exists req. split; [done|].
  destruct Hi as [H1 H2 H3 H4 H5 H6 H7 H8]. rewrite Hf in H4.
  assert (Hresp : (answered y).*2 !! length rd = Some resp) by (rewrite H4; by apply list_lookup_middle).
  apply list_lookup_fmap_Some in Hresp as ([q r] & -> & Hqr).
  rewrite Forall_lookup in H8. rewrite (H8 _ _ Hqr). cbn.
  assert (Hq : imap as_request wr !! length rd = Some q).
  { rewrite <- H3, lookup_app_l by (rewrite length_fmap; by eapply lookup_lt_Some).
    by rewrite list_lookup_fmap, Hqr. }
  rewrite list_lookup_imap, Hr in Hq. by injection Hq as <-.
Qed.

Lemma inv_read s0 y wr rd resp rest reqs tx rep : inv_with s0 y wr rd -> from_signer y = resp :: rest ->
  read_response (fun _ => true) (adapter y) resp = Some (reqs, tx, rep) ->
  inv_with s0 {| queue := queue y; adapter := reqs; to_signer := to_signer y; from_signer := rest;
              signer := signer y; signer_running := signer_running y;
              delivered := delivered y ++ [(tx, rep)]; sent := sent y; answered := answered y |}
    wr (rd ++ [resp]).
Proof.
  intros Hi Hf Hread. destruct (next_response _ _ _ _ _ _ Hi Hf) as (req & Hr & Hid).
  destruct Hi as [H1 H2 H3 H4 H5 H6 H7 H8]. unfold read_response in Hread.
  destruct (_ && _); [done|]. rewrite Hid, H6, Nat.leb_refl, Hr in Hread. injection Hread as <- <- <-.
  split; cbn; try done.
  - by rewrite H4, Hf, <- app_assoc.
  - rewrite H5, zip_with_app_r, zip_with_take_l, (drop_S _ _ _ Hr). cbn. by rewrite zip_with_nil_r.
  - intros i. rewrite length_app. cbn. destruct (decide (i = length rd)) as [->|Hne].
    + rewrite lookup_delete_eq. by rewrite (proj2 (Nat.leb_gt _ _)) by lia.
    + rewrite lookup_delete_ne, H6 by lia.
      destruct (Nat.leb_spec (length rd) i), (Nat.leb_spec (length rd + 1) i); [done|lia..|done].
Qed.

Lemma inv_answer s0 y wr rd sreq rest s resp go : inv_with s0 y wr rd -> to_signer y = sreq :: rest ->
  answer sreq (signer y) = Some (s, resp, go) ->
  inv_with s0 {| queue := queue y; adapter := adapter y; to_signer := rest;
              from_signer := from_signer y ++ [resp]; signer := s; signer_running := go;
              delivered := delivered y; sent := sent y; answered := answered y ++ [(sreq, resp)] |} wr rd.
Proof.
  intros [H1 H2 H3 H4 H5 H6 H7 H8] Hq Ha. split; cbn; try done.
  - by rewrite fmap_app, <- app_assoc, <- H3, Hq.
  - by rewrite fmap_app, H4, <- app_assoc.
  - by eapply calls_snoc.
  - apply Forall_app. split; [done|]. constructor; [|done]. by eapply answer_id.
Qed.

Lemma step_inv s0 y y' : Z.of_nat (length (sent y')) < 2 ^ 64 -> inv s0 y -> step y y' -> inv s0 y'.
Proof.
  intros Hb (wr & rd & Hi) Hs. destruct Hs as [req|req rest reqs sreq Hq Hw|sreq rest s resp go Hrun Hq Ha
    |resp rest reqs tx rep Hf Hr].
  - exists wr, rd. destruct Hi as [H1 H2 H3 H4 H5 H6 H7 H8]. split; cbn; try done.
    by rewrite H1, <- app_assoc.
  - exists (wr ++ [req]), rd. eapply inv_write; [done..| |done].
    cbn in Hb. rewrite (iv_sent _ _ _ _ Hi), Hq, length_app in Hb. cbn in Hb. lia.
  - exists wr, rd. by eapply inv_answer.
  - exists wr, (rd ++ [resp]). by eapply inv_read.
Qed.

Lemma sent_grows y y' : step y y' -> (length (sent y) <= length (sent y'))%nat.
Proof. destruct 1; cbn; rewrite ?length_app; lia. Qed.

Lemma steps_inv s0 y : rtc step (Sys_new s0) y -> Z.of_nat (length (sent y)) < 2 ^ 64 -> inv s0 y.
Proof.
  intros Hy. refine (rtc_ind_r (fun y => Z.of_nat (length (sent y)) < 2 ^ 64 -> inv s0 y) (Sys_new s0) _ _ y Hy).
  - intros _. apply inv_start.
  - intros y1 y2 _ Hs IH Hb. eapply step_inv; [done| |done]. apply IH. apply sent_grows in Hs. lia.
Qed.

(** A response that is not fatal is routed. *)
Lemma response_known s0 y wr rd resp rest : inv_with s0 y wr rd -> from_signer y = resp :: rest ->
  (resp_error resp = EmptyString \/ resp_is_temporary_failure resp = true) ->
  is_Some (read_response (fun _ => true) (adapter y) resp).
Proof.
  intros Hi Hf He. destruct (next_response s0 y wr rd resp rest Hi Hf) as (req & Hr & Hid).
  unfold read_response. rewrite Hid, (iv_outstanding _ _ _ _ Hi), Nat.leb_refl, Hr.
  case_bool_decide as Hb; cbn; [by eexists|]. destruct He as [He| ->]; [done|]. by eexists.
Qed.

(** While a reply is missing, some task other than the senders can go on. *)
Lemma progress s0 y wr rd : inv_with s0 y wr rd -> (length (delivered y) < length (sent y))%nat ->
  (forall q, signer_running y = true /\ is_Some (answer q (signer y))) ->
  (exists y', step y y' /\ sent y' = sent y)
  \/ exists resp rest, from_signer y = resp :: rest /\ resp_error resp <> EmptyString
       /\ resp_is_temporary_failure resp = false.
Proof.
  intros Hi Hlt Hrun. destruct (from_signer y) as [|resp rest] eqn:Hf.
  - left. destruct (to_signer y) as [|q qs] eqn:Hq.
    + destruct (queue y) as [|req qs] eqn:Hqu.
      { exfalso. destruct Hi as [H1 H2 H3 H4 H5 H6 H7 H8].
        pose proof (f_equal length H3). pose proof (f_equal length H4).
        rewrite H5, H1, length_zip_with in Hlt. rewrite !length_app, length_imap, !length_fmap in *.
        rewrite Hf, Hq, Hqu in *. cbn in *. lia. }
      destruct (write_request (adapter y) req) as [reqs sreq] eqn:Hw.
      eexists. split; [by eapply step_write|done].
    + destruct (Hrun q) as [Hr [[[s r] go] Ha]]. eexists. split; [by eapply step_answer|done].
  - destruct (decide (resp_error resp = EmptyString \/ resp_is_temporary_failure resp = true)) as [He|He].
    + left. destruct (response_known _ _ _ _ resp rest Hi Hf He) as [[[reqs tx] rep] Hrr].
      eexists. split; [by eapply step_read|done].
    + right. exists resp, rest. split; [done|]. destruct (resp_is_temporary_failure resp); naive_solver.
Qed.

(** C17: the proxy is a sequence of calls of the signer.  However the tasks
    interleave, with fewer than 2^64 requests: the signer was called with the
    messages and clients of the requests in the order in which they were sent,
    one after the other; the replies that were delivered are, in this order
    and once each, its responses to the first requests, on the channels on
    which their senders wait; the next response to be read is never one for an
    unknown request; and as long as the signer runs and answers, some task can
    make progress until every request has its reply or the signer reports a
    fatal error. *)
Theorem proxy_is_sequential s0 y (Hreach : rtc step (Sys_new s0) y)
  (Hcount : Z.of_nat (length (sent y)) < 2 ^ 64) :
  calls s0 (answered y) (signer y)
  /\ (answered y).*1 `prefix_of` imap as_request (sent y)
  /\ (exists later, (answered y).*2 = later ++ from_signer y
        /\ delivered y = zip_with deliver (sent y) later
        /\ length (delivered y) = length later)
  /\ (forall resp rest, from_signer y = resp :: rest ->
        (resp_error resp = EmptyString \/ resp_is_temporary_failure resp = true) ->
        is_Some (read_response (fun _ => true) (adapter y) resp))
  /\ ((length (delivered y) < length (sent y))%nat ->
       (forall q, signer_running y = true /\ is_Some (answer q (signer y))) ->
       (exists y', step y y' /\ sent y' = sent y)
       \/ exists resp rest, from_signer y = resp :: rest /\ resp_error resp <> EmptyString
            /\ resp_is_temporary_failure resp = false).
Proof.
  destruct (steps_inv s0 y Hreach Hcount) as (wr & rd & Hi).
  pose proof (read_count _ _ _ _ Hi) as Hc. pose proof Hi as [H1 H2 H3 H4 H5 H6 H7 H8].
  split; [done|]. split; [|split; [|split]].
  - rewrite H1, imap_app, <- H3, <- app_assoc. by eexists.
  - exists rd. split; [done|]. rewrite H5, H1, length_zip_with. split; [|lia].
    rewrite <- (zip_with_take_l _ (wr ++ _)), take_app_le, zip_with_take_l by lia. done.
  - intros resp rest. by eapply response_known.
  - by eapply progress.
Qed.
End signer.

(** ** The node's side (signer_loop.rs) *)

Section node_side.
Context `{L : Lib, !KeyLib, CL : ChainLib, IL : InvoiceLib, SB : SerdeBolt}.

(** [GrpcSignerPort::handle_message] and [SignerLoop::handle_message]: the
    request is sent again while the signer reports a temporary failure, at
    most [tries] times before the backoff gives up.  [send] is the reply to
    each try, [None] when the adapter is gone. *)
Fixpoint handle_message (tries : nat) (send : nat -> option ChannelReply) (i : nat)
  : outcome ClientError bytes :=
  match tries with
  | O => Err CTransport
  | S tries =>
      match send i with
      | None => Err CTransport
      | Some reply =>
          if reply_is_temporary_failure reply then handle_message tries send (S i)
          else Ok (reply_bytes reply)
      end
  end.

(** What a loop does to its client. *)
Inductive LoopEvent :=
| Replied (b : bytes)
| NewClient (client_id : ClientId).

(** [SignerLoop::do_loop] on the messages that the client sends; the end of
    its input ends the loop. *)
Fixpoint do_loop (handle : bytes -> outcome ClientError bytes) (inputs : list bytes)
  : list LoopEvent * outcome ClientError unit :=
  match inputs with
  | [] => ([], Err (CProtocol Eof))
  | raw_msg :: inputs =>
      match from_vec raw_msg with
      | Ok (MClientHsmFd peer_id dbid _) =>
          match as_vec (pack Msgs.ClientHsmFdReply tt) with
          | Ok b =>
              let '(l, r) := do_loop handle inputs in
              (Replied b :: NewClient {| cl_peer_id := peer_id; cl_dbid := dbid |} :: l, r)
          | _ => ([], Panic)
          end
      | Ok _ =>
          match handle raw_msg with
          | Ok reply => let '(l, r) := do_loop handle inputs in (Replied reply :: l, r)
          | Err e => ([], Err e)
          | Panic => ([], Panic)
          end
      | Err e => ([], Err (CProtocol e))
      | Panic => ([], Panic)
      end
  end.

(** The reply is that of the first try that was no temporary failure. *)
Lemma handle_message_ok tries send i b : handle_message tries send i = Ok b ->
  exists k r, (k < tries)%nat /\ send (i + k)%nat = Some r /\ reply_is_temporary_failure r = false
    /\ reply_bytes r = b
    /\ forall j, (j < k)%nat -> exists r', send (i + j)%nat = Some r' /\ reply_is_temporary_failure r' = true.
Proof.
  revert i. induction tries as [|tries IH]; intros i Hh; [done|]. cbn [handle_message] in Hh.
  destruct (send i) as [r|] eqn:Hs; [|done]. destruct (reply_is_temporary_failure r) eqn:Ht.
  - destruct (IH _ Hh) as (k & r' & Hk & Hs' & Hf & Hb & Hall). exists (S k), r'.
    split; [lia|]. split; [by rewrite Nat.add_succ_r|]. split; [done|]. split; [done|].
    intros [|j] Hj; [rewrite Nat.add_0_r; by exists r|]. destruct (Hall j) as (r2 & Hr2 & Ht2); [lia|].
    exists r2. by rewrite Nat.add_succ_r.
  - injection Hh as <-. exists 0%nat, r. rewrite Nat.add_0_r.
    split; [lia|]. split; [done|]. split; [done|]. split; [done|]. lia.
Qed.
End node_side.

(** ** Witness *)

#[local] Existing Instances sized_lib example_crypto sized_keys Tracker.example_chain_lib
  example_addresses example_invoices example_checkpoints example_node_lib example_ser Chan.release
  example_serde sized_wire.

(** Two processes send a message each, both are written to the signer, and the
    signer answers the first. *)
Definition memleak : bytes := [0; 33].

Definition example_clocks (id : Z) : bool * Clocks := (false, sized_clocks).

Definition example_request (tx : nat) : ChannelRequest :=
  {| cr_message := memleak; reply_tx := tx; cr_client_id := None |}.

Definition example_response (id : Z) : SignerResponse :=
  {| resp_request_id := id; resp_message := [0; 133; 0]; resp_error := EmptyString;
     resp_is_temporary_failure := false |}.

Definition start : VersionedStore * HSt KVJson.KVJsonPersister PositiveApprover := (∅, sized_signer).

Definition example_sreq (id : Z) : SignerRequest :=
  {| sr_request_id := id; sr_message := memleak; sr_context := None |}.

(** The states passed through. *)
Definition example_sys (q : list ChannelRequest) (a : Requests) (ts : list SignerRequest)
  (fs : list SignerResponse) (d : list (nat * ChannelReply)) (s : list ChannelRequest)
  (an : list (SignerRequest * SignerResponse)) : Sys (P := KVJson.KVJsonPersister) (A := PositiveApprover) := {|
  queue := q; adapter := a; to_signer := ts; from_signer := fs; signer := start; signer_running := true;
  delivered := d; sent := s; answered := an |}.

Definition both : list ChannelRequest := [example_request 7; example_request 8].
Definition adapter1 : Requests := {| requests := {[ 0 := example_request 7 ]}; request_id := 1 |}.
Definition adapter2 : Requests := (write_request adapter1 (example_request 8)).1.
Definition adapter3 : Requests := {| requests := delete 0 (requests adapter2); request_id := 2 |}.
Definition example_reply : ChannelReply :=
  {| reply_bytes := [0; 133; 0]; reply_is_temporary_failure := false |}.

Lemma example_answer : answer example_clocks (example_sreq 0) start = Some (start, example_response 0, true).
Proof. vm_cast_no_check (eq_refl (Some (start, example_response 0, true))). Qed.

Definition example_end := example_sys [] adapter3 [example_sreq 1] [] [(7%nat, example_reply)] both
  [(example_sreq 0, example_response 0)].

Lemma proxy_example_run : rtc (step example_clocks) (Sys_new start) example_end.
Proof.
  apply (rtc_l _ _ (example_sys [example_request 7] Requests_new [] [] [] [example_request 7] []));
    [exact (step_send _ _ (example_request 7))|].
  apply (rtc_l _ _ (example_sys both Requests_new [] [] [] both []));
    [exact (step_send _ (example_sys _ _ _ _ _ _ _) (example_request 8))|].
  apply (rtc_l _ _ (example_sys [example_request 8] adapter1 [example_sreq 0] [] [] both []));
    [exact (step_write _ (example_sys _ _ _ _ _ _ _) _ _ _ _ eq_refl eq_refl)|].
  apply (rtc_l _ _ (example_sys [] adapter2 [example_sreq 0; example_sreq 1] [] [] both []));
    [exact (step_write _ (example_sys _ _ _ _ _ _ _) _ _ _ _ eq_refl eq_refl)|].
  apply (rtc_l _ _ (example_sys [] adapter2 [example_sreq 1] [example_response 0] [] both
    [(example_sreq 0, example_response 0)]));
    [exact (step_answer _ (example_sys _ _ _ _ _ _ _) _ _ _ _ _ eq_refl eq_refl example_answer)|].
  apply rtc_once. exact (step_read _ (example_sys [] adapter2 [example_sreq 1] [example_response 0] [] both
    [(example_sreq 0, example_response 0)]) (example_response 0) [] adapter3 7 example_reply eq_refl eq_refl).
Qed.

Lemma proxy_is_sequential_witness :
  calls example_clocks start [(example_sreq 0, example_response 0)] start
  /\ is_Some (delivered example_end !! 0%nat).
Proof.
  split; [|by eexists].
  exact (proj1 (proxy_is_sequential example_clocks start example_end proxy_example_run ltac:(done))).
Defined.
