(* ===== verification/Recovery.v ===== *)
(** * Recovery of the funds of a node (vls-proxy/src/recovery/, tx_util.rs)

    When the node software is lost, the recovery tool force closes every
    channel of the signer, sweeps the delayed outputs of the commitments that
    are mature, and sweeps the on-chain wallet.  The keys are an interface
    ([RecoveryKeys], [RecoverySign]) that the node in the same process
    implements; the block explorer is a parameter.

    Everything the tool does with a [Result] is to unwrap it, so an operation
    here ends or panics. *)

From S2P Require Import Prelude Velocity Policy Order Extern Crypto Setup Tx Keys Allowlist Script.
From S2P Require Import Secrets Enforcement Validator NodeState ChannelOps Monitor Tracker Persist Node.
From S2P Require Import Msgs Approver Handler Client NodeInv SimpleValidator HandlerSafety.

Import NodeOps.

Notation UniCloseKey := (option (SecretKey * list bytes)).

(** ** tx_util.rs *)

(** [DelayedPaymentOutputDescriptor] of rust-lightning, as far as it is used. *)
Record DelayedDescriptor := {
  dd_outpoint : OutPoint;
  dd_per_commitment_point : PublicKey;
  dd_to_self_delay : Z;
  dd_output : TxOut;
  dd_revocation_pubkey : PublicKey
}.

Section tx_util.
Context `{L : Lib, !KeyLib, Prof : Profile}.

Definition delayed_input (d : DelayedDescriptor) : TxIn := {|
  previous_output := dd_outpoint d; script_sig := [];
  sequence := dd_to_self_delay d; witness := [] |}.

Definition delayed_step (acc : list TxIn * Z * Z * gset OutPoint) (d : DelayedDescriptor)
  : outcome string (list TxIn * Z * Z * gset OutPoint) :=
  let '(input, input_value, witness_weight, output_set) := acc in
  let input := input ++ [delayed_input d] in
  let witness_weight := witness_weight + DELAYED_MAX_WITNESS_LENGTH in
  input_value ← add64 input_value (out_value (dd_output d));
  whenb (bool_decide (dd_outpoint d ∈ output_set)) (Err "duplicate");;
  whenb (MAX_VALUE_MSAT / 1000 <? input_value) (Err "overflow");;
  Ok (input, input_value, witness_weight, {[dd_outpoint d]} ∪ output_set).

Definition create_spending_transaction (descriptors : list DelayedDescriptor) (output_script : Script)
  (feerate_sat_per_1000_weight : Z) : outcome string Transaction :=
  '(input, input_value, witness_weight, _) ← foldM delayed_step ([], 0, 0, ∅) descriptors;
  map_err (fun _ => "could not add change")
    (maybe_add_change_output {| version := 2; lock_time := 0; input := input; output := [] |}
       input_value witness_weight feerate_sat_per_1000_weight output_script).
End tx_util.

(** ** recovery/mod.rs *)

(** The traits [RecoveryKeys] and [RecoverySign]: a signer is one channel, and
    its operations work on the keys that it came from. *)
Class RecoveryKeys `{L : Lib, AL : AddressLib} (K : Type) := {
  RSigner : Type;
  (** the vector of [Iter] *)
  rk_signers : K -> list RSigner;
  rk_sign_onchain_tx : Transaction -> list Transaction -> list path -> list Z -> list SpendType ->
    list UniCloseKey -> list path -> CM K Status (list (list bytes));
  rk_wallet_address_native : Z -> K -> outcome Status Address;
  rs_sign_holder_commitment_tx_for_recovery : RSigner ->
    CM K Status (Transaction * list Transaction * Script * (SecretKey * list bytes) * PublicKey);
  rs_funding_outpoint {E} : RSigner -> K -> outcome E OutPoint;
  rs_counterparty_selected_contest_delay {E} : RSigner -> K -> outcome E Z;
  rs_get_per_commitment_point : RSigner -> K -> outcome Status PublicKey
}.

Record UtxoResponse := { u_txid : Txid; u_vout : Z; u_value : Z }.

(** bitcoind_client: the block explorers.  [get_utxos] and [get_feerate] are
    one HTTP request each; the feerate is computed from a float. *)
Inductive BlockExplorerType := Bitcoind | Esplora.

Class Explorer `{AL : AddressLib} (X : Type) := {
  get_utxo_confirmations : OutPoint -> X -> outcome unit (option Z);
  broadcast_transaction : Transaction -> CM X unit unit;
  get_utxos : Address -> X -> outcome unit (list UtxoResponse);
  get_feerate : X -> outcome unit Z;
  is_valid_for_network : Address -> Network -> bool
}.

(** [Iter::next] pops the last signer. *)
Definition iter_order {S} (signers : list S) : list S := rev signers.

(** A loop with an accumulator. *)
Fixpoint c_fold {T E A B} (f : A -> B -> CM T E A) (acc : A) (l : list B) : CM T E A :=
  match l with
  | [] => mret acc
  | b :: l => acc ← f acc b; c_fold f acc l
  end.

Section recovery.
Context `{L : Lib, !KeyLib, AL : AddressLib, Prof : Profile} {K : Type} `{!RecoveryKeys K}.
Context {X : Type} `{!Explorer X}.
Notation RM := (CM (K * X) unit).

(** [.expect(..)] on operations of the keys and of the explorer. *)
Definition on_keys {E R} (m : CM K E R) : RM R := fun s =>
  let '(k, r) := m s.1 in ((k, s.2), unwrap_ok r).
Definition ask_keys {E R} (f : K -> outcome E R) : RM R := fun s => (s, unwrap_ok (f s.1)).
Definition ask {R} (f : X -> outcome unit R) : RM R := fun s => (s, unwrap_ok (f s.2)).
Definition broadcast (tx : Transaction) : RM unit := fun s =>
  let '(x, r) := broadcast_transaction tx s.2 in ((s.1, x), unwrap_ok r).

(** [tx.input[i].witness = Witness::from_vec(w)] for every witness. *)
Definition set_input_witness (tx : Transaction) (iw : nat * list bytes) : outcome unit Transaction :=
  inp ← unwrap (input tx !! iw.1);
  Ok {| version := version tx; lock_time := lock_time tx;
        input := <[iw.1 := {| previous_output := previous_output inp; script_sig := script_sig inp;
                              sequence := sequence inp; witness := iw.2 |}]> (input tx);
        output := output tx |}.
Definition set_witnesses (tx : Transaction) (ws : list (list bytes)) : outcome unit Transaction :=
  foldM set_input_witness tx (imap pair ws).

Definition l1_input (iu : Z * UtxoResponse) : TxIn := {|
  previous_output := {| op_txid := u_txid iu.2; vout := u_vout iu.2 |}; script_sig := [];
  sequence := 0; witness := [] |}.

Definition make_l1_sweep (destination_address : Address) (chunk : list (Z * UtxoResponse))
  (feerate_per_kw : Z) : RM (option Transaction) :=
  value ← c_lift (sum64 ((fun iu => u_value iu.2) <$> chunk));
  let script := address_script_pubkey destination_address in
  let tx := {| version := 2; lock_time := 0; input := l1_input <$> chunk;
               output := [{| out_value := value; script_pubkey := script |}] |} in
  total_fee ← c_lift (mul64 feerate_per_kw (tx_weight tx));
  let total_fee := total_fee / 1000 in
  limit ← c_lift (sub64 value 1000);
  if limit <? total_fee then mret None else
  paid ← c_lift (sub64 value total_fee);
  let tx := {| version := 2; lock_time := 0; input := input tx;
               output := [{| out_value := paid; script_pubkey := script |}] |} in
  witnesses ← on_keys (rk_sign_onchain_tx tx [] ((fun iu => [iu.1]) <$> chunk)
    ((fun iu => u_value iu.2) <$> chunk) ((fun _ => P2wpkh) <$> chunk) ((fun _ => None) <$> chunk) [[]]);
  tx ← c_lift (set_witnesses tx witnesses);
  mret (Some tx).

Definition recover_l1 (network : Network) (block_explorer_type : BlockExplorerType)
  (destination : string) (max_index : nat) : RM unit :=
  match block_explorer_type with
  | Esplora =>
      utxos ← c_fold (fun utxos index =>
          address ← ask_keys (rk_wallet_address_native (Z.of_nat index));
          us ← ask (get_utxos address);
          mret (utxos ++ ((Z.of_nat index,.) <$> us)))
        [] (seq 0 max_index);
      destination_address ← c_lift (unwrap (address_from_str destination));
      c_lift (assert_ (is_valid_for_network destination_address network));;
      feerate_per_kw ← ask get_feerate;
      c_fold (fun _ chunk =>
          swept ← make_l1_sweep destination_address chunk feerate_per_kw;
          match swept with Some tx => broadcast tx | None => mret tt end)
        tt (chunks 10 utxos)
  | _ => c_lift Panic
  end.

Definition spend_delayed_outputs (descriptors : list DelayedDescriptor)
  (unilateral_close_key : SecretKey * list bytes) (output_script : Script) (opath : path)
  (feerate_sat_per_1000_weight : Z) : RM Transaction :=
  tx ← c_lift (unwrap_ok (create_spending_transaction descriptors output_script
                            feerate_sat_per_1000_weight));
  witnesses ← on_keys (rk_sign_onchain_tx tx [] ((fun _ => []) <$> descriptors)
    ((fun d => out_value (dd_output d)) <$> descriptors) ((fun _ => P2wsh) <$> descriptors)
    ((fun _ => Some unilateral_close_key) <$> descriptors) [opath]);
  c_lift (assert_ (length witnesses =? length (input tx))%nat);;
  c_lift (set_witnesses tx witnesses).

(** An output of the closing transaction, when the channel is already closed. *)
Definition check_output (signer : RSigner) (tx : Transaction) (revocable_script : Script)
  (uck : SecretKey * list bytes) (revocation_pubkey : PublicKey) (required_confirms : Z)
  (sweeps : list (DelayedDescriptor * (SecretKey * list bytes))) (io : nat * TxOut)
  : RM (list (DelayedDescriptor * (SecretKey * list bytes))) :=
  let '(idx, out) := io in
  if bool_decide (script_pubkey out = revocable_script) then
    let out_point := {| op_txid := txid tx; vout := as_u 16 (Z.of_nat idx) |} in
    confirms ← ask (get_utxo_confirmations out_point);
    match confirms with
    | Some confirms =>
        if required_confirms <=? confirms then
          to_self_delay ← ask_keys (rs_counterparty_selected_contest_delay (E := unit) signer);
          point ← ask_keys (rs_get_per_commitment_point signer);
          mret (sweeps ++ [({| dd_outpoint := out_point; dd_per_commitment_point := point;
                               dd_to_self_delay := to_self_delay; dd_output := out;
                               dd_revocation_pubkey := revocation_pubkey |}, uck)])
        else mret sweeps
    | None => mret sweeps
    end
  else mret sweeps.

(** The loop over the channels; [has_explorer] when there is an explorer. *)
Definition close_channel (has_explorer : bool)
  (sweeps : list (DelayedDescriptor * (SecretKey * list bytes))) (signer : RSigner)
  : RM (list (DelayedDescriptor * (SecretKey * list bytes))) :=
  '(tx, _, revocable_script, uck, revocation_pubkey) ←
    on_keys (rs_sign_holder_commitment_tx_for_recovery signer);
  if has_explorer then
    outpoint ← ask_keys (rs_funding_outpoint (E := unit) signer);
    funding_confirms ← ask (get_utxo_confirmations outpoint);
    match funding_confirms with
    | Some _ => broadcast tx;; mret sweeps
    | None =>
        required_confirms ← ask_keys (rs_counterparty_selected_contest_delay (E := unit) signer);
        c_fold (check_output signer tx revocable_script uck revocation_pubkey required_confirms)
          sweeps (imap pair (output tx))
    end
  else mret sweeps.

Definition recover_close (network : Network) (has_explorer : bool) (destination : string) : RM unit :=
  signers ← (fun s => (s, Ok (rk_signers s.1)));
  sweeps ← c_fold (close_channel has_explorer) [] (iter_order signers);
  if String.eqb destination "none" then mret tt else
  destination_allowable ← c_lift (unwrap_ok (Allowlist.from_str destination network));
  output_script ← c_lift (unwrap_ok (Allowlist.to_script destination_allowable));
  c_fold (fun _ '(descriptor, uck) =>
      sweep_tx ← spend_delayed_outputs [descriptor] uck output_script [] 1000;
      if has_explorer then broadcast sweep_tx else mret tt)
    tt sweeps.
End recovery.

(** ** recovery/direct.rs: the keys of a node in the same process *)

(** The readings of the clock, in order. *)
Record DirectRecoveryKeys `{L : Lib, !KeyLib, CL : ChainLib} (P : Type) := {
  dk_node : NSt P;
  dk_readings : nat -> Z
}.
Arguments dk_node {_ _ _ P}.
Arguments dk_readings {_ _ _ P}.

Section direct.
Context `{L : Lib, CrL : CryptoLib, !KeyLib, CL : ChainLib, AL : AddressLib, IL : InvoiceLib}.
Context `{CkL : CheckpointLib, NL : NodeLib, SL : SerLib, Prof : Profile}.
Context {P : Type} `{!Persist P}.
Notation DM := (CM (DirectRecoveryKeys P) Status).

Definition on_direct {R} (m : M P R) : DM R := fun k =>
  let '(s, r) := m (dk_node k) in ({| dk_node := s; dk_readings := dk_readings k |}, r).

(** The channels of the map that are ready, in its order.  A signer holds the
    slot; recovery does not change the map, so it is named by the id here. *)
Definition direct_signers (k : DirectRecoveryKeys P) : list ChannelId :=
  let n := node (dk_node k) in
  omap (fun '(id, ptr) => sl ← slots n !! ptr;
          match slot sl with Stub _ => None | Ready _ => Some id end) (channel_slots n).

Definition direct_sign_onchain_tx (tx : Transaction) (input_txs : list Transaction) (ipaths : list path)
  (values_sat : list Z) (spendtypes : list SpendType) (uniclosekeys : list UniCloseKey)
  (opaths : list path) : DM (list (list bytes)) := fun k =>
  let '(n, r) := check_onchain_tx (node (dk_node k)) tx input_txs values_sat spendtypes uniclosekeys
                   opaths (dk_readings k 0%nat) in
  let k := {| dk_node := {| node := n; store := store (dk_node k) |};
              dk_readings := fun i => dk_readings k (S i) |} in
  (c_lift (map_err status_from r);;
   on_direct (unchecked_sign_onchain_tx tx ipaths values_sat spendtypes uniclosekeys)) k.

(** [DirectRecoverySigner::channel] *)
Definition direct_channel {E} (id : ChannelId) (k : DirectRecoveryKeys P) : outcome E Channel :=
  ptr ← unwrap (channels (node (dk_node k)) !! id);
  sl ← unwrap (slots (node (dk_node k)) !! ptr);
  match slot sl with Stub _ => Panic | Ready c => Ok c end.

Definition direct_get_per_commitment_point (id : ChannelId) (k : DirectRecoveryKeys P)
  : outcome Status PublicKey :=
  chan ← direct_channel id k;
  n ← sub64 (next_holder_commit_num (enforcement_state chan)) 1;
  Chan.get_per_commitment_point chan n.

#[export] Instance direct_recovery_keys : RecoveryKeys (DirectRecoveryKeys P) := {|
  RSigner := ChannelId;
  rk_signers := direct_signers;
  rk_sign_onchain_tx := direct_sign_onchain_tx;
  rk_wallet_address_native index k := get_native_address (node (dk_node k)) [index];
  rs_sign_holder_commitment_tx_for_recovery id :=
    on_direct (channel_op true Chan.sign_holder_commitment_tx_for_recovery id);
  rs_funding_outpoint E id k :=
    chan ← direct_channel id k;
    let o := funding_outpoint (setup chan) in
    Ok {| op_txid := op_txid o; vout := as_u 16 (vout o) |};
  rs_counterparty_selected_contest_delay E id k :=
    chan ← direct_channel id k; Ok (counterparty_selected_contest_delay (setup chan));
  rs_get_per_commitment_point := direct_get_per_commitment_point |}.
End direct.

(** ** What is broadcast *)

Lemma c_fold_inv {T E A B} (I : list B -> A -> T -> Prop) (f : A -> B -> CM T E A) l acc s acc' s' :
  c_fold f acc l s = (s', Ok acc') -> I [] acc s ->
  (forall pre b acc s acc' s', I pre acc s -> f acc b s = (s', Ok acc') -> b ∈ l ->
    I (pre ++ [b]) acc' s') -> I l acc' s'.
Proof.
  intros Hf H0 Hstep. change l with ([] ++ l) at 1. revert Hf H0.
  generalize (@nil B) as pre. revert acc s.
  assert (Hsub : l ⊆ l) by done. revert Hsub. generalize l at 1 3 4 as rest.
  induction rest as [|b rest IH]; intros Hsub acc s pre Hf HI; cbn [c_fold] in Hf.
  - injection Hf as <- <-. by rewrite app_nil_r.
  - apply C_bind_Ok in Hf as (s1 & acc1 & Hb & Hf). rewrite cons_middle, app_assoc.
    eapply IH; [set_solver|exact Hf|]. eapply Hstep; [exact HI|exact Hb|set_solver].
Qed.

Section spending.
Context `{L : Lib, !KeyLib, Prof : Profile}.

Definition dd_value (d : DelayedDescriptor) : Z := out_value (dd_output d).

(** What [create_spending_transaction] collects from the descriptors. *)
Record collected (ds : list DelayedDescriptor) (acc : list TxIn * Z * Z * gset OutPoint) : Prop := {
  c_inputs : acc.1.1.1 = delayed_input <$> ds;
  c_value : acc.1.1.2 = sum_list_Z (dd_value <$> ds) /\ 0 <= acc.1.1.2 < 2 ^ 62;
  c_weight : acc.1.2 = Z.of_nat (length ds) * DELAYED_MAX_WITNESS_LENGTH
}.

Lemma delayed_collect ds acc : Forall (fun d => 0 <= dd_value d < 2 ^ 63) ds ->
  foldM delayed_step ([], 0, 0, ∅) ds = Ok acc -> collected ds acc.
Proof.
  intros Hv Hg. refine (foldM_inv (fun pre acc =>
    Forall (fun d => 0 <= dd_value d < 2 ^ 63) pre -> collected pre acc) _ ds _ _ _ _ Hg Hv).
  - intros _. split; [done|done|]. cbn. lia.
  - intros pre d [[[ins iv] w] os] acc' IH Hstep [Hpre Hd]%Forall_app.
    rewrite Forall_singleton in Hd. destruct (IH Hpre) as [Hi [Hval Hr] Hwt]. cbn in *.
    unfold delayed_step, MAX_VALUE_MSAT in Hstep. fold (dd_value d) in Hstep.
    rewrite add64_in, Ok_bind in Hstep by lia. inv_ok Hstep. b2p.
    change (2100000000000000000 / 1000) with 2100000000000000 in *. split; cbn.
    + by rewrite fmap_app.
    + rewrite fmap_app, sum_list_Z_app. cbn [fmap list_fmap sum_list_Z foldr]. lia.
    + rewrite length_app. cbn. lia.
Qed.

(** What the sizes of the bitcoin library promise. *)
Class SizeLaws : Prop := {
  law_weight t : 0 <= tx_weight t;
  law_max_witness : 0 <= DELAYED_MAX_WITNESS_LENGTH;
  law_out_len o : 0 <= txout_encoded_len o;
  law_varint n : varint_len n <= varint_len (n + 1)
}.

(** A transaction that spends exactly the outputs described, after their
    delay, to the script and to nothing else; its fee is the feerate for its
    weight, the output and the witnesses included. *)
Record sweeps_to (ds : list DelayedDescriptor) (script : Script) (feerate : Z) (tx : Transaction) : Prop := {
  st_inputs : previous_output <$> input tx = dd_outpoint <$> ds;
  st_delays : sequence <$> input tx = dd_to_self_delay <$> ds;
  st_output : change_made
    {| version := 2; lock_time := 0; input := delayed_input <$> ds; output := [] |}
    (sum_list_Z (dd_value <$> ds)) (Z.of_nat (length ds) * DELAYED_MAX_WITNESS_LENGTH) feerate
    script (output tx)
}.

Lemma create_spending_transaction_sweeps `{!SizeLaws} ds script feerate tx :
  Forall (fun d => 0 <= dd_value d < 2 ^ 63) ds -> 0 <= feerate ->
  create_spending_transaction ds script feerate = Ok tx -> sweeps_to ds script feerate tx.
Proof.
  intros Hv Hf Hc. unfold create_spending_transaction in Hc.
  apply bind_Ok in Hc as ([[[ins iv] w] os] & Hg & Hc). apply delayed_collect in Hg as [Hi [Hval Hr] Hw]; [|done].
  cbn in *. subst ins iv w. apply map_err_Ok in Hc.
  pose proof law_max_witness.
  pose proof (law_weight {| version := 2; lock_time := 0; input := delayed_input <$> ds; output := [] |}).
  apply maybe_add_change_output_pays in Hc as (Ho & Hin); cbn [input output] in *;
    [|lia..|apply law_out_len|apply law_varint|constructor].
  split; [by rewrite Hin, <- list_fmap_compose..|exact Ho].
Qed.

(** Setting witnesses changes nothing else. *)
Lemma set_witnesses_keeps tx ws tx' : set_witnesses tx ws = Ok tx' ->
  previous_output <$> input tx' = previous_output <$> input tx
  /\ sequence <$> input tx' = sequence <$> input tx /\ output tx' = output tx.
Proof.
  unfold set_witnesses. generalize (imap pair ws). intros l. revert tx.
  induction l as [|iw l IH]; intros tx H'; cbn [foldM] in H'; [by simplify_eq|].
  apply bind_Ok in H' as (tx1 & H1 & H2). apply IH in H2 as (-> & -> & ->).
  unfold set_input_witness in H1. inv_ok H1. cbn [input output].
  rewrite !list_fmap_insert. split; [|split; [|done]]; apply list_insert_id;
    rewrite list_lookup_fmap; by rewrite Hx.
Qed.
End spending.

Section claims.
Context `{L : Lib, !KeyLib, AL : AddressLib, Prof : Profile} {K : Type} `{!RecoveryKeys K}.
Context {X : Type} `{!Explorer X} `{!SizeLaws}.
(** The transactions that the explorer has accepted, in order. *)
Context (sent : X -> list Transaction).
Context (Hsent : forall tx x x', broadcast_transaction tx x = (x', Ok tt) -> sent x' = sent x ++ [tx]).
Notation sweep_of := (DelayedDescriptor * (SecretKey * list bytes))%type.

Lemma broadcast_ok tx (s s' : K * X) u : broadcast tx s = (s', Ok u) ->
  s'.1 = s.1 /\ sent s'.2 = sent s.2 ++ [tx].
Proof.
  unfold broadcast. destruct (broadcast_transaction tx s.2) as [x r] eqn:Hb. intros [= <- Hr].
  destruct r; [|done..]. split; [done|]. apply Hsent. by destruct a.
Qed.

(** A channel that was looked at: its commitment was signed and the explorer
    was asked for the funding output, when [sent x] had been broadcast; if the
    output was unspent the commitment was broadcast next. *)
Record looked_at (log : list Transaction) (signer : RSigner) (k k' : K) (x : X) (tx : Transaction)
  (script : Script) (uck : SecretKey * list bytes) (confirms : option Z) : Prop := {
  la_signed : exists htlcs rk, rs_sign_holder_commitment_tx_for_recovery signer k
    = (k', Ok (tx, htlcs, script, uck, rk));
  la_funding : exists op, rs_funding_outpoint (E := unit) signer k' = Ok op
    /\ get_utxo_confirmations op x = Ok confirms;
  la_log : sent x ++ from_option (fun _ => [tx]) [] confirms `prefix_of` log
}.

Definition handled log signer : Prop :=
  exists k k' x tx script uck confirms, looked_at log signer k k' x tx script uck confirms.

(** A force close was broadcast when the funding output was unspent. *)
Definition force_close (ss : list RSigner) log tx : Prop :=
  exists signer k k' x script uck n, signer ∈ ss
    /\ looked_at log signer k k' x tx script uck (Some n).

(** An output to sweep is the delayed output of a commitment of a channel
    whose funding is spent, unspent itself and at least as deep as its delay. *)
Definition matured (ss : list RSigner) log (du : sweep_of) : Prop :=
  exists signer k k' x tx script idx o n delay, signer ∈ ss
    /\ looked_at log signer k k' x tx script du.2 None
    /\ output tx !! idx = Some o /\ script_pubkey o = script
    /\ dd_output du.1 = o
    /\ dd_outpoint du.1 = {| op_txid := txid tx; vout := as_u 16 (Z.of_nat idx) |}
    /\ get_utxo_confirmations (dd_outpoint du.1) x = Ok (Some n)
    /\ rs_counterparty_selected_contest_delay (E := unit) signer k' = Ok delay
    /\ dd_to_self_delay du.1 = delay /\ delay <= n.

Lemma looked_at_mono log log' signer k k' x tx script uck c : log `prefix_of` log' ->
  looked_at log signer k k' x tx script uck c -> looked_at log' signer k k' x tx script uck c.
Proof. intros Hl [Hs Hf Hg]. split; [done|done|by etrans]. Qed.

Lemma handled_mono log log' signer : log `prefix_of` log' -> handled log signer -> handled log' signer.
Proof.
  intros Hl (k & k' & x & tx & sc & uck & c & Hla). exists k, k', x, tx, sc, uck, c.
  by eapply looked_at_mono.
Qed.

Lemma force_close_mono ss log log' tx : log `prefix_of` log' -> force_close ss log tx -> force_close ss log' tx.
Proof.
  intros Hl (sg & k & k' & x & sc & uck & n & Hin & Hla). exists sg, k, k', x, sc, uck, n.
  split; [done|]. by eapply looked_at_mono.
Qed.

Lemma matured_mono ss log log' du : log `prefix_of` log' -> matured ss log du -> matured ss log' du.
Proof.
  intros Hl (sg & k & k' & x & tx & sc & idx & o & n & d & Hin & Hla & Hrest).
  exists sg, k, k', x, tx, sc, idx, o, n, d. split; [done|]. split; [by eapply looked_at_mono|done].
Qed.

Lemma ask_keys_ok {E R} (f : K -> outcome E R) (s s' : K * X) r :
  ask_keys f s = (s', Ok r) -> s' = s /\ f s.1 = Ok r.
Proof. unfold ask_keys. intros [= <- Hr]. split; [done|]. by destruct (f s.1); simplify_eq/=. Qed.

Lemma ask_ok {R} (f : X -> outcome unit R) (s s' : K * X) r :
  ask f s = (s', Ok r) -> s' = s /\ f s.2 = Ok r.
Proof. unfold ask. intros [= <- Hr]. split; [done|]. by destruct (f s.2); simplify_eq/=. Qed.

Lemma on_keys_ok {E R} (m : CM K E R) (s s' : K * X) r : on_keys m s = (s', Ok r) ->
  m s.1 = (s'.1, Ok r) /\ s'.2 = s.2.
Proof.
  unfold on_keys. destruct (m s.1) as [k [a| |]]; intros [= <- Hr]; [|done..].
  by simplify_eq.
Qed.

Lemma c_lift_ok {E R} (o : outcome E R) (s s' : K * X) r : c_lift o s = (s', Ok r) -> s' = s /\ o = Ok r.
Proof. by intros [= <- ->]. Qed.

Lemma check_outputs_ok ss signer k k' x tx script uck rk delay sweeps s' sweeps' : signer ∈ ss ->
  looked_at (sent x) signer k k' x tx script uck None ->
  rs_counterparty_selected_contest_delay (E := unit) signer k' = Ok delay ->
  c_fold (check_output signer tx script uck rk delay) sweeps (imap pair (output tx)) (k', x)
    = (s', Ok sweeps') ->
  s' = (k', x)
  /\ (Forall (matured ss (sent x)) sweeps -> Forall (matured ss (sent x)) sweeps').
Proof.
  intros Hin Hla Hd Hf.
  refine (c_fold_inv (fun _ acc s => s = (k', x)
    /\ (Forall (matured ss (sent x)) sweeps -> Forall (matured ss (sent x)) acc))
    _ _ _ _ _ _ Hf (conj eq_refl (fun Hs => Hs)) _).
  intros _ [idx o] acc s acc' s1 [-> Hacc] Hstep Hio. unfold check_output in Hstep.
  apply elem_of_lookup_imap in Hio as (i & o' & [= -> ->] & Ho).
  case_bool_decide as Hsc; [|by injection Hstep as <- <-].
  apply C_bind_Ok in Hstep as (s2 & c & [-> Hc]%ask_ok & Hstep). cbn [fst snd] in *.
  destruct c as [n|]; [|by injection Hstep as <- <-].
  destruct (delay <=? n) eqn:Hn; [|by injection Hstep as <- <-]. b2p.
  apply C_bind_Ok in Hstep as (s2 & d & [-> Hd']%ask_keys_ok & Hstep).
  apply C_bind_Ok in Hstep as (s2 & pt & [-> _]%ask_keys_ok & [= <- <-]). cbn [fst snd] in *.
  split; [done|]. intros Hs. apply Forall_app. split; [by apply Hacc|]. apply Forall_singleton.
  exists signer, k, k', x, tx, script, i, o', n, delay. cbn. rewrite Hd in Hd'. injection Hd' as <-. done.
Qed.

(** One channel. *)
Lemma close_channel_ok ss signer sweeps s s' sweeps' : signer ∈ ss ->
  close_channel true sweeps signer s = (s', Ok sweeps') ->
  exists closes, sent s'.2 = sent s.2 ++ closes /\ Forall (force_close ss (sent s'.2)) closes
    /\ handled (sent s'.2) signer
    /\ (Forall (matured ss (sent s.2)) sweeps -> Forall (matured ss (sent s'.2)) sweeps').
Proof.
  intros Hin Hc. unfold close_channel in Hc.
  apply C_bind_Ok in Hc as ([k' x] & [[[[tx htlcs] script] uck] rk] & [Hsg Hx]%on_keys_ok & Hc).
  cbn [fst snd] in *. subst x.
  apply C_bind_Ok in Hc as (s2 & op & [-> Hop]%ask_keys_ok & Hc).
  apply C_bind_Ok in Hc as (s2 & c & [-> Hcf]%ask_ok & Hc). cbn [fst snd] in *.
  assert (Hla : forall log, sent s.2 ++ from_option (fun _ => [tx]) [] c `prefix_of` log ->
    looked_at log signer s.1 k' s.2 tx script uck c) by (intros log Hl; split; eauto).
  destruct c as [n|]; cbn [from_option] in Hla.
  - apply C_bind_Ok in Hc as (s3 & u & [_ Hb]%broadcast_ok & [= <- <-]). cbn [fst snd] in Hb.
    exists [tx]. rewrite Hb. split; [done|]. split; [|split].
    + apply Forall_singleton. exists signer, s.1, k', s.2, script, uck, n. split; [done|]. by apply Hla.
    + exists s.1, k', s.2, tx, script, uck, (Some n). by apply Hla.
    + intros Hs. eapply Forall_impl; [exact Hs|]. intros du. apply matured_mono. by apply prefix_app_r.
  - apply C_bind_Ok in Hc as (s3 & d & [-> Hd]%ask_keys_ok & Hc). cbn [fst snd] in *.
    specialize (Hla (sent s.2)). rewrite app_nil_r in Hla. specialize (Hla (reflexivity _)).
    exists []. destruct s' as [k2 x2]. cbn [fst snd] in *.
    eapply check_outputs_ok in Hc as [[= -> ->] Hm]; [|exact Hin|exact Hla|exact Hd].
    rewrite app_nil_r. split; [done|]. split; [constructor|]. split.
    + by exists s.1, k', s.2, tx, script, uck, None.
    + exact Hm.
Qed.

Lemma Forall_log {A} (Q : list Transaction -> A -> Prop) log log' l :
  (forall a, Q log a -> Q log' a) -> Forall (Q log) l -> Forall (Q log') l.
Proof. intros HQ Hl. eapply Forall_impl; [exact Hl|exact HQ]. Qed.

(** The loop over the channels. *)
Lemma close_channels_ok ss s s' sweeps :
  c_fold (close_channel true) [] ss s = (s', Ok sweeps) ->
  exists closes, sent s'.2 = sent s.2 ++ closes /\ Forall (force_close ss (sent s'.2)) closes
    /\ Forall (handled (sent s'.2)) ss /\ Forall (matured ss (sent s'.2)) sweeps.
Proof.
  intros Hf. refine (c_fold_inv (fun pre acc s1 => exists closes, sent s1.2 = sent s.2 ++ closes
    /\ Forall (force_close ss (sent s1.2)) closes /\ Forall (handled (sent s1.2)) pre
    /\ Forall (matured ss (sent s1.2)) acc) _ _ _ _ _ _ Hf _ _).
  - exists []. by rewrite app_nil_r.
  - intros pre b acc s1 acc' s2 (cl & Hcl & Hfc & Hh & Hm) Hst Hb.
    apply (close_channel_ok ss) in Hst as (cl' & Hcl' & Hfc' & Hh' & Hm'); [|done].
    assert (Hpre : sent s1.2 `prefix_of` sent s2.2) by (rewrite Hcl'; by apply prefix_app_r).
    exists (cl ++ cl'). split; [by rewrite Hcl', Hcl, app_assoc|]. split; [|split].
    + apply Forall_app. split; [|done]. eapply Forall_log; [|exact Hfc]. intros. by eapply force_close_mono.
    + apply Forall_app. split; [|by apply Forall_singleton]. eapply Forall_log; [|exact Hh].
      intros. by eapply handled_mono.
    + by apply Hm'.
Qed.

Lemma matured_value ss log du :
  (forall signer k1 k2 tx htlcs script uck rk,
    rs_sign_holder_commitment_tx_for_recovery signer k1 = (k2, Ok (tx, htlcs, script, uck, rk)) ->
    Forall (fun o => 0 <= out_value o < 2 ^ 63) (output tx)) ->
  matured ss log du -> 0 <= dd_value du.1 < 2 ^ 63.
Proof.
  intros Hvals (sg & k & k' & x & tx & sc & idx & o & n & d & _ & [(htlcs & rk & Hsg) _ _] & Ho & _ & Hd & _).
  apply Hvals in Hsg. rewrite Forall_forall in Hsg. unfold dd_value. rewrite Hd.
  apply Hsg. by apply list_elem_of_lookup_2 in Ho.
Qed.

Lemma spend_delayed_outputs_ok ds uck script opath feerate (s s' : K * X) tx :
  Forall (fun d => 0 <= dd_value d < 2 ^ 63) ds -> 0 <= feerate ->
  spend_delayed_outputs ds uck script opath feerate s = (s', Ok tx) ->
  s'.2 = s.2 /\ sweeps_to ds script feerate tx.
Proof.
  intros Hv Hfr Hs. unfold spend_delayed_outputs in Hs.
  apply C_bind_Ok in Hs as (s1 & tx1 & [-> Hc]%c_lift_ok & Hs).
  apply (proj1 (unwrap_ok_Ok _ _)) in Hc.
  apply C_bind_Ok in Hs as (s1 & ws & [_ Hx]%on_keys_ok & Hs).
  apply C_bind_Ok in Hs as (s2 & [] & [-> _]%c_lift_ok & [-> Hw]%c_lift_ok).
  split; [done|]. apply create_spending_transaction_sweeps in Hc as [Hi Hd Ho]; [|done..].
  apply set_witnesses_keeps in Hw as (Hi' & Hd' & Ho'). split; [congruence..|]. by rewrite Ho'.
Qed.

(** The loop over the outputs to sweep. *)
Lemma sweep_loop_ok script dus (s s' : K * X) u :
  Forall (fun du : sweep_of => 0 <= dd_value du.1 < 2 ^ 63) dus ->
  c_fold (fun _ '(descriptor, uck) =>
      sweep_tx ← spend_delayed_outputs [descriptor] uck script [] 1000; broadcast sweep_tx)
    tt dus s = (s', Ok u) ->
  exists txs, sent s'.2 = sent s.2 ++ txs
    /\ Forall2 (fun (du : sweep_of) tx => sweeps_to [du.1] script 1000 tx) dus txs.
Proof.
  intros Hv Hf. refine (c_fold_inv (fun pre _ s1 => exists txs, sent s1.2 = sent s.2 ++ txs
    /\ Forall2 (fun (du : sweep_of) tx => sweeps_to [du.1] script 1000 tx) pre txs) _ _ _ _ _ _ Hf _ _).
  - exists []. by rewrite app_nil_r.
  - intros pre [d uck] _ s1 [] s2 (txs & Htx & Hsw) Hst Hin.
    apply C_bind_Ok in Hst as (s3 & tx & Hsp & [_ Hb]%broadcast_ok).
    rewrite Forall_forall in Hv. specialize (Hv _ Hin).
    apply spend_delayed_outputs_ok in Hsp as [Heq Hst]; [|by apply Forall_singleton|done].
    exists (txs ++ [tx]). rewrite Hb, Heq, Htx. split; [by rewrite app_assoc|].
    apply Forall2_app; [done|]. apply Forall2_cons. split; [exact Hst|by apply Forall2_nil].
Qed.

(** C25: a recovery with an explorer that ends has looked at every channel of the node; it has
    broadcast, first, the holder commitments of channels whose funding output
    the explorer reported unspent at that time, and then, when there is a
    destination, one transaction for each of a list of outputs, each the
    delayed output of a signed commitment of a closed channel, unspent and at
    least as deep as its delay.  Such a transaction spends that output only,
    after its delay, and pays only the destination: either an output of at
    least the dust limit, with a fee of exactly 1000 satoshi for each 1000 of
    the weight of the transaction with that output and its witness, or, when
    that would be dust, nothing. *)
Theorem recovery_sweeps_mature network destination (k : K) (x : X) s' u
  (Hvals : forall signer k1 k2 tx htlcs script uck rk,
    rs_sign_holder_commitment_tx_for_recovery signer k1 = (k2, Ok (tx, htlcs, script, uck, rk)) ->
    Forall (fun o => 0 <= out_value o < 2 ^ 63) (output tx))
  (Hrun : recover_close network true destination (k, x) = (s', Ok u)) :
  let ss := iter_order (rk_signers k) in
  let log := sent s'.2 in
  exists closes sweeps, log = sent x ++ closes ++ sweeps
    /\ Forall (handled log) ss /\ Forall (force_close ss log) closes
    /\ if String.eqb destination "none" then sweeps = [] else
       exists script dus, Allowlist.from_str destination network = Ok (AllowScript script)
         /\ Forall (matured ss log) dus
         /\ Forall2 (fun (du : sweep_of) tx => sweeps_to [du.1] script 1000 tx) dus sweeps.
Proof.
  cbn zeta. unfold recover_close in Hrun.
  apply C_bind_Ok in Hrun as (s1 & ss & [= <- <-] & Hrun). cbn [fst] in Hrun.
  apply C_bind_Ok in Hrun as (s2 & dus & Hcl & Hrun).
  apply close_channels_ok in Hcl as (closes & Hlog & Hfc & Hh & Hm). cbn [snd] in Hlog.
  destruct (String.eqb destination "none") eqn:Hd.
  { injection Hrun as <- _. exists closes, []. by rewrite app_nil_r. }
  apply C_bind_Ok in Hrun as (s3 & al & [-> Hal]%c_lift_ok & Hrun). apply (proj1 (unwrap_ok_Ok _ _)) in Hal.
  apply C_bind_Ok in Hrun as (s3 & script & [-> Hsc]%c_lift_ok & Hrun).
  apply (proj1 (unwrap_ok_Ok _ _)) in Hsc. destruct al as [script'| |]; [|done..]. injection Hsc as ->.
  apply sweep_loop_ok in Hrun as (txs & Hlog' & Hsw).
  - assert (Hpre : sent s2.2 `prefix_of` sent s'.2) by (rewrite Hlog'; by apply prefix_app_r).
    exists closes, txs. split; [by rewrite Hlog', Hlog, app_assoc|]. split; [|split].
    + eapply Forall_log; [|exact Hh]. intros. by eapply handled_mono.
    + eapply Forall_log; [|exact Hfc]. intros. by eapply force_close_mono.
    + exists script, dus. split; [done|]. split; [|done].
      eapply Forall_log; [|exact Hm]. intros. by eapply matured_mono.
  - eapply Forall_impl; [exact Hm|]. intros du Hmat. by eapply matured_value.
Qed.

Definition l1_value (chunk : list (Z * UtxoResponse)) : Z := sum_list_Z ((fun iu => u_value iu.2) <$> chunk).

Definition l1_fee (destination : Address) (chunk : list (Z * UtxoResponse)) (feerate : Z) : Z :=
  feerate * tx_weight {| version := 2; lock_time := 0; input := l1_input <$> chunk;
    output := [{| out_value := l1_value chunk; script_pubkey := address_script_pubkey destination |}] |}
  / 1000.

Lemma fee_product p : p / 1000 < 2 ^ 54 -> p < 2 ^ 64.
Proof.
  intros Hp. destruct (Z.lt_ge_cases p (2 ^ 64)) as [|Hge]; [done|].
  apply (Z.div_le_mono _ _ 1000) in Hge; [|lia]. change (2 ^ 64 / 1000) with 18446744073709551 in Hge. lia.
Qed.

(** A sweep of wallet outputs spends all of them, pays the destination their
    value less the fee, and at least 1000 satoshi; it is given up exactly when
    that is not possible. *)
Lemma l1_sweep_pays destination chunk feerate (s s' : K * X) r
  (Hv : Forall (fun iu => 0 <= u_value iu.2) chunk) (Hsum : 1000 <= l1_value chunk < 2 ^ 64)
  (Hfr : 0 <= feerate) (Hfee : l1_fee destination chunk feerate < 2 ^ 54)
  (Hrun : make_l1_sweep destination chunk feerate s = (s', Ok r)) :
  match r with
  | Some tx => l1_fee destination chunk feerate <= l1_value chunk - 1000
      /\ previous_output <$> input tx
         = (fun iu => {| op_txid := u_txid iu.2; vout := u_vout iu.2 |}) <$> chunk
      /\ output tx = [{| out_value := l1_value chunk - l1_fee destination chunk feerate;
                         script_pubkey := address_script_pubkey destination |}]
  | None => s' = s /\ l1_value chunk - 1000 < l1_fee destination chunk feerate
  end.
Proof.
  unfold make_l1_sweep in Hrun.
  apply C_bind_Ok in Hrun as (s1 & value & [-> Hval]%c_lift_ok & Hrun).
  rewrite sum64_in in Hval; [|by apply Forall_fmap|apply Hsum]. injection Hval as <-.
  fold (l1_value chunk) in Hrun.
  unfold l1_fee in *. set (tx0 := {| version := 2; output := _ |}) in *.
  pose proof (law_weight tx0). apply fee_product in Hfee.
  apply C_bind_Ok in Hrun as (s1 & fee & [-> Hf]%c_lift_ok & Hrun).
  rewrite mul64_in in Hf by nia. injection Hf as <-.
  apply C_bind_Ok in Hrun as (s1 & limit & [-> Hl]%c_lift_ok & Hrun).
  rewrite sub64_in in Hl by lia. injection Hl as <-.
  destruct (_ <? _) eqn:Hlt; b2p; [by injection Hrun as <- <-|].
  assert (0 <= feerate * tx_weight tx0 / 1000) by (apply Z.div_pos; nia).
  apply C_bind_Ok in Hrun as (s1 & paid & [-> Hp]%c_lift_ok & Hrun).
  rewrite sub64_in in Hp by lia. injection Hp as <-.
  apply C_bind_Ok in Hrun as (s1 & ws & _ & Hrun).
  apply C_bind_Ok in Hrun as (s2 & tx & [-> Hw]%c_lift_ok & [= <- <-]).
  apply set_witnesses_keeps in Hw as (-> & _ & ->). split; [done|]. split; [|done].
  cbn [input tx0]. by rewrite <- list_fmap_compose.
Qed.

(** With overflow checks, less than 1000 satoshi in a chunk is a panic. *)
Lemma l1_sweep_small_panics destination chunk feerate (s : K * X)
  (Hchk : overflow_checks = true) (Hv : Forall (fun iu => 0 <= u_value iu.2) chunk)
  (Hsum : l1_value chunk < 1000)
  (Hfr : 0 <= feerate) (Hfee : l1_fee destination chunk feerate < 2 ^ 54) :
  make_l1_sweep destination chunk feerate s = (s, Panic).
Proof.
  unfold make_l1_sweep, mbind, C_bind, c_lift.
  rewrite sum64_in; [|by apply Forall_fmap|fold (l1_value chunk); lia]. fold (l1_value chunk).
  unfold l1_fee in *. set (tx0 := {| version := 2; output := _ |}) in *.
  pose proof (law_weight tx0). apply fee_product in Hfee. rewrite mul64_in by nia.
  unfold sub64, wrapping. rewrite Hchk.
  destruct (_ && _) eqn:Hb; [b2p; lia|done].
Qed.
End claims.

Section direct_claims.
Context `{L : Lib, CrL : CryptoLib, !KeyLib, CL : ChainLib, AL : AddressLib, IL : InvoiceLib}.
Context `{CkL : CheckpointLib, NL : NodeLib, SL : SerLib, Prof : Profile}.
Context {P : Type} `{!Persist P}.

(** A ready channel is visited under each of its ids. *)
Lemma direct_signers_elem (k : DirectRecoveryKeys P) id : id ∈ direct_signers k <->
  exists ptr sl c, channels (node (dk_node k)) !! id = Some ptr
    /\ slots (node (dk_node k)) !! ptr = Some sl /\ slot sl = Ready c.
Proof.
  unfold direct_signers. rewrite list_elem_of_omap. split.
  - intros ([i ptr] & Hin%channel_slots_elem & Hs). apply bind_Some in Hs as (sl & Hsl & Hr).
    destruct (slot sl) eqn:Hslot; [done|]. injection Hr as ->. eauto 6.
  - intros (ptr & sl & c & Hc & Hs & Hslot). exists (id, ptr). split; [by apply channel_slots_elem|].
    rewrite Hs. cbn. by rewrite Hslot.
Qed.
End direct_claims.

(** ** Witnesses *)

#[local] Existing Instances example_lib example_crypto example_keys Tracker.example_chain_lib Chan.release.

(** A script is its own address. *)
#[local] Instance parsing_addresses : AddressLib := {|
  Address := Script;
  address_from_script s _ := Some s;
  address_to_string s := example_string s;
  address_from_str s := Some (as_bytes s);
  address_network _ := Testnet;
  address_script_pubkey s := s;
  p2wpkh k _ := Some (0 :: 20 :: k);
  p2shwpkh k _ := Some (0xa9 :: k);
  p2pkh k _ := 0x76 :: k;
  to_hex := example_string;
  pubkey_from_str s := Some (as_bytes s);
  xpub_to_string x := example_string x;
  xpub_from_str _ := None;
  xpub_network _ := Testnet;
  derive_pub x _ := Some x |}.

(** An explorer that accepts everything; [ee_unspent] are the unspent outputs. *)
Record ExampleExplorer := { ee_sent : list Transaction; ee_unspent : OutPoint -> option Z }.

#[local] Instance example_explorer : Explorer ExampleExplorer := {|
  get_utxo_confirmations op x := Ok (ee_unspent x op);
  broadcast_transaction tx x :=
    ({| ee_sent := ee_sent x ++ [tx]; ee_unspent := ee_unspent x |}, Ok tt);
  get_utxos _ _ := Ok [];
  get_feerate _ := Ok 1000;
  is_valid_for_network _ _ := true |}.

(** Two channels, the first one open and the second one closed. *)
Definition commitment_of (signer : Z) : Transaction := {|
  version := 2; lock_time := signer;
  input := [{| previous_output := {| op_txid := [signer]; vout := 0 |}; script_sig := [];
               sequence := 0; witness := [] |}];
  output := [{| out_value := 20000; script_pubkey := [7] |};
             {| out_value := 50000; script_pubkey := [8; signer] |}] |}.

#[local] Instance example_recovery_keys : @RecoveryKeys example_lib parsing_addresses unit := {|
  RSigner := Z;
  rk_signers _ := [1; 2];
  rk_sign_onchain_tx _ _ ipaths _ _ _ _ := fun k => (k, Ok ((fun _ => [[1]]) <$> ipaths));
  rk_wallet_address_native index _ := Ok [index];
  rs_sign_holder_commitment_tx_for_recovery signer := fun k =>
    (k, Ok (commitment_of signer, [], [8; signer], ([signer], [[]]), [2; signer]));
  rs_funding_outpoint E signer _ := Ok {| op_txid := [signer]; vout := 0 |};
  rs_counterparty_selected_contest_delay E _ _ := Ok 144;
  rs_get_per_commitment_point signer _ := Ok [2; signer] |}.

#[local] Instance example_sizes : SizeLaws.
Proof.
  split; cbn [tx_weight example_lib DELAYED_MAX_WITNESS_LENGTH example_keys txout_encoded_len varint_len
    dust_value]; intros; try lia. destruct (n <? 253) eqn:?, (n + 1 <? 253) eqn:?; b2p; lia.
Qed.

Definition example_unspent : ExampleExplorer := {|
  ee_sent := [];
  ee_unspent op := if bool_decide (op = {| op_txid := [2]; vout := 0 |}) then None else Some 200 |}.

Definition example_recovery := recover_close Testnet true "x" (tt, example_unspent).

Lemma example_sent tx x x' : broadcast_transaction tx x = (x', Ok tt) -> ee_sent x' = ee_sent x ++ [tx].
Proof. cbn. by intros [= <-]. Qed.

Lemma example_recovery_ok : example_recovery.2 = Ok tt.
Proof. vm_cast_no_check (eq_refl (Ok tt : outcome unit unit)). Qed.

Lemma example_commitment_values signer k1 k2 tx htlcs script uck rk :
  rs_sign_holder_commitment_tx_for_recovery signer k1 = (k2, Ok (tx, htlcs, script, uck, rk)) ->
  Forall (fun o => 0 <= out_value o < 2 ^ 63) (output tx).
Proof.
  cbn. intros [= _ <- _ _ _ _]. repeat (apply Forall_cons; split; [cbn; lia|]). by apply Forall_nil.
Qed.

(** The first channel is closed, the output of the second one is swept. *)
Lemma recovery_sweeps_mature_witness : exists closes sweeps,
  ee_sent example_recovery.1.2 = closes ++ sweeps /\ length (ee_sent example_recovery.1.2) = 2%nat.
Proof.
  destruct (recovery_sweeps_mature ee_sent example_sent Testnet "x" tt example_unspent _ tt
    example_commitment_values (pair_eta _ _ example_recovery_ok)) as (closes & sweeps & Hlog & _).
  exists closes, sweeps. split; [exact Hlog|]. vm_cast_no_check (eq_refl 2%nat).
Defined.
