(* ===== verification/MultiSigner.v ===== *)
(** * A signer for several nodes (vls-core/src/signer/multi_signer.rs)

    The nodes of a [MultiSigner] share one persister; their seeds are in a
    seed persister (vls-core/src/persist/mod.rs) under the hexadecimal node id.
    The main result is that a restart gives all of them back, whatever their
    operations did to the shared store. *)

From S2P Require Import Prelude Velocity Policy Order Extern Crypto Setup Tx Keys Allowlist Script.
From S2P Require Import Secrets Enforcement Validator NodeState ChannelOps Monitor Tracker Persist.
From S2P Require Import PersistSpec Node NodeInv NodeRestart Msgs Approver Handler Client.

Import NodeOps.

(** ** Seed persisters *)

Class SeedPersist (S : Type) := {
  seed_put {E} : string -> bytes -> S -> outcome E S;
  seed_get {E} : string -> S -> outcome E (option bytes)
}.

(** [DummySeedPersister] *)
#[export] Instance dummy_seeds : SeedPersist unit := {|
  seed_put E _ _ s := Ok s;
  seed_get E _ _ := Ok None |}.

(** [MemorySeedPersister]: one seed for every key, and no [put]. *)
Record MemorySeedPersister := { memory_seed : bytes }.
#[export] Instance memory_seeds : SeedPersist MemorySeedPersister := {|
  seed_put E _ _ _ := Panic;
  seed_get E _ s := Ok (Some (memory_seed s)) |}.

(** [FileSeedPersister]: [seed_files] are the files of the system. *)
Record FileSeedPersister := { seed_path : string; seed_files : gmap string string }.

Definition seed_path_for_key (self : FileSeedPersister) (node_id : string) : string :=
  seed_path self +:+ "/" +:+ node_id +:+ ".seed".

#[export] Instance file_seeds `{HL : HexLib} : SeedPersist FileSeedPersister := {|
  seed_put E key seed self :=
    Ok {| seed_path := seed_path self;
          seed_files := <[seed_path_for_key self key := hex_encode seed]> (seed_files self) |};
  seed_get E key self :=
    match seed_files self !! seed_path_for_key self key with
    | Some s => seed ← unwrap (hex_decode s); Ok (Some seed)
    | None => Ok None
    end |}.

(** ** The signer *)

Record MultiSigner `{L : Lib, !KeyLib, CL : ChainLib} (P : Type) := {
  ms_nodes : gmap PublicKey Node;
  ms_persister : P;
  ms_test_mode : bool;
  ms_initial_allowlist : list string;
  ms_validator_factory : ValidatorFactory
}.
Arguments ms_nodes {_ _ _ P}.
Arguments ms_persister {_ _ _ P}.
Arguments ms_test_mode {_ _ _ P}.
Arguments ms_initial_allowlist {_ _ _ P}.
Arguments ms_validator_factory {_ _ _ P}.

Section multi.
Context `{L : Lib, CrL : CryptoLib, !KeyLib, CL : ChainLib, AL : AddressLib, IL : InvoiceLib, HL : HexLib}.
Context `{CkL : CheckpointLib, NL : NodeLib, SL : SerLib, Prof : Profile}.
Context {P : Type} `{!Persist P} {S : Type} `{!SeedPersist S}.
Implicit Types ms : MultiSigner P.

Definition with_nodes ms (nodes : gmap PublicKey Node) (p : P) : MultiSigner P := {|
  ms_nodes := nodes; ms_persister := p; ms_test_mode := ms_test_mode ms;
  ms_initial_allowlist := ms_initial_allowlist ms; ms_validator_factory := ms_validator_factory ms |}.

Definition new_with_test_mode {E} (test_mode : bool) (initial_allowlist : list string)
  (vf : ValidatorFactory) (p : P) : outcome E (MultiSigner P) :=
  nodes ← unwrap_ok (persist_get_nodes p);
  match nodes with
  | [] => Ok {| ms_nodes := ∅; ms_persister := p; ms_test_mode := test_mode;
                ms_initial_allowlist := initial_allowlist; ms_validator_factory := vf |}
  | _ => Panic
  end.

Definition MultiSigner_new {E} (vf : ValidatorFactory) (p : P) : outcome E (MultiSigner P) :=
  new_with_test_mode false [] vf p.

(** The seed of a node, by its id. *)
Definition get_seed (seeds : S) (nid : PublicKey) : option bytes :=
  match seed_get (E := unit) (hex_encode nid) seeds with Ok o => o | _ => None end.

Definition restore_with_test_mode (test_mode : bool) (initial_allowlist : list string)
  (vf : ValidatorFactory) (starting_time : Z * Z) (seeds : S) (p : P)
  : P * outcome Status (MultiSigner P) :=
  let '(p, r) := restore_nodes (get_seed seeds) vf starting_time p in
  (p, nodes ← r;
      Ok {| ms_nodes := nodes; ms_persister := p; ms_test_mode := test_mode;
            ms_initial_allowlist := initial_allowlist; ms_validator_factory := vf |}).

Definition MultiSigner_restore (vf : ValidatorFactory) (starting_time : Z * Z) (seeds : S) (p : P)
  : P * outcome Status (MultiSigner P) :=
  restore_with_test_mode false [] vf starting_time seeds p.

(** Operations on the signer and the seeds. *)
Notation SM := (CM (MultiSigner P * S) Status).

(** An operation of a node, on the shared store. *)
Definition on_store {R} (n : Node) (m : M P R) : SM (Node * R) := fun '(ms, seeds) =>
  let '(s, r) := m {| node := n; store := ms_persister ms |} in
  ((with_nodes ms (ms_nodes ms) (store s), seeds), r ≫= (fun a => Ok (node s, a))).

Definition get_signer : SM (MultiSigner P) := fun s => (s, Ok s.1).
Definition insert_node (nid : PublicKey) (n : Node) : SM unit := fun '(ms, seeds) =>
  ((with_nodes ms (<[nid := n]> (ms_nodes ms)) (ms_persister ms), seeds), Ok tt).
Definition put_seed (nid : PublicKey) (seed : bytes) : SM unit := fun '(ms, seeds) =>
  match seed_put (hex_encode nid) seed seeds with
  | Ok seeds => ((ms, seeds), Ok tt)
  | Err e => ((ms, seeds), Err e)
  | Panic => ((ms, seeds), Panic)
  end.

Definition expect_m {R} (m : M P R) : M P R := fun s => let '(s, r) := m s in (s, unwrap_ok r).

Definition new_node_with_seed (config : NodeConfig) (seed : bytes) (starting_time : Z * Z)
  : SM PublicKey :=
  self ← get_signer;
  n ← c_lift (new config seed [] (ms_validator_factory self) starting_time);
  let nid := node_id n in
  (if ms_test_mode self then
     on_store n (persist_expect (fun p => persist_delete_node p nid));; mret tt
   else
     c_lift (whenb (bool_decide (is_Some (ms_nodes self !! nid)))
               (Err (invalid_argument "node_exists"))));;
  '(n, _) ← on_store n (expect_m (add_allowlist (ms_initial_allowlist self)));
  put_seed nid seed;;
  on_store n (persist_expect (fun p => persist_new_node p nid config (state n)));;
  on_store n (persist_expect (fun p => persist_new_chain_tracker p nid (tracker n)));;
  insert_node nid n;;
  mret nid.

(** [rng.fill_bytes] gave [seed]. *)
Definition ms_new_node (config : NodeConfig) (seed : bytes) (starting_time : Z * Z)
  : SM (PublicKey * bytes) :=
  id ← new_node_with_seed config seed starting_time; mret (id, seed).

Definition get_node_ids ms : list PublicKey := sort (map_to_list (ms_nodes ms)).*1.

Definition warmstart_with_seed ms (config : NodeConfig) (seed : bytes) (starting_time : Z * Z)
  : outcome Status PublicKey :=
  n ← new config seed [] (ms_validator_factory ms) starting_time;
  ok_or (ms_nodes ms !! node_id n) (invalid_argument "warmstart failed: no such node: {}");;
  Ok (node_id n).

Definition ms_get_node ms (nid : PublicKey) : outcome Status Node :=
  ok_or (ms_nodes ms !! nid) (invalid_argument "no such node").

(** A function of a node, run on the node in place. *)
Definition on_ms_node {R} (nid : PublicKey) (m : M P R) : SM R := fun '(ms, seeds) =>
  match ms_get_node ms nid with
  | Ok n =>
      let '(s, r) := m {| node := n; store := ms_persister ms |} in
      ((with_nodes ms (<[nid := node s]> (ms_nodes ms)) (store s), seeds), r)
  | Err e => ((ms, seeds), Err e)
  | Panic => ((ms, seeds), Panic)
  end.

Definition ms_with_channel_base {R} (nid : PublicKey) (channel_id : ChannelId)
  (f : ChannelSlot -> outcome Status R) : SM R :=
  on_ms_node nid (with_channel_base channel_id f).

Definition ms_with_ready_channel {R} (nid : PublicKey) (channel_id : ChannelId)
  (f : Channel -> NSt P -> NSt P * Channel * outcome Status R) : SM R :=
  on_ms_node nid (with_ready_channel channel_id f).

Definition with_funding_outpoint (chan : Channel) (outpoint : OutPoint) : Channel :=
  let st := setup chan in {|
  keys := keys chan; enforcement_state := enforcement_state chan;
  setup := {|
    is_outbound := is_outbound st; channel_value_sat := channel_value_sat st;
    push_value_msat := push_value_msat st; funding_outpoint := outpoint;
    holder_selected_contest_delay := holder_selected_contest_delay st;
    holder_shutdown_script := holder_shutdown_script st;
    counterparty_points := counterparty_points st;
    counterparty_selected_contest_delay := counterparty_selected_contest_delay st;
    counterparty_shutdown_script := counterparty_shutdown_script st;
    commitment_type := commitment_type st |};
  id0 := id0 chan; chan_id := chan_id chan |}.

(** [OutPoint::is_null] *)
Definition outpoint_is_null (o : OutPoint) : bool :=
  bool_decide (o = {| op_txid := replicate 32 0; vout := U32_MAX |}).

(** The channel is written with [persist_channel], which expects success. *)
Definition additional_setup (nid : PublicKey) (channel_id : ChannelId) (outpoint : OutPoint) : SM unit :=
  ms_with_ready_channel nid channel_id (fun chan s =>
    let o := funding_outpoint (setup chan) in
    if outpoint_is_null o || bool_decide (o = outpoint) then
      let chan := if outpoint_is_null o then with_funding_outpoint chan outpoint else chan in
      let '(p, r) := persist_update_channel (store s) nid chan in
      ({| node := node s; store := p |}, chan, unwrap_ok r)
    else (s, chan, Panic)).
End multi.

(** ** The nodes do not touch each other's records *)

(** What the list of nodes promises: [listed] are the nodes of a store, and
    [get_nodes] reads each of them. *)
Class ListLaws `{L : Lib, CL : ChainLib, SL : SerLib} (P : Type) `{!Persist P}
  (view : P -> PublicKey -> NodeRecord) (listed : P -> gset PublicKey) : Prop := {
  law_listed w p p' : perform w p = (p', Ok tt) ->
    listed p' = match w with NewNode nid _ _ => {[nid]} ∪ listed p | _ => listed p end;
  law_get_nodes p : exists l, l ≡ₚ elements (listed p)
    /\ forall es, Forall2 (fun nid e => pubkey_from_slice nid = Some nid
                           /\ entry_of (E := PersistError) (view p nid) = Ok e) l es ->
       persist_get_nodes p = Ok (zip l es)
}.

Section frame.
Context `{L : Lib, CrL : CryptoLib, !KeyLib, CL : ChainLib, AL : AddressLib, IL : InvoiceLib}.
Context `{CkL : CheckpointLib, NL : NodeLib, SL : SerLib, Prof : Profile}.
Context {P : Type} `{!Persist P} (view : P -> PublicKey -> NodeRecord) `{!PersistLaws P view}.
Context (listed : P -> gset PublicKey) `{!ListLaws P view listed}.
Implicit Types s : NSt P.

(** The stores hold the same nodes, and the same records but for [nid]. *)
Definition frames (nid : PublicKey) (p p' : P) : Prop :=
  listed p' = listed p /\ forall o, is_node_id o -> o <> nid -> view p' o = view p o.

#[global] Instance frames_PreOrder nid : PreOrder (frames nid).
Proof.
  split; [by intros p|]. intros p1 p2 p3 [E1 H1] [E2 H2]. split; [congruence|].
  intros o Ho Hn. by rewrite H2, H1.
Qed.

Lemma write_frames w p p' : perform w p = (p', Ok tt) -> is_node_id (written_node w) ->
  (forall i c st, w <> NewNode i c st) -> frames (written_node w) p p'.
Proof.
  intros Hp Hn Hw. split; [|by apply law_write in Hp as [_ ?]].
  apply law_listed in Hp as ->. destruct w; try done. by destruct (Hw nid config state).
Qed.

(** The successful writes among the hypotheses become [frames]. *)
Ltac framed H w := apply (write_frames w) in H; [|cbn; assumption|discriminate]; cbn [written_node] in H.
Ltac frame :=
  cbn [node store] in *;
  repeat match goal with
  | H : persist_update_node _ ?nid ?st = _ |- _ => framed H (UpdateNode nid st)
  | H : persist_new_channel _ ?nid ?st = _ |- _ => framed H (NewChannel nid st)
  | H : persist_delete_channel _ ?nid ?id = _ |- _ => framed H (DeleteChannel nid id)
  | H : persist_update_channel _ ?nid ?c = _ |- _ => framed H (UpdateChannel nid c)
  | H : persist_update_tracker _ ?nid ?t = _ |- _ => framed H (UpdateTracker nid t)
  | H : persist_update_node_allowlist _ ?nid ?l = _ |- _ => framed H (UpdateAllowlist nid l)
  end; first [assumption|reflexivity|etrans; eassumption|idtac].

Definition step_frames s s' : Prop :=
  is_node_id (node_id (node s)) -> frames (node_id (node s)) (store s) (store s').

Lemma change_allowlist_frames s l f s' u : change_allowlist l f s = (s', Ok u) -> step_frames s s'.
Proof.
  intros Hop Hid. unfold change_allowlist, parse_allowables, update_allowlist in Hop. inv_M Hop. frame.
Qed.

Lemma new_channel_frames s opt s' r : new_channel opt s = (s', Ok r) -> step_frames s s'.
Proof.
  intros Hop Hid. unfold new_channel in Hop. inv_M Hop. destruct x as [n1 id].
  assert (Hn : node_id n1 = node_id (node s0)).
  { destruct opt; [by injection Hx as <- <-|]. inv_ok Hx. destruct x as [km i].
    by injection Hx as <- <-. }
  inv_M Hop. destruct (_ <=? _); [by inv_M Hop|]. destruct (channels n1 !! id) as [ptr|].
  - inv_M Hop. apply get_slot_Ok in Hx0 as [-> _]. frame.
  - inv_M Hop. destruct x as [km ks]. inv_M Hop.
    cbn [node_id insert_slot set_channels set_keys_manager] in *. rewrite <- Hn in *. frame.
Qed.

Lemma ready_channel_frames s cid opt stp path s' c :
  ready_channel cid opt stp path s = (s', Ok c) -> step_frames s s'.
Proof.
  intros Hop Hid. unfold ready_channel in Hop. inv_M Hop. apply get_slot_Ok in Hx0 as [-> Hsl].
  destruct x0 as [[stub|c0] d]; cbn [slot] in Hop; [inv_M Hop|destruct (bool_decide _); by inv_M Hop].
  frame.
Qed.

Lemma track_payment_frames s msg h ps ih now s' b : track_payment msg h ps ih now s = (s', Ok b) ->
  step_frames s s'.
Proof.
  intros Hop Hid. unfold track_payment in Hop. inv_M Hop. destruct (_ <=? _); [by inv_M Hop|].
  destruct (invoices _ !! h) as [ps'|]; [destruct (bool_decide _); by inv_M Hop|].
  inv_M Hop. destruct x as [vc ok]. destruct ok; cbn [negb] in Hop; inv_M Hop; frame.
Qed.

Lemma sign_invoice_frames s hrp data s' sig : sign_invoice hrp data s = (s', Ok sig) -> step_frames s s'.
Proof.
  intros Hop Hid. unfold sign_invoice in Hop. inv_M Hop. destruct x as [sg signed]. inv_M Hop.
  unfold payment_state_from_invoice in Hop. cbv beta iota in Hop.
  destruct (_ <=? _); [by inv_M Hop|].
  destruct (issued_invoices _ !! _); [destruct (bool_decide _)|]; inv_M Hop; frame.
Qed.

Lemma unchecked_sign_frames s tx ipaths vals types ucks s' w :
  unchecked_sign_onchain_tx tx ipaths vals types ucks s = (s', Ok w) -> step_frames s s'.
Proof.
  intros Hop Hid. pose proof (unchecked_sign_ident _ _ _ _ _ _ _ _ Hop) as [_ Hi].
  unfold unchecked_sign_onchain_tx in Hop. inv_M Hop. cbn [node] in Hi.
  match goal with H : persist_update_tracker _ _ _ = _ |- _ =>
    rewrite Hi in H end. frame.
Qed.

Lemma prune_channels_frames s h s' u : prune_channels h s = (s', Ok u) -> step_frames s s'.
Proof.
  intros Hop Hid. unfold prune_channels in Hop. apply M_bind_Ok in Hop as (s1 & n & [= <- <-] & Hop).
  refine (proj2 (loop_inv (fun _ s1 => node_id (node s1) = node_id (node s)
    /\ frames (node_id (node s)) (store s) (store s1)) _ _ _ _ _ _ Hop _ _)).
  - by intros s1 [= <-].
  - intros id rest s1 s2 [Hi Hf1] Hf. inv_M Hf. cbn [node_id set_channels] in *.
    rewrite Hi in *. frame. split; [done|]. etrans; eassumption.
Qed.

Lemma get_heartbeat_frames s tw now now' s' h : get_heartbeat tw now now' s = (s', Ok h) -> step_frames s s'.
Proof.
  intros Hop Hid. unfold get_heartbeat in Hop. inv_M Hop. destruct x as [st1 b1]. inv_M Hop.
  destruct x as [st2 b2]. inv_M Hop. destruct x as [st3 b3]. inv_M Hop.
  match goal with Hp : prune_channels _ _ = _ |- _ => apply prune_channels_frames in Hp; by apply Hp end.
Qed.

Lemma node_step_frames s s' : node_step s s' -> step_frames s s'.
Proof.
  intros Hstep. destruct Hstep; eauto using new_channel_frames, ready_channel_frames,
    change_allowlist_frames, sign_invoice_frames, unchecked_sign_frames, get_heartbeat_frames,
    track_payment_frames.
  - intros Hid. destruct H0 as [? ? ? ? ? ? _ _ _ _ _ Hw ->]. frame.
  - unfold add_invoice in H1. inv_M H1. unfold payment_state_from_invoice in H1.
    cbv beta iota in H1. by eapply track_payment_frames, H1.
  - by eapply track_payment_frames, H1.
  - intros _. by rewrite H1.
  - intros Hid. unfold handle_add_block in H0. inv_M H0. destruct x0 as [t []]. inv_M H0. frame.
  - intros Hid. unfold handle_remove_block in H0. inv_M H0. destruct x0 as [t hd]. inv_M H0. frame.
Qed.

(** A new node is one more in the list, and the others stay. *)
Lemma create_node_frames config seed vf st l p p' n :
  create_node config seed vf st l p = (p', Ok n) -> is_node_id (node_id n) ->
  listed p' = {[node_id n]} ∪ listed p
  /\ forall o, is_node_id o -> o <> node_id n -> view p' o = view p o.
Proof.
  intros Hop Hid. unfold create_node in Hop. destruct (new _ _ _ _ _) as [n0|e|]; [|done..].
  match type of Hop with (let '(s, r) := ?m in _) = _ => destruct m as [s [[]|e|]] eqn:Hrun end;
    [|done..]. injection Hop as <- <-.
  apply M_bind_Ok in Hrun as (s1 & [] & Hadd & Hrun).
  destruct (add_allowlist l _) as [s2 r] eqn:Hal. injection Hadd as <- Hr. apply unwrap_ok_Ok in Hr as ->.
  pose proof (change_allowlist_ident _ _ _ _ _ Hal) as [_ Hi].
  apply change_allowlist_frames in Hal. inv_M Hrun.
  match goal with Hn : persist_new_node _ _ _ _ = _, Ht : persist_new_chain_tracker _ _ _ = _ |- _ =>
    pose proof (law_listed (NewNode _ _ _) _ _ Hn) as En; pose proof (law_listed (NewChainTracker _ _) _ _ Ht) as Et;
    pose proof (proj2 (law_write (NewNode _ _ _) _ _ Hid Hn)) as Vn;
    pose proof (proj2 (law_write (NewChainTracker _ _) _ _ Hid Ht)) as Vt end.
  rewrite Hi in *. destruct (Hal Hid) as [El Vl]. cbn [node store written_node] in *.
  split; [by rewrite Et, En, El|]. intros o Ho Hne. by rewrite Vt, Vn, Vl.
Qed.
End frame.

(** ** All nodes come back *)

(** What a seed persister promises; a seed is a list of bytes. *)
Class SeedLaws (S : Type) `{!SeedPersist S} : Prop := {
  law_seed_get k v (s s' : S) : Forall ByteUtils.is_byte v -> seed_put (E := Status) k v s = Ok s' ->
    seed_get (E := unit) k s' = Ok (Some v);
  law_seed_other k k' v (s s' : S) : seed_put (E := Status) k v s = Ok s' -> k' <> k ->
    seed_get (E := unit) k' s' = seed_get k' s
}.

#[export] Instance file_seed_laws `{HexLaws} : SeedLaws FileSeedPersister.
Proof.
  split.
  - intros k v s s' Hv [= <-]. cbn. unfold seed_path_for_key. cbn. rewrite lookup_insert_eq.
    by rewrite law_hex_decode.
  - intros k k' v s s' [= <-] Hk. cbn. unfold seed_path_for_key. cbn.
    rewrite lookup_insert_ne; [done|].
    intros Heq%append_inj_l%append_inj_l%append_inj_r. done.
Qed.

Section restart.
Context `{L : Lib, CrL : CryptoLib, !KeyLib, CL : ChainLib, AL : AddressLib, IL : InvoiceLib, HL : HexLib}.
Context `{CkL : CheckpointLib, NL : NodeLib, SL : SerLib, Prof : Profile}.
Context {P : Type} `{!Persist P} (view : P -> PublicKey -> NodeRecord) `{!PersistLaws P view}.
Context (listed : P -> gset PublicKey) `{!ListLaws P view listed}.
Context {S : Type} `{!SeedPersist S, !SeedLaws S, !HexLaws}.
Context `{!Keys.KeyLaws, !AddressLaws, !SerLaws}.
Notation Sys := (MultiSigner P * S)%type.
Implicit Types x : Sys.

(** The id of a node is a public key: 33 bytes that parse as one. *)
Definition valid_id (nid : PublicKey) : Prop :=
  is_node_id nid /\ Forall ByteUtils.is_byte nid /\ pubkey_from_slice nid = Some nid.

(** The signer with a node's new state. *)
Definition update_ms (ms : MultiSigner P) (nid : PublicKey) (s : NSt P) : MultiSigner P :=
  with_nodes ms (<[nid := node s]> (ms_nodes ms)) (store s).

(** The runs of a signer: nodes are created, and do what nodes do. *)
Inductive ms_step x : Sys -> Prop :=
| ms_step_new config seed st nid x' : new_node_with_seed config seed st x = (x', Ok nid) ->
    valid_id nid -> Forall ByteUtils.is_byte seed -> cfg_key_derivation_style config <> Lnd -> ms_step x x'
| ms_step_node nid n s' : ms_nodes x.1 !! nid = Some n ->
    node_step {| node := n; store := ms_persister x.1 |} s' -> ms_step x (update_ms x.1 nid s', x.2).

(** A node in memory agrees with the store, and its seed is kept. *)
Record node_kept x (nid : PublicKey) (n : Node) : Prop := {
  nk_valid : valid_id nid;
  nk_id : node_id n = nid;
  nk_good : good view {| node := n; store := ms_persister x.1 |};
  nk_seed : exists sd, get_seed x.2 nid = Some sd /\ seeded sd n;
  nk_style : cfg_key_derivation_style (node_config n) <> Lnd
}.

Record ms_ok x : Prop := {
  mo_nodes nid n : ms_nodes x.1 !! nid = Some n -> node_kept x nid n;
  mo_listed : listed (ms_persister x.1) = dom (ms_nodes x.1);
  mo_free o : is_node_id o -> o ∉ listed (ms_persister x.1) -> r_channels (view (ms_persister x.1) o) = ∅;
  mo_mode : ms_test_mode x.1 = false
}.

Lemma node_kept_other x x' nid n : node_kept x nid n ->
  view (ms_persister x'.1) nid = view (ms_persister x.1) nid -> get_seed x'.2 nid = get_seed x.2 nid ->
  node_kept x' nid n.
Proof.
  intros [Hv Hi Hg (sd & Hs & Hsd) Hst] Hview Hseed. split; [done..| |by exists sd; rewrite Hseed|done].
  destruct Hg as [Hid Hok]. split; [done|]. unfold record_of in *. cbn [node store] in *.
  rewrite Hi in *. by rewrite Hview.
Qed.

Lemma on_store_Ok {R} n (m : M P R) (ms : MultiSigner P) (seeds : S) x' n' a :
  on_store n m (ms, seeds) = (x', Ok (n', a)) ->
  exists s, m {| node := n; store := ms_persister ms |} = (s, Ok a) /\ n' = node s
    /\ x' = (with_nodes ms (ms_nodes ms) (store s), seeds).
Proof.
  unfold on_store. destruct (m _) as [s [b|e|]]; intros [= <- Heq]; [|done..].
  exists s. by simplify_eq.
Qed.

(** A new node is the node that [create_node] makes; its seed is written. *)
Lemma new_node_creates config seed st x x' nid : ms_test_mode x.1 = false ->
  new_node_with_seed config seed st x = (x', Ok nid) ->
  exists n p' seeds', create_node config seed (ms_validator_factory x.1) st (ms_initial_allowlist x.1)
      (ms_persister x.1) = (p', Ok n)
    /\ node_id n = nid /\ ms_nodes x.1 !! nid = None
    /\ seed_put (E := Status) (hex_encode nid) seed x.2 = Ok seeds'
    /\ x' = (with_nodes x.1 (<[nid := n]> (ms_nodes x.1)) p', seeds').
Proof.
  intros Hm Hop. destruct x as [ms seeds]. cbn [fst snd] in *. unfold new_node_with_seed in Hop.
  apply C_bind_Ok in Hop as (x1 & self & [= <- <-] & Hop). cbn [fst] in Hop.
  apply C_bind_Ok in Hop as (x1 & n & [= <- Hn] & Hop). rewrite Hm in Hop.
  apply C_bind_Ok in Hop as (x1 & [] & [= <- Hw] & Hop). inv_ok Hw. case_bool_decide as Hnone; [done|].
  apply C_bind_Ok in Hop as (x1 & [n1 []] & (s1 & Hal & -> & ->)%on_store_Ok & Hop).
  apply C_bind_Ok in Hop as (x2 & [] & Hseed & Hop). unfold put_seed in Hseed.
  destruct (seed_put _ _ _) as [seeds'|e|] eqn:Hput; [|done..]. injection Hseed as <-.
  apply C_bind_Ok in Hop as (x3 & [n2 []] & (s2 & Hnew & _ & ->)%on_store_Ok & Hop).
  apply C_bind_Ok in Hop as (x4 & [n3 []] & (s3 & Htr & _ & ->)%on_store_Ok & Hop).
  apply C_bind_Ok in Hop as (x5 & [] & [= <-] & [= <- <-]). cbn [ms_persister with_nodes] in *.
  assert (Hi : node_id (node s1) = node_id n).
  { unfold expect_m in Hal. destruct (add_allowlist _ _) as [s r] eqn:Ha.
    injection Hal as <- Hr. apply unwrap_ok_Ok in Hr as ->.
    by apply change_allowlist_ident in Ha as [_ Ha]. }
  unfold create_node. rewrite Hn, <- Hi in *.
  apply persist_expect_Ok in Hnew as (p1 & Hnew & ->). apply persist_expect_Ok in Htr as (p2 & Htr & ->).
  cbn [node store] in *. exists (node s1), p2, seeds'. split.
  - rewrite (M_bind_step _ _ _ s1 tt Hal). rewrite (M_bind_step _ _ s1 s1 (node s1)) by done.
    rewrite (M_bind_step _ _ s1 {| node := node s1; store := p1 |} tt)
      by (unfold persist_expect, persist_call, mbind, M_bind; by rewrite Hnew).
    unfold persist_expect, persist_call, mbind, M_bind. cbn [node store]. by rewrite Htr.
  - split; [done|]. split; [by apply eq_None_not_Some|]. split; [done|].
    by destruct ms.
Qed.

Lemma get_seed_put nid o seed (seeds seeds' : S) : valid_id nid -> valid_id o ->
  Forall ByteUtils.is_byte seed -> seed_put (E := Status) (hex_encode nid) seed seeds = Ok seeds' ->
  get_seed seeds' o = if bool_decide (o = nid) then Some seed else get_seed seeds o.
Proof.
  intros (_ & Hn & _) (_ & Ho & _) Hs Hput. unfold get_seed. case_bool_decide as Heq.
  - subst o. by rewrite (law_seed_get _ seed _ _ Hs Hput).
  - rewrite (law_seed_other _ _ _ _ _ Hput); [done|]. intros Hh. by apply Heq, hex_encode_inj.
Qed.

Lemma ms_step_new_ok config seed st nid x x' : ms_ok x -> valid_id nid -> Forall ByteUtils.is_byte seed ->
  cfg_key_derivation_style config <> Lnd ->
  new_node_with_seed config seed st x = (x', Ok nid) -> ms_ok x'.
Proof.
  intros [Hn Hl Hf Hm] Hv Hb Hst Hop.
  apply new_node_creates in Hop as (n & p' & seeds' & Hc & Hi & Hnone & Hput & ->); [|done].
  assert (Hid : is_node_id (node_id n)) by (rewrite Hi; apply Hv).
  assert (Hnl : nid ∉ listed (ms_persister x.1)) by (rewrite Hl; by apply not_elem_of_dom).
  pose proof (create_node_frames view listed _ _ _ _ _ _ _ _ Hc Hid) as [El Vo].
  pose proof (create_seeded _ _ _ _ _ _ _ _ Hc) as [Hsd Hcfg].
  pose proof (create_node_good view _ _ _ _ _ _ _ _ Hc Hid) as Hg. rewrite Hi in *.
  split; cbn [fst snd ms_persister ms_nodes with_nodes ms_test_mode]; [|by rewrite El, dom_insert_L, Hl| |done].
  - intros o no Ho. destruct (decide (o = nid)) as [->|Hne].
    + rewrite lookup_insert_eq in Ho. injection Ho as <-. split; cbn; [done|done|by apply Hg, Hf; [apply Hv|]| |by rewrite Hcfg].
      exists seed. by rewrite (get_seed_put nid nid seed x.2), bool_decide_true.
    + rewrite lookup_insert_ne in Ho by done. pose proof (Hn _ _ Ho) as Hk.
      eapply node_kept_other; [exact Hk|apply Vo; [apply Hk|done]|]. cbn [snd].
      rewrite (get_seed_put nid o seed x.2), bool_decide_false; [done..|apply Hk|done|done].
  - rewrite El. intros o Ho Hno. rewrite Vo; [apply Hf; set_solver|done|set_solver].
Qed.

Lemma ms_step_node_ok nid n s' x : ms_ok x -> ms_nodes x.1 !! nid = Some n ->
  node_step {| node := n; store := ms_persister x.1 |} s' -> ms_ok (update_ms x.1 nid s', x.2).
Proof.
  intros [Hn Hl Hf Hm] Hnid Hstep. pose proof (Hn _ _ Hnid) as [Hv Hi Hg (sd & Hs & Hsd) Hst].
  pose proof (node_step_ident _ _ Hstep) as Hsame. pose proof (node_step_good view _ _ Hstep Hg) as Hg'.
  pose proof (node_step_frames view listed _ _ Hstep) as Hfr. unfold step_frames in Hfr. cbn [node store] in *.
  destruct Hfr as [El Vo]; [apply Hg|]. rewrite Hi in Vo.
  split; cbn [fst snd update_ms ms_persister ms_nodes with_nodes ms_test_mode]; [| | |done].
  - intros o no Ho. destruct (decide (o = nid)) as [->|Hne].
    + rewrite lookup_insert_eq in Ho. injection Ho as <-. destruct Hsame as [Hsc Hsi].
      split; cbn; [done|congruence|by destruct s'| |by rewrite Hsc].
      exists sd. split; [done|]. by apply (seeded_ident sd n).
    + rewrite lookup_insert_ne in Ho by done. pose proof (Hn _ _ Ho) as Hk.
      eapply node_kept_other; [exact Hk|apply Vo; [apply Hk|done]|done].
  - rewrite El, Hl, dom_insert_L. apply elem_of_dom_2 in Hnid. set_solver.
  - intros o Ho Hno. rewrite El in Hno. rewrite Vo; [by apply Hf|done|].
    intros ->. apply Hno. rewrite Hl. by apply elem_of_dom_2 in Hnid.
Qed.

Lemma ms_steps_ok x x' : rtc ms_step x x' -> ms_ok x -> ms_ok x'.
Proof.
  induction 1 as [|x1 x2 x3 Hs _ IH]; [done|]. intros Hok. apply IH.
  destruct Hs; eauto using ms_step_new_ok, ms_step_node_ok.
Qed.

(** [restore_nodes] reads every node of the list, when each can be restored. *)
Lemma restore_loop_total seeds vf st (p : P) (Q : PublicKey -> Node -> Prop) l es nodes :
  NoDup l ->
  Forall2 (fun nid e => exists sd n', get_seed (S := S) seeds nid = Some sd
    /\ restore_node nid e sd vf st p = (p, Ok n') /\ Q nid n') l es ->
  exists nodes', restore_nodes_loop (get_seed seeds) vf st (zip l es) nodes p = (p, Ok nodes')
    /\ (forall nid, nid ∈ l -> exists n', nodes' !! nid = Some n' /\ Q nid n')
    /\ forall nid, nid ∉ l -> nodes' !! nid = nodes !! nid.
Proof.
  intros Hnd Hall. revert nodes Hnd. induction Hall as [|nid e l es (sd & n' & Hs & Hr & HQ) _ IH]; intros nodes Hnd.
  { exists nodes. split; [done|]. split; [|done]. by intros o ?%elem_of_nil. }
  apply NoDup_cons in Hnd as [Hni Hnd].
  destruct (IH (<[nid := n']> nodes) Hnd) as (nodes' & Hl & Hin & Hout). exists nodes'. split; [|split].
  - cbn [zip zip_with restore_nodes_loop]. by rewrite Hs, Hr.
  - intros o [->|Ho]%elem_of_cons; [|by apply Hin].
    exists n'. split; [|done]. by rewrite Hout, lookup_insert_eq.
  - intros o [Hne Ho]%not_elem_of_cons. by rewrite Hout, lookup_insert_ne.
Qed.

Lemma choose_list {A B} (R : A -> B -> Prop) (l : list A) : (forall a, a ∈ l -> exists b, R a b) ->
  exists bs, Forall2 R l bs.
Proof.
  induction l as [|a l IH]; intros Hl; [by exists []|].
  destruct (Hl a) as [b Hb]; [by left|]. destruct IH as [bs Hbs]; [intros; apply Hl; by right|].
  exists (b :: bs). by constructor.
Qed.

(** What has to hold of a node for a restart, beside what always does. *)
Definition restartable (n : Node) : Prop :=
  Z.of_nat (size (channels n)) < 2 ^ 31 - 1
  /\ forall id c, slot_at n id = Some (Ready c) -> payments_sum c.

End restart.

(** ** The database of the signer lists its nodes *)

Section kv.
Context `{L : Lib, CL : ChainLib, SL : SerLib}.

Definition kv_listed (p : KVJson.KVJsonPersister) : gset PublicKey := dom (KVJson.node_bucket p).

Lemma kv_get_nodes_loop (p : KVJson.KVJsonPersister) l es acc :
  Forall2 (fun nid e => pubkey_from_slice nid = Some nid
    /\ entry_of (E := PersistError) (KVSpec.view p nid) = Ok e) l es ->
  foldM (fun res k =>
    e ← unwrap (KVJson.node_bucket p !! k);
    state_e ← unwrap (KVJson.node_state_bucket p !! k);
    state ← NodeState_restore (nse_invoices state_e) (nse_issued_invoices state_e)
              (nse_preimages state_e) 0 (nse_velocity_control state_e)
              (nse_fee_velocity_control state_e);
    node_id ← unwrap (pubkey_from_slice k);
    Ok (res ++ [(node_id, {| ne_key_derivation_style := e.1; ne_network := e.2;
                             ne_state := state |})])) acc l = Ok (E := PersistError) (acc ++ zip l es).
Proof.
  intros Hall. revert acc. induction Hall as [|nid e l es [Hp He] _ IH]; intros acc; cbn [foldM zip zip_with].
  { by rewrite app_nil_r. }
  unfold entry_of in He. cbn [KVSpec.view r_entry r_state] in He.
  apply bind_Ok in He as (en & Hen & He). apply bind_Ok in He as (se & Hse & He).
  apply bind_Ok in He as (st & Hst & [= <-]). rewrite Hen, Ok_bind, Hse, Ok_bind, Hst, Ok_bind, Hp.
  cbn [unwrap mbind outcome_bind]. rewrite IH, <- app_assoc. done.
Qed.

#[export] Instance kv_list_laws : ListLaws KVJson.KVJsonPersister KVSpec.view kv_listed.
Proof.
  split.
  - intros w p p' Hw. unfold kv_listed. destruct w; cbn in Hw;
      unfold KVJson.new_node, KVJson.new_channel, KVJson.update_channel, KVJson.new_chain_tracker in Hw;
      try (case_bool_decide; [done|]); injection Hw as <-; cbn; try done. by rewrite dom_insert_L.
  - intros p. exists (KVJson.keys_of (KVJson.node_bucket p)). split.
    + unfold KVJson.keys_of, kv_listed. rewrite sort_perm. apply NoDup_Permutation.
      * apply NoDup_fst_map_to_list.
      * apply NoDup_elements.
      * intros k. rewrite elem_of_elements, elem_of_dom. split.
        -- intros ([k' v] & -> & Hin%elem_of_map_to_list)%list_elem_of_fmap. by exists v.
        -- intros [v Hv]. apply list_elem_of_fmap. exists (k, v). split; [done|]. by apply elem_of_map_to_list.
    + intros es Hes. cbn. unfold KVJson.get_nodes. by rewrite (kv_get_nodes_loop p _ es).
Qed.
End kv.

(** ** Witnesses *)

#[local] Existing Instances example_lib example_crypto example_keys Tracker.example_chain_lib
  example_addresses example_invoices example_checkpoints example_node_lib example_ser
  Chan.release example_key_laws example_address_laws example_ser_laws.

(** A string of characters instead of hexadecimal digits. *)
#[local] Instance char_hex : HexLib := {| hex_encode := example_string; hex_decode s := Some (as_bytes s) |}.

#[local] Instance char_hex_laws : HexLaws.
Proof.
  intros b Hb. cbn. f_equal. unfold as_bytes, example_string.
  rewrite String.list_ascii_of_string_of_list_ascii, <- list_fmap_compose.
  rewrite <- (list_fmap_id b) at 2. apply list_fmap_ext. intros i z Hz. cbn.
  rewrite Forall_lookup in Hb. specialize (Hb i z Hz). unfold ByteUtils.is_byte in Hb.
  rewrite Ascii.N_ascii_embedding; lia.
Qed.

Notation ExampleSys := (MultiSigner KVJson.KVJsonPersister * FileSeedPersister)%type.

Definition ms_start : ExampleSys :=
  ({| ms_nodes := ∅; ms_persister := KVJson.empty; ms_test_mode := false;
      ms_initial_allowlist := ["payee:ab"]; ms_validator_factory := example_factory |},
   {| seed_path := "/vls"; seed_files := ∅ |}).
Definition second_seed : bytes := Z.of_nat <$> seq 101 32.
Definition ms_first := new_node_with_seed example_config example_seed (1, 2) ms_start.
Definition ms_second := new_node_with_seed example_config second_seed (1, 2) ms_first.1.
Definition first_id : PublicKey := Eval vm_compute in match ms_first.2 with Ok n => n | _ => [] end.
Definition second_id : PublicKey := Eval vm_compute in match ms_second.2 with Ok n => n | _ => [] end.

Lemma ms_first_ok : ms_first.2 = Ok first_id.
Proof. vm_cast_no_check (eq_refl (Ok first_id : outcome Status PublicKey)). Qed.
Lemma ms_second_ok : ms_second.2 = Ok second_id.
Proof. vm_cast_no_check (eq_refl (Ok second_id : outcome Status PublicKey)). Qed.

(** Bytes, decided. *)
Lemma bytes_checked b : forallb (fun z => (0 <=? z) && (z <? 256)) b = true -> Forall ByteUtils.is_byte b.
Proof.
  intros Hb. apply Forall_forall. intros z Hz. rewrite forallb_forall in Hb.
  specialize (Hb z (proj1 (list_elem_of_In _ _) Hz)). b2p. split; lia.
Qed.

Lemma ms_ids_valid : valid_id first_id /\ valid_id second_id.
Proof. split; (split; [reflexivity|]; split; [by apply bytes_checked|reflexivity]). Qed.

Lemma ms_example_run : rtc ms_step ms_start ms_second.1.
Proof.
  apply rtc_l with ms_first.1; [|apply rtc_once].
  - refine (ms_step_new _ example_config example_seed (1, 2) first_id _ (pair_eta _ _ ms_first_ok) _ _ _);
      [apply ms_ids_valid|by apply bytes_checked|discriminate].
  - refine (ms_step_new _ example_config second_seed (1, 2) second_id _ (pair_eta _ _ ms_second_ok) _ _ _);
      [apply ms_ids_valid|by apply bytes_checked|discriminate].
Qed.

Lemma no_channels_restartable (m : gmap PublicKey Node) :
  forallb (fun kv => bool_decide (channels kv.2 = ∅)) (map_to_list m) = true ->
  map_Forall (fun _ n => restartable n) m.
Proof.
  intros Hb nid n Hn. rewrite forallb_forall in Hb.
  specialize (Hb (nid, n) (proj1 (list_elem_of_In _ _) (proj2 (elem_of_map_to_list _ _ _) Hn))).
  apply bool_decide_eq_true in Hb. cbn in Hb. split; [by rewrite Hb, map_size_empty|].
  intros id c Hs. unfold slot_at in Hs. by rewrite Hb, lookup_empty in Hs.
Qed.

