(* ===== verification/NullValidator.v ===== *)
(** * The null validator (vls-core/src/policy/null_validator.rs)

    A validator that accepts everything, for tests.  It decodes transactions
    with a simple validator of the default policy and has the policy of that
    validator, so the default methods of the trait, which guard the commitment
    numbers, are as strict as with the simple validator. *)

From S2P Require Import Prelude Velocity Policy Order Extern Setup Tx Script Secrets Enforcement Validator.
From S2P Require Import SimpleValidator NodeState ChannelOps Monitor Tracker Persist Node.

Module Null.
Section null.
Context `{L : Lib, Prof : Profile}.

(** The validator that [null_validator] wraps. *)
Definition null_validator (network : Network) : Validator := Simple.make_validator None network.

Definition validator (self : Validator) : Validator := {|
  Validator.validate_ready_channel _ _ _ := Ok tt;
  Validator.validate_channel_value _ := Ok tt;
  Validator.validate_onchain_tx _ _ _ _ _ _ _ := Ok 0;
  Validator.decode_commitment_tx := Validator.decode_commitment_tx self;
  Validator.validate_counterparty_commitment_tx _ _ _ _ _ _ := Ok tt;
  Validator.validate_holder_commitment_tx _ _ _ _ _ _ := Ok tt;
  Validator.validate_counterparty_revocation _ _ _ := Ok tt;
  Validator.decode_and_validate_htlc_tx := Validator.decode_and_validate_htlc_tx self;
  Validator.validate_htlc_tx _ _ _ _ _ := Ok tt;
  Validator.decode_and_validate_mutual_close_tx := Validator.decode_and_validate_mutual_close_tx self;
  Validator.validate_mutual_close_tx _ _ _ _ _ _ _ _ := Ok tt;
  Validator.validate_delayed_sweep _ _ _ _ _ _ _ := Ok tt;
  Validator.validate_counterparty_htlc_sweep _ _ _ _ _ _ _ _ := Ok tt;
  Validator.validate_justice_sweep _ _ _ _ _ _ _ := Ok tt;
  Validator.validate_payment_balance _ _ _ := Ok tt;
  Validator.enforce_balance := false;
  Validator.minimum_initial_balance _ := 0;
  Validator.policy := Validator.policy self |}.

(** [NullValidatorFactory] *)
Definition factory : ValidatorFactory := {|
  make_validator network _ _ := validator (null_validator network);
  factory_policy network := simple_policy (make_simple_policy network) |}.

(** The numbers still advance one at a time. *)
Lemma null_progression network es num info sigs es' :
  num_ok (next_holder_commit_num es) ->
  set_next_holder_commit_num (validator (null_validator network)) es num info sigs = Ok es' ->
  num = next_holder_commit_num es \/ num = next_holder_commit_num es + 1.
Proof.
  intros Hn Hs. apply set_next_holder_spec in Hs as [? _]; [done| |done].
  apply (make_simple_policy_strict network).
Qed.

(** A closed channel gets a new holder commitment, which the simple validator refuses. *)
Lemma null_ignores_close network pol es point setup cstate info :
  Strict (simple_policy pol) -> num_ok (next_holder_commit_num es) -> channel_closed es = true ->
  Validator.validate_holder_commitment_tx (validator (null_validator network)) es
    (next_holder_commit_num es) point setup cstate info = Ok tt
  /\ Simple.validate_holder_commitment_tx pol es (next_holder_commit_num es) point setup cstate info <> Ok tt.
Proof.
  intros Hst Hn Hc. split; [done|]. intros Hv.
  apply Simple.holder_commitment_accepted in Hv as (_ & _ & _ & _ & Hx); [|done..].
  by rewrite (Hx eq_refl) in Hc.
Qed.
End null.
End Null.
