(* ===== verification/Loopback.v ===== *)
(** * The signer of the lightning library in the same process (vls-core/src/util/loopback.rs)

    The adapter that gives rust-lightning its signer traits from a
    [MultiSigner], with no protocol between them.  Its channel signer and the
    protocol client of Client.v have the same callers; the main result is that
    they ask the channel for the same thing. *)

From S2P Require Import Prelude Velocity Policy Order Extern Crypto Setup Tx Keys Allowlist Script.
From S2P Require Import Secrets Enforcement Validator SimpleValidator NodeState ChannelOps Monitor.
From S2P Require Import Tracker Persist PersistSpec Node NodeInv Msgs Approver Handler Client ClientExample.
From S2P Require Import ClientHandler NodeRestart MultiSigner.

Import NodeOps.

Inductive Recipient := RecipientNode | RecipientPhantomNode.

(** What the adapter calls of the libraries. *)
Class LoopbackLib `{L : Lib} := {
  unsafe_sign_holder : InMemorySigner -> HolderCommitmentTransaction ->
    option (Signature * list Signature);
  lb_new_v0_p2wpkh : PublicKey -> Script;
  mul_tweak : SecretKey -> bytes -> option SecretKey;
  (** lightning::util::ser: a vector of bytes and a [u64] *)
  write_vec : bytes -> bytes;
  read_vec : bytes -> option (bytes * bytes);
  write_u64 : Z -> bytes;
  read_u64 : bytes -> option (Z * bytes)
}.

Record LoopbackChannelSigner := {
  lb_node_id : PublicKey;
  lb_channel_id : ChannelId;
  lb_pubkeys : ChannelPublicKeys;
  lb_channel_value_sat : Z
}.

Section loopback.
Context `{L : Lib, CrL : CryptoLib, !KeyLib, CL : ChainLib, AL : AddressLib, IL : InvoiceLib}.
Context `{CkL : CheckpointLib, NL : NodeLib, SL : SerLib, LbL : !LoopbackLib, Prof : Profile}.
Context {P : Type} `{!Persist P} {S : Type}.
Implicit Types self : LoopbackChannelSigner.
Notation SM := (CM (MultiSigner P * S)).

(** [.map_err(|s| self.bad_status(s))] and [.expect(..)]. *)
Definition bad_status {R} (m : SM Status R) : SM unit R := c_map_err (fun _ => tt) m.

(** *** [LoopbackChannelSigner] *)

Definition LoopbackChannelSigner_new {E} (nid : PublicKey) (cid : ChannelId) (channel_value_sat : Z)
  : SM E LoopbackChannelSigner :=
  pubkeys ← c_expect (ms_with_channel_base nid cid (fun base => Ok (base_get_channel_basepoints base)));
  mret {| lb_node_id := nid; lb_channel_id := cid; lb_pubkeys := pubkeys;
          lb_channel_value_sat := channel_value_sat |}.

(** A request to the channel. *)
Definition lb_channel_op {R} self (writes : bool) (op : Chan.Env -> Chan.M R) : SM Status R :=
  on_ms_node (lb_node_id self) (channel_op writes op (lb_channel_id self)).

(** A function of the channel alone. *)
Definition lb_read {R} self (f : Channel -> outcome Status R) : SM Status R :=
  ms_with_ready_channel (lb_node_id self) (lb_channel_id self) (fun chan s => (s, chan, f chan)).

Definition get_channel_setup self : SM unit ChannelSetup := bad_status (lb_read self (fun chan => Ok (setup chan))).

Definition lb_make_counterparty_tx_keys self (point : PublicKey) : SM unit TxCreationKeys :=
  the_setup ← get_channel_setup self;
  let counterparty_pubkeys := counterparty_points the_setup in
  mret (derive_new point (delayed_payment_basepoint counterparty_pubkeys)
          (htlc_basepoint counterparty_pubkeys) (revocation_basepoint (lb_pubkeys self))
          (htlc_basepoint (lb_pubkeys self))).

Definition convert_to_htlc_info2 (htlcs : list HTLCOutputInCommitment) : list HTLCInfo2 * list HTLCInfo2 :=
  foldl (fun '(offered_htlcs, received_htlcs) htlc =>
    let htlc_info := {| value_sat := amount_msat htlc / 1000; payment_hash := oic_payment_hash htlc;
                        cltv_expiry := oic_cltv_expiry htlc |} in
    if offered htlc then (offered_htlcs ++ [htlc_info], received_htlcs)
    else (offered_htlcs, received_htlcs ++ [htlc_info])) ([], []) htlcs.

Definition lb_sign_holder_commitment_and_htlcs self (hct : HolderCommitmentTransaction)
  : SM unit (Signature * list Signature) :=
  let tx := hct_tx hct in
  commitment_number ← c_lift (sub64 INITIAL_COMMITMENT_NUMBER (ct_commitment_number tx));
  let '(offered_htlcs, received_htlcs) := convert_to_htlc_info2 (ct_htlcs tx) in
  bad_status (lb_channel_op self true (fun env =>
    Chan.sign_holder_commitment_tx_phase2_redundant env commitment_number (ct_feerate_per_kw tx)
      (ct_to_broadcaster_value_sat tx) (ct_to_countersignatory_value_sat tx) offered_htlcs received_htlcs)).

Definition lb_dest_wallet_path : path := [1].

Definition lb_is_anchors {E} self : SM E bool :=
  the_setup ← c_expect (get_channel_setup self);
  mret (bool_decide (commitment_type the_setup = Anchors)
        || bool_decide (commitment_type the_setup = AnchorsZeroFeeHtlc)).

(** *** [ChannelSigner] *)

Definition lb_get_per_commitment_point {E} self (idx : Z) : SM E PublicKey :=
  c_expect (bad_status (ms_with_channel_base (lb_node_id self) (lb_channel_id self) (fun base =>
    n ← sub64 INITIAL_COMMITMENT_NUMBER idx;
    unwrap_ok (base_get_per_commitment_point base n)))).

Definition lb_release_commitment_secret {E} self (commitment_number : Z) : SM E SecretKey :=
  c_expect (ms_with_ready_channel (lb_node_id self) (lb_channel_id self) (fun chan s =>
    (s, chan, n ← sub64 INITIAL_COMMITMENT_NUMBER commitment_number;
              unwrap_ok (Chan.get_per_commitment_secret (channel_validator (node s) (id0 chan)) chan n)))).

Definition lb_validate_holder_commitment self (holder_tx : HolderCommitmentTransaction)
  (preimages : list PaymentPreimage) : SM unit unit :=
  let tx := hct_tx holder_tx in
  commitment_number ← c_lift (sub64 INITIAL_COMMITMENT_NUMBER (ct_commitment_number tx));
  bad_status (lb_channel_op self true (fun env =>
    Chan.htlcs_fulfilled env preimages;;
    let '(offered_htlcs, received_htlcs) := convert_to_htlc_info2 (ct_htlcs tx) in
    Chan.validate_holder_commitment_tx_phase2 env commitment_number (ct_feerate_per_kw tx)
      (ct_to_broadcaster_value_sat tx) (ct_to_countersignatory_value_sat tx) offered_htlcs received_htlcs
      (hct_counterparty_sig holder_tx) (hct_counterparty_htlc_sigs holder_tx)));;
  mret tt.

Definition lb_channel_keys_id {E} self : SM E bytes :=
  c_expect (lb_read self (fun chan => Ok (channel_keys_id (keys chan)))).

Definition lb_provide_channel_parameters {E} self (p : ChannelTransactionParameters) : SM E unit :=
  funding ← c_lift (unwrap (ctp_funding_outpoint p));
  '(cp_pubkeys, cp_delay) ← c_lift (unwrap (counterparty_parameters p));
  let the_setup := {|
    is_outbound := is_outbound_from_holder p; channel_value_sat := lb_channel_value_sat self;
    push_value_msat := 0; funding_outpoint := funding;
    holder_selected_contest_delay := ctp_holder_selected_contest_delay p;
    holder_shutdown_script := None; counterparty_points := cp_pubkeys;
    counterparty_selected_contest_delay := cp_delay; counterparty_shutdown_script := None;
    commitment_type := StaticRemoteKey |} in
  c_expect (on_ms_node (lb_node_id self) (ready_channel (lb_channel_id self) None the_setup []));;
  mret tt.

(** *** [EcdsaChannelSigner] *)

Definition lb_sign_counterparty_commitment self (tx : CommitmentTransaction)
  (preimages : list PaymentPreimage) : SM unit (Signature * list Signature) :=
  let '(offered_htlcs, received_htlcs) := convert_to_htlc_info2 (ct_htlcs tx) in
  commitment_number ← c_lift (sub64 INITIAL_COMMITMENT_NUMBER (ct_commitment_number tx));
  bad_status (lb_channel_op self true (fun env =>
    Chan.htlcs_fulfilled env preimages;;
    Chan.sign_counterparty_commitment_tx_phase2 env (per_commitment_point (ct_keys tx)) commitment_number
      (ct_feerate_per_kw tx) (ct_to_countersignatory_value_sat tx) (ct_to_broadcaster_value_sat tx)
      offered_htlcs received_htlcs)).

Definition lb_validate_counterparty_revocation self (idx : Z) (secret : SecretKey) : SM unit unit :=
  forward_idx ← c_lift (sub64 INITIAL_COMMITMENT_NUMBER idx);
  bad_status (lb_channel_op self true (fun env =>
    Chan.validate_counterparty_revocation env forward_idx secret)).

(** The library's signer is asked, whatever the state of the channel. *)
Definition lb_unsafe_sign_holder_commitment_and_htlcs self (hct : HolderCommitmentTransaction)
  : SM unit (Signature * list Signature) :=
  bad_status (lb_read self (fun chan =>
    ok_or (unsafe_sign_holder (keys chan) hct) (internal_error "could not unsafe-sign"))).

Definition lb_get_delayed_payment_keys (point : PublicKey) (a_pubkeys b_pubkeys : ChannelPublicKeys)
  : outcome unit (PublicKey * PublicKey) :=
  let revocation_key := derive_public_revocation_key point (revocation_basepoint b_pubkeys) in
  delayed_payment_key ← ok_or (derive_public_key point (delayed_payment_basepoint a_pubkeys)) tt;
  Ok (revocation_key, delayed_payment_key).

Definition lb_justice_sweep self (justice_tx : Transaction) (input : nat) (per_commitment_key : SecretKey)
  (redeem_script : Script) (amount : Z) : SM unit Signature :=
  bad_status (lb_channel_op self true (fun env =>
    Chan.sign_justice_sweep env justice_tx input per_commitment_key redeem_script amount lb_dest_wallet_path)).

Definition lb_sign_justice_revoked_output self (justice_tx : Transaction) (input : nat) (amount : Z)
  (per_commitment_key : SecretKey) : SM unit Signature :=
  let point := pubkey_from_secret_key per_commitment_key in
  the_setup ← get_channel_setup self;
  '(revocation_key, delayed_payment_key) ← c_lift (lb_get_delayed_payment_keys point
    (counterparty_points the_setup) (lb_pubkeys self));
  let redeem_script := get_revokeable_redeemscript revocation_key
    (holder_selected_contest_delay the_setup) delayed_payment_key in
  lb_justice_sweep self justice_tx input per_commitment_key redeem_script amount.

Definition lb_sign_justice_revoked_htlc self (justice_tx : Transaction) (input : nat) (amount : Z)
  (per_commitment_key : SecretKey) (htlc : HTLCOutputInCommitment) : SM unit Signature :=
  tx_keys ← lb_make_counterparty_tx_keys self (pubkey_from_secret_key per_commitment_key);
  anchors ← lb_is_anchors self;
  lb_justice_sweep self justice_tx input per_commitment_key (get_htlc_redeemscript htlc anchors tx_keys) amount.

Definition lb_sign_counterparty_htlc_transaction self (htlc_tx : Transaction) (input : nat) (amount : Z)
  (point : PublicKey) (htlc : HTLCOutputInCommitment) : SM unit Signature :=
  chan_keys ← lb_make_counterparty_tx_keys self point;
  anchors ← lb_is_anchors self;
  let redeem_script := get_htlc_redeemscript htlc anchors chan_keys in
  bad_status (lb_channel_op self true (fun env =>
    Chan.sign_counterparty_htlc_sweep env htlc_tx input point redeem_script amount lb_dest_wallet_path)).

Definition lb_sign_closing_transaction self (closing_tx : ClosingTransaction) : SM unit Signature :=
  bad_status (lb_channel_op self true (fun env =>
    Chan.sign_mutual_close_tx_phase2 env (to_holder_value_sat closing_tx)
      (to_counterparty_value_sat closing_tx) (Some (to_holder_script closing_tx))
      (Some (to_counterparty_script closing_tx)) [2])).

(** [todo!()] *)
Definition lb_sign_holder_anchor_input self (_ : Transaction) (_ : nat) : SM unit Signature := c_lift Panic.

(** [msg] is the encoded announcement. *)
Definition lb_sign_channel_announcement_with_funding_key self (msg : bytes) : SM unit Signature :=
  bad_status (lb_read self (fun chan => Chan.sign_channel_announcement_with_funding_key chan msg)).

(** *** [LoopbackSignerKeysInterface], of the node [nid] *)

(** An operation of the node; the node must be there. *)
Definition lb_node {R} (nid : PublicKey) (m : M P R) : SM Status R := fun x =>
  match ms_nodes x.1 !! nid with
  | Some _ => on_ms_node nid m x
  | None => (x, Panic)
  end.

Definition lb_ask {E R} (nid : PublicKey) (f : Node -> outcome E R) : SM E R := fun x =>
  (x, n ← unwrap (ms_nodes x.1 !! nid); f n).

Definition lb_add_invoice {E} (nid : PublicKey) (tw : bool) (i : AnyInvoice) (now : Z) : SM E unit :=
  c_expect (lb_node nid (NodeOps.add_invoice tw i now));; mret tt.

Definition lb_get_node_secret (nid : PublicKey) (recipient : Recipient) : SM unit SecretKey :=
  match recipient with
  | RecipientNode => lb_ask nid (fun n => Ok (Keys.node_secret (keys_manager n)))
  | RecipientPhantomNode => c_lift (Err tt)
  end.

Definition lb_get_destination_script {E} (nid : PublicKey) : SM E Script :=
  lb_ask nid (fun n => pubkey ← unwrap_ok (get_wallet_pubkey n lb_dest_wallet_path);
                       Ok (lb_new_v0_p2wpkh pubkey)).

Definition lb_generate_channel_keys_id {E} (nid : PublicKey) : SM E bytes :=
  '(cid, _) ← c_expect (lb_node nid (NodeOps.new_channel None));
  c_lift (assert_ (length cid =? 32)%nat);;
  mret cid.

Definition lb_derive_channel_signer {E} (nid : PublicKey) (channel_value_satoshis : Z) (channel_keys_id : bytes)
  : SM E LoopbackChannelSigner :=
  LoopbackChannelSigner_new nid channel_keys_id channel_value_satoshis.

(** [Writeable::write] of a channel signer, and [read_chan_signer]. *)
Definition lb_write self : bytes := write_vec (lb_channel_id self) ++ write_u64 (lb_channel_value_sat self).

Definition lb_read_chan_signer (nid : PublicKey) (reader : bytes) : SM unit LoopbackChannelSigner :=
  '(cid, reader) ← c_lift (ok_or (read_vec reader) tt);
  '(channel_value_sat, _) ← c_lift (ok_or (read_u64 reader) tt);
  LoopbackChannelSigner_new nid cid channel_value_sat.

Definition lb_get_node_id (nid : PublicKey) (recipient : Recipient) : SM unit PublicKey :=
  node_secret ← lb_get_node_secret nid recipient;
  mret (pubkey_from_secret_key node_secret).

(** [msg] is the encoded gossip message. *)
Definition lb_sign_gossip_message (nid : PublicKey) (msg : bytes) : SM unit Signature :=
  lb_ask nid (fun n => unwrap_ok (do_sign_gossip_message n msg)).

Definition lb_ecdh (nid : PublicKey) (recipient : Recipient) (other_key : PublicKey) (tweak : option bytes)
  : SM unit bytes :=
  node_secret ← lb_get_node_secret nid recipient;
  node_secret ← c_lift (match tweak with
                        | Some t => ok_or (mul_tweak node_secret t) tt
                        | None => Ok node_secret
                        end);
  mret (shared_secret other_key node_secret).

Definition lb_sign_invoice (nid : PublicKey) (hrp_bytes : bytes) (invoice_data : list Z) (recipient : Recipient)
  : SM unit Signature :=
  match recipient with
  | RecipientNode => bad_status (lb_node nid (sign_invoice hrp_bytes invoice_data))
  | RecipientPhantomNode => c_lift (Err tt)
  end.
End loopback.

(** ** The adapter and the protocol client ask for the same *)

Lemma convert_htlcs tx : convert_to_htlc_info2 (ct_htlcs tx) = (ct_offered tx, ct_received tx).
Proof.
  unfold convert_to_htlc_info2, ct_offered, ct_received.
  assert (Hg : forall l a b, foldl (fun '(o, r) htlc =>
      let i := {| value_sat := amount_msat htlc / 1000; payment_hash := oic_payment_hash htlc;
                  cltv_expiry := oic_cltv_expiry htlc |} in
      if offered htlc then (o ++ [i], r) else (o, r ++ [i])) (a, b) l
    = (a ++ (oic_info <$> List.filter offered l),
       b ++ (oic_info <$> List.filter (fun x => negb (offered x)) l))).
  { induction l as [|x l IH]; intros a b; cbn [foldl List.filter]; [by rewrite !app_nil_r|].
    destruct (offered x); rewrite IH; cbn [negb fmap list_fmap]; by rewrite <- app_assoc. }
  apply (Hg _ [] []).
Qed.

Section agreement.
Context `{L : Lib, CrL : CryptoLib, !KeyLib, CL : ChainLib, AL : AddressLib, IL : InvoiceLib}.
Context `{CkL : CheckpointLib, NL : NodeLib, SL : SerLib, SB : SerdeBolt, WL : !WireLib, Prof : Profile}.
Context {P : Type} `{!Persist P} {A : Type} `{!Approve A} `{!SerdeBoltLaws} (tw : bool) (t : Clocks) {S : Type}.
Implicit Types (self : LoopbackChannelSigner) (sc : SignerClient) (ms : MultiSigner P) (seeds : S).

Lemma channel_op_ext {R} w (op op' : Chan.Env -> Chan.M R) id (s : NSt P) :
  (forall env cs, op env cs = op' env cs) -> channel_op w op id s = channel_op w op' id s.
Proof.
  intros Heq. unfold channel_op, with_ready_channel, mbind, M_bind.
  destruct (get_channel id s) as [s1 [ptr|e|]]; [|done..].
  destruct (get_slot ptr s1) as [s2 [sl|e|]]; [|done..].
  destruct (slot sl) as [|chan]; [done|].
  destruct (outcome_bind _ _ _) as [cstate|e|]; [|done..]. by rewrite !Heq.
Qed.

(** No preimages, nothing to fulfil. *)
Lemma no_preimages {R} env (op : Chan.M R) cs : (Chan.htlcs_fulfilled env [];; op) cs = op cs.
Proof. by destruct cs. Qed.

Definition lb_reply {R R'} (f : R -> R') ms seeds nid (x : NSt P * outcome Status R)
  : MultiSigner P * S * outcome unit R' :=
  ((update_ms ms nid x.1, seeds), match x.2 with Ok r => Ok (f r) | Err _ => Err tt | Panic => Panic end).

Lemma lb_counterparty self sc tx ms seeds n : ms_nodes ms !! lb_node_id self = Some n ->
  lb_channel_id self = client_channel sc -> 0 <= ct_commitment_number tx <= INITIAL_COMMITMENT_NUMBER ->
  lb_sign_counterparty_commitment self tx [] (ms, seeds)
  = lb_reply id ms seeds (lb_node_id self)
      (counterparty_request sc tx {| node := n; store := ms_persister ms |}).
Proof.
  intros Hn Hc Hnum. unfold lb_sign_counterparty_commitment. rewrite convert_htlcs.
  unfold mbind at 1, C_bind at 1, c_lift.
  rewrite sub64_in by (unfold INITIAL_COMMITMENT_NUMBER in *; lia).
  unfold bad_status, c_map_err, lb_channel_op, on_ms_node, ms_get_node. rewrite Hn, Hc. cbn [ok_or].
  unfold counterparty_request, lb_reply.
  erewrite channel_op_ext by (intros env cs; apply no_preimages).
  destruct (channel_op _ _ _ _) as [s [r|e|]]; done.
Qed.

Lemma lb_holder self sc htx ms seeds n : ms_nodes ms !! lb_node_id self = Some n ->
  lb_channel_id self = client_channel sc ->
  0 <= ct_commitment_number (hct_tx htx) <= INITIAL_COMMITMENT_NUMBER ->
  lb_validate_holder_commitment self htx [] (ms, seeds)
  = lb_reply (fun _ => tt) ms seeds (lb_node_id self)
      (holder_request sc htx {| node := n; store := ms_persister ms |}).
Proof.
  intros Hn Hc Hnum. unfold lb_validate_holder_commitment. rewrite convert_htlcs.
  unfold mbind at 1, C_bind at 1, c_lift.
  rewrite sub64_in by (unfold INITIAL_COMMITMENT_NUMBER in *; lia).
  unfold mbind at 1, C_bind at 1, bad_status, c_map_err, lb_channel_op, on_ms_node, ms_get_node.
  rewrite Hn, Hc. cbn [ok_or]. unfold holder_request, lb_reply.
  erewrite channel_op_ext by (intros env cs; apply no_preimages).
  destruct (channel_op _ _ _ _) as [s [r|e|]]; done.
Qed.

(** C18: it makes no difference whether the lightning library uses the signer in
    its process or over the protocol, as long as it passes no preimages (the
    adapter hands those on to the channel, the client drops them).  When it
    asks for a signature on the counterparty's commitment, or to validate the
    holder's commitment, with numbers up to the initial one, signatures and
    keys that have a compact form and messages that fit their length, the
    adapter and the client whose messages travel as bytes to the handlers both
    make the same request to the channel: the same point, number (counted up),
    fee rate and values, and the HTLCs in the same directions.  Both give the
    library the channel's answer and leave the node and the store as the
    request leaves them. *)
Theorem loopback_and_client_agree self sc ms seeds n h tx htx
  (Hnode : ms_nodes ms !! lb_node_id self = Some n)
  (Hh : h_node (A := A) h = {| node := n; store := ms_persister ms |})
  (Hchan : lb_channel_id self = client_channel sc) (Hdbid : sc_dbid sc <> 0)
  (Hnum : 0 <= ct_commitment_number tx <= INITIAL_COMMITMENT_NUMBER)
  (Hpoint : pubkey_from_slice (per_commitment_point (ct_keys tx)) = Some (per_commitment_point (ct_keys tx)))
  (Hsend : sendable (counterparty_message tx))
  (Hsigs : forall s sig sigs, counterparty_request sc tx (h_node h) = (s, Ok (sig, sigs)) ->
     compact sig /\ Forall compact sigs /\ Z.of_nat (length sigs) < 256 ^ 2)
  (Hnum' : 0 <= ct_commitment_number (hct_tx htx) <= INITIAL_COMMITMENT_NUMBER)
  (Hsig : compact (hct_counterparty_sig htx)) (Hsigs' : Forall compact (hct_counterparty_htlc_sigs htx))
  (Hsend' : sendable (holder_message htx))
  (Hreply : forall s point secret, holder_request sc htx (h_node h) = (s, Ok (point, secret)) ->
     valid Model.PubKey point /\ forall x, secret = Some x -> valid Model.DisclosedSecret x) :
  (let '(s, r) := counterparty_request sc tx (h_node h) in
   sc_sign_counterparty_commitment (Transport0 := local_transport tw t) sc tx h
     = (with_node h s, map_err (fun _ => tt) r)
   /\ lb_sign_counterparty_commitment self tx [] (ms, seeds)
     = ((update_ms ms (lb_node_id self) s, seeds), map_err (fun _ => tt) r))
  /\ (let '(s, r) := holder_request sc htx (h_node h) in
      let r := map_err (fun _ => tt) r ≫= (fun _ => Ok tt) in
      sc_validate_holder_commitment (Transport0 := local_transport tw t) sc htx h = (with_node h s, r)
      /\ lb_validate_holder_commitment self htx [] (ms, seeds)
        = ((update_ms ms (lb_node_id self) s, seeds), r)).
Proof.
  rewrite (client_signs_counterparty tw t) by done. rewrite (client_validates_holder tw t) by done.
  rewrite (lb_counterparty self sc tx ms seeds n), (lb_holder self sc htx ms seeds n) by done.
  rewrite Hh. split.
  - by destruct (counterparty_request sc tx {| node := n; store := ms_persister ms |}) as [s [r|e|]].
  - by destruct (holder_request sc htx {| node := n; store := ms_persister ms |}) as [s [r|e|]].
Qed.
End agreement.

(** ** Witnesses *)

#[local] Existing Instances sized_lib example_crypto sized_keys Tracker.example_chain_lib
  example_addresses example_invoices example_checkpoints example_node_lib example_ser Chan.release
  example_serde sized_wire example_serde_laws.

(** The node of the example, as the one node of a [MultiSigner]. *)
Definition sized_ms : MultiSigner KVJson.KVJsonPersister := {|
  ms_nodes := {[ node_id sized_node := sized_node ]}; ms_persister := store (h_node sized_signer);
  ms_test_mode := false; ms_initial_allowlist := []; ms_validator_factory := sized_factory |}.

Definition sized_loopback : LoopbackChannelSigner := {|
  lb_node_id := node_id sized_node; lb_channel_id := sized_id; lb_pubkeys := example_signer_keys 1;
  lb_channel_value_sat := 1000000 |}.

Lemma loopback_and_client_agree_witness : exists s,
  sc_sign_counterparty_commitment (Transport0 := local_transport false sized_clocks) sized_client
    (sized_commitment 0 999000) sized_signer = (with_node sized_signer s, Ok (replicate 64 1, []))
  /\ lb_sign_counterparty_commitment sized_loopback (sized_commitment 0 999000) [] (sized_ms, tt)
    = ((update_ms sized_ms (node_id sized_node) s, tt), Ok (replicate 64 1, [])).
Proof.
  destruct sized_counterparty_answer as [s Hc]. destruct sized_holder_answer as [s' Hd]. exists s.
  pose proof (loopback_and_client_agree false sized_clocks sized_loopback sized_client sized_ms tt sized_node
    sized_signer (sized_commitment 0 999000) sized_holder_commitment) as Hagree.
  rewrite Hc in Hagree. apply Hagree.
  - apply lookup_singleton_eq.
  - reflexivity.
  - reflexivity.
  - discriminate.
  - split; vm_compute; congruence.
  - reflexivity.
  - apply sized_counterparty_sendable.
  - intros s1 sig sigs [= _ <- <-]. split; [apply ones_compact|]. split; [constructor|reflexivity].
  - split; vm_compute; congruence.
  - apply ones_compact.
  - constructor.
  - apply sized_holder_sendable.
  - intros s1 point secret Heq. rewrite Hd in Heq. injection Heq as _ <- <-.
    split; [apply sized_point_valid|discriminate].
Defined.
