(* ===== verification/SdCard.v ===== *)
(** * The SD card of the embedded signer (vls-signer-stm32/src/sdcard.rs)

    The file system crate reads and writes bytes at a position; the card reads
    and writes blocks.  [Card] is the layer between them, with a cache of one
    block.  The main result is that it is a flat array of bytes, also when
    blocks cannot be written at times; the driver of the card is a parameter.
    The target is a 32 bit processor, so [usize] has 32 bits. *)

From S2P Require Import Prelude Extern Client.

(** ** The driver *)

(** The driver of the card (crate stm32f4xx_hal): a read fills the buffer it is
    given, and tells whether it succeeded; the error is dropped by the caller. *)
Class Sdio (S : Type) := {
  sd_init : S -> S * bool;
  sd_block_count : S -> option Z;
  sd_read_block : Z -> bytes -> S -> S * bytes * bool;
  sd_write_block : Z -> bytes -> S -> S * bool
}.

Definition BLOCK_SIZE : Z := 512.

(** ** The cached block device *)

Record Card (S : Type) := {
  pos : Z;
  sdio : S;
  num_blocks : Z;
  buf : bytes;
  buf_block_index : Z;
  is_dirty : bool
}.
Arguments pos {S}.
Arguments sdio {S}.
Arguments num_blocks {S}.
Arguments buf {S}.
Arguments buf_block_index {S}.
Arguments is_dirty {S}.

Inductive SeekFrom :=
| Start (p : Z)
| End_ (p : Z)
| Current (p : Z).

(** [as i64], and [+] on [i64]. *)
Definition as_i64 (x : Z) : Z := (x + 2 ^ 63) mod 2 ^ 64 - 2 ^ 63.
Definition add_i64 `{Profile} {E} (a b : Z) : outcome E Z :=
  if (- 2 ^ 63 <=? a + b) && (a + b <? 2 ^ 63) then Ok (a + b)
  else if overflow_checks then Panic else Ok (as_i64 (a + b)).

Section card.
Context `{Prof : Profile} {S : Type} `{!Sdio S}.
Notation CardM := (CM (Card S) unit).

Definition set_pos (self : Card S) (p : Z) : Card S := {|
  pos := p; sdio := sdio self; num_blocks := num_blocks self; buf := buf self;
  buf_block_index := buf_block_index self; is_dirty := is_dirty self |}.

Definition succeeds (ok : bool) : outcome unit unit := if ok then Ok tt else Err tt.

Definition do_read_block (n : Z) : CardM unit := fun self =>
  let '(s, b, ok) := sd_read_block n (buf self) (sdio self) in
  ({| pos := pos self; sdio := s; num_blocks := num_blocks self; buf := b;
      buf_block_index := if ok then n else buf_block_index self; is_dirty := is_dirty self |},
   succeeds ok).

Definition write_block : CardM unit := fun self =>
  if is_dirty self then
    let '(s, ok) := sd_write_block (buf_block_index self) (buf self) (sdio self) in
    ({| pos := pos self; sdio := s; num_blocks := num_blocks self; buf := buf self;
        buf_block_index := buf_block_index self; is_dirty := negb ok |},
     succeeds ok)
  else (self, Ok tt).

Definition read_block (n : Z) : CardM unit := fun self =>
  if n =? buf_block_index self then (self, Ok tt)
  else (write_block;; do_read_block n) self.

(** One turn of the loops of [read] and [write]: the block of the position is
    made current; [None] at the end of the disk. *)
Definition current_block (self : Card S) : option Z :=
  let n := as_u 32 (pos self / BLOCK_SIZE) in
  if num_blocks self <=? n then None else Some n.

(** The loop of [read], with the number of bytes that are still to be read and
    the bytes read so far.  A turn reads at least one byte, so that [len] turns
    are enough. *)
Fixpoint read_loop (fuel : nat) (len : Z) (got : bytes) : CardM bytes := fun self =>
  match fuel with
  | O => (self, Ok got)
  | Datatypes.S fuel =>
      if len =? 0 then (self, Ok got)
      else
        match current_block self with
        | None => (self, Ok got)
        | Some n =>
            match read_block n self with
            | (self, Err e) => (self, if bool_decide (got = []) then Err e else Ok got)
            | (self, Panic) => (self, Panic)
            | (self, Ok _) =>
                let offset := pos self mod BLOCK_SIZE in
                let k := Z.min len (BLOCK_SIZE - offset) in
                let chunk := take (Z.to_nat k) (drop (Z.to_nat offset) (buf self)) in
                match add64 (pos self) k with
                | Ok p => read_loop fuel (len - k) (got ++ chunk) (set_pos self p)
                | Err e => (self, Err e)
                | Panic => (self, Panic)
                end
            end
        end
  end.

Definition read (len : nat) : CardM bytes := read_loop len (Z.of_nat len) [].

Fixpoint write_loop (fuel : nat) (data : bytes) (count : Z) : CardM Z := fun self =>
  match fuel with
  | O => (self, Ok count)
  | Datatypes.S fuel =>
      if bool_decide (data = []) then (self, Ok count)
      else
        match current_block self with
        | None => (self, Ok count)
        | Some n =>
            match read_block n self with
            | (self, Err e) => (self, if count =? 0 then Err e else Ok count)
            | (self, Panic) => (self, Panic)
            | (self, Ok _) =>
                let offset := as_u 32 (pos self) mod BLOCK_SIZE in
                let k := Z.min (Z.of_nat (length data)) (BLOCK_SIZE - offset) in
                let self := {|
                  pos := pos self; sdio := sdio self; num_blocks := num_blocks self;
                  buf := list_inserts (Z.to_nat offset) (take (Z.to_nat k) data) (buf self);
                  buf_block_index := buf_block_index self; is_dirty := true |} in
                match add64 (pos self) k with
                | Ok p => write_loop fuel (drop (Z.to_nat k) data) (count + k) (set_pos self p)
                | Err e => (self, Err e)
                | Panic => (self, Panic)
                end
            end
        end
  end.

Definition write (data : bytes) : CardM Z := write_loop (length data) data 0.

Definition flush : CardM unit := write_block.

Definition seek_pos (from : SeekFrom) (self : Card S) : outcome unit Z :=
  match from with
  | Start p => Ok p
  | End_ p =>
      size ← wrapping 32 (num_blocks self * BLOCK_SIZE);
      q ← add_i64 size p;
      Ok (as_u 64 q)
  | Current p =>
      q ← add_i64 (as_i64 (pos self)) p;
      Ok (as_u 64 q)
  end.

Definition seek (from : SeekFrom) : CardM Z := fun self =>
  match seek_pos from self with
  | Ok p => (set_pos self p, Ok p)
  | Err e => (self, Err e)
  | Panic => (self, Panic)
  end.

(** [open], up to the card that the file system is built on. *)
Definition open (sdio : S) : outcome unit (Card S) :=
  blocks ← unwrap (sd_block_count sdio);
  let card := {| pos := 0; sdio := sdio; num_blocks := blocks;
                 buf := replicate (Z.to_nat BLOCK_SIZE) 0; buf_block_index := 0; is_dirty := false |} in
  match do_read_block 0 card with
  | (card, Ok _) => Ok card
  | (_, Err e) => Err e
  | (_, Panic) => Panic
  end.

(** The loop of [init_sdio]. *)
Fixpoint init_loop (retries : nat) (sdio : S) : S * bool :=
  match sd_init sdio, retries with
  | (sdio, true), _ => (sdio, true)
  | (sdio, false), O => (sdio, false)
  | (sdio, false), Datatypes.S retries => init_loop retries sdio
  end.

Definition init_sdio (sdio : S) : S * bool := init_loop 2 sdio.
End card.

(** ** The flat array

    What the file system relies on: an array of bytes and a position. *)

Record Flat := { f_bytes : bytes; f_pos : Z }.

Inductive Request :=
| Read (len : nat)
| Write (data : bytes)
| Seek (from : SeekFrom)
| Flush.

Inductive Reply :=
| Got (data : bytes)
| Put (count : Z)
| At (p : Z)
| Flushed.

Definition f_size (f : Flat) : Z := Z.of_nat (length (f_bytes f)).
Definition f_move (f : Flat) (p : Z) : Flat := {| f_bytes := f_bytes f; f_pos := p |}.

Definition seek_target (f : Flat) (from : SeekFrom) : Z :=
  match from with
  | Start p => p
  | End_ p => f_size f + p
  | Current p => f_pos f + p
  end.

(** How the array serves a request: a read gives bytes of the array and a write
    stores bytes, perhaps fewer than asked for; an error changes nothing. *)
Definition flat_serves (f : Flat) (req : Request) (rep : outcome unit Reply) (f' : Flat) : Prop :=
  match req, rep with
  | Read len, Ok (Got got) =>
      got = take (length got) (drop (Z.to_nat (f_pos f)) (f_bytes f)) /\ (length got <= len)%nat
      /\ f' = f_move f (f_pos f + Z.of_nat (length got))
  | Write data, Ok (Put k) =>
      0 <= k <= Z.of_nat (length data) /\ (k = 0 \/ f_pos f + k <= f_size f)
      /\ f' = {| f_bytes := list_inserts (Z.to_nat (f_pos f)) (take (Z.to_nat k) data) (f_bytes f);
                 f_pos := f_pos f + k |}
  | Seek from, Ok (At p) => p = seek_target f from /\ f' = f_move f p
  | Flush, Ok Flushed => f' = f
  | _, Err _ => f' = f
  | _, _ => False
  end.

(** The request is served as far as the array goes. *)
Definition served_fully (f : Flat) (req : Request) (rep : outcome unit Reply) : Prop :=
  let room := Z.max 0 (f_size f - f_pos f) in
  match req, rep with
  | Read len, Ok (Got got) => Z.of_nat (length got) = Z.min (Z.of_nat len) room
  | Write data, Ok (Put k) => k = Z.min (Z.of_nat (length data)) room
  | Seek _, Ok _ | Flush, Ok _ => True
  | _, _ => False
  end.

Section run.
Context `{Prof : Profile} {S : Type} `{!Sdio S}.

Definition serve (req : Request) : CM (Card S) unit Reply :=
  match req with
  | Read len => got ← read len; mret (Got got)
  | Write data => k ← write data; mret (Put k)
  | Seek from => p ← seek from; mret (At p)
  | Flush => flush;; mret Flushed
  end.

Fixpoint serve_all (reqs : list Request) (c : Card S)
  : Card S * list (Request * outcome unit Reply) :=
  match reqs with
  | [] => (c, [])
  | req :: reqs =>
      let '(c, rep) := serve req c in
      let '(c, reps) := serve_all reqs c in (c, (req, rep) :: reps)
  end.
End run.

(** Seeks stay in the range of a card of [n] blocks; the offset of a seek is an
    [i64].  A seek from the end needs a card below 4 GiB. *)
Definition sane_seek (n : Z) (served : Request * outcome unit Reply) : Prop :=
  match served with
  | (Seek from, rep) =>
      match from, rep with
      | Start p, _ => 0 <= p < 2 ^ 41
      | End_ q, Ok (At p) => - 2 ^ 63 <= q < 2 ^ 63 /\ n * BLOCK_SIZE < 2 ^ 32 /\ p < 2 ^ 41
      | Current q, Ok (At p) => - 2 ^ 63 <= q < 2 ^ 63 /\ p < 2 ^ 41
      | _, _ => False
      end
  | _ => True
  end.

Inductive flat_run (full : Prop) : Flat -> list (Request * outcome unit Reply) -> Flat -> Prop :=
| flat_nil f : flat_run full f [] f
| flat_cons f req rep f1 reps f' : flat_serves f req rep f1 -> (full -> served_fully f req rep) ->
    flat_run full f1 reps f' -> flat_run full f ((req, rep) :: reps) f'.

(** What the driver promises: [disk] are the blocks on the card, and [failed]
    tells whether a read of a block has failed so far.  A read that succeeds
    gives the block, one that fails may leave anything in the buffer; a write
    that fails leaves some block in the place. *)
Class SdioLaws {S : Type} `{!Sdio S} (disk : S -> list bytes) (failed : S -> bool) : Prop := {
  law_count s n : sd_block_count s = Some n -> Z.of_nat (length (disk s)) = n /\ n < 2 ^ 32;
  law_blocks s : Forall (fun b => length b = 512%nat) (disk s);
  law_read n b s s' b' ok : 0 <= n < Z.of_nat (length (disk s)) ->
    sd_read_block n b s = (s', b', ok) ->
    if ok then disk s' = disk s /\ disk s !! Z.to_nat n = Some b' else failed s' = true;
  law_read_after n b s : failed s = true -> failed (sd_read_block n b s).1.1 = true;
  law_write_after n b s : failed s = true -> failed (sd_write_block n b s).1 = true;
  law_write n b s s' ok : 0 <= n < Z.of_nat (length (disk s)) -> length b = 512%nat ->
    sd_write_block n b s = (s', ok) ->
    exists x, length x = 512%nat /\ disk s' = <[Z.to_nat n := x]> (disk s) /\ (ok = true -> x = b)
}.

(** ** Lists of blocks *)

Section blocks.
Implicit Types l d : bytes.

Lemma list_inserts_app_l d l1 l2 i : (i + length d <= length l1)%nat ->
  list_inserts i d (l1 ++ l2) = list_inserts i d l1 ++ l2.
Proof.
  revert i. induction d as [|x d IH]; intros i Hi; [done|]. cbn in *.
  rewrite IH by lia. rewrite insert_app_l; [done|]. rewrite length_inserts. lia.
Qed.

Lemma list_inserts_app_r d l1 l2 i :
  list_inserts (length l1 + i) d (l1 ++ l2) = l1 ++ list_inserts i d l2.
Proof.
  revert i. induction d as [|x d IH]; intros i; [done|]. cbn. rewrite plus_n_Sm, IH.
  by rewrite insert_app_r.
Qed.

Lemma list_inserts_append d1 d2 l i :
  list_inserts i (d1 ++ d2) l = list_inserts (i + length d1) d2 (list_inserts i d1 l).
Proof.
  revert i. induction d1 as [|x d1 IH]; intros i; cbn; [by rewrite Nat.add_0_r|].
  rewrite IH. replace (Datatypes.S i + length d1)%nat with (i + Datatypes.S (length d1))%nat by lia.
  rewrite list_insert_inserts_lt; [done|lia].
Qed.

Lemma take_append l n m : take n l ++ take m (drop n l) = take (n + m) l.
Proof.
  revert l. induction n as [|n IH]; intros [|x l]; cbn; [done|done|by rewrite take_nil|].
  by rewrite IH.
Qed.

Notation wf := (Forall (fun b : bytes => length b = 512%nat)).

Lemma blocks_length bl : wf bl -> length (concat bl) = (512 * length bl)%nat.
Proof. induction 1 as [|b bl' Hb _ IH]; cbn; [done|]. rewrite length_app, Hb, IH. lia. Qed.

Lemma blocks_slice bl n b off k : wf bl -> bl !! n = Some b -> (off + k <= 512)%nat ->
  take k (drop (512 * n + off) (concat bl)) = take k (drop off b).
Proof.
  intros Hbl. revert n. induction Hbl as [|b0 bl' Hb _ IH]; intros n Hn Hk; [done|]. cbn [concat].
  destruct n as [|n].
  - injection Hn as ->. replace (512 * 0 + off)%nat with off by lia.
    rewrite drop_app_le by lia. apply take_app_le. rewrite length_drop. lia.
  - rewrite <- (IH n) by done. rewrite drop_app_ge by lia. do 2 f_equal. lia.
Qed.

Lemma blocks_insert bl n b off d : wf bl -> bl !! n = Some b -> (off + length d <= 512)%nat ->
  concat (<[n := list_inserts off d b]> bl) = list_inserts (512 * n + off) d (concat bl).
Proof.
  intros Hbl. revert n. induction Hbl as [|b0 bl' Hb _ IH]; intros n Hn Hd; [done|].
  destruct n as [|n].
  - injection Hn as ->. cbn. replace (512 * 0 + off)%nat with off by lia.
    symmetry. apply list_inserts_app_l. lia.
  - change (<[Datatypes.S n := ?x]> (b0 :: bl')) with (b0 :: <[n := x]> bl'). cbn [concat].
    rewrite (IH n) by done.
    replace (512 * Datatypes.S n + off)%nat with (length b0 + (512 * n + off))%nat by lia.
    by rewrite list_inserts_app_r.
Qed.
End blocks.

(** ** The card is a flat array *)

Section refinement.
Context `{Prof : Profile} {S : Type} `{!Sdio S} (disk : S -> list bytes) (failed : S -> bool) `{!SdioLaws disk failed}.
Implicit Types c : Card S.

Record card_ok c : Prop := {
  ok_count : Z.of_nat (length (disk (sdio c))) = num_blocks c;
  ok_small : num_blocks c < 2 ^ 32;
  ok_buf : length (buf c) = 512%nat;
  ok_index : 0 <= buf_block_index c < num_blocks c;
  ok_pos : 0 <= pos c < 2 ^ 41;
  ok_clean : is_dirty c = false -> disk (sdio c) !! Z.to_nat (buf_block_index c) = Some (buf c)
}.

(** The blocks of the card, the cached one as it is in the cache. *)
Definition blocks c : list bytes := <[Z.to_nat (buf_block_index c) := buf c]> (disk (sdio c)).

Definition abs c : Flat := {| f_bytes := concat (blocks c); f_pos := pos c |}.

(** Every block can be written. *)
Definition writes_succeed : Prop :=
  forall n b (s : S), 0 <= n < Z.of_nat (length (disk s)) -> (sd_write_block n b s).2 = true.

Lemma blocks_wf c : card_ok c -> Forall (fun b => length b = 512%nat) (blocks c).
Proof.
  intros Hc. apply Forall_insert; [apply law_blocks|apply (ok_buf _ Hc)].
Qed.

Lemma abs_size c : card_ok c -> f_size (abs c) = 512 * num_blocks c.
Proof.
  intros Hc. unfold f_size. cbn. rewrite blocks_length by by apply blocks_wf.
  unfold blocks. rewrite length_insert. rewrite <- (ok_count _ Hc). lia.
Qed.

Lemma blocks_cached c : card_ok c -> blocks c !! Z.to_nat (buf_block_index c) = Some (buf c).
Proof.
  intros Hc. apply list_lookup_insert_eq. pose proof (ok_count _ Hc). pose proof (ok_index _ Hc). lia.
Qed.

(** A change of the card that the array does not see. *)
Definition same_array c c' : Prop :=
  card_ok c' /\ blocks c' = blocks c /\ pos c' = pos c /\ num_blocks c' = num_blocks c.

Lemma write_block_same c : card_ok c -> exists c' r, write_block c = (c', r) /\ same_array c c'
  /\ buf_block_index c' = buf_block_index c
  /\ (r = Ok tt /\ is_dirty c' = false \/ r = Err tt /\ ~ writes_succeed).
Proof.
  intros Hc. pose proof Hc as [Hn Hs Hb Hi Hp Hcl]. unfold write_block.
  destruct (is_dirty c) eqn:Hd; [|eexists c, _; split; [done|]; split; [done|]; split; [done|by left]].
  destruct (sd_write_block _ _ _) as [s ok] eqn:Hw.
  assert (Hok : ok = false -> ~ writes_succeed).
  { intros -> Hall. specialize (Hall (buf_block_index c) (buf c) (sdio c)). rewrite Hw in Hall.
    cbn in Hall. by rewrite Hn in Hall; specialize (Hall Hi). }
  apply law_write in Hw as (x & Hx & Hdisk & Hok'); [|lia|done].
  eexists _, _. split; [done|]. split.
  - split; [split; cbn|].
    + by rewrite Hdisk, length_insert.
    + done.
    + done.
    + done.
    + done.
    + destruct ok; [|done]. intros _. rewrite Hdisk, Hok' by done. apply list_lookup_insert_eq. lia.
    + unfold blocks. cbn. rewrite Hdisk. by rewrite list_insert_insert_eq.
  - split; [done|]. destruct ok; [by left|right; auto].
Qed.

Lemma read_block_same n c : card_ok c -> 0 <= n < num_blocks c -> exists c' r, read_block n c = (c', r)
  /\ (r = Err tt /\ failed (sdio c') = true
      \/ same_array c c' /\ (r = Ok tt /\ buf_block_index c' = n \/ r = Err tt /\ ~ writes_succeed)).
Proof.
  intros Hc Hn. unfold read_block. destruct (n =? buf_block_index c) eqn:He.
  { b2p. eexists c, _. split; [done|]. right. split; [done|]. by left. }
  destruct (write_block_same c Hc) as (c1 & r & Hw & (Hc1 & Hb1 & Hp1 & Hn1) & _ & Hr).
  unfold mbind, C_bind. rewrite Hw. destruct Hr as [[-> Hclean]|[-> Hfail]].
  2:{ eexists _, _. split; [done|]. right. split; [done|]. by right. }
  unfold do_read_block. pose proof (ok_count _ Hc1) as Hcount.
  destruct (sd_read_block n (buf c1) (sdio c1)) as [[s' b'] ok] eqn:Hr.
  apply law_read in Hr; [|lia]. destruct ok; [|eexists _, _; split; [done|]; by left].
  destruct Hr as [Hd Hl]. eexists _, _. split; [done|]. right. split; [|by left].
  pose proof (ok_clean _ Hc1 Hclean) as Hcl. split; [split; cbn|].
  - by rewrite Hd.
  - apply (ok_small _ Hc1).
  - pose proof (law_blocks (sdio c1)) as Hall. rewrite Forall_lookup in Hall. by apply (Hall _ _ Hl).
  - lia.
  - apply (ok_pos _ Hc1).
  - intros _. by rewrite Hd.
  - split; [|done]. unfold blocks in Hb1 |- *. cbn. rewrite Hd.
    rewrite list_insert_id by done. rewrite <- Hb1. by rewrite list_insert_id.
Qed.

Lemma set_pos_ok c p : card_ok c -> 0 <= p < 2 ^ 41 -> card_ok (set_pos c p).
Proof. intros [] Hp. by split. Qed.

(** The block of the position. *)
Lemma current_block_spec c : card_ok c ->
  match current_block c with
  | None => f_size (abs c) <= pos c
  | Some n => n = pos c / 512 /\ 0 <= n < num_blocks c
  end.
Proof.
  intros Hc. rewrite (abs_size c Hc). pose proof (ok_pos _ Hc) as Hp. unfold current_block, as_u, BLOCK_SIZE.
  assert (Hdiv : 0 <= pos c / 512 < 2 ^ 32).
  { split; [apply Z.div_pos; lia|]. apply Z.div_lt_upper_bound; lia. }
  rewrite (Z.mod_small _ _ Hdiv). destruct (num_blocks c <=? pos c / 512) eqn:Hn; b2p; [|lia].
  pose proof (Z.mul_div_le (pos c) 512). lia.
Qed.

Lemma chunk_spec c k : card_ok c -> buf_block_index c = pos c / 512 ->
  0 <= k <= 512 - pos c mod 512 ->
  take (Z.to_nat k) (drop (Z.to_nat (pos c mod 512)) (buf c))
  = take (Z.to_nat k) (drop (Z.to_nat (pos c)) (concat (blocks c))).
Proof.
  intros Hc Hi Hk. pose proof (ok_pos _ Hc). pose proof (Z.mod_pos_bound (pos c) 512).
  rewrite <- (blocks_slice (blocks c) (Z.to_nat (buf_block_index c)) (buf c));
    [|by apply blocks_wf|by apply blocks_cached|lia].
  do 2 f_equal. rewrite Hi. pose proof (Z.div_mod (pos c) 512). pose proof (Z.div_pos (pos c) 512). lia.
Qed.

(** A position in a block of the card, and what is left of the block. *)
Lemma block_room c k : card_ok c -> 0 <= pos c / 512 < num_blocks c -> 0 <= k <= 512 - pos c mod 512 ->
  pos c + k <= 512 * num_blocks c /\ 0 <= pos c mod 512 < 512.
Proof.
  intros Hc Hn Hk. pose proof (Z.div_mod (pos c) 512). pose proof (Z.mod_pos_bound (pos c) 512). lia.
Qed.

(** What the loop of [read] leaves and returns. *)
Definition has_read c len got c' (r : outcome unit bytes) : Prop :=
  failed (sdio c') = true \/
  card_ok c' /\ blocks c' = blocks c /\ num_blocks c' = num_blocks c
  /\ (r = Err tt /\ got = [] /\ pos c' = pos c /\ ~ writes_succeed
      \/ exists more, r = Ok (got ++ more)
           /\ more = take (length more) (drop (Z.to_nat (pos c)) (concat (blocks c)))
           /\ Z.of_nat (length more) <= len /\ pos c' = pos c + Z.of_nat (length more)
           /\ (writes_succeed -> Z.of_nat (length more) = Z.min len (Z.max 0 (512 * num_blocks c - pos c)))).

Lemma read_nothing c len got c' : same_array c c' -> 0 <= len ->
  (writes_succeed -> len = 0 \/ 512 * num_blocks c <= pos c) -> has_read c len got c' (Ok got).
Proof.
  intros (Hc & Hb & Hp & Hn) Hlen Hfull. right. do 3 (split; [done|]). right. exists [].
  rewrite app_nil_r. cbn.
  repeat split; [lia|lia|]. intros Hws. specialize (Hfull Hws). lia.
Qed.

Lemma read_loop_spec fuel : forall len got c, card_ok c -> 0 <= len <= Z.of_nat fuel ->
  exists c' r, read_loop fuel len got c = (c', r) /\ has_read c len got c' r.
Proof.
  induction fuel as [|fuel IH]; intros len got c Hc Hlen; cbn [read_loop].
  { eexists c, _. split; [done|]. apply read_nothing; [done|lia|lia]. }
  destruct (len =? 0) eqn:Hz; b2p.
  { eexists c, _. split; [done|]. apply read_nothing; [done|lia|lia]. }
  pose proof (current_block_spec c Hc) as Hcur. rewrite (abs_size c Hc) in Hcur.
  destruct (current_block c) as [n|].
  2:{ eexists c, _. split; [done|]. apply read_nothing; [done|lia|lia]. }
  destruct Hcur as [-> Hn].
  destruct (read_block_same _ c Hc Hn) as (c1 & r & Hr & [[-> Hbad]|[Hsame Hcase]]); rewrite Hr.
  { eexists c1, _. split; [done|]. by left. }
  pose proof Hsame as (Hc1 & Hb1 & Hp1 & Hn1). destruct Hcase as [[-> Hidx]|[-> Hfail]].
  2:{ eexists c1, _. split; [done|]. case_bool_decide as Hg; [|apply read_nothing; [done|lia|done]].
      right. do 3 (split; [done|]). by left. }
  unfold BLOCK_SIZE. set (k := Z.min len (512 - pos c1 mod 512)). rewrite <- Hp1 in Hidx, Hn.
  pose proof (Z.mod_pos_bound (pos c1) 512 ltac:(lia)).
  destruct (block_room c1 k Hc1) as [Hroom Hoff]; [by rewrite Hn1|lia|].
  pose proof (ok_pos _ Hc1). pose proof (ok_small _ Hc1). rewrite add64_in by lia.
  destruct (IH (len - k) (got ++ take (Z.to_nat k) (drop (Z.to_nat (pos c1 mod 512)) (buf c1)))
              (set_pos c1 (pos c1 + k))) as (c' & r & -> & [Hbad|(Hc' & Hb' & Hn' & Hcase)]);
    [apply set_pos_ok; [done|lia]|lia|eexists c', _; split; [done|]; by left|].
  set (chunk := take (Z.to_nat k) _) in *.
  assert (Hk : length chunk = Z.to_nat k).
  { unfold chunk. rewrite length_take, length_drop, (ok_buf _ Hc1). lia. }
  eexists c', _. split; [done|]. right. split; [done|]. split; [by rewrite Hb'|].
  split; [by rewrite Hn'|]. right. destruct Hcase as [(_ & Hnil & _)|(more & -> & Hmore & Hle & Hpos & Hfull)].
  { apply app_eq_nil in Hnil as [_ Hnil]. rewrite Hnil in Hk. cbn in Hk. lia. }
  exists (chunk ++ more). rewrite app_assoc, length_app, Hk. split; [done|]. cbn in Hmore, Hpos, Hfull.
  split; [|split; [lia|]; split; [lia|intros Hws; specialize (Hfull Hws); lia]].
  rewrite <- take_append, drop_drop. f_equal.
  - unfold chunk. rewrite (chunk_spec c1 k), Hp1 by (done || lia). by rewrite Hb1.
  - rewrite Hmore at 1. change (blocks (set_pos c1 _)) with (blocks c1). rewrite Hb1, Hp1.
    do 2 f_equal. lia.
Qed.

(** A write into the cached block is a write into the array. *)
Lemma write_cached c off d : card_ok c -> (off + length d <= 512)%nat ->
  let c' := {| pos := pos c; sdio := sdio c; num_blocks := num_blocks c;
               buf := list_inserts off d (buf c); buf_block_index := buf_block_index c;
               is_dirty := true |} in
  card_ok c' /\ concat (blocks c')
    = list_inserts (512 * Z.to_nat (buf_block_index c) + off) d (concat (blocks c)).
Proof.
  intros Hc Hd c'. pose proof Hc as []. split; [split; cbn; try done; by rewrite length_inserts|].
  rewrite <- (blocks_insert (blocks c) _ (buf c)); [|by apply blocks_wf|by apply blocks_cached|done].
  unfold blocks, c'. cbn. by rewrite list_insert_insert_eq.
Qed.

(** What the loop of [write] leaves and returns. *)
Definition has_written c (data : bytes) count c' (r : outcome unit Z) : Prop :=
  failed (sdio c') = true \/
  card_ok c' /\ num_blocks c' = num_blocks c
  /\ (r = Err tt /\ count = 0 /\ blocks c' = blocks c /\ pos c' = pos c /\ ~ writes_succeed
      \/ exists k, r = Ok (count + k) /\ 0 <= k <= Z.of_nat (length data)
           /\ (k = 0 \/ pos c + k <= 512 * num_blocks c)
           /\ concat (blocks c') = list_inserts (Z.to_nat (pos c)) (take (Z.to_nat k) data) (concat (blocks c))
           /\ pos c' = pos c + k
           /\ (writes_succeed ->
                k = Z.min (Z.of_nat (length data)) (Z.max 0 (512 * num_blocks c - pos c)))).

Lemma write_nothing c data count c' : same_array c c' ->
  (writes_succeed -> data = [] \/ 512 * num_blocks c <= pos c) -> has_written c data count c' (Ok count).
Proof.
  intros (Hc & Hb & Hp & Hn) Hfull. right. do 2 (split; [done|]). right. exists 0.
  rewrite Z.add_0_r, Hb. cbn.
  split; [done|]. split; [lia|]. split; [by left|]. split; [done|]. split; [lia|].
  intros Hws. destruct (Hfull Hws) as [->|?]; cbn; lia.
Qed.

(** A turn that wrote [k] bytes, before the rest is written. *)
Lemma has_written_more c c2 data count k c' r : 0 < k <= Z.of_nat (length data) -> 0 <= count ->
  0 <= pos c -> pos c + k <= 512 * num_blocks c -> num_blocks c2 = num_blocks c ->
  pos c2 = pos c + k ->
  concat (blocks c2) = list_inserts (Z.to_nat (pos c)) (take (Z.to_nat k) data) (concat (blocks c)) ->
  has_written c2 (drop (Z.to_nat k) data) (count + k) c' r -> has_written c data count c' r.
Proof.
  intros Hk Hcount Hp0 Hroom Hn2 Hp2 Hb2 [Hbad|(Hc' & Hn' & Hcase)]; [by left|right].
  split; [done|]. split; [by rewrite Hn'|].
  destruct Hcase as [(_ & Hc0 & _)|(k' & -> & Hk' & Hin & Hb' & Hpos & Hfull)]; [lia|]. right.
  rewrite length_drop in Hk', Hfull. rewrite Hn2, Hp2 in *.
  exists (k + k'). rewrite Z.add_assoc. split; [done|]. split; [lia|]. split; [lia|].
  split; [|split; [lia|intros Hws; specialize (Hfull Hws); lia]].
  rewrite Hb', Hb2, !Z2Nat.inj_add by lia. rewrite <- take_append, list_inserts_append, length_take.
  do 2 f_equal. lia.
Qed.

Lemma offset_mod p : as_u 32 p mod BLOCK_SIZE = p mod 512.
Proof.
  unfold as_u, BLOCK_SIZE. change (2 ^ 32) with (512 * 2 ^ 23).
  by rewrite Z.rem_mul_r, Z.mul_comm, Z_mod_plus_full, Z.mod_mod by lia.
Qed.

Lemma write_loop_spec fuel : forall data count c, card_ok c -> (length data <= fuel)%nat -> 0 <= count ->
  exists c' r, write_loop fuel data count c = (c', r) /\ has_written c data count c' r.
Proof.
  induction fuel as [|fuel IH]; intros data count c Hc Hlen Hcount; cbn [write_loop].
  { destruct data; [|cbn in Hlen; lia]. eexists c, _. split; [done|]. apply write_nothing; [done|by left]. }
  case_bool_decide as Hz.
  { eexists c, _. split; [done|]. apply write_nothing; [done|by left]. }
  assert (Hne : 0 < Z.of_nat (length data)) by (destruct data; [done|cbn; lia]).
  pose proof (current_block_spec c Hc) as Hcur. rewrite (abs_size c Hc) in Hcur.
  destruct (current_block c) as [n|].
  2:{ eexists c, _. split; [done|]. apply write_nothing; [done|by right]. }
  destruct Hcur as [-> Hn].
  destruct (read_block_same _ c Hc Hn) as (c1 & r & Hr & [[-> Hbad]|[Hsame Hcase]]); rewrite Hr.
  { eexists c1, _. split; [done|]. by left. }
  pose proof Hsame as (Hc1 & Hb1 & Hp1 & Hn1). destruct Hcase as [[-> Hidx]|[-> Hfail]].
  2:{ eexists c1, _. split; [done|]. destruct (count =? 0) eqn:H0; b2p; [|by apply write_nothing].
      right. do 2 (split; [done|]). by left. }
  rewrite <- Hp1 in Hidx, Hn. pose proof (ok_pos _ Hc1). pose proof (ok_small _ Hc1).
  rewrite offset_mod. unfold BLOCK_SIZE. set (k := Z.min (Z.of_nat (length data)) (512 - pos c1 mod 512)).
  pose proof (Z.mod_pos_bound (pos c1) 512 ltac:(lia)).
  destruct (block_room c1 k Hc1) as [Hroom Hoff]; [by rewrite Hn1|lia|].
  destruct (write_cached c1 (Z.to_nat (pos c1 mod 512)) (take (Z.to_nat k) data) Hc1) as [Hc2 Hb2];
    [rewrite length_take; lia|].
  cbv zeta in Hc2, Hb2. set (c2 := {| pos := _ |}) in *.
  change (pos c2) with (pos c1). rewrite add64_in by lia.
  destruct (IH (drop (Z.to_nat k) data) (count + k) (set_pos c2 (pos c1 + k))) as (c' & r & -> & Hw);
    [apply set_pos_ok; [done|lia]|rewrite length_drop; lia|lia|].
  eexists c', r. split; [done|]. apply (has_written_more c) in Hw; try done; cbn; try lia.
  change (blocks (set_pos c2 _)) with (blocks c2). rewrite Hb2, Hb1. f_equal.
  pose proof (Z.div_mod (pos c1) 512). pose proof (Z.div_pos (pos c1) 512). lia.
Qed.

Lemma card_i64_small x : 0 <= x < 2 ^ 63 -> as_i64 x = x.
Proof. intros Hx. unfold as_i64. rewrite Z.mod_small; lia. Qed.

Lemma add_i64_target a b p : 0 <= a < 2 ^ 41 -> - 2 ^ 63 <= b < 2 ^ 63 -> p < 2 ^ 41 ->
  (q ← add_i64 (E := unit) a b; Ok (as_u 64 q)) = Ok p -> 0 <= p /\ p = a + b.
Proof.
  intros Ha Hb Hp Hq. inv_ok Hq. unfold as_u in *. unfold add_i64 in Hx.
  destruct (_ && _) eqn:Hr; b2p.
  - injection Hx as <-. destruct (decide (0 <= a + b)); [rewrite Z.mod_small in *; lia|].
    rewrite <- (Z.mod_unique (a + b) (2 ^ 64) (-1) (a + b + 2 ^ 64)) in Hp; lia.
  - destruct overflow_checks; [done|]. injection Hx as <-. exfalso.
    assert (Hw : as_i64 (a + b) = a + b - 2 ^ 64).
    { unfold as_i64. rewrite <- (Z.mod_unique (a + b + 2 ^ 63) (2 ^ 64) 1 (a + b - 2 ^ 63)); lia. }
    rewrite Hw in Hp.
    rewrite <- (Z.mod_unique (a + b - 2 ^ 64) (2 ^ 64) (-1) (a + b)) in Hp; lia.
Qed.

Lemma seek_spec c from c' r : card_ok c -> seek from c = (c', r) ->
  sane_seek (num_blocks c) (Seek from, p ← r; Ok (At p)) ->
  exists p, r = Ok p /\ c' = set_pos c p /\ 0 <= p < 2 ^ 41 /\ p = seek_target (abs c) from.
Proof.
  intros Hc Hs Hsane. unfold seek in Hs. pose proof (ok_pos _ Hc) as Hpos.
  destruct from as [p|q|q]; cbn in *.
  - injection Hs as <- <-. by exists p.
  - destruct (wrapping 32 _ ≫= _) as [p|e|] eqn:Hp; injection Hs as <- <-; [|done..].
    destruct Hsane as (Hq & Hn & Hlt). pose proof (ok_index _ Hc).
    rewrite wrapping_in in Hp by (unfold BLOCK_SIZE in *; lia). cbn in Hp.
    apply add_i64_target in Hp as [Hp0 Hp]; [|unfold BLOCK_SIZE in *; lia|done..].
    exists p. rewrite (abs_size c Hc). unfold BLOCK_SIZE in *. repeat split; lia.
  - destruct (add_i64 _ q ≫= _) as [p|e|] eqn:Hp; injection Hs as <- <-; [|done..].
    destruct Hsane as (Hq & Hlt). rewrite card_i64_small in Hp by lia.
    apply add_i64_target in Hp as [Hp0 Hp]; [|done..]. by exists p.
Qed.

Lemma serve_spec c req c' rep : card_ok c -> serve req c = (c', rep) ->
  sane_seek (num_blocks c) (req, rep) -> failed (sdio c') = false ->
  card_ok c' /\ num_blocks c' = num_blocks c /\ flat_serves (abs c) req rep (abs c')
  /\ (writes_succeed -> served_fully (abs c) req rep).
Proof.
  intros Hc Hs Hsane Hgood. unfold serve, mbind, C_bind in Hs. unfold served_fully.
  rewrite (abs_size c Hc).
  destruct req as [len|data|from|].
  - destruct (read_loop_spec len (Z.of_nat len) [] c Hc) as (c1 & r & Hr & Hread); [lia|].
    unfold read in Hs. rewrite Hr in Hs. unfold abs.
    assert (c' = c1) as -> by (destruct r as [|[]|]; by injection Hs).
    destruct Hread as [Hbad|(Hc1 & Hb & Hn & Hcase)]; [congruence|].
    destruct Hcase as [(-> & _ & Hp & Hf)|(more & -> & Hm & Hl & Hp & Hfull)]; injection Hs as <-;
      rewrite Hb; cbn; rewrite Hp; [done|].
    split; [done|]. split; [done|]. split; [by split; [|split; [lia|]]|done].
  - destruct (write_loop_spec (length data) data 0 c Hc) as (c1 & r & Hr & Hwrite); [done..|].
    unfold write in Hs. rewrite Hr in Hs. unfold abs.
    assert (c' = c1) as -> by (destruct r as [|[]|]; by injection Hs).
    destruct Hwrite as [Hbad|(Hc1 & Hn & Hcase)]; [congruence|].
    destruct Hcase as [(-> & _ & Hb & Hp & Hf)|(k & -> & Hk & Hin & Hb & Hp & Hfull)]; injection Hs as <-;
      cbn; rewrite Hp, Hb; [done|].
    split; [done|]. split; [done|]. split; [|done]. split; [done|]. split; [|done].
    change (f_size {| f_bytes := _; f_pos := _ |}) with (f_size (abs c)). by rewrite (abs_size c Hc).
  - destruct (seek from c) as [c1 r] eqn:Hk.
    destruct (seek_spec c from c1 r Hc Hk) as (p & -> & -> & Hp & Ht).
    { destruct r as [p|e|]; injection Hs as <- <-; exact Hsane. }
    injection Hs as <- <-. split; [by apply set_pos_ok|]. by split.
  - destruct (write_block_same c Hc) as (c1 & r & Hw & (Hc1 & Hb & Hp & Hn) & _ & Hcase).
    unfold flush in Hs. rewrite Hw in Hs. unfold abs. rewrite <- Hb, <- Hp.
    destruct Hcase as [[-> _]|[-> Hf]]; injection Hs as <- <-; by split.
Qed.

(** A read that failed is not forgotten. *)
Notation remembers m := (forall c, failed (sdio c) = true -> failed (sdio (m c).1) = true).

Lemma write_block_remembers : remembers write_block.
Proof.
  intros c Hb. unfold write_block. destruct (is_dirty c); [|done].
  pose proof (law_write_after (buf_block_index c) (buf c) _ Hb) as Hw.
  by destruct (sd_write_block _ _ _) as [s ok].
Qed.

Lemma read_block_remembers n : remembers (read_block n).
Proof.
  intros c Hb. unfold read_block. destruct (n =? _); [done|]. unfold mbind, C_bind.
  pose proof (write_block_remembers c Hb) as Hw. destruct (write_block c) as [c1 [u|e|]]; [|done..].
  unfold do_read_block. pose proof (law_read_after n (buf c1) _ Hw) as Hr.
  by destruct (sd_read_block _ _ _) as [[s b] ok].
Qed.

Lemma read_loop_remembers fuel : forall len got, remembers (read_loop fuel len got).
Proof.
  induction fuel as [|fuel IH]; intros len got c Hb; cbn [read_loop]; [done|].
  destruct (len =? 0); [done|]. destruct (current_block c) as [n|]; [|done].
  pose proof (read_block_remembers n c Hb) as Hr. destruct (read_block n c) as [c1 [u|e|]]; [|done..].
  destruct (add64 _ _) as [p|e|]; [|done..]. by apply IH.
Qed.

Lemma write_loop_remembers fuel : forall data count, remembers (write_loop fuel data count).
Proof.
  induction fuel as [|fuel IH]; intros data count c Hb; cbn [write_loop]; [done|].
  destruct (bool_decide _); [done|]. destruct (current_block c) as [n|]; [|done].
  pose proof (read_block_remembers n c Hb) as Hr. destruct (read_block n c) as [c1 [u|e|]]; [|done..].
  cbv zeta. destruct (add64 _ _) as [p|e|]; [|done..]. by apply IH.
Qed.

Lemma serve_remembers req : remembers (serve req).
Proof.
  intros c Hb. unfold serve, mbind, C_bind. destruct req as [len|data|from|].
  - pose proof (read_loop_remembers len (Z.of_nat len) [] c Hb) as Hr. unfold read.
    by destruct (read_loop _ _ _ c) as [c1 [| |]].
  - pose proof (write_loop_remembers (length data) data 0 c Hb) as Hr. unfold write.
    by destruct (write_loop _ _ _ c) as [c1 [| |]].
  - unfold seek. by destruct (seek_pos from c).
  - pose proof (write_block_remembers c Hb) as Hr. unfold flush.
    by destruct (write_block c) as [c1 [| |]].
Qed.

Lemma serve_all_remembers reqs : remembers (serve_all reqs).
Proof.
  induction reqs as [|req reqs IH]; intros c Hb; [done|]. cbn.
  pose proof (serve_remembers req c Hb) as Hs. destruct (serve req c) as [c1 rep].
  specialize (IH c1 Hs). by destruct (serve_all reqs c1).
Qed.

Lemma serve_all_spec reqs : forall c c' reps, card_ok c -> serve_all reqs c = (c', reps) ->
  Forall (sane_seek (num_blocks c)) reps -> failed (sdio c') = false ->
  card_ok c' /\ num_blocks c' = num_blocks c /\ flat_run writes_succeed (abs c) reps (abs c').
Proof.
  induction reqs as [|req reqs IH]; intros c c' reps Hc Hrun Hsane Hgood; cbn in Hrun.
  { injection Hrun as <- <-. split; [done|]. split; [done|]. constructor. }
  destruct (serve req c) as [c1 rep] eqn:Hs. destruct (serve_all reqs c1) as [c2 reps1] eqn:Hr.
  injection Hrun as <- <-. apply Forall_cons in Hsane as [H1 H2].
  assert (Hgood1 : failed (sdio c1) = false).
  { apply not_true_iff_false. intros Hb. pose proof (serve_all_remembers reqs c1 Hb) as Hb2.
    rewrite Hr in Hb2. cbn in Hb2. congruence. }
  destruct (serve_spec c req c1 rep Hc Hs H1 Hgood1) as (Hc1 & Hn & Hf & Hfull). rewrite <- Hn in H2.
  destruct (IH c1 c2 reps1 Hc1 Hr H2 Hgood) as (Hc2 & Hn2 & Hf2). rewrite Hn2, Hn.
  split; [done|]. split; [done|]. by econstructor.
Qed.

Lemma open_spec s c : disk s <> [] -> open s = Ok c ->
  card_ok c /\ abs c = {| f_bytes := concat (disk s); f_pos := 0 |}.
Proof.
  intros Hne Ho. unfold open in Ho. inv_ok Ho. apply law_count in Hx as [Hlen Hsmall].
  assert (0 < Z.of_nat (length (disk s))) by (destruct (disk s); [done|cbn; lia]).
  unfold do_read_block in Ho. cbn [buf sdio] in Ho.
  destruct (sd_read_block _ _ s) as [[s' b'] ok] eqn:Hr. destruct ok; [|done]. injection Ho as <-.
  apply law_read in Hr as [Hd Hl]; [|lia]. pose proof (law_blocks s) as Hall. rewrite Forall_lookup in Hall.
  split; [split; cbn; try lia|].
  - by rewrite Hd.
  - by apply (Hall _ _ Hl).
  - by rewrite Hd.
  - unfold abs, blocks. cbn -[list_insert]. rewrite Hd, list_insert_id by done. done.
Qed.

(** C23: the SD card is a flat array of bytes, as long as no block of it fails to
    be read.  Open a card and serve any sequence of reads, writes, seeks and
    flushes, with seeks that stay in range and during which the driver never
    fails to read a block (after that the cache may hold the wrong bytes, see
    [failed_read_stays_cached]): the replies are those of an array that starts with the bytes on the card; a block that
    cannot be written at times makes a request short or fail, and loses
    nothing; when all blocks can be written every request is served as far as
    the array goes.  After a flush that succeeds the card holds the array. *)
Theorem card_is_flat s c reqs c' reps (Hne : disk s <> []) (Hopen : open s = Ok c)
  (Hrun : serve_all reqs c = (c', reps)) (Hsane : Forall (sane_seek (num_blocks c)) reps)
  (Hreads : failed (sdio c') = false) :
  flat_run writes_succeed {| f_bytes := concat (disk s); f_pos := 0 |} reps (abs c')
  /\ forall c'', flush c' = (c'', Ok tt) -> concat (disk (sdio c'')) = f_bytes (abs c').
Proof.
  destruct (open_spec s c Hne Hopen) as [Hc <-].
  destruct (serve_all_spec reqs c c' reps Hc Hrun Hsane Hreads) as (Hc' & _ & Hf). split; [done|].
  intros c'' Hfl. unfold flush in Hfl.
  destruct (write_block_same c' Hc') as (c1 & r & Hw & (Hc1 & Hb & _) & _ & Hcase).
  rewrite Hw in Hfl. injection Hfl as <- ->. destruct Hcase as [[_ Hd]|[? _]]; [|done].
  cbn. rewrite <- Hb. unfold blocks. by rewrite (list_insert_id _ _ _ (ok_clean _ Hc1 Hd)).
Qed.
End refinement.

(** ** Where the card is not a flat array *)

Section limits.
Context `{Prof : Profile} {S : Type} `{!Sdio S}.

(** A seek from the end of a card of 4 GiB or more: the size does not fit a
    [usize].  It panics, or goes to a position before the end. *)
Lemma seek_end_large (c : Card S) : 2 ^ 32 <= num_blocks c * BLOCK_SIZE < 2 ^ 41 ->
  (seek (End_ 0) c).2
  = if overflow_checks then Panic else Ok (num_blocks c * BLOCK_SIZE - 2 ^ 32 * (num_blocks c * BLOCK_SIZE / 2 ^ 32)).
Proof.
  intros Hn. unfold seek, seek_pos, wrapping. rewrite (proj2 (Z.ltb_ge _ _)) by lia.
  rewrite andb_false_r. destruct overflow_checks; [done|]. cbn [mbind outcome_bind].
  rewrite Z.mod_eq by lia. set (r := _ - _).
  assert (Hr : 0 <= r < 2 ^ 32).
  { unfold r. rewrite <- Z.mod_eq by lia. apply Z.mod_pos_bound. lia. }
  unfold add_i64. rewrite Z.add_0_r, (proj2 (Z.leb_le _ _)), (proj2 (Z.ltb_lt _ _)) by lia. cbn.
  unfold as_u. by rewrite Z.mod_small by lia.
Qed.

(** A read of a block that fails after the driver put something into the buffer:
    the buffer still counts as the block that was cached before. *)
Lemma failed_read_stays_cached (c : Card S) n s' b :
  is_dirty c = false -> n <> buf_block_index c -> sd_read_block n (buf c) (sdio c) = (s', b, false) ->
  exists c', read_block n c = (c', Err tt) /\ buf c' = b
    /\ read_block (buf_block_index c) c' = (c', Ok tt).
Proof.
  intros Hd Hn Hr. unfold read_block. rewrite (proj2 (Z.eqb_neq _ _)) by done.
  unfold mbind, C_bind, write_block. rewrite Hd. unfold do_read_block. rewrite Hr.
  eexists. split; [done|]. split; [done|]. cbn. by rewrite Z.eqb_refl.
Qed.
End limits.

(** ** Witnesses *)

(** A card on which every second write of a block fails, and the reads of the
    blocks it does not have. *)
Record ExampleSd := { ex_blocks : list bytes; ex_bad : bool; ex_failed : bool }.

#[local] Instance example_sdio : Sdio ExampleSd := {
  sd_init s := (s, true);
  sd_block_count s := if Z.of_nat (length (ex_blocks s)) <? 2 ^ 32
                      then Some (Z.of_nat (length (ex_blocks s))) else None;
  sd_read_block n b s :=
    match ex_blocks s !! Z.to_nat n with
    | Some b' => (s, take 512 (b' ++ replicate 512 0), true)
    | None => ({| ex_blocks := ex_blocks s; ex_bad := ex_bad s; ex_failed := true |}, b, false)
    end;
  sd_write_block n b s :=
    ({| ex_blocks := if ex_bad s then ex_blocks s else <[Z.to_nat n := b]> (ex_blocks s);
        ex_bad := negb (ex_bad s); ex_failed := ex_failed s |}, negb (ex_bad s))
}.

(** The blocks, each of the right size. *)
Definition example_disk (s : ExampleSd) : list bytes :=
  (fun b => take 512 (b ++ replicate 512 0)) <$> ex_blocks s.

#[local] Instance example_sdio_laws : SdioLaws example_disk ex_failed.
Proof.
  assert (Hpad : forall b : bytes, length (take 512 (b ++ replicate 512 0)) = 512%nat).
  { intros b. rewrite length_take, length_app, length_replicate. lia. }
  split; unfold example_disk.
  - intros s n. cbn. rewrite length_fmap. destruct (_ <? _) eqn:Hn; [|done]. intros [= <-]. b2p. done.
  - intros s. apply Forall_fmap, Forall_true. intros b. apply Hpad.
  - intros n b s s' b' ok Hn Hr. cbn in Hr. rewrite list_lookup_fmap.
    destruct (ex_blocks s !! Z.to_nat n) as [b0|] eqn:Hb; by injection Hr as <- <- <-.
  - intros n b s Hf. cbn. by destruct (ex_blocks s !! Z.to_nat n).
  - done.
  - intros n b s s' ok Hn Hb [= <- <-]. rewrite length_fmap in Hn. cbn. destruct (ex_bad s); cbn.
    + destruct (lookup_lt_is_Some_2 (ex_blocks s) (Z.to_nat n)) as [b' Hb']; [lia|].
      exists (take 512 (b' ++ replicate 512 0)). split; [done|]. split; [|done].
      symmetry. apply list_insert_id. by rewrite list_lookup_fmap, Hb'.
    + exists b. split; [done|]. split; [|done]. rewrite list_fmap_insert. f_equal.
      apply take_app_length'. done.
Qed.

Definition example_card : ExampleSd :=
  {| ex_blocks := [replicate 512 1; replicate 512 2; replicate 512 3]; ex_bad := true; ex_failed := false |}.

(** A write across two blocks, the cached one of which cannot be written at
    first, and a read of what was written. *)
Definition example_requests : list Request :=
  [Seek (Start 510); Write [7; 7; 8; 8]; Write [8; 8]; Seek (Current (-4)); Read 6; Read 6; Flush].

#[local] Instance example_profile : Profile := true.

Lemma card_is_flat_witness : exists c c' reps,
  open example_card = Ok c /\ serve_all example_requests c = (c', reps)
  /\ reps.*2 = [Ok (At 510); Ok (Put 2); Ok (Put 2); Ok (At 510); Err tt;
                Ok (Got [7; 7; 8; 8; 2; 2]); Ok Flushed]
  /\ flat_run (writes_succeed example_disk)
       {| f_bytes := concat (example_disk example_card); f_pos := 0 |} reps (abs example_disk c').
Proof.
  destruct (open example_card) as [c|e|] eqn:Ho; [|by vm_compute in Ho..].
  destruct (serve_all example_requests c) as [c' reps] eqn:Hr.
  assert (Hreps : reps = (serve_all example_requests c).2) by by rewrite Hr.
  assert (Hc : Ok c = open example_card) by done. vm_compute in Hc. injection Hc as Hc.
  assert (Hv : reps = zip example_requests [Ok (At 510); Ok (Put 2); Ok (Put 2); Ok (At 510); Err tt;
    Ok (Got [7; 7; 8; 8; 2; 2]); Ok Flushed]) by (rewrite Hreps, Hc; by vm_compute).
  exists c, c', reps. split; [done|]. split; [done|]. split; [by rewrite Hv|].
  apply (card_is_flat example_disk ex_failed example_card c example_requests c' reps);
    [done|done|done| |].
  - rewrite Hv. repeat constructor; cbn; lia.
  - assert (Hc' : c' = (serve_all example_requests c).1) by by rewrite Hr.
    rewrite Hc', Hc. by vm_compute.
Defined.
