(* ===== verification/FatPersist.v ===== *)
(** * The persister of the embedded signer (vls-signer-stm32/src/fat_json_persist.rs)

    The state of one node in JSON files on a FAT file system.  A value is
    replaced by writing a new file, renaming the current file away, renaming
    the new file into its place and removing the old one.  The file system is a
    parameter (crate fatfs); paths are relative to the run directory, which
    setup.rs has opened.  The result is that the persister keeps the record
    of its node, as PersistSpec.v describes it; FatCrash.v shows what a write
    that is interrupted leaves. *)

From S2P Require Import Prelude Velocity Policy Order Extern Crypto Setup Tx Keys Allowlist Script.
From S2P Require Import Secrets Enforcement Validator NodeState Monitor Tracker Persist PersistSpec.
From S2P Require Import Client.

(** ** The file system *)

(** [fatfs::Error]. *)
Inductive FatError :=
| FatNotFound
| FatAlreadyExists
| FatOther (s : string).

(** An open file is a handle; [fs_rename] renames inside of a directory;
    [fs_dir_names] are the names that iterating over a directory gives. *)
Class FatFs (F : Type) := {
  File : Type;
  fs_create_dir : string -> F -> F * outcome FatError unit;
  fs_open_dir : string -> F -> outcome FatError unit;
  fs_dir_names : string -> F -> list (outcome FatError string);
  fs_create_file : string -> F -> F * outcome FatError File;
  fs_open_file : string -> F -> outcome FatError File;
  fs_file_size : File -> F -> nat;
  fs_read : File -> nat -> F -> outcome FatError (File * bytes);
  fs_write_all : File -> bytes -> F -> F * outcome FatError unit;
  fs_flush : File -> F -> F * outcome FatError unit;
  fs_rename : string -> string -> string -> F -> F * outcome FatError unit;
  fs_remove : string -> F -> F * outcome FatError unit
}.

(** ** Strings *)

(** [String::from_utf8_lossy]: a maximal prefix of a sequence that is not valid
    UTF-8 is replaced by U+FFFD. *)
Definition continuation (b : Z) : bool := (128 <=? b) && (b <=? 191).

Definition char_width (b : Z) : nat :=
  if b <=? 127 then 1 else if b <=? 193 then 0 else if b <=? 223 then 2
  else if b <=? 239 then 3 else if b <=? 244 then 4 else 0.

Definition second_byte (b0 b1 : Z) : bool :=
  if b0 =? 224 then (160 <=? b1) && (b1 <=? 191)
  else if b0 =? 237 then (128 <=? b1) && (b1 <=? 159)
  else if b0 =? 240 then (144 <=? b1) && (b1 <=? 191)
  else if b0 =? 244 then (128 <=? b1) && (b1 <=? 143)
  else continuation b1.

(** The bytes of the sequence at the head, and whether it is a character. *)
Definition utf8_head (b0 : Z) (r : bytes) : nat * bool :=
  let b i := nth i r 0 in
  match char_width b0 with
  | 1%nat => (1%nat, true)
  | 2%nat => if continuation (b 0%nat) then (2%nat, true) else (1%nat, false)
  | 3%nat => if second_byte b0 (b 0%nat)
             then if continuation (b 1%nat) then (3%nat, true) else (2%nat, false)
             else (1%nat, false)
  | 4%nat => if second_byte b0 (b 0%nat)
             then if continuation (b 1%nat)
                  then if continuation (b 2%nat) then (4%nat, true) else (3%nat, false)
                  else (2%nat, false)
             else (1%nat, false)
  | _ => (1%nat, false)
  end.

Fixpoint lossy (fuel : nat) (bs : bytes) : bytes :=
  match fuel, bs with
  | S fuel, b0 :: r =>
      let '(n, ok) := utf8_head b0 r in
      (if ok then take n bs else [239; 191; 189]) ++ lossy fuel (drop n bs)
  | _, _ => []
  end.

Definition from_utf8_lossy (bs : bytes) : bytes := lossy (length bs) bs.

Definition ends_with (suffix s : string) : bool :=
  (String.length suffix <=? String.length s)%nat
  && bool_decide (String.substring (String.length s - String.length suffix) (String.length suffix) s
                  = suffix).

(** ** The persister *)

Definition STATE_PATH := "STATE".
Definition node_bucket_path : string := STATE_PATH +:+ "/" +:+ "NODE".
Definition nodestate_bucket_path : string := STATE_PATH +:+ "/" +:+ "NODESTATE".
Definition channel_bucket_path : string := STATE_PATH +:+ "/" +:+ "CHANNEL".
Definition allowlist_bucket_path : string := STATE_PATH +:+ "/" +:+ "ALLOWLIST".
Definition chaintracker_bucket_path : string := STATE_PATH +:+ "/" +:+ "CHAINTRACKER".

Definition BUFSZ : nat := 128.

Definition old_file_rel (key : string) : string := key +:+ ".old".
Definition cur_file_rel (key : string) : string := key +:+ ".json".
Definition new_file_rel (key : string) : string := key +:+ ".new".
Definition file_path (bucket relkey : string) : string := bucket +:+ "/" +:+ relkey.

(** [From<fatfs::Error<()>> for Error]. *)
Definition from_fat_error (err : FatError) : PersistError :=
  match err with
  | FatNotFound => NotFound "NotFound"
  | FatAlreadyExists => AlreadyExists "AlreadyExists"
  | FatOther s => PersistInternal s
  end.

Definition serde_json_failed : PersistError := PersistInternal "serde_json failed: {:?}".

Section values.
Context {F : Type} `{!FatFs F}.
Notation FM := (CM F PersistError).

Definition fat {A} (m : CM F FatError A) : FM A := c_map_err from_fat_error m.
Definition fat_ask {A} (m : F -> outcome FatError A) : FM A := fat (fun fs => (fs, m fs)).

(** [.ok()]: an error is dropped. *)
Definition drop_error (m : FM unit) : FM unit := fun fs =>
  match m fs with
  | (fs, Panic) => (fs, Panic)
  | (fs, _) => (fs, Ok tt)
  end.

Definition write_new_file (bucket key : string) (value : bytes) : FM unit :=
  new_file ← fat (fs_create_file (file_path bucket (new_file_rel key)));
  fat (fs_write_all new_file value);;
  fat (fs_flush new_file).

Definition retire_cur_file (bucket key : string) : FM unit :=
  fat_ask (fs_open_dir bucket);;
  fat (fs_rename bucket (cur_file_rel key) (old_file_rel key)).

Definition replace_file (bucket key : string) : FM unit :=
  fat_ask (fs_open_dir bucket);;
  fat (fs_rename bucket (new_file_rel key) (cur_file_rel key)).

Definition expunge_old_file (bucket key : string) : FM unit :=
  fat (fs_remove (file_path bucket (old_file_rel key))).

Definition bucket_exists (bucket : string) (fs : F) : outcome PersistError bool :=
  match fs_open_dir bucket fs with
  | Ok _ => Ok true
  | Err FatNotFound => Ok false
  | Err e => Err (from_fat_error e)
  | Panic => Panic
  end.

Definition upsert_value (bucket key : string) (value : bytes) : FM unit :=
  write_new_file bucket key value;;
  drop_error (retire_cur_file bucket key);;
  replace_file bucket key;;
  drop_error (expunge_old_file bucket key).

Definition insert_value (bucket key : string) (value : bytes) : FM unit :=
  write_new_file bucket key value;;
  replace_file bucket key.

Definition update_value (bucket key : string) (value : bytes) : FM unit :=
  write_new_file bucket key value;;
  retire_cur_file bucket key;;
  replace_file bucket key;;
  expunge_old_file bucket key.

Definition delete_value (bucket key : string) : FM unit :=
  retire_cur_file bucket key;;
  expunge_old_file bucket key.

(** The loop of [read_value]; a turn reads at least a byte, so that one turn
    more than the size of the file is enough. *)
Fixpoint read_loop (fuel : nat) (file : File) (value : bytes) (fs : F) : outcome FatError bytes :=
  match fuel with
  | O => Ok value
  | S fuel =>
      '(file, buffer) ← fs_read file BUFSZ fs;
      if bool_decide (buffer = []) then Ok value else read_loop fuel file (value ++ buffer) fs
  end.

Definition read_value (bucket key : string) (fs : F) : outcome PersistError bytes :=
  file ← map_err from_fat_error (fs_open_file (file_path bucket (cur_file_rel key)) fs);
  value ← map_err from_fat_error (read_loop (S (fs_file_size file fs)) file [] fs);
  Ok (from_utf8_lossy value).

(** The closure of [list_keys], with the keys and the errors so far. *)
Definition list_key (ke : list string * list PersistError) (de : outcome FatError string)
  : outcome PersistError (list string * list PersistError) :=
  name ← unwrap_ok de;
  if ends_with ".json" name then
    Ok (ke.1 ++ [String.substring 0 (String.length name - 5) name], ke.2)
  else if bool_decide (name = ".") || bool_decide (name = "..") then Ok ke
  else Ok (ke.1, ke.2 ++ [PersistInternal "list keys: bad file: {}"]).

Definition list_keys (bucket : string) (fs : F) : outcome PersistError (list string) :=
  map_err from_fat_error (fs_open_dir bucket fs);;
  '(keys, errors) ← foldM list_key ([], []) (fs_dir_names bucket fs);
  match errors with
  | [] => Ok keys
  | e :: _ => Err e
  end.
End values.

Record FatJsonPersister (F : Type) := { setupfs : F; fp_node_id : PublicKey }.
Arguments setupfs {F}.
Arguments fp_node_id {F}.

Section persister.
Context `{L : Lib, CL : ChainLib, SL : SerLib, HL : HexLib, JL : JsonLib, AL : AddressLib}.
Context {F : Type} `{!FatFs F}.
Notation Self := (FatJsonPersister F).
Implicit Types self : Self.

(** A write to the file system. *)
Definition fat_write self (m : CM F PersistError unit) : Self * outcome PersistError unit :=
  ({| setupfs := (m (setupfs self)).1; fp_node_id := fp_node_id self |}, (m (setupfs self)).2).

Definition ensure_path {E} (path : string) : CM F E unit :=
  c_expect (fs_create_dir path).

(** [FatJsonPersister::new], with the run path of the file system. *)
Definition FatJsonPersister_new {E} (runpath : string) (fs : F) : outcome E Self :=
  node_id ← unwrap (pubkey_from_str runpath);
  match (ensure_path STATE_PATH;; ensure_path node_bucket_path;; ensure_path nodestate_bucket_path;;
         ensure_path channel_bucket_path;; ensure_path allowlist_bucket_path;;
         ensure_path (E := E) chaintracker_bucket_path) fs with
  | (fs, Ok _) => Ok {| setupfs := fs; fp_node_id := node_id |}
  | (_, Err e) => Err e
  | (_, Panic) => Panic
  end.

Definition fat_new_node self (_ : PublicKey) (config : NodeConfig) (state : NodeState)
  : Self * outcome PersistError unit :=
  fat_write self (
    insert_value node_bucket_path "node"
      (json_node_entry (KeyDerivationStyle_as_u8 (cfg_key_derivation_style config),
                        network_to_string (cfg_network config)));;
    upsert_value nodestate_bucket_path "nodestate" (json_node_state (NodeStateEntry_from state))).

Definition fat_update_node self (_ : PublicKey) (state : NodeState)
  : Self * outcome PersistError unit :=
  fat_write self (update_value nodestate_bucket_path "nodestate"
                    (json_node_state (NodeStateEntry_from state))).

Definition fat_new_chain_tracker self (_ : PublicKey) (tracker : NodeTracker)
  : Self * outcome PersistError unit :=
  fat_write self (upsert_value chaintracker_bucket_path "chaintracker"
                    (json_tracker (ChainTrackerEntry_from tracker))).

Definition fat_update_tracker self (_ : PublicKey) (tracker : NodeTracker)
  : Self * outcome PersistError unit :=
  fat_write self (update_value chaintracker_bucket_path "chaintracker"
                    (json_tracker (ChainTrackerEntry_from tracker))).

Definition fat_get_tracker self (_ : PublicKey) (p : Policy) : outcome PersistError NodeTracker :=
  value ← read_value chaintracker_bucket_path "chaintracker" (setupfs self);
  entry ← ok_or (json_tracker_from value) serde_json_failed;
  into_tracker entry p.

Definition fat_new_channel self (_ : PublicKey) (stub : ChannelStub) : Self * outcome PersistError unit :=
  fat_write self (insert_value channel_bucket_path (hex_encode (stub_id0 stub))
                    (json_channel (stub_entry stub))).

Definition fat_delete_channel self (_ : PublicKey) (channel_id : ChannelId)
  : Self * outcome PersistError unit :=
  fat_write self (delete_value channel_bucket_path (hex_encode channel_id)).

Definition fat_update_channel self (_ : PublicKey) (channel : Channel) : Self * outcome PersistError unit :=
  fat_write self (update_value channel_bucket_path (hex_encode (id0 channel))
                    (json_channel (channel_entry channel))).

Definition fat_get_node_channels self (_ : PublicKey)
  : outcome PersistError (list (ChannelId * ChannelEntry)) :=
  keys ← list_keys channel_bucket_path (setupfs self);
  foldM (fun res key =>
    match hex_decode key with
    | Some bytes =>
        value ← read_value channel_bucket_path key (setupfs self);
        entry ← ok_or (json_channel_from value) serde_json_failed;
        Ok (res ++ [(bytes, entry)])
    | None => Err (PersistInternal "{}")
    end) [] keys.

Definition fat_update_node_allowlist self (_ : PublicKey) (allowlist : list string)
  : Self * outcome PersistError unit :=
  fat_write self (upsert_value allowlist_bucket_path "allowlist" (json_allowlist allowlist)).

Definition fat_get_node_allowlist self (_ : PublicKey) : outcome PersistError (list string) :=
  value ← read_value allowlist_bucket_path "allowlist" (setupfs self);
  ok_or (json_allowlist_from value) serde_json_failed.

Definition fat_get_nodes self : outcome PersistError (list (PublicKey * NodeEntry)) :=
  match read_value node_bucket_path "node" (setupfs self) with
  | Ok nodevalue =>
      e ← ok_or (json_node_entry_from nodevalue) serde_json_failed;
      value ← read_value nodestate_bucket_path "nodestate" (setupfs self);
      state_e ← ok_or (json_node_state_from value) serde_json_failed;
      state ← NodeState_restore (nse_invoices state_e) (nse_issued_invoices state_e)
                (nse_preimages state_e) 0 (nse_velocity_control state_e)
                (nse_fee_velocity_control state_e);
      Ok [(fp_node_id self, {| ne_key_derivation_style := e.1; ne_network := e.2; ne_state := state |})]
  | Err _ => Ok []
  | Panic => Panic
  end.

(** The trait; the operations that are [unimplemented!] panic. *)
#[global] Instance fat_persist : Persist Self := {
  persist_new_node := fat_new_node;
  persist_update_node := fat_update_node;
  persist_delete_node self _ := (self, Panic);
  persist_new_channel := fat_new_channel;
  persist_delete_channel := fat_delete_channel;
  persist_new_chain_tracker := fat_new_chain_tracker;
  persist_update_tracker := fat_update_tracker;
  persist_get_tracker := fat_get_tracker;
  persist_update_channel := fat_update_channel;
  persist_get_channel _ _ _ := Panic;
  persist_get_node_channels := fat_get_node_channels;
  persist_update_node_allowlist := fat_update_node_allowlist;
  persist_get_node_allowlist := fat_get_node_allowlist;
  persist_get_nodes := fat_get_nodes;
  persist_clear_database self := (self, Panic);
  persist_on_initial_restore self := (self, false);
  persist_recovery_required self :=
    match bucket_exists node_bucket_path (setupfs self) with Ok b => b | _ => true end
}.
End persister.

(** ** What is relied on *)

(** Keys of lower case letters and digits, which FAT keeps apart when they get
    the extensions of the persister. *)
Definition key_char (c : Ascii.ascii) : bool :=
  let n := Ascii.nat_of_ascii c in
  ((97 <=? n) && (n <=? 122) || (48 <=? n) && (n <=? 57))%nat.
Definition plain_key (key : string) : bool :=
  forallb key_char (String.list_ascii_of_string key)
  && (1 <=? String.length key)%nat && (String.length key <=? 250)%nat.

Definition plain_name (n : string) : Prop :=
  exists key ext, plain_key key = true /\ ext ∈ [".json"; ".old"; ".new"] /\ n = key +:+ ext.

(** Only the directory [b] changed, and has the files [m] now. *)
Definition same_but {F} (dirs : F -> gset string) (files : F -> string -> gmap string bytes)
  (b : string) (fs fs' : F) (m : gmap string bytes) : Prop :=
  dirs fs' = dirs fs /\ files fs' b = m /\ forall o, o ∈ dirs fs -> o <> b -> files fs' o = files fs o.

(** A file system without I/O errors, and with room for what is written, as the
    fatfs crate documents it: [dirs] are the directories by their paths and
    [files] the files of each, by names in lower case; [handle] is the file
    that is open, and the position in it.  [create_file] opens a file that
    exists and never truncates it; [rename] does not replace a file. *)
Class FatLaws {F : Type} `{!FatFs F} (dirs : F -> gset string)
  (files : F -> string -> gmap string bytes) (handle : File (F := F) -> string * string * nat) : Prop := {
  law_create_dir fs p : (forall d n, p = file_path d n -> d ∈ dirs fs) ->
    exists fs', fs_create_dir p fs = (fs', Ok tt) /\ dirs fs' = {[p]} ∪ dirs fs
      /\ forall o, files fs' o = if decide (o = p /\ p ∉ dirs fs) then ∅ else files fs o;
  law_open_dir fs b : b ∈ dirs fs -> fs_open_dir b fs = Ok tt;
  law_dir_names fs b : b ∈ dirs fs -> exists names, fs_dir_names b fs = Ok <$> names
    /\ names ≡ₚ "." :: ".." :: (map_to_list (files fs b)).*1;
  law_create_file fs b n : b ∈ dirs fs -> plain_name n ->
    exists fs' f, fs_create_file (file_path b n) fs = (fs', Ok f) /\ handle f = (b, n, 0%nat)
      /\ same_but dirs files b fs fs' (<[n := default [] (files fs b !! n)]> (files fs b));
  law_open_file fs b n : b ∈ dirs fs -> plain_name n ->
    match files fs b !! n with
    | Some x => exists f, fs_open_file (file_path b n) fs = Ok f /\ handle f = (b, n, 0%nat)
                  /\ fs_file_size f fs = length x
    | None => fs_open_file (file_path b n) fs = Err FatNotFound
    end;
  law_fs_read fs f b n p x k : handle f = (b, n, p) -> files fs b !! n = Some x -> (0 < k)%nat ->
    exists f' got, fs_read f k fs = Ok (f', got) /\ handle f' = (b, n, p + length got)%nat
      /\ got = take (length got) (drop p x) /\ (length got <= k)%nat /\ (got = [] -> drop p x = []);
  law_write_all fs f b n x v : handle f = (b, n, 0%nat) -> b ∈ dirs fs -> files fs b !! n = Some x ->
    exists fs', fs_write_all f v fs = (fs', Ok tt)
      /\ same_but dirs files b fs fs' (<[n := v ++ drop (length v) x]> (files fs b));
  law_flush fs f b n p : handle f = (b, n, p) -> b ∈ dirs fs ->
    exists fs', fs_flush f fs = (fs', Ok tt) /\ same_but dirs files b fs fs' (files fs b);
  law_rename fs b n1 n2 : b ∈ dirs fs -> plain_name n1 -> plain_name n2 -> n1 <> n2 ->
    exists fs' r m, fs_rename b n1 n2 fs = (fs', r) /\ same_but dirs files b fs fs' m
      /\ match files fs b !! n1, files fs b !! n2 with
         | None, _ => r = Err FatNotFound /\ m = files fs b
         | Some _, Some _ => r = Err FatAlreadyExists /\ m = files fs b
         | Some x, None => r = Ok tt /\ m = <[n2 := x]> (delete n1 (files fs b))
         end;
  law_remove fs b n : b ∈ dirs fs -> plain_name n ->
    exists fs' r m, fs_remove (file_path b n) fs = (fs', r) /\ same_but dirs files b fs fs' m
      /\ match files fs b !! n with
         | None => r = Err FatNotFound /\ m = files fs b
         | Some _ => r = Ok tt /\ m = delete n (files fs b)
         end
}.

(** JSON texts are UTF-8, and are read back; the state of a block that is being
    streamed is not serialized. *)
Definition is_utf8 (b : bytes) : Prop := from_utf8_lossy b = b.

Class JsonLaws `{JsonLib} : Prop := {
  law_json_node_entry e : is_utf8 (json_node_entry e) /\ json_node_entry_from (json_node_entry e) = Some e;
  law_json_node_state e : is_utf8 (json_node_state e) /\ json_node_state_from (json_node_state e) = Some e;
  law_json_channel e : is_utf8 (json_channel e) /\ json_channel_from (json_channel e) = Some e;
  law_json_allowlist e : is_utf8 (json_allowlist e) /\ json_allowlist_from (json_allowlist e) = Some e;
  law_json_tracker e : is_utf8 (json_tracker e) /\ json_tracker_from (json_tracker e) = Some (serde_skip e)
    /\ json_tracker (serde_skip e) = json_tracker e
}.

(** Ids of channels whose hexadecimal form is the name of a file. *)
Definition good_id (id : ChannelId) : Prop :=
  Forall ByteUtils.is_byte id /\ (1 <= length id <= 125)%nat.

Class HexNames `{HexLib} : Prop :=
  law_hex_plain id : good_id id -> plain_key (hex_encode id) = true.

(** ** Names of files *)

Lemma substring_skip (a b : string) n : String.substring (String.length a) n (a +:+ b) = String.substring 0 n b.
Proof.
  induction a as [|c a IH]; [done|]. change (String c a +:+ b) with (String c (a +:+ b)). exact IH.
Qed.

Lemma substring_all (a : string) : String.substring 0 (String.length a) a = a.
Proof. induction a as [|c a IH]; [done|]. cbn in *. by rewrite IH. Qed.

Lemma substring_front (a b : string) : String.substring 0 (String.length a) (a +:+ b) = a.
Proof.
  induction a as [|c a IH]; [by destruct b|]. change (String c a +:+ b) with (String c (a +:+ b)).
  cbn [String.length String.substring]. by rewrite IH.
Qed.

Lemma cur_is_json key : ends_with ".json" (cur_file_rel key) = true
  /\ String.substring 0 (String.length (cur_file_rel key) - 5) (cur_file_rel key) = key.
Proof.
  unfold ends_with, cur_file_rel. rewrite length_append. cbn [String.length]. split.
  - rewrite Nat.add_sub, substring_skip, (proj2 (Nat.leb_le _ _)) by lia. done.
  - rewrite Nat.add_sub. apply substring_front.
Qed.

(** A string that ends with another one. *)
Lemma ends_with_append suffix s : ends_with suffix s = true -> exists a, s = a +:+ suffix.
Proof.
  unfold ends_with. intros [Hle Hs]%andb_true_iff. apply Nat.leb_le in Hle. apply bool_decide_eq_true in Hs.
  exists (String.substring 0 (String.length s - String.length suffix) s). rewrite <- Hs at 2.
  remember (String.length suffix) as k eqn:Hk. clear Hk Hs. 
  assert (Hg : forall s n, (n <= String.length s)%nat ->
    s = String.substring 0 n s +:+ String.substring n (String.length s - n) s).
  { clear. induction s as [|c s IH]; intros [|n] Hn; cbn in *; [done|lia| |].
    - by rewrite substring_all.
    - change (String c ?x +:+ ?y) with (String c (x +:+ y)). f_equal. apply IH. lia. }
  rewrite (Hg s (String.length s - k)%nat) at 1 by lia. do 2 f_equal. lia.
Qed.

Lemma as_bytes_last (a b : string) (u v : bytes) x y :
  as_bytes a ++ u ++ [x] = as_bytes b ++ v ++ [y] -> x = y.
Proof. rewrite !app_assoc. by intros [_ [= ->]]%app_inj_2. Qed.

Ltac other_extension H :=
  apply (f_equal as_bytes) in H; rewrite !as_bytes_append in H;
  first [apply (as_bytes_last _ _ [46; 110; 101] [46; 106; 115; 111]) in H
        |apply (as_bytes_last _ _ [46; 111; 108] [46; 106; 115; 111]) in H
        |apply (as_bytes_last _ _ [46; 106; 115; 111] [46; 110; 101]) in H
        |apply (as_bytes_last _ _ [46; 106; 115; 111] [46; 111; 108]) in H
        |apply (as_bytes_last _ _ [46; 110; 101] [46; 111; 108]) in H
        |apply (as_bytes_last _ _ [46; 111; 108] [46; 110; 101]) in H]; discriminate H.

Lemma new_not_json key : ends_with ".json" (new_file_rel key) = false.
Proof.
  destruct (ends_with _ _) eqn:He; [|done]. apply ends_with_append in He as [a Ha].
  unfold new_file_rel in Ha. other_extension Ha.
Qed.

Lemma old_not_json key : ends_with ".json" (old_file_rel key) = false.
Proof.
  destruct (ends_with _ _) eqn:He; [|done]. apply ends_with_append in He as [a Ha].
  unfold old_file_rel in Ha. other_extension Ha.
Qed.

Lemma names_distinct key key' : cur_file_rel key <> old_file_rel key' /\ cur_file_rel key <> new_file_rel key'
  /\ old_file_rel key <> new_file_rel key'.
Proof.
  unfold cur_file_rel, old_file_rel, new_file_rel.
  split; [|split]; intros Heq; other_extension Heq.
Qed.

Lemma cur_inj key key' : cur_file_rel key = cur_file_rel key' -> key = key'.
Proof. apply append_inj_r. Qed.

Section plain.
Context (key : string) (Hkey : plain_key key = true).
Lemma plain_cur : plain_name (cur_file_rel key).
Proof. exists key, ".json". split; [done|]. split; [set_solver|done]. Qed.
Lemma plain_old : plain_name (old_file_rel key).
Proof. exists key, ".old". split; [done|]. split; [set_solver|done]. Qed.
Lemma plain_new : plain_name (new_file_rel key).
Proof. exists key, ".new". split; [done|]. split; [set_solver|done]. Qed.
End plain.
#[local] Hint Resolve plain_cur plain_old plain_new : vls.

(** Names of the directories and the temporary files are no dots. *)
Lemma plain_not_dot n : plain_name n -> n <> "." /\ n <> "..".
Proof.
  intros (key & ext & Hk & Hext & ->). unfold plain_key in Hk.
  apply andb_true_iff in Hk as [[_ Hl]%andb_true_iff _]. apply Nat.leb_le in Hl.
  assert (4 <= String.length ext)%nat by (repeat (apply elem_of_cons in Hext as [->|Hext]; [cbn; lia|]); by apply elem_of_nil in Hext).
  split; intros Heq%(f_equal String.length); rewrite length_append in Heq; cbn in Heq; lia.
Qed.

(** ** Values of a bucket *)

Lemma C_bind_run {X E R R'} (m : CM X E R) (f : R -> CM X E R') s s' a :
  m s = (s', Ok a) -> (m ≫= f) s = f a s'.
Proof. unfold mbind, C_bind. by intros ->. Qed.

Lemma C_bind_fails {X E R R'} (m : CM X E R) (f : R -> CM X E R') s s' e :
  m s = (s', Err e) -> (m ≫= f) s = (s', Err e).
Proof. unfold mbind, C_bind. by intros ->. Qed.

Section steps.
Context {F : Type} `{!FatFs F}.

Lemma fat_Ok {A} (m : CM F FatError A) fs fs' a : m fs = (fs', Ok a) -> fat m fs = (fs', Ok a).
Proof. unfold fat, c_map_err. by intros ->. Qed.
Lemma fat_Err {A} (m : CM F FatError A) fs fs' e : m fs = (fs', Err e) -> fat m fs = (fs', Err (from_fat_error e)).
Proof. unfold fat, c_map_err. by intros ->. Qed.
Lemma fat_ask_Ok {A} (m : F -> outcome FatError A) fs a : m fs = Ok a -> fat_ask m fs = (fs, Ok a).
Proof. unfold fat_ask. intros Hm. apply fat_Ok. by rewrite Hm. Qed.
Lemma drop_error_any (m : CM F PersistError unit) fs fs' r :
  m fs = (fs', r) -> r <> Panic -> drop_error m fs = (fs', Ok tt).
Proof. unfold drop_error. intros -> Hr. by destruct r. Qed.
End steps.

Ltac files_eq :=
  let k := fresh "k" in apply map_eq; intros k;
  repeat first [rewrite lookup_insert|rewrite lookup_delete]; repeat case_decide; congruence.

Section bucket.
Context {F : Type} `{!FatFs F} (dirs : F -> gset string) (files : F -> string -> gmap string bytes)
  (handle : File (F := F) -> string * string * nat) `{!FatLaws dirs files handle}.
Notation same := (same_but dirs files).
Context (b key : string) (Hkey : plain_key key = true).
Notation cur := (cur_file_rel key).
Notation old := (old_file_rel key).
Notation new := (new_file_rel key).
Implicit Types fs : F.

Lemma same_trans fs fs1 fs2 m1 m2 : same b fs fs1 m1 -> same b fs1 fs2 m2 -> same b fs fs2 m2.
Proof.
  intros (Hd1 & _ & Ho1) (Hd2 & Hm2 & Ho2). split; [congruence|]. split; [done|].
  intros o Ho Hne. rewrite Ho2; [by apply Ho1|by rewrite Hd1|done].
Qed.

Lemma same_dir fs fs' m : same b fs fs' m -> b ∈ dirs fs -> b ∈ dirs fs'.
Proof. by intros [-> _]. Qed.

(** What a value is followed by when it is written over a longer file. *)
Definition over (v stale : bytes) : bytes := v ++ drop (length v) stale.

Lemma over_nil v : over v [] = v.
Proof. unfold over. by rewrite drop_nil, app_nil_r. Qed.

Lemma write_new_path fs v : b ∈ dirs fs -> let stale := default [] (files fs b !! new) in
  exists f fs1 fs2 fs3, fs_create_file (file_path b new) fs = (fs1, Ok f)
    /\ fs_write_all f v fs1 = (fs2, Ok tt) /\ fs_flush f fs2 = (fs3, Ok tt)
    /\ same b fs fs1 (<[new := stale]> (files fs b))
    /\ same b fs fs2 (<[new := over v stale]> (files fs b))
    /\ same b fs fs3 (<[new := over v stale]> (files fs b)).
Proof.
  intros Hb stale. destruct (law_create_file fs b new Hb) as (fs1 & f & H1 & Hf & Hs1); [auto with vls|].
  pose proof Hs1 as (_ & Hm1 & _).
  destruct (law_write_all fs1 f b new stale v Hf) as (fs2 & H2 & Hs2);
    [by eapply same_dir|by rewrite Hm1, lookup_insert_eq|].
  destruct (law_flush fs2 f b new 0 Hf) as (fs3 & H3 & Hs3); [by do 2 (eapply same_dir; [done|])|].
  rewrite Hm1, insert_insert_eq in Hs2. pose proof Hs2 as (_ & Hm2 & _). rewrite Hm2 in Hs3.
  exists f, fs1, fs2, fs3. repeat (split; [done|]).
  split; [by eapply same_trans|]. eapply same_trans; [by eapply same_trans|done].
Qed.

Lemma write_new_ok fs v : b ∈ dirs fs -> exists fs', write_new_file b key v fs = (fs', Ok tt)
  /\ same b fs fs' (<[new := over v (default [] (files fs b !! new))]> (files fs b)).
Proof.
  intros Hb. destruct (write_new_path fs v Hb) as (f & fs1 & fs2 & fs3 & H1 & H2 & H3 & _ & _ & Hs).
  exists fs3. split; [|done]. unfold write_new_file.
  erewrite C_bind_run by (apply fat_Ok; exact H1). erewrite C_bind_run by (apply fat_Ok; exact H2).
  by apply fat_Ok.
Qed.

(** Renaming after the directory was opened, as the persister does it. *)
Lemma rename_run fs n1 n2 : b ∈ dirs fs -> plain_name n1 -> plain_name n2 -> n1 <> n2 ->
  exists fs' r m, (fat_ask (fs_open_dir b);; fat (fs_rename b n1 n2)) fs = (fs', r) /\ same b fs fs' m
    /\ match files fs b !! n1, files fs b !! n2 with
       | None, _ => r = Err (NotFound "NotFound") /\ m = files fs b
       | Some _, Some _ => r = Err (AlreadyExists "AlreadyExists") /\ m = files fs b
       | Some x, None => fs_rename b n1 n2 fs = (fs', Ok tt) /\ r = Ok tt
                         /\ m = <[n2 := x]> (delete n1 (files fs b))
       end.
Proof.
  intros Hb H1 H2 Hne. destruct (law_rename fs b n1 n2 Hb H1 H2 Hne) as (fs' & r & m & Hr & Hs & Hcase).
  erewrite C_bind_run by (apply fat_ask_Ok; by apply law_open_dir).
  destruct (files fs b !! n1) as [x|], (files fs b !! n2) as [y|]; destruct Hcase as [-> ->];
    eexists fs', _, _; (split; [first [by apply fat_Ok|by apply fat_Err]|]); (split; [exact Hs|]); done.
Qed.

(** The file under a key after a successful update: the steps, and the files
    after each of them. *)
Lemma update_path fs v x : b ∈ dirs fs -> files fs b !! cur = Some x -> files fs b !! old = None ->
  let w := over v (default [] (files fs b !! new)) in let m := files fs b in
  exists fs3 fs4 fs5 fs6, write_new_file b key v fs = (fs3, Ok tt)
    /\ fs_rename b cur old fs3 = (fs4, Ok tt) /\ fs_rename b new cur fs4 = (fs5, Ok tt)
    /\ fs_remove (file_path b old) fs5 = (fs6, Ok tt)
    /\ same b fs fs3 (<[new := w]> m)
    /\ same b fs fs4 (<[old := x]> (<[new := w]> (delete cur m)))
    /\ same b fs fs5 (<[old := x]> (<[cur := w]> (delete new m)))
    /\ same b fs fs6 (<[cur := w]> (delete new m)).
Proof.
  intros Hb Hcur Hold w m. subst m. destruct (names_distinct key key) as (Hco & Hcn & Hon).
  destruct (write_new_ok fs v Hb) as (fs3 & H3 & Hs3). fold w in Hs3.
  pose proof Hs3 as (_ & Hm3 & _).
  destruct (law_rename fs3 b cur old) as (fs4 & r4 & m4 & H4 & Hs4 & Hc4);
    [by eapply same_dir|auto with vls|auto with vls|done|].
  rewrite Hm3, !lookup_insert_ne in Hc4 by done. rewrite Hcur, Hold in Hc4. destruct Hc4 as [-> ->].
  pose proof (same_trans _ _ _ _ _ Hs3 Hs4) as Hs34. pose proof Hs34 as (_ & Hm4 & _).
  destruct (law_rename fs4 b new cur) as (fs5 & r5 & m5 & H5 & Hs5 & Hc5);
    [by eapply same_dir|auto with vls|auto with vls|done|].
  rewrite Hm4, lookup_insert_ne, lookup_delete_ne, lookup_insert_eq, lookup_insert_ne, lookup_delete_eq in Hc5 by done.
  destruct Hc5 as [-> ->]. pose proof (same_trans _ _ _ _ _ Hs34 Hs5) as Hs45. pose proof Hs45 as (_ & Hm5 & _).
  destruct (law_remove fs5 b old) as (fs6 & r6 & m6 & H6 & Hs6 & Hc6); [by eapply same_dir|auto with vls|].
  rewrite Hm5, lookup_insert_ne, lookup_delete_ne, lookup_insert_eq in Hc6 by done. destruct Hc6 as [-> ->].
  pose proof (same_trans _ _ _ _ _ Hs45 Hs6) as Hs56.
  exists fs3, fs4, fs5, fs6. repeat (split; [done|]).
  split; [|split]; (eapply (eq_ind _ (same b fs _)); [eassumption|]); files_eq.
Qed.

(** A bucket without files of an interrupted write. *)
Definition tidy fs : Prop := files fs b !! old = None /\ files fs b !! new = None.

(** An update writes over a new file that is left from an interrupted one,
    without truncating it. *)
Lemma update_value_over fs v x : b ∈ dirs fs -> files fs b !! cur = Some x -> files fs b !! old = None ->
  exists fs', update_value b key v fs = (fs', Ok tt)
    /\ same b fs fs' (<[cur := over v (default [] (files fs b !! new))]> (delete new (files fs b))).
Proof.
  intros Hb Hcur Hold.
  destruct (update_path fs v x Hb Hcur Hold) as (fs3 & fs4 & fs5 & fs6 & H3 & H4 & H5 & H6 & Hs3 & Hs4 & Hs5 & Hs6).
  exists fs6. split; [|done].
  unfold update_value, retire_cur_file, replace_file. rewrite (C_bind_run _ _ _ _ _ H3).
  erewrite C_bind_run.
  2:{ erewrite C_bind_run by (apply fat_ask_Ok, law_open_dir; by eapply same_dir). by apply fat_Ok. }
  erewrite C_bind_run; [by apply fat_Ok|].
  erewrite C_bind_run by (apply fat_ask_Ok, law_open_dir; by eapply same_dir). by apply fat_Ok.
Qed.

Lemma update_value_ok fs v x : b ∈ dirs fs -> tidy fs -> files fs b !! cur = Some x ->
  exists fs', update_value b key v fs = (fs', Ok tt) /\ same b fs fs' (<[cur := v]> (files fs b)).
Proof.
  intros Hb [Hold Hnew] Hcur. destruct (update_value_over fs v x Hb Hcur Hold) as (fs' & Hu & Hs).
  rewrite Hnew in Hs. cbn in Hs. rewrite over_nil, (delete_id _ _ Hnew) in Hs. by exists fs'.
Qed.

Lemma retire_missing fs : b ∈ dirs fs -> files fs b !! cur = None ->
  exists fs', retire_cur_file b key fs = (fs', Err (NotFound "NotFound")) /\ same b fs fs' (files fs b).
Proof.
  intros Hb Hcur. destruct (names_distinct key key) as (Hco & _ & _).
  destruct (rename_run fs cur old Hb) as (fs' & r & m & Hr & Hs & Hc); [auto with vls|auto with vls|done|].
  rewrite Hcur in Hc. destruct Hc as [-> ->]. by exists fs'.
Qed.

Lemma retire_ok fs x : b ∈ dirs fs -> files fs b !! cur = Some x -> files fs b !! old = None ->
  exists fs', retire_cur_file b key fs = (fs', Ok tt)
    /\ same b fs fs' (<[old := x]> (delete cur (files fs b))).
Proof.
  intros Hb Hcur Hold. destruct (names_distinct key key) as (Hco & _ & _).
  destruct (rename_run fs cur old Hb) as (fs' & r & m & Hr & Hs & Hc); [auto with vls|auto with vls|done|].
  rewrite Hcur, Hold in Hc. destruct Hc as (_ & -> & ->). by exists fs'.
Qed.

Lemma replace_ok fs w : b ∈ dirs fs -> files fs b !! new = Some w -> files fs b !! cur = None ->
  exists fs', replace_file b key fs = (fs', Ok tt)
    /\ same b fs fs' (<[cur := w]> (delete new (files fs b))).
Proof.
  intros Hb Hnew Hcur. destruct (names_distinct key key) as (_ & Hcn & _).
  destruct (rename_run fs new cur Hb) as (fs' & r & m & Hr & Hs & Hc); [auto with vls|auto with vls|done|].
  rewrite Hcur, Hnew in Hc. destruct Hc as (_ & -> & ->). by exists fs'.
Qed.

Lemma replace_exists fs w x : b ∈ dirs fs -> files fs b !! new = Some w -> files fs b !! cur = Some x ->
  exists fs', replace_file b key fs = (fs', Err (AlreadyExists "AlreadyExists"))
    /\ same b fs fs' (files fs b).
Proof.
  intros Hb Hnew Hcur. destruct (names_distinct key key) as (_ & Hcn & _).
  destruct (rename_run fs new cur Hb) as (fs' & r & m & Hr & Hs & Hc); [auto with vls|auto with vls|done|].
  rewrite Hcur, Hnew in Hc. destruct Hc as [-> ->]. by exists fs'.
Qed.

Lemma expunge_run fs : b ∈ dirs fs -> exists fs' r, expunge_old_file b key fs = (fs', r) /\ r <> Panic
  /\ same b fs fs' (delete old (files fs b)) /\ (is_Some (files fs b !! old) -> r = Ok tt).
Proof.
  intros Hb. destruct (law_remove fs b old Hb) as (fs' & r & m & Hr & Hs & Hc); [auto with vls|].
  unfold expunge_old_file. destruct (files fs b !! old) as [x|] eqn:Hold; destruct Hc as [-> ->].
  - eexists fs', _. split; [by apply fat_Ok|]. by split.
  - eexists fs', _. split; [by apply fat_Err|]. split; [done|]. rewrite (delete_id _ _ Hold). split; [done|].
    by intros [].
Qed.

(** A new file over no other: the value itself. *)
Lemma write_new_tidy fs v : b ∈ dirs fs -> tidy fs -> exists fs', write_new_file b key v fs = (fs', Ok tt)
  /\ same b fs fs' (<[new := v]> (files fs b)).
Proof.
  intros Hb [_ Hnew]. destruct (write_new_ok fs v Hb) as (fs' & Hw & Hs). rewrite Hnew in Hs. cbn in Hs.
  rewrite over_nil in Hs. by exists fs'.
Qed.

Lemma update_value_missing fs v : b ∈ dirs fs -> tidy fs -> files fs b !! cur = None ->
  exists fs', update_value b key v fs = (fs', Err (NotFound "NotFound")).
Proof.
  intros Hb Ht Hcur. destruct (names_distinct key key) as (_ & Hcn & _).
  destruct (write_new_tidy fs v Hb Ht) as (fs1 & H1 & Hs1). pose proof Hs1 as (_ & Hm1 & _).
  destruct (retire_missing fs1) as (fs2 & H2 & _); [by eapply same_dir|by rewrite Hm1, lookup_insert_ne|].
  exists fs2. unfold update_value. rewrite (C_bind_run _ _ _ _ _ H1). by rewrite (C_bind_fails _ _ _ _ _ H2).
Qed.

Lemma insert_value_ok fs v : b ∈ dirs fs -> tidy fs -> files fs b !! cur = None ->
  exists fs', insert_value b key v fs = (fs', Ok tt) /\ same b fs fs' (<[cur := v]> (files fs b)).
Proof.
  intros Hb Ht Hcur. destruct (names_distinct key key) as (_ & Hcn & _).
  destruct (write_new_tidy fs v Hb Ht) as (fs1 & H1 & Hs1). pose proof Hs1 as (_ & Hm1 & _).
  destruct (replace_ok fs1 v) as (fs2 & H2 & Hs2);
    [by eapply same_dir|by rewrite Hm1, lookup_insert_eq|by rewrite Hm1, lookup_insert_ne|].
  exists fs2. split; [unfold insert_value; by rewrite (C_bind_run _ _ _ _ _ H1)|].
  pose proof (same_trans _ _ _ _ _ Hs1 Hs2) as Hs. rewrite Hm1, delete_insert_id in Hs; [done|apply Ht].
Qed.

(** An insertion that fails leaves the new file behind. *)
Lemma insert_value_exists fs v x : b ∈ dirs fs -> tidy fs -> files fs b !! cur = Some x ->
  exists fs', insert_value b key v fs = (fs', Err (AlreadyExists "AlreadyExists"))
    /\ same b fs fs' (<[new := v]> (files fs b)).
Proof.
  intros Hb Ht Hcur. destruct (names_distinct key key) as (_ & Hcn & _).
  destruct (write_new_tidy fs v Hb Ht) as (fs1 & H1 & Hs1). pose proof Hs1 as (_ & Hm1 & _).
  destruct (replace_exists fs1 v x) as (fs2 & H2 & Hs2);
    [by eapply same_dir|by rewrite Hm1, lookup_insert_eq|by rewrite Hm1, lookup_insert_ne|].
  exists fs2. split; [unfold insert_value; by rewrite (C_bind_run _ _ _ _ _ H1)|].
  pose proof (same_trans _ _ _ _ _ Hs1 Hs2) as Hs. by rewrite Hm1 in Hs.
Qed.

Lemma upsert_value_ok fs v : b ∈ dirs fs -> tidy fs ->
  exists fs', upsert_value b key v fs = (fs', Ok tt) /\ same b fs fs' (<[cur := v]> (files fs b)).
Proof.
  intros Hb Ht. destruct (names_distinct key key) as (Hco & Hcn & Hon). pose proof Ht as [Hold Hnew].
  destruct (write_new_tidy fs v Hb Ht) as (fs1 & H1 & Hs1). pose proof Hs1 as (_ & Hm1 & _).
  assert (H2 : exists fs2, drop_error (retire_cur_file b key) fs1 = (fs2, Ok tt)
    /\ same b fs fs2 (<[new := v]> (match files fs b !! cur with Some x => <[old := x]> (delete cur (files fs b))
                                                               | None => files fs b end))).
  { destruct (files fs b !! cur) as [x|] eqn:Hcur.
    - destruct (retire_ok fs1 x) as (fs2 & H2 & Hs2);
        [by eapply same_dir|by rewrite Hm1, lookup_insert_ne|by rewrite Hm1, lookup_insert_ne|].
      exists fs2. split; [by eapply drop_error_any|]. rewrite Hm1 in Hs2.
      eapply (eq_ind _ (same b fs fs2)); [by eapply same_trans|files_eq].
    - destruct (retire_missing fs1) as (fs2 & H2 & Hs2); [by eapply same_dir|by rewrite Hm1, lookup_insert_ne|].
      exists fs2. split; [by eapply drop_error_any|]. rewrite Hm1 in Hs2. by eapply same_trans. }
  destruct H2 as (fs2 & H2 & Hs2). pose proof Hs2 as (_ & Hm2 & _).
  destruct (replace_ok fs2 v) as (fs3 & H3 & Hs3); [by eapply same_dir|by rewrite Hm2, lookup_insert_eq| |].
  { rewrite Hm2, lookup_insert_ne by done. destruct (files fs b !! cur) eqn:Hcur; [|done].
    by rewrite lookup_insert_ne, lookup_delete_eq by done. }
  destruct (expunge_run fs3) as (fs4 & r & H4 & Hr & Hs4 & _);
    [eapply same_dir; [exact Hs3|]; by eapply same_dir|].
  pose proof (same_trans _ _ _ _ _ Hs2 Hs3) as Hs23. pose proof (same_trans _ _ _ _ _ Hs23 Hs4) as Hs.
  pose proof Hs23 as (_ & Hm3 & _). rewrite Hm3, Hm2 in Hs. exists fs4. split.
  - unfold upsert_value. rewrite (C_bind_run _ _ _ _ _ H1), (C_bind_run _ _ _ _ _ H2), (C_bind_run _ _ _ _ _ H3).
    by eapply drop_error_any.
  - eapply (eq_ind _ (same b fs fs4)); [exact Hs|]. destruct (files fs b !! cur) eqn:Hcur; files_eq.
Qed.

Lemma delete_value_ok fs x : b ∈ dirs fs -> tidy fs -> files fs b !! cur = Some x ->
  exists fs', delete_value b key fs = (fs', Ok tt) /\ same b fs fs' (delete cur (files fs b)).
Proof.
  intros Hb [Hold Hnew] Hcur. destruct (names_distinct key key) as (Hco & _ & _).
  destruct (retire_ok fs x Hb Hcur Hold) as (fs1 & H1 & Hs1). pose proof Hs1 as (_ & Hm1 & _).
  destruct (expunge_run fs1) as (fs2 & r & H2 & _ & Hs2 & Hok); [by eapply same_dir|].
  rewrite Hok in H2 by (rewrite Hm1, lookup_insert_eq; by eexists). exists fs2.
  split; [unfold delete_value; by rewrite (C_bind_run _ _ _ _ _ H1)|].
  pose proof (same_trans _ _ _ _ _ Hs1 Hs2) as Hs. rewrite Hm1 in Hs.
  eapply (eq_ind _ (same b fs fs2)); [exact Hs|]. files_eq.
Qed.

Lemma delete_value_missing fs : b ∈ dirs fs -> files fs b !! cur = None ->
  exists fs', delete_value b key fs = (fs', Err (NotFound "NotFound")).
Proof.
  intros Hb Hcur. destruct (retire_missing fs Hb Hcur) as (fs1 & H1 & _). exists fs1.
  unfold delete_value. by rewrite (C_bind_fails _ _ _ _ _ H1).
Qed.

(** Reading. *)
Lemma read_loop_ok fs n x : files fs b !! n = Some x -> forall fuel f p acc,
  handle f = (b, n, p) -> (length (drop p x) < fuel)%nat -> read_loop fuel f acc fs = Ok (acc ++ drop p x).
Proof.
  intros Hx. induction fuel as [|fuel IH]; intros f p acc Hf Hl; [lia|]. cbn [read_loop].
  destruct (law_fs_read fs f b n p x BUFSZ Hf Hx) as (f' & got & -> & Hf' & Hgot & _ & Hend); [unfold BUFSZ; lia|].
  rewrite Ok_bind. case_bool_decide as Hg.
  - by rewrite (Hend Hg), app_nil_r.
  - rewrite (IH f' _ _ Hf').
    + rewrite <- app_assoc. do 2 f_equal. rewrite Hgot at 1. rewrite <- (take_drop (length got) (drop p x)) at 2.
      by rewrite drop_drop.
    + rewrite length_drop in Hl |- *. assert (0 < length got)%nat by (destruct got; [done|cbn; lia]).
      apply (f_equal length) in Hgot. rewrite length_take, length_drop in Hgot. lia.
Qed.

Lemma read_value_ok fs v : b ∈ dirs fs -> files fs b !! cur = Some v -> read_value b key fs = Ok (from_utf8_lossy v).
Proof.
  intros Hb Hv. unfold read_value. pose proof (law_open_file fs b cur Hb (plain_cur key Hkey)) as Ho.
  rewrite Hv in Ho. destruct Ho as (f & -> & Hf & Hsize). cbn [map_err]. rewrite Ok_bind, Hsize.
  rewrite (read_loop_ok fs cur v Hv _ f 0 [] Hf) by (rewrite drop_0; lia). by rewrite drop_0.
Qed.

Lemma read_value_missing fs : b ∈ dirs fs -> files fs b !! cur = None ->
  read_value b key fs = Err (NotFound "NotFound").
Proof.
  intros Hb Hv. unfold read_value. pose proof (law_open_file fs b cur Hb (plain_cur key Hkey)) as Ho.
  rewrite Hv in Ho. by rewrite Ho.
Qed.
End bucket.

(** ** Listing a bucket *)

Definition name_key (name : string) : option string :=
  if ends_with ".json" name then Some (String.substring 0 (String.length name - 5) name) else None.
Definition bad_name (name : string) : bool :=
  negb (ends_with ".json" name) && negb (bool_decide (name = ".") || bool_decide (name = "..")).

Lemma name_key_cur key : name_key (cur_file_rel key) = Some key.
Proof. unfold name_key. destruct (cur_is_json key) as [-> ->]. done. Qed.

Lemma omap_cur {A} (f : A -> string) (l : list A) : omap name_key ((fun x => cur_file_rel (f x)) <$> l) = f <$> l.
Proof. induction l as [|x l IH]; cbn; [done|]. by rewrite name_key_cur, IH. Qed.

Lemma list_key_loop names ks es :
  foldM list_key (ks, es) (Ok <$> names)
  = Ok (ks ++ omap name_key names,
        es ++ ((fun _ => PersistInternal "list keys: bad file: {}") <$> List.filter bad_name names)).
Proof.
  revert ks es. induction names as [|n names IH]; intros ks es.
  { cbn. by rewrite !app_nil_r. }
  assert (Hn : list_key (ks, es) (Ok n)
    = Ok (ks ++ option_list (name_key n),
          es ++ (if bad_name n then [PersistInternal "list keys: bad file: {}"] else []))).
  { unfold list_key, name_key, bad_name. cbn [unwrap_ok]. rewrite Ok_bind.
    destruct (ends_with ".json" n); cbn; [by rewrite app_nil_r|].
    destruct (_ || _); cbn; by rewrite !app_nil_r. }
  rewrite fmap_cons. cbn [foldM]. rewrite Hn, Ok_bind, IH. rewrite <- !app_assoc. do 3 f_equal.
  - cbn. by destruct (name_key n).
  - cbn. by destruct (bad_name n).
Qed.

Section listing.
Context {F : Type} `{!FatFs F} (dirs : F -> gset string) (files : F -> string -> gmap string bytes)
  (handle : File (F := F) -> string * string * nat) `{!FatLaws dirs files handle}.

Lemma list_keys_ok fs b : b ∈ dirs fs ->
  (forall n, is_Some (files fs b !! n) -> exists key, n = cur_file_rel key) ->
  exists keys, list_keys b fs = Ok keys /\ keys ≡ₚ omap name_key (map_to_list (files fs b)).*1.
Proof.
  intros Hb Hall. destruct (law_dir_names fs b Hb) as (names & Hn & Hperm).
  exists (omap name_key names). split.
  - unfold list_keys. rewrite (law_open_dir fs b Hb), Hn, list_key_loop. cbn [map_err]. rewrite !Ok_bind.
    assert (Hf : List.filter bad_name names = []).
    { apply elem_of_nil_inv. intros n. rewrite list_elem_of_In, List.filter_In, <- list_elem_of_In.
      intros [Hin Hbad]. rewrite Hperm, !elem_of_cons in Hin. destruct Hin as [->|[->|Hin]]; [done..|].
      apply list_elem_of_fmap in Hin as ([n' v] & -> & Hin%elem_of_map_to_list).
      destruct (Hall n') as [key ->]; [by exists v|]. unfold bad_name in Hbad. cbn in Hbad.
      by rewrite (proj1 (cur_is_json key)) in Hbad. }
    by rewrite Hf.
  - rewrite Hperm. done.
Qed.

Lemma list_keys_bad fs b n : b ∈ dirs fs -> is_Some (files fs b !! n) -> bad_name n = true ->
  list_keys b fs = Err (PersistInternal "list keys: bad file: {}").
Proof.
  intros Hb [v Hv] Hbad. destruct (law_dir_names fs b Hb) as (names & Hn & Hperm).
  unfold list_keys. rewrite (law_open_dir fs b Hb), Hn, list_key_loop. cbn [map_err]. rewrite !Ok_bind.
  assert (Hin : n ∈ List.filter bad_name names).
  { apply list_elem_of_In, List.filter_In. split; [|done]. apply list_elem_of_In. rewrite Hperm.
    do 2 apply list_elem_of_further. apply list_elem_of_fmap. exists (n, v). by rewrite elem_of_map_to_list. }
  destruct (List.filter bad_name names); [by apply elem_of_nil in Hin|done].
Qed.
End listing.

(** ** The files of the channels *)

Section channels.
Context `{L : Lib, HL : HexLib, JL : JsonLib, XL : !HexLaws, XN : !HexNames, JW : !JsonLaws}.
Implicit Types chs : gmap ChannelId ChannelEntry.

Definition chan_file (ie : ChannelId * ChannelEntry) : string * bytes :=
  (cur_file_rel (hex_encode ie.1), json_channel ie.2).
Definition chan_files chs : gmap string bytes := list_to_map (chan_file <$> map_to_list chs).

Definition good_ids chs : Prop := map_Forall (fun id _ => good_id id) chs.

Lemma chan_file_names (l : list (ChannelId * ChannelEntry)) :
  (chan_file <$> l).*1 = (fun id => cur_file_rel (hex_encode id)) <$> l.*1.
Proof. by rewrite <- !list_fmap_compose. Qed.

Lemma chan_name_inj id id' : good_id id -> good_id id' ->
  cur_file_rel (hex_encode id) = cur_file_rel (hex_encode id') -> id = id'.
Proof. intros [Hb _] [Hb' _] Heq%cur_inj. by apply hex_encode_inj. Qed.

Lemma chan_files_NoDup chs : good_ids chs -> NoDup (chan_file <$> map_to_list chs).*1.
Proof.
  intros Hg. rewrite chan_file_names. apply NoDup_fmap_2_strong; [|apply NoDup_fst_map_to_list].
  intros id id' ([? e] & -> & Hin)%list_elem_of_fmap ([? e'] & -> & Hin')%list_elem_of_fmap.
  apply elem_of_map_to_list in Hin, Hin'. apply chan_name_inj; by eapply Hg.
Qed.

Lemma chan_files_lookup chs n v : good_ids chs ->
  chan_files chs !! n = Some v <->
  exists id e, chs !! id = Some e /\ n = cur_file_rel (hex_encode id) /\ v = json_channel e.
Proof.
  intros Hg. unfold chan_files. rewrite <- elem_of_list_to_map by by apply chan_files_NoDup.
  rewrite list_elem_of_fmap. split.
  - intros ([id e] & [= -> ->] & Hin%elem_of_map_to_list). by exists id, e.
  - intros (id & e & Hin & -> & ->). exists (id, e). by rewrite elem_of_map_to_list.
Qed.

Lemma chan_files_at chs id : good_ids chs -> good_id id ->
  chan_files chs !! cur_file_rel (hex_encode id) = json_channel <$> chs !! id.
Proof.
  intros Hg Hid. apply option_eq. intros v. rewrite chan_files_lookup, fmap_Some by done. split.
  - intros (id' & e & He & Heq & ->). exists e. split; [|done].
    apply chan_name_inj in Heq; [by subst|done|by eapply Hg].
  - intros (e & He & ->). by exists id, e.
Qed.

Lemma chan_files_insert chs id e : good_ids chs -> good_id id ->
  chan_files (<[id := e]> chs) = <[cur_file_rel (hex_encode id) := json_channel e]> (chan_files chs).
Proof.
  intros Hg Hid. assert (Hg' : good_ids (<[id := e]> chs)) by by apply map_Forall_insert_2.
  apply map_eq. intros n. rewrite lookup_insert. case_decide as Hn.
  - subst n. by rewrite chan_files_at, lookup_insert_eq.
  - apply option_eq. intros v. rewrite !chan_files_lookup by done.
    apply exist_proper. intros id'. apply exist_proper. intros e'.
    rewrite lookup_insert. case_decide; naive_solver.
Qed.

Lemma chan_files_delete chs id : good_ids chs -> good_id id ->
  chan_files (delete id chs) = delete (cur_file_rel (hex_encode id)) (chan_files chs).
Proof.
  intros Hg Hid. assert (Hg' : good_ids (delete id chs)) by by apply map_Forall_delete.
  apply map_eq. intros n. rewrite lookup_delete. case_decide as Hn.
  - subst n. by rewrite chan_files_at, lookup_delete_eq.
  - apply option_eq. intros v. rewrite !chan_files_lookup by done.
    apply exist_proper. intros id'. apply exist_proper. intros e'.
    rewrite lookup_delete. case_decide; naive_solver.
Qed.

Lemma chan_files_json chs n : good_ids chs -> is_Some (chan_files chs !! n) -> exists key, n = cur_file_rel key.
Proof. intros Hg [v (id & e & _ & -> & _)%chan_files_lookup]; [|done]. by eexists. Qed.

Lemma chan_files_tidy chs key : good_ids chs ->
  chan_files chs !! old_file_rel key = None /\ chan_files chs !! new_file_rel key = None.
Proof.
  intros Hg. split; apply eq_None_not_Some; intros Hs; apply chan_files_json in Hs as [key' Heq]; try done;
    destruct (names_distinct key' key) as (Ho & Hn & _); by symmetry in Heq.
Qed.
End channels.

(** ** The record of the node *)

(** The only file of a bucket. *)
Definition one_file (key : string) (o : option bytes) : gmap string bytes :=
  match o with Some v => {[cur_file_rel key := v]} | None => ∅ end.

Lemma one_file_cur key o : one_file key o !! cur_file_rel key = o.
Proof. destruct o; [by apply lookup_singleton_eq|done]. Qed.

Lemma one_file_tidy key o : one_file key o !! old_file_rel key = None /\ one_file key o !! new_file_rel key = None.
Proof.
  destruct (names_distinct key key) as (Hco & Hcn & _). destruct o; [|done].
  by split; apply lookup_singleton_ne.
Qed.

Lemma one_file_insert key o v : <[cur_file_rel key := v]> (one_file key o) = one_file key (Some v).
Proof. destruct o; [apply insert_singleton_eq|done]. Qed.

Definition all_buckets : list string :=
  [node_bucket_path; nodestate_bucket_path; channel_bucket_path; allowlist_bucket_path;
   chaintracker_bucket_path].

(** When a write is accepted: a node and a channel are new, what is updated or
    deleted exists. *)
Definition applicable `{Lib, ChainLib} (w : Write) (r : NodeRecord) : bool :=
  match w with
  | NewNode _ _ _ => bool_decide (r_entry r = None)
  | UpdateNode _ _ => bool_decide (is_Some (r_state r))
  | NewChannel _ stub => bool_decide (r_channels r !! stub_id0 stub = None)
  | DeleteChannel _ id => bool_decide (is_Some (r_channels r !! id))
  | UpdateChannel _ chan => bool_decide (is_Some (r_channels r !! id0 chan))
  | UpdateTracker _ _ => bool_decide (is_Some (r_tracker r))
  | NewChainTracker _ _ | UpdateAllowlist _ _ => true
  end.

Definition good_write `{Lib, ChainLib} (w : Write) : Prop :=
  match w with
  | NewChannel _ stub => good_id (stub_id0 stub)
  | DeleteChannel _ id => good_id id
  | UpdateChannel _ chan => good_id (id0 chan)
  | _ => True
  end.

Definition sets_allowlist `{Lib, ChainLib} (w : Write) : bool :=
  match w with UpdateAllowlist _ _ => true | _ => false end.

Section record.
Context `{L : Lib, CL : ChainLib, SL : SerLib, HL : HexLib, JL : JsonLib, AL : AddressLib}.
Context `{XL : !HexLaws, XN : !HexNames, JW : !JsonLaws}.
Context {F : Type} `{!FatFs F} (dirs : F -> gset string) (files : F -> string -> gmap string bytes)
  (handle : File (F := F) -> string * string * nat) `{!FatLaws dirs files handle}.
Notation Self := (FatJsonPersister F).
Implicit Types (self : Self) (fs : F).

(** The files hold the record; [listed] when an allowlist was ever written. *)
Record holds fs (r : NodeRecord) (listed : bool) : Prop := {
  h_dirs b : b ∈ all_buckets -> b ∈ dirs fs;
  h_entry : files fs node_bucket_path = one_file "node" (json_node_entry <$> r_entry r);
  h_state : files fs nodestate_bucket_path = one_file "nodestate" (json_node_state <$> r_state r);
  h_chans : files fs channel_bucket_path = chan_files (r_channels r);
  h_ids : good_ids (r_channels r);
  h_allow : files fs allowlist_bucket_path
            = one_file "allowlist" (if listed then Some (json_allowlist (r_allowlist r)) else None);
  h_tracker : files fs chaintracker_bucket_path
              = one_file "chaintracker" (json_tracker <$> r_tracker r);
  h_skip e : r_tracker r = Some e -> serde_skip e = e
}.

Lemma serde_skip_idem e : serde_skip (serde_skip e) = serde_skip e.
Proof.
  unfold serde_skip. cbn. f_equal. rewrite <- map_fmap_compose. apply map_fmap_ext. by intros i [].
Qed.

Lemma fat_write_run self m fs' r : m (setupfs self) = (fs', r) ->
  fat_write self m = ({| setupfs := fs'; fp_node_id := fp_node_id self |}, r).
Proof. unfold fat_write. by intros ->. Qed.

(** What a write leaves alone. *)
Lemma others fs fs' r listed b m o : holds fs r listed -> same_but dirs files b fs fs' m ->
  o ∈ all_buckets -> bool_decide (o = b) = false -> files fs' o = files fs o.
Proof.
  intros Hh (_ & _ & Ho) Hin Hne%bool_decide_eq_false. apply Ho; [by apply (h_dirs _ _ _ Hh)|done].
Qed.

Ltac in_buckets := vm_compute; repeat constructor.
Ltac other_bucket Hh Hs :=
  rewrite (others _ _ _ _ _ _ _ Hh Hs) by (in_buckets || reflexivity).
Ltac kept Hh Hs :=
  first [ intros ? ?; rewrite (proj1 Hs); by apply (h_dirs _ _ _ Hh)
        | other_bucket Hh Hs; apply Hh
        | apply Hh ].

Lemma hold_entry fs fs' r listed e : holds fs r listed ->
  same_but dirs files node_bucket_path fs fs' (<[cur_file_rel "node" := json_node_entry e]> (files fs node_bucket_path)) ->
  holds fs' (with_entry r e) listed.
Proof.
  intros Hh Hs. split; try kept Hh Hs. rewrite (proj1 (proj2 Hs)), (h_entry _ _ _ Hh). apply one_file_insert.
Qed.

Lemma hold_state fs fs' r listed e : holds fs r listed ->
  same_but dirs files nodestate_bucket_path fs fs'
    (<[cur_file_rel "nodestate" := json_node_state e]> (files fs nodestate_bucket_path)) ->
  holds fs' (with_node_state r e) listed.
Proof.
  intros Hh Hs. split; try kept Hh Hs. rewrite (proj1 (proj2 Hs)), (h_state _ _ _ Hh). apply one_file_insert.
Qed.

Lemma hold_allow fs fs' r listed l : holds fs r listed ->
  same_but dirs files allowlist_bucket_path fs fs'
    (<[cur_file_rel "allowlist" := json_allowlist l]> (files fs allowlist_bucket_path)) ->
  holds fs' (with_allowlist r l) true.
Proof.
  intros Hh Hs. split; try kept Hh Hs. rewrite (proj1 (proj2 Hs)), (h_allow _ _ _ Hh). apply one_file_insert.
Qed.

Lemma hold_tracker fs fs' r listed e : holds fs r listed ->
  same_but dirs files chaintracker_bucket_path fs fs'
    (<[cur_file_rel "chaintracker" := json_tracker e]> (files fs chaintracker_bucket_path)) ->
  holds fs' (with_tracker r (serde_skip e)) listed.
Proof.
  intros Hh Hs. split; try kept Hh Hs.
  - rewrite (proj1 (proj2 Hs)), (h_tracker _ _ _ Hh), one_file_insert. cbn.
    by rewrite (proj2 (proj2 (law_json_tracker e))).
  - cbn. intros e' [= <-]. apply serde_skip_idem.
Qed.

Lemma hold_channels fs fs' r listed m chs : holds fs r listed ->
  same_but dirs files channel_bucket_path fs fs' m -> m = chan_files chs -> good_ids chs ->
  holds fs' (with_channels r chs) listed.
Proof.
  intros Hh Hs -> Hg. split; try kept Hh Hs; [by rewrite (proj1 (proj2 Hs))|done].
Qed.

Lemma tidy_one fs r listed b key o : holds fs r listed -> files fs b = one_file key o -> tidy files b key fs.
Proof. intros _ Hf. unfold tidy. rewrite Hf. apply one_file_tidy. Qed.

Lemma tidy_channel fs r listed key : holds fs r listed -> tidy files channel_bucket_path key fs.
Proof. intros Hh. unfold tidy. rewrite (h_chans _ _ _ Hh). apply chan_files_tidy, Hh. Qed.

Lemma in_dirs fs r listed b : holds fs r listed -> bool_decide (b ∈ all_buckets) = true -> b ∈ dirs fs.
Proof. intros Hh Hb%bool_decide_eq_true. by apply (h_dirs _ _ _ Hh). Qed.

(** The current file of a channel. *)
Lemma channel_cur fs r listed id : holds fs r listed -> good_id id ->
  files fs channel_bucket_path !! cur_file_rel (hex_encode id) = json_channel <$> r_channels r !! id.
Proof. intros Hh Hid. rewrite (h_chans _ _ _ Hh). apply chan_files_at; [apply Hh|done]. Qed.

Definition accepts self (w : Write) (r : NodeRecord) (listed : bool) : Prop :=
  if applicable w r
  then exists self', perform w self = (self', Ok tt) /\ fp_node_id self' = fp_node_id self
         /\ holds (setupfs self') (effect w r) (listed || sets_allowlist w)
  else exists self' e, perform w self = (self', Err e).

Ltac finish Hm := eexists; (split; [exact (fat_write_run _ _ _ _ Hm)|]); (split; [done|]); cbn [setupfs].

Lemma accepts_new_node self r listed nid config state : holds (setupfs self) r listed ->
  accepts self (NewNode nid config state) r listed.
Proof.
  intros Hh. pose proof (in_dirs _ _ _ node_bucket_path Hh eq_refl) as Hd.
  pose proof (tidy_one _ _ _ _ _ _ Hh (h_entry _ _ _ Hh)) as Ht.
  unfold accepts. cbn [applicable]. set (e := (KeyDerivationStyle_as_u8 (cfg_key_derivation_style config),
    network_to_string (cfg_network config))). case_bool_decide as Hn.
  - destruct (insert_value_ok dirs files handle node_bucket_path "node" eq_refl _ (json_node_entry e) Hd Ht)
      as (fs1 & H1 & Hs1); [by rewrite (h_entry _ _ _ Hh), one_file_cur, Hn|].
    apply (hold_entry _ _ _ _ _ Hh) in Hs1 as Hh1.
    destruct (upsert_value_ok dirs files handle nodestate_bucket_path "nodestate" eq_refl fs1
      (json_node_state (NodeStateEntry_from state))) as (fs2 & H2 & Hs2);
      [by apply (in_dirs _ _ _ _ Hh1)|by apply (tidy_one _ _ _ _ _ _ Hh1 (h_state _ _ _ Hh1))|].
    pose proof (hold_state _ _ _ _ _ Hh1 Hs2) as Hh2. rewrite orb_false_r.
    eexists. split; [apply fat_write_run; rewrite (C_bind_run _ _ _ _ _ H1); exact H2|]. done.
  - destruct (r_entry r) as [x|] eqn:Hx; [|done].
    destruct (insert_value_exists dirs files handle node_bucket_path "node" eq_refl _ (json_node_entry e)
      (json_node_entry x) Hd Ht) as (fs1 & H1 & _); [by rewrite (h_entry _ _ _ Hh), one_file_cur, Hx|].
    eexists _, _. apply fat_write_run. exact (C_bind_fails _ _ _ _ _ H1).
Qed.

(** An update of the only file of a bucket. *)
Lemma update_one self r listed b key o v : holds (setupfs self) r listed -> bool_decide (b ∈ all_buckets) = true ->
  plain_key key = true -> files (setupfs self) b = one_file key o ->
  if bool_decide (is_Some o)
  then exists fs', update_value b key v (setupfs self) = (fs', Ok tt)
         /\ same_but dirs files b (setupfs self) fs' (<[cur_file_rel key := v]> (files (setupfs self) b))
  else exists fs', update_value b key v (setupfs self) = (fs', Err (NotFound "NotFound")).
Proof.
  intros Hh Hb Hk Hf. pose proof (in_dirs _ _ _ b Hh Hb) as Hd. pose proof (tidy_one _ _ _ _ _ _ Hh Hf) as Ht.
  clear Hb. case_bool_decide as Ho.
  - destruct Ho as [x ->]. apply (update_value_ok dirs files handle b key Hk _ v x Hd Ht).
    by rewrite Hf, one_file_cur.
  - apply (update_value_missing dirs files handle b key Hk _ v Hd Ht). rewrite Hf, one_file_cur.
    by apply eq_None_not_Some.
Qed.

Lemma accepts_update_node self r listed nid state : holds (setupfs self) r listed ->
  accepts self (UpdateNode nid state) r listed.
Proof.
  intros Hh. unfold accepts. cbn [applicable sets_allowlist]. rewrite orb_false_r.
  pose proof (update_one self r listed nodestate_bucket_path "nodestate" _
    (json_node_state (NodeStateEntry_from state)) Hh eq_refl eq_refl (h_state _ _ _ Hh)) as Hu.
  rewrite (bool_decide_ext _ _ (fmap_is_Some _ _)) in Hu. case_bool_decide.
  - destruct Hu as (fs' & Hm & Hs). finish Hm. exact (hold_state _ _ _ _ _ Hh Hs).
  - destruct Hu as (fs' & Hm). eexists _, _. exact (fat_write_run _ _ _ _ Hm).
Qed.

Lemma accepts_update_tracker self r listed nid t : holds (setupfs self) r listed ->
  accepts self (UpdateTracker nid t) r listed.
Proof.
  intros Hh. unfold accepts. cbn [applicable sets_allowlist]. rewrite orb_false_r.
  pose proof (update_one self r listed chaintracker_bucket_path "chaintracker" _
    (json_tracker (ChainTrackerEntry_from t)) Hh eq_refl eq_refl (h_tracker _ _ _ Hh)) as Hu.
  rewrite (bool_decide_ext _ _ (fmap_is_Some _ _)) in Hu. case_bool_decide.
  - destruct Hu as (fs' & Hm & Hs). finish Hm. exact (hold_tracker _ _ _ _ _ Hh Hs).
  - destruct Hu as (fs' & Hm). eexists _, _. exact (fat_write_run _ _ _ _ Hm).
Qed.

Lemma accepts_new_tracker self r listed nid t : holds (setupfs self) r listed ->
  accepts self (NewChainTracker nid t) r listed.
Proof.
  intros Hh. unfold accepts. cbn [applicable sets_allowlist]. rewrite orb_false_r.
  destruct (upsert_value_ok dirs files handle chaintracker_bucket_path "chaintracker" eq_refl (setupfs self)
    (json_tracker (ChainTrackerEntry_from t))) as (fs' & Hm & Hs);
    [by apply (in_dirs _ _ _ _ Hh)|by apply (tidy_one _ _ _ _ _ _ Hh (h_tracker _ _ _ Hh))|].
  finish Hm. exact (hold_tracker _ _ _ _ _ Hh Hs).
Qed.

Lemma accepts_allowlist self r listed nid l : holds (setupfs self) r listed ->
  accepts self (UpdateAllowlist nid l) r listed.
Proof.
  intros Hh. unfold accepts. cbn [applicable sets_allowlist]. rewrite orb_true_r.
  destruct (upsert_value_ok dirs files handle allowlist_bucket_path "allowlist" eq_refl (setupfs self)
    (json_allowlist l)) as (fs' & Hm & Hs);
    [by apply (in_dirs _ _ _ _ Hh)|by apply (tidy_one _ _ _ _ _ _ Hh (h_allow _ _ _ Hh))|].
  finish Hm. exact (hold_allow _ _ _ _ _ Hh Hs).
Qed.

Lemma accepts_channels self r listed w : holds (setupfs self) r listed -> good_write w ->
  match w with NewChannel _ _ | DeleteChannel _ _ | UpdateChannel _ _ => accepts self w r listed | _ => True end.
Proof.
  intros Hh Hw. pose proof (in_dirs _ _ _ channel_bucket_path Hh eq_refl) as Hd.
  pose proof (h_ids _ _ _ Hh) as Hg.
  destruct w as [| |nid stub|nid id|nid chan| | |]; try done; cbn in Hw; unfold accepts; cbn [applicable];
    rewrite orb_false_r;
    pose proof (channel_cur _ _ _ _ Hh Hw) as Hcur; pose proof (fun key => tidy_channel _ _ _ key Hh) as Ht;
    case_bool_decide as Ha.
  - destruct (insert_value_ok dirs files handle _ _ (law_hex_plain _ Hw) _ (json_channel (stub_entry stub)) Hd (Ht _))
      as (fs' & Hm & Hs); [by rewrite Hcur, Ha|].
    finish Hm. apply (hold_channels _ _ _ _ _ _ Hh Hs); [|by apply map_Forall_insert_2].
    by rewrite (h_chans _ _ _ Hh), chan_files_insert.
  - apply not_eq_None_Some in Ha as [x Hx]. rewrite Hx in Hcur.
    destruct (insert_value_exists dirs files handle _ _ (law_hex_plain _ Hw) _ (json_channel (stub_entry stub)) _
      Hd (Ht _) Hcur) as (fs' & Hm & _). eexists _, _. exact (fat_write_run _ _ _ _ Hm).
  - destruct Ha as [x Hx]. rewrite Hx in Hcur.
    destruct (delete_value_ok dirs files handle _ _ (law_hex_plain _ Hw) _ _ Hd (Ht _) Hcur) as (fs' & Hm & Hs).
    finish Hm. apply (hold_channels _ _ _ _ _ _ Hh Hs); [|by apply map_Forall_delete].
    by rewrite (h_chans _ _ _ Hh), chan_files_delete.
  - apply eq_None_not_Some in Ha. rewrite Ha in Hcur.
    destruct (delete_value_missing dirs files handle _ _ (law_hex_plain _ Hw) _ Hd Hcur) as (fs' & Hm).
    eexists _, _. exact (fat_write_run _ _ _ _ Hm).
  - destruct Ha as [x Hx]. rewrite Hx in Hcur.
    destruct (update_value_ok dirs files handle _ _ (law_hex_plain _ Hw) _ (json_channel (channel_entry chan)) _ Hd (Ht _) Hcur)
      as (fs' & Hm & Hs).
    finish Hm. apply (hold_channels _ _ _ _ _ _ Hh Hs); [|by apply map_Forall_insert_2].
    by rewrite (h_chans _ _ _ Hh), chan_files_insert.
  - apply eq_None_not_Some in Ha. rewrite Ha in Hcur.
    destruct (update_value_missing dirs files handle _ _ (law_hex_plain _ Hw) _ (json_channel (channel_entry chan)) Hd (Ht _) Hcur)
      as (fs' & Hm). eexists _, _. exact (fat_write_run _ _ _ _ Hm).
Qed.

Lemma write_accepted w self r listed : holds (setupfs self) r listed -> good_write w -> accepts self w r listed.
Proof.
  intros Hh Hw. pose proof (accepts_channels self r listed w Hh Hw) as Hc. destruct w; try exact Hc.
  - by apply accepts_new_node.
  - by apply accepts_update_node.
  - by apply accepts_new_tracker.
  - by apply accepts_update_tracker.
  - by apply accepts_allowlist.
Qed.

(** Reading the record. *)
Lemma get_channels_held self r listed nid : holds (setupfs self) r listed ->
  exists l, persist_get_node_channels self nid = Ok l /\ l ≡ₚ map_to_list (r_channels r).
Proof.
  intros Hh. pose proof (in_dirs _ _ _ channel_bucket_path Hh eq_refl) as Hd. pose proof (h_ids _ _ _ Hh) as Hg.
  destruct (list_keys_ok dirs files handle (setupfs self) channel_bucket_path Hd) as (keys & Hk & Hperm).
  { intros n. rewrite (h_chans _ _ _ Hh). by apply chan_files_json. }
  rewrite (h_chans _ _ _ Hh) in Hperm. unfold chan_files in Hperm.
  rewrite (map_to_list_to_map _ (chan_files_NoDup _ Hg)), chan_file_names, <- list_fmap_compose in Hperm.
  pose proof (omap_cur (fun ie : ChannelId * ChannelEntry => hex_encode ie.1) (map_to_list (r_channels r))) as Ho.
  pose proof (Permutation_trans Hperm (eq_ind _ (Permutation _) (Permutation_refl _) _ Ho)) as Hp. clear Hperm Ho.
  apply Permutation_map_inv in Hp as (l & -> & Hl). exists l. split; [|by symmetry].
  cbn. unfold fat_get_node_channels. rewrite Hk, Ok_bind.
  assert (Hall : Forall (fun ie => r_channels r !! ie.1 = Some ie.2) l).
  { apply Forall_forall. intros [id e] Hin. rewrite <- Hl in Hin. by apply elem_of_map_to_list in Hin. }
  clear Hk Hl.
  match goal with |- foldM ?f [] _ = _ =>
    enough (Hl : forall acc, foldM f acc (List.map (fun ie => hex_encode ie.1) l) = Ok (acc ++ l)) by apply (Hl []) end.
  induction Hall as [|[id e] l He _ IH]; intros acc; cbn [List.map foldM fst]; [by rewrite app_nil_r|].
  cbn in He. pose proof (Hg _ _ He) as Hid. rewrite (law_hex_decode id (proj1 Hid)).
  pose proof (channel_cur _ _ _ _ Hh Hid) as Hcur. rewrite He in Hcur.
  rewrite (read_value_ok dirs files handle _ _ (law_hex_plain _ Hid) _ _ Hd Hcur), Ok_bind.
  destruct (law_json_channel e) as [-> ->]. cbn [ok_or]. rewrite !Ok_bind, IH. by rewrite <- app_assoc.
Qed.

(** The value of the only file of a bucket. *)
Lemma read_one fs r listed b key o : holds fs r listed -> bool_decide (b ∈ all_buckets) = true ->
  plain_key key = true -> files fs b = one_file key o ->
  read_value b key fs = match o with Some v => Ok (from_utf8_lossy v) | None => Err (NotFound "NotFound") end.
Proof.
  intros Hh Hb Hk Hf. pose proof (in_dirs _ _ _ b Hh Hb) as Hd. destruct o as [v|].
  - apply (read_value_ok dirs files handle); [done|done|]. by rewrite Hf, one_file_cur.
  - apply (read_value_missing dirs files handle); [done|done|]. by rewrite Hf, one_file_cur.
Qed.

(** What the persister reads. *)
Definition reads_back self (r : NodeRecord) (listed : bool) : Prop :=
  (forall nid, exists l, persist_get_node_channels self nid = Ok l /\ l ≡ₚ map_to_list (r_channels r))
  /\ (forall nid p e, r_tracker r = Some e -> persist_get_tracker self nid p = into_tracker e p)
  /\ (forall nid, persist_get_node_allowlist self nid
        = if listed then Ok (r_allowlist r) else Err (NotFound "NotFound"))
  /\ (r_entry r = None -> persist_get_nodes self = Ok [])
  /\ (forall e s, r_entry r = Some e -> r_state r = Some s ->
        persist_get_nodes self = (
          state ← NodeState_restore (nse_invoices s) (nse_issued_invoices s) (nse_preimages s) 0
                    (nse_velocity_control s) (nse_fee_velocity_control s);
          Ok [(fp_node_id self, {| ne_key_derivation_style := e.1; ne_network := e.2; ne_state := state |})])).

Lemma holds_reads self r listed : holds (setupfs self) r listed -> reads_back self r listed.
Proof.
  intros Hh. split; [intros nid; by apply (get_channels_held self r listed nid)|]. split; [|split; [|split]].
  - intros nid p e He. cbn. unfold fat_get_tracker.
    rewrite (read_one _ _ _ chaintracker_bucket_path "chaintracker" _ Hh eq_refl eq_refl (h_tracker _ _ _ Hh)), He. cbn.
    destruct (law_json_tracker e) as (Hu & Hj & _). rewrite Hu, Hj. cbn. by rewrite (h_skip _ _ _ Hh e He).
  - intros nid. cbn. unfold fat_get_node_allowlist.
    rewrite (read_one _ _ _ allowlist_bucket_path "allowlist" _ Hh eq_refl eq_refl (h_allow _ _ _ Hh)). destruct listed; [|done]. cbn.
    by destruct (law_json_allowlist (r_allowlist r)) as [-> ->].
  - intros He. cbn. unfold fat_get_nodes.
    by rewrite (read_one _ _ _ node_bucket_path "node" _ Hh eq_refl eq_refl (h_entry _ _ _ Hh)), He.
  - intros e s He Hst. cbn. unfold fat_get_nodes.
    rewrite (read_one _ _ _ node_bucket_path "node" _ Hh eq_refl eq_refl (h_entry _ _ _ Hh)), He. cbn.
    destruct (law_json_node_entry e) as [-> ->]. cbn.
    rewrite (read_one _ _ _ nodestate_bucket_path "nodestate" _ Hh eq_refl eq_refl (h_state _ _ _ Hh)), Hst. cbn.
    by destruct (law_json_node_state s) as [-> ->].
Qed.

(** ** Starting the persister *)

Definition empty_record : NodeRecord := {|
  r_entry := None; r_state := None; r_channels := ∅; r_allowlist := []; r_tracker := None |}.

(** The directories of the persister. *)
Definition state_dirs : list string := STATE_PATH :: all_buckets.

Fixpoint ensure_seq {E} (ps : list string) : CM F E unit :=
  match ps with
  | [] => mret tt
  | [p] => ensure_path p
  | p :: ps => ensure_path p;; ensure_seq ps
  end.

Lemma ensure_path_run {E} p fs : (forall d n, p = file_path d n -> d ∈ dirs fs) ->
  exists fs', ensure_path (E := E) p fs = (fs', Ok tt) /\ dirs fs' = {[p]} ∪ dirs fs
    /\ forall o, files fs' o = if decide (o = p /\ p ∉ dirs fs) then ∅ else files fs o.
Proof.
  intros Hp. destruct (law_create_dir fs p Hp) as (fs' & Hc & Hrest). exists fs'. split; [|done].
  unfold ensure_path, c_expect. by rewrite Hc.
Qed.

Lemma ensure_seq_run {E} ps : ps <> [] -> forall fs,
  (forall i p d n, ps !! i = Some p -> p = file_path d n -> d ∈ dirs fs \/ d ∈ take i ps) ->
  exists fs', ensure_seq (E := E) ps fs = (fs', Ok tt) /\ dirs fs' = list_to_set ps ∪ dirs fs
    /\ forall o, files fs' o = if decide (o ∈ ps /\ o ∉ dirs fs) then ∅ else files fs o.
Proof.
  induction ps as [|p ps IH]; intros Hne fs Hpar; [done|].
  destruct (ensure_path_run (E := E) p fs) as (fs1 & H1 & Hd1 & Hf1).
  { intros d n Hp. destruct (Hpar 0%nat p d n eq_refl Hp) as [?|Hin]; [done|by apply elem_of_nil in Hin]. }
  destruct (decide (ps = [])) as [->|Hps].
  { exists fs1. split; [done|]. split; [rewrite Hd1; set_solver|]. intros o. rewrite Hf1.
    apply decide_ext. set_solver. }
  destruct (IH Hps fs1) as (fs2 & H2 & Hd2 & Hf2).
  { intros i q d n Hq Hp. rewrite Hd1. destruct (Hpar (S i) q d n Hq Hp) as [?|Hin]; [set_solver|].
    cbn in Hin. apply elem_of_cons in Hin as [->|?]; [set_solver|by right]. }
  exists fs2. split; [|split; [rewrite Hd2, Hd1; set_solver|]].
  - destruct ps as [|q ps]; [done|]. cbn [ensure_seq]. by rewrite (C_bind_run _ _ _ _ _ H1).
  - intros o. rewrite Hf2, Hf1, Hd1. repeat case_decide; set_solver.
Qed.

(** The parents of paths of one and of two names. *)
Lemma slash_split (d n u v : bytes) : 47 ∉ u -> 47 ∉ v -> d ++ 47 :: n = u ++ 47 :: v -> d = u.
Proof.
  intros Hu Hv. revert u Hu. induction d as [|x d IH]; intros [|y u] Hu Heq; cbn in Heq.
  - done.
  - injection Heq as <- _. set_solver.
  - injection Heq as -> Heq. rewrite <- Heq in Hv. set_solver.
  - injection Heq as -> Heq. f_equal. apply IH; [set_solver|done].
Qed.

Lemma as_bytes_path d n : as_bytes (file_path d n) = as_bytes d ++ 47 :: as_bytes n.
Proof. unfold file_path. by rewrite !as_bytes_append. Qed.

Lemma state_parent i p d n : state_dirs !! i = Some p -> p = file_path d n -> d ∈ take i state_dirs.
Proof.
  intros Hi Hp. destruct i as [|i].
  { injection Hi as <-. exfalso. apply (f_equal as_bytes) in Hp. rewrite as_bytes_path in Hp.
    assert (Hin : 47 ∈ as_bytes STATE_PATH) by (rewrite Hp; set_solver). vm_compute in Hin. set_solver. }
  assert (Hb : exists q, p = file_path STATE_PATH q /\ bool_decide (47 ∈ as_bytes q) = false).
  { do 5 (destruct i as [|i]; [injection Hi as <-; eexists; split; [reflexivity|reflexivity]|]). done. }
  destruct Hb as (q & -> & Hq%bool_decide_eq_false). apply (f_equal as_bytes) in Hp. rewrite !as_bytes_path in Hp.
  symmetry in Hp. apply slash_split in Hp; [|by apply (bool_decide_eq_false (47 ∈ as_bytes STATE_PATH))|done].
  apply as_bytes_inj in Hp as ->. apply list_elem_of_here.
Qed.

Lemma new_run {E} runpath nid fs : pubkey_from_str runpath = Some nid ->
  exists self, FatJsonPersister_new (E := E) runpath fs = Ok self /\ fp_node_id self = nid
    /\ (forall b, b ∈ all_buckets -> b ∈ dirs (setupfs self))
    /\ (forall b, b ∈ all_buckets -> files (setupfs self) b = if decide (b ∈ dirs fs) then files fs b else ∅).
Proof.
  intros Hid. destruct (ensure_seq_run (E := E) state_dirs) with (fs := fs) as (fs' & Hr & Hd & Hf); [done| |].
  { intros i p d n Hi Hp. right. by eapply state_parent. }
  exists {| setupfs := fs'; fp_node_id := nid |}. split; [|split; [done|split]].
  - unfold FatJsonPersister_new. rewrite Hid. cbn [unwrap]. rewrite Ok_bind.
    change (_ ;; _) with (ensure_seq (E := E) state_dirs) . by rewrite Hr.
  - intros b Hb. cbn. rewrite Hd. apply elem_of_union_l, elem_of_list_to_set. by apply list_elem_of_further.
  - intros b Hb. cbn. rewrite Hf. repeat case_decide; try done; [set_solver|].
    exfalso. unfold state_dirs in *. set_solver.
Qed.

Lemma fresh_holds fs fs' : (forall b, b ∈ all_buckets -> b ∈ dirs fs') ->
  (forall b, b ∈ all_buckets -> files fs' b = if decide (b ∈ dirs fs) then files fs b else ∅) ->
  (forall b, b ∈ all_buckets -> b ∉ dirs fs) -> holds fs' empty_record false.
Proof.
  intros Hd Hf Hnew. assert (Hempty : forall b, b ∈ all_buckets -> files fs' b = ∅).
  { intros b Hb. rewrite Hf by done. by rewrite decide_False by auto. }
  split; [done|by apply Hempty; in_buckets|by apply Hempty; in_buckets| | |by apply Hempty; in_buckets
         |by apply Hempty; in_buckets|done].
  - unfold chan_files. cbn [r_channels empty_record]. rewrite map_to_list_empty. apply Hempty. in_buckets.
  - apply map_Forall_empty.
Qed.

(** A restart finds the files as they are. *)
Lemma restart_files {E} runpath fs self r listed : FatJsonPersister_new (E := E) runpath fs = Ok self ->
  (forall b, b ∈ all_buckets -> b ∈ dirs fs) ->
  (forall b, b ∈ all_buckets -> b ∈ dirs (setupfs self) /\ files (setupfs self) b = files fs b)
  /\ (holds fs r listed -> holds (setupfs self) r listed).
Proof.
  intros Hnew Hd. destruct (pubkey_from_str runpath) as [nid|] eqn:Hid;
    [|unfold FatJsonPersister_new in Hnew; by rewrite Hid in Hnew].
  destruct (new_run (E := E) runpath nid fs Hid) as (self' & Hr & _ & Hd' & Hf). rewrite Hnew in Hr.
  injection Hr as <-.
  assert (Hsame : forall b, b ∈ all_buckets -> files (setupfs self) b = files fs b).
  { intros b Hb. rewrite Hf by done. by rewrite decide_True by auto. }
  split; [by auto|]. intros Hh. split; try (rewrite Hsame by in_buckets); try apply Hh. done.
Qed.

Fixpoint accepted (ws : list Write) (r : NodeRecord) : bool :=
  match ws with
  | [] => true
  | w :: ws => applicable w r && accepted ws (effect w r)
  end.

Lemma writes_accepted ws : forall self r listed, holds (setupfs self) r listed -> Forall good_write ws ->
  if accepted ws r
  then exists self', perform_all ws self = Ok self' /\ fp_node_id self' = fp_node_id self
         /\ holds (setupfs self') (foldl (fun r w => effect w r) r ws) (listed || existsb sets_allowlist ws)
  else exists e, perform_all ws self = Err e.
Proof.
  induction ws as [|w ws IH]; intros self r listed Hh Hws.
  { cbn. rewrite orb_false_r. by exists self. }
  apply Forall_cons in Hws as [Hw Hws]. pose proof (write_accepted w self r listed Hh Hw) as Ha.
  unfold accepts in Ha. cbn [accepted foldl existsb]. unfold perform_all. cbn [foldM].
  destruct (applicable w r); cbn [andb].
  - destruct Ha as (self1 & -> & Hid & Hh1). rewrite Ok_bind, orb_assoc, <- Hid. by apply IH.
  - destruct Ha as (self1 & e & ->). by exists e.
Qed.

(** C22: the persister of the embedded signer keeps the record of its node.  Start it
    on a card that has no state yet and perform any writes.  If every write
    is accepted at its turn (a new node or channel is new, what is updated
    or deleted exists) they all succeed, and after a restart the persister
    reads exactly the record that the writes made: the node, the channels,
    the allowlist if one was written, and the chain tracker.  Otherwise the
    first one that is not accepted returns an error. *)
Theorem fat_persister_keeps_record {E} runpath nid fs ws (Hid : pubkey_from_str runpath = Some nid)
  (Hfresh : forall b, b ∈ all_buckets -> b ∉ dirs fs) (Hws : Forall good_write ws) :
  exists self, FatJsonPersister_new (E := E) runpath fs = Ok self
    /\ if accepted ws empty_record
       then exists self' self'', perform_all ws self = Ok self'
              /\ FatJsonPersister_new (E := E) runpath (setupfs self') = Ok self'' /\ fp_node_id self'' = nid
              /\ reads_back self'' (foldl (fun r w => effect w r) empty_record ws)
                   (existsb sets_allowlist ws)
       else exists e, perform_all ws self = Err e.
Proof.
  destruct (new_run (E := E) runpath nid fs Hid) as (self & Hnew & _ & Hd & Hf).
  pose proof (fresh_holds fs (setupfs self) Hd Hf Hfresh) as Hh.
  exists self. split; [done|]. pose proof (writes_accepted ws self _ _ Hh Hws) as Hw.
  destruct (accepted ws empty_record); [|done]. destruct Hw as (self' & Hp & _ & Hh').
  destruct (new_run (E := E) runpath nid (setupfs self') Hid) as (self'' & Hnew' & Hid' & _).
  exists self', self''. split; [done|]. split; [done|]. split; [done|].
  apply holds_reads. apply (restart_files _ _ _ _ _ Hnew'); [apply (h_dirs _ _ _ Hh')|done].
Qed.
End record.
