(* ===== verification/FatCrash.v ===== *)
(** * Interrupted writes (vls-signer-stm32/src/fat_json_persist.rs)

    The persister of FatPersist.v on a file system that stops after some number
    of operations: what a write that is interrupted between two of them leaves
    on the card, and what the persister makes of it after a restart.  The
    operations before the interruption have reached the card as a whole: an
    operation of which the card got only a part, and what the block cache of the
    card still held, are not modelled.  Then a file system in memory, JSON
    and hexadecimal digits, on which the theorems are applied. *)

From S2P Require Import Prelude Velocity Policy Order Extern Crypto Setup Tx Keys Allowlist Script.
From S2P Require Import Secrets Enforcement Validator NodeState Monitor Tracker Persist PersistSpec.
From S2P Require Import Client FatPersist.

(** ** A file system that stops *)

Record Crashing (F : Type) := { cr_fs : F; cr_ops : nat }.
Arguments cr_fs {F}.
Arguments cr_ops {F}.

Section crashing.
Context {F : Type} `{!FatFs F}.

(** An operation, if the file system still runs. *)
Definition spend {A} (m : F -> F * outcome FatError A) (s : Crashing F)
  : Crashing F * outcome FatError A :=
  match cr_ops s with
  | O => (s, Err (FatOther "interrupted"))
  | S n => ({| cr_fs := (m (cr_fs s)).1; cr_ops := n |}, (m (cr_fs s)).2)
  end.

Definition running {A} (m : F -> outcome FatError A) (s : Crashing F) : outcome FatError A :=
  match cr_ops s with
  | O => Err (FatOther "interrupted")
  | S _ => m (cr_fs s)
  end.

#[global] Instance crashing_fs : FatFs (Crashing F) := {
  File := File (F := F);
  fs_create_dir p := spend (fs_create_dir p);
  fs_open_dir p := running (fs_open_dir p);
  fs_dir_names p s := match cr_ops s with O => [] | S _ => fs_dir_names p (cr_fs s) end;
  fs_create_file p := spend (fs_create_file p);
  fs_open_file p := running (fs_open_file p);
  fs_file_size f s := fs_file_size f (cr_fs s);
  fs_read f n := running (fs_read f n);
  fs_write_all f v := spend (fs_write_all f v);
  fs_flush f := spend (fs_flush f);
  fs_rename b n1 n2 := spend (fs_rename b n1 n2);
  fs_remove p := spend (fs_remove p)
}.

Lemma fat_spend {A} (m : F -> F * outcome FatError A) fs fs' a n : m fs = (fs', Ok a) ->
  fat (spend m) {| cr_fs := fs; cr_ops := S n |} = ({| cr_fs := fs'; cr_ops := n |}, Ok a).
Proof. intros Hm. unfold fat, c_map_err, spend. cbn. by rewrite Hm. Qed.

Lemma fat_off {A} (m : F -> F * outcome FatError A) fs :
  fat (spend m) {| cr_fs := fs; cr_ops := 0 |}
  = ({| cr_fs := fs; cr_ops := 0 |}, Err (PersistInternal "interrupted")).
Proof. done. Qed.

Lemma ask_running {A} (m : F -> outcome FatError A) fs a n : m fs = Ok a ->
  fat_ask (running m) {| cr_fs := fs; cr_ops := S n |} = ({| cr_fs := fs; cr_ops := S n |}, Ok a).
Proof. intros Hm. unfold fat_ask, fat, c_map_err, running. cbn. by rewrite Hm. Qed.

Lemma ask_off {A} (m : F -> outcome FatError A) fs :
  fat_ask (running m) {| cr_fs := fs; cr_ops := 0 |}
  = ({| cr_fs := fs; cr_ops := 0 |}, Err (PersistInternal "interrupted")).
Proof. done. Qed.
End crashing.

(** ** An interrupted update *)

Section spending.
Context {F : Type} `{!FatFs F} (b key : string).

Lemma write_new_spend v f fs fs1 fs2 fs3 n :
  fs_create_file (file_path b (new_file_rel key)) fs = (fs1, Ok f) ->
  fs_write_all f v fs1 = (fs2, Ok tt) -> fs_flush f fs2 = (fs3, Ok tt) ->
  write_new_file b key v {| cr_fs := fs; cr_ops := 3 + n |} = ({| cr_fs := fs3; cr_ops := n |}, Ok tt).
Proof.
  intros H1 H2 H3. unfold write_new_file. refine (eq_trans (C_bind_run _ _ _ _ _ (fat_spend _ _ _ _ _ H1)) _).
  refine (eq_trans (C_bind_run _ _ _ _ _ (fat_spend _ _ _ _ _ H2)) _). exact (fat_spend _ _ _ _ _ H3).
Qed.

Lemma rename_spend n1 n2 fs fs' n : fs_open_dir b fs = Ok tt -> fs_rename b n1 n2 fs = (fs', Ok tt) ->
  (fat_ask (fs_open_dir b);; fat (fs_rename b n1 n2)) {| cr_fs := fs; cr_ops := S n |}
  = ({| cr_fs := fs'; cr_ops := n |}, Ok tt).
Proof.
  intros Ho Hr. refine (eq_trans (C_bind_run _ _ _ _ _ (ask_running _ _ _ n Ho)) _). exact (fat_spend _ _ _ _ _ Hr).
Qed.
End spending.

Section update.
Context {F : Type} `{!FatFs F} (dirs : F -> gset string) (files : F -> string -> gmap string bytes)
  (handle : File (F := F) -> string * string * nat) `{!FatLaws dirs files handle}.
Context (b key : string) (Hkey : plain_key key = true).
Notation cur := (cur_file_rel key).
Notation old := (old_file_rel key).
Notation new := (new_file_rel key).

(** The files of the bucket after [n] operations of the update from [x] to [v]. *)
Definition after_update (n : nat) (m : gmap string bytes) (v x : bytes) : gmap string bytes :=
  match n with
  | 0%nat => m
  | 1%nat => <[new := []]> m
  | 2%nat | 3%nat => <[new := v]> m
  | 4%nat => <[old := x]> (<[new := v]> (delete cur m))
  | 5%nat => <[old := x]> (<[cur := v]> m)
  | _ => <[cur := v]> m
  end.

Lemma after_update_keeps n m v x : m !! cur = Some x ->
  after_update n m v x !! cur = Some x \/ after_update n m v x !! old = Some x
  \/ after_update n m v x !! cur = Some v.
Proof.
  intros Hm. destruct (names_distinct key key) as (Hco & Hcn & Hon).
  destruct n as [|[|[|[|[|[|n]]]]]]; cbn.
  - by left.
  - left. by rewrite lookup_insert_ne.
  - left. by rewrite lookup_insert_ne.
  - left. by rewrite lookup_insert_ne.
  - right. left. by rewrite lookup_insert_eq.
  - right. left. by rewrite lookup_insert_eq.
  - right. right. by rewrite lookup_insert_eq.
Qed.

Lemma after_update_leftover n m v x : (1 <= n <= 5)%nat ->
  is_Some (after_update n m v x !! new) \/ is_Some (after_update n m v x !! old).
Proof.
  intros Hn. do 6 (destruct n as [|n]; cbn; [first [lia
    |by left; rewrite lookup_insert_eq; eexists|by right; rewrite lookup_insert_eq; eexists]|]). lia.
Qed.

Lemma update_interrupted fs v x n : b ∈ dirs fs -> tidy files b key fs -> files fs b !! cur = Some x ->
  exists fs' k r, update_value b key v {| cr_fs := fs; cr_ops := n |} = ({| cr_fs := fs'; cr_ops := k |}, r)
    /\ same_but dirs files b fs fs' (after_update n (files fs b) v x)
    /\ r = if (6 <=? n)%nat then Ok tt else Err (PersistInternal "interrupted").
Proof.
  intros Hb [Hold Hnew] Hcur.
  destruct (write_new_path dirs files handle b key Hkey fs v Hb)
    as (f & fs1 & fs2 & fs3 & H1 & H2 & H3 & Hs1 & Hs2 & Hs3).
  destruct (update_path dirs files handle b key Hkey fs v x Hb Hcur Hold)
    as (fs3' & fs4 & fs5 & fs6 & H3' & H4 & H5 & H6 & _ & Hs4 & Hs5 & Hs6).
  assert (fs3' = fs3) as ->.
  { unfold write_new_file in H3'. erewrite C_bind_run in H3' by (apply fat_Ok; exact H1).
    erewrite C_bind_run in H3' by (apply fat_Ok; exact H2). rewrite (fat_Ok _ _ _ _ H3) in H3'.
    by injection H3'. }
  rewrite Hnew in *. cbn in Hs1, Hs2, Hs3, Hs4, Hs5, Hs6.
  rewrite over_nil in Hs2, Hs3, Hs4, Hs5, Hs6. rewrite (delete_id _ _ Hnew) in Hs5, Hs6.
  assert (Hd3 : b ∈ dirs fs3) by by eapply same_dir. assert (Hd4 : b ∈ dirs fs4) by by eapply same_dir.
  unfold update_value. destruct n as [|[|[|n]]].
  - exists fs, 0%nat, (Err (PersistInternal "interrupted")). split; [|done].
    exact (C_bind_fails _ _ _ _ _ (C_bind_fails _ _ _ _ _ (fat_off _ _))).
  - exists fs1, 0%nat, (Err (PersistInternal "interrupted")). split; [|done]. apply C_bind_fails.
    refine (eq_trans (C_bind_run _ _ _ _ _ (fat_spend _ _ _ _ _ H1)) _).
    exact (C_bind_fails _ _ _ _ _ (fat_off _ _)).
  - exists fs2, 0%nat, (Err (PersistInternal "interrupted")). split; [|done]. apply C_bind_fails.
    refine (eq_trans (C_bind_run _ _ _ _ _ (fat_spend _ _ _ _ _ H1)) _).
    refine (eq_trans (C_bind_run _ _ _ _ _ (fat_spend _ _ _ _ _ H2)) _). exact (fat_off _ _).
  - pose proof (write_new_spend b key v f fs fs1 fs2 fs3 n H1 H2 H3) as Hw.
    destruct n as [|n].
    { eexists _, _, _. split; [refine (eq_trans (C_bind_run _ _ _ _ _ Hw) _);
        exact (C_bind_fails _ _ _ _ _ (C_bind_fails _ _ _ _ _ (ask_off _ _)))|done]. }
    pose proof (rename_spend b cur old fs3 fs4 n (law_open_dir _ _ Hd3) H4) as Hr.
    destruct n as [|n].
    { eexists _, _, _. split; [refine (eq_trans (C_bind_run _ _ _ _ _ Hw) _);
        refine (eq_trans (C_bind_run _ _ _ _ _ Hr) _);
        exact (C_bind_fails _ _ _ _ _ (C_bind_fails _ _ _ _ _ (ask_off _ _)))|done]. }
    pose proof (rename_spend b new cur fs4 fs5 n (law_open_dir _ _ Hd4) H5) as Hp.
    destruct n as [|n]; (eexists _, _, _; split;
      [refine (eq_trans (C_bind_run _ _ _ _ _ Hw) _); refine (eq_trans (C_bind_run _ _ _ _ _ Hr) _);
       refine (eq_trans (C_bind_run _ _ _ _ _ Hp) _)|]).
    + exact (fat_off _ _).
    + done.
    + exact (fat_spend _ _ _ _ _ H6).
    + done.
Qed.
End update.

(** ** The persister after an interrupted update *)

Section persister.
Context `{L : Lib, CL : ChainLib, SL : SerLib, HL : HexLib, JL : JsonLib, AL : AddressLib}.
Context `{XL : !HexLaws, XN : !HexNames, JW : !JsonLaws}.
Context {F : Type} `{!FatFs F} (dirs : F -> gset string) (files : F -> string -> gmap string bytes)
  (handle : File (F := F) -> string * string * nat) `{!FatLaws dirs files handle}.
Notation holds := (holds dirs files).
Implicit Types self : FatJsonPersister F.

(** The persister on a file system that stops after [n] operations. *)
Definition cut (n : nat) self : FatJsonPersister (Crashing F) :=
  {| setupfs := {| cr_fs := setupfs self; cr_ops := n |}; fp_node_id := fp_node_id self |}.

Lemma bad_leftover key : plain_key key = true -> bad_name (new_file_rel key) = true /\ bad_name (old_file_rel key) = true.
Proof.
  intros Hk. destruct (plain_not_dot _ (plain_new key Hk)) as [Hn1 Hn2].
  destruct (plain_not_dot _ (plain_old key Hk)) as [Ho1 Ho2].
  unfold bad_name. rewrite new_not_json, old_not_json. by rewrite !bool_decide_eq_false_2.
Qed.

(** A restart with a left-over file among the channels. *)
Lemma leftover_blocks self n nid : channel_bucket_path ∈ dirs (setupfs self) ->
  is_Some (files (setupfs self) channel_bucket_path !! n) -> bad_name n = true ->
  persist_get_node_channels self nid = Err (PersistInternal "list keys: bad file: {}").
Proof.
  intros Hd Hs Hb. cbn. unfold fat_get_node_channels.
  by rewrite (list_keys_bad dirs files handle _ _ n Hd Hs Hb).
Qed.

(** C40: an update of a channel that is interrupted between two operations of the
    file system keeps the channel on the card and makes the persister useless.
    The operations before the interruption are taken to have reached the card,
    each as a whole (half of an operation, and a block that only the cache
    held, are not considered).  Wherever the update stops, the old entry or the
    new one is in the current file of the channel, or the old one in the file
    that is to be removed.  If no operation was done the restarted
    persister reads the old record, and if all were done the new one; after
    any other number of operations it cannot read its channels at all,
    because of a file that is left. *)
Theorem interrupted_channel_update {E} self r listed nid chan e n runpath self'
  (Hheld : holds (setupfs self) r listed) (Hid : good_id (id0 chan)) (He : r_channels r !! id0 chan = Some e)
  (Hrestart : FatJsonPersister_new (E := E) runpath
                (cr_fs (setupfs (persist_update_channel (cut n self) nid chan).1)) = Ok self') :
  let m := files (setupfs self') channel_bucket_path in let name := hex_encode (id0 chan) in
  (m !! cur_file_rel name = Some (json_channel e) \/ m !! old_file_rel name = Some (json_channel e)
   \/ m !! cur_file_rel name = Some (json_channel (channel_entry chan)))
  /\ (n = 0%nat -> reads_back self' r listed)
  /\ ((1 <= n <= 5)%nat -> forall nid',
        persist_get_node_channels self' nid' = Err (PersistInternal "list keys: bad file: {}"))
  /\ ((6 <= n)%nat -> reads_back self' (effect (UpdateChannel nid chan) r) listed).
Proof.
  pose proof (channel_cur dirs files _ _ _ _ Hheld Hid) as Hcur. rewrite He in Hcur.
  pose proof (in_dirs dirs files _ _ _ channel_bucket_path Hheld eq_refl) as Hd.
  pose proof (law_hex_plain _ Hid) as Hk. pose proof (h_ids _ _ _ _ _ Hheld) as Hg.
  destruct (update_interrupted dirs files handle channel_bucket_path (hex_encode (id0 chan)) Hk (setupfs self)
    (json_channel (channel_entry chan)) (json_channel e) n Hd (tidy_channel dirs files _ _ _ _ Hheld) Hcur)
    as (fs' & k & res & Hu & Hs & _).
  assert (Hfs : cr_fs (setupfs (persist_update_channel (cut n self) nid chan).1) = fs').
  { cbn. unfold fat_update_channel, fat_write. cbn [setupfs cut]. by rewrite Hu. }
  rewrite Hfs in Hrestart. clear Hu Hfs.
  assert (Hdirs : forall b, b ∈ all_buckets -> b ∈ dirs fs').
  { intros b Hb. rewrite (proj1 Hs). by apply (h_dirs _ _ _ _ _ Hheld). }
  pose proof (fun r l => restart_files dirs files handle runpath fs' self' r l Hrestart Hdirs) as Hr.
  destruct (proj1 (Hr r listed) channel_bucket_path) as [Hd' Hf]; [by repeat constructor|].
  intros m name. destruct (names_distinct name name) as (Hco & Hcn & Hon).
  assert (Hm : m = after_update name n (files (setupfs self) channel_bucket_path)
    (json_channel (channel_entry chan)) (json_channel e)) by (unfold m; rewrite Hf; apply Hs).
  destruct (bad_leftover name Hk) as [Hbn Hbo].
  split; [rewrite Hm; by apply after_update_keeps|]. split; [|split].
  - intros ->. apply (holds_reads dirs files handle), (Hr r listed).
    replace r with (with_channels r (r_channels r)) by by destruct r.
    apply (hold_channels _ _ _ _ _ _ _ _ Hheld Hs); [apply Hheld|done].
  - intros Hn nid'. destruct (after_update_leftover name n (files (setupfs self) channel_bucket_path)
      (json_channel (channel_entry chan)) (json_channel e) Hn) as [Hl|Hl]; rewrite <- Hm in Hl;
      by eapply leftover_blocks.
  - intros Hn. apply (holds_reads dirs files handle), Hr.
    apply (hold_channels _ _ _ _ _ _ _ _ Hheld Hs); [|by apply map_Forall_insert_2].
    rewrite chan_files_insert, <- (h_chans _ _ _ _ _ Hheld) by done.
    do 6 (destruct n as [|n]; [lia|]). done.
Qed.
End persister.

(** ** Other leftovers *)

Section leftovers.
Context {F : Type} `{!FatFs F} (dirs : F -> gset string) (files : F -> string -> gmap string bytes)
  (handle : File (F := F) -> string * string * nat) `{!FatLaws dirs files handle}.
Context (b key : string) (Hkey : plain_key key = true) (fs : F) (Hb : b ∈ dirs fs).
Context (m : gmap string bytes) (v x : bytes) (Hcur : m !! cur_file_rel key = Some x)
  (Hold : m !! old_file_rel key = None) (Hnew : m !! new_file_rel key = None).

(** Between the two renames the value is not found. *)
Lemma lost_between_renames : files fs b = after_update key 4 m v x ->
  read_value b key fs = Err (NotFound "NotFound").
Proof.
  intros Hf. destruct (names_distinct key key) as (Hco & Hcn & _).
  apply (read_value_missing dirs files handle b key Hkey fs Hb). rewrite Hf. cbn.
  by rewrite !lookup_insert_ne, lookup_delete_eq.
Qed.

(** Before the old file is removed no other update can follow. *)
Lemma stuck_after_renames v' : files fs b = after_update key 5 m v x ->
  exists fs', update_value b key v' fs = (fs', Err (AlreadyExists "AlreadyExists")).
Proof.
  intros Hf. destruct (names_distinct key key) as (Hco & Hcn & Hon).
  destruct (write_new_ok dirs files handle b key Hkey fs v' Hb) as (fs1 & H1 & Hs1).
  pose proof (proj1 (proj2 Hs1)) as Hm1. rewrite Hf in Hm1.
  destruct (rename_run dirs files handle b fs1 (cur_file_rel key) (old_file_rel key))
    as (fs2 & r & m' & H2 & _ & Hc);
    [by eapply same_dir|by apply plain_cur|by apply plain_old|done|].
  rewrite Hm1 in Hc. cbn in Hc.
  rewrite !lookup_insert_ne, lookup_insert_eq, (lookup_insert_ne _ (new_file_rel key)), lookup_insert_eq in Hc by done.
  destruct Hc as [-> _]. exists fs2. unfold update_value.
  rewrite (C_bind_run _ _ _ _ _ H1). exact (C_bind_fails _ _ _ _ _ H2).
Qed.

(** A new file that is left is written over, and what it has beyond the next
    value becomes the end of that value. *)
Lemma stale_tail v' : files fs b = after_update key 3 m v x ->
  exists fs', update_value b key v' fs = (fs', Ok tt)
    /\ files fs' b !! cur_file_rel key = Some (v' ++ drop (length v') v).
Proof.
  intros Hf. destruct (names_distinct key key) as (Hco & Hcn & Hon).
  destruct (update_value_over dirs files handle b key Hkey fs v' x Hb) as (fs' & Hu & Hs).
  - rewrite Hf. cbn. by rewrite lookup_insert_ne.
  - rewrite Hf. cbn. by rewrite lookup_insert_ne.
  - exists fs'. split; [done|]. rewrite (proj1 (proj2 Hs)), lookup_insert_eq, Hf. cbn.
    by rewrite lookup_insert_eq.
Qed.
End leftovers.
