(* ===== verification/FatExample.v ===== *)
(** * Instances for the persister of the embedded signer

    A FAT file system in memory, hexadecimal digits and a serialization of the
    entries for which what FatPersist.v relies on is proved, and the theorems
    of FatPersist.v and FatCrash.v applied to them. *)

From S2P Require Import Prelude Velocity Policy Order Extern Crypto Setup Tx Keys Allowlist Script.
From S2P Require Import Secrets Enforcement Validator NodeState Monitor Tracker Persist PersistSpec Node.
From S2P Require Import Client FatPersist FatCrash.

(** ** A file system in memory *)

Notation MemFs := (gmap string (gmap string bytes)).

Definition slash : Ascii.ascii := Ascii.ascii_of_nat 47.

(** The directory and the name of a path. *)
Fixpoint split_path (s : string) : option (string * string) :=
  match s with
  | EmptyString => None
  | String c s =>
      match split_path s with
      | Some (d, n) => Some (String c d, n)
      | None => if Ascii.eqb c slash then Some (EmptyString, s) else None
      end
  end.

(** The files of the directory of a path, and the name. *)
Definition mem_lookup (path : string) (fs : MemFs) : option (string * string * gmap string bytes) :=
  '(d, n) ← split_path path; (fun m => (d, n, m)) <$> fs !! d.

Definition mem_dirs (fs : MemFs) : gset string := dom fs.
Definition mem_files (fs : MemFs) (b : string) : gmap string bytes := default ∅ (fs !! b).

#[local] Instance mem_fs : FatFs MemFs := {
  File := (string * string * nat)%type;
  fs_create_dir p fs := (<[p := default ∅ (fs !! p)]> fs, Ok tt);
  fs_open_dir p fs := if bool_decide (is_Some (fs !! p)) then Ok tt else Err FatNotFound;
  fs_dir_names p fs := Ok <$> ("." :: ".." :: (map_to_list (default ∅ (fs !! p))).*1);
  fs_create_file p fs :=
    match mem_lookup p fs with
    | Some (d, n, m) => (<[d := <[n := default [] (m !! n)]> m]> fs, Ok (d, n, 0%nat))
    | None => (fs, Err FatNotFound)
    end;
  fs_open_file p fs :=
    match mem_lookup p fs with
    | Some (d, n, m) => if bool_decide (is_Some (m !! n)) then Ok (d, n, 0%nat) else Err FatNotFound
    | None => Err FatNotFound
    end;
  fs_file_size f fs := length (default [] (mem_files fs f.1.1 !! f.1.2));
  fs_read f k fs :=
    match mem_files fs f.1.1 !! f.1.2 with
    | Some x => let got := take k (drop f.2 x) in Ok ((f.1, (f.2 + length got)%nat), got)
    | None => Err FatNotFound
    end;
  fs_write_all f v fs :=
    match fs !! f.1.1 with
    | Some m => (<[f.1.1 := <[f.1.2 := take f.2 (default [] (m !! f.1.2)) ++ v
                               ++ drop (f.2 + length v) (default [] (m !! f.1.2))]> m]> fs, Ok tt)
    | None => (fs, Err FatNotFound)
    end;
  fs_flush f fs := (fs, Ok tt);
  fs_rename b n1 n2 fs :=
    match fs !! b with
    | Some m =>
        match m !! n1, m !! n2 with
        | None, _ => (fs, Err FatNotFound)
        | Some _, Some _ => (fs, Err FatAlreadyExists)
        | Some x, None => (<[b := <[n2 := x]> (delete n1 m)]> fs, Ok tt)
        end
    | None => (fs, Err FatNotFound)
    end;
  fs_remove p fs :=
    match mem_lookup p fs with
    | Some (d, n, m) =>
        if bool_decide (is_Some (m !! n)) then (<[d := delete n m]> fs, Ok tt) else (fs, Err FatNotFound)
    | None => (fs, Err FatNotFound)
    end
}.

Lemma mem_dirs_elem (fs : MemFs) b : b ∈ mem_dirs fs <-> is_Some (fs !! b).
Proof. apply elem_of_dom. Qed.

Definition no_slash (s : string) : bool := forallb (fun c => negb (Ascii.eqb c slash)) (String.list_ascii_of_string s).

Lemma split_no_slash n : no_slash n = true -> split_path n = None.
Proof.
  induction n as [|c n IH]; [done|]. cbn. intros [Hc Hn]%andb_true_iff. rewrite IH by done.
  by destruct (Ascii.eqb c slash).
Qed.

Lemma split_file_path b n : no_slash n = true -> split_path (file_path b n) = Some (b, n).
Proof.
  intros Hn. unfold file_path. induction b as [|c b IH].
  - change (EmptyString +:+ "/" +:+ n) with (String slash n). cbn [split_path]. by rewrite split_no_slash.
  - change (String c b +:+ ?x) with (String c (b +:+ x)). cbn [split_path]. by rewrite IH.
Qed.

Lemma no_slash_append a b : no_slash (a +:+ b) = no_slash a && no_slash b.
Proof.
  induction a as [|c a IH]; [done|]. change (String c a +:+ b) with (String c (a +:+ b)).
  unfold no_slash in *. cbn [String.list_ascii_of_string forallb]. rewrite IH. apply andb_assoc.
Qed.

Lemma plain_no_slash n : plain_name n -> no_slash n = true.
Proof.
  intros (key & ext & Hk & Hext & ->). rewrite no_slash_append. apply andb_true_iff. split.
  - unfold plain_key in Hk. apply andb_true_iff in Hk as [[Hk _]%andb_true_iff _].
    unfold no_slash. rewrite forallb_forall in Hk |- *. intros c Hc. specialize (Hk c Hc).
    destruct (Ascii.eqb_spec c slash); [by subst|done].
  - repeat (apply elem_of_cons in Hext as [->|Hext]; [done|]). by apply elem_of_nil in Hext.
Qed.

Lemma mem_lookup_path fs b n : b ∈ mem_dirs fs -> plain_name n ->
  mem_lookup (file_path b n) fs = Some (b, n, mem_files fs b) /\ fs !! b = Some (mem_files fs b).
Proof.
  intros [m Hm]%mem_dirs_elem Hn%plain_no_slash. unfold mem_lookup, mem_files.
  rewrite split_file_path by done. cbn. by rewrite Hm.
Qed.

Lemma mem_same fs b m : b ∈ mem_dirs fs -> same_but mem_dirs mem_files b fs (<[b := m]> fs) m.
Proof.
  intros Hb. unfold same_but, mem_dirs, mem_files. split; [|split].
  - rewrite dom_insert_L. set_solver.
  - by rewrite lookup_insert_eq.
  - intros o _ Ho. by rewrite lookup_insert_ne.
Qed.

Lemma mem_unchanged fs b : same_but mem_dirs mem_files b fs fs (mem_files fs b).
Proof. done. Qed.

Lemma mem_create_dir_law (fs : MemFs) p o :
  mem_files (<[p := default ∅ (fs !! p)]> fs) o
  = if decide (o = p /\ p ∉ mem_dirs fs) then ∅ else mem_files fs o.
Proof.
  unfold mem_files, mem_dirs. rewrite lookup_insert. destruct (decide (p = o)) as [->|Hne].
  - case_decide as Hd; [|done]. destruct Hd as [_ Hd%not_elem_of_dom]. by rewrite Hd.
  - rewrite decide_False by naive_solver. done.
Qed.

Definition mem_handle (f : File (F := MemFs)) : string * string * nat := f.

#[local] Instance mem_laws : FatLaws mem_dirs mem_files mem_handle.
Proof.
  split.
  - intros fs p _. eexists. split; [done|]. split; [apply dom_insert_L|]. intros o. apply mem_create_dir_law.
  - intros fs b Hb%mem_dirs_elem. cbn. by rewrite bool_decide_true.
  - intros fs b _. by eexists.
  - intros fs b n Hb Hn. destruct (mem_lookup_path fs b n Hb Hn) as [Hl _]. cbn. rewrite Hl.
    eexists _, _. split; [done|]. split; [done|]. by apply mem_same.
  - intros fs b n Hb Hn. destruct (mem_lookup_path fs b n Hb Hn) as [Hl Hf]. cbn. rewrite Hl.
    destruct (mem_files fs b !! n) as [x|] eqn:Hx; cbn.
    + eexists. split; [done|]. split; [done|]. cbn. by rewrite Hx.
    + done.
  - intros fs [[b' n'] p'] b n p x k [= -> -> ->] Hx Hk. cbn.
    rewrite Hx.
    eexists _, _. split; [done|]. split; [done|]. rewrite length_take.
    split; [|split; [lia|]].
    + destruct (decide (k <= length (drop p x))%nat); [by rewrite Nat.min_l|].
      rewrite Nat.min_r, !take_ge by lia. done.
    + intros Hnil. destruct (drop p x); [done|]. destruct k; [lia|done].
  - intros fs [[b' n'] p'] b n x v [= -> -> ->] Hb Hx. cbn. apply mem_dirs_elem in Hb as Hb'. destruct Hb' as [m Hm].
    rewrite Hm. eexists. split; [done|]. unfold mem_files in Hx. rewrite Hm in Hx. cbn in Hx.
    assert (Hf : mem_files fs b = m) by (unfold mem_files; by rewrite Hm). rewrite Hx, Hf. cbn. by apply mem_same.
  - intros fs f b n p _ _. by eexists.
  - intros fs b n1 n2 Hb _ _ _. apply mem_dirs_elem in Hb as Hb'. destruct Hb' as [m Hm].
    assert (Hf : mem_files fs b = m) by (unfold mem_files; by rewrite Hm). cbn. rewrite Hm, Hf.
    destruct (m !! n1), (m !! n2); eexists _, _, _; (split; [done|]); (split; [|done]);
      rewrite <- ?Hf at 1; first [apply mem_unchanged|by apply mem_same].
  - intros fs b n Hb Hn. destruct (mem_lookup_path fs b n Hb Hn) as [Hl _]. cbn. rewrite Hl.
    destruct (mem_files fs b !! n) eqn:Hx; cbn; eexists _, _, _; (split; [done|]); (split; [|done]);
      [by apply mem_same|apply mem_unchanged].
Qed.

(** ** Hexadecimal digits *)

Definition hex_digit (n : Z) : Ascii.ascii :=
  Ascii.ascii_of_N (Z.to_N (if n <? 10 then 48 + n else 87 + n)).
Definition digit_value (c : Ascii.ascii) : option Z :=
  let n := Z.of_N (Ascii.N_of_ascii c) in
  if (48 <=? n) && (n <=? 57) then Some (n - 48)
  else if (97 <=? n) && (n <=? 102) then Some (n - 87) else None.

Fixpoint hex_of (b : bytes) : string :=
  match b with
  | [] => EmptyString
  | x :: b => String (hex_digit (x / 16)) (String (hex_digit (x mod 16)) (hex_of b))
  end.
Fixpoint of_hex (s : string) : option bytes :=
  match s with
  | EmptyString => Some []
  | String c (String d s) =>
      x ← digit_value c; y ← digit_value d; b ← of_hex s; Some (16 * x + y :: b)
  | _ => None
  end.

#[local] Instance digits_hex : HexLib := {| hex_encode := hex_of; hex_decode := of_hex |}.

Lemma digit_cases n : 0 <= n < 16 -> digit_value (hex_digit n) = Some n /\ key_char (hex_digit n) = true.
Proof.
  intros Hn. replace n with (Z.of_nat (Z.to_nat n)) by lia. assert (Hk : (Z.to_nat n < 16)%nat) by lia.
  revert Hk. generalize (Z.to_nat n) as k. clear. intros k Hk.
  do 16 (destruct k as [|k]; [by vm_compute|]). lia.
Qed.

Lemma hex_of_decode b : Forall ByteUtils.is_byte b -> of_hex (hex_of b) = Some b.
Proof.
  induction 1 as [|x b Hx _ IH]; [done|]. cbn [hex_of of_hex]. unfold ByteUtils.is_byte in Hx.
  pose proof (Z.mod_pos_bound x 16 ltac:(lia)). pose proof (Z.div_mod x 16 ltac:(lia)).
  rewrite (proj1 (digit_cases (x / 16) ltac:(lia))), (proj1 (digit_cases (x mod 16) ltac:(lia))). cbn.
  rewrite IH. cbn. do 2 f_equal. lia.
Qed.

#[local] Instance digits_laws : HexLaws.
Proof. exact hex_of_decode. Qed.

#[local] Instance digits_names : HexNames.
Proof.
  intros id [Hb Hl]. cbn.
  assert (H : forallb key_char (String.list_ascii_of_string (hex_of id)) = true
    /\ String.length (hex_of id) = (2 * length id)%nat).
  { clear Hl. induction Hb as [|x b Hx _ [IH1 IH2]]; [done|]. unfold ByteUtils.is_byte in Hx.
    pose proof (Z.mod_pos_bound x 16 ltac:(lia)). pose proof (Z.div_mod x 16 ltac:(lia)).
    cbn [hex_of String.list_ascii_of_string forallb String.length length].
    rewrite (proj2 (digit_cases (x / 16) ltac:(lia))), (proj2 (digit_cases (x mod 16) ltac:(lia))), IH1, IH2.
    split; [done|lia]. }
  destruct H as [H1 H2]. unfold plain_key. rewrite H1, H2, !(proj2 (Nat.leb_le _ _)); [done|lia|lia].
Qed.

(** ** A serialization of the entries *)

(** A number as text of two letters. *)
Fixpoint text (p : positive) : bytes :=
  match p with
  | xH => []
  | xO p => 48 :: text p
  | xI p => 49 :: text p
  end.
Fixpoint untext (b : bytes) : positive :=
  match b with
  | [] => xH
  | c :: b => if c =? 48 then xO (untext b) else xI (untext b)
  end.

Lemma untext_text p : untext (text p) = p.
Proof. induction p as [p IH|p IH|]; cbn; by rewrite ?IH. Qed.

Lemma text_utf8 p : is_utf8 (text p).
Proof.
  unfold is_utf8, from_utf8_lossy. induction p as [p IH|p IH|]; [| |done].
  - change (49 :: lossy (length (text p)) (text p) = 49 :: text p). by rewrite IH.
  - change (48 :: lossy (length (text p)) (text p) = 48 :: text p). by rewrite IH.
Qed.

Definition to_text {A} `{Countable A} (a : A) : bytes := text (encode a).
Definition of_text {A} `{Countable A} (b : bytes) : option A := decode (untext b).

Lemma of_to_text {A} `{Countable A} (a : A) : of_text (to_text a) = Some a.
Proof. unfold of_text, to_text. by rewrite untext_text, decode_encode. Qed.

Definition payment_tuple (p : PaymentState) :=
  (invoice_hash p, invoice_amount_msat p, payee p, ps_duration_since_epoch p, ps_expiry_duration p,
   ps_is_fulfilled p, match payment_type p with Invoice => true | Keysend => false end).
Definition tuple_payment t : PaymentState :=
  let '(h, a, p, d, e, f, k) := t in
  {| invoice_hash := h; invoice_amount_msat := a; payee := p; ps_duration_since_epoch := d;
     ps_expiry_duration := e; ps_is_fulfilled := f; payment_type := if (k : bool) then Invoice else Keysend |}.
Definition control_tuple (v : VelocityControl) := (start_sec v, bucket_interval v, buckets v, limit v).
Definition tuple_control t : VelocityControl :=
  let '(s, i, b, l) := t in {| start_sec := s; bucket_interval := i; buckets := b; limit := l |}.
Definition state_tuple (s : NodeStateEntry) :=
  (prod_map id payment_tuple <$> nse_invoices s, prod_map id payment_tuple <$> nse_issued_invoices s,
   control_tuple (nse_velocity_control s), control_tuple (nse_fee_velocity_control s), nse_preimages s).
Definition tuple_state t : NodeStateEntry :=
  let '(i, j, v, w, p) := t in
  {| nse_invoices := prod_map id tuple_payment <$> i; nse_issued_invoices := prod_map id tuple_payment <$> j;
     nse_velocity_control := tuple_control v; nse_fee_velocity_control := tuple_control w; nse_preimages := p |}.

Lemma state_tuple_inv s : tuple_state (state_tuple s) = s.
Proof.
  assert (Hp : forall l : list (bytes * PaymentState),
    prod_map id tuple_payment <$> (prod_map id payment_tuple <$> l) = l).
  { intros l. rewrite <- list_fmap_compose. rewrite <- (list_fmap_id l) at 2. apply list_fmap_ext.
    intros i [h [? ? ? ? ? ? []]] _; done. }
  destruct s as [i j [] [] p]. unfold state_tuple, tuple_state. cbn. by rewrite !Hp.
Qed.

Definition htlc_tuple (h : HTLCInfo2) := (value_sat h, payment_hash h, cltv_expiry h).
Definition tuple_htlc t : HTLCInfo2 :=
  let '(v, p, c) := t in {| value_sat := v; payment_hash := p; cltv_expiry := c |}.
Definition info_tuple (i : CommitmentInfo2) :=
  (is_counterparty_broadcaster i, to_countersigner_pubkey i, to_countersigner_value_sat i,
   revocation_pubkey i, to_broadcaster_delayed_pubkey i, to_broadcaster_value_sat i, to_self_delay i,
   htlc_tuple <$> offered_htlcs i, htlc_tuple <$> received_htlcs i, feerate_per_kw i).
Definition tuple_info t : CommitmentInfo2 :=
  let '(a, b, c, d, e, f, g, h, i, j) := t in
  {| is_counterparty_broadcaster := a; to_countersigner_pubkey := b; to_countersigner_value_sat := c;
     revocation_pubkey := d; to_broadcaster_delayed_pubkey := e; to_broadcaster_value_sat := f;
     to_self_delay := g; offered_htlcs := tuple_htlc <$> h; received_htlcs := tuple_htlc <$> i;
     feerate_per_kw := j |}.

Lemma info_tuple_inv i : tuple_info (info_tuple i) = i.
Proof.
  assert (Hh : forall l : list HTLCInfo2, tuple_htlc <$> (htlc_tuple <$> l) = l).
  { intros l. rewrite <- list_fmap_compose. rewrite <- (list_fmap_id l) at 2. apply list_fmap_ext.
    by intros k [] _. }
  destruct i. unfold info_tuple, tuple_info. cbn. by rewrite !Hh.
Qed.

Definition enforcement_tuple (s : EnforcementState) :=
  (next_holder_commit_num s, next_counterparty_commit_num s, next_counterparty_revoke_num s,
   current_counterparty_point s, previous_counterparty_point s, info_tuple <$> current_holder_commit_info s,
   current_counterparty_signatures s, info_tuple <$> current_counterparty_commit_info s,
   info_tuple <$> previous_counterparty_commit_info s, channel_closed s, initial_holder_value s,
   old_secrets <$> counterparty_secrets s).
Definition tuple_enforcement t : EnforcementState :=
  let '(a, b, c, d, e, f, g, h, i, j, k, l) := t in
  {| next_holder_commit_num := a; next_counterparty_commit_num := b; next_counterparty_revoke_num := c;
     current_counterparty_point := d; previous_counterparty_point := e;
     current_holder_commit_info := tuple_info <$> f; current_counterparty_signatures := g;
     current_counterparty_commit_info := tuple_info <$> h;
     previous_counterparty_commit_info := tuple_info <$> i; channel_closed := j; initial_holder_value := k;
     counterparty_secrets := Build_CounterpartyCommitmentSecrets <$> l |}.

Lemma enforcement_tuple_inv s : tuple_enforcement (enforcement_tuple s) = s.
Proof.
  assert (Hi : forall o : option CommitmentInfo2, tuple_info <$> (info_tuple <$> o) = o)
    by (intros [i|]; [exact (f_equal Some (info_tuple_inv i))|done]).
  destruct s as [? ? ? ? ? ? ? ? ? ? ? [[]|]]; unfold enforcement_tuple, tuple_enforcement; cbn; by rewrite !Hi.
Qed.

Definition points_tuple (p : ChannelPublicKeys) :=
  (funding_pubkey p, revocation_basepoint p, payment_point p, delayed_payment_basepoint p, htlc_basepoint p).
Definition tuple_points t : ChannelPublicKeys :=
  let '(a, b, c, d, e) := t in
  {| funding_pubkey := a; revocation_basepoint := b; payment_point := c; delayed_payment_basepoint := d;
     htlc_basepoint := e |}.
Definition setup_tuple (s : ChannelSetup) :=
  (is_outbound s, channel_value_sat s, push_value_msat s, Setup.funding_outpoint s,
   holder_selected_contest_delay s, holder_shutdown_script s, points_tuple (counterparty_points s),
   counterparty_selected_contest_delay s, counterparty_shutdown_script s,
   match commitment_type s with Legacy => 0 | StaticRemoteKey => 1 | Anchors => 2 | AnchorsZeroFeeHtlc => 3 end).
Definition tuple_setup t : ChannelSetup :=
  let '(a, b, c, d, e, f, g, h, i, j) := t in
  {| is_outbound := a; channel_value_sat := b; push_value_msat := c; Setup.funding_outpoint := d;
     holder_selected_contest_delay := e; holder_shutdown_script := f; counterparty_points := tuple_points g;
     counterparty_selected_contest_delay := h; counterparty_shutdown_script := i;
     commitment_type := match j with 0 => Legacy | 1 => StaticRemoteKey | 2 => Anchors
                                   | _ => AnchorsZeroFeeHtlc end |}.

Lemma setup_tuple_inv s : tuple_setup (setup_tuple s) = s.
Proof. by destruct s as [? ? ? ? ? ? [] ? ? []]. Qed.

Definition channel_tuple (e : ChannelEntry) :=
  (channel_value_satoshis e, setup_tuple <$> channel_setup e, ce_id e,
   enforcement_tuple (ce_enforcement_state e), ce_blockheight e).
Definition tuple_channel t : ChannelEntry :=
  let '(a, b, c, d, e) := t in
  {| channel_value_satoshis := a; channel_setup := tuple_setup <$> b; ce_id := c;
     ce_enforcement_state := tuple_enforcement d; ce_blockheight := e |}.

Lemma channel_tuple_inv e : tuple_channel (channel_tuple e) = e.
Proof.
  destruct e as [v o id s h]. unfold channel_tuple, tuple_channel. cbn [channel_value_satoshis channel_setup ce_id
    ce_enforcement_state ce_blockheight]. rewrite enforcement_tuple_inv. f_equal. destruct o as [x|]; [|done].
  exact (f_equal Some (setup_tuple_inv x)).
Qed.

(** The decode state of a monitor is left out. *)
Definition monitor_tuple (s : Monitor.State) :=
  (Monitor.height s, Monitor.funding_txids s, Monitor.funding_vouts s, Monitor.funding_inputs s,
   Monitor.funding_height s, Monitor.funding_outpoint s, Monitor.funding_double_spent_height s,
   Monitor.closing_height s, Monitor.saw_block s).
Definition tuple_monitor t : Monitor.State :=
  let '(a, b, c, d, e, f, g, h, i) := t in
  {| Monitor.height := a; Monitor.funding_txids := b; Monitor.funding_vouts := c; Monitor.funding_inputs := d;
     Monitor.funding_height := e; Monitor.funding_outpoint := f; Monitor.funding_double_spent_height := g;
     Monitor.closing_height := h; Monitor.saw_block := i; Monitor.decode_state := None |}.
Definition slot_tuple (s : ListenSlot) := (txid_watches s, watches s, seen s).
Definition tuple_slot t : ListenSlot :=
  let '(a, b, c) := t in {| txid_watches := a; watches := b; seen := c |}.
Definition tracker_tuple (e : ChainTrackerEntry) :=
  (cte_headers e, cte_tip e, cte_height e,
   match cte_network e with Bitcoin => 0 | Testnet => 1 | Signet => 2 | Regtest => 3 end,
   prod_map monitor_tuple slot_tuple <$> cte_listeners e).
Definition tuple_tracker t : ChainTrackerEntry :=
  let '(a, b, c, d, e) := t in
  {| cte_headers := a; cte_tip := b; cte_height := c;
     cte_network := match d with 0 => Bitcoin | 1 => Testnet | 2 => Signet | _ => Regtest end;
     cte_listeners := prod_map tuple_monitor tuple_slot <$> e |}.

Lemma tracker_tuple_inv e : tuple_tracker (tracker_tuple e) = serde_skip e.
Proof.
  destruct e as [? ? ? n l]. unfold tracker_tuple, tuple_tracker, serde_skip. cbn. f_equal; [by destruct n|].
  rewrite <- map_fmap_compose. apply map_fmap_ext. by intros o [[] []] _.
Qed.

Lemma tracker_tuple_skip e : tracker_tuple (serde_skip e) = tracker_tuple e.
Proof.
  unfold tracker_tuple. cbn. f_equal. rewrite <- map_fmap_compose. apply map_fmap_ext. by intros o [[] []] _.
Qed.

#[local] Instance text_json : JsonLib := {
  json_node_entry := to_text;
  json_node_entry_from := of_text;
  json_node_state s := to_text (state_tuple s);
  json_node_state_from b := tuple_state <$> of_text b;
  json_channel e := to_text (channel_tuple e);
  json_channel_from b := tuple_channel <$> of_text b;
  json_allowlist := to_text;
  json_allowlist_from := of_text;
  json_tracker e := to_text (tracker_tuple e);
  json_tracker_from b := tuple_tracker <$> of_text b
}.

#[local] Instance text_json_laws : JsonLaws.
Proof.
  split; intros e; (split; [apply text_utf8|]).
  - apply of_to_text.
  - change (tuple_state <$> of_text (to_text (state_tuple e)) = Some e). rewrite of_to_text.
    exact (f_equal Some (state_tuple_inv e)).
  - change (tuple_channel <$> of_text (to_text (channel_tuple e)) = Some e). rewrite of_to_text.
    exact (f_equal Some (channel_tuple_inv e)).
  - apply of_to_text.
  - split; [|exact (f_equal to_text (tracker_tuple_skip e))].
    change (tuple_tracker <$> of_text (to_text (tracker_tuple e)) = Some (serde_skip e)). rewrite of_to_text.
    exact (f_equal Some (tracker_tuple_inv e)).
Qed.

(** ** The theorems at these instances *)

#[local] Existing Instances example_lib Tracker.example_chain_lib example_ser example_addresses.

Lemma example_writes_good : Forall good_write example_writes.
Proof. repeat constructor; cbn; unfold ByteUtils.is_byte; lia. Qed.

Lemma fat_persister_keeps_record_witness : exists self self' self'' : FatJsonPersister MemFs,
  FatJsonPersister_new (E := Error) "node" ∅ = Ok self
  /\ perform_all example_writes self = Ok self'
  /\ FatJsonPersister_new (E := Error) "node" (setupfs self') = Ok self''
  /\ fp_node_id self'' = as_bytes "node"
  /\ persist_get_node_allowlist self'' (as_bytes "node") = Ok ["payee:ab"].
Proof.
  destruct (fat_persister_keeps_record (AL := example_addresses) (E := Error) (F := MemFs) mem_dirs mem_files mem_handle "node" (as_bytes "node") ∅
    example_writes eq_refl) as (self & Hnew & Hrest).
  - intros b _. exact (not_elem_of_empty (C := gset string) b).
  - exact example_writes_good.
  - change (accepted example_writes empty_record) with true in Hrest.
    destruct Hrest as (self' & self'' & Hw & Hagain & Hid & _ & _ & Hlist & _).
    exists self, self', self''. split; [exact Hnew|]. split; [exact Hw|]. split; [exact Hagain|].
    split; [exact Hid|]. exact (Hlist (as_bytes "node")).
Defined.

(** The channel [7] of [example_writes], now funded. *)
Definition example_funded : Channel := {|
  keys := 5 : @InMemorySigner example_lib; enforcement_state := EnforcementState_new 0;
  setup := example_setup; id0 := [7]; chan_id := None |}.

Lemma interrupted_channel_update_witness : exists self self' self'' : FatJsonPersister MemFs,
  FatJsonPersister_new (E := Error) "node" ∅ = Ok self
  /\ perform_all example_writes self = Ok self'
  /\ FatJsonPersister_new (E := Error) "node"
       (cr_fs (setupfs (persist_update_channel (cut 3 self') (as_bytes "node") example_funded).1)) = Ok self''
  /\ persist_get_node_channels self'' (as_bytes "node") = Err (PersistInternal "list keys: bad file: {}").
Proof.
  destruct (new_run (AL := example_addresses) (E := Error) mem_dirs mem_files mem_handle "node" (as_bytes "node") (∅ : MemFs) eq_refl)
    as (self & Hnew & _ & Hd & Hf).
  assert (Hh : holds mem_dirs mem_files (setupfs self) empty_record false).
  { apply (fresh_holds mem_dirs mem_files (∅ : MemFs)); [exact Hd|exact Hf|]. intros b _.
    exact (not_elem_of_empty (C := gset string) b). }
  pose proof (writes_accepted mem_dirs mem_files mem_handle example_writes self _ _ Hh example_writes_good) as Hw.
  change (accepted example_writes empty_record) with true in Hw. destruct Hw as (self' & Hw & _ & Hh').
  destruct (new_run (AL := example_addresses) (E := Error) mem_dirs mem_files mem_handle "node" (as_bytes "node")
    (cr_fs (setupfs (persist_update_channel (cut 3 self') (as_bytes "node") example_funded).1)) eq_refl)
    as (self'' & Hagain & _).
  exists self, self', self''. split; [exact Hnew|]. split; [exact Hw|]. split; [exact Hagain|].
  eapply (interrupted_channel_update mem_dirs mem_files mem_handle self' _ _ (as_bytes "node") example_funded
    _ 3 "node" self'' Hh'); [|reflexivity|exact Hagain|lia].
  repeat constructor; cbn; unfold ByteUtils.is_byte; lia.
Defined.
