(* ===== verification/Serial.v ===== *)
(** * The serial line to the embedded signer
      (vls-signer-stm32/src/usbserial.rs and demo_signer_main.rs, vls-proxy/src/serial.rs)

    The proxy writes requests to a serial port; on the other end the driver of
    the device collects the bytes, from its timer interrupt and when it is
    asked, and the main loop of the device reads a request, serves it and
    writes the reply.  The USB stack and the file of the port are the two ends
    of a cable, which is a parameter.  The result is that a call through the
    line is a call of the signer, however the bytes are cut and whenever the
    interrupts come. *)

From S2P Require Import Prelude Extern Msgs.

(** ** The cable *)

(** [usb_device::UsbError]. *)
Inductive UsbError :=
| WouldBlock
| UsbFailure (s : string).

(** The end of the device is [UsbDevice::poll], [SerialPort::read] and
    [SerialPort::write]; that of the host is the [File], of which [file_ready]
    tells whether a read would return.  [patience] bounds how often the end of
    the device can be polled in vain: it is used as fuel only. *)
Class Cable (P : Type) := {
  usb_poll : P -> P * bool;
  port_read : nat -> P -> P * outcome UsbError bytes;
  port_write : bytes -> P -> P * outcome UsbError nat;
  file_ready : P -> bool;
  file_read : nat -> P -> P * outcome string bytes;
  file_write_all : bytes -> P -> P * outcome string unit;
  patience : P -> nat
}.

(** [serde_bolt::Error::Message] and [serde_bolt::Error::Eof]. *)
Class BoltErrors `{SerdeBolt} := {
  bolt_message : string -> BoltError;
  bolt_eof : BoltError
}.

(** ** The driver of the device *)

Definition READ_BUFSZ : nat := 1024.

Record InputBuffer := { ib_data : bytes; ib_size : nat }.

Definition InputBuffer_read (n : nat) (self : InputBuffer) : bytes * InputBuffer :=
  let sz := Nat.min (ib_size self) n in
  if (sz =? 0)%nat then ([], self)
  else (take sz (ib_data self),
        {| ib_data := list_inserts 0 (drop sz (take (ib_size self) (ib_data self))) (ib_data self);
           ib_size := ib_size self - sz |}).

Record SerialDriverImpl (P : Type) := { usb : P; inbuf : InputBuffer; outbuf : bytes }.
Arguments usb {P}.
Arguments inbuf {P}.
Arguments outbuf {P}.

(** The driver, and the interrupts that are still to come: how many there are
    before each of the next operations, which run without interrupts. *)
Record SerialDriver (P : Type) := { sd_inner : SerialDriverImpl P; sd_peek : option Z; irqs : list nat }.
Arguments sd_inner {P}.
Arguments sd_peek {P}.
Arguments irqs {P}.

Section driver.
Context {P : Type} `{!Cable P}.

Definition append_inbuf (self : SerialDriverImpl P) : SerialDriverImpl P :=
  let '{| ib_data := data; ib_size := size |} := inbuf self in
  if (size <? length data)%nat then
    match usb_poll (usb self) with
    | (p, true) =>
        match port_read (length data - size) p with
        | (p, Ok got) =>
            {| usb := p; outbuf := outbuf self;
               inbuf := {| ib_data := list_inserts size got data; ib_size := size + length got |} |}
        | (p, _) => {| usb := p; inbuf := inbuf self; outbuf := outbuf self |}
        end
    | (p, false) => {| usb := p; inbuf := inbuf self; outbuf := outbuf self |}
    end
  else self.

Definition drain_outbuf (self : SerialDriverImpl P) : SerialDriverImpl P :=
  match outbuf self with
  | [] => self
  | ovd =>
      match port_write ovd (usb self) with
      | (p, Ok count) => {| usb := p; inbuf := inbuf self; outbuf := drop count ovd |}
      | (p, _) => {| usb := p; inbuf := inbuf self; outbuf := ovd |}
      end
  end.

Definition impl_read (n : nat) (self : SerialDriverImpl P) : bytes * SerialDriverImpl P :=
  let self := append_inbuf self in
  let '(got, ib) := InputBuffer_read n (inbuf self) in
  (got, {| usb := usb self; inbuf := ib; outbuf := outbuf self |}).

Definition impl_write (outgoing : bytes) (self : SerialDriverImpl P) : SerialDriverImpl P :=
  drain_outbuf {| usb := usb self; inbuf := inbuf self; outbuf := outbuf self ++ outgoing |}.

Definition on_tick (self : SerialDriverImpl P) : SerialDriverImpl P :=
  drain_outbuf (append_inbuf self).

(** The interrupts before the next operation. *)
Definition interrupted (self : SerialDriver P) : SerialDriver P :=
  {| sd_inner := Nat.iter (hd 0%nat (irqs self)) on_tick (sd_inner self); sd_peek := sd_peek self;
     irqs := tl (irqs self) |}.

Definition SerialDriver_new (p : P) (irqs : list nat) : SerialDriver P :=
  {| sd_inner := {| usb := p; inbuf := {| ib_data := replicate READ_BUFSZ 0; ib_size := 0 |};
                    outbuf := [] |};
     sd_peek := None; irqs := irqs |}.

Definition do_read (n : nat) (self : SerialDriver P) : bytes * SerialDriver P :=
  let self := interrupted self in
  let '(got, inner) := impl_read n (sd_inner self) in
  (got, {| sd_inner := inner; sd_peek := sd_peek self; irqs := irqs self |}).

Definition do_write (data : bytes) (self : SerialDriver P) : SerialDriver P :=
  let self := interrupted self in
  {| sd_inner := impl_write data (sd_inner self); sd_peek := sd_peek self; irqs := irqs self |}.

(** The loop of [read]; [None] when the fuel runs out, where the loop would go
    on. *)
Fixpoint sd_read_loop (fuel n : nat) (got : bytes) (self : SerialDriver P)
  : option (bytes * SerialDriver P) :=
  if (n =? 0)%nat then Some (got, self)
  else
    match fuel with
    | O => None
    | S fuel =>
        let '(b, self) := do_read n self in
        sd_read_loop fuel (n - length b) (got ++ b) self
    end.

#[global] Instance serial_read `{SerdeBolt} : Read (SerialDriver P) := fun n self =>
  if (n =? 0)%nat then Ok ([], self)
  else
    let got := match sd_peek self with Some p => [p] | None => [] end in
    let self := {| sd_inner := sd_inner self; sd_peek := None; irqs := irqs self |} in
    unwrap (sd_read_loop (n + patience (usb (sd_inner self))) (n - length got) got self).

(** [peek], which asserts that there is a byte. *)
Definition sd_do_peek {E} (self : SerialDriver P) : outcome E (option Z * SerialDriver P) :=
  if bool_decide (is_Some (sd_peek self)) then Ok (sd_peek self, self)
  else
    let '(buf, self) := do_read 1 self in
    match buf with
    | [b] => Ok (Some b, {| sd_inner := sd_inner self; sd_peek := Some b; irqs := irqs self |})
    | _ => Panic
    end.
End driver.

(** ** The line *)

(** Both ends: the host has the byte it peeked and the number of the next
    request, the device the state [signer] of its handlers. *)
Record Line (P S : Type) := {
  device : SerialDriver P;
  signer : S;
  wrap_peek : option Z;
  sequence : Z
}.
Arguments device {P S}.
Arguments signer {P S}.
Arguments wrap_peek {P S}.
Arguments sequence {P S}.

Record ClientId := { ci_peer_id : bytes; ci_dbid : Z }.

Section line.
Context `{SB : SerdeBolt, !BoltErrors} {P : Type} `{!Cable P} {S HE : Type}.
(** [Handler::handle] of the root handler, and of the handler of a client. *)
Context (root_handle : Message -> S -> S * outcome HE SerBolt)
  (client_handle : bytes -> Z -> Message -> S -> S * outcome HE SerBolt).
Notation Self := (Line P S).
Implicit Types self : Self.

Definition cable self : P := usb (sd_inner (device self)).
Definition with_impl self (f : SerialDriverImpl P -> SerialDriverImpl P) : Self := {|
  device := {| sd_inner := f (sd_inner (device self)); sd_peek := sd_peek (device self);
               irqs := irqs (device self) |};
  signer := signer self; wrap_peek := wrap_peek self; sequence := sequence self |}.
Definition with_cable self (p : P) : Self :=
  with_impl self (fun i => {| usb := p; inbuf := inbuf i; outbuf := outbuf i |}).

(** *** The host *)

(** A read of the file waits, while the timer of the device ticks. *)
Fixpoint await (fuel : nat) self : option Self :=
  if file_ready (cable self) then Some self
  else match fuel with O => None | Datatypes.S fuel => await fuel (with_impl self on_tick) end.

Definition inner_read (n : nat) self : outcome BoltError (bytes * Self) :=
  self ← unwrap (await (Datatypes.S (patience (cable self))) self);
  match file_read n (cable self) with
  | (p, Ok got) => Ok (got, with_cable self p)
  | (_, Err e) => Err (bolt_message e)
  | (_, Panic) => Panic
  end.

(** The loop of [read]: a turn reads at least a byte, or is the last. *)
Fixpoint wrap_read_loop (fuel n : nat) (got : bytes) self : outcome BoltError (bytes * Self) :=
  match fuel with
  | O => Ok (got, self)
  | Datatypes.S fuel =>
      if (n =? 0)%nat then Ok (got, self)
      else
        '(b, self) ← inner_read n self;
        if bool_decide (b = []) then if bool_decide (got = []) then Err bolt_eof else Ok (got, self)
        else wrap_read_loop fuel (n - length b) (got ++ b) self
  end.

#[global] Instance wrap_read : Read Self := fun n self =>
  if (n =? 0)%nat then Ok ([], self)
  else
    let got := match wrap_peek self with Some p => [p] | None => [] end in
    let self := {| device := device self; signer := signer self; wrap_peek := None;
                   sequence := sequence self |} in
    wrap_read_loop n (n - length got) got self.

Definition wrap_write_all (buf : bytes) self : outcome Error Self :=
  match file_write_all buf (cable self) with
  | (p, Ok _) => Ok (with_cable self p)
  | (_, Err e) => Err (BoltErr (bolt_message e))
  | (_, Panic) => Panic
  end.

Definition send_request (client_id : option ClientId) (message : bytes) self : outcome Error Self :=
  let peer_id := from_option ci_peer_id (replicate 33 0) client_id in
  let dbid := from_option ci_dbid 0 client_id in
  self ← wrap_write_all (write_serial_request_header
           {| srh_sequence := sequence self; srh_peer_id := peer_id; srh_dbid := dbid |}) self;
  wrap_write_all (write_vec message) self.

Definition receive_reply self : outcome Error (bytes * Self) :=
  self ← read_serial_response_header self (sequence self);
  read_raw {| device := device self; signer := signer self; wrap_peek := wrap_peek self;
              sequence := as_u 16 (sequence self + 1) |}.

(** *** The device *)

Definition dispatch (reqhdr : SerialRequestHeader) (message : Message) (h : S) : S * outcome HE SerBolt :=
  if 0 <? srh_dbid reqhdr then client_handle (srh_peer_id reqhdr) (srh_dbid reqhdr) message h
  else root_handle message h.

(** The end of a turn: the reply is written. *)
Definition write_reply (sequence : Z) (reply : SerBolt) (serial : SerialDriver P)
  : outcome Error (SerialDriver P) :=
  let serial := do_write (write_serial_response_header sequence) serial in
  reply ← as_vec reply;
  Ok (do_write (write_vec reply) serial).

(** A turn of the loop of [handle_requests], without what it shows on the
    screen. *)
Definition handle_request self : outcome Error Self :=
  '(reqhdr, serial) ← unwrap_ok (read_serial_request_header (device self));
  '(message, serial) ← unwrap_ok (msg_read serial);
  let '(h, r) := dispatch reqhdr message (signer self) in
  reply ← unwrap_ok r;
  serial ← write_reply (srh_sequence reqhdr) reply serial;
  Ok {| device := serial; signer := h; wrap_peek := wrap_peek self; sequence := sequence self |}.

(** [handle_message] of the host, with what the device does while the host
    waits for the reply. *)
Definition handle_message (client_id : option ClientId) (message : bytes) self
  : outcome Error (bytes * Self) :=
  self ← send_request client_id message self;
  self ← handle_request self;
  receive_reply self.

Fixpoint handle_messages (calls : list (option ClientId * bytes)) self
  : outcome Error (list bytes * Self) :=
  match calls with
  | [] => Ok ([], self)
  | (client_id, message) :: calls =>
      '(reply, self) ← handle_message client_id message self;
      '(replies, self) ← handle_messages calls self;
      Ok (reply :: replies, self)
  end.
End line.

(** ** What the cable promises *)

(** [queued] are the bytes on their way to the device, [returned] those on their
    way to the host.  Bytes stay in order; a poll, a read or a write that gets
    no byte across although there are some uses up patience. *)
Class CableLaws {P : Type} `{!Cable P} (queued returned : P -> bytes) : Prop := {
  law_poll p p' b : usb_poll p = (p', b) ->
    queued p' = queued p /\ returned p' = returned p /\ (patience p' <= patience p)%nat
    /\ (b = false -> queued p <> [] -> (patience p' < patience p)%nat);
  law_port_read n p p' r : port_read n p = (p', r) -> (0 < n)%nat ->
    returned p' = returned p /\ (patience p' <= patience p)%nat
    /\ match r with
       | Ok got => queued p = got ++ queued p' /\ (length got <= n)%nat
           /\ (got = [] -> queued p <> [] -> (patience p' < patience p)%nat)
       | Err _ => queued p' = queued p /\ (queued p <> [] -> (patience p' < patience p)%nat)
       | Panic => False
       end;
  law_port_write d p p' r : port_write d p = (p', r) -> d <> [] ->
    queued p' = queued p /\ (patience p' <= patience p)%nat
    /\ match r with
       | Ok k => (k <= length d)%nat /\ returned p' = returned p ++ take k d
           /\ (k = 0%nat -> (patience p' < patience p)%nat)
       | Err _ => returned p' = returned p /\ (patience p' < patience p)%nat
       | Panic => False
       end;
  law_file_ready p : file_ready p = bool_decide (returned p <> []);
  law_file_read n p : (0 < n)%nat -> returned p <> [] ->
    exists p' got, file_read n p = (p', Ok got) /\ got <> [] /\ (length got <= n)%nat
      /\ returned p = got ++ returned p' /\ queued p' = queued p;
  law_file_write d p : exists p', file_write_all d p = (p', Ok tt)
    /\ queued p' = queued p ++ d /\ returned p' = returned p
}.

(** ** Nothing is lost in the driver *)

Lemma take_inserts (l got : bytes) n : (n + length got <= length l)%nat ->
  take (n + length got) (list_inserts n got l) = take n l ++ got.
Proof.
  intros Hl. apply list_eq. intros i. destruct (decide (i < n + length got)%nat) as [Hi|Hi].
  - rewrite lookup_take_lt by done. destruct (decide (i < n)%nat) as [Hn|Hn].
    + rewrite list_lookup_inserts_lt by done. rewrite lookup_app_l by (rewrite length_take; lia).
      by rewrite lookup_take_lt.
    + rewrite list_lookup_inserts by lia. rewrite lookup_app_r by (rewrite length_take; lia).
      f_equal. rewrite length_take. lia.
  - rewrite lookup_take_ge by lia. symmetry. apply lookup_ge_None_2. rewrite length_app, length_take. lia.
Qed.

Section driver_laws.
Context {P : Type} `{!Cable P} (queued returned : P -> bytes) `{!CableLaws queued returned}.
Implicit Types i : SerialDriverImpl P.

Definition driver_ok i : Prop :=
  length (ib_data (inbuf i)) = READ_BUFSZ /\ (ib_size (inbuf i) <= READ_BUFSZ)%nat.
Definition received i : bytes := take (ib_size (inbuf i)) (ib_data (inbuf i)).
Definition incoming i : bytes := received i ++ queued (usb i).
Definition outgoing i : bytes := returned (usb i) ++ outbuf i.

(** The driver goes on; nothing is lost. *)
Definition goes_on i i' : Prop :=
  driver_ok i' /\ incoming i' = incoming i /\ outgoing i' = outgoing i
  /\ (patience (usb i') <= patience (usb i))%nat.

Lemma goes_on_refl i : driver_ok i -> goes_on i i.
Proof. intros Hok. split; [done|]. split; [done|]. split; [done|lia]. Qed.

Lemma goes_on_trans i1 i2 i3 : goes_on i1 i2 -> goes_on i2 i3 -> goes_on i1 i3.
Proof. intros (_ & Hi & Ho & Hp) (Hok & Hi' & Ho' & Hp'). split; [done|]. rewrite Hi', Ho'. split; [done|]. split; [done|lia]. Qed.

Lemma length_received i : driver_ok i -> length (received i) = ib_size (inbuf i).
Proof. intros [Hd Hs]. unfold received. rewrite length_take, Hd. lia. Qed.

Lemma append_inbuf_ok i : driver_ok i -> goes_on i (append_inbuf i)
  /\ (incoming i <> [] -> received (append_inbuf i) <> [] \/ (patience (usb (append_inbuf i)) < patience (usb i))%nat).
Proof.
  intros Hok. pose proof (length_received i Hok) as Hlen. pose proof Hok as [Hd Hs].
  unfold append_inbuf. destruct i as [p [data size] o]. cbn [inbuf usb outbuf ib_data ib_size] in *.
  rewrite Hd. destruct (Nat.ltb_spec size READ_BUFSZ) as [Hroom|Hroom].
  2:{ split; [by apply goes_on_refl|]. intros _. left. intros Hr. rewrite Hr in Hlen. cbn in Hlen.
      unfold READ_BUFSZ in Hroom. lia. }
  assert (Hrec : size <> 0%nat -> take size data <> []).
  { intros Hne Hr. change (received _) with (take size data) in Hlen. rewrite Hr in Hlen. cbn in Hlen. lia. }
  destruct (usb_poll p) as [p1 b] eqn:Hpoll. destruct (law_poll _ _ _ Hpoll) as (Hq & Hr & Hp & Hdec).
  destruct b.
  2:{ split; [split; [done|]; unfold incoming, outgoing; cbn; rewrite Hq, Hr; by split|].
      intros Hin. unfold incoming, received in Hin. cbn in Hin. destruct (decide (size = 0%nat)) as [->|Hne]; [|by left; auto].
      right. by apply Hdec. }
  destruct (port_read (READ_BUFSZ - size) p1) as [p2 r] eqn:Hread.
  destruct (law_port_read _ _ _ _ Hread) as (Hr2 & Hp2 & Hres); [lia|].
  destruct r as [got|e|]; [| |done].
  - destruct Hres as (Hgot & Hl & Hdec2).
    assert (Htake : take (size + length got) (list_inserts size got data) = take size data ++ got)
      by (apply take_inserts; lia).
    split.
    + split; [split; cbn; rewrite ?length_inserts; lia|]. unfold incoming, outgoing, received. cbn.
      rewrite Htake, Hr2, Hr, <- Hq, Hgot, <- app_assoc. split; [done|]. split; [done|lia].
    + intros Hin. unfold incoming, received in *. cbn in *. rewrite Htake.
      destruct got as [|x got]; [|left; by destruct (take size data)].
      destruct (decide (size = 0%nat)) as [->|Hne]; [|left; rewrite app_nil_r; auto].
      right. rewrite <- Hq in Hin. specialize (Hdec2 eq_refl Hin). lia.
  - destruct Hres as [Hq2 Hdec2]. split.
    + split; [done|]. unfold incoming, outgoing. cbn. rewrite Hq2, Hr2, Hq, Hr. split; [done|]. split; [done|lia].
    + intros Hin. unfold incoming, received in *. cbn in *. destruct (decide (size = 0%nat)) as [->|Hne]; [|left; auto].
      right. rewrite <- Hq in Hin. specialize (Hdec2 Hin). lia.
Qed.

Lemma drain_outbuf_ok i : driver_ok i -> goes_on i (drain_outbuf i)
  /\ (outgoing i <> [] ->
      returned (usb (drain_outbuf i)) <> [] \/ (patience (usb (drain_outbuf i)) < patience (usb i))%nat).
Proof.
  intros Hok. unfold drain_outbuf. destruct (outbuf i) as [|x o] eqn:Ho.
  { split; [by apply goes_on_refl|]. unfold outgoing. rewrite Ho, app_nil_r. by left. }
  rewrite <- Ho. destruct (port_write (outbuf i) (usb i)) as [p r] eqn:Hw.
  destruct (law_port_write _ _ _ _ Hw) as (Hq & Hp & Hres); [by rewrite Ho|].
  destruct r as [k|e|]; [| |done]; unfold goes_on, incoming, outgoing, received; cbn.
  - destruct Hres as (Hk & -> & Hdec). rewrite Hq, <- app_assoc, take_drop. split; [done|]. intros _.
    destruct k as [|k]; [right; auto|]. left. rewrite Ho. cbn. by destruct (returned (usb i)).
  - destruct Hres as (-> & Hdec). rewrite Hq. split; [done|]. by right.
Qed.

Lemma on_tick_ok i : driver_ok i -> goes_on i (on_tick i)
  /\ (outgoing i <> [] -> returned (usb (on_tick i)) <> [] \/ (patience (usb (on_tick i)) < patience (usb i))%nat).
Proof.
  intros Hok. destruct (append_inbuf_ok i Hok) as [Ha _].
  destruct (drain_outbuf_ok (append_inbuf i) (proj1 Ha)) as [Hd Hprog]. split; [by eapply goes_on_trans|].
  intros Ho. destruct Ha as (_ & _ & Hout & Hp). rewrite <- Hout in Ho. unfold on_tick.
  destruct (Hprog Ho) as [?|?]; [by left|right; lia].
Qed.

Lemma ticks_ok n i : driver_ok i -> goes_on i (Nat.iter n on_tick i).
Proof.
  intros Hok. induction n as [|n IH]; [by apply goes_on_refl|]. cbn.
  eapply goes_on_trans; [exact IH|]. apply on_tick_ok, IH.
Qed.

Lemma InputBuffer_read_ok n ib got ib' : length (ib_data ib) = READ_BUFSZ -> (ib_size ib <= READ_BUFSZ)%nat ->
  InputBuffer_read n ib = (got, ib') ->
  got = take n (take (ib_size ib) (ib_data ib)) /\ length (ib_data ib') = READ_BUFSZ
  /\ (ib_size ib' <= READ_BUFSZ)%nat /\ take (ib_size ib') (ib_data ib') = drop n (take (ib_size ib) (ib_data ib)).
Proof.
  intros Hd Hs. unfold InputBuffer_read. destruct ib as [data size]. cbn in *.
  destruct (Nat.eqb_spec (Nat.min size n) 0) as [Hz|Hz].
  - intros [= <- <-]. split; [|split; [done|split; [done|]]];
      (destruct (decide (size = 0%nat)) as [->|Hne]; [cbn [ib_size ib_data]; by rewrite take_0, ?take_nil, ?drop_nil|]);
      by assert (n = 0%nat) as -> by lia.
  - intros [= <- <-]. cbn [ib_size ib_data]. rewrite length_inserts. rewrite take_take, (Nat.min_comm n size).
    split; [done|]. split; [done|].
    split; [lia|].
    set (d := drop _ _). assert (Hl : length d = (size - Nat.min size n)%nat)
      by (unfold d; rewrite length_drop, length_take; lia).
    rewrite <- Hl. pose proof (take_inserts data d 0) as Ht. cbn in Ht. rewrite Ht by lia. unfold d.
    destruct (decide (size <= n)%nat) as [Hc|Hc].
    + rewrite Nat.min_l by done. rewrite !drop_ge by (rewrite length_take; lia). done.
    + by rewrite Nat.min_r by lia.
Qed.

Lemma impl_read_ok n i got i' : driver_ok i -> impl_read n i = (got, i') ->
  driver_ok i' /\ incoming i = got ++ incoming i' /\ outgoing i' = outgoing i /\ (length got <= n)%nat
  /\ (patience (usb i') <= patience (usb i))%nat
  /\ ((0 < n)%nat -> incoming i <> [] -> got <> [] \/ (patience (usb i') < patience (usb i))%nat).
Proof.
  intros Hok. destruct (append_inbuf_ok i Hok) as [(Hok1 & Hin & Hout & Hp) Hprog].
  unfold impl_read. destruct (InputBuffer_read n (inbuf (append_inbuf i))) as [b ib] eqn:Hr.
  destruct (InputBuffer_read_ok _ _ _ _ (proj1 Hok1) (proj2 Hok1) Hr) as (Hb & Hd & Hs & Hrest).
  intros [= <- <-]. split; [done|]. rewrite <- Hin, <- Hout. unfold incoming, outgoing. cbn.
  split; [unfold received at 2; cbn; rewrite Hrest, Hb, app_assoc; by rewrite take_drop|].
  split; [done|]. split; [rewrite Hb, length_take; lia|]. split; [done|].
  intros Hn Hne. destruct (Hprog) as [Hrec|?]; [by rewrite <- Hin| |by right].
  left. rewrite Hb. destruct (received (append_inbuf i)) as [|x l] eqn:Hx; [done|]. unfold received in Hx.
  rewrite Hx. by destruct n; [lia|].
Qed.
End driver_laws.

(** ** Reading from the driver *)

Section driver_read.
Context {P : Type} `{!Cable P} (queued returned : P -> bytes) `{!CableLaws queued returned}.
Implicit Types d : SerialDriver P.
Notation incoming := (incoming queued).
Notation outgoing := (outgoing returned).

Lemma interrupted_ok d : driver_ok (sd_inner d) ->
  goes_on queued returned (sd_inner d) (sd_inner (interrupted d)).
Proof. intros Hok. by apply ticks_ok. Qed.

Lemma do_read_ok n d got d' : driver_ok (sd_inner d) -> do_read n d = (got, d') ->
  driver_ok (sd_inner d') /\ incoming (sd_inner d) = got ++ incoming (sd_inner d')
  /\ outgoing (sd_inner d') = outgoing (sd_inner d) /\ sd_peek d' = sd_peek d
  /\ (length got <= n)%nat /\ (patience (usb (sd_inner d')) <= patience (usb (sd_inner d)))%nat
  /\ ((0 < n)%nat -> incoming (sd_inner d) <> [] ->
      got <> [] \/ (patience (usb (sd_inner d')) < patience (usb (sd_inner d)))%nat).
Proof.
  intros Hok. pose proof (interrupted_ok d Hok) as (Hok1 & Hin & Hout & Hp). unfold do_read.
  destruct (impl_read n (sd_inner (interrupted d))) as [b i] eqn:Hr.
  destruct (impl_read_ok queued returned _ _ _ _ Hok1 Hr) as (Hok2 & Hin2 & Hout2 & Hl & Hp2 & Hprog).
  intros [= <- <-]. cbn [sd_inner sd_peek]. rewrite Hin in Hin2, Hprog. rewrite Hout2, Hout.
  split; [done|]. split; [done|]. split; [done|]. split; [done|]. split; [done|]. split; [lia|].
  intros Hn Hne. destruct (Hprog Hn Hne); [by left|right; lia].
Qed.

Lemma sd_read_loop_ok fuel : forall n got d, driver_ok (sd_inner d) -> sd_peek d = None ->
  (n <= length (incoming (sd_inner d)))%nat -> (n + patience (usb (sd_inner d)) <= fuel)%nat ->
  exists d', sd_read_loop fuel n got d = Some (got ++ take n (incoming (sd_inner d)), d')
    /\ driver_ok (sd_inner d') /\ sd_peek d' = None
    /\ incoming (sd_inner d') = drop n (incoming (sd_inner d)) /\ outgoing (sd_inner d') = outgoing (sd_inner d).
Proof.
  induction fuel as [|fuel IH]; intros n got d Hok Hpeek Hn Hfuel.
  { assert (n = 0%nat) as -> by lia. exists d. cbn. by rewrite take_0, app_nil_r, drop_0. }
  cbn [sd_read_loop]. destruct (Nat.eqb_spec n 0) as [->|Hne].
  { exists d. by rewrite take_0, app_nil_r, drop_0. }
  destruct (do_read n d) as [b d1] eqn:Hr.
  destruct (do_read_ok _ _ _ _ Hok Hr) as (Hok1 & Hin & Hout & Hpk & Hl & Hp & Hprog).
  destruct (IH (n - length b)%nat (got ++ b) d1) as (d' & Hloop & Hok' & Hpk' & Hin' & Hout').
  - done.
  - by rewrite Hpk.
  - rewrite Hin, length_app in Hn. lia.
  - assert (Hne' : incoming (sd_inner d) <> []) by (intros Hnil; rewrite Hnil in Hn; cbn in Hn; lia).
    destruct (Hprog ltac:(lia) Hne') as [Hb|?]; [destruct b; [done|]; cbn in *|]; lia.
  - exists d'. rewrite Hloop, Hin', Hout', Hin, <- app_assoc, take_app, drop_app.
    rewrite (take_ge b), (drop_ge b) by lia. done.
Qed.

(** The driver as a reader; [o] is what it has to send. *)
Definition driver_contents d : bytes := option_list (sd_peek d) ++ incoming (sd_inner d).

Lemma serial_read_ok `{SerdeBolt} n d : driver_ok (sd_inner d) -> (n <= length (driver_contents d))%nat ->
  exists d', read n d = Ok (take n (driver_contents d), d') /\ driver_ok (sd_inner d')
    /\ outgoing (sd_inner d') = outgoing (sd_inner d) /\ driver_contents d' = drop n (driver_contents d).
Proof.
  intros Hok Hn. unfold read, serial_read. destruct (Nat.eqb_spec n 0) as [->|Hne].
  { exists d. by rewrite take_0, drop_0. }
  set (d0 := {| sd_inner := sd_inner d; sd_peek := None; irqs := irqs d |}).
  set (got := match sd_peek d with Some p => [p] | None => [] end).
  assert (Hgot : option_list (sd_peek d) = got) by (unfold got; by destruct (sd_peek d)).
  assert (Hlg : (length got <= 1)%nat) by (unfold got; destruct (sd_peek d); cbn; lia).
  unfold driver_contents in *. rewrite Hgot in *. rewrite length_app in Hn. cbv zeta.
  destruct (sd_read_loop_ok (n + patience (usb (sd_inner d0))) (n - length got) got d0)
    as (d' & Hr & Hok' & Hpk & Hin & Hout); [done|done|cbn; lia|cbn; lia|].
  exists d'. rewrite Hr. cbn [unwrap]. rewrite take_app, (take_ge got), drop_app, (drop_ge got) by lia.
  split; [done|]. rewrite Hpk, Hin. cbn. done.
Qed.

(** Where [read] waits for the next byte, [peek] panics. *)
Lemma peek_without_byte {E} d : driver_ok (sd_inner d) -> driver_contents d = [] ->
  sd_do_peek (E := E) d = Panic.
Proof.
  intros Hok Hc. unfold driver_contents in Hc. apply app_eq_nil in Hc as [Hpk Hin].
  destruct (sd_peek d) eqn:Hp; [done|]. unfold sd_do_peek. rewrite Hp, bool_decide_eq_false_2 by (by intros [??]).
  destruct (do_read 1 d) as [got d'] eqn:Hr. destruct (do_read_ok _ _ _ _ Hok Hr) as (_ & Hg & _).
  rewrite Hin in Hg. symmetry in Hg. by apply app_eq_nil in Hg as [-> _].
Qed.

Definition driver_read_laws `{SerdeBolt} (o : bytes) : ReadLaws (SerialDriver P).
Proof.
  exists (fun d => driver_ok (sd_inner d) /\ outgoing (sd_inner d) = o) driver_contents.
  intros n d [Hok Ho] Hn. destruct (serial_read_ok n d Hok Hn) as (d' & Hr & Hok' & Ho' & Hc).
  exists d'. by rewrite Ho', Ho.
Defined.

Lemma do_write_ok data d : driver_ok (sd_inner d) ->
  driver_ok (sd_inner (do_write data d)) /\ driver_contents (do_write data d) = driver_contents d
  /\ outgoing (sd_inner (do_write data d)) = outgoing (sd_inner d) ++ data.
Proof.
  intros Hok. pose proof (interrupted_ok d Hok) as (Hok1 & Hin & Hout & _).
  unfold do_write, impl_write. cbn [sd_inner sd_peek].
  set (i := {| usb := _; inbuf := _; outbuf := _ |}).
  assert (Hi : driver_ok i) by done.
  destruct (drain_outbuf_ok queued returned i Hi) as [(Hok2 & Hin2 & Hout2 & _) _].
  split; [done|]. unfold driver_contents. cbn [sd_inner sd_peek]. rewrite Hin2, Hout2, <- Hout, <- Hin.
  unfold Serial.outgoing. cbn. by rewrite app_assoc.
Qed.
End driver_read.

(** ** Frames *)

Section frames.
Context `{SB : SerdeBolt} {R : Type} `{!Read R, !ReadLaws R}.
Implicit Types r : R.

Lemma read_u16_gives x rest r : 0 <= x < 2 ^ 16 -> gives r (to_be_bytes 2 x ++ rest) ->
  exists r', read_u16 r = Ok (x, r') /\ gives r' rest.
Proof. intros Hx. apply read_uint_spec; [lia|]. exact Hx. Qed.

Lemma request_header_spec hdr rest r : 0 <= srh_sequence hdr < 2 ^ 16 -> length (srh_peer_id hdr) = 33%nat ->
  0 <= srh_dbid hdr < 2 ^ 64 -> gives r (write_serial_request_header hdr ++ rest) ->
  exists r', read_serial_request_header r = Ok (hdr, r') /\ gives r' rest.
Proof.
  intros Hs Hp Hd Hr. unfold write_serial_request_header in Hr. rewrite <- !app_assoc in Hr.
  unfold read_serial_request_header.
  destruct (read_u16_gives 0xaa55 _ _ ltac:(lia) Hr) as (r1 & -> & Hr1). rewrite Ok_bind. cbn [Z.eqb Pos.eqb negb].
  destruct (read_u16_gives _ _ _ Hs Hr1) as (r2 & -> & Hr2). rewrite Ok_bind.
  destruct (read_bytes_spec 33 _ _ _ Hp ltac:(lia) Hr2) as (r3 & -> & Hr3). rewrite Ok_bind.
  destruct (read_uint_spec 8 _ _ _ ltac:(lia) Hd Hr3) as (r4 & Hr4 & Hg). unfold read_u64. rewrite Hr4, Ok_bind.
  exists r4. split; [by destruct hdr|done].
Qed.

Lemma response_header_spec seq rest r : 0 <= seq < 2 ^ 16 ->
  gives r (write_serial_response_header seq ++ rest) ->
  exists r', read_serial_response_header r seq = Ok r' /\ gives r' rest.
Proof.
  intros Hs Hr. unfold write_serial_response_header in Hr. rewrite <- app_assoc in Hr.
  unfold read_serial_response_header.
  destruct (read_u16_gives 0x5aa5 _ _ ltac:(lia) Hr) as (r1 & -> & Hr1). rewrite Ok_bind. cbn [Z.eqb Pos.eqb negb].
  destruct (read_u16_gives _ _ _ Hs Hr1) as (r2 & -> & Hr2). rewrite Ok_bind, Z.eqb_refl. by exists r2.
Qed.

Lemma frame_length_spec b rest r : Z.of_nat (length b) < 2 ^ 32 -> gives r (write_vec b ++ rest) ->
  exists r', read_u32 r = Ok (Z.of_nat (length b), r') /\ gives r' (b ++ rest).
Proof.
  intros Hb Hr. unfold write_vec, as_u in Hr. rewrite Z.mod_small, <- app_assoc in Hr by lia.
  apply (read_uint_spec 4); [lia|lia|done].
Qed.

Lemma read_raw_spec b rest r : Z.of_nat (length b) < 2 ^ 32 -> gives r (write_vec b ++ rest) ->
  exists r', read_raw r = Ok (b, r') /\ gives r' rest.
Proof.
  intros Hb Hr. destruct (frame_length_spec b rest r Hb Hr) as (r1 & Hr1 & Hg). unfold read_raw.
  rewrite Hr1, Ok_bind, Nat2Z.id. by apply fill_spec.
Qed.

Lemma message_and_type_spec b rest r : 2 <= Z.of_nat (length b) <= MAX_MESSAGE_SIZE -> gives r (b ++ rest) ->
  exists r', message_and_type_from_reader r (Z.of_nat (length b)) = Ok (drop 2 b, from_be_bytes (take 2 b), r')
    /\ gives r' rest.
Proof.
  intros Hb Hg. unfold message_and_type_from_reader. rewrite !(proj2 (Z.ltb_ge _ _)) by lia.
  destruct b as [|x [|y b]]; [cbn in *; lia..|].
  destruct (read_bytes_spec 2 [x; y] (b ++ rest) r eq_refl ltac:(lia) Hg) as (r2 & Hr2 & Hg2).
  replace (Z.to_nat (Z.of_nat (length (x :: y :: b)) - 2)) with (length b) by (cbn [length]; lia).
  destruct (fill_spec (length b) b rest r2 eq_refl Hg2) as (r3 & Hr3 & Hg3).
  exists r3. unfold read_u16, read_uint. by rewrite Hr2, !Ok_bind, Hr3.
Qed.
End frames.

(** Reading a message from the stream is decoding its bytes. *)
Lemma msg_read_from_vec `{SB : SerdeBolt} {R : Type} `{!Read R, !ReadLaws R} b rest (r : R) :
  Z.of_nat (length b) < 2 ^ 32 -> gives r (write_vec b ++ rest) ->
  match from_vec b with
  | Ok m => exists r', msg_read r = Ok (m, r') /\ gives r' rest
  | Err e => msg_read r = Err e
  | Panic => msg_read r = Panic
  end.
Proof.
  intros Hb Hr. destruct (frame_length_spec b rest r Hb Hr) as (r1 & Hr1 & Hg). unfold msg_read.
  rewrite Hr1, Ok_bind. unfold from_vec, as_u. rewrite Z.mod_small by lia. unfold from_reader.
  destruct (Z.ltb_spec (Z.of_nat (length b)) 2) as [Hlt|Hge].
  { unfold message_and_type_from_reader. by rewrite (proj2 (Z.ltb_lt _ _) Hlt). }
  destruct (Z.ltb_spec MAX_MESSAGE_SIZE (Z.of_nat (length b))) as [Hlt|Hle].
  { unfold message_and_type_from_reader. by rewrite (proj2 (Z.ltb_ge _ _) Hge), (proj2 (Z.ltb_lt _ _) Hlt). }
  destruct (message_and_type_spec b rest r1 ltac:(lia) Hg) as (r2 & -> & Hg2).
  destruct (message_and_type_spec b [] b ltac:(lia)) as (r3 & -> & _); [by rewrite app_nil_r|].
  rewrite !Ok_bind. destruct (read_message _ _) as [m|e|]; cbn; [by exists r2|done..].
Qed.

(** ** The host reads what the device wrote *)

Section host.
Context `{SB : SerdeBolt, !BoltErrors} {P : Type} `{!Cable P} {S HE : Type}.
Context (queued returned : P -> bytes) `{!CableLaws queued returned}.
Implicit Types self : Line P S.
Notation inner self := (sd_inner (device self)).
Notation incoming := (incoming queued).
Notation outgoing := (outgoing returned).

(** The same line, but for the bytes on their way to the host. *)
Definition same_line self self' : Prop :=
  driver_ok (inner self') /\ driver_contents queued (device self') = driver_contents queued (device self)
  /\ signer self' = signer self /\ sequence self' = sequence self.

Lemma same_line_trans l1 l2 l3 : same_line l1 l2 -> same_line l2 l3 -> same_line l1 l3.
Proof. intros (_ & H1 & H2 & H3) (Hok & H4 & H5 & H6). split; [done|]. by rewrite H4, H5, H6. Qed.

Lemma tick_line self : driver_ok (inner self) ->
  let self' := with_impl self on_tick in
  same_line self self' /\ outgoing (inner self') = outgoing (inner self) /\ wrap_peek self' = wrap_peek self
  /\ (outgoing (inner self) <> [] -> returned (cable self') <> [] \/ (patience (cable self') < patience (cable self))%nat).
Proof.
  intros Hok. destruct (on_tick_ok queued returned _ Hok) as [(Hok' & Hin & Hout & _) Hprog].
  split; [|by split]. split; [done|]. split; [|done]. unfold driver_contents. cbn [device with_impl sd_peek sd_inner].
  by rewrite Hin.
Qed.

Lemma await_ok fuel : forall self, driver_ok (inner self) -> outgoing (inner self) <> [] ->
  (patience (cable self) < fuel)%nat ->
  exists self', await fuel self = Some self' /\ same_line self self' /\ wrap_peek self' = wrap_peek self
    /\ outgoing (inner self') = outgoing (inner self) /\ returned (cable self') <> [].
Proof.
  induction fuel as [|fuel IH]; intros self Hok Hout Hfuel; [lia|]. cbn [await].
  rewrite law_file_ready. case_bool_decide as Hr; [by exists self|].
  destruct (tick_line self Hok) as (Hsame & Hout' & Hpk & Hprog).
  set (self1 := with_impl self on_tick) in *. destruct (decide (returned (cable self1) = [])) as [Hnil|Hne].
  - destruct (IH self1) as (self' & Ha & Hs & Hp & Ho & Hret); [apply Hsame|by rewrite Hout'| |].
    { destruct (Hprog Hout); [done|lia]. }
    exists self'. split; [done|]. split; [by eapply same_line_trans|]. by rewrite Hp, Ho.
  - exists self1. split; [|done]. destruct fuel; cbn [await]; rewrite law_file_ready; by rewrite bool_decide_eq_true_2.
Qed.

Lemma inner_read_ok n self : (0 < n)%nat -> driver_ok (inner self) -> outgoing (inner self) <> [] ->
  exists got self', inner_read n self = Ok (got, self') /\ same_line self self' /\ wrap_peek self' = wrap_peek self
    /\ got <> [] /\ (length got <= n)%nat /\ outgoing (inner self) = got ++ outgoing (inner self').
Proof.
  intros Hn Hok Hout. unfold inner_read.
  destruct (await_ok (Datatypes.S (patience (cable self))) self Hok Hout ltac:(lia))
    as (self1 & -> & Hsame & Hpk & Ho & Hret). cbn [unwrap]. rewrite Ok_bind.
  destruct (law_file_read n (cable self1) Hn Hret) as (p & got & -> & Hne & Hl & Hr & Hq).
  exists got, (with_cable self1 p). split; [done|]. split; [|split; [done|split; [done|split; [done|]]]].
  - eapply same_line_trans; [exact Hsame|]. split; [apply Hsame|]. split; [|done]. unfold driver_contents.
    cbn. unfold Serial.incoming. cbn. by rewrite Hq.
  - rewrite <- Ho. unfold Serial.outgoing. cbn. unfold cable in Hr. by rewrite Hr, app_assoc.
Qed.

Lemma wrap_read_loop_ok fuel : forall n got self, (n <= fuel)%nat -> driver_ok (inner self) ->
  wrap_peek self = None -> (n <= length (outgoing (inner self)))%nat ->
  exists self', wrap_read_loop fuel n got self = Ok (got ++ take n (outgoing (inner self)), self')
    /\ same_line self self' /\ wrap_peek self' = None
    /\ outgoing (inner self') = drop n (outgoing (inner self)).
Proof.
  induction fuel as [|fuel IH]; intros n got self Hfuel Hok Hpk Hn.
  { assert (n = 0%nat) as -> by lia. exists self. by rewrite take_0, app_nil_r, drop_0. }
  cbn [wrap_read_loop]. destruct (Nat.eqb_spec n 0) as [->|Hne].
  { exists self. by rewrite take_0, app_nil_r, drop_0. }
  assert (Hout : outgoing (inner self) <> []) by (intros Hnil; rewrite Hnil in Hn; cbn in Hn; lia).
  destruct (inner_read_ok n self ltac:(lia) Hok Hout) as (b & self1 & -> & Hsame & Hpk1 & Hb & Hl & Ho).
  rewrite Ok_bind, bool_decide_eq_false_2 by done.
  assert (Hlb : (0 < length b)%nat) by (destruct b; [done|cbn; lia]).
  destruct (IH (n - length b)%nat (got ++ b) self1) as (self' & -> & Hsame' & Hpk' & Ho'); [lia|apply Hsame| | |].
  - by rewrite Hpk1.
  - rewrite Ho, length_app in Hn. lia.
  - exists self'. rewrite Ho', Ho, <- app_assoc, take_app, drop_app, (take_ge b), (drop_ge b) by lia.
    split; [done|]. split; [by eapply same_line_trans|]. done.
Qed.

Definition line_contents self : bytes := option_list (wrap_peek self) ++ outgoing (inner self).

Lemma wrap_read_ok n self : driver_ok (inner self) -> (n <= length (line_contents self))%nat ->
  exists self', read n self = Ok (take n (line_contents self), self') /\ same_line self self'
    /\ line_contents self' = drop n (line_contents self).
Proof.
  intros Hok Hn. unfold read, wrap_read. destruct (Nat.eqb_spec n 0) as [->|Hne].
  { exists self. by rewrite take_0, drop_0. }
  set (self0 := {| device := _; signer := _; wrap_peek := None; sequence := _ |}).
  set (got := match wrap_peek self with Some p => [p] | None => [] end).
  assert (Hgot : option_list (wrap_peek self) = got) by (unfold got; by destruct (wrap_peek self)).
  assert (Hlg : (length got <= 1)%nat) by (unfold got; destruct (wrap_peek self); cbn; lia).
  unfold line_contents in *. rewrite Hgot in *. rewrite length_app in Hn. cbv zeta.
  destruct (wrap_read_loop_ok n (n - length got) got self0) as (self' & -> & Hsame & Hpk & Ho);
    [lia|done|done|cbn; lia|].
  exists self'. rewrite take_app, (take_ge got), drop_app, (drop_ge got), Hpk, Ho by lia. done.
Qed.

(** The line as a reader of the host, and what it keeps. *)
Definition line_read_laws (self0 : Line P S) : ReadLaws (Line P S).
Proof.
  exists (same_line self0) line_contents. intros n self Hs Hn.
  destruct (wrap_read_ok n self (proj1 Hs) Hn) as (self' & Hr & Hsame & Hc). exists self'.
  split; [done|]. split; [by eapply same_line_trans|done].
Defined.

(** Writing to the file. *)
Lemma wrap_write_ok buf self : exists p, wrap_write_all buf self = Ok (with_cable self p)
  /\ queued p = queued (cable self) ++ buf /\ returned p = returned (cable self).
Proof.
  unfold wrap_write_all. destruct (law_file_write buf (cable self)) as (p & -> & Hq & Hr). by exists p.
Qed.
End host.

(** ** Calls *)

Section calls.
Context `{SB : SerdeBolt, !BoltErrors} {P : Type} `{!Cable P} {S HE : Type}.
Context (queued returned : P -> bytes) `{!CableLaws queued returned}.
Context (root_handle : Message -> S -> S * outcome HE SerBolt)
  (client_handle : bytes -> Z -> Message -> S -> S * outcome HE SerBolt).
Implicit Types self : Line P S.
Notation inner self := (sd_inner (device self)).

(** A call of the signer in the same process: the message is decoded, the
    handler serves it, and the reply is encoded.  There is no way to report an
    error. *)
Definition header_of (sequence : Z) (client_id : option ClientId) : SerialRequestHeader := {|
  srh_sequence := sequence; srh_peer_id := from_option ci_peer_id (replicate 33 0) client_id;
  srh_dbid := from_option ci_dbid 0 client_id |}.

Definition direct_call (client_id : option ClientId) (message : bytes) (h : S) : outcome Error (bytes * S) :=
  message ← unwrap_ok (from_vec message);
  let '(h, r) := dispatch root_handle client_handle (header_of 0 client_id) message h in
  reply ← unwrap_ok r;
  reply ← as_vec reply;
  Ok (reply, h).

Fixpoint direct_calls (calls : list (option ClientId * bytes)) (h : S) : outcome Error (list bytes * S) :=
  match calls with
  | [] => Ok ([], h)
  | (client_id, message) :: calls =>
      '(reply, h) ← direct_call client_id message h;
      '(replies, h) ← direct_calls calls h;
      Ok (reply :: replies, h)
  end.

(** A client has a public key and a number of 64 bits; a message can be framed. *)
Definition call_ok (call : option ClientId * bytes) : Prop :=
  Z.of_nat (length call.2) < 2 ^ 32
  /\ from_option (fun c => length (ci_peer_id c) = 33%nat /\ 0 <= ci_dbid c < 2 ^ 64) True call.1.

(** The replies of the signer can be framed. *)
Definition replies_fit : Prop := forall client_id message h reply h',
  direct_call client_id message h = Ok (reply, h') -> Z.of_nat (length reply) < 2 ^ 32.

(** No byte is on its way. *)
Definition quiet self : Prop :=
  driver_ok (inner self) /\ driver_contents queued (device self) = [] /\ line_contents returned self = []
  /\ 0 <= sequence self < 2 ^ 16.

Lemma as_vec_no_error (reply : SerBolt) e : as_vec reply <> Err e.
Proof. unfold as_vec. by destruct (ser _ _). Qed.

Lemma with_cable_writes self p buf : queued p = queued (cable self) ++ buf -> returned p = returned (cable self) ->
  driver_ok (inner self) -> driver_ok (inner (with_cable self p))
  /\ driver_contents queued (device (with_cable self p)) = driver_contents queued (device self) ++ buf
  /\ line_contents returned (with_cable self p) = line_contents returned self.
Proof.
  intros Hq Hr Hok. split; [done|]. unfold driver_contents, line_contents, incoming, outgoing. cbn.
  unfold cable in *. rewrite Hq, Hr. by rewrite !app_assoc.
Qed.

Lemma send_request_ok client_id message self : quiet self ->
  exists self', send_request client_id message self = Ok self' /\ driver_ok (inner self')
    /\ driver_contents queued (device self')
       = write_serial_request_header (header_of (sequence self) client_id) ++ write_vec message
    /\ line_contents returned self' = [] /\ signer self' = signer self /\ sequence self' = sequence self.
Proof.
  intros (Hok & Hin & Hout & _). unfold send_request.
  destruct (wrap_write_ok queued returned (write_serial_request_header (header_of (sequence self) client_id)) self)
    as (p1 & H1 & Hq1 & Hr1). unfold header_of in H1. rewrite H1, Ok_bind.
  destruct (with_cable_writes self p1 _ Hq1 Hr1 Hok) as (Hok1 & Hin1 & Hout1).
  destruct (wrap_write_ok queued returned (write_vec message) (with_cable self p1)) as (p2 & H2 & Hq2 & Hr2).
  destruct (with_cable_writes _ p2 _ Hq2 Hr2 Hok1) as (Hok2 & Hin2 & Hout2).
  eexists. split; [exact H2|]. split; [done|]. by rewrite Hin2, Hin1, Hin, Hout2, Hout1.
Qed.

(** The device reads the request. *)
Lemma device_reads client_id message self : driver_ok (inner self) ->
  0 <= sequence self < 2 ^ 16 -> call_ok (client_id, message) ->
  driver_contents queued (device self)
    = write_serial_request_header (header_of (sequence self) client_id) ++ write_vec message ->
  exists d1, read_serial_request_header (device self) = Ok (header_of (sequence self) client_id, d1)
    /\ match from_vec message with
       | Ok m => exists d2, msg_read d1 = Ok (m, d2) /\ driver_ok (sd_inner d2)
                   /\ outgoing returned (sd_inner d2) = outgoing returned (inner self)
                   /\ driver_contents queued d2 = []
       | Err e => msg_read d1 = Err e
       | Panic => msg_read d1 = Panic
       end.
Proof.
  intros Hok Hs (Hl & Hc) Hin. set (laws := driver_read_laws queued returned (outgoing returned (inner self))).
  destruct (request_header_spec (ReadLaws0 := laws) (header_of (sequence self) client_id) (write_vec message)
    (device self)) as (d1 & Hr1 & Hg1); [done| | |by repeat split; try apply Hok|].
  - by destruct client_id as [c|]; [apply Hc|].
  - destruct client_id as [c|]; [apply Hc|done].
  - exists d1. split; [done|]. rewrite <- (app_nil_r (write_vec message)) in Hg1.
    pose proof (msg_read_from_vec (ReadLaws0 := laws) message [] d1 Hl Hg1) as Hm.
    destruct (from_vec message) as [m|e|]; [|done..]. destruct Hm as (d2 & Hm & [Hok2 Ho2] & Hc2). by exists d2.
Qed.

(** The host reads the reply. *)
Lemma receive_reply_ok reply self : driver_ok (inner self) -> driver_contents queued (device self) = [] ->
  0 <= sequence self < 2 ^ 16 -> Z.of_nat (length reply) < 2 ^ 32 ->
  line_contents returned self = write_serial_response_header (sequence self) ++ write_vec reply ->
  exists self', receive_reply self = Ok (reply, self') /\ quiet self' /\ signer self' = signer self
    /\ sequence self' = as_u 16 (sequence self + 1).
Proof.
  intros Hok Hin Hs Hl Hout. set (laws s := line_read_laws queued returned (S := S) s).
  destruct (response_header_spec (ReadLaws0 := laws self) (sequence self) (write_vec reply) self Hs)
    as (self1 & Hr1 & (Hok1 & Hin1 & Hsg1 & Hsq1) & Hc1); [by split|].
  unfold receive_reply. rewrite Hr1, Ok_bind. set (self2 := {| device := device self1; signer := _; wrap_peek := _; sequence := _ |}).
  rewrite <- (app_nil_r (write_vec reply)) in Hc1.
  destruct (read_raw_spec (ReadLaws0 := laws self2) reply [] self2 Hl) as (self' & Hr & (Hok' & Hin' & Hsg' & Hsq') & Hc');
    [by split; [split|]|].
  exists self'. split; [done|]. rewrite Hsg', Hsq'. cbn. rewrite Hsg1, Hsq1. split; [|done].
  split; [done|]. rewrite Hin', Hsq'. cbn. rewrite Hin1, Hsq1. split; [done|]. split; [done|]. apply Z.mod_pos_bound. lia.
Qed.

Lemma serial_call_ok client_id message self : quiet self -> call_ok (client_id, message) -> replies_fit ->
  match direct_call client_id message (signer self) with
  | Ok (reply, h) => exists self', handle_message root_handle client_handle client_id message self = Ok (reply, self')
      /\ quiet self' /\ signer self' = h /\ sequence self' = as_u 16 (sequence self + 1)
  | _ => handle_message root_handle client_handle client_id message self = Panic
  end.
Proof.
  intros Hq Hcall Hfit. pose proof (Hfit client_id message (signer self)) as Hlen.
  destruct (send_request_ok client_id message self Hq) as (self1 & H1 & Hok1 & Hin1 & Hout1 & Hsg1 & Hsq1).
  unfold handle_message. rewrite H1, Ok_bind. destruct Hq as (_ & _ & _ & Hs). rewrite <- Hsq1 in Hin1.
  destruct (device_reads client_id message self1 Hok1 ltac:(by rewrite Hsq1) Hcall Hin1) as (d1 & Hh & Hm).
  unfold handle_request. rewrite Hh. cbn [unwrap_ok]. rewrite Ok_bind. unfold direct_call in *.
  destruct (from_vec message) as [m|e|]; [|by rewrite Hm..].
  destruct Hm as (d2 & -> & Hok2 & Hout2 & Hin2). cbn [unwrap_ok] in *. rewrite !Ok_bind in *. rewrite Hsg1.
  assert (Hd : dispatch root_handle client_handle (header_of (sequence self1) client_id) m (signer self)
    = dispatch root_handle client_handle (header_of 0 client_id) m (signer self)) by reflexivity.
  cbn beta iota. rewrite Hd. destruct (dispatch root_handle client_handle _ m (signer self)) as [h [reply|e|]]; [|done..].
  cbn [unwrap_ok] in *. rewrite !Ok_bind in *. unfold write_reply.
  destruct (as_vec reply) as [v|e|] eqn:Hv; [|by apply as_vec_no_error in Hv|done]. rewrite !Ok_bind in *.
  set (self2 := {| device := do_write (write_vec v) _; signer := h; wrap_peek := _; sequence := _ |}).
  destruct (do_write_ok queued returned (write_serial_response_header (sequence self1)) d2 Hok2) as (Hok3 & Hin3 & Hout3).
  destruct (do_write_ok queued returned (write_vec v) _ Hok3) as (Hok4 & Hin4 & Hout4).
  destruct (receive_reply_ok v self2) as (self' & Hr & Hq' & Hsg & Hsq).
  - done.
  - change (device self2) with (do_write (write_vec v) (do_write (write_serial_response_header (sequence self1)) d2)).
    by rewrite Hin4, Hin3.
  - cbn. by rewrite Hsq1.
  - by apply (Hlen v h).
  - unfold line_contents in *. apply app_eq_nil in Hout1 as [Hw Ho]. rewrite Ho in Hout2.
    change (wrap_peek self2) with (wrap_peek self1). rewrite Hw. cbn [app].
    change (device self2) with (do_write (write_vec v) (do_write (write_serial_response_header (sequence self1)) d2)).
    by rewrite Hout4, Hout3, Hout2.
  - exists self'. split; [exact Hr|]. split; [done|]. rewrite Hsg, Hsq. cbn. by rewrite Hsq1.
Qed.

(** C19: a call through the serial line is a call of the signer.  Over a line on which
    no byte is on its way the host makes any sequence of calls, for the node
    or for a channel.  However the USB stack cuts the bytes, and whenever the
    timer of the device interrupts it, the host gets exactly the replies that
    the signer gives to these messages, in their order; the signer is in the
    same state, the line is quiet again, and the sequence number has gone on
    by one for every call.  The first message that cannot be decoded or that
    the signer refuses stops the device. *)
Theorem serial_line_is_calls calls self (Hq : quiet self) (Hcalls : Forall call_ok calls) (Hfit : replies_fit) :
  match direct_calls calls (signer self) with
  | Ok (replies, h) => exists self',
      handle_messages root_handle client_handle calls self = Ok (replies, self')
      /\ quiet self' /\ signer self' = h
      /\ sequence self' = as_u 16 (sequence self + Z.of_nat (length calls))
  | _ => handle_messages root_handle client_handle calls self = Panic
  end.
Proof.
  revert self Hq. induction Hcalls as [|[client_id message] calls Hcall _ IH]; intros self Hq.
  { exists self. split; [done|]. split; [done|]. split; [done|]. destruct Hq as (_ & _ & _ & Hs).
    unfold as_u. rewrite Z.add_0_r. by rewrite Z.mod_small. }
  cbn [direct_calls handle_messages]. pose proof (serial_call_ok client_id message self Hq Hcall Hfit) as Hm.
  destruct (direct_call client_id message (signer self)) as [[reply h]|e|]; [|by rewrite Hm..].
  destruct Hm as (self1 & -> & Hq1 & Hsg & Hsq). rewrite !Ok_bind. specialize (IH self1 Hq1). rewrite Hsg in IH.
  destruct (direct_calls calls h) as [[replies h']|e|]; [|by rewrite IH..].
  destruct IH as (self' & -> & Hq' & Hsg' & Hsq'). rewrite !Ok_bind. exists self'. split; [done|]. split; [done|].
  split; [done|]. rewrite Hsq', Hsq. unfold as_u. rewrite Zplus_mod_idemp_l. f_equal. cbn [length]. lia.
Qed.
End calls.

(** ** An example *)

(** A cable that carries three bytes at a time to the device and two to the
    host, and that is polled in vain [ex_patience] times after a write. *)
Record ExCable := { ex_queued : bytes; ex_returned : bytes; ex_patience : nat }.

#[local] Instance ex_cable : Cable ExCable := {
  usb_poll p :=
    match ex_patience p with
    | O => (p, true)
    | S k => ({| ex_queued := ex_queued p; ex_returned := ex_returned p; ex_patience := k |}, false)
    end;
  port_read n p :=
    let k := Nat.min n 3 in
    ({| ex_queued := drop k (ex_queued p); ex_returned := ex_returned p; ex_patience := ex_patience p |},
     Ok (take k (ex_queued p)));
  port_write d p :=
    ({| ex_queued := ex_queued p; ex_returned := ex_returned p ++ take 5 d; ex_patience := ex_patience p |},
     Ok (Nat.min (length d) 5));
  file_ready p := bool_decide (ex_returned p <> []);
  file_read n p :=
    let k := Nat.min n 2 in
    ({| ex_queued := ex_queued p; ex_returned := drop k (ex_returned p); ex_patience := ex_patience p |},
     Ok (take k (ex_returned p)));
  file_write_all d p :=
    ({| ex_queued := ex_queued p ++ d; ex_returned := ex_returned p; ex_patience := 4 |}, Ok tt);
  patience := ex_patience
}.

#[local] Instance ex_cable_laws : CableLaws ex_queued ex_returned.
Proof.
  split.
  - intros p p' b. cbn. destruct (ex_patience p) as [|k] eqn:Hk; intros [= <- <-]; cbn; rewrite ?Hk; repeat split; try done; try lia; intros; lia.
  - intros n p p' r [= <- <-] Hn. cbn [ex_queued ex_returned ex_patience patience].
    split; [done|]. split; [done|]. split; [by rewrite take_drop|]. rewrite length_take. split; [lia|]. intros Hnil Hq. destruct (ex_queued p); [done|]. by destruct n; [lia|].
  - intros d p p' r [= <- <-] Hd. cbn [ex_queued ex_returned ex_patience patience]. split; [done|]. split; [done|]. split; [lia|].
    split; [|by destruct d]. f_equal. destruct (decide (length d <= 5)%nat).
    + by rewrite Nat.min_l, !take_ge by lia.
    + by rewrite Nat.min_r by lia.
  - done.
  - intros n p Hn Hr. eexists _, _. split; [done|]. cbn [ex_queued ex_returned]. rewrite take_drop, length_take.
    split; [|split; [lia|done]]. destruct (ex_returned p); [done|]. by destruct n; [lia|].
  - intros d p. by eexists.
Qed.

#[local] Existing Instance example_serde.
#[local] Instance ex_errors : BoltErrors := { bolt_message _ := TooShort; bolt_eof := TooShort }.

(** A signer that counts the messages, those of a client twice. *)
Definition ex_root (m : Message) (h : nat) : nat * outcome unit SerBolt :=
  (Datatypes.S h, Ok (pack Msgs.Pong (7, [112]))).
Definition ex_client (peer : bytes) (dbid : Z) (m : Message) (h : nat) : nat * outcome unit SerBolt :=
  ((h + 2)%nat, Ok (pack Msgs.Pong (8, [113]))).

Definition ex_line : Line ExCable nat := {|
  device := SerialDriver_new {| ex_queued := []; ex_returned := []; ex_patience := 2 |} [1; 0; 3; 2]%nat;
  signer := 0%nat; wrap_peek := None; sequence := 65535 |}.

Definition ex_message : bytes := to_be_bytes 2 1000 ++ [0; 7; 112; 105; 0].

Definition ex_calls : list (option ClientId * bytes) :=
  [(None, ex_message); (Some {| ci_peer_id := replicate 33 2; ci_dbid := 5 |}, ex_message)].

Lemma ex_line_quiet : quiet ex_queued ex_returned ex_line.
Proof. split; [|split; [|split]]; [split; [by vm_compute|vm_compute; lia]|by vm_compute..|cbn; lia]. Qed.

Lemma ex_calls_ok : Forall call_ok ex_calls.
Proof.
  apply Forall_cons_2; [|apply Forall_cons_2; [|constructor]].
  - split; [by vm_compute|exact I].
  - split; [by vm_compute|]. split; [by vm_compute|cbn; lia].
Qed.

Lemma ex_replies_fit : replies_fit ex_root ex_client.
Proof.
  intros client_id message n reply h'. unfold direct_call.
  destruct (from_vec message) as [m|e|]; [|done..]. cbn [unwrap_ok]. rewrite Ok_bind. unfold dispatch.
  destruct (0 <? _); intros Heq; injection Heq as <- _; by vm_compute.
Qed.

Lemma serial_line_is_calls_witness : exists self' a b,
  handle_messages ex_root ex_client ex_calls ex_line = Ok ([a; b], self')
  /\ signer self' = 3%nat /\ sequence self' = 1.
Proof.
  destruct (serial_line_is_calls ex_queued ex_returned ex_root ex_client ex_calls ex_line ex_line_quiet
    ex_calls_ok ex_replies_fit) as (self' & Hm & _ & Hs & Hseq).
  exists self'. eexists _, _. split; [exact Hm|]. split; [exact Hs|]. rewrite Hseq. reflexivity.
Defined.
